(* ===== verification/_CoqProject ===== *)
-Q . S2P
Prelude.v
Runtime.v
GoText.v
GoTime.v
Domain.v
Compliance.v
MediaKey.v
StoreState.v
Threads.v
Accounts.v
Devices.v
Resets.v
Projection.v
Conversations.v
Membership.v
LocalIDs.v
ConvFrame.v
Messages.v
Participants.v
Entities.v
Media.v
MediaQuotas.v
MediaLifecycle.v
Outbox.v
Push.v
RateLimit.v
Presence.v
Bus.v
Anonymize.v
Erasure.v
ErasureEffects.v
PushProviders.v
PushClients.v
Relay.v
RelayFacts.v
RelayPushFacts.v
MailQueue.v
MailWorker.v
Cleanup.v
AuthTokens.v
NatsBus.v
NatsBusFacts.v
Verification.v
Redis.v
OTP.v
OTPFacts.v
Http.v
SessionCache.v
Realtime.v
RealtimeFacts.v
Middleware.v
HttpAuth.v
HttpConversations.v
HttpMedia.v
HttpIdentity.v
HttpResets.v
HttpCompliance.v
HttpReference.v
OTPRuns.v
Config.v
EnvFile.v
SMTP.v
SMTPFacts.v
Startup.v
StartupFacts.v
ObjectStorage.v
ObjectStorageFacts.v
AppleAuth.v
HttpAuthFacts.v
HttpConversationsFacts.v
HttpMediaFacts.v
HttpIdentityFacts.v
Router.v
RouterFacts.v
