(* ===== verification/Prelude.v ===== *)
(** * Clixor backend: a verification library

    ** The program

    The repository is the Go backend of a messaging and shared-expenses application.  An
    HTTP layer ([src/internal/httpapi]) calls a store ([src/internal/store], with an
    in-memory implementation in [store/memory] and a PostgreSQL one in [store/postgres]);
    the store keeps accounts, devices, conversations, messages, shared entities and media
    rows, and records every change other parties must learn of in a transactional outbox.
    Workers take events and rows from the store under leases and deliver them: realtime
    events to subscribers through an event bus, pushes to devices, mail, deletions of
    stored objects.  Presence, rate limiting, one-time codes by SMS and sign in with Apple are
    services of their own.  [cmd/api] reads the configuration and wires all of it.

    The core of the development is the memory store: it carries the rules of the whole
    system as plain code, and it is the reference the tests run the other layers against.
    Above it stand the HTTP handlers and the workers, beside it the services.

    ** How the code is modelled

    - Data: one record per Go struct, fields prefixed with the struct's name ([Domain]);
      [Store] has one field per field of the memory store.  Maps are [gmap]; a loop over a
      map goes through [range], whose order is a parameter, so that no theorem depends on
      it.  [time.Time] is an integer of nanoseconds, [int64] counters wrap at their width
      ([int64_wrap]), strings are byte strings, JSON documents are decoded values with
      their numbers as decimal literals.
    - Operations: one function per method.  A method runs in one critical section of the
      store's lock, so it is one function from the store before to the store after and a
      result; errors are values of [res] or [option Error], and every error path returns
      the store as it is at that moment.  An operation that leaves the lock in the middle
      (a delivery whose callback runs unlocked) is two functions; what others do meanwhile
      is a parameter.
    - Threads: code that reaches the store, a bucket or another service several times (a
      handler, a round of a worker, a client of the object storage) is a program of a monad
      ([Threads], [Http], [ObjectStorage.Cloud]) that alternates its accesses with arbitrary
      actions of everybody else and records its calls.
    - Concurrent objects (the buses, the revocation cache, a realtime connection) are transition
      systems: a state, labels for the critical sections and channel operations of the
      goroutines, and a step function; invariants are proved for all reachable states.
    - Time and identifiers: the readings of [time.Now] of a call are [clock 0], [clock 1],
      ...; identifiers from [uuid.New] are arguments.  Hypotheses that a new identifier is
      not in use are stated where they are needed.
    - Libraries and services outside the repository are classes with documented laws and a
      concrete instance on which everything runs: [GoRuntime] ([Runtime]: uuid, strings,
      unicode), [AccountText] ([Anonymize]), [MailLibrary] ([MailQueue]), the token and
      password libraries ([AuthTokens]), [ConfigLibrary] ([Config]: net/url, net/mail, strconv),
      [RedisServer] ([Redis]: the commands the scripts call), [ObjectServer] and [MediaText]
      ([ObjectStorage]: the calls of the OCI service), [AppleLibrary] ([AppleAuth]).  The strconv,
      hex and base64 functions whose results matter are defined ([GoText], [GoTime]).

    ** The files

    - [Prelude]: record update, integers and time, tactics, lemmas on lists and maps.
    - [Runtime]: identifiers, the interface [GoRuntime] and its reference instance; [GoText],
      [GoTime]: text, encodings and calendar dates of the Go library; [Threads]: the monad of
      code that shares the store.
    - [Domain], [StoreState]: [domain/models.go], [store/store.go], the structure of
      [store/memory/memory.go], appends to the outbox.
    - [Compliance], [MediaKey]: [compliance/memory.go] and [model.go]; [mediakey/key.go].
    - [Accounts], [Devices], [Resets]: users and their indexes; devices, pre-keys and
      sessions; password resets and the mail queue.
    - [Projection]: [store/member_projection.go], the member list inside group metadata.
    - [Conversations] with [Membership], [LocalIDs], [ConvFrame]: conversations,
      invitations, members; the ownership invariant, the local ids, and what an operation
      leaves alone.
    - [Messages], [Participants], [Entities]: messages, pages and receipts;
      [store/entity_participants.go]; versioned entities and chore rotation.
    - [Media] with [MediaQuotas], [MediaLifecycle]: reservations, verification leases,
      publication, deletion.
    - [Outbox], [Push]: the outbox and the push rows with their leases.
    - [Anonymize], [Erasure], [ErasureEffects]: [store/account.go] and the deletion of an
      account through every table.
    - [Bus], [Presence], [RateLimit]: [events/memory.go], [presence/presence.go],
      [ratelimit/limiter.go].
    - [NatsBus] with [NatsBusFacts]: [events/nats.go], the bus of several replicas: leases,
      fence markers and fences as one transition system of the replicas, the two buckets
      and the clock.
    - [PushProviders], [PushClients]: [push/push.go] and [platform.go]; the clients of Apple
      and Google, [apns.go] and [fcm.go].
    - [Relay] with [RelayFacts], [RelayPushFacts]: [outbox/relay.go], the worker that empties
      the outbox and the push rows.
    - [MailQueue], [MailWorker], [SMTP] with [SMTPFacts]: [mail/queue.go] over an abstract
      authenticated cipher, [mail/worker.go], and the submission of [mail/smtp.go] as the trace
      of what goes over the connection.
    - [Cleanup]: the rounds of [media/cleanup.go] and [chores/cleanup.go].
    - [ObjectStorage] with [ObjectStorageFacts]: [media/oci.go], [s3.go] and [media.go].
    - [AuthTokens], [AppleAuth]: [auth/tokens.go] and [password.go]; [appleauth/appleauth.go].
    - [Verification], [Redis], [OTP] with [OTPFacts], [OTPRuns]: [verification/]: the interface,
      the one-time codes with their Lua scripts, their specification, and runs of both.
    - The HTTP layer: [Http] ([json.go], [context.go], the monad of handlers), [Middleware]
      ([client_ip.go], [server.go]), [HttpAuth], [HttpConversations], [HttpMedia],
      [HttpIdentity], [HttpResets], [HttpCompliance] (the handlers), [Router] (the routes),
      with [HttpAuthFacts], [HttpConversationsFacts], [HttpMediaFacts], [HttpIdentityFacts],
      [RouterFacts], and [HttpReference], a concrete server.
    - [SessionCache], [Realtime] with [RealtimeFacts]: [session_events.go], the revoked sessions
      and the guards of the sockets of a process; [realtime.go], one connection.
    - [Config], [EnvFile], [Startup] with [StartupFacts]: [config/config.go],
      [config/envfile.go], and what [cmd/api/main.go] makes of them.

    ** What is proved

    - Messages of a conversation are numbered 1, 2, 3, ... without gaps; a retried message is
      stored once; pages are exactly the requested windows and a forward walk reaches every
      message; receipts never move back.
    - Every conversation has exactly one owner, who is a member and its recorded creator;
      membership changes only through the operations that check the role of the actor;
      local ids are injective and immutable; the projected member list is exactly the
      relational one, and the search for a free local id ends.
    - Entities have no lost updates; a rotation of a chore is applied once.
    - Leases (outbox, push, mail, media verification) are exclusive: between a claim and the
      end of its lease no run of other operations claims or finishes the row for somebody
      else; two realtime deliveries of an event never overlap; a push goes out once per
      device and only when no block forbids it at that moment.
    - Pre-keys are handed out once; a reused refresh token revokes the session; a reset code
      can be guessed a bounded number of times, and a completed reset ends every session.
    - Media quotas hold in every reachable state; no stored object disappears without its
      key being queued for deletion; a clean-up round ends and leaves no reservation that was due;
      an object published in OCI is what was declared and stays as it is until it is deleted.
    - Deleting an account removes what the specification [Erased] lists, fails without a
      trace, spares everybody else and keeps the ownership invariant, orphans no object; the
      sanitizer scrubs the objects of the account, keeps amounts and structure, and without
      authority touches only documents that refer to the account.
    - The relay acknowledges an event only right after the bus took its translation for the
      members of that moment, and an object deletion only after every object is gone, in
      every interleaving with the others; left alone it settles every leased event and
      every leased push row; notifications carry generic text and never reach the person
      who acted; retries back off within exact bounds and never overflow.  A push provider is
      asked a bounded number of times and its answer is read as what it says.
    - Queued mail opens to what was sealed and, under a cipher that binds its additional
      data, only in its own row; the mail worker settles every leased row; credentials and mails
      go only over an encrypted connection, and the result of a submission says what happened to
      the mail.
    - The memory bus never sends on or closes a closed channel, and no session escapes a fence,
      in any interleaving of goroutines; on the NATS bus a fence reaches every replica that is
      not stalled beyond its lease.  A revocation reaches every socket of a process, and a
      connection writes only while its guard, its lease and its session allow it.  The presence
      service refines its specification; the limiter lets at most twice the limit through in any
      window.
    - Every request gets exactly one response of the documented range; every endpoint but the
      open ones runs its handler only for a token of a live session, after the rate limits; a
      refused request changes nothing; a sign-in checks the password that is stored, a sign-out
      ends the session; a message comes from the device it names; a new conversation reaches only
      people who may be reached; an upload becomes ready only after it was verified; the start
      of a reset answers the same whether or not the address is known; an identity of Apple's
      was issued for this sign-in.
    - The Lua scripts of the one-time codes refine a specification without Redis; a code is
      guessed a bounded number of times in every interleaving, the right code is accepted, and
      the number of messages is bounded.
    - An accepted configuration meets the conditions the other parts rely on; a production
      server runs on the durable store, with encrypted connections, distinct secrets and real
      codes; the configuration file is applied as a whole or not at all.
    - Defects the model exposed are theorems too: the deadlock between closing the bus and
      closing a subscription, the redaction that misses an overlapping identifier, what
      re-creating a conversation under a deleted id brings back, the push rows a block
      keeps pending for ever, the delivery status a late attachment overwrites, the settings that
      are checked but not replaced by their defaults, the age that is wrong by a day on 29 February,
      and the fence a stalled replica escapes.

    ** Bounds and fuel

    Loops that are not structural have a measure as fuel, and lemmas show that it suffices:
    [sort.Search] the length of the interval, the search for a free local id one more than
    the number of ids in use, batches of media deletions the number of keys, a clean-up round one
    more than the number of reservations that are due.  Loops the code bounds itself have its
    bound: three attempts of a push, ten pages of capabilities.  Counters of
    outbox events and push rows, versions and byte counts wrap at 64 bits; theorems about
    them assume room below the limit where wrapping would matter, and quotas are assumed
    below 2^62.

    ** Not modelled

    The PostgreSQL store is SQL that an external database runs: what it means depends on that
    database, and the Go around it passes rows on; the memory store has the rules.  The same holds
    of the presence service and the limiter on Redis, but not of the one-time codes, whose scripts
    are modelled.  Of the network clients the parts that open connections are left out: the set-up
    of the NATS connection, the constructors of the OCI and S3 clients, the HTTP client of the SMS
    gateway.  Of the workers, the tickers that start their rounds; of the HTTP layer, the static
    pages and link files, the HTTP wrapper of the delivery webhook, the metrics and the logs; of
    the commands, listening and shutdown, the migration and the compliance tools.
    [observability] and [tlsconfig] are glue to third-party libraries. *)

From Stdlib Require Import ZArith Lia.
From stdpp Require Export base tactics list sorting strings gmap fin_maps fin_map_dom.

#[export] Set Default Goal Selector "!".
#[export] Set Warnings "-clear-no-such-hyp".

Declare Scope go_scope.
Delimit Scope go_scope with go.
Open Scope go_scope.

(** ** Record update

    Go structs are copied and then modified field by field.  A [Setter] is the
    functional form of one field assignment; [field_setter] generates it from
    the record's eta expansion. *)
Class Setter {R E : Type} (proj : R → E) := set_field : (E → E) → R → R.
Arguments set_field {R E} proj {_} _ _ : simpl nomatch.

Ltac field_setter eta proj :=
  let e := eval unfold eta in eta in
  exact (λ f r, ltac:(
    let b := eval cbv beta in (e r) in
    match b with
    | context C [proj r] => let b' := context C [f (proj r)] in exact b'
    end)).

Notation "r <| p := v |>" := (set_field p (λ _, v) r)
  (at level 1, left associativity, p at level 9, format "r  <| p  :=  v |>") : go_scope.
Notation "r <| p ::= g |>" := (set_field p g r)
  (at level 1, left associativity, p at level 9, format "r  <| p  ::=  g |>") : go_scope.

(** ** Go integers and durations

    [time.Time] values are kept as nanoseconds since Go's zero time, so the zero
    value of the type is [0]; [time.Duration] is a signed 64-bit count of
    nanoseconds. *)
Definition int64_wrap (z : Z) : Z := ((z + 2 ^ 63) mod 2 ^ 64 - 2 ^ 63)%Z.
Definition uint64_wrap (z : Z) : Z := (z mod 2 ^ 64)%Z.

Lemma int64_wrap_small z : (- 2 ^ 63 ≤ z < 2 ^ 63)%Z → int64_wrap z = z.
Proof. intros. unfold int64_wrap. rewrite Z.mod_small; lia. Qed.

Lemma int64_wrap_range z : (- 2 ^ 63 ≤ int64_wrap z < 2 ^ 63)%Z.
Proof.
  unfold int64_wrap. pose proof (Z.mod_pos_bound (z + 2 ^ 63) (2 ^ 64)). lia.
Qed.

Lemma uint64_wrap_range z : (0 ≤ uint64_wrap z < 2 ^ 64)%Z.
Proof. unfold uint64_wrap. apply Z.mod_pos_bound. lia. Qed.

Definition Second : Z := 1000000000.
Definition Minute : Z := 60 * Second.
Definition Hour : Z := 60 * Minute.

(** [t.IsZero()], [a.After(b)], [a.Before(b)]. *)
Definition IsZero (t : Z) : bool := (t =? 0)%Z.
Definition After (a b : Z) : bool := (b <? a)%Z.
Definition Before (a b : Z) : bool := (a <? b)%Z.

Lemma After_spec a b : After a b = true ↔ (b < a)%Z.
Proof. apply Z.ltb_lt. Qed.
Lemma After_false a b : After a b = false ↔ (a ≤ b)%Z.
Proof. apply Z.ltb_ge. Qed.
Lemma Before_spec a b : Before a b = true ↔ (a < b)%Z.
Proof. apply Z.ltb_lt. Qed.
Lemma Before_false a b : Before a b = false ↔ (b ≤ a)%Z.
Proof. apply Z.ltb_ge. Qed.

(** ** Case analysis on operations

    Every operation of the store is a chain of [if]s and lookups that ends in a
    pair of a state and a result.  [op_cases H] splits the chain of the
    hypothesis [H], discards the branches that contradict it, and turns boolean
    guards into propositions. *)
Lemma bool_decide_negb (P : Prop) `{Decision P} :
  negb (bool_decide P) = bool_decide (¬ P).
Proof. repeat case_bool_decide; naive_solver. Qed.

Ltac bool_prop :=
  repeat match goal with
  | H : (_ && _)%bool = true |- _ => apply andb_true_iff in H; destruct H
  | H : (_ || _)%bool = false |- _ => apply orb_false_iff in H; destruct H
  | H : negb _ = true |- _ => apply negb_true_iff in H
  | H : negb _ = false |- _ => apply negb_false_iff in H
  | H : bool_decide _ = true |- _ => apply bool_decide_eq_true in H
  | H : bool_decide _ = false |- _ => apply bool_decide_eq_false in H
  | H : (_ <? _)%Z = true |- _ => apply Z.ltb_lt in H
  | H : (_ <? _)%Z = false |- _ => apply Z.ltb_ge in H
  | H : (_ <=? _)%Z = true |- _ => apply Z.leb_le in H
  | H : (_ <=? _)%Z = false |- _ => apply Z.leb_gt in H
  | H : (_ =? _)%Z = true |- _ => apply Z.eqb_eq in H
  | H : (_ =? _)%Z = false |- _ => apply Z.eqb_neq in H
  | H : After _ _ = true |- _ => apply After_spec in H
  | H : After _ _ = false |- _ => apply After_false in H
  | H : Before _ _ = true |- _ => apply Before_spec in H
  | H : Before _ _ = false |- _ => apply Before_false in H
  | H : IsZero _ = true |- _ => apply Z.eqb_eq in H
  | H : IsZero _ = false |- _ => apply Z.eqb_neq in H
  end.

Ltac op_cases H :=
  repeat match type of H with
  | context [match ?e with _ => _ end] =>
      let E := fresh "E" in destruct e eqn:E; try discriminate H
  end;
  simplify_eq/=; bool_prop.

(** Running an operation on a concrete state and keeping the state symbolic. *)
Lemma pair_run {A B} (p : A * B) (b : B) : p.2 = b → p = (p.1, b).
Proof. destruct p. simpl. by intros ->. Qed.

(** A list whose keys do not repeat has one element per key. *)
Lemma NoDup_fmap_unique {A K} (key : A → K) (l : list A) x y :
  NoDup (key <$> l) → x ∈ l → y ∈ l → key x = key y → x = y.
Proof.
  induction l as [|z l IH]; intros Hnd Hx Hy Heq; [by apply not_elem_of_nil in Hx|].
  rewrite fmap_cons, NoDup_cons in Hnd. destruct Hnd as [Hz Hnd].
  apply elem_of_cons in Hx as [->|Hx]; apply elem_of_cons in Hy as [->|Hy]; auto;
    destruct Hz; [rewrite Heq|rewrite <- Heq]; by apply list_elem_of_fmap_2.
Qed.

Lemma elem_of_bool_filter {A} (f : A → bool) (l : list A) x : x ∈ List.filter f l ↔ x ∈ l ∧ f x = true.
Proof. by rewrite !list_elem_of_In, filter_In. Qed.

Lemma sublist_bool_filter {A} (f : A → bool) (l : list A) : List.filter f l `sublist_of` l.
Proof. induction l as [|x l IH]; simpl; [done|]. destruct (f x); by constructor. Qed.

Lemma NoDup_fmap_filter {A K} (key : A → K) (f : A → bool) (l : list A) :
  NoDup (key <$> l) → NoDup (key <$> List.filter f l).
Proof.
  induction l as [|x l IH]; [done|]. rewrite fmap_cons, NoDup_cons. intros [Hx Hnd]. simpl.
  destruct (f x); [|by apply IH]. rewrite fmap_cons. constructor; [|by apply IH].
  intros Hin. apply Hx. apply list_elem_of_fmap in Hin as (y & -> & Hy).
  apply list_elem_of_fmap_2. by apply elem_of_bool_filter in Hy as [? _].
Qed.

(** ** Writing a batch of rows back

    [for _, x := range batch { m[key(x)] = x }] and its deleting counterpart. *)
Section batches.
Context {K A : Type} `{Countable K}.
Implicit Types (m : gmap K A) (l : list A).

Definition insert_all (key : A → K) l m : gmap K A :=
  foldl (λ m x, <[key x := x]> m) m l.

Definition delete_all {B} (l : list K) (m : gmap K B) : gmap K B :=
  foldl (λ (m : gmap K B) k, delete k m) m l.

Lemma lookup_insert_all_ne key l m k :
  k ∉ (key <$> l) → insert_all key l m !! k = m !! k.
Proof.
  revert m. induction l as [|x l IH]; intros m Hk; simpl; [done|].
  rewrite fmap_cons, not_elem_of_cons in Hk. destruct Hk as [Hx Hl].
  fold (insert_all key l (<[key x := x]> m)). rewrite IH by done. by rewrite lookup_insert_ne.
Qed.

Lemma lookup_insert_all key l m x :
  NoDup (key <$> l) → x ∈ l → insert_all key l m !! key x = Some x.
Proof.
  revert m. induction l as [|y l IH]; intros m Hnd Hx; [by apply not_elem_of_nil in Hx|].
  rewrite fmap_cons, NoDup_cons in Hnd. destruct Hnd as [Hy Hnd]. simpl.
  fold (insert_all key l (<[key y := y]> m)).
  apply elem_of_cons in Hx as [->|Hx]; [|by apply IH].
  rewrite lookup_insert_all_ne by done. apply lookup_insert_eq.
Qed.

(** The rows after the write: a new row of the batch, or an old one. *)
Lemma lookup_insert_all_Some key l m k x :
  NoDup (key <$> l) →
  (insert_all key l m !! k = Some x ↔
   (x ∈ l ∧ key x = k) ∨ ((k ∉ (key <$> l)) ∧ m !! k = Some x)).
Proof.
  intros Hnd. destruct (decide (k ∈ (key <$> l))) as [Hk|Hk].
  - apply list_elem_of_fmap in Hk as (y & -> & Hy).
    rewrite lookup_insert_all by done. split.
    + intros [= <-]. by left.
    + intros [[Hx Heq]|[Hn _]]; [|destruct Hn; by apply list_elem_of_fmap_2].
      f_equal. by eapply NoDup_fmap_unique.
  - rewrite lookup_insert_all_ne by done. split; [by right|]. intros [[Hx <-]|[_ ?]]; [|done].
    destruct Hk. by apply list_elem_of_fmap_2.
Qed.

Lemma lookup_delete_all {B} (l : list K) (m : gmap K B) k :
  delete_all l m !! k = if decide (k ∈ l) then None else m !! k.
Proof.
  revert m. induction l as [|x l IH]; intros m.
  { by destruct (decide (k ∈ [])) as [?%not_elem_of_nil|]. }
  change (delete_all (x :: l) m) with (delete_all l (delete x m)). rewrite IH.
  destruct (decide (k ∈ l)) as [Hl|Hl]; [by rewrite decide_True by set_solver|].
  destruct (decide (k = x)) as [->|Hne].
  - by rewrite lookup_delete_eq, decide_True by set_solver.
  - by rewrite lookup_delete_ne, decide_False by set_solver.
Qed.
End batches.

(** ** Shared hint database *)
Create HintDb store discriminated.
