(* ===== verification/Runtime.v ===== *)
(** * The run time the backend stands on

    What the Go code takes from outside the repository, as an interface:

    - [github.com/google/uuid]: the 16-byte identifier type and its textual form
      ([String], [Parse], [NewSHA1]);
    - the Unicode tables behind [strings.ToLower], [strings.TrimSpace],
      [strings.EqualFold] and [utf8.ValidString];
    - the iteration order of [range] over a map, which Go leaves unspecified.

    [GoRuntime] lists the operations with the documented facts the development
    uses.  Every component is parameterised by an instance of it, so its theorems
    hold for every iteration order and every text table with these laws.
    [reference_runtime] is one concrete instance (canonical hexadecimal UUIDs,
    ASCII text, [map_to_list] order) on which the definitions run. *)

From Stdlib Require Import NArith ZArith Lia Ascii.
From stdpp Require Export pretty.
From S2P Require Import Prelude.

(** ** Identifiers *)

(** [uuid.UUID] is an array of 16 bytes, here the number they spell. *)
Definition UUID : Type := { n : N | Is_true (n <? 2 ^ 128)%N }.

#[global] Instance UUID_eq_dec : EqDecision UUID := sig_eq_dec _.
#[global] Instance UUID_countable : Countable UUID := sig_countable _.

Definition uuid_Nil : UUID := exist _ 0%N I.
#[global] Instance UUID_inhabited : Inhabited UUID := populate uuid_Nil.

(** The identifier whose bytes spell [n]; out of range numbers give [uuid.Nil]. *)
Definition uuid_of_N (n : N) : UUID :=
  match decide (Is_true (n <? 2 ^ 128)%N) with
  | left H => exist _ n H
  | right _ => uuid_Nil
  end.

(** Printable ASCII without the space: these bytes are code points of their own
    and none of them is white space. *)
Definition graph_char (c : ascii) : bool :=
  (33 <=? N_of_ascii c)%N && (N_of_ascii c <? 127)%N.
Definition ascii_graph (s : string) : bool :=
  forallb graph_char (String.list_ascii_of_string s).

(** The bytes of the canonical text of an identifier. *)
Definition uuid_char (c : ascii) : bool :=
  let n := N_of_ascii c in
  (48 <=? n)%N && (n <=? 57)%N || (97 <=? n)%N && (n <=? 102)%N || (n =? 45)%N.

(** ** Maps of maps *)

(** [m[k1][k2]] of maps of maps. *)
Definition nested {V} `{Countable K} (m : gmap UUID (gmap K V)) (u : UUID) : gmap K V :=
  default ∅ (m !! u).

Lemma nested_insert {V} `{Countable K} (m : gmap UUID (gmap K V)) u x u' :
  nested (<[u := x]> m) u' = if decide (u = u') then x else nested m u'.
Proof.
  unfold nested. destruct (decide (u = u')) as [->|Hne].
  - by rewrite lookup_insert_eq.
  - by rewrite lookup_insert_ne.
Qed.

Lemma nested_delete {V} `{Countable K} (m : gmap UUID (gmap K V)) u u' :
  nested (delete u m) u' = if decide (u = u') then ∅ else nested m u'.
Proof.
  unfold nested. destruct (decide (u = u')) as [->|Hne].
  - by rewrite lookup_delete_eq.
  - by rewrite lookup_delete_ne.
Qed.

(** ** The interface *)

Class GoRuntime := {
  (** package strings and unicode/utf8 *)
  ToLower : string → string;
  TrimSpace : string → string;
  EqualFold : string → string → bool;
  ValidUTF8 : string → bool;
  (** package uuid *)
  uuid_String : UUID → string;
  uuid_Parse : string → option UUID;
  uuid_NewSHA1 : UUID → string → UUID;
  (** the float64 a JSON number literal mantissa * 10 ^ exponent decodes to (its bits) *)
  float64_of : Z → Z → Z;
  (** whether that float64 is below zero *)
  float64_negative : Z → Z → bool;
  (** for k, v := range m *)
  range : ∀ {K} `{Countable K} {V}, gmap K V → list (K * V);

  ToLower_idem s : ToLower (ToLower s) = ToLower s;
  ToLower_empty : ToLower "" = "";
  TrimSpace_idem s : TrimSpace (TrimSpace s) = TrimSpace s;
  TrimSpace_empty : TrimSpace "" = "";
  TrimSpace_ToLower s :
    TrimSpace (ToLower (TrimSpace s)) = ToLower (TrimSpace s);
  TrimSpace_graph s : ascii_graph s = true → TrimSpace s = s;
  TrimSpace_app s t :
    ValidUTF8 s = true → ValidUTF8 t = true → TrimSpace s = s → TrimSpace t = t →
    TrimSpace (s +:+ t) = s +:+ t;
  ValidUTF8_graph s : ascii_graph s = true → ValidUTF8 s = true;
  ValidUTF8_app s t : ValidUTF8 s = true → ValidUTF8 (s +:+ t) = ValidUTF8 t;
  ToLower_at : ToLower "@" = "@";
  ToLower_app s t : ValidUTF8 s = true → ToLower (s +:+ t) = ToLower s +:+ ToLower t;
  ValidUTF8_ToLower s : ValidUTF8 s = true → ValidUTF8 (ToLower s) = true;
  ValidUTF8_TrimSpace s : ValidUTF8 s = true → ValidUTF8 (TrimSpace s) = true;
  EqualFold_refl s : EqualFold s s = true;
  EqualFold_sym s t : EqualFold s t = EqualFold t s;

  float64_negative_sign m e : float64_negative m e = true → (m < 0)%Z;

  uuid_String_inj :: Inj (=) (=) uuid_String;
  uuid_String_length u : String.length (uuid_String u) = 36;
  uuid_String_chars u : forallb uuid_char (String.list_ascii_of_string (uuid_String u)) = true;
  uuid_Parse_String u : uuid_Parse (uuid_String u) = Some u;

  range_perm {K} `{Countable K} {V} (m : gmap K V) : range m ≡ₚ map_to_list m;
}.

(** ** Facts about [range] and keys that hold for every instance *)
Section runtime_facts.
Context `{GoRuntime}.

Lemma elem_of_range {K} `{Countable K} {V} (m : gmap K V) k v :
  (k, v) ∈ range m ↔ m !! k = Some v.
Proof. by rewrite range_perm, elem_of_map_to_list. Qed.

Lemma NoDup_fst_range {K} `{Countable K} {V} (m : gmap K V) :
  NoDup (range m).*1.
Proof. rewrite range_perm. apply NoDup_fst_map_to_list. Qed.

Lemma NoDup_range {K} `{Countable K} {V} (m : gmap K V) : NoDup (range m).
Proof. rewrite range_perm. apply NoDup_map_to_list. Qed.

Lemma range_empty {K} `{Countable K} {V} : range (∅ : gmap K V) = [].
Proof.
  apply Permutation_nil. symmetry. rewrite range_perm. by rewrite map_to_list_empty.
Qed.

Lemma length_range {K} `{Countable K} {V} (m : gmap K V) :
  length (range m) = size m.
Proof. by rewrite range_perm, length_map_to_list. Qed.
End runtime_facts.

(** ** Order on identifiers

    [sort.Slice] by [a.String() < b.String()]. *)
Section uuid_order.
Context `{GoRuntime}.

Definition uuid_text_le (x y : UUID) : Prop := String.le (uuid_String x) (uuid_String y).
#[global] Instance uuid_text_le_dec : RelDecision uuid_text_le :=
  λ x y, decide (String.le (uuid_String x) (uuid_String y)).

#[global] Instance uuid_text_le_trans : Transitive uuid_text_le.
Proof. intros x y z. unfold uuid_text_le. apply transitivity. Qed.
#[global] Instance uuid_text_le_total : Total uuid_text_le.
Proof. intros x y. unfold uuid_text_le. apply (total String.le). Qed.
#[global] Instance uuid_text_le_antisym : AntiSymm (=) uuid_text_le.
Proof.
  intros x y Hxy Hyx. apply (inj uuid_String). by apply (anti_symm String.le).
Qed.

Definition by_uuid {A} (f : A → UUID) (x y : A) : Prop := uuid_text_le (f x) (f y).
#[global] Instance by_uuid_dec {A} (f : A → UUID) : RelDecision (by_uuid f) :=
  λ x y, decide (uuid_text_le (f x) (f y)).
#[global] Instance by_uuid_trans {A} (f : A → UUID) : Transitive (by_uuid f).
Proof. intros x y z. unfold by_uuid. apply transitivity. Qed.
#[global] Instance by_uuid_total {A} (f : A → UUID) : Total (by_uuid f).
Proof. intros x y. unfold by_uuid. apply (total uuid_text_le). Qed.
End uuid_order.

(** [sort.Slice] by a time with ties broken by another order. *)
Section time_order.
Context {A : Type} (at_ : A → Z) (tie : relation A).

Definition time_then (x y : A) : Prop :=
  (at_ x < at_ y)%Z ∨ at_ x = at_ y ∧ tie x y.

#[global] Instance time_then_dec `{!RelDecision tie} : RelDecision time_then :=
  λ x y, decide ((at_ x < at_ y)%Z ∨ at_ x = at_ y ∧ tie x y).
#[global] Instance time_then_trans `{!Transitive tie} : Transitive time_then.
Proof.
  intros x y z [|[??]] [|[??]]; [left; lia..|right]. split; [lia|by etrans].
Qed.
#[global] Instance time_then_total `{!Total tie} : Total time_then.
Proof.
  intros x y. destruct (Z.lt_trichotomy (at_ x) (at_ y)) as [|[Heq|]]; [by left; left| |by right; left].
  destruct (total tie x y); [left|right]; by right.
Qed.
End time_order.

(** [sort.Slice] by an integer field. *)
Definition by_field {A} (f : A → Z) (x y : A) : Prop := (f x ≤ f y)%Z.
#[global] Instance by_field_dec {A} (f : A → Z) : RelDecision (by_field f) :=
  λ x y, decide (f x ≤ f y)%Z.
#[global] Instance by_field_trans {A} (f : A → Z) : Transitive (by_field f).
Proof. unfold by_field. intros x y z. lia. Qed.
#[global] Instance by_field_total {A} (f : A → Z) : Total (by_field f).
Proof. unfold by_field. intros x y. lia. Qed.

(** The first [n] of a sorted list come before all the others. *)
Lemma take_sorted_first {A} (R : relation A) `{!RelDecision R, !Transitive R, !Total R}
    (n : nat) (l : list A) x y :
  x ∈ take n (merge_sort R l) → y ∈ l → y ∉ take n (merge_sort R l) → R x y.
Proof.
  intros Hx Hy Hny. set (l' := merge_sort R l) in *.
  assert (StronglySorted R l') as Hs by (by apply StronglySorted_merge_sort).
  assert (y ∈ drop n l') as Hd.
  { assert (y ∈ l') as Hl by (unfold l'; by rewrite merge_sort_Permutation).
    rewrite <- (take_drop n l') in Hl. set_solver. }
  rewrite <- (take_drop n l') in Hs. revert Hs Hx Hd. generalize (take n l') (drop n l').
  intros l1 l2 Hs Hx Hd. induction l1 as [|z l1 IH]; [by apply not_elem_of_nil in Hx|].
  simpl in Hs. apply StronglySorted_inv in Hs as [Hs Hz]. rewrite Forall_forall in Hz.
  apply elem_of_cons in Hx as [->|Hx]; [apply Hz; set_solver|]. by apply IH.
Qed.

(** ** Selecting rows of a table

    Collect the rows that satisfy a test, sort them, keep the first [n].  The row
    carries its own key. *)
Section selection.
Context `{GoRuntime} {K V : Type} `{Countable K}.
Context (m : gmap K V) (key : V → K) (keyed : ∀ k v, m !! k = Some v → key v = k).
Implicit Types (f : V → bool) (R : relation V) (v : V).

Definition rows f : list V := List.filter f (range m).*2.

Lemma elem_of_rows f v : v ∈ rows f ↔ m !! key v = Some v ∧ f v = true.
Proof.
  unfold rows. rewrite list_elem_of_In, filter_In, <- list_elem_of_In, list_elem_of_fmap. split.
  - intros [([k v'] & -> & Hin) Hf]. apply elem_of_range in Hin. simpl.
    by rewrite (keyed k v').
  - intros [Hv Hf]. split; [|done]. exists (key v, v). by rewrite elem_of_range.
Qed.

Lemma NoDup_rows f : NoDup (key <$> rows f).
Proof.
  apply NoDup_fmap_2_strong.
  - intros x y [Hx _]%elem_of_rows [Hy _]%elem_of_rows Heq. rewrite Heq in Hx. congruence.
  - apply NoDup_ListNoDup, List.NoDup_filter, NoDup_ListNoDup.
    apply NoDup_fmap_2_strong; [|apply NoDup_range].
    intros [i x] [j y] Hx Hy. simpl. intros ->. f_equal.
    apply elem_of_range in Hx, Hy. by rewrite <- (keyed _ _ Hx), <- (keyed _ _ Hy).
Qed.

Definition select f R `{!RelDecision R} (n : nat) : list V := take n (merge_sort R (rows f)).

Lemma elem_of_select f R `{!RelDecision R} n v :
  v ∈ select f R n → m !! key v = Some v ∧ f v = true.
Proof.
  unfold select. intros (i & Hv & _)%elem_of_take. apply list_elem_of_lookup_2 in Hv.
  rewrite merge_sort_Permutation in Hv. by apply elem_of_rows.
Qed.

Lemma NoDup_select f R `{!RelDecision R} n : NoDup (key <$> select f R n).
Proof.
  unfold select. rewrite fmap_take. eapply sublist_NoDup; [|apply sublist_take].
  rewrite merge_sort_Permutation. apply NoDup_rows.
Qed.

Lemma length_select f R `{!RelDecision R} n : length (select f R n) ≤ n.
Proof. unfold select. rewrite length_take. lia. Qed.

(** Nothing that comes later in the order is preferred to a selected row. *)
Lemma select_first f R `{!RelDecision R, !Transitive R, !Total R} n x y :
  x ∈ select f R n → y ∈ rows f → y ∉ select f R n → R x y.
Proof. unfold select. by apply take_sorted_first. Qed.
End selection.

(** ** Composite string keys

    The memory store keys several maps by identifiers joined with [":"].  The
    fixed width of the textual form makes every such key unambiguous. *)
Lemma string_length_app a b :
  String.length (a +:+ b) = String.length a + String.length b.
Proof. induction a; simpl; auto. Qed.

Lemma string_app_assoc (a b c : string) : (a +:+ b) +:+ c = a +:+ (b +:+ c).
Proof. induction a as [|x a IH]; [done|]. exact (f_equal (String x) IH). Qed.

Lemma string_app_inj_prefix a a' b b' :
  String.length a = String.length a' →
  a +:+ b = a' +:+ b' → a = a' ∧ b = b'.
Proof.
  revert a'. induction a as [|c a IH]; intros [|c' a'] Hlen Heq; simplify_eq/=.
  - auto.
  - destruct (IH a') as [-> ->]; auto.
Qed.

Lemma string_app_inj_suffix a a' b b' :
  String.length b = String.length b' →
  a +:+ b = a' +:+ b' → a = a' ∧ b = b'.
Proof.
  intros Hlen Heq. apply string_app_inj_prefix; [|done].
  apply (f_equal String.length) in Heq. rewrite !string_length_app in Heq. lia.
Qed.

(** [len(s)] counts bytes. *)
Definition strlen (s : string) : Z := Z.of_nat (String.length s).

(** strings.HasPrefix and strings.TrimPrefix work on bytes. *)
Definition HasPrefix (s p : string) : bool := String.prefix p s.
Definition TrimPrefix (s p : string) : string :=
  if HasPrefix s p
  then String.substring (String.length p) (String.length s - String.length p) s
  else s.

Lemma HasPrefix_app p s : HasPrefix (p +:+ s) p = true.
Proof.
  unfold HasPrefix. induction p as [|c p IH]; simpl; [by destruct s|].
  by destruct (ascii_dec c c).
Qed.

Lemma substring_full s : String.substring 0 (String.length s) s = s.
Proof. induction s; simpl; congruence. Qed.

Lemma TrimPrefix_app p s : TrimPrefix (p +:+ s) p = s.
Proof.
  unfold TrimPrefix. rewrite HasPrefix_app, string_length_app.
  replace (String.length p + String.length s - String.length p)
    with (String.length s) by lia.
  induction p as [|c p IH]; simpl; [apply substring_full | apply IH].
Qed.

Lemma HasPrefix_spec p s :
  HasPrefix s p = true → ∃ t, s = p +:+ t.
Proof.
  revert s. unfold HasPrefix. induction p as [|c p IH]; intros s Hp; [by exists s|].
  destruct s as [|c' s]; simpl in Hp; [done|].
  destruct (ascii_dec c c') as [->|]; [|done].
  destruct (IH _ Hp) as [t ->]. by exists t.
Qed.

(** ** A concrete instance *)

Module Reference.

(** Canonical text: 32 hexadecimal digits in groups of 8-4-4-4-12. *)
Definition hex_digit (n : N) : ascii :=
  ascii_of_N (if (n <? 10)%N then 48 + n else 87 + n).

Fixpoint hex_digits (k : nat) (n : N) (acc : list ascii) : list ascii :=
  match k with
  | O => acc
  | S k => hex_digits k (n / 16)%N (hex_digit (n mod 16)%N :: acc)
  end.

Fixpoint insert_dashes (groups : list nat) (l : list ascii) : list ascii :=
  match groups with
  | [] => l
  | g :: gs => take g l ++ "-"%char :: insert_dashes gs (drop g l)
  end.

Definition String_ (u : UUID) : string :=
  String.string_of_list_ascii (insert_dashes [8; 4; 4; 4] (hex_digits 32 (`u) [])).

Definition digit_value (c : ascii) : option N :=
  let n := N_of_ascii c in
  if (48 <=? n)%N && (n <? 58)%N then Some (n - 48)%N
  else if (97 <=? n)%N && (n <? 103)%N then Some (n - 87)%N
  else if (65 <=? n)%N && (n <? 71)%N then Some (n - 55)%N
  else None.

Fixpoint parse_digits (l : list ascii) (acc : N) : option N :=
  match l with
  | [] => Some acc
  | c :: l => d ← digit_value c; parse_digits l (acc * 16 + d)%N
  end.

Definition strip_dashes (l : list ascii) : list ascii :=
  take 8 l ++ take 4 (drop 9 l) ++ take 4 (drop 14 l)
  ++ take 4 (drop 19 l) ++ drop 24 l.

Definition Parse (s : string) : option UUID :=
  let l := String.list_ascii_of_string s in
  if bool_decide (length l = 36) then uuid_of_N <$> parse_digits (strip_dashes l) 0
  else None.

Lemma digit_value_hex_digit n : (n < 16)%N → digit_value (hex_digit n) = Some n.
Proof.
  intros Hn. rewrite <- (N2Nat.id n). assert (N.to_nat n < 16) as Hk by lia.
  generalize dependent (N.to_nat n). intros k Hk.
  do 16 (destruct k as [|k]; [reflexivity|]). lia.
Qed.

Lemma hex_digits_app k n acc : hex_digits k n acc = hex_digits k n [] ++ acc.
Proof.
  revert n acc. induction k as [|k IH]; intros n acc; simpl; [done|].
  rewrite (IH _ (_ :: acc)), (IH _ [_]), <- app_assoc. done.
Qed.

Lemma length_hex_digits k n acc : length (hex_digits k n acc) = k + length acc.
Proof. revert n acc. induction k as [|k IH]; intros; simpl; [done|]. rewrite IH. simpl. lia. Qed.

Lemma parse_digits_app l1 l2 acc :
  parse_digits (l1 ++ l2) acc = parse_digits l1 acc ≫= parse_digits l2.
Proof.
  revert acc. induction l1 as [|c l1 IH]; intros acc; simpl; [done|].
  destruct (digit_value c); simpl; auto.
Qed.

Lemma parse_hex_digits k n acc :
  parse_digits (hex_digits k n []) acc = Some (acc * 16 ^ N.of_nat k + n mod 16 ^ N.of_nat k)%N.
Proof.
  revert n acc. induction k as [|k IH]; intros n acc; simpl.
  - f_equal. rewrite N.mod_1_r. lia.
  - rewrite hex_digits_app, parse_digits_app, IH. simpl.
    rewrite digit_value_hex_digit by (apply N.mod_lt; lia). simpl. f_equal.
    change (N.pos (Pos.of_succ_nat k)) with (N.of_nat (S k)).
    rewrite Nat2N.inj_succ, N.pow_succ_r'. rewrite N.Div0.mod_mul_r. lia.
Qed.

Lemma strip_insert l :
  length l = 32 → strip_dashes (insert_dashes [8; 4; 4; 4] l) = l.
Proof. intros Hl. do 33 (destruct l; simpl in Hl; try lia). reflexivity. Qed.

Lemma length_insert_dashes l :
  length l = 32 → length (insert_dashes [8; 4; 4; 4] l) = 36.
Proof. intros Hl. do 33 (destruct l; simpl in Hl; try lia). reflexivity. Qed.

Lemma uuid_of_N_proj (u : UUID) : uuid_of_N (`u) = u.
Proof.
  unfold uuid_of_N. destruct u as [n Hn]; simpl. case_decide as Hd; [|done].
  by apply (sig_eq_pi _).
Qed.

Lemma Parse_String u : Parse (String_ u) = Some u.
Proof.
  unfold Parse, String_. rewrite String.list_ascii_of_string_of_list_ascii.
  pose proof (length_hex_digits 32 (`u) []) as Hlen.
  rewrite length_insert_dashes, strip_insert by done.
  rewrite bool_decide_true by done. rewrite parse_hex_digits. simpl.
  rewrite <- (uuid_of_N_proj u) at 2. do 2 f_equal.
  apply N.mod_small. destruct u as [n Hn]; simpl.
  apply N.ltb_lt, Is_true_eq_true, Hn.
Qed.

Lemma length_String u : String.length (String_ u) = 36.
Proof.
  unfold String_.
  assert (∀ l, String.length (String.string_of_list_ascii l) = length l) as ->.
  { induction l; simpl; auto. }
  apply length_insert_dashes. by rewrite length_hex_digits.
Qed.

#[local] Instance String_inj : Inj (=) (=) String_.
Proof.
  intros u v Huv. apply (f_equal Parse) in Huv. rewrite !Parse_String in Huv. congruence.
Qed.

(** ASCII text. *)
Definition lower_ascii (c : ascii) : ascii :=
  let n := N_of_ascii c in
  if (65 <=? n)%N && (n <? 91)%N then ascii_of_N (n + 32) else c.

Fixpoint drop_space (l : list ascii) : list ascii :=
  match l with
  | c :: l' => if Ascii.is_space c then drop_space l' else l
  | [] => []
  end.

Definition trim (l : list ascii) : list ascii :=
  reverse (drop_space (reverse (drop_space l))).

Definition on_ascii (f : list ascii → list ascii) (s : string) : string :=
  String.string_of_list_ascii (f (String.list_ascii_of_string s)).

Definition ToLower_ := on_ascii (fmap lower_ascii).
Definition TrimSpace_ := on_ascii trim.

Lemma lower_ascii_idem c : lower_ascii (lower_ascii c) = lower_ascii c.
Proof. by destruct c as [[] [] [] [] [] [] [] []]. Qed.

Lemma is_space_lower c : Ascii.is_space (lower_ascii c) = Ascii.is_space c.
Proof. by destruct c as [[] [] [] [] [] [] [] []]. Qed.

Lemma drop_space_lower l : drop_space (lower_ascii <$> l) = lower_ascii <$> drop_space l.
Proof. induction l as [|c l IH]; simpl; [done|]. rewrite is_space_lower. by case_match. Qed.

Lemma trim_lower l : trim (lower_ascii <$> l) = lower_ascii <$> trim l.
Proof.
  unfold trim. by rewrite drop_space_lower, <- fmap_reverse, drop_space_lower, <- fmap_reverse.
Qed.

(** A trimmed list neither starts nor ends with a space. *)
Definition no_head_space (l : list ascii) : Prop :=
  match l with c :: _ => Ascii.is_space c = false | [] => True end.

Lemma drop_space_no_head l : no_head_space (drop_space l).
Proof. induction l as [|c l IH]; simpl; [done|]. by destruct (Ascii.is_space c) eqn:?. Qed.

Lemma drop_space_id l : no_head_space l → drop_space l = l.
Proof. destruct l as [|c l]; simpl; [done|]. by intros ->. Qed.

Lemma drop_space_suffix l : ∃ k, l = k ++ drop_space l.
Proof.
  induction l as [|c l [k Hk]]; simpl; [by exists []|].
  destruct (Ascii.is_space c); [|by exists []].
  exists (c :: k). simpl. by rewrite <- Hk.
Qed.

Lemma no_head_space_prefix a b : a ≠ [] → no_head_space (a ++ b) → no_head_space a.
Proof. by destruct a. Qed.

Lemma trim_no_head l : no_head_space (trim l).
Proof.
  unfold trim. pose proof (drop_space_no_head l) as Hh. revert Hh.
  generalize (drop_space l) as m. intros m Hm.
  destruct (drop_space_suffix (reverse m)) as [k Hk].
  apply (f_equal reverse) in Hk. rewrite reverse_involutive, reverse_app in Hk.
  destruct (reverse (drop_space (reverse m))) eqn:E; [done|].
  rewrite Hk in Hm. by apply no_head_space_prefix in Hm.
Qed.

Lemma trim_idem l : trim (trim l) = trim l.
Proof.
  unfold trim at 1. rewrite (drop_space_id (trim l)) by apply trim_no_head.
  unfold trim. rewrite reverse_involutive.
  by rewrite (drop_space_id (drop_space _)) by apply drop_space_no_head.
Qed.

Lemma on_ascii_compose f g s : on_ascii f (on_ascii g s) = on_ascii (λ l, f (g l)) s.
Proof. unfold on_ascii. by rewrite String.list_ascii_of_string_of_list_ascii. Qed.

Lemma on_ascii_ext f g s : (∀ l, f l = g l) → on_ascii f s = on_ascii g s.
Proof. intros Hfg. unfold on_ascii. by rewrite Hfg. Qed.

Lemma on_ascii_id s : on_ascii (λ l, l) s = s.
Proof. apply String.string_of_list_ascii_of_string. Qed.

Lemma trim_fixed l : trim l = l ↔ no_head_space l ∧ no_head_space (reverse l).
Proof.
  split.
  - intros Hl. split.
    + rewrite <- Hl. apply trim_no_head.
    + rewrite <- Hl. unfold trim. rewrite reverse_involutive. apply drop_space_no_head.
  - intros [Hh Ht]. unfold trim.
    rewrite (drop_space_id l), (drop_space_id (reverse l)) by done. apply reverse_involutive.
Qed.

Lemma no_head_space_app a b : no_head_space a → no_head_space b → no_head_space (a ++ b).
Proof. by destruct a. Qed.

Lemma graph_no_head l : Forall (λ c, Is_true (graph_char c)) l → no_head_space l.
Proof.
  destruct 1 as [|c l Hc _]; simpl; [done|]. revert Hc.
  by destruct c as [[] [] [] [] [] [] [] []].
Qed.

Lemma list_ascii_app s t :
  String.list_ascii_of_string (s +:+ t)
  = String.list_ascii_of_string s ++ String.list_ascii_of_string t.
Proof. induction s as [|c s IH]; simpl; [done|]. by rewrite <- IH. Qed.

Lemma string_of_list_app l k :
  String.string_of_list_ascii (l ++ k)
  = String.string_of_list_ascii l +:+ String.string_of_list_ascii k.
Proof. induction l as [|c l IH]; [done|]. exact (f_equal (String c) IH). Qed.

Lemma lower_ascii_small c :
  (N_of_ascii c <? 128)%N = true → (N_of_ascii (lower_ascii c) <? 128)%N = true.
Proof. by destruct c as [[] [] [] [] [] [] [] []]. Qed.

Lemma elem_of_drop_space c l : c ∈ drop_space l → c ∈ l.
Proof. destruct (drop_space_suffix l) as [k Hk]. rewrite Hk at 2. set_solver. Qed.

Lemma elem_of_trim c l : c ∈ trim l → c ∈ l.
Proof.
  unfold trim. intros Hc%elem_of_reverse%elem_of_drop_space.
  by apply elem_of_reverse, elem_of_drop_space in Hc.
Qed.

Lemma hex_digit_char n : (n < 16)%N → uuid_char (hex_digit n) = true.
Proof.
  intros Hn. rewrite <- (N2Nat.id n). assert (N.to_nat n < 16) as Hk by lia.
  generalize dependent (N.to_nat n). intros k Hk.
  do 16 (destruct k as [|k]; [reflexivity|]). lia.
Qed.

Lemma String_chars u : forallb uuid_char (String.list_ascii_of_string (String_ u)) = true.
Proof.
  unfold String_. rewrite String.list_ascii_of_string_of_list_ascii.
  assert (∀ k n acc, forallb uuid_char acc = true → forallb uuid_char (hex_digits k n acc) = true) as Hhex.
  { induction k as [|k IH]; intros n acc Ha; simpl; [done|]. apply IH. simpl.
    rewrite Ha, hex_digit_char; [done|]. apply N.mod_lt. lia. }
  assert (∀ groups l, forallb uuid_char l = true → forallb uuid_char (insert_dashes groups l) = true) as Hd.
  { induction groups as [|g groups IH]; intros l Hl; simpl; [done|].
    rewrite <- (take_drop g l), forallb_app in Hl. apply andb_true_iff in Hl as [Ht Hdr].
    rewrite forallb_app. simpl. by rewrite Ht, IH. }
  by apply Hd, Hhex.
Qed.

Definition EqualFold_ (s t : string) : bool := bool_decide (ToLower_ s = ToLower_ t).

#[program] Definition runtime : GoRuntime := {|
  ToLower := ToLower_; TrimSpace := TrimSpace_; EqualFold := EqualFold_;
  ValidUTF8 := λ s, forallb (λ c, N_of_ascii c <? 128)%N (String.list_ascii_of_string s);
  uuid_String := String_; uuid_Parse := Parse;
  uuid_NewSHA1 := λ ns name, uuid_of_N (foldl (λ h c, (h * 256 + N_of_ascii c) mod 2 ^ 128)
                                          (`ns) (String.list_ascii_of_string name))%N;
  float64_of := λ m e, if (0 <=? e)%Z then (m * 10 ^ e)%Z else (m / 10 ^ (- e))%Z;
  float64_negative := λ m _, (m <? 0)%Z;
  range := λ K _ _ V m, map_to_list m;
  |}.
Next Obligation.
  intros s. unfold ToLower_. rewrite on_ascii_compose. apply on_ascii_ext. intros l.
  rewrite <- list_fmap_compose. apply list_fmap_ext. intros; apply lower_ascii_idem.
Qed.
Next Obligation. done. Qed.
Next Obligation.
  intros s. unfold TrimSpace_. rewrite on_ascii_compose. apply on_ascii_ext, trim_idem.
Qed.
Next Obligation. done. Qed.
Next Obligation.
  intros s. unfold TrimSpace_, ToLower_. rewrite !on_ascii_compose.
  apply on_ascii_ext. intros l. by rewrite trim_lower, trim_idem.
Qed.
Next Obligation.
  intros s Hs. unfold TrimSpace_. rewrite <- (on_ascii_id s) at 2. unfold on_ascii. f_equal.
  apply trim_fixed. revert Hs. unfold ascii_graph.
  generalize (String.list_ascii_of_string s) as l. intros l Hl. apply Is_true_true, forallb_True in Hl.
  split; [by apply graph_no_head | by apply graph_no_head, Forall_reverse].
Qed.
Next Obligation.
  intros s t _ _ Hs Ht. unfold TrimSpace_, on_ascii in *.
  apply (f_equal String.list_ascii_of_string) in Hs, Ht.
  rewrite String.list_ascii_of_string_of_list_ascii in Hs, Ht.
  apply trim_fixed in Hs as [Hs1 Hs2]. apply trim_fixed in Ht as [Ht1 Ht2].
  rewrite list_ascii_app.
  assert (trim (String.list_ascii_of_string s ++ String.list_ascii_of_string t)
    = String.list_ascii_of_string s ++ String.list_ascii_of_string t) as ->.
  { apply trim_fixed. rewrite reverse_app. split; by apply no_head_space_app. }
  by rewrite <- list_ascii_app, String.string_of_list_ascii_of_string.
Qed.
Next Obligation.
  intros s. unfold ascii_graph. generalize (String.list_ascii_of_string s) as l.
  induction l as [|c l IH]; simpl; [done|]. unfold graph_char at 1. intros Hc. bool_prop.
  apply andb_true_iff. split; [|auto]. apply N.ltb_lt. apply N.ltb_lt in H1. lia.
Qed.
Next Obligation.
  intros s t. simpl. rewrite list_ascii_app, forallb_app. by intros ->.
Qed.
Next Obligation. done. Qed.
Next Obligation.
  intros s t _. unfold ToLower_, on_ascii. by rewrite list_ascii_app, fmap_app, string_of_list_app.
Qed.
Next Obligation.
  intros s. simpl. unfold ToLower_, on_ascii. rewrite String.list_ascii_of_string_of_list_ascii.
  generalize (String.list_ascii_of_string s) as l.
  induction l as [|c l IH]; simpl; [done|]. intros Hc. bool_prop. apply andb_true_iff.
  split; [by apply lower_ascii_small|auto].
Qed.
Next Obligation.
  intros s. simpl. unfold TrimSpace_, on_ascii. rewrite String.list_ascii_of_string_of_list_ascii.
  rewrite !forallb_forall. intros Hs c Hc. apply Hs.
  apply list_elem_of_In in Hc. apply list_elem_of_In. by apply elem_of_trim.
Qed.
Next Obligation. intros s. unfold EqualFold_. by rewrite bool_decide_true. Qed.
Next Obligation. intros s t. unfold EqualFold_. repeat case_bool_decide; congruence. Qed.
Next Obligation. intros m e Hm. by apply Z.ltb_lt. Qed.
Next Obligation. intros u. apply length_String. Qed.
Next Obligation. intros u. apply String_chars. Qed.
Next Obligation. intros u. apply Parse_String. Qed.
Next Obligation. done. Qed.

End Reference.
