(* ===== verification/GoText.v ===== *)
(** * Text and encodings of the Go standard library

    What the HTTP layer uses of [strings], [strconv], [encoding/hex] and
    [encoding/base64], on byte strings, with the round trips of the encodings. *)

From Stdlib Require Import NArith ZArith Lia Ascii.
From S2P Require Import Prelude.
From S2P Require Import Runtime.

Abbreviation bytes_of := String.list_ascii_of_string.
Abbreviation of_bytes := String.string_of_list_ascii.

(** ** strings *)

(** strings.Contains *)
Fixpoint Contains (s substr : string) : bool :=
  HasPrefix s substr || match s with EmptyString => false | String _ s => Contains s substr end.

(** [strings.SplitN(s, sep, 2)] at a one-byte separator: [None] when it does not occur. *)
Fixpoint cut (sep : ascii) (s : string) : option (string * string) :=
  match s with
  | EmptyString => None
  | String c s =>
    if bool_decide (c = sep) then Some (EmptyString, s)
    else match cut sep s with Some (a, b) => Some (String c a, b) | None => None end
  end.

(** strings.Split at a one-byte separator. *)
Fixpoint Split (sep : ascii) (s : string) : list string :=
  match s with
  | EmptyString => [EmptyString]
  | String c s =>
    if bool_decide (c = sep) then EmptyString :: Split sep s
    else match Split sep s with [] => [String c EmptyString] | part :: parts => String c part :: parts end
  end.

(** strings.LastIndex of one byte: the text from its last occurrence on, and the index. *)
Fixpoint last_index (b : ascii) (s : string) : option nat :=
  match s with
  | EmptyString => None
  | String c s =>
    match last_index b s with
    | Some i => Some (S i)
    | None => if bool_decide (c = b) then Some 0 else None
    end
  end.
Definition LastIndex (s : string) (b : ascii) : Z :=
  match last_index b s with Some i => Z.of_nat i | None => -1 end.

(** [s[i:]] *)
Definition slice_from (s : string) (i : nat) : string := String.substring i (String.length s - i) s.

Definition occurs (b : ascii) (s : string) : bool := bool_decide (b ∈ bytes_of s).

(** [for _, ch := range s] over a text whose code points are tested for being bytes of
    some set below 128: no other code point passes such a test. *)
Definition every_byte (f : N → bool) (s : string) : bool :=
  forallb (λ c, f (N_of_ascii c)) (bytes_of s).

(** strings.ContainsAny with bytes below 128. *)
Definition ContainsAny (s chars : string) : bool := existsb (λ c, occurs c s) (bytes_of chars).

Definition digit (n : N) : bool := (48 <=? n)%N && (n <=? 57)%N.

Lemma cut_app sep a b : occurs sep a = false → cut sep (a +:+ String sep b) = Some (a, b).
Proof.
  unfold occurs. intros Ha%bool_decide_eq_false. induction a as [|c a IH]; cbn in *.
  - change ("" +:+ String sep b) with (String sep b). simpl. by rewrite bool_decide_true.
  - change (String c a +:+ String sep b) with (String c (a +:+ String sep b)). simpl.
    rewrite elem_of_cons in Ha. rewrite bool_decide_false by naive_solver.
    by rewrite IH by naive_solver.
Qed.

Lemma cut_spec sep s a b : cut sep s = Some (a, b) → s = a +:+ String sep b ∧ occurs sep a = false.
Proof.
  revert a b. induction s as [|c s IH]; intros a b; simpl; [done|]. case_bool_decide as Hc.
  - intros [= <- <-]. by subst.
  - destruct (cut sep s) as [[a' b']|] eqn:E; [|done]. intros [= <- <-].
    destruct (IH a' b' eq_refl) as [-> Ho]. split; [done|]. unfold occurs in *.
    apply bool_decide_eq_false. apply bool_decide_eq_false in Ho. simpl. rewrite elem_of_cons.
    naive_solver.
Qed.

Lemma Split_app sep a b :
  occurs sep a = false → Split sep (a +:+ String sep b) = a :: Split sep b.
Proof.
  unfold occurs. intros Ha%bool_decide_eq_false. induction a as [|c a IH]; cbn in *.
  - change ("" +:+ String sep b) with (String sep b). simpl. by rewrite bool_decide_true.
  - change (String c a +:+ String sep b) with (String c (a +:+ String sep b)). simpl.
    rewrite elem_of_cons in Ha. rewrite bool_decide_false by naive_solver.
    by rewrite IH by naive_solver.
Qed.

Lemma Split_single sep a : occurs sep a = false → Split sep a = [a].
Proof.
  unfold occurs. intros Ha%bool_decide_eq_false. induction a as [|c a IH]; cbn in *; [done|].
  rewrite elem_of_cons in Ha. rewrite bool_decide_false by naive_solver. by rewrite IH by naive_solver.
Qed.

(** ** strconv *)

Fixpoint decimal_value (l : list ascii) (acc : Z) : option Z :=
  match l with
  | [] => Some acc
  | c :: l =>
    if digit (N_of_ascii c) then decimal_value l (acc * 10 + (Z.of_N (N_of_ascii c) - 48)) else None
  end.

Definition int64_in (z : Z) : bool := (- 2 ^ 63 <=? z)%Z && (z <? 2 ^ 63)%Z.

(** [strconv.ParseInt(s, 10, 64)] and [strconv.Atoi]: [None] is an error. *)
Definition ParseInt (s : string) : option Z :=
  let number sign digits :=
    match digits with
    | [] => None
    | _ =>
      match decimal_value digits 0 with
      | Some n => if int64_in (sign * n) then Some (sign * n)%Z else None
      | None => None
      end
    end in
  match bytes_of s with
  | [] => None
  | c :: l =>
    if bool_decide (c = "+"%char) then number 1%Z l
    else if bool_decide (c = "-"%char) then number (-1)%Z l
    else number 1%Z (c :: l)
  end.

Lemma ParseInt_range s n : ParseInt s = Some n → (- 2 ^ 63 ≤ n < 2 ^ 63)%Z.
Proof.
  unfold ParseInt. intros Hp. op_cases Hp;
    (match goal with H : int64_in _ = true |- _ => unfold int64_in in H; bool_prop; lia end).
Qed.

(** [strconv.FormatInt] prints what [ParseInt] reads. *)
Lemma decimal_value_app l k acc :
  decimal_value (l ++ k) acc = decimal_value l acc ≫= decimal_value k.
Proof. revert acc. induction l as [|c l IH]; intros acc; simpl; [done|]. by case_match. Qed.

Lemma pretty_N_char_digit x : (x < 10)%N →
  N_of_ascii (pretty_N_char x) = (48 + x)%N.
Proof.
  intros Hx. rewrite <- (N2Nat.id x). assert (N.to_nat x < 10) as Hk by lia.
  generalize dependent (N.to_nat x). intros k Hk. do 10 (destruct k as [|k]; [reflexivity|]). lia.
Qed.

Lemma pretty_N_go_digits x s : ∃ d,
  pretty_N_go x s = of_bytes (d ++ bytes_of s) ∧ forallb (λ c, digit (N_of_ascii c)) d = true ∧
  decimal_value d 0 = Some (Z.of_N x) ∧ ((0 < x)%N → d ≠ []).
Proof.
  revert s. induction (N.lt_wf_0 x) as [x _ IH]; intros s.
  destruct (decide (x = 0)%N) as [->|Hx].
  { exists []. rewrite pretty_N_go_0. simpl. by rewrite String.string_of_list_ascii_of_string. }
  rewrite pretty_N_go_step by lia.
  destruct (IH (x / 10)%N ltac:(apply N.div_lt; lia) (String (pretty_N_char (x mod 10)) s))
    as (d & -> & Hd & Hv & _).
  pose proof (N.mod_lt x 10 ltac:(lia)) as Hlt.
  exists (d ++ [pretty_N_char (x mod 10)]). rewrite <- app_assoc. split_and!; [done| | |by destruct d].
  - rewrite forallb_app, Hd. simpl. rewrite pretty_N_char_digit by done. unfold digit.
    rewrite andb_true_r. apply andb_true_iff. revert Hlt. generalize (x mod 10)%N. intros r Hr.
    split; apply N.leb_le; lia.
  - rewrite decimal_value_app, Hv. simpl. rewrite pretty_N_char_digit by done.
    pose proof (N.div_mod x 10 ltac:(lia)) as Hdm. revert Hlt Hdm.
    generalize (x mod 10)%N (x / 10)%N. intros r q Hr Hx'. unfold digit.
    rewrite (proj2 (N.leb_le 48 _)), (proj2 (N.leb_le _ 57)) by lia. simpl. f_equal. lia.
Qed.

Lemma pretty_digits n : (0 ≤ n)%Z → ∃ d,
  pretty n = of_bytes d ∧ d ≠ [] ∧ forallb (λ c, digit (N_of_ascii c)) d = true ∧
  decimal_value d 0 = Some n.
Proof.
  intros Hn. destruct n as [|p|p]; [by exists ["0"%char]| |lia].
  change (pretty (Z.pos p)) with (pretty (N.pos p)). unfold pretty, pretty_N.
  rewrite decide_False by done. destruct (pretty_N_go_digits (N.pos p) "") as (d & -> & Hd & Hv & Hne).
  exists d. rewrite app_nil_r. split_and!; [done|by apply Hne|done|done].
Qed.

Lemma decimal_value_nonneg d acc n : (0 ≤ acc)%Z → decimal_value d acc = Some n → (0 ≤ n)%Z.
Proof.
  revert acc. induction d as [|c d IH]; intros acc Ha; simpl; [by intros [= <-]|].
  unfold digit. destruct (_ && _) eqn:E; [|done]. apply andb_true_iff in E as [E _].
  apply N.leb_le in E. apply IH. lia.
Qed.

Lemma ParseInt_pretty n : (- 2 ^ 63 ≤ n < 2 ^ 63)%Z → ParseInt (pretty n) = Some n.
Proof.
  intros Hn. unfold ParseInt, int64_in.
  destruct (decide (0 ≤ n)%Z) as [Hp|Hm].
  - destruct (pretty_digits n Hp) as (d & -> & Hne & Hd & Hv).
    rewrite String.list_ascii_of_string_of_list_ascii. destruct d as [|c d]; [done|].
    simpl in Hd. apply andb_true_iff in Hd as [Hc _].
    rewrite !bool_decide_false by (by intros ->). rewrite Hv.
    rewrite (proj2 (Z.leb_le _ _)), (proj2 (Z.ltb_lt _ _)) by lia. simpl. f_equal. lia.
  - destruct n as [|p|p]; [done|lia|]. destruct (pretty_digits (Z.pos p) ltac:(lia)) as (d & Heq & Hne & _ & Hv).
    change (pretty (Z.neg p)) with ("-" +:+ pretty (Z.pos p)). rewrite Heq.
    change (bytes_of ("-" +:+ of_bytes d)) with ("-"%char :: bytes_of (of_bytes d)).
    rewrite String.list_ascii_of_string_of_list_ascii. cbn [bool_decide]. destruct d as [|c d]; [done|].
    rewrite bool_decide_false, bool_decide_true by done. rewrite Hv.
    rewrite (proj2 (Z.leb_le _ _)), (proj2 (Z.ltb_lt _ _)) by lia. done.
Qed.

(** ** encoding/hex *)

Definition hex_value : ascii → option N := Reference.digit_value.

Fixpoint hex_decode (l : list ascii) : option (list ascii) :=
  match l with
  | [] => Some []
  | [_] => None
  | a :: b :: l =>
    x ← hex_value a; y ← hex_value b; bytes ← hex_decode l; Some (ascii_of_N (x * 16 + y)%N :: bytes)
  end.

(** hex.DecodeString *)
Definition hex_DecodeString (s : string) : option string := of_bytes <$> hex_decode (bytes_of s).

(** hex.EncodeToString *)
Definition hex_EncodeToString (s : string) : string :=
  of_bytes (mjoin ((λ c, [Reference.hex_digit (N_of_ascii c / 16);
                          Reference.hex_digit (N_of_ascii c mod 16)]) <$> bytes_of s)).

(** ** encoding/base64 *)

(** [StdEncoding], [RawStdEncoding], [RawURLEncoding], [StdEncoding.Strict()]. *)
Record Encoding := mkEncoding { Encoding_url : bool; Encoding_padded : bool; Encoding_strict : bool }.
Definition StdEncoding : Encoding := mkEncoding false true false.
Definition RawStdEncoding : Encoding := mkEncoding false false false.
Definition RawURLEncoding : Encoding := mkEncoding true false false.
Definition StrictEncoding : Encoding := mkEncoding false true true.

Definition b64_char (url : bool) (n : N) : ascii :=
  ascii_of_N (if n <? 26 then 65 + n else if n <? 52 then 71 + n else if n <? 62 then n - 4
              else if n =? 62 then (if url then 45 else 43) else (if url then 95 else 47))%N.

Definition b64_value (url : bool) (c : ascii) : option N :=
  let n := N_of_ascii c in
  (if (65 <=? n) && (n <=? 90) then Some (n - 65)
   else if (97 <=? n) && (n <=? 122) then Some (n - 71)
   else if (48 <=? n) && (n <=? 57) then Some (n + 4)
   else if n =? (if url then 45 else 43) then Some 62
   else if n =? (if url then 95 else 47) then Some 63
   else None)%N.

Section base64.
Context (e : Encoding).

Definition padding (n : nat) : list ascii := if Encoding_padded e then replicate n "="%char else [].

Fixpoint b64_encode (l : list ascii) : list ascii :=
  let ch := b64_char (Encoding_url e) in
  match l with
  | [] => []
  | [a] => let x := N_of_ascii a in ch (x / 4)%N :: ch (x mod 4 * 16)%N :: padding 2
  | [a; b] =>
    let x := N_of_ascii a in let y := N_of_ascii b in
    ch (x / 4)%N :: ch (x mod 4 * 16 + y / 16)%N :: ch (y mod 16 * 4)%N :: padding 1
  | a :: b :: c :: l =>
    let x := N_of_ascii a in let y := N_of_ascii b in let z := N_of_ascii c in
    ch (x / 4)%N :: ch (x mod 4 * 16 + y / 16)%N :: ch (y mod 16 * 4 + z / 64)%N
    :: ch (z mod 64)%N :: b64_encode l
  end.

(** EncodeToString *)
Definition EncodeToString (s : string) : string := of_bytes (b64_encode (bytes_of s)).

(** The last quantum of one or two bytes. *)
Definition b64_one (a b : ascii) : option (list ascii) :=
  x ← b64_value (Encoding_url e) a; y ← b64_value (Encoding_url e) b;
  if Encoding_strict e && negb (y mod 16 =? 0)%N then None
  else Some [ascii_of_N (x * 4 + y / 16)]%N.

Definition b64_two (a b c : ascii) : option (list ascii) :=
  x ← b64_value (Encoding_url e) a; y ← b64_value (Encoding_url e) b;
  z ← b64_value (Encoding_url e) c;
  if Encoding_strict e && negb (z mod 4 =? 0)%N then None
  else Some [ascii_of_N (x * 4 + y / 16); ascii_of_N (y mod 16 * 16 + z / 4)]%N.

Fixpoint b64_decode (l : list ascii) : option (list ascii) :=
  match l with
  | [] => Some []
  | [a; b] => if Encoding_padded e then None else b64_one a b
  | [a; b; c] => if Encoding_padded e then None else b64_two a b c
  | a :: b :: c :: d :: l' =>
    if Encoding_padded e && bool_decide (d = "="%char)
    then
      match l' with
      | [] => if bool_decide (c = "="%char) then b64_one a b else b64_two a b c
      | _ => None
      end
    else
      x ← b64_value (Encoding_url e) a; y ← b64_value (Encoding_url e) b;
      z ← b64_value (Encoding_url e) c; w ← b64_value (Encoding_url e) d;
      bytes ← b64_decode l';
      Some (ascii_of_N (x * 4 + y / 16) :: ascii_of_N (y mod 16 * 16 + z / 4)
            :: ascii_of_N (z mod 4 * 64 + w) :: bytes)%N
  | _ => None
  end.

(** Line breaks in the input are ignored. *)
Definition no_break (c : ascii) : bool :=
  negb (bool_decide (N_of_ascii c = 10%N)) && negb (bool_decide (N_of_ascii c = 13%N)).

(** DecodeString *)
Definition DecodeString (s : string) : option string :=
  of_bytes <$> b64_decode (List.filter no_break (bytes_of s)).

(** *** The round trip *)

Ltac dlia_N := zify; Z.to_euclidean_division_equations; lia.

Lemma b64_value_char n : (n < 64)%N → b64_value (Encoding_url e) (b64_char (Encoding_url e) n) = Some n.
Proof.
  intros Hn. assert (∀ u, forallb (λ k, bool_decide
    (b64_value u (b64_char u (N.of_nat k)) = Some (N.of_nat k))) (seq 0 64) = true) as Hall
    by (by intros []; vm_compute).
  specialize (Hall (Encoding_url e)). rewrite forallb_forall in Hall.
  specialize (Hall (N.to_nat n) ltac:(apply in_seq; lia)). bool_prop. by rewrite N2Nat.id in Hall.
Qed.

Lemma b64_char_plain n : (n < 64)%N →
  no_break (b64_char (Encoding_url e) n) = true ∧ b64_char (Encoding_url e) n ≠ "="%char.
Proof.
  intros Hn. assert (∀ u, forallb (λ k, no_break (b64_char u (N.of_nat k))
    && negb (bool_decide (b64_char u (N.of_nat k) = "="%char))) (seq 0 64) = true) as Hall
    by (by intros []; vm_compute).
  specialize (Hall (Encoding_url e)). rewrite forallb_forall in Hall.
  specialize (Hall (N.to_nat n) ltac:(apply in_seq; lia)). rewrite N2Nat.id in Hall. by bool_prop.
Qed.

Lemma ascii_bound (c : ascii) : (N_of_ascii c < 256)%N.
Proof. by destruct c as [[] [] [] [] [] [] [] []]. Qed.

Lemma ascii_of (c : ascii) n : n = N_of_ascii c → ascii_of_N n = c.
Proof. intros ->. apply ascii_N_embedding. Qed.

(** Induction in steps of three bytes. *)
Lemma list_ind3 {A} (P : list A → Prop) :
  P [] → (∀ a, P [a]) → (∀ a b, P [a; b]) → (∀ a b c l, P l → P (a :: b :: c :: l)) → ∀ l, P l.
Proof.
  intros H0 H1 H2 H3. fix IH 1. intros [|a [|b [|c l]]]; [done|by apply H1|by apply H2|].
  apply H3, IH.
Qed.

Lemma b64_encode_unbroken l : List.filter no_break (b64_encode l) = b64_encode l.
Proof.
  assert (∀ n, List.filter no_break (padding n) = padding n) as Hpad.
  { intros n. unfold padding. destruct (Encoding_padded e); [|done].
    induction n; [done|]. cbn. by rewrite IHn. }
  assert (∀ n k, (n < 64)%N → List.filter no_break (b64_char (Encoding_url e) n :: k)
    = b64_char (Encoding_url e) n :: List.filter no_break k) as Hch.
  { intros n k Hn. cbn [List.filter]. by rewrite (proj1 (b64_char_plain n Hn)). }
  induction l as [|a|a b|a b c l IH] using list_ind3; cbn [b64_encode]; [done|..];
    [pose proof (ascii_bound a)|pose proof (ascii_bound a); pose proof (ascii_bound b)
    |pose proof (ascii_bound a); pose proof (ascii_bound b); pose proof (ascii_bound c)];
    rewrite !Hch by dlia_N; by rewrite ?IH, ?Hpad.
Qed.

Lemma b64_roundtrip l : b64_decode (b64_encode l) = Some l.
Proof.
  induction l as [|a|a b|a b c l IH] using list_ind3; [done|..].
  - pose proof (ascii_bound a). cbn [b64_encode]. unfold padding.
    set (x := b64_char _ _). set (y := b64_char _ (_ * 16)).
    assert (b64_one x y = Some [a]) as Hone.
    { unfold b64_one, x, y. rewrite !b64_value_char by dlia_N. cbn [mbind option_bind].
      replace ((N_of_ascii a mod 4 * 16) mod 16)%N with 0%N by dlia_N. rewrite andb_false_r.
      by rewrite (ascii_of a) by dlia_N. }
    cbn [b64_decode replicate]. by destruct (Encoding_padded e).
  - pose proof (ascii_bound a). pose proof (ascii_bound b). cbn [b64_encode]. unfold padding.
    set (x := b64_char _ _). set (y := b64_char _ (_ * 16 + _)). set (z := b64_char _ (_ * 4)).
    assert (b64_two x y z = Some [a; b]) as Htwo.
    { unfold b64_two, x, y, z. rewrite !b64_value_char by dlia_N. cbn [mbind option_bind].
      replace ((N_of_ascii b mod 16 * 4) mod 4)%N with 0%N by dlia_N. rewrite andb_false_r.
      by rewrite (ascii_of a), (ascii_of b) by dlia_N. }
    cbn [b64_decode replicate]. destruct (Encoding_padded e); [|done]. cbn [andb].
    rewrite (bool_decide_false (z = "="%char)); [done|]. apply b64_char_plain. dlia_N.
  - pose proof (ascii_bound a). pose proof (ascii_bound b). pose proof (ascii_bound c).
    cbn [b64_encode b64_decode].
    rewrite (bool_decide_false (b64_char _ (N_of_ascii c mod 64) = "="%char))
      by (apply b64_char_plain; dlia_N).
    rewrite andb_false_r, !b64_value_char by dlia_N. cbn [mbind option_bind]. rewrite IH.
    cbn [mbind option_bind]. rewrite (ascii_of a), (ascii_of b), (ascii_of c) by dlia_N.
    by destruct (b64_encode l) as [|? [|? [|? ?]]].
Qed.

Lemma DecodeString_EncodeToString s : DecodeString (EncodeToString s) = Some s.
Proof.
  unfold DecodeString, EncodeToString.
  rewrite String.list_ascii_of_string_of_list_ascii, b64_encode_unbroken, b64_roundtrip. simpl.
  by rewrite String.string_of_list_ascii_of_string.
Qed.

(** Encoded text holds neither [b] when [b] is no digit of the alphabet and no padding. *)
Lemma EncodeToString_free b s :
  b64_value (Encoding_url e) b = None → b ≠ "="%char → occurs b (EncodeToString s) = false.
Proof.
  intros Hb Hne. unfold occurs, EncodeToString. apply bool_decide_eq_false.
  rewrite String.list_ascii_of_string_of_list_ascii.
  assert (∀ n, b ∉ padding n) as Hpad.
  { intros n. unfold padding. destruct (Encoding_padded e); [|by apply not_elem_of_nil].
    intros Hin. apply elem_of_replicate in Hin as [-> _]. done. }
  assert (∀ n, (n < 64)%N → b ≠ b64_char (Encoding_url e) n) as Hch.
  { intros n Hn ->. by rewrite b64_value_char in Hb by done. }
  generalize (bytes_of s) as l. pose proof ascii_bound as Hbound.
  induction l as [|x|x y|x y z l IH] using list_ind3; cbn [b64_encode];
    rewrite ?elem_of_cons; [by apply not_elem_of_nil|..];
    [pose proof (Hbound x)|pose proof (Hbound x); pose proof (Hbound y)
    |pose proof (Hbound x); pose proof (Hbound y); pose proof (Hbound z)];
    intros Hin; repeat (destruct Hin as [Hin|Hin]; [revert Hin; apply Hch; dlia_N|]);
    first [by apply Hpad in Hin|by apply IH].
Qed.
End base64.

(** [n] bytes make [4 n / 3] digits without padding. *)
Lemma EncodeToString_length s :
  String.length (EncodeToString RawURLEncoding s)
  = String.length s / 3 * 4 + match String.length s mod 3 with 0 => 0 | 1 => 2 | _ => 3 end.
Proof.
  unfold EncodeToString. rewrite <- (String.string_of_list_ascii_of_string s) at 2 3.
  generalize (bytes_of s) as l. assert (∀ l, String.length (of_bytes l) = length l) as Hlen
    by (induction l; simpl; auto).
  intros l. rewrite !Hlen. clear s.
  induction l as [|x|x y|x y z l IH] using list_ind3; [done..|].
  cbn [b64_encode length]. rewrite IH. replace (S (S (S (length l)))) with (length l + 1 * 3) by lia.
  rewrite Nat.div_add, Nat.Div0.mod_add by done. lia.
Qed.

(** ** A toy serialization for the reference instances *)

Fixpoint bits (p : positive) : string :=
  match p with xH => "" | xO p => String "0" (bits p) | xI p => String "1" (bits p) end.
Fixpoint of_bits (s : string) : positive :=
  match s with
  | "" => 1
  | String c s => if bool_decide (c = "0"%char) then (of_bits s)~0 else (of_bits s)~1
  end%positive.
Lemma of_bits_bits p : of_bits (bits p) = p.
Proof. induction p as [p IH|p IH|]; simpl; [..|done]; by rewrite IH. Qed.
