(* ===== verification/GoTime.v ===== *)
(** * Dates of the Go standard library

    What the code uses of package time besides instants and durations: calendar dates in UTC
    ([time.Parse] with the layout ["2006-01-02"] and [Time.AddDate] of years).  Instants are
    nanoseconds since the zero [time.Time], the first of January of the year 1. *)

From Stdlib Require Import ZArith Lia Ascii.
From S2P Require Import Prelude.
From S2P Require Import Runtime.
From S2P Require Import GoText.

Open Scope Z_scope.

Definition Day : Z := 24 * Hour.

Definition is_leap (year : Z) : bool :=
  (year mod 4 =? 0) && (negb (year mod 100 =? 0) || (year mod 400 =? 0)).

(** Days from the first day of the year 1 to the first day of a year, of a month. *)
Definition days_before_year (year : Z) : Z :=
  let y := year - 1 in 365 * y + y / 4 - y / 100 + y / 400.

Definition days_before_month (year month : Z) : Z :=
  (match month with
   | 1 => 0 | 2 => 31 | 3 => 59 | 4 => 90 | 5 => 120 | 6 => 151 | 7 => 181 | 8 => 212 | 9 => 243
   | 10 => 273 | 11 => 304 | 12 => 334 | _ => 0
   end) + (if is_leap year && (2 <? month) then 1 else 0).

Definition year_length (year : Z) : Z := if is_leap year then 366 else 365.

Definition daysIn (year month : Z) : Z :=
  (if month =? 12 then year_length year else days_before_month year (month + 1)) - days_before_month year month.

(** [time.Date(year, month, day, 0, 0, 0, 0, time.UTC)]: a day past the month runs over. *)
Definition date (year month day : Z) : Z :=
  (days_before_year year + days_before_month year month + day - 1) * Day.

Definition year_of (n : Z) : Z :=
  let y := (n * 400) / 146097 + 1 in
  if n <? days_before_year y then y - 1 else if days_before_year (y + 1) <=? n then y + 1 else y.

(** The month a day of the year falls into: the last that has begun. *)
Fixpoint month_of (fuel : nat) (year yday : Z) : Z :=
  match fuel with
  | O => 1
  | S k => if days_before_month year (Z.of_nat fuel) <=? yday then Z.of_nat fuel else month_of k year yday
  end.

(** Year, month and day of an instant. *)
Definition civil (t : Z) : Z * Z * Z :=
  let n := t / Day in
  let year := year_of n in
  let yday := n - days_before_year year in
  let month := month_of 12 year yday in
  (year, month, yday - days_before_month year month + 1).

(** [t.AddDate(years, 0, 0)] *)
Definition AddDate (t years : Z) : Z :=
  let '(year, month, day) := civil t in date (year + years) month day + t mod Day.

(** [time.Parse("2006-01-02", value)] *)
Definition ParseDate (value : string) : option Z :=
  match bytes_of value with
  | [y1; y2; y3; y4; dash1; m1; m2; dash2; d1; d2] =>
    year ← decimal_value [y1; y2; y3; y4] 0;
    month ← decimal_value [m1; m2] 0;
    day ← decimal_value [d1; d2] 0;
    if bool_decide (dash1 = "-"%char) && bool_decide (dash2 = "-"%char)
       && (1 <=? month) && (month <=? 12) && (1 <=? day) && (day <=? daysIn year month)
    then Some (date year month day) else None
  | _ => None
  end.

(** ** The calendar *)

Ltac dlia := Z.to_euclidean_division_equations; lia.

Lemma is_leap_spec year :
  is_leap year = true ↔ year mod 4 = 0 ∧ (year mod 100 ≠ 0 ∨ year mod 400 = 0).
Proof.
  unfold is_leap. rewrite andb_true_iff, orb_true_iff, negb_true_iff, Z.eqb_eq, Z.eqb_neq, Z.eqb_eq. done.
Qed.

Lemma days_before_year_succ year : days_before_year (year + 1) = days_before_year year + year_length year.
Proof.
  unfold days_before_year, year_length. destruct (is_leap year) eqn:Hl.
  - apply is_leap_spec in Hl. dlia.
  - assert (¬ (year mod 4 = 0 ∧ (year mod 100 ≠ 0 ∨ year mod 400 = 0))) as Hn
      by (rewrite <- is_leap_spec; congruence). dlia.
Qed.

Lemma year_of_spec n : days_before_year (year_of n) ≤ n < days_before_year (year_of n + 1).
Proof.
  unfold year_of. destruct (n <? _) eqn:H1; [|destruct (_ <=? n) eqn:H2].
  - apply Z.ltb_lt in H1. replace (_ - 1 + 1) with (n * 400 / 146097 + 1) by lia.
    split; [|done]. unfold days_before_year in *. dlia.
  - apply Z.leb_le in H2. split; [done|]. unfold days_before_year in *. dlia.
  - apply Z.ltb_ge in H1. apply Z.leb_gt in H2. lia.
Qed.

(** Dates that exist. *)
Definition valid_date (year month day : Z) : Prop := 1 ≤ month ≤ 12 ∧ 1 ≤ day ≤ daysIn year month.

#[global] Instance valid_date_dec y m d : Decision (valid_date y m d).
Proof. unfold valid_date. apply _. Defined.

Definition date_le (a b : Z * Z * Z) : Prop :=
  let '(y, m, d) := a in let '(y', m', d') := b in
  y < y' ∨ y = y' ∧ (m < m' ∨ m = m' ∧ d ≤ d').

Ltac month_cases m Hm :=
  let H := fresh in
  assert (m = 1 ∨ m = 2 ∨ m = 3 ∨ m = 4 ∨ m = 5 ∨ m = 6 ∨ m = 7 ∨ m = 8 ∨ m = 9 ∨ m = 10 ∨ m = 11
          ∨ m = 12) as H by lia;
  clear Hm; repeat (destruct H as [->|H]); [..|subst m].

(** A comparison of days of a year, once the months are known. *)
Ltac calendar year := destruct (is_leap year); vm_compute; repeat split; congruence.

Lemma month_before year m m' :
  1 ≤ m → m < m' → m' ≤ 12 → days_before_month year m + daysIn year m ≤ days_before_month year m'.
Proof.
  intros Hm Hlt Hm'. assert (1 ≤ m ≤ 11) as Hr by lia. assert (2 ≤ m' ≤ 12) as Hr' by lia.
  unfold daysIn. rewrite (proj2 (Z.eqb_neq m 12)) by lia.
  assert (m' = m + 1 ∨ m + 1 < m') as [->|Hlt'] by lia; [lia|].
  unfold days_before_month. clear Hm Hm' Hlt. assert (1 ≤ m' ≤ 12) as Hr2 by lia. clear Hr'.
  assert (1 ≤ m ≤ 12) as Hr1 by lia. clear Hr.
  month_cases m Hr1; month_cases m' Hr2; try lia; calendar year.
Qed.

Lemma daysIn_positive year m : 1 ≤ m ≤ 12 → 28 ≤ daysIn year m ≤ 31.
Proof.
  intros Hm. unfold daysIn, year_length, days_before_month.
  month_cases m Hm; calendar year.
Qed.

Lemma last_month_ends year : days_before_month year 12 + daysIn year 12 = year_length year.
Proof. unfold daysIn. cbn. lia. Qed.

(** The number of a date, which grows with the date. *)
Definition day_number (year month day : Z) : Z := days_before_year year + days_before_month year month + day - 1.

Lemma days_before_month_nonneg year m : 1 ≤ m ≤ 12 → 0 ≤ days_before_month year m.
Proof. intros Hm. unfold days_before_month. month_cases m Hm; calendar year. Qed.

Lemma month_within year m : 1 ≤ m ≤ 12 → days_before_month year m + daysIn year m ≤ year_length year.
Proof.
  intros Hm. rewrite <- last_month_ends. assert (m = 12 ∨ m < 12) as [->|] by lia; [lia|].
  pose proof (month_before year m 12). pose proof (daysIn_positive year 12). lia.
Qed.

Lemma days_before_year_mono y y' : y < y' → days_before_year y + year_length y ≤ days_before_year y'.
Proof.
  intros Hy. rewrite <- days_before_year_succ. unfold days_before_year.
  assert (y + 1 ≤ y') as Hle by lia. clear Hy. dlia.
Qed.

Lemma day_number_le y m d y' m' d' :
  valid_date y m d → valid_date y' m' d' →
  day_number y m d ≤ day_number y' m' d' ↔ date_le (y, m, d) (y', m', d').
Proof.
  assert (∀ y m d y' m' d', valid_date y m d → valid_date y' m' d' →
    y < y' ∨ y = y' ∧ m < m' → day_number y m d < day_number y' m' d') as Hlt.
  { clear. intros y m d y' m' d' [Hm Hd] [Hm' Hd'] [Hy|[<- Hmm]]; unfold day_number.
    - pose proof (days_before_year_mono _ _ Hy). pose proof (month_within y m Hm).
      pose proof (days_before_month_nonneg y' m' Hm'). lia.
    - pose proof (month_before y m m'). lia. }
  intros Hv Hv'. simpl. split; intros Hle.
  - destruct (Z.lt_trichotomy y y') as [|[<-|Hy]]; [by left| |].
    + right. split; [done|]. destruct (Z.lt_trichotomy m m') as [|[<-|Hmm]]; [by left| |].
      * right. unfold day_number in Hle. lia.
      * pose proof (Hlt _ _ _ _ _ _ Hv' Hv ltac:(by right)). lia.
    + pose proof (Hlt _ _ _ _ _ _ Hv' Hv ltac:(by left)). lia.
  - destruct Hle as [Hy|[<- [Hmm|[<- Hd]]]].
    + pose proof (Hlt _ _ _ _ _ _ Hv Hv' ltac:(by left)). lia.
    + pose proof (Hlt _ _ _ _ _ _ Hv Hv' ltac:(by right)). lia.
    + unfold day_number. lia.
Qed.

Lemma month_of_spec year yday : 0 ≤ yday < year_length year →
  let m := month_of 12 year yday in
  1 ≤ m ≤ 12 ∧ days_before_month year m ≤ yday < days_before_month year m + daysIn year m.
Proof.
  intros Hy. cbv zeta.
  assert (∀ fuel, (fuel ≤ 12)%nat → (fuel = 12%nat ∨ yday < days_before_month year (Z.of_nat (S fuel))) →
    (1 ≤ fuel)%nat → let m := month_of fuel year yday in
    1 ≤ m ≤ 12 ∧ days_before_month year m ≤ yday < days_before_month year m + daysIn year m) as Hall.
  { induction fuel as [|k IH]; intros Hf Hnext Hone; [lia|]. cbn [month_of].
    destruct (_ <=? yday) eqn:Hle; cbv zeta.
    - apply Z.leb_le in Hle. split; [lia|]. split; [done|]. unfold daysIn. case_match eqn:E.
      + apply Z.eqb_eq in E. rewrite E in *. lia.
      + apply Z.eqb_neq in E. destruct Hnext as [Hk|Hn]; [lia|].
        replace (Z.of_nat (S k) + 1) with (Z.of_nat (S (S k))) by lia. lia.
    - apply Z.leb_gt in Hle. destruct k as [|k].
      + exfalso. change (Z.of_nat 1) with 1 in Hle.
        replace (days_before_month year 1) with 0 in Hle; [lia|]. unfold days_before_month. by rewrite andb_false_r.
      + apply IH; [lia|by right|lia]. }
  apply Hall; [lia|by left|lia].
Qed.

Lemma civil_spec t y m d : civil t = (y, m, d) → valid_date y m d ∧ day_number y m d = t / Day.
Proof.
  unfold civil. cbv zeta. intros [[<- <-]%pair_equal_spec <-]%pair_equal_spec. pose proof (year_of_spec (t / Day)) as Hy.
  rewrite days_before_year_succ in Hy. set (year := year_of (t / Day)) in *.
  destruct (month_of_spec year (t / Day - days_before_year year) ltac:(lia)) as [Hm Hd].
  unfold valid_date, day_number. lia.
Qed.

Lemma daysIn_february year : daysIn year 2 = if is_leap year then 29 else 28.
Proof. unfold daysIn, days_before_month. by destruct (is_leap year). Qed.

Lemma daysIn_other year year' m : 1 ≤ m ≤ 12 → m ≠ 2 → daysIn year m = daysIn year' m.
Proof.
  intros Hm Hne. unfold daysIn, days_before_month, year_length.
  month_cases m Hm; try done; by destruct (is_leap year), (is_leap year').
Qed.

(** A date is at most [years] years from an instant when it comes no later in the calendar;
    only from a 29th of February into a year without one, the first of March counts too. *)
Lemma AddDate_order y m d t years y' m' d' :
  valid_date y m d → civil t = (y', m', d') →
  date y m d ≤ AddDate t years ↔
  date_le (y, m, d) (y' + years, m', d') ∨
  (m' = 2 ∧ d' = 29 ∧ is_leap (y' + years) = false ∧ y = y' + years ∧ m = 3 ∧ d = 1).
Proof.
  intros Hv Hc. pose proof (civil_spec _ _ _ _ Hc) as [[Hm' Hd'] _]. unfold AddDate. rewrite Hc.
  assert (date y m d ≤ date (y' + years) m' d' + t mod Day ↔
    day_number y m d ≤ day_number (y' + years) m' d') as ->.
  { unfold date, day_number. pose proof (Z.mod_pos_bound t Day ltac:(by vm_compute)).
    set (a := days_before_year y + days_before_month y m + d - 1).
    set (b := days_before_year (y' + years) + _ + d' - 1). unfold Day, Hour, Minute, Second in *. lia. }
  set (year := y' + years). destruct (decide (valid_date year m' d')) as [Hv'|Hv'].
  - rewrite day_number_le by done. split; [by left|]. intros [|(-> & -> & Hl & _)]; [done|].
    destruct Hv' as [_ Hd]. rewrite daysIn_february, Hl in Hd. lia.
  - assert (m' = 2) as ->.
    { destruct (decide (m' = 2)); [done|]. destruct Hv'. split; [done|].
      by rewrite (daysIn_other year y') by done. }
    unfold valid_date in Hv'. rewrite daysIn_february in Hd'. rewrite daysIn_february in Hv'.
    destruct (is_leap year) eqn:Hl; [destruct (is_leap y'); lia|].
    destruct (is_leap y'); [|lia]. assert (d' = 29) as -> by lia.
    replace (day_number year 2 29) with (day_number year 3 1)
      by (unfold day_number, days_before_month; rewrite Hl; cbn; lia).
    rewrite day_number_le; [|done|split; [lia|]; pose proof (daysIn_positive year 3); lia].
    destruct Hv as [Hm Hd]. simpl. split.
    + intros [|[-> [|[-> ?]]]]; [by left; left| |right; lia].
      left. right. split; [done|]. destruct (decide (m = 2)) as [->|]; [|lia].
      rewrite daysIn_february, Hl in Hd. lia.
    + lia.
Qed.

Lemma ParseDate_valid value t :
  ParseDate value = Some t → ∃ year month day, valid_date year month day ∧ t = date year month day.
Proof.
  unfold ParseDate. intros Hp. repeat case_match; try done.
  apply bind_Some in Hp as (year & _ & Hp). apply bind_Some in Hp as (month & _ & Hp).
  apply bind_Some in Hp as (day & _ & Hp). op_cases Hp.
  eexists _, _, _. split; [|done]. unfold valid_date. lia.
Qed.
