(* ===== verification/Domain.v ===== *)
(** * Data of the backend

    The structures of [src/internal/domain/models.go] (one record per Go struct,
    field names prefixed with the struct name), the error values of the package,
    and the JSON documents the store keeps.

    - [time.Time] is [Z] (nanoseconds, zero value [0]); [*time.Time] is [option Z].
    - Byte slices and strings are byte strings; a nil slice is the empty string.
    - [json.RawMessage] is [RawMessage]: absent, not JSON at all, or a document.
    - An outbox payload is the Go value that was marshalled into it ([Payload]):
      every payload is produced by [json.Marshal] of one of these structs and read
      back by [json.Unmarshal] into the same struct. *)

From Stdlib Require Import ZArith Lia.
From S2P Require Import Prelude.
From S2P Require Import Runtime.

#[local] Set Warnings "-register-all".

(** ** Errors *)
Inductive Error :=
  | ErrNotFound | ErrConflict | ErrForbidden | ErrUnauthenticated | ErrInvalid
  | ErrInviteRevoked | ErrInviteExpired | ErrInviteExhausted
  | ErrQuotaExceeded | ErrMediaExpired
  | ErrOther (message : string).

#[global] Instance Error_eq_dec : EqDecision Error.
Proof. solve_decision. Defined.

(** What a fallible operation returns: Go's [(A, error)] pair. *)
Inductive res (A : Type) :=
  | Ok (a : A)
  | Err (e : Error).
Arguments Ok {A} a.
Arguments Err {A} e.

#[global] Instance Ok_inj {A} : Inj (=) (=) (@Ok A).
Proof. by intros a b [=]. Qed.

Definition is_ok {A} (r : res A) : bool := match r with Ok _ => true | Err _ => false end.

(** ** JSON documents

    Object members are kept in document order, numbers as the decimal literal
    [mantissa * 10 ^ exponent]. *)
Inductive JSON :=
  | JNull
  | JBool (b : bool)
  | JNum (mantissa exponent : Z)
  | JStr (s : string)
  | JArr (items : list JSON)
  | JObj (members : list (string * JSON)).

Inductive RawMessage :=
  | RawNil
  | RawInvalid (text : string)
  | Raw (v : JSON).

(** [json.Unmarshal] into [map[string]any]: an error, a nil map (for [null]), or
    the map in which a repeated key keeps its last value. *)
Definition unmarshal_map (r : RawMessage) : option (option (gmap string JSON)) :=
  match r with
  | Raw (JObj members) => Some (Some (list_to_map (reverse members)))
  | Raw JNull => Some None
  | _ => None
  end.

(** Decoding a document into [map[string]json.RawMessage]: [null] gives a nil map. *)
Definition json_object (v : JSON) : option (gmap string JSON) :=
  match v with
  | JObj members => Some (list_to_map (reverse members))
  | JNull => Some ∅
  | _ => None
  end.

(** Decoding into a slice; a missing member decodes the empty input, an error. *)
Definition json_array (v : option JSON) : option (list JSON) :=
  match v with
  | Some (JArr items) => Some items
  | Some JNull => Some []
  | _ => None
  end.

Definition raw_object (r : RawMessage) : option (gmap string JSON) :=
  match r with Raw v => json_object v | _ => None end.

(** [json.Marshal] of a [map[string]any] writes its keys in sorted order. *)
Definition key_le (x y : string * JSON) : Prop := String.le x.1 y.1.
#[global] Instance key_le_dec : RelDecision key_le := λ x y, decide (String.le x.1 y.1).

Definition marshal_map (m : gmap string JSON) : RawMessage :=
  Raw (JObj (merge_sort key_le (map_to_list m))).

(** The profile document that marks an erased account: [{"deleted":true}].
    Profiles are only ever written by [json.Marshal] or as this literal, so that
    equal documents are equal bytes. *)
Definition deleted_profile : RawMessage := Raw (JObj [("deleted", JBool true)]).

Definition profile_deleted (profile : RawMessage) : bool :=
  match profile with
  | Raw (JObj [(k, JBool true)]) => bool_decide (k = "deleted")
  | _ => false
  end.

(** Decoding one string field of a Go struct: members are visited in order, the
    key is matched up to case, and a value of another type is skipped. *)
Definition struct_string_field `{GoRuntime} (field : string)
    (members : list (string * JSON)) : string :=
  foldl (λ acc '(k, v),
    match v with
    | JStr s => if EqualFold k field then s else acc
    | _ => acc
    end) "" members.

Definition decode_string_field `{GoRuntime} (field : string) (r : RawMessage) : string :=
  match r with
  | Raw (JObj members) => struct_string_field field members
  | _ => ""
  end.

Definition raw_length_zero (r : RawMessage) : bool :=
  match r with RawNil => true | RawInvalid t => bool_decide (t = "") | Raw _ => false end.

(** [len(raw) == 0 || string(raw) == "null"] *)
Definition raw_absent (r : RawMessage) : bool :=
  raw_length_zero r || match r with Raw JNull => true | _ => false end.

(** ** Comparing documents

    [reflect.DeepEqual] on decoded values: objects as maps, numbers as float64. *)
Fixpoint canonical `{GoRuntime} (v : JSON) : JSON :=
  match v with
  | JNum m e => JNum (float64_of m e) 0
  | JArr items => JArr (List.map canonical items)
  | JObj members =>
    JObj (merge_sort key_le (map_to_list (list_to_map (M := gmap string JSON)
      (reverse (List.map (λ kv : string * JSON, let (k, v) := kv in (k, canonical v)) members)))))
  | _ => v
  end.

Fixpoint json_eqb (v w : JSON) : bool :=
  match v, w with
  | JNull, JNull => true
  | JBool a, JBool b => Bool.eqb a b
  | JNum m e, JNum m' e' => (m =? m')%Z && (e =? e')%Z
  | JStr a, JStr b => bool_decide (a = b)
  | JArr l, JArr l' =>
    (fix go l l' {struct l} := match l, l' with
     | [], [] => true
     | x :: l, y :: l' => json_eqb x y && go l l'
     | _, _ => false
     end) l l'
  | JObj l, JObj l' =>
    (fix go l l' {struct l} := match l, l' with
     | [], [] => true
     | (k, x) :: l, (k', y) :: l' => bool_decide (k = k') && json_eqb x y && go l l'
     | _, _ => false
     end) l l'
  | _, _ => false
  end.

(** The bytes of a document that does not decode. *)
Definition raw_text `{GoRuntime} (r : RawMessage) : option string :=
  match r with RawNil => Some "" | RawInvalid t => Some (TrimSpace t) | Raw _ => None end.

Definition JSONValuesEqual `{GoRuntime} (first second : RawMessage) : bool :=
  match first, second with
  | Raw v, Raw w => json_eqb (canonical v) (canonical w)
  | _, _ =>
    match raw_text first, raw_text second with
    | Some t, Some t' => bool_decide (t = t')
    | _, _ => false
    end
  end.

(** ** Structures *)

(** User is the account row; [Profile] is the JSON document the client edits. *)
Record User := mkUser {
  User_ID : UUID; User_Email : string; User_Phone : string; User_DisplayName : string;
  User_AvatarURL : string; User_Profile : RawMessage; User_PasswordHash : string;
  User_CreatedAt : Z; User_UpdatedAt : Z }.
Definition eta_User (r : User) : User :=
  mkUser (User_ID r) (User_Email r) (User_Phone r) (User_DisplayName r)
  (User_AvatarURL r) (User_Profile r) (User_PasswordHash r) (User_CreatedAt r)
  (User_UpdatedAt r).
#[export] Instance set_User_Email : Setter User_Email :=
  ltac:(field_setter eta_User User_Email).
#[export] Instance set_User_Phone : Setter User_Phone :=
  ltac:(field_setter eta_User User_Phone).
#[export] Instance set_User_DisplayName : Setter User_DisplayName :=
  ltac:(field_setter eta_User User_DisplayName).
#[export] Instance set_User_AvatarURL : Setter User_AvatarURL :=
  ltac:(field_setter eta_User User_AvatarURL).
#[export] Instance set_User_Profile : Setter User_Profile :=
  ltac:(field_setter eta_User User_Profile).
#[export] Instance set_User_PasswordHash : Setter User_PasswordHash :=
  ltac:(field_setter eta_User User_PasswordHash).
#[export] Instance set_User_UpdatedAt : Setter User_UpdatedAt :=
  ltac:(field_setter eta_User User_UpdatedAt).

Record AgeAssurance := mkAgeAssurance {
  AgeAssurance_UserID : UUID; AgeAssurance_Status : string; AgeAssurance_MinimumAge : Z;
  AgeAssurance_Source : string; AgeAssurance_Declaration : string;
  AgeAssurance_PolicyVersion : string; AgeAssurance_CheckedAt : Z;
  AgeAssurance_ExpiresAt : option Z }.

Record Device := mkDevice {
  Device_ID : UUID; Device_UserID : UUID; Device_Name : string;
  Device_Platform : string; Device_PushToken : string; Device_IdentityKey : string;
  Device_SignedPreKey : RawMessage; Device_LastSeenAt : Z; Device_CreatedAt : Z }.
Definition eta_Device (r : Device) : Device :=
  mkDevice (Device_ID r) (Device_UserID r) (Device_Name r) (Device_Platform r)
  (Device_PushToken r) (Device_IdentityKey r) (Device_SignedPreKey r)
  (Device_LastSeenAt r) (Device_CreatedAt r).
#[export] Instance set_Device_ID : Setter Device_ID :=
  ltac:(field_setter eta_Device Device_ID).
#[export] Instance set_Device_Name : Setter Device_Name :=
  ltac:(field_setter eta_Device Device_Name).
#[export] Instance set_Device_PushToken : Setter Device_PushToken :=
  ltac:(field_setter eta_Device Device_PushToken).
#[export] Instance set_Device_IdentityKey : Setter Device_IdentityKey :=
  ltac:(field_setter eta_Device Device_IdentityKey).
#[export] Instance set_Device_SignedPreKey : Setter Device_SignedPreKey :=
  ltac:(field_setter eta_Device Device_SignedPreKey).
#[export] Instance set_Device_LastSeenAt : Setter Device_LastSeenAt :=
  ltac:(field_setter eta_Device Device_LastSeenAt).
#[export] Instance set_Device_CreatedAt : Setter Device_CreatedAt :=
  ltac:(field_setter eta_Device Device_CreatedAt).

(** A refresh session; token hashes are byte strings and a nil slice is the empty string. *)
Record Session := mkSession {
  Session_ID : UUID; Session_UserID : UUID; Session_DeviceID : UUID;
  Session_RefreshTokenHash : string; Session_PreviousRefreshTokenHash : string;
  Session_ExpiresAt : Z; Session_RevokedAt : option Z; Session_CreatedAt : Z }.
Definition eta_Session (r : Session) : Session :=
  mkSession (Session_ID r) (Session_UserID r) (Session_DeviceID r)
  (Session_RefreshTokenHash r) (Session_PreviousRefreshTokenHash r)
  (Session_ExpiresAt r) (Session_RevokedAt r) (Session_CreatedAt r).
#[export] Instance set_Session_RefreshTokenHash : Setter Session_RefreshTokenHash :=
  ltac:(field_setter eta_Session Session_RefreshTokenHash).
#[export] Instance set_Session_PreviousRefreshTokenHash : Setter Session_PreviousRefreshTokenHash :=
  ltac:(field_setter eta_Session Session_PreviousRefreshTokenHash).
#[export] Instance set_Session_ExpiresAt : Setter Session_ExpiresAt :=
  ltac:(field_setter eta_Session Session_ExpiresAt).
#[export] Instance set_Session_RevokedAt : Setter Session_RevokedAt :=
  ltac:(field_setter eta_Session Session_RevokedAt).

Record PasswordResetChallenge := mkPasswordResetChallenge {
  PasswordResetChallenge_ID : UUID; PasswordResetChallenge_UserID : UUID;
  PasswordResetChallenge_CodeHash : string; PasswordResetChallenge_Attempts : Z;
  PasswordResetChallenge_ExpiresAt : Z; PasswordResetChallenge_ConsumedAt : option Z;
  PasswordResetChallenge_CreatedAt : Z }.
Definition eta_PasswordResetChallenge (r : PasswordResetChallenge) : PasswordResetChallenge :=
  mkPasswordResetChallenge (PasswordResetChallenge_ID r)
  (PasswordResetChallenge_UserID r) (PasswordResetChallenge_CodeHash r)
  (PasswordResetChallenge_Attempts r) (PasswordResetChallenge_ExpiresAt r)
  (PasswordResetChallenge_ConsumedAt r) (PasswordResetChallenge_CreatedAt r).
#[export] Instance set_PasswordResetChallenge_Attempts : Setter PasswordResetChallenge_Attempts :=
  ltac:(field_setter eta_PasswordResetChallenge PasswordResetChallenge_Attempts).
#[export] Instance set_PasswordResetChallenge_ConsumedAt : Setter PasswordResetChallenge_ConsumedAt :=
  ltac:(field_setter eta_PasswordResetChallenge PasswordResetChallenge_ConsumedAt).

Record AccountDeletionIntent := mkAccountDeletionIntent {
  AccountDeletionIntent_RequestID : UUID; AccountDeletionIntent_UserID : UUID;
  AccountDeletionIntent_TokenHash : string; AccountDeletionIntent_State : string;
  AccountDeletionIntent_CreatedAt : Z; AccountDeletionIntent_CompletedAt : option Z }.
Definition eta_AccountDeletionIntent (r : AccountDeletionIntent) : AccountDeletionIntent :=
  mkAccountDeletionIntent (AccountDeletionIntent_RequestID r)
  (AccountDeletionIntent_UserID r) (AccountDeletionIntent_TokenHash r)
  (AccountDeletionIntent_State r) (AccountDeletionIntent_CreatedAt r)
  (AccountDeletionIntent_CompletedAt r).
#[export] Instance set_AccountDeletionIntent_State : Setter AccountDeletionIntent_State :=
  ltac:(field_setter eta_AccountDeletionIntent AccountDeletionIntent_State).
#[export] Instance set_AccountDeletionIntent_CreatedAt : Setter AccountDeletionIntent_CreatedAt :=
  ltac:(field_setter eta_AccountDeletionIntent AccountDeletionIntent_CreatedAt).
#[export] Instance set_AccountDeletionIntent_CompletedAt : Setter AccountDeletionIntent_CompletedAt :=
  ltac:(field_setter eta_AccountDeletionIntent AccountDeletionIntent_CompletedAt).

(** [KeyID] is a uint32; [ID] is a database serial. *)
Record OneTimePreKey := mkOneTimePreKey {
  OneTimePreKey_ID : Z; OneTimePreKey_DeviceID : UUID; OneTimePreKey_KeyID : Z;
  OneTimePreKey_PublicKey : string; OneTimePreKey_ClaimedAt : option Z }.
Definition eta_OneTimePreKey (r : OneTimePreKey) : OneTimePreKey :=
  mkOneTimePreKey (OneTimePreKey_ID r) (OneTimePreKey_DeviceID r)
  (OneTimePreKey_KeyID r) (OneTimePreKey_PublicKey r) (OneTimePreKey_ClaimedAt r).
#[export] Instance set_OneTimePreKey_DeviceID : Setter OneTimePreKey_DeviceID :=
  ltac:(field_setter eta_OneTimePreKey OneTimePreKey_DeviceID).
#[export] Instance set_OneTimePreKey_ClaimedAt : Setter OneTimePreKey_ClaimedAt :=
  ltac:(field_setter eta_OneTimePreKey OneTimePreKey_ClaimedAt).

Record PreKeyBundle := mkPreKeyBundle {
  PreKeyBundle_DeviceID : UUID; PreKeyBundle_IdentityKey : string;
  PreKeyBundle_SignedPreKey : RawMessage;
  PreKeyBundle_OneTimePreKey : option OneTimePreKey }.

Record Conversation := mkConversation {
  Conversation_ID : UUID; Conversation_Kind : string; Conversation_Title : string;
  Conversation_AvatarURL : string; Conversation_Metadata : RawMessage;
  Conversation_CreatedBy : UUID; Conversation_LastSeq : Z; Conversation_CreatedAt : Z;
  Conversation_UpdatedAt : Z }.
Definition eta_Conversation (r : Conversation) : Conversation :=
  mkConversation (Conversation_ID r) (Conversation_Kind r) (Conversation_Title r)
  (Conversation_AvatarURL r) (Conversation_Metadata r) (Conversation_CreatedBy r)
  (Conversation_LastSeq r) (Conversation_CreatedAt r) (Conversation_UpdatedAt r).
Definition zeroConversation : Conversation :=
  mkConversation uuid_Nil "" "" "" RawNil uuid_Nil 0 0 0.
#[export] Instance set_Conversation_Title : Setter Conversation_Title :=
  ltac:(field_setter eta_Conversation Conversation_Title).
#[export] Instance set_Conversation_AvatarURL : Setter Conversation_AvatarURL :=
  ltac:(field_setter eta_Conversation Conversation_AvatarURL).
#[export] Instance set_Conversation_Metadata : Setter Conversation_Metadata :=
  ltac:(field_setter eta_Conversation Conversation_Metadata).
#[export] Instance set_Conversation_CreatedBy : Setter Conversation_CreatedBy :=
  ltac:(field_setter eta_Conversation Conversation_CreatedBy).
#[export] Instance set_Conversation_LastSeq : Setter Conversation_LastSeq :=
  ltac:(field_setter eta_Conversation Conversation_LastSeq).
#[export] Instance set_Conversation_UpdatedAt : Setter Conversation_UpdatedAt :=
  ltac:(field_setter eta_Conversation Conversation_UpdatedAt).

Record ConversationMember := mkConversationMember {
  ConversationMember_ConversationID : UUID; ConversationMember_UserID : UUID;
  ConversationMember_Role : string; ConversationMember_JoinedAt : Z;
  ConversationMember_MutedUntil : option Z; ConversationMember_DisplayName : string;
  ConversationMember_Username : string; ConversationMember_AvatarURL : string;
  ConversationMember_AvatarColor : string; ConversationMember_Bio : string }.
Definition eta_ConversationMember (r : ConversationMember) : ConversationMember :=
  mkConversationMember (ConversationMember_ConversationID r)
  (ConversationMember_UserID r) (ConversationMember_Role r)
  (ConversationMember_JoinedAt r) (ConversationMember_MutedUntil r)
  (ConversationMember_DisplayName r) (ConversationMember_Username r)
  (ConversationMember_AvatarURL r) (ConversationMember_AvatarColor r)
  (ConversationMember_Bio r).
#[export] Instance set_ConversationMember_Role : Setter ConversationMember_Role :=
  ltac:(field_setter eta_ConversationMember ConversationMember_Role).
#[export] Instance set_ConversationMember_DisplayName : Setter ConversationMember_DisplayName :=
  ltac:(field_setter eta_ConversationMember ConversationMember_DisplayName).
#[export] Instance set_ConversationMember_Username : Setter ConversationMember_Username :=
  ltac:(field_setter eta_ConversationMember ConversationMember_Username).
#[export] Instance set_ConversationMember_AvatarURL : Setter ConversationMember_AvatarURL :=
  ltac:(field_setter eta_ConversationMember ConversationMember_AvatarURL).
#[export] Instance set_ConversationMember_AvatarColor : Setter ConversationMember_AvatarColor :=
  ltac:(field_setter eta_ConversationMember ConversationMember_AvatarColor).
#[export] Instance set_ConversationMember_Bio : Setter ConversationMember_Bio :=
  ltac:(field_setter eta_ConversationMember ConversationMember_Bio).

Record ConversationMemberAdded := mkConversationMemberAdded {
  ConversationMemberAdded_ConversationID : UUID; ConversationMemberAdded_ActorID : UUID;
  ConversationMemberAdded_UserID : UUID }.

Record ConversationMemberRemoved := mkConversationMemberRemoved {
  ConversationMemberRemoved_ConversationID : UUID;
  ConversationMemberRemoved_ActorID : UUID; ConversationMemberRemoved_UserID : UUID }.

Record ConversationInvite := mkConversationInvite {
  ConversationInvite_ID : UUID; ConversationInvite_ConversationID : UUID;
  ConversationInvite_CreatedBy : UUID; ConversationInvite_MaxUses : Z;
  ConversationInvite_Uses : Z; ConversationInvite_ExpiresAt : Z;
  ConversationInvite_RevokedAt : option Z; ConversationInvite_CreatedAt : Z }.
Definition eta_ConversationInvite (r : ConversationInvite) : ConversationInvite :=
  mkConversationInvite (ConversationInvite_ID r) (ConversationInvite_ConversationID r)
  (ConversationInvite_CreatedBy r) (ConversationInvite_MaxUses r)
  (ConversationInvite_Uses r) (ConversationInvite_ExpiresAt r)
  (ConversationInvite_RevokedAt r) (ConversationInvite_CreatedAt r).
#[export] Instance set_ConversationInvite_Uses : Setter ConversationInvite_Uses :=
  ltac:(field_setter eta_ConversationInvite ConversationInvite_Uses).
#[export] Instance set_ConversationInvite_RevokedAt : Setter ConversationInvite_RevokedAt :=
  ltac:(field_setter eta_ConversationInvite ConversationInvite_RevokedAt).

Record ConversationInvitePreview := mkConversationInvitePreview {
  ConversationInvitePreview_InviteID : UUID; ConversationInvitePreview_Kind : string;
  ConversationInvitePreview_Title : string;
  ConversationInvitePreview_AvatarURL : string; ConversationInvitePreview_ExpiresAt : Z;
  ConversationInvitePreview_AlreadyMember : bool }.

Record ConversationInviteAcceptance := mkConversationInviteAcceptance {
  ConversationInviteAcceptance_Conversation : Conversation;
  ConversationInviteAcceptance_Joined : bool }.

Record Message := mkMessage {
  Message_ID : UUID; Message_ClientMessageID : string; Message_ConversationID : UUID;
  Message_SenderID : UUID; Message_SenderDeviceID : UUID; Message_Seq : Z;
  Message_ContentType : string; Message_Ciphertext : string;
  Message_Envelope : RawMessage; Message_ReplyToID : option UUID; Message_CreatedAt : Z;
  Message_ServerReceivedAt : Z }.

Record Receipt := mkReceipt {
  Receipt_ConversationID : UUID; Receipt_UserID : UUID; Receipt_DeliveredSeq : Z;
  Receipt_ReadSeq : Z; Receipt_UpdatedAt : Z }.
Definition eta_Receipt (r : Receipt) : Receipt :=
  mkReceipt (Receipt_ConversationID r) (Receipt_UserID r) (Receipt_DeliveredSeq r)
  (Receipt_ReadSeq r) (Receipt_UpdatedAt r).
#[export] Instance set_Receipt_UpdatedAt : Setter Receipt_UpdatedAt :=
  ltac:(field_setter eta_Receipt Receipt_UpdatedAt).

Record Entity := mkEntity {
  Entity_ConversationID : UUID; Entity_Kind : string; Entity_ID : UUID;
  Entity_Version : Z; Entity_Payload : RawMessage; Entity_CreatedBy : UUID;
  Entity_CreatedAt : Z; Entity_UpdatedAt : Z; Entity_DeletedAt : option Z }.
Definition eta_Entity (r : Entity) : Entity :=
  mkEntity (Entity_ConversationID r) (Entity_Kind r) (Entity_ID r) (Entity_Version r)
  (Entity_Payload r) (Entity_CreatedBy r) (Entity_CreatedAt r) (Entity_UpdatedAt r)
  (Entity_DeletedAt r).
#[export] Instance set_Entity_Version : Setter Entity_Version :=
  ltac:(field_setter eta_Entity Entity_Version).
#[export] Instance set_Entity_Payload : Setter Entity_Payload :=
  ltac:(field_setter eta_Entity Entity_Payload).
#[export] Instance set_Entity_CreatedAt : Setter Entity_CreatedAt :=
  ltac:(field_setter eta_Entity Entity_CreatedAt).
#[export] Instance set_Entity_UpdatedAt : Setter Entity_UpdatedAt :=
  ltac:(field_setter eta_Entity Entity_UpdatedAt).
#[export] Instance set_Entity_DeletedAt : Setter Entity_DeletedAt :=
  ltac:(field_setter eta_Entity Entity_DeletedAt).

Record MediaObject := mkMediaObject {
  MediaObject_ID : UUID; MediaObject_OwnerID : UUID; MediaObject_ConversationID : UUID;
  MediaObject_Scope : string; MediaObject_ObjectKey : string;
  MediaObject_ContentType : string; MediaObject_ByteSize : Z;
  MediaObject_CiphertextSHA256 : string; MediaObject_Status : string;
  MediaObject_ExpiresAt : option Z; MediaObject_UploadValidUntil : Z;
  MediaObject_VerificationLeaseToken : option UUID;
  MediaObject_VerificationLockedUntil : option Z; MediaObject_CreatedAt : Z;
  MediaObject_UpdatedAt : Z }.
Definition eta_MediaObject (r : MediaObject) : MediaObject :=
  mkMediaObject (MediaObject_ID r) (MediaObject_OwnerID r)
  (MediaObject_ConversationID r) (MediaObject_Scope r) (MediaObject_ObjectKey r)
  (MediaObject_ContentType r) (MediaObject_ByteSize r) (MediaObject_CiphertextSHA256 r)
  (MediaObject_Status r) (MediaObject_ExpiresAt r) (MediaObject_UploadValidUntil r)
  (MediaObject_VerificationLeaseToken r) (MediaObject_VerificationLockedUntil r)
  (MediaObject_CreatedAt r) (MediaObject_UpdatedAt r).
#[export] Instance set_MediaObject_ConversationID : Setter MediaObject_ConversationID :=
  ltac:(field_setter eta_MediaObject MediaObject_ConversationID).
#[export] Instance set_MediaObject_Scope : Setter MediaObject_Scope :=
  ltac:(field_setter eta_MediaObject MediaObject_Scope).
#[export] Instance set_MediaObject_ObjectKey : Setter MediaObject_ObjectKey :=
  ltac:(field_setter eta_MediaObject MediaObject_ObjectKey).
#[export] Instance set_MediaObject_Status : Setter MediaObject_Status :=
  ltac:(field_setter eta_MediaObject MediaObject_Status).
#[export] Instance set_MediaObject_ExpiresAt : Setter MediaObject_ExpiresAt :=
  ltac:(field_setter eta_MediaObject MediaObject_ExpiresAt).
#[export] Instance set_MediaObject_UploadValidUntil : Setter MediaObject_UploadValidUntil :=
  ltac:(field_setter eta_MediaObject MediaObject_UploadValidUntil).
#[export] Instance set_MediaObject_VerificationLeaseToken : Setter MediaObject_VerificationLeaseToken :=
  ltac:(field_setter eta_MediaObject MediaObject_VerificationLeaseToken).
#[export] Instance set_MediaObject_VerificationLockedUntil : Setter MediaObject_VerificationLockedUntil :=
  ltac:(field_setter eta_MediaObject MediaObject_VerificationLockedUntil).
#[export] Instance set_MediaObject_CreatedAt : Setter MediaObject_CreatedAt :=
  ltac:(field_setter eta_MediaObject MediaObject_CreatedAt).
#[export] Instance set_MediaObject_UpdatedAt : Setter MediaObject_UpdatedAt :=
  ltac:(field_setter eta_MediaObject MediaObject_UpdatedAt).

Record MediaDeletePayload := mkMediaDeletePayload {
  MediaDeletePayload_ObjectKeys : list string; MediaDeletePayload_NotBefore : option Z }.

(** ** Outbox payloads *)
Inductive Payload :=
  | PConversation (c : Conversation)
  | PMessage (m : Message)
  | PReceipt (r : Receipt)
  | PEntity (e : Entity)
  | PMemberAdded (a : ConversationMemberAdded)
  | PMemberRemoved (r : ConversationMemberRemoved)
  | PMediaDelete (d : MediaDeletePayload).

Record OutboxEvent := mkOutboxEvent {
  OutboxEvent_ID : Z; OutboxEvent_Topic : string; OutboxEvent_AggregateID : UUID;
  OutboxEvent_Payload : Payload; OutboxEvent_CreatedAt : Z;
  OutboxEvent_PublishedAt : option Z; OutboxEvent_AvailableAt : Z;
  OutboxEvent_LockedUntil : option Z; OutboxEvent_Attempts : Z }.
Definition eta_OutboxEvent (r : OutboxEvent) : OutboxEvent :=
  mkOutboxEvent (OutboxEvent_ID r) (OutboxEvent_Topic r) (OutboxEvent_AggregateID r)
  (OutboxEvent_Payload r) (OutboxEvent_CreatedAt r) (OutboxEvent_PublishedAt r)
  (OutboxEvent_AvailableAt r) (OutboxEvent_LockedUntil r) (OutboxEvent_Attempts r).
#[export] Instance set_OutboxEvent_PublishedAt : Setter OutboxEvent_PublishedAt :=
  ltac:(field_setter eta_OutboxEvent OutboxEvent_PublishedAt).
#[export] Instance set_OutboxEvent_AvailableAt : Setter OutboxEvent_AvailableAt :=
  ltac:(field_setter eta_OutboxEvent OutboxEvent_AvailableAt).
#[export] Instance set_OutboxEvent_LockedUntil : Setter OutboxEvent_LockedUntil :=
  ltac:(field_setter eta_OutboxEvent OutboxEvent_LockedUntil).
#[export] Instance set_OutboxEvent_Attempts : Setter OutboxEvent_Attempts :=
  ltac:(field_setter eta_OutboxEvent OutboxEvent_Attempts).

Record PushDelivery := mkPushDelivery {
  PushDelivery_ID : Z; PushDelivery_OutboxEventID : Z; PushDelivery_DeviceID : UUID;
  PushDelivery_UserID : UUID; PushDelivery_PushToken : string;
  PushDelivery_Platform : string; PushDelivery_Title : string;
  PushDelivery_Body : string; PushDelivery_Kind : string;
  PushDelivery_ConversationID : UUID; PushDelivery_EntityID : UUID;
  PushDelivery_NotificationID : string; PushDelivery_Status : string;
  PushDelivery_Attempts : Z; PushDelivery_NextAttemptAt : Z;
  PushDelivery_LeaseToken : UUID; PushDelivery_LockedUntil : Z;
  PushDelivery_CreatedAt : Z; PushDelivery_DeliveredAt : option Z;
  PushDelivery_DeadLetteredAt : option Z; PushDelivery_LastErrorClass : string }.
Definition eta_PushDelivery (r : PushDelivery) : PushDelivery :=
  mkPushDelivery (PushDelivery_ID r) (PushDelivery_OutboxEventID r)
  (PushDelivery_DeviceID r) (PushDelivery_UserID r) (PushDelivery_PushToken r)
  (PushDelivery_Platform r) (PushDelivery_Title r) (PushDelivery_Body r)
  (PushDelivery_Kind r) (PushDelivery_ConversationID r) (PushDelivery_EntityID r)
  (PushDelivery_NotificationID r) (PushDelivery_Status r) (PushDelivery_Attempts r)
  (PushDelivery_NextAttemptAt r) (PushDelivery_LeaseToken r)
  (PushDelivery_LockedUntil r) (PushDelivery_CreatedAt r) (PushDelivery_DeliveredAt r)
  (PushDelivery_DeadLetteredAt r) (PushDelivery_LastErrorClass r).
#[export] Instance set_PushDelivery_ID : Setter PushDelivery_ID :=
  ltac:(field_setter eta_PushDelivery PushDelivery_ID).
#[export] Instance set_PushDelivery_DeviceID : Setter PushDelivery_DeviceID :=
  ltac:(field_setter eta_PushDelivery PushDelivery_DeviceID).
#[export] Instance set_PushDelivery_UserID : Setter PushDelivery_UserID :=
  ltac:(field_setter eta_PushDelivery PushDelivery_UserID).
#[export] Instance set_PushDelivery_PushToken : Setter PushDelivery_PushToken :=
  ltac:(field_setter eta_PushDelivery PushDelivery_PushToken).
#[export] Instance set_PushDelivery_Platform : Setter PushDelivery_Platform :=
  ltac:(field_setter eta_PushDelivery PushDelivery_Platform).
#[export] Instance set_PushDelivery_Status : Setter PushDelivery_Status :=
  ltac:(field_setter eta_PushDelivery PushDelivery_Status).
#[export] Instance set_PushDelivery_Attempts : Setter PushDelivery_Attempts :=
  ltac:(field_setter eta_PushDelivery PushDelivery_Attempts).
#[export] Instance set_PushDelivery_NextAttemptAt : Setter PushDelivery_NextAttemptAt :=
  ltac:(field_setter eta_PushDelivery PushDelivery_NextAttemptAt).
#[export] Instance set_PushDelivery_LeaseToken : Setter PushDelivery_LeaseToken :=
  ltac:(field_setter eta_PushDelivery PushDelivery_LeaseToken).
#[export] Instance set_PushDelivery_LockedUntil : Setter PushDelivery_LockedUntil :=
  ltac:(field_setter eta_PushDelivery PushDelivery_LockedUntil).
#[export] Instance set_PushDelivery_CreatedAt : Setter PushDelivery_CreatedAt :=
  ltac:(field_setter eta_PushDelivery PushDelivery_CreatedAt).
#[export] Instance set_PushDelivery_DeliveredAt : Setter PushDelivery_DeliveredAt :=
  ltac:(field_setter eta_PushDelivery PushDelivery_DeliveredAt).
#[export] Instance set_PushDelivery_DeadLetteredAt : Setter PushDelivery_DeadLetteredAt :=
  ltac:(field_setter eta_PushDelivery PushDelivery_DeadLetteredAt).
#[export] Instance set_PushDelivery_LastErrorClass : Setter PushDelivery_LastErrorClass :=
  ltac:(field_setter eta_PushDelivery PushDelivery_LastErrorClass).

Record MailDelivery := mkMailDelivery {
  MailDelivery_ID : UUID; MailDelivery_ChallengeID : UUID;
  MailDelivery_Purpose : string; MailDelivery_Ciphertext : string;
  MailDelivery_Status : string; MailDelivery_Attempts : Z;
  MailDelivery_NextAttemptAt : Z; MailDelivery_LeaseToken : UUID;
  MailDelivery_LockedUntil : Z; MailDelivery_CreatedAt : Z;
  MailDelivery_DeliveredAt : option Z; MailDelivery_DeadLetteredAt : option Z;
  MailDelivery_CanceledAt : option Z; MailDelivery_LastErrorClass : string }.
Definition eta_MailDelivery (r : MailDelivery) : MailDelivery :=
  mkMailDelivery (MailDelivery_ID r) (MailDelivery_ChallengeID r)
  (MailDelivery_Purpose r) (MailDelivery_Ciphertext r) (MailDelivery_Status r)
  (MailDelivery_Attempts r) (MailDelivery_NextAttemptAt r) (MailDelivery_LeaseToken r)
  (MailDelivery_LockedUntil r) (MailDelivery_CreatedAt r) (MailDelivery_DeliveredAt r)
  (MailDelivery_DeadLetteredAt r) (MailDelivery_CanceledAt r)
  (MailDelivery_LastErrorClass r).
#[export] Instance set_MailDelivery_Status : Setter MailDelivery_Status :=
  ltac:(field_setter eta_MailDelivery MailDelivery_Status).
#[export] Instance set_MailDelivery_Attempts : Setter MailDelivery_Attempts :=
  ltac:(field_setter eta_MailDelivery MailDelivery_Attempts).
#[export] Instance set_MailDelivery_NextAttemptAt : Setter MailDelivery_NextAttemptAt :=
  ltac:(field_setter eta_MailDelivery MailDelivery_NextAttemptAt).
#[export] Instance set_MailDelivery_LeaseToken : Setter MailDelivery_LeaseToken :=
  ltac:(field_setter eta_MailDelivery MailDelivery_LeaseToken).
#[export] Instance set_MailDelivery_LockedUntil : Setter MailDelivery_LockedUntil :=
  ltac:(field_setter eta_MailDelivery MailDelivery_LockedUntil).
#[export] Instance set_MailDelivery_DeliveredAt : Setter MailDelivery_DeliveredAt :=
  ltac:(field_setter eta_MailDelivery MailDelivery_DeliveredAt).
#[export] Instance set_MailDelivery_DeadLetteredAt : Setter MailDelivery_DeadLetteredAt :=
  ltac:(field_setter eta_MailDelivery MailDelivery_DeadLetteredAt).
#[export] Instance set_MailDelivery_CanceledAt : Setter MailDelivery_CanceledAt :=
  ltac:(field_setter eta_MailDelivery MailDelivery_CanceledAt).
#[export] Instance set_MailDelivery_LastErrorClass : Setter MailDelivery_LastErrorClass :=
  ltac:(field_setter eta_MailDelivery MailDelivery_LastErrorClass).
