(* ===== verification/Compliance.v ===== *)
(** * Legal receipts, safety reports and blocks

    [src/internal/compliance/model.go] (receipts, submissions, cases, reviews) and
    [src/internal/compliance/memory.go] (the in-memory repository the memory store
    embeds).  The theorems: a block in either direction stops delivery, acceptance
    receipts and cases are written once and never rewritten, the status of a case
    needs its token, and reviews are compare-and-set steps whose audit log
    replays to the status of the case.

    The document checks of [Release.Validate] are not modelled (mail address and
    URL parsing).  [sha256] and the base64 decoder are section variables. *)

From Stdlib Require Import ZArith Lia.
From S2P Require Import Prelude.
From S2P Require Import Runtime.
From S2P Require Import Domain.

Record Policy := mkPolicy {
  Policy_Enabled : bool; Policy_Version : string; Policy_DocumentSHA256 : string;
  Policy_TermsURL : string; Policy_PrivacyURL : string; Policy_MinimumAge : Z;
  Policy_IntakeEnabled : bool }.

Record Acceptance := mkAcceptance {
  Acceptance_UserID : UUID; Acceptance_Version : string;
  Acceptance_DocumentSHA256 : string; Acceptance_AgeGroup : string;
  Acceptance_GuardianPermission : bool; Acceptance_Agreed : bool;
  Acceptance_AcceptedAt : Z }.
Definition eta_Acceptance (r : Acceptance) : Acceptance :=
  mkAcceptance (Acceptance_UserID r) (Acceptance_Version r)
    (Acceptance_DocumentSHA256 r) (Acceptance_AgeGroup r)
    (Acceptance_GuardianPermission r) (Acceptance_Agreed r) (Acceptance_AcceptedAt r).
#[export] Instance set_Acceptance_UserID : Setter Acceptance_UserID :=
  ltac:(field_setter eta_Acceptance Acceptance_UserID).
#[export] Instance set_Acceptance_AcceptedAt : Setter Acceptance_AcceptedAt :=
  ltac:(field_setter eta_Acceptance Acceptance_AcceptedAt).

Record Declaration := mkDeclaration {
  Declaration_Version : string; Declaration_DocumentSHA256 : string;
  Declaration_AgeGroup : string; Declaration_GuardianPermission : bool;
  Declaration_Agreed : bool }.

(** The server adds the account and the time; the client supplies neither. *)
Definition Declaration_Receipt (d : Declaration) (id : UUID) (now : Z) : Acceptance :=
  mkAcceptance id (Declaration_Version d) (Declaration_DocumentSHA256 d)
    (Declaration_AgeGroup d) (Declaration_GuardianPermission d) (Declaration_Agreed d) now.

(** [None] is the nil error. *)
Definition Acceptance_Validate (a : Acceptance) (p : Policy) : option Error :=
  if negb (Policy_Enabled p) || bool_decide (Acceptance_UserID a = uuid_Nil)
     || negb (Acceptance_Agreed a)
     || negb (bool_decide (Acceptance_Version a = Policy_Version p))
     || negb (bool_decide (Acceptance_DocumentSHA256 a = Policy_DocumentSHA256 p))
  then Some ErrInvalid
  else if bool_decide (Acceptance_AgeGroup a = "minor_13_plus") then
    if negb (Acceptance_GuardianPermission a) then Some ErrInvalid else None
  else if bool_decide (Acceptance_AgeGroup a = "age_of_majority") then
    if Acceptance_GuardianPermission a then Some ErrInvalid else None
  else Some ErrInvalid.

Record Submission := mkSubmission {
  Submission_Category : string; Submission_Contact : string;
  Submission_ContentReference : string; Submission_Details : string;
  Submission_Signature : string; Submission_GoodFaith : bool;
  Submission_Authorized : bool }.

Definition plain_categories : list string :=
  ["safety"; "privacy_access"; "privacy_correction"; "privacy_deletion";
   "privacy_appeal"; "copyright"; "copyright_counter_notice"].

Definition contains_nul (s : string) : bool :=
  existsb (λ c, bool_decide (c = Ascii.zero)) (String.list_ascii_of_string s).

Definition Submission_Validate `{GoRuntime} (s : Submission) : option Error :=
  if (strlen (TrimSpace (Submission_Contact s)) <? 3)%Z
     || (320 <? strlen (Submission_Contact s))%Z
     || (strlen (TrimSpace (Submission_Details s)) <? 10)%Z
     || (8000 <? strlen (Submission_Details s))%Z
     || (2000 <? strlen (Submission_ContentReference s))%Z
     || (200 <? strlen (Submission_Signature s))%Z
     || contains_nul (Submission_Contact s)
  then Some ErrInvalid
  else if bool_decide (Submission_Category s ∈ plain_categories) then None
  else if bool_decide (Submission_Category s = "intimate_imagery") then
    if bool_decide (TrimSpace (Submission_ContentReference s) = "")
       || bool_decide (TrimSpace (Submission_Signature s) = "")
       || negb (Submission_GoodFaith s) || negb (Submission_Authorized s)
    then Some ErrInvalid else None
  else Some ErrInvalid.

Record Case := mkCase {
  Case_ID : UUID; Case_Submission : Submission; Case_TokenHash : string;
  Case_RequestHash : string; Case_Status : string; Case_ReceivedAt : Z;
  Case_ReviewDueAt : option Z; Case_UpdatedAt : Z; Case_PublicUpdate : string }.
Definition eta_Case (r : Case) : Case :=
  mkCase (Case_ID r) (Case_Submission r) (Case_TokenHash r) (Case_RequestHash r)
    (Case_Status r) (Case_ReceivedAt r) (Case_ReviewDueAt r) (Case_UpdatedAt r)
    (Case_PublicUpdate r).
#[export] Instance set_Case_Status : Setter Case_Status :=
  ltac:(field_setter eta_Case Case_Status).
#[export] Instance set_Case_UpdatedAt : Setter Case_UpdatedAt :=
  ltac:(field_setter eta_Case Case_UpdatedAt).
#[export] Instance set_Case_PublicUpdate : Setter Case_PublicUpdate :=
  ltac:(field_setter eta_Case Case_PublicUpdate).

Record CaseStatus := mkCaseStatus {
  CaseStatus_ID : UUID; CaseStatus_Status : string; CaseStatus_ReceivedAt : Z;
  CaseStatus_ReviewDueAt : option Z; CaseStatus_UpdatedAt : Z;
  CaseStatus_PublicUpdate : string }.

Definition Case_Public (c : Case) : CaseStatus :=
  mkCaseStatus (Case_ID c) (Case_Status c) (Case_ReceivedAt c) (Case_ReviewDueAt c)
    (Case_UpdatedAt c) (Case_PublicUpdate c).

Section new_case.
Context `{GoRuntime}.
(** crypto/sha256, base64.RawURLEncoding and the JSON text of a submission. *)
Variable sha256 : string → string.
Variable RawURLDecode : string → option string.
Variable submission_json : Submission → string.

Definition TokenHash (token : string) : res string :=
  match RawURLDecode token with
  | Some b => if bool_decide (strlen b = 32%Z) then Ok (sha256 b) else Err ErrInvalid
  | None => Err ErrInvalid
  end.

Definition NewCase (id : UUID) (token : string) (submission : Submission) (now : Z)
  : res Case :=
  if bool_decide (id = uuid_Nil) then Err ErrInvalid
  else match Submission_Validate submission with
  | Some e => Err e
  | None =>
    match TokenHash token with
    | Err e => Err e
    | Ok hash =>
      Ok (mkCase id submission hash (sha256 (submission_json submission)) "received" now
        (if bool_decide (Submission_Category submission = "intimate_imagery")
         then Some (now + 48 * Hour)%Z else None) now "")
    end
  end.
End new_case.

Record Review := mkReview {
  Review_CaseID : UUID; Review_ExpectedStatus : string; Review_Status : string;
  Review_Operator : string; Review_Reason : string; Review_PublicUpdate : string }.

Definition review_statuses : list string :=
  ["received"; "reviewing"; "awaiting_information"; "resolved"; "declined"].

Definition Review_Validate `{GoRuntime} (r : Review) : option Error :=
  if bool_decide (Review_CaseID r = uuid_Nil)
     || (strlen (TrimSpace (Review_Operator r)) <? 3)%Z
     || (200 <? strlen (Review_Operator r))%Z
     || (strlen (TrimSpace (Review_Reason r)) <? 10)%Z
     || (4000 <? strlen (Review_Reason r))%Z
     || (2000 <? strlen (Review_PublicUpdate r))%Z
  then Some ErrInvalid
  else if negb (bool_decide (Review_Status r ∈ review_statuses))
     || negb (bool_decide (Review_ExpectedStatus r ∈ review_statuses))
     || bool_decide (Review_Status r = Review_ExpectedStatus r)
  then Some ErrInvalid
  else None.

(** ** The in-memory repository *)

Record Memory := mkMemory {
  Memory_blocks : gmap (UUID * UUID) bool;
  Memory_acceptances : gmap string Acceptance;
  Memory_cases : gmap UUID Case;
  Memory_reviews : list Review }.
Definition eta_Memory (r : Memory) : Memory :=
  mkMemory (Memory_blocks r) (Memory_acceptances r) (Memory_cases r) (Memory_reviews r).
#[export] Instance set_Memory_blocks : Setter Memory_blocks :=
  ltac:(field_setter eta_Memory Memory_blocks).
#[export] Instance set_Memory_acceptances : Setter Memory_acceptances :=
  ltac:(field_setter eta_Memory Memory_acceptances).
#[export] Instance set_Memory_cases : Setter Memory_cases :=
  ltac:(field_setter eta_Memory Memory_cases).
#[export] Instance set_Memory_reviews : Setter Memory_reviews :=
  ltac:(field_setter eta_Memory Memory_reviews).

Definition NewMemory : Memory := mkMemory ∅ ∅ ∅ [].

Section repository.
Context `{GoRuntime}.
Implicit Types (m : Memory) (a b u : UUID).

Definition SetBlock m a b (block : bool) : Memory * res unit :=
  if bool_decide (a = uuid_Nil) || bool_decide (b = uuid_Nil) || bool_decide (a = b)
  then (m, Err ErrInvalid)
  else if block then (m <| Memory_blocks ::= <[(a, b) := true]> |>, Ok tt)
  else (m <| Memory_blocks ::= delete (a, b) |>, Ok tt).

Definition Blocks m a : list UUID :=
  merge_sort uuid_text_le
    (omap (λ '((x, y), _), if bool_decide (x = a) then Some y else None)
      (range (Memory_blocks m))).

Definition block_entry m (p : UUID * UUID) : bool :=
  default false (Memory_blocks m !! p).

Definition Blocked m a b : bool := block_entry m (a, b) || block_entry m (b, a).

(** [send] is the delivery callback: its error is returned with [true].  The
    first component says whether the callback ran. *)
Definition DeliverIfAllowed m a b (send : option Error) : bool * (bool * option Error) :=
  if Blocked m a b then (false, (false, None)) else (true, (true, send)).

Definition acceptance_key (u : UUID) (version : string) : string :=
  uuid_String u +:+ ":" +:+ version.

Definition Accept m (x : Acceptance) : Memory * res Acceptance :=
  let key := acceptance_key (Acceptance_UserID x) (Acceptance_Version x) in
  match Memory_acceptances m !! key with
  | Some old =>
    if negb (bool_decide (Acceptance_DocumentSHA256 old = Acceptance_DocumentSHA256 x))
       || negb (bool_decide (Acceptance_AgeGroup old = Acceptance_AgeGroup x))
       || negb (bool_decide (Acceptance_GuardianPermission old
                             = Acceptance_GuardianPermission x))
    then (m, Err ErrConflict)
    else (m, Ok old)
  | None => (m <| Memory_acceptances ::= <[key := x]> |>, Ok x)
  end.

Definition Acceptance_lookup m u (version : string) : res Acceptance :=
  match Memory_acceptances m !! acceptance_key u version with
  | Some x => Ok x
  | None => Err ErrNotFound
  end.

Definition Submit m (c : Case) : Memory * res CaseStatus :=
  match Memory_cases m !! Case_ID c with
  | Some old =>
    if negb (bool_decide (Case_TokenHash old = Case_TokenHash c))
       || negb (bool_decide (Case_RequestHash old = Case_RequestHash c))
    then (m, Err ErrConflict)
    else (m, Ok (Case_Public old))
  | None => (m <| Memory_cases ::= <[Case_ID c := c]> |>, Ok (Case_Public c))
  end.

Definition Status m (id : UUID) (hash : string) : res CaseStatus :=
  match Memory_cases m !! id with
  | Some c =>
    if bool_decide (Case_TokenHash c = hash) then Ok (Case_Public c) else Err ErrNotFound
  | None => Err ErrNotFound
  end.

Definition received_le (x y : Case) : Prop := (Case_ReceivedAt x ≤ Case_ReceivedAt y)%Z.
#[global] Instance received_le_dec : RelDecision received_le :=
  λ x y, decide (Case_ReceivedAt x ≤ Case_ReceivedAt y)%Z.

Definition case_open (c : Case) : bool :=
  negb (bool_decide (Case_Status c = "resolved"))
  && negb (bool_decide (Case_Status c = "declined")).

Definition ListCases m (limit : Z) : res (list Case) :=
  if (limit <? 1)%Z || (100 <? limit)%Z then Err ErrInvalid
  else Ok (take (Z.to_nat limit)
    (merge_sort received_le (List.filter case_open (range (Memory_cases m)).*2))).

Definition Review_apply m (r : Review) (now : Z) : Memory * res unit :=
  match Review_Validate r with
  | Some e => (m, Err e)
  | None =>
    match Memory_cases m !! Review_CaseID r with
    | None => (m, Err ErrNotFound)
    | Some c =>
      if negb (bool_decide (Case_Status c = Review_ExpectedStatus r))
      then (m, Err ErrConflict)
      else
        let c' := c <| Case_Status := Review_Status r |>
                    <| Case_PublicUpdate := Review_PublicUpdate r |>
                    <| Case_UpdatedAt := now |> in
        (m <| Memory_cases ::= <[Case_ID c' := c']> |>
           <| Memory_reviews ::= (λ l, l ++ [r]) |>, Ok tt)
    end
  end.
End repository.

(** ** Runs of the repository *)

Inductive ComplianceOp :=
  | OpSetBlock (a b : UUID) (block : bool)
  | OpAccept (x : Acceptance)
  | OpSubmit (c : Case)
  | OpReview (r : Review) (now : Z).

Section runs.
Context `{GoRuntime}.
Implicit Types (m : Memory).

Definition compliance_step m (op : ComplianceOp) : Memory :=
  match op with
  | OpSetBlock a b block => (SetBlock m a b block).1
  | OpAccept x => (Accept m x).1
  | OpSubmit c => (Submit m c).1
  | OpReview r now => (Review_apply m r now).1
  end.

Definition compliance_run : Memory → list ComplianceOp → Memory := foldl compliance_step.

(** Cases enter the repository as [NewCase] builds them. *)
Definition op_fresh (op : ComplianceOp) : Prop :=
  match op with OpSubmit c => Case_Status c = "received" | _ => True end.

(** The status of a case after the reviews of the log, or [None] when a review
    was not written against the status it expected. *)
Fixpoint replay (id : UUID) (status : string) (log : list Review) : option string :=
  match log with
  | [] => Some status
  | r :: log =>
    if bool_decide (Review_CaseID r = id) then
      if bool_decide (Review_ExpectedStatus r = status)
      then replay id (Review_Status r) log else None
    else replay id status log
  end.

Lemma replay_app id status l1 l2 :
  replay id status (l1 ++ l2) = replay id status l1 ≫= λ st, replay id st l2.
Proof.
  revert status. induction l1 as [|r l1 IH]; intros status; simpl; [done|].
  by repeat case_bool_decide; simpl; rewrite ?IH.
Qed.

Lemma replay_other id status l :
  Forall (λ r, Review_CaseID r ≠ id) l → replay id status l = Some status.
Proof. induction 1; simpl; [done|]. by rewrite bool_decide_false. Qed.

Record memory_inv m : Prop := {
  inv_case_id : ∀ k c, Memory_cases m !! k = Some c → Case_ID c = k;
  inv_case_log : ∀ r, r ∈ Memory_reviews m → is_Some (Memory_cases m !! Review_CaseID r);
  inv_case_replay : ∀ k c, Memory_cases m !! k = Some c →
    replay k "received" (Memory_reviews m) = Some (Case_Status c) }.

Lemma memory_inv_new : memory_inv NewMemory.
Proof. split; simpl; intros; [done| by apply elem_of_nil in H0 |done]. Qed.

Lemma memory_inv_submit m c :
  memory_inv m → Case_Status c = "received" → memory_inv (Submit m c).1.
Proof.
  intros [Hid Hlog Hrep] Hst. unfold Submit.
  destruct (Memory_cases m !! Case_ID c) as [old|] eqn:E; [by case_match|].
  split; simpl.
  - intros k c'. rewrite lookup_insert_Some. naive_solver.
  - intros r Hr. rewrite lookup_insert. case_decide; eauto.
  - intros k c'. rewrite lookup_insert_Some. intros [[<- <-]|[_ Hk]]; [|eauto].
    rewrite Hst. apply replay_other, Forall_forall. intros r Hr Heq.
    destruct (Hlog r Hr) as [? Hr']. congruence.
Qed.

Lemma memory_inv_review m r now :
  memory_inv m → memory_inv (Review_apply m r now).1.
Proof.
  intros [Hid Hlog Hrep]. unfold Review_apply.
  destruct (Review_Validate r); [done|].
  destruct (Memory_cases m !! Review_CaseID r) as [c|] eqn:E; [|done].
  destruct (negb _) eqn:Est; [done|]. bool_prop.
  pose proof (Hid _ _ E) as Hc.
  split; simpl; rewrite Hc.
  - intros k c'. rewrite lookup_insert_Some. naive_solver.
  - intros r'. rewrite elem_of_app, list_elem_of_singleton, lookup_insert.
    case_decide; [eauto|]. naive_solver.
  - intros k c'. rewrite lookup_insert_Some, replay_app.
    intros [[<- <-]|[Hne Hk]]; simpl.
    + rewrite (Hrep _ _ E). simpl. by rewrite !bool_decide_true.
    + rewrite (Hrep _ _ Hk). simpl. by rewrite bool_decide_false.
Qed.

Lemma memory_inv_step m op :
  memory_inv m → op_fresh op → memory_inv (compliance_step m op).
Proof.
  intros Hm Hop. destruct op as [a b block|x|c|r now]; simpl in *.
  - unfold SetBlock. destruct Hm. by repeat case_match.
  - unfold Accept. destruct Hm. by repeat case_match.
  - by apply memory_inv_submit.
  - by apply memory_inv_review.
Qed.

Lemma memory_inv_run ops m :
  memory_inv m → Forall op_fresh ops → memory_inv (compliance_run m ops).
Proof.
  revert m. induction ops as [|op ops IH]; intros m Hm Hops; simpl; [done|].
  inv Hops. apply IH; [by apply memory_inv_step|done].
Qed.

(** What no later operation changes about a stored receipt or case. *)
Definition case_frozen (c c' : Case) : Prop :=
  Case_Submission c' = Case_Submission c ∧ Case_TokenHash c' = Case_TokenHash c ∧
  Case_RequestHash c' = Case_RequestHash c ∧ Case_ReceivedAt c' = Case_ReceivedAt c ∧
  Case_ReviewDueAt c' = Case_ReviewDueAt c.

Lemma acceptance_step m op k x :
  Memory_acceptances m !! k = Some x →
  Memory_acceptances (compliance_step m op) !! k = Some x.
Proof.
  intros Hx. destruct op; simpl.
  - unfold SetBlock. by repeat case_match.
  - unfold Accept. repeat case_match; simpl; try done.
    rewrite lookup_insert_ne; congruence.
  - unfold Submit. by repeat case_match.
  - unfold Review_apply. by repeat case_match.
Qed.

Lemma case_step m op k c :
  memory_inv m → Memory_cases m !! k = Some c →
  ∃ c', Memory_cases (compliance_step m op) !! k = Some c' ∧ case_frozen c c'.
Proof.
  intros Hm Hc. unfold case_frozen.
  destruct op as [? ? ?|?|c0|r now]; simpl.
  - unfold SetBlock. repeat case_match; eauto 10.
  - unfold Accept. repeat case_match; eauto 10.
  - unfold Submit. repeat case_match; simpl; eauto 10.
    rewrite lookup_insert_ne by congruence. eauto 10.
  - unfold Review_apply.
    destruct (Review_Validate r); [by exists c|].
    destruct (Memory_cases m !! Review_CaseID r) as [c0|] eqn:E; [|by exists c].
    destruct (negb _); [by exists c|]. simpl.
    pose proof (inv_case_id _ Hm _ _ E) as Hid. rewrite lookup_insert.
    destruct (decide (Case_ID c0 = k)) as [Hk|]; [|by exists c].
    eexists; split; [reflexivity|]. rewrite <- Hk, Hid, E in Hc. by simplify_eq.
Qed.

Lemma blocked_set_block m a b x y m' :
  SetBlock m a b true = (m', Ok tt) →
  Blocked m' x y = true ↔
  Blocked m x y = true ∨ (x = a ∧ y = b) ∨ (x = b ∧ y = a).
Proof.
  unfold SetBlock. intros Hs. op_cases Hs. unfold Blocked, block_entry. simpl.
  rewrite !orb_true_iff, !lookup_insert.
  repeat case_decide; simplify_eq/=; naive_solver.
Qed.

(** A successful block is effective in both directions and on no other
    pair: afterwards the delivery callback of [DeliverIfAllowed] runs for a pair
    exactly when it ran before and the pair is not the blocked one. *)
Theorem block_stops_delivery m a b m' x y send :
  SetBlock m a b true = (m', Ok tt) →
  (DeliverIfAllowed m' x y send).1 = true ↔
  (DeliverIfAllowed m x y send).1 = true ∧ ¬ (x = a ∧ y = b) ∧ ¬ (x = b ∧ y = a).
Proof.
  intros Hs. pose proof (blocked_set_block _ _ _ x y _ Hs) as Hb.
  unfold DeliverIfAllowed. destruct (Blocked m' x y), (Blocked m x y); naive_solver.
Qed.

(** The repository writes receipts and cases once: whatever operations
    follow, a stored acceptance is returned unchanged and a stored case keeps its
    submission, token, request digest, receipt time and review deadline. *)
Theorem receipts_write_once m ops k x id c :
  memory_inv m → Forall op_fresh ops →
  Memory_acceptances m !! k = Some x →
  Memory_cases m !! id = Some c →
  Memory_acceptances (compliance_run m ops) !! k = Some x ∧
  ∃ c', Memory_cases (compliance_run m ops) !! id = Some c' ∧ case_frozen c c'.
Proof.
  intros Hm Hops Hx Hc.
  assert (∃ c0, Memory_cases m !! id = Some c0 ∧ case_frozen c c0) as Hc'
    by (unfold case_frozen; eauto 10).
  clear Hc. revert m Hm Hx Hc'. induction ops as [|op ops IH]; simpl;
    intros m Hm Hx (c0 & Hc0 & Hf); [eauto|]. inv Hops.
  apply IH; [done|by apply memory_inv_step|by apply acceptance_step|].
  destruct (case_step m op id c0) as (c1 & Hc1 & Hf1); [done..|].
  exists c1. split; [done|]. unfold case_frozen in *. naive_solver congruence.
Qed.

(** The audit log explains every status: after any run that starts empty and
    submits fresh cases, replaying the recorded reviews of a case from "received"
    succeeds at each compare-and-set and ends in the stored status. *)
Theorem review_log_replays ops id c :
  Forall op_fresh ops →
  Memory_cases (compliance_run NewMemory ops) !! id = Some c →
  replay id "received" (Memory_reviews (compliance_run NewMemory ops))
    = Some (Case_Status c).
Proof.
  intros Hops Hc. eapply inv_case_replay; [|done].
  apply memory_inv_run; [apply memory_inv_new|done].
Qed.
End runs.

(** ** Concrete runs *)
Section witnesses.
#[local] Existing Instance Reference.runtime.

Definition sample_submission : Submission :=
  mkSubmission "safety" "a@b.example" "" "a report of some length" "" false false.
Definition sample_case : Case :=
  mkCase (uuid_of_N 7) sample_submission "token" "request" "received" 5 None 5 "".
Definition sample_acceptance : Acceptance :=
  mkAcceptance (uuid_of_N 1) "v1" "sha" "age_of_majority" false true 3.
Definition sample_ops : list ComplianceOp :=
  [OpAccept sample_acceptance; OpSubmit sample_case;
   OpSetBlock (uuid_of_N 1) (uuid_of_N 2) true;
   OpReview (mkReview (uuid_of_N 7) "received" "reviewing" "operator"
     "a sufficient reason" "") 9;
   OpReview (mkReview (uuid_of_N 7) "received" "declined" "operator"
     "a sufficient reason" "") 10].
Definition sample_memory : Memory := compliance_run NewMemory (take 2 sample_ops).

Lemma block_stops_delivery_witness :
  (DeliverIfAllowed (SetBlock NewMemory (uuid_of_N 1) (uuid_of_N 2) true).1
     (uuid_of_N 2) (uuid_of_N 1) None).1 = false.
Proof.
  pose proof (block_stops_delivery NewMemory (uuid_of_N 1) (uuid_of_N 2) _
    (uuid_of_N 2) (uuid_of_N 1) None
    (pair_run (SetBlock NewMemory (uuid_of_N 1) (uuid_of_N 2) true) (Ok tt)
      ltac:(vm_compute; reflexivity))) as Hb.
  destruct (DeliverIfAllowed _ _ _ _).1; [|reflexivity].
  destruct (proj1 Hb eq_refl) as (_ & _ & Hne). destruct (Hne (conj eq_refl eq_refl)).
Defined.

Lemma receipts_write_once_witness :
  Memory_acceptances (compliance_run sample_memory (drop 2 sample_ops))
    !! acceptance_key (uuid_of_N 1) "v1" = Some sample_acceptance ∧
  ∃ c', Memory_cases (compliance_run sample_memory (drop 2 sample_ops))
    !! uuid_of_N 7 = Some c' ∧ case_frozen sample_case c'.
Proof.
  apply receipts_write_once.
  - apply memory_inv_run; [apply memory_inv_new|]. repeat constructor.
  - repeat constructor.
  - vm_compute. reflexivity.
  - vm_compute. reflexivity.
Defined.

Lemma review_log_replays_witness :
  replay (uuid_of_N 7) "received" (Memory_reviews (compliance_run NewMemory sample_ops))
    = Some "reviewing".
Proof.
  apply (review_log_replays sample_ops (uuid_of_N 7)
    (mkCase (uuid_of_N 7) sample_submission "token" "request" "reviewing" 5 None 9 "")).
  - repeat constructor.
  - vm_compute. reflexivity.
Defined.
End witnesses.
