(* ===== verification/MediaKey.v ===== *)
(** * Object keys of uploaded media

    [src/internal/mediakey/key.go].  A client uploads to a staging key; only the
    backend writes under [published/].  Deletion must cover both names whichever
    of the two is at hand. *)

From Stdlib Require Import ZArith Lia Ascii.
From S2P Require Import Prelude.
From S2P Require Import Runtime.
From S2P Require Import Domain.

Section mediakey.
Context `{GoRuntime}.
Implicit Types (k p : string).

Definition PublishedPrefix : string := "published/".
Definition maxObjectKeyBytes : Z := 1024.

(** A control character of the key; in valid UTF-8 these are single bytes. *)
Definition control_char (c : ascii) : bool :=
  (N_of_ascii c <? 32)%N || (N_of_ascii c =? 127)%N.

(** [None] is the nil error. *)
Definition Validate k : option Error :=
  if bool_decide (k = "") || (maxObjectKeyBytes <? strlen k)%Z || negb (ValidUTF8 k)
     || HasPrefix k "/" || negb (bool_decide (TrimSpace k = k))
  then Some (ErrOther "media object key is invalid")
  else if existsb control_char (String.list_ascii_of_string k)
  then Some (ErrOther "media object key is invalid")
  else None.

Definition Published k : res string :=
  match Validate k with
  | Some e => Err e
  | None =>
    if HasPrefix k PublishedPrefix then Ok k
    else
      let published := PublishedPrefix +:+ k in
      if (maxObjectKeyBytes <? strlen published)%Z
      then Err (ErrOther "published media object key is too long")
      else Ok published
  end.

Definition DeletionKeys k : res (list string) :=
  match Published k with
  | Err e => Err e
  | Ok published =>
    if bool_decide (published = k) then
      let staging := TrimPrefix k PublishedPrefix in
      match Validate staging with
      | Some e => Err e
      | None => Ok [staging; k]
      end
    else Ok [k; published]
  end.

(** ** Lemmas *)

Definition valid_key k : Prop :=
  k ≠ "" ∧ (strlen k ≤ maxObjectKeyBytes)%Z ∧ ValidUTF8 k = true ∧
  HasPrefix k "/" = false ∧ TrimSpace k = k ∧
  existsb control_char (String.list_ascii_of_string k) = false.

Lemma Validate_ok k : Validate k = None ↔ valid_key k.
Proof.
  unfold Validate, valid_key. split.
  - intros Hv. op_cases Hv. repeat split; done.
  - intros (Hne & Hlen & Hutf & Hp & Ht & Hc).
    rewrite (bool_decide_false _ Hne), Hutf, Hp, (bool_decide_true _ Ht), Hc.
    by rewrite (proj2 (Z.ltb_ge _ _) Hlen).
Qed.

Lemma strlen_app a b : strlen (a +:+ b) = (strlen a + strlen b)%Z.
Proof. unfold strlen. rewrite string_length_app. lia. Qed.

Lemma prefix_cons_false k : HasPrefix (PublishedPrefix +:+ k) "/" = false.
Proof. done. Qed.

Lemma app_prefix_ne k : k ≠ PublishedPrefix +:+ k.
Proof. intros Hk. apply (f_equal strlen) in Hk. rewrite strlen_app in Hk. vm_compute (strlen PublishedPrefix) in Hk. lia. Qed.

Lemma valid_published k :
  valid_key k → (strlen (PublishedPrefix +:+ k) ≤ maxObjectKeyBytes)%Z →
  valid_key (PublishedPrefix +:+ k).
Proof.
  intros (Hne & Hlen & Hutf & Hp & Ht & Hc) Hlen'.
  assert (ValidUTF8 PublishedPrefix = true) as Hpu by (by apply ValidUTF8_graph).
  repeat split; try done.
  - by rewrite ValidUTF8_app.
  - apply TrimSpace_app; try done. by apply TrimSpace_graph.
Qed.

Lemma Published_cases k p :
  Published k = Ok p →
  valid_key k ∧
  ((HasPrefix k PublishedPrefix = true ∧ p = k) ∨
   (HasPrefix k PublishedPrefix = false ∧ p = PublishedPrefix +:+ k ∧ valid_key p)).
Proof.
  unfold Published. destruct (Validate k) as [e|] eqn:Hv; [done|].
  apply Validate_ok in Hv. intros Hp. split; [done|]. op_cases Hp; [by left|].
  right. split_and!; try done. by apply valid_published.
Qed.

Lemma Published_staging k :
  valid_key k → HasPrefix k PublishedPrefix = false →
  (strlen (PublishedPrefix +:+ k) ≤ maxObjectKeyBytes)%Z →
  Published k = Ok (PublishedPrefix +:+ k).
Proof.
  intros Hv Hp Hlen. unfold Published. rewrite (proj2 (Validate_ok k) Hv), Hp.
  by rewrite (proj2 (Z.ltb_ge _ _) Hlen).
Qed.

Lemma Published_fixed k :
  valid_key k → HasPrefix k PublishedPrefix = true → Published k = Ok k.
Proof. intros Hv Hp. unfold Published. by rewrite (proj2 (Validate_ok k) Hv), Hp. Qed.

Lemma DeletionKeys_published k :
  valid_key k → valid_key (PublishedPrefix +:+ k) →
  DeletionKeys (PublishedPrefix +:+ k) = Ok [k; PublishedPrefix +:+ k].
Proof.
  intros Hk Hpk. unfold DeletionKeys.
  rewrite Published_fixed by (done || apply HasPrefix_app).
  rewrite bool_decide_true, TrimPrefix_app by done.
  by rewrite (proj2 (Validate_ok k) Hk).
Qed.

(** ** Properties *)

(** The deletion keys of an upload are the same whichever of its two names
    is known: for every staging key [k] that can be published, [DeletionKeys]
    of [k] and of its published key both give exactly the staging key and the
    published key, the published key is never the staging key (a client that
    replays an upload cannot overwrite the served object), and publishing a
    second time changes nothing. *)
Theorem deletion_keys_symmetric k p :
  HasPrefix k PublishedPrefix = false → Published k = Ok p →
  DeletionKeys k = Ok [k; p] ∧ DeletionKeys p = Ok [k; p] ∧
  p ≠ k ∧ HasPrefix p PublishedPrefix = true ∧ Published p = Ok p.
Proof.
  intros Hk Hp. destruct (Published_cases k p Hp) as [Hv [[Hk' _]|(_ & -> & Hvp)]];
    [congruence|].
  assert (PublishedPrefix +:+ k ≠ k) as Hne by (intros He; by apply (app_prefix_ne k)).
  split_and!.
  - unfold DeletionKeys. by rewrite Hp, bool_decide_false.
  - by apply DeletionKeys_published.
  - done.
  - apply HasPrefix_app.
  - apply Published_fixed; [done|apply HasPrefix_app].
Qed.
End mediakey.

Section witnesses.
#[local] Existing Instance Reference.runtime.

Lemma deletion_keys_symmetric_witness :
  DeletionKeys "published/u/1.bin" = Ok ["u/1.bin"; "published/u/1.bin"].
Proof.
  exact (proj1 (proj2 (deletion_keys_symmetric "u/1.bin" "published/u/1.bin"
    ltac:(vm_compute; reflexivity) ltac:(vm_compute; reflexivity)))).
Defined.
End witnesses.
