(* ===== verification/StoreState.v ===== *)
(** * The state of the memory store

    The [Store] structure of [src/internal/store/memory/memory.go], its helper
    functions, the composite keys of its maps and the appends to its outbox.

    Conventions shared by every store component:

    - an operation takes the store and returns the new store with its result; a
      critical section of [s.mu] is one such step, and the reader/writer locks are
      not part of the state;
    - [clock i] is the [i]-th reading of [time.Now] in a call, [newID] the value a
      call of [uuid.New] returned;
    - a missing entry of a nested map reads as the empty map, as in Go. *)

From Stdlib Require Import ZArith Lia.
From S2P Require Import Prelude.
From S2P Require Import Runtime.
From S2P Require Import Domain.
From S2P Require Import Compliance.
From S2P Require Import MediaKey.

Record ConversationMemberTombstone := mkConversationMemberTombstone {
  ConversationMemberTombstone_UserID : UUID; ConversationMemberTombstone_LocalID : UUID }.

Record RotateChoreResult := mkRotateChoreResult {
  RotateChoreResult_OperationID : UUID; RotateChoreResult_Chore : Entity;
  RotateChoreResult_FeedItem : Entity }.

Record memoryChoreRotation := mkmemoryChoreRotation {
  memoryChoreRotation_ConversationID : UUID; memoryChoreRotation_ActorID : UUID;
  memoryChoreRotation_ChoreID : UUID; memoryChoreRotation_RequestHash : string;
  memoryChoreRotation_Result : RotateChoreResult; memoryChoreRotation_ExpiresAt : Z }.

Record Store := mkStore {
  Store_compliance : Memory; Store_users : gmap UUID User;
  Store_emailToUser : gmap string UUID; Store_phoneToUser : gmap string UUID;
  Store_usernameToUser : gmap string UUID; Store_externalUsers : gmap string UUID;
  Store_ageAssurances : gmap UUID AgeAssurance;
  Store_passwordResets : gmap UUID PasswordResetChallenge;
  Store_accountDeletionIntents : gmap UUID AccountDeletionIntent;
  Store_mailDeliveries : gmap UUID MailDelivery; Store_devices : gmap UUID Device;
  Store_preKeys : gmap UUID (list OneTimePreKey); Store_sessions : gmap UUID Session;
  Store_conversations : gmap UUID Conversation;
  Store_members : gmap UUID (gmap UUID ConversationMember);
  Store_memberLocalIDs : gmap UUID (gmap UUID UUID);
  Store_memberTombstones : gmap UUID (gmap UUID ConversationMemberTombstone);
  Store_invites : gmap UUID (gmap string UUID);
  Store_inviteLinks : gmap string ConversationInvite;
  Store_inviteLinkKeys : gmap UUID string; Store_messages : gmap UUID (list Message);
  Store_clientMessages : gmap string Message; Store_receipts : gmap string Receipt;
  Store_entities : gmap string Entity;
  Store_choreRotations : gmap UUID memoryChoreRotation;
  Store_media : gmap UUID MediaObject; Store_mediaUploadCapabilities : gmap UUID string;
  Store_outbox : list OutboxEvent; Store_nextOutboxID : Z;
  Store_activeRealtimeDeliveries : gmap Z Z; Store_pushDeliveries : gmap Z PushDelivery;
  Store_pushDeliveryByEventDevice : gmap string Z; Store_nextPushDeliveryID : Z;
  Store_activePushDeliveries : gmap Z UUID }.
Definition eta_Store (r : Store) : Store :=
  mkStore (Store_compliance r) (Store_users r) (Store_emailToUser r)
    (Store_phoneToUser r) (Store_usernameToUser r) (Store_externalUsers r)
    (Store_ageAssurances r) (Store_passwordResets r) (Store_accountDeletionIntents r)
    (Store_mailDeliveries r) (Store_devices r) (Store_preKeys r) (Store_sessions r)
    (Store_conversations r) (Store_members r) (Store_memberLocalIDs r)
    (Store_memberTombstones r) (Store_invites r) (Store_inviteLinks r)
    (Store_inviteLinkKeys r) (Store_messages r) (Store_clientMessages r)
    (Store_receipts r) (Store_entities r) (Store_choreRotations r) (Store_media r)
    (Store_mediaUploadCapabilities r) (Store_outbox r) (Store_nextOutboxID r)
    (Store_activeRealtimeDeliveries r) (Store_pushDeliveries r)
    (Store_pushDeliveryByEventDevice r) (Store_nextPushDeliveryID r)
    (Store_activePushDeliveries r).
#[export] Instance set_Store_compliance : Setter Store_compliance :=
  ltac:(field_setter eta_Store Store_compliance).
#[export] Instance set_Store_users : Setter Store_users :=
  ltac:(field_setter eta_Store Store_users).
#[export] Instance set_Store_emailToUser : Setter Store_emailToUser :=
  ltac:(field_setter eta_Store Store_emailToUser).
#[export] Instance set_Store_phoneToUser : Setter Store_phoneToUser :=
  ltac:(field_setter eta_Store Store_phoneToUser).
#[export] Instance set_Store_usernameToUser : Setter Store_usernameToUser :=
  ltac:(field_setter eta_Store Store_usernameToUser).
#[export] Instance set_Store_externalUsers : Setter Store_externalUsers :=
  ltac:(field_setter eta_Store Store_externalUsers).
#[export] Instance set_Store_ageAssurances : Setter Store_ageAssurances :=
  ltac:(field_setter eta_Store Store_ageAssurances).
#[export] Instance set_Store_passwordResets : Setter Store_passwordResets :=
  ltac:(field_setter eta_Store Store_passwordResets).
#[export] Instance set_Store_accountDeletionIntents : Setter Store_accountDeletionIntents :=
  ltac:(field_setter eta_Store Store_accountDeletionIntents).
#[export] Instance set_Store_mailDeliveries : Setter Store_mailDeliveries :=
  ltac:(field_setter eta_Store Store_mailDeliveries).
#[export] Instance set_Store_devices : Setter Store_devices :=
  ltac:(field_setter eta_Store Store_devices).
#[export] Instance set_Store_preKeys : Setter Store_preKeys :=
  ltac:(field_setter eta_Store Store_preKeys).
#[export] Instance set_Store_sessions : Setter Store_sessions :=
  ltac:(field_setter eta_Store Store_sessions).
#[export] Instance set_Store_conversations : Setter Store_conversations :=
  ltac:(field_setter eta_Store Store_conversations).
#[export] Instance set_Store_members : Setter Store_members :=
  ltac:(field_setter eta_Store Store_members).
#[export] Instance set_Store_memberLocalIDs : Setter Store_memberLocalIDs :=
  ltac:(field_setter eta_Store Store_memberLocalIDs).
#[export] Instance set_Store_memberTombstones : Setter Store_memberTombstones :=
  ltac:(field_setter eta_Store Store_memberTombstones).
#[export] Instance set_Store_invites : Setter Store_invites :=
  ltac:(field_setter eta_Store Store_invites).
#[export] Instance set_Store_inviteLinks : Setter Store_inviteLinks :=
  ltac:(field_setter eta_Store Store_inviteLinks).
#[export] Instance set_Store_inviteLinkKeys : Setter Store_inviteLinkKeys :=
  ltac:(field_setter eta_Store Store_inviteLinkKeys).
#[export] Instance set_Store_messages : Setter Store_messages :=
  ltac:(field_setter eta_Store Store_messages).
#[export] Instance set_Store_clientMessages : Setter Store_clientMessages :=
  ltac:(field_setter eta_Store Store_clientMessages).
#[export] Instance set_Store_receipts : Setter Store_receipts :=
  ltac:(field_setter eta_Store Store_receipts).
#[export] Instance set_Store_entities : Setter Store_entities :=
  ltac:(field_setter eta_Store Store_entities).
#[export] Instance set_Store_choreRotations : Setter Store_choreRotations :=
  ltac:(field_setter eta_Store Store_choreRotations).
#[export] Instance set_Store_media : Setter Store_media :=
  ltac:(field_setter eta_Store Store_media).
#[export] Instance set_Store_mediaUploadCapabilities : Setter Store_mediaUploadCapabilities :=
  ltac:(field_setter eta_Store Store_mediaUploadCapabilities).
#[export] Instance set_Store_outbox : Setter Store_outbox :=
  ltac:(field_setter eta_Store Store_outbox).
#[export] Instance set_Store_nextOutboxID : Setter Store_nextOutboxID :=
  ltac:(field_setter eta_Store Store_nextOutboxID).
#[export] Instance set_Store_activeRealtimeDeliveries : Setter Store_activeRealtimeDeliveries :=
  ltac:(field_setter eta_Store Store_activeRealtimeDeliveries).
#[export] Instance set_Store_pushDeliveries : Setter Store_pushDeliveries :=
  ltac:(field_setter eta_Store Store_pushDeliveries).
#[export] Instance set_Store_pushDeliveryByEventDevice : Setter Store_pushDeliveryByEventDevice :=
  ltac:(field_setter eta_Store Store_pushDeliveryByEventDevice).
#[export] Instance set_Store_nextPushDeliveryID : Setter Store_nextPushDeliveryID :=
  ltac:(field_setter eta_Store Store_nextPushDeliveryID).
#[export] Instance set_Store_activePushDeliveries : Setter Store_activePushDeliveries :=
  ltac:(field_setter eta_Store Store_activePushDeliveries).

Definition New : Store :=
  mkStore NewMemory ∅ ∅ ∅ ∅ ∅ ∅ ∅ ∅ ∅ ∅ ∅ ∅ ∅ ∅ ∅ ∅ ∅ ∅ ∅ ∅ ∅ ∅ ∅ ∅ ∅ ∅ [] 1 ∅ ∅ ∅ 1 ∅.

(** Successive readings of [time.Now] within one call. *)
Definition Clock : Type := nat → Z.
Definition later (k : nat) (clock : Clock) : Clock := λ i, clock (k + i).

(** [m[k]] on a map of maps. *)
Definition inner {K1 K2 V} `{Countable K1, Countable K2}
    (m : gmap K1 (gmap K2 V)) (k : K1) : gmap K2 V := default ∅ (m !! k).

(** ** Users and members *)

(** [user, ok := s.users[id]; !ok || string(user.Profile) == `{"deleted":true}`]
    guards most operations. *)
Definition live_user (s : Store) (id : UUID) : option User :=
  match Store_users s !! id with
  | Some user => if profile_deleted (User_Profile user) then None else Some user
  | None => None
  end.

Definition membersOf (s : Store) (conversationID : UUID) : gmap UUID ConversationMember :=
  inner (Store_members s) conversationID.

Definition member (s : Store) (conversationID userID : UUID) : option ConversationMember :=
  membersOf s conversationID !! userID.

Definition is_member (s : Store) (conversationID userID : UUID) : bool :=
  bool_decide (is_Some (member s conversationID userID)).

Lemma live_user_lookup s id u : live_user s id = Some u → Store_users s !! id = Some u.
Proof. unfold live_user. intros Hu. op_cases Hu. done. Qed.

(** [uniqueUUIDs]: drop [uuid.Nil] and repetitions, keep the first occurrence. *)
Fixpoint uniqueUUIDs_loop (seen : gset UUID) (ids : list UUID) : list UUID :=
  match ids with
  | [] => []
  | id :: ids =>
    if bool_decide (id = uuid_Nil) || bool_decide (id ∈ seen)
    then uniqueUUIDs_loop seen ids
    else id :: uniqueUUIDs_loop ({[ id ]} ∪ seen) ids
  end.
Definition uniqueUUIDs (ids : list UUID) : list UUID := uniqueUUIDs_loop ∅ ids.

Lemma elem_of_uniqueUUIDs_loop seen ids x :
  x ∈ uniqueUUIDs_loop seen ids ↔ x ∈ ids ∧ x ≠ uuid_Nil ∧ x ∉ seen.
Proof.
  revert seen. induction ids as [|id ids IH]; intros seen; simpl; [set_solver|].
  repeat case_bool_decide; simpl; rewrite ?elem_of_cons, ?IH; [set_solver..|].
  destruct (decide (x = id)); set_solver.
Qed.

Lemma elem_of_uniqueUUIDs ids x : x ∈ uniqueUUIDs ids ↔ x ∈ ids ∧ x ≠ uuid_Nil.
Proof. unfold uniqueUUIDs. rewrite elem_of_uniqueUUIDs_loop. set_solver. Qed.

Lemma NoDup_uniqueUUIDs ids : NoDup (uniqueUUIDs ids).
Proof.
  unfold uniqueUUIDs. generalize (∅ : gset UUID) as seen.
  induction ids as [|id ids IH]; intros seen; simpl; [constructor|].
  repeat case_bool_decide; simpl; auto. constructor; [|done].
  rewrite elem_of_uniqueUUIDs_loop. set_solver.
Qed.

(** ** Keys *)
Section keys.
Context `{GoRuntime}.

(** [for id := range members] *)
Definition memberIDs (members : gmap UUID ConversationMember) : list UUID :=
  (range members).*1.

(** [conversationID.String() + ":" + kind + ":" + id.String()] *)
Definition entityKey (conversationID : UUID) (kind : string) (id : UUID) : string :=
  uuid_String conversationID +:+ ":" +:+ kind +:+ ":" +:+ uuid_String id.

Definition pushDeliveryKey (outboxEventID : Z) (deviceID : UUID) : string :=
  pretty outboxEventID +:+ ":" +:+ uuid_String deviceID.

(** The key of [clientMessages] and of [receipts]. *)
Definition uuidPairKey (a b : UUID) : string := uuid_String a +:+ ":" +:+ uuid_String b.
Definition uuidTextKey (a : UUID) (text : string) : string :=
  uuid_String a +:+ ":" +:+ text.

Lemma uuid_text_inj_prefix a a' t t' :
  uuid_String a +:+ t = uuid_String a' +:+ t' → a = a' ∧ t = t'.
Proof.
  intros Heq. apply string_app_inj_prefix in Heq as [Ha ->];
    [|by rewrite !uuid_String_length].
  by apply (inj uuid_String) in Ha as ->.
Qed.

Lemma uuid_text_inj_suffix a a' t t' :
  t +:+ uuid_String a = t' +:+ uuid_String a' → t = t' ∧ a = a'.
Proof.
  intros Heq. apply string_app_inj_suffix in Heq as [-> Ha];
    [|by rewrite !uuid_String_length].
  by apply (inj uuid_String) in Ha as ->.
Qed.

Lemma uuidTextKey_inj a a' t t' : uuidTextKey a t = uuidTextKey a' t' → a = a' ∧ t = t'.
Proof. intros Heq. apply uuid_text_inj_prefix in Heq as [-> Ht]. by simplify_eq/=. Qed.

Lemma uuidPairKey_inj a a' b b' : uuidPairKey a b = uuidPairKey a' b' → a = a' ∧ b = b'.
Proof.
  intros Heq. apply uuidTextKey_inj in Heq as [-> Hb].
  by apply (inj uuid_String) in Hb as ->.
Qed.

Lemma entityKey_inj c c' k k' i i' :
  entityKey c k i = entityKey c' k' i' → c = c' ∧ k = k' ∧ i = i'.
Proof.
  intros Heq. apply uuid_text_inj_prefix in Heq as [-> Heq]. simplify_eq/=.
  change (k +:+ (":" +:+ uuid_String i) = k' +:+ (":" +:+ uuid_String i')) in Heq.
  rewrite <- !string_app_assoc in Heq. apply uuid_text_inj_suffix in Heq as [Hk ->].
  by apply string_app_inj_suffix in Hk as [-> _].
Qed.

Lemma pushDeliveryKey_inj e e' d d' :
  pushDeliveryKey e d = pushDeliveryKey e' d' → e = e' ∧ d = d'.
Proof.
  unfold pushDeliveryKey. rewrite <- !string_app_assoc. intros Heq.
  apply uuid_text_inj_suffix in Heq as [He ->].
  apply string_app_inj_suffix in He as [He _]; [|done].
  by apply (inj pretty) in He as ->.
Qed.
End keys.

(** ** Outbox appends *)

Definition MediaDeleteBatchSize : nat := 500.
Definition MediaDeleteGrace : Z := 3 * Minute.

(** [clock 0] is the reading for [CreatedAt]. *)
Definition appendOutboxAt (s : Store) (topic : string) (aggregateID : UUID)
    (payload : Payload) (availableAt : Z) (clock : Clock) : Store :=
  s <| Store_outbox ::= (λ l, l ++
         [mkOutboxEvent (Store_nextOutboxID s) topic aggregateID payload
            (clock 0) None availableAt None 0]) |>
    <| Store_nextOutboxID ::= (λ n, int64_wrap (n + 1)) |>.

(** [clock 0] is the reading for [AvailableAt], [clock 1] for [CreatedAt]. *)
Definition appendOutbox (s : Store) (topic : string) (aggregateID : UUID)
    (payload : Payload) (clock : Clock) : Store :=
  appendOutboxAt s topic aggregateID payload (clock 0) (later 1 clock).

Definition NewMediaDeletePayloadAt (objectKeys : list string) (notBefore : Z) :
    MediaDeletePayload := mkMediaDeletePayload objectKeys (Some notBefore).

(** One outbox event per batch of at most [MediaDeleteBatchSize] keys; the fuel
    [length objectKeys] is enough because every batch takes at least one key. *)
Fixpoint appendExactMediaDeletesAt_loop (fuel : nat) (s : Store) (aggregateID : UUID)
    (objectKeys : list string) (notBefore : Z) (clock : Clock) : Store :=
  match fuel, objectKeys with
  | S fuel, _ :: _ =>
    appendExactMediaDeletesAt_loop fuel
      (appendOutboxAt s "media.delete" aggregateID
         (PMediaDelete (NewMediaDeletePayloadAt
            (take MediaDeleteBatchSize objectKeys) notBefore)) notBefore clock)
      aggregateID (drop MediaDeleteBatchSize objectKeys) notBefore (later 1 clock)
  | _, _ => s
  end.

Definition appendExactMediaDeletesAt (s : Store) (aggregateID : UUID)
    (objectKeys : list string) (notBefore : Z) (clock : Clock) : Store :=
  appendExactMediaDeletesAt_loop (length objectKeys) s aggregateID objectKeys notBefore clock.

(** Keys already seen are skipped; order of first occurrence is kept. *)
Fixpoint unique_keys (seen : gset string) (keys : list string) : list string :=
  match keys with
  | [] => []
  | k :: keys =>
    if bool_decide (k ∈ seen) then unique_keys seen keys
    else k :: unique_keys ({[ k ]} ∪ seen) keys
  end.

Section media_deletes.
Context `{GoRuntime}.

Definition expand_key (objectKey : string) : list string :=
  match DeletionKeys objectKey with Ok keys => keys | Err _ => [objectKey] end.

Definition appendMediaDeletesAt (s : Store) (aggregateID : UUID)
    (objectKeys : list string) (notBefore : Z) (clock : Clock) : Store :=
  appendExactMediaDeletesAt s aggregateID
    (unique_keys ∅ (mjoin (expand_key <$> objectKeys))) notBefore clock.
End media_deletes.

Definition memoryMediaDeleteNotBefore (uploadValidUntil : Z) (clock : Clock) : Z :=
  let notBefore := (clock 0%nat + MediaDeleteGrace)%Z in
  let candidate := (uploadValidUntil + MediaDeleteGrace)%Z in
  if After candidate notBefore then candidate else notBefore.

(** ** What the appends do

    An append touches the outbox and its counter only: [outbox_grows s s' evs] says
    that [s'] is [s] with the events [evs] added at the end. *)
Definition with_outbox (s : Store) (l : list OutboxEvent) (n : Z) : Store :=
  s <| Store_outbox := l |> <| Store_nextOutboxID := n |>.

Definition outbox_grows (s s' : Store) (evs : list OutboxEvent) : Prop :=
  ∃ n, s' = with_outbox s (Store_outbox s ++ evs) n.

Lemma with_outbox_id s : with_outbox s (Store_outbox s) (Store_nextOutboxID s) = s.
Proof. by destruct s. Qed.
Lemma with_outbox_twice s l n l' n' : with_outbox (with_outbox s l n) l' n' = with_outbox s l' n'.
Proof. reflexivity. Qed.

(** The events are fresh: numbered from the counter, unpublished and unlocked. *)
Fixpoint numbered (n : Z) (evs : list OutboxEvent) : Prop :=
  match evs with
  | [] => True
  | e :: evs => OutboxEvent_ID e = n ∧ numbered (int64_wrap (n + 1)) evs
  end.

Definition fresh_event (e : OutboxEvent) : Prop :=
  OutboxEvent_PublishedAt e = None ∧ OutboxEvent_LockedUntil e = None ∧
  OutboxEvent_Attempts e = 0%Z.

Lemma outbox_grows_refl s : outbox_grows s s [].
Proof. exists (Store_nextOutboxID s). by rewrite app_nil_r, with_outbox_id. Qed.

Lemma outbox_grows_trans s1 s2 s3 l1 l2 :
  outbox_grows s1 s2 l1 → outbox_grows s2 s3 l2 → outbox_grows s1 s3 (l1 ++ l2).
Proof.
  intros [n1 ->] [n2 ->]. exists n2. rewrite with_outbox_twice.
  change (Store_outbox (with_outbox s1 (Store_outbox s1 ++ l1) n1))
    with (Store_outbox s1 ++ l1). by rewrite app_assoc.
Qed.

Lemma appendOutboxAt_grows s topic agg payload at_ clock :
  outbox_grows s (appendOutboxAt s topic agg payload at_ clock)
    [mkOutboxEvent (Store_nextOutboxID s) topic agg payload (clock 0) None at_ None 0].
Proof. eexists. reflexivity. Qed.

(** The object keys an event asks the media worker to delete. *)
Definition event_keys (e : OutboxEvent) : list string :=
  match OutboxEvent_Payload e with
  | PMediaDelete d => MediaDeletePayload_ObjectKeys d
  | _ => []
  end.

(** The events of one call of [appendExactMediaDeletesAt]. *)
Definition media_delete_events (agg : UUID) (keys : list string) (notBefore : Z)
    (evs : list OutboxEvent) : Prop :=
  mjoin (event_keys <$> evs) = keys ∧
  Forall (λ e, OutboxEvent_Topic e = "media.delete" ∧ OutboxEvent_AggregateID e = agg ∧
    OutboxEvent_AvailableAt e = notBefore ∧ fresh_event e ∧
    ∃ batch, OutboxEvent_Payload e = PMediaDelete (mkMediaDeletePayload batch (Some notBefore))
      ∧ 1 ≤ length batch ≤ MediaDeleteBatchSize) evs.

Lemma appendExact_loop_grows fuel s agg keys notBefore clock :
  length keys ≤ fuel →
  ∃ evs, outbox_grows s
           (appendExactMediaDeletesAt_loop fuel s agg keys notBefore clock) evs ∧
         media_delete_events agg keys notBefore evs.
Proof.
  revert s keys clock. induction fuel as [|fuel IH]; intros s keys clock Hlen.
  - destruct keys; simpl in Hlen; [|lia]. exists []. split; [apply outbox_grows_refl|].
    by split; [|constructor].
  - destruct keys as [|k keys].
    + exists []. split; [apply outbox_grows_refl|]. by split; [|constructor].
    + cbn [appendExactMediaDeletesAt_loop].
      edestruct (IH (appendOutboxAt s "media.delete" agg
         (PMediaDelete (NewMediaDeletePayloadAt
            (take MediaDeleteBatchSize (k :: keys)) notBefore)) notBefore clock)
         (drop MediaDeleteBatchSize (k :: keys)) (later 1 clock)) as (evs & Hg & Hk & Hall).
      { rewrite length_drop. cbn [length] in *. unfold MediaDeleteBatchSize. lia. }
      eexists. split.
      { eapply outbox_grows_trans; [apply appendOutboxAt_grows|exact Hg]. }
      split.
      * change (take MediaDeleteBatchSize (k :: keys) ++ mjoin (event_keys <$> evs)
          = k :: keys).
        rewrite Hk. apply take_drop.
      * constructor; [|done]. repeat split. eexists. split; [reflexivity|].
        rewrite length_take. cbn [length]. unfold MediaDeleteBatchSize. lia.
Qed.

Lemma appendExactMediaDeletesAt_grows s agg keys notBefore clock :
  ∃ evs, outbox_grows s (appendExactMediaDeletesAt s agg keys notBefore clock) evs ∧
         media_delete_events agg keys notBefore evs.
Proof. by apply appendExact_loop_grows. Qed.

Lemma elem_of_unique_keys seen keys k :
  k ∈ unique_keys seen keys ↔ k ∈ keys ∧ k ∉ seen.
Proof.
  revert seen. induction keys as [|x keys IH]; intros seen; simpl; [set_solver|].
  case_bool_decide; rewrite ?elem_of_cons, ?IH; [set_solver|].
  destruct (decide (k = x)); set_solver.
Qed.

Lemma NoDup_unique_keys seen keys : NoDup (unique_keys seen keys).
Proof.
  revert seen. induction keys as [|x keys IH]; intros seen; simpl; [constructor|].
  case_bool_decide; [done|]. constructor; [|done]. rewrite elem_of_unique_keys. set_solver.
Qed.

Lemma memoryMediaDeleteNotBefore_bounds until clock :
  (until + MediaDeleteGrace ≤ memoryMediaDeleteNotBefore until clock)%Z ∧
  (clock 0%nat + MediaDeleteGrace ≤ memoryMediaDeleteNotBefore until clock)%Z.
Proof.
  unfold memoryMediaDeleteNotBefore. destruct (After _ _) eqn:E; bool_prop; lia.
Qed.

Section media_deletes_grow.
Context `{GoRuntime}.

(** A key handed to [appendMediaDeletesAt] is deleted, and so is its other name. *)
Lemma appendMediaDeletesAt_grows s agg keys notBefore clock :
  ∃ evs all, outbox_grows s (appendMediaDeletesAt s agg keys notBefore clock) evs ∧
    media_delete_events agg all notBefore evs ∧ NoDup all ∧
    (∀ k, k ∈ all ↔ ∃ k0, k0 ∈ keys ∧ k ∈ expand_key k0).
Proof.
  unfold appendMediaDeletesAt.
  destruct (appendExactMediaDeletesAt_grows s agg
    (unique_keys ∅ (mjoin (expand_key <$> keys))) notBefore clock) as (evs & Hg & Hm).
  exists evs, (unique_keys ∅ (mjoin (expand_key <$> keys))). split_and!; try done.
  - apply NoDup_unique_keys.
  - intros k. rewrite elem_of_unique_keys, list_elem_of_join. set_solver.
Qed.

Lemma elem_of_expand_key k : k ∈ expand_key k.
Proof.
  unfold expand_key, DeletionKeys. destruct (Published k) as [p|e]; [|set_solver].
  case_bool_decide; [|set_solver]. destruct (Validate _); set_solver.
Qed.
End media_deletes_grow.
