(* ===== verification/Threads.v ===== *)
(** * Threads over the store

    Code that runs beside the rest of the server reaches the store in critical sections
    of its own and calls other services in between.  [M C A] is such code: it takes the
    store and its own state, a count of its accesses and the calls of type [C] it has
    made so far, and returns them with a value.

    [emits] is a small program logic for the calls a computation makes, whatever the
    store it starts from; [from] also keeps the store it ends in. *)

From Stdlib Require Import ZArith.
From S2P Require Import Prelude.
From S2P Require Import Runtime.
From S2P Require Import Domain.
From S2P Require Import StoreState.

Record Local (C : Type) := mkLocal { Local_step : nat; Local_calls : list C }.
Arguments mkLocal {C} _ _.
Arguments Local_step {C} _.
Arguments Local_calls {C} _.

Definition M (C A : Type) : Type := Store → Local C → Store * Local C * A.

#[export] Instance M_ret {C} : MRet (M C) := λ A x s l, (s, l, x).
#[export] Instance M_bind {C} : MBind (M C) := λ A B f m s l, let '(s, l, x) := m s l in f x s l.

Fixpoint forEach {C A} (f : A → M C unit) (items : list A) : M C unit :=
  match items with
  | [] => mret tt
  | item :: items => _ ← f item; forEach f items
  end.

(** One more access. *)
Definition tick {C} (l : Local C) : Local C := mkLocal (S (Local_step l)) (Local_calls l).

(** Record a call. *)
Definition call {C} (c : C) : M C unit :=
  λ s l, (s, mkLocal (Local_step l) (Local_calls l ++ [c]), tt).

(** ** A logic of calls *)
Section logic.
Context {C : Type}.

(** From the store [s], [m] ends in a store, with calls and a value that satisfy [Q]. *)
Definition from {A} (s : Store) (m : M C A) (Q : Store → list C → A → Prop) : Prop :=
  ∀ l s' l' x, m s l = (s', l', x) → ∃ calls, Local_calls l' = Local_calls l ++ calls ∧ Q s' calls x.

Section from.
Context {A B : Type}.
Implicit Types (m : M C A) (c : list C).

Lemma from_weaken s m (Q R : Store → list C → A → Prop) :
  from s m Q → (∀ s' c x, Q s' c x → R s' c x) → from s m R.
Proof. intros Hm HQ l s' l' x Hr. destruct (Hm _ _ _ _ Hr) as (c & ? & ?). eauto. Qed.

Lemma from_and s m (Q R : Store → list C → A → Prop) :
  from s m Q → from s m R → from s m (λ s' c x, Q s' c x ∧ R s' c x).
Proof.
  intros HQ HR l s' l' x Hr. destruct (HQ _ _ _ _ Hr) as (c & Hc & ?), (HR _ _ _ _ Hr) as (c' & Hc' & ?).
  exists c. rewrite Hc in Hc'. apply (inj (app _)) in Hc' as ->. done.
Qed.

Lemma from_ret s (x : A) (Q : Store → list C → A → Prop) : Q s [] x → from s (mret x) Q.
Proof. intros HQ l s' l' y [= <- <- <-]. exists []. by rewrite app_nil_r. Qed.

Lemma from_bind s m (f : A → M C B) Q (R : Store → list C → B → Prop) :
  from s m Q → (∀ s1 c x, Q s1 c x → from s1 (f x) (λ s2 c' y, R s2 (c ++ c') y)) →
  from s (m ≫= f) R.
Proof.
  intros Hm Hf l s' l' y. unfold mbind, M_bind. destruct (m s l) as [[s1 l1] x] eqn:Hr.
  destruct (Hm _ _ _ _ Hr) as (c & Hc & HQ). intros Hy.
  destruct (Hf s1 c x HQ _ _ _ _ Hy) as (c' & Hc' & HR). exists (c ++ c').
  split; [|done]. by rewrite Hc', Hc, app_assoc.
Qed.

(** A step that makes no call and leaves the store alone. *)
Lemma from_look s m (f : A → M C B) (P : A → Prop) R :
  from s m (λ s' c x, s' = s ∧ c = [] ∧ P x) → (∀ x, P x → from s (f x) R) → from s (m ≫= f) R.
Proof. intros Hm Hf. eapply from_bind; [done|]. intros s1 c x (-> & -> & HP). by apply Hf. Qed.
End from.

(** The calls made and the value returned satisfy [Q], from every store. *)
Definition emits {A} (m : M C A) (Q : list C → A → Prop) : Prop := ∀ s, from s m (λ _, Q).

Section emits.
Context {A B : Type}.
Implicit Types (m : M C A) (c : list C).

Lemma emits_weaken m (Q R : list C → A → Prop) :
  emits m Q → (∀ c x, Q c x → R c x) → emits m R.
Proof. intros Hm HQ s. eapply from_weaken; [apply Hm|]. auto. Qed.

Lemma emits_ret (x : A) (Q : list C → A → Prop) : Q [] x → emits (mret x) Q.
Proof. intros HQ s. by apply from_ret. Qed.

Lemma emits_bind m (f : A → M C B) Q (R : list C → B → Prop) :
  emits m Q → (∀ c x, Q c x → emits (f x) (λ c' y, R (c ++ c') y)) → emits (m ≫= f) R.
Proof. intros Hm Hf s. eapply from_bind; [apply Hm|]. intros s1 c x HQ. by apply Hf. Qed.

(** A silent step: its value satisfies [P]. *)
Lemma emits_silent m (f : A → M C B) (P : A → Prop) (R : list C → B → Prop) :
  emits m (λ c x, c = [] ∧ P x) → (∀ x, P x → emits (f x) R) → emits (m ≫= f) R.
Proof.
  intros Hm Hf. eapply emits_bind; [done|]. intros c x [-> HP]. by apply Hf.
Qed.
End emits.

Lemma from_call s c : from s (call c) (λ s' c' _, s' = s ∧ c' = [c]).
Proof. intros l s' l' x [= <- <- <-]. by exists [c]. Qed.

Lemma emits_call c : emits (call c) (λ c' _, c' = [c]).
Proof. intros s l s' l' x [= <- <- <-]. by exists [c]. Qed.

Lemma emits_forEach {A} (f : A → M C ()) (items : list A) (Q : A → list C → Prop) :
  (∀ x, x ∈ items → emits (f x) (λ c _, Q x c)) →
  emits (forEach f items) (λ c _, ∃ parts, c = mjoin parts ∧ Forall2 Q items parts).
Proof.
  induction items as [|x items IH]; intros Hf; simpl.
  - apply emits_ret. by exists [].
  - eapply emits_bind; [apply Hf; set_solver|]. intros c [] Hc.
    eapply emits_weaken; [apply IH; set_solver|]. intros c' [] (parts & -> & Hall).
    exists (c :: parts). split; [done|]. by constructor.
Qed.

End logic.

#[export] Hint Resolve emits_ret emits_call : store.
