(* ===== verification/Accounts.v ===== *)
(** * Accounts of the memory store

    [src/internal/store/memory/memory.go], lines 119-430: creation, the lookups by
    email, phone, username and external identity, profile and phone updates, age
    assurance and deletion intents.

    The store keeps three secondary indexes beside the user table.  [account_inv]
    says that each of them is exactly the inverse of the corresponding attribute,
    and every operation preserves it; the lookups are then complete and sound, and
    an email, phone number or username belongs to at most one account. *)

From Stdlib Require Import ZArith Lia.
From S2P Require Import Prelude.
From S2P Require Import Runtime.
From S2P Require Import Domain.
From S2P Require Import Compliance.
From S2P Require Import MediaKey.
From S2P Require Import StoreState.

Record CreateUserParams := mkCreateUserParams {
  CreateUserParams_LegalAcceptance : option Acceptance; CreateUserParams_Email : string;
  CreateUserParams_Phone : string; CreateUserParams_DisplayName : string;
  CreateUserParams_PasswordHash : string }.

(** [domain.AccountDeletionPending], [domain.AccountDeletionCompleted] *)
Definition AccountDeletionPending : string := "pending".
Definition AccountDeletionCompleted : string := "completed".

Section accounts.
Context `{GoRuntime}.
Implicit Types (s : Store) (u : User) (id : UUID) (m : gmap string JSON).

(** ** Operations *)

Definition normalizeEmail (email : string) : string := ToLower (TrimSpace email).

(** Record the user and index its email and phone (the tail of [CreateUser]). *)
Definition insertUser s u : Store :=
  let s := s <| Store_users ::= <[User_ID u := u]> |> in
  let s := if negb (bool_decide (User_Email u = ""))
           then s <| Store_emailToUser ::= <[User_Email u := User_ID u]> |> else s in
  if negb (bool_decide (User_Phone u = ""))
  then s <| Store_phoneToUser ::= <[User_Phone u := User_ID u]> |> else s.

Definition CreateUser s (p : CreateUserParams) (newID : UUID) (clock : Clock) :
    Store * res User :=
  let email := normalizeEmail (CreateUserParams_Email p) in
  let phone := CreateUserParams_Phone p in
  if negb (bool_decide (email = "")) && bool_decide (is_Some (Store_emailToUser s !! email))
  then (s, Err ErrConflict)
  else if negb (bool_decide (phone = ""))
          && bool_decide (is_Some (Store_phoneToUser s !! phone))
  then (s, Err ErrConflict)
  else
    let now := clock 0 in
    let user := mkUser newID email phone (CreateUserParams_DisplayName p) "" RawNil
      (CreateUserParams_PasswordHash p) now now in
    match CreateUserParams_LegalAcceptance p with
    | None => (insertUser s user, Ok user)
    | Some a =>
      let a := a <| Acceptance_UserID := newID |> <| Acceptance_AcceptedAt := now |> in
      if negb (Acceptance_Agreed a) then (s, Err ErrInvalid)
      else
        match Accept (Store_compliance s) a with
        | (c, Err e) => (s <| Store_compliance := c |>, Err e)
        | (c, Ok _) => (insertUser (s <| Store_compliance := c |>) user, Ok user)
        end
    end.

Definition UserByID s id : res User :=
  match live_user s id with Some u => Ok u | None => Err ErrNotFound end.

Definition UserByEmail s (email : string) : res User :=
  match Store_emailToUser s !! normalizeEmail email with
  | Some id => UserByID s id
  | None => Err ErrNotFound
  end.

Definition UserByPhone s (phone : string) : res User :=
  match Store_phoneToUser s !! phone with
  | Some id => UserByID s id
  | None => Err ErrNotFound
  end.

(** [s.users[id]] without a check: the zero [User] when missing. *)
Definition zeroUser : User := mkUser uuid_Nil "" "" "" "" RawNil "" 0 0.
Definition user_or_zero s id : User := default zeroUser (Store_users s !! id).

(** The loop shared by [UsersByPhones] and [UsersByUsernames]: the accounts the
    index gives for the keys, each once, in order of first appearance. *)
Fixpoint users_by_index s (index : gmap string UUID) (seen : gset UUID)
    (keys : list string) : list User :=
  match keys with
  | [] => []
  | key :: keys =>
    match index !! key with
    | None => users_by_index s index seen keys
    | Some id =>
      if bool_decide (id ∈ seen) then users_by_index s index seen keys
      else user_or_zero s id :: users_by_index s index ({[ id ]} ∪ seen) keys
    end
  end.

Definition UsersByPhones s (phones : list string) : list User :=
  users_by_index s (Store_phoneToUser s) ∅ phones.

Definition normalizeUsernameMemory (value : string) : string :=
  ToLower (TrimPrefix (TrimSpace value) "@").

Definition profileUsername (profile : RawMessage) : string :=
  normalizeUsernameMemory (decode_string_field "username" profile).

Definition UsersByUsernames s (usernames : list string) : list User :=
  users_by_index s (Store_usernameToUser s) ∅
    (List.filter (λ key, negb (bool_decide (key = "")))
      (normalizeUsernameMemory <$> usernames)).

Definition SearchUsersByUsername s (query : string) (limit : Z) : list User :=
  let q := normalizeUsernameMemory query in
  if bool_decide (q = "") then []
  else
    let limit := if (limit <=? 0)%Z || (50 <? limit)%Z then 20%Z else limit in
    let keys := List.filter (λ key, HasPrefix key q)
      (range (Store_usernameToUser s)).*1 in
    let keys := take (Z.to_nat limit) (merge_sort String.le keys) in
    omap (λ key, user_or_zero s <$> Store_usernameToUser s !! key) keys.

Definition externalKey (provider subject : string) : string :=
  provider +:+ ":" +:+ subject.

Definition UserByExternalIdentity s (provider subject : string) : res User :=
  match Store_externalUsers s !! externalKey provider subject with
  | Some id => UserByID s id
  | None => Err ErrNotFound
  end.

(** [existing, ok := index[key]; ok && existing != id] *)
Definition taken_by_other (index : gmap string UUID) (key : string) id : bool :=
  match index !! key with
  | Some existing => negb (bool_decide (existing = id))
  | None => false
  end.

Definition LinkExternalIdentity s (provider subject : string) id : Store * res unit :=
  match live_user s id with
  | None => (s, Err ErrNotFound)
  | Some _ =>
    let key := externalKey provider subject in
    if taken_by_other (Store_externalUsers s) key id then (s, Err ErrConflict)
    else (s <| Store_externalUsers ::= <[key := id]> |>, Ok tt)
  end.

Definition AgeAssurance_ s id : res AgeAssurance :=
  match Store_ageAssurances s !! id with Some a => Ok a | None => Err ErrNotFound end.

Definition UpsertAgeAssurance s (assurance : AgeAssurance) : Store * res AgeAssurance :=
  let id := AgeAssurance_UserID assurance in
  match live_user s id with
  | None => (s, Err ErrNotFound)
  | Some _ => (s <| Store_ageAssurances ::= <[id := assurance]> |>, Ok assurance)
  end.

(** The username of a patch: [Err] when it is refused, otherwise the patch with
    the username normalized and the new index key ([""] for none). *)
Definition patchUsername s id (patch : gmap string JSON) (raw : JSON) :
    res (gmap string JSON * string) :=
  match raw with
  | JNull => Ok (patch, "")
  | JStr username =>
    let normalized := normalizeUsernameMemory username in
    if bool_decide (normalized = "") then Ok (patch, "")
    else if (strlen normalized <? 3)%Z || (30 <? strlen normalized)%Z
    then Err ErrInvalid
    else if taken_by_other (Store_usernameToUser s) normalized id
    then Err ErrConflict
    else Ok (<["username" := JStr ("@" +:+ normalized)]> patch, normalized)
  | _ => Err ErrInvalid
  end.

(** Move the username index of [id] from [old] to [new]. *)
Definition moveUsername s id (old new : string) : Store :=
  let s := if negb (bool_decide (old = "")) && negb (bool_decide (old = new))
           then s <| Store_usernameToUser ::= delete old |> else s in
  if negb (bool_decide (new = ""))
  then s <| Store_usernameToUser ::= <[new := id]> |> else s.

(** The tail of [UpdateUserProfile]: merge the patch over the document. *)
Definition mergeProfile s id u (patch existing : gmap string JSON) (now : Z) : Store * res User :=
  let u := u <| User_Profile := marshal_map (patch ∪ existing) |> in
  let u := match patch !! "display_name" with
           | Some (JStr displayName) =>
             if negb (bool_decide (displayName = ""))
             then u <| User_DisplayName := displayName |> else u
           | _ => u
           end in
  let u := u <| User_UpdatedAt := now |> in
  (s <| Store_users ::= <[id := u]> |>, Ok u).

(** [var existing map[string]any] decoded from the stored document; [None] when
    it is not an object or [null]. *)
Definition existingProfile (profile : RawMessage) : option (gmap string JSON) :=
  if raw_length_zero profile then Some ∅
  else default ∅ <$> unmarshal_map profile.

Definition UpdateUserProfile s id (profile : RawMessage) (clock : Clock) :
    Store * res User :=
  match live_user s id with
  | None => (s, Err ErrNotFound)
  | Some user =>
    match unmarshal_map profile with
    | None | Some None => (s, Err ErrInvalid)
    | Some (Some patch) =>
      match existingProfile (User_Profile user) with
      | None => (s, Err ErrInvalid)
      | Some existing =>
        match patch !! "username" with
        | None => mergeProfile s id user patch existing (clock 0)
        | Some raw =>
          match patchUsername s id patch raw with
          | Err e => (s, Err e)
          | Ok (patch, newUsername) =>
            mergeProfile
              (moveUsername s id (profileUsername (User_Profile user)) newUsername)
              id user patch existing (clock 0)
          end
        end
      end
    end
  end.

Definition UpdateUserPhone s id (phone : string) (clock : Clock) : Store * res User :=
  match live_user s id with
  | None => (s, Err ErrNotFound)
  | Some user =>
    if taken_by_other (Store_phoneToUser s) phone id then (s, Err ErrConflict)
    else
      let s := if negb (bool_decide (User_Phone user = ""))
               then s <| Store_phoneToUser ::= delete (User_Phone user) |> else s in
      let user := user <| User_Phone := phone |> <| User_UpdatedAt := clock 0 |> in
      (s <| Store_users ::= <[id := user]> |>
         <| Store_phoneToUser ::= <[phone := id]> |>, Ok user)
  end.

Definition PutAccountDeletionIntent s (intent : AccountDeletionIntent) (clock : Clock) :
    Store * res unit :=
  let id := AccountDeletionIntent_UserID intent in
  let requestID := AccountDeletionIntent_RequestID intent in
  if bool_decide (requestID = uuid_Nil) || bool_decide (id = uuid_Nil)
     || negb (bool_decide (strlen (AccountDeletionIntent_TokenHash intent) = 32%Z))
  then (s, Err ErrInvalid)
  else
    match live_user s id with
    | None => (s, Err ErrNotFound)
    | Some _ =>
      match Store_accountDeletionIntents s !! requestID with
      | Some existing =>
        if negb (bool_decide (AccountDeletionIntent_UserID existing = id))
           || negb (bool_decide (AccountDeletionIntent_TokenHash existing
                                 = AccountDeletionIntent_TokenHash intent))
        then (s, Err ErrConflict) else (s, Ok tt)
      | None =>
        (s <| Store_accountDeletionIntents ::=
           <[requestID := intent <| AccountDeletionIntent_State := AccountDeletionPending |>
                                 <| AccountDeletionIntent_CreatedAt := clock 0 |>]> |>,
         Ok tt)
      end
    end.
End accounts.

(** ** JSON objects written by the store *)

(** Encoding a map and decoding it again gives the map back. *)
Lemma unmarshal_marshal_map (m : gmap string JSON) :
  unmarshal_map (marshal_map m) = Some (Some m).
Proof.
  simpl. do 2 f_equal. rewrite <- (list_to_map_to_list m) at 2.
  assert (reverse (merge_sort key_le (map_to_list m)) ≡ₚ map_to_list m) as Hp.
  { by rewrite reverse_Permutation, merge_sort_Permutation. }
  apply list_to_map_proper; [|done]. rewrite Hp. apply NoDup_fst_map_to_list.
Qed.

Section profiles.
Context `{GoRuntime}.
Implicit Types (m : gmap string JSON).

(** No key but ["username"] itself is decoded into the username field.  The
    HTTP layer only lets a fixed list of keys through. *)
Definition plain_keys m : Prop :=
  ∀ k, is_Some (m !! k) → EqualFold k "username" = true → k = "username".

Definition map_username m : string :=
  match m !! "username" with Some (JStr v) => v | _ => "" end.

Definition plain_profile (p : RawMessage) : Prop :=
  p = RawNil ∨ ∃ m, p = marshal_map m ∧ plain_keys m.

Lemma struct_field_none l acc :
  Forall (λ kv : string * JSON, EqualFold kv.1 "username" = false) l →
  foldl (λ acc '(k, v),
    match v with JStr v => if EqualFold k "username" then v else acc | _ => acc end)
    acc l = acc.
Proof.
  induction 1 as [|[k v] l Hk Hl IH]; simpl in *; [done|].
  destruct v; try done. by rewrite Hk.
Qed.

Lemma struct_field_plain l :
  NoDup l.*1 → (∀ k v, (k, v) ∈ l → EqualFold k "username" = true → k = "username") →
  struct_string_field "username" l
  = match (list_to_map l : gmap string JSON) !! "username" with
    | Some (JStr v) => v | _ => "" end.
Proof.
  intros Hnd Hplain. unfold struct_string_field.
  destruct (list_to_map l !! "username") as [v|] eqn:Hv.
  - apply elem_of_list_to_map in Hv; [|done].
    apply list_elem_of_split in Hv as (l1 & l2 & ->).
    rewrite fmap_app in Hnd. simpl in Hnd.
    apply NoDup_app in Hnd as (Hnd1 & Hdis & Hnd2). inversion Hnd2 as [|? ? Hn ?]; subst.
    assert (∀ k w, (k, w) ∈ l1 ++ l2 → EqualFold k "username" = false) as Hfold.
    { intros k w Hkw. apply not_true_iff_false. intros Hf.
      assert (k = "username") as -> by (apply (Hplain k w); [set_solver|done]).
      apply elem_of_app in Hkw as [Hkw|Hkw].
      - apply (Hdis "username"); [|left]. by apply (list_elem_of_fmap_2 fst) in Hkw.
      - apply Hn. by apply (list_elem_of_fmap_2 fst) in Hkw. }
    rewrite foldl_app. simpl. rewrite (struct_field_none l1).
    2: { apply Forall_forall. intros [k w] Hk. simpl. apply (Hfold k w). set_solver. }
    rewrite struct_field_none.
    2: { apply Forall_forall. intros [k w] Hk. simpl. apply (Hfold k w). set_solver. }
    destruct v; try done. by rewrite EqualFold_refl.
  - apply not_elem_of_list_to_map in Hv. apply struct_field_none.
    apply Forall_forall. intros [k w] Hk. simpl. apply not_true_iff_false. intros Hf.
    apply Hv. rewrite <- (Hplain _ _ Hk Hf). by apply (list_elem_of_fmap_2 fst) in Hk.
Qed.

Lemma decode_username_marshal m :
  plain_keys m → decode_string_field "username" (marshal_map m) = map_username m.
Proof.
  intros Hm. simpl.
  assert (merge_sort key_le (map_to_list m) ≡ₚ map_to_list m) as Hp
    by apply merge_sort_Permutation.
  assert (NoDup (merge_sort key_le (map_to_list m)).*1) as Hnd.
  { rewrite Hp. apply NoDup_fst_map_to_list. }
  rewrite struct_field_plain; [|done|].
  - rewrite (list_to_map_proper _ _ Hnd Hp), list_to_map_to_list. done.
  - intros k v Hkv. rewrite Hp in Hkv. apply elem_of_map_to_list in Hkv. eauto.
Qed.

(** The normal form of a username is a fixed point behind its ["@"]. *)
Lemma normalize_at v :
  ValidUTF8 v = true →
  normalizeUsernameMemory ("@" +:+ normalizeUsernameMemory v) = normalizeUsernameMemory v.
Proof.
  intros Hv. unfold normalizeUsernameMemory. set (t := TrimSpace v).
  assert (ValidUTF8 t = true) as Ht by by apply ValidUTF8_TrimSpace.
  assert (ValidUTF8 "@" = true) as Hat by by apply ValidUTF8_graph.
  assert (TrimSpace ("@" +:+ ToLower (TrimPrefix t "@"))
          = "@" +:+ ToLower (TrimPrefix t "@")) as ->.
  { destruct (HasPrefix t "@") eqn:Hp.
    - destruct (HasPrefix_spec _ _ Hp) as [r Hr].
      rewrite Hr at 1 2. rewrite TrimPrefix_app.
      assert ("@" +:+ ToLower r = ToLower t) as ->.
      { rewrite Hr, ToLower_app, ToLower_at; done. }
      apply TrimSpace_ToLower.
    - unfold TrimPrefix. rewrite Hp. apply TrimSpace_app; [done| | |].
      + by apply ValidUTF8_ToLower.
      + by apply TrimSpace_graph.
      + apply TrimSpace_ToLower. }
  rewrite TrimPrefix_app. apply ToLower_idem.
Qed.

Lemma normalize_empty : normalizeUsernameMemory "" = "".
Proof. unfold normalizeUsernameMemory. by rewrite TrimSpace_empty, ToLower_empty. Qed.

Lemma profileUsername_marshal m :
  plain_keys m → profileUsername (marshal_map m) = normalizeUsernameMemory (map_username m).
Proof. intros Hm. unfold profileUsername. by rewrite decode_username_marshal. Qed.

Lemma profileUsername_nil : profileUsername RawNil = "".
Proof. apply normalize_empty. Qed.

Lemma existingProfile_plain p :
  plain_profile p →
  ∃ m, existingProfile p = Some m ∧ plain_keys m ∧
       profileUsername p = normalizeUsernameMemory (map_username m).
Proof.
  intros [->|(m & -> & Hm)].
  - exists ∅. split; [done|]. split; [|by rewrite profileUsername_nil; symmetry; apply normalize_empty].
    intros k [? Hk]. by rewrite lookup_empty in Hk.
  - exists m. split; [|split; [done|by apply profileUsername_marshal]].
    unfold existingProfile. cbn [raw_length_zero marshal_map].
    change (Raw (JObj (merge_sort key_le (map_to_list m)))) with (marshal_map m).
    by rewrite unmarshal_marshal_map.
Qed.

Lemma plain_keys_union m1 m2 : plain_keys m1 → plain_keys m2 → plain_keys (m1 ∪ m2).
Proof. intros H1 H2 k [v Hk]. apply lookup_union_Some_raw in Hk as [?|[_ ?]]; eauto. Qed.

Lemma plain_keys_username m v : plain_keys m → plain_keys (<["username" := v]> m).
Proof.
  intros Hm k [w Hk] Hf. destruct (decide (k = "username")) as [|Hne]; [done|].
  rewrite lookup_insert_ne in Hk by done. eauto.
Qed.

Lemma map_username_union m1 m2 :
  map_username (m1 ∪ m2) = if bool_decide (is_Some (m1 !! "username"))
                           then map_username m1 else map_username m2.
Proof.
  unfold map_username. case_bool_decide as Hm.
  - destruct Hm as [v Hv]. by rewrite (lookup_union_Some_l _ _ _ _ Hv), Hv.
  - apply eq_None_not_Some in Hm. by rewrite lookup_union_r.
Qed.
End profiles.

(** ** The index invariant *)
Section invariant.
Context `{GoRuntime}.
Implicit Types (s : Store) (u : User) (id : UUID).

(** [index] is the inverse of the attribute [attr] on non-empty values. *)
Definition index_of (users : gmap UUID User) (attr : User → string)
    (index : gmap string UUID) : Prop :=
  ∀ key id, key ≠ "" →
    (index !! key = Some id ↔ ∃ u, users !! id = Some u ∧ attr u = key).

Definition user_username u : string := profileUsername (User_Profile u).

Record account_inv s : Prop := {
  ai_ids : ∀ id u, Store_users s !! id = Some u → User_ID u = id;
  ai_profiles : ∀ id u, Store_users s !! id = Some u → plain_profile (User_Profile u);
  ai_email : index_of (Store_users s) User_Email (Store_emailToUser s);
  ai_phone : index_of (Store_users s) User_Phone (Store_phoneToUser s);
  ai_username : index_of (Store_users s) user_username (Store_usernameToUser s);
}.

Lemma account_inv_new : account_inv New.
Proof.
  assert (∀ attr, index_of ∅ attr ∅) as Hempty.
  { intros attr key id _. rewrite lookup_empty. split; [done|].
    intros (u & Hu & _). by rewrite lookup_empty in Hu. }
  split; cbn; try apply Hempty; intros id u Hu; by rewrite lookup_empty in Hu.
Qed.

(** Moving one user from an old to a new attribute value. *)
Lemma index_of_same users attr index id u u' :
  index_of users attr index → users !! id = Some u → attr u' = attr u →
  index_of (<[id := u']> users) attr index.
Proof.
  intros Hi Hu Ha key i Hk. rewrite (Hi key i Hk). destruct (decide (i = id)) as [->|Hne].
  - rewrite lookup_insert_eq. naive_solver.
  - by rewrite lookup_insert_ne.
Qed.

Lemma index_of_add users attr index id u :
  index_of users attr index → users !! id = None →
  (attr u ≠ "" → index !! attr u = None) →
  index_of (<[id := u]> users) attr
    (if bool_decide (attr u = "") then index else <[attr u := id]> index).
Proof.
  intros Hi Hfresh Hfree key i Hk.
  destruct (decide (attr u = key)) as [<-|Hak].
  - rewrite bool_decide_false, lookup_insert_eq by done. split.
    + intros [= ->]. exists u. by rewrite lookup_insert_eq.
    + intros (v & Hv & Ha). destruct (decide (i = id)) as [->|Hne]; [done|].
      rewrite lookup_insert_ne in Hv by done.
      assert (index !! attr u = Some i) as Hx by (apply Hi; eauto).
      rewrite Hfree in Hx by done. done.
  - transitivity (index !! key = Some i).
    { case_bool_decide; [done|]. by rewrite lookup_insert_ne. }
    rewrite (Hi key i Hk). destruct (decide (i = id)) as [->|Hne].
    + rewrite lookup_insert_eq. split; [intros (? & ? & ?); congruence|].
      intros (v & [= <-] & ?). done.
    + by rewrite lookup_insert_ne.
Qed.

Lemma index_of_move users attr index id u u' :
  index_of users attr index → users !! id = Some u →
  (∀ owner, index !! attr u' = Some owner → owner = id) →
  index_of (<[id := u']> users) attr
    (let index := if negb (bool_decide (attr u = "")) && negb (bool_decide (attr u = attr u'))
                  then delete (attr u) index else index in
     if negb (bool_decide (attr u' = "")) then <[attr u' := id]> index else index).
Proof.
  intros Hi Hu Hown key i Hk.
  destruct (decide (attr u' = key)) as [<-|Hnew].
  { rewrite (bool_decide_false (attr u' = "")) by done. cbn [negb]. cbv zeta.
    rewrite lookup_insert_eq. split.
    - intros [= ->]. exists u'. by rewrite lookup_insert_eq.
    - intros (v & Hv & Ha). destruct (decide (i = id)) as [->|Hne]; [done|].
      rewrite lookup_insert_ne in Hv by done. f_equal. symmetry. apply Hown, Hi; eauto. }
  transitivity (index !! key = Some i ∧ attr u ≠ key).
  { cbv zeta. destruct (decide (attr u = key)) as [Hold|Hold].
    - rewrite Hold, (bool_decide_false (key = "")) by done.
      rewrite (bool_decide_false (key = attr u')) by congruence.
      cbn [negb andb]. case_bool_decide; cbn [negb];
        rewrite ?lookup_insert_ne, lookup_delete_eq by done; naive_solver.
    - repeat case_bool_decide; cbn [negb andb];
        rewrite ?lookup_insert_ne, ?lookup_delete_ne by done; naive_solver. }
  rewrite (Hi key i Hk). destruct (decide (i = id)) as [->|Hne].
  - rewrite lookup_insert_eq. naive_solver.
  - rewrite lookup_insert_ne by done. split; [naive_solver|].
    intros (v & Hv & Ha). split; [eauto|]. intros Hold.
    assert (index !! key = Some id) as H1 by (apply Hi; eauto).
    assert (index !! key = Some i) as H2 by (apply Hi; eauto). congruence.
Qed.

Lemma index_of_unique users attr index i j u v :
  index_of users attr index → users !! i = Some u → users !! j = Some v →
  attr u = attr v → attr u ≠ "" → i = j.
Proof.
  intros Hi Hu Hv Huv Hne.
  assert (index !! attr u = Some i) as H1 by (apply Hi; eauto).
  assert (index !! attr u = Some j) as H2 by (apply Hi; eauto). congruence.
Qed.

Lemma taken_by_other_false index key id owner :
  taken_by_other index key id = false → index !! key = Some owner → owner = id.
Proof. unfold taken_by_other. intros Ht Ho. rewrite Ho in Ht. by bool_prop. Qed.

(** ** Every operation keeps it *)

Lemma insertUser_inv s u :
  account_inv s → Store_users s !! User_ID u = None → User_Profile u = RawNil →
  (User_Email u ≠ "" → Store_emailToUser s !! User_Email u = None) →
  (User_Phone u ≠ "" → Store_phoneToUser s !! User_Phone u = None) →
  account_inv (insertUser s u).
Proof.
  intros [Hids Hpr Hem Hph Hun] Hfresh Hnil Hfe Hfp.
  assert (∀ s', Store_users s' = <[User_ID u := u]> (Store_users s) →
    Store_emailToUser s' = (if bool_decide (User_Email u = "") then Store_emailToUser s
                            else <[User_Email u := User_ID u]> (Store_emailToUser s)) →
    Store_phoneToUser s' = (if bool_decide (User_Phone u = "") then Store_phoneToUser s
                            else <[User_Phone u := User_ID u]> (Store_phoneToUser s)) →
    Store_usernameToUser s' = Store_usernameToUser s → account_inv s') as Hgo.
  { intros s' Hu He Hp Hn. split; rewrite ?Hu, ?He, ?Hp, ?Hn.
    - intros id v Hv. apply lookup_insert_Some in Hv as [[<- <-]|[_ Hv]]; eauto.
    - intros id v Hv. apply lookup_insert_Some in Hv as [[<- <-]|[_ Hv]]; [by left|eauto].
    - by apply index_of_add.
    - by apply index_of_add.
    - pose proof (index_of_add _ user_username _ (User_ID u) u Hun Hfresh) as Hadd.
      assert (user_username u = "") as Hempty.
      { unfold user_username. rewrite Hnil. apply profileUsername_nil. }
      rewrite Hempty in Hadd. by apply Hadd. }
  apply Hgo; unfold insertUser; by repeat case_bool_decide.
Qed.

Lemma CreateUser_inv s p newID clock :
  account_inv s → Store_users s !! newID = None →
  account_inv (CreateUser s p newID clock).1.
Proof.
  intros Hs Hfresh. unfold CreateUser.
  destruct (negb _ && _) eqn:He; [done|]. destruct (negb _ && bool_decide (is_Some (Store_phoneToUser s !! _))) eqn:Hp; [done|].
  assert (∀ c, account_inv (insertUser (s <| Store_compliance := c |>)
    (mkUser newID (normalizeEmail (CreateUserParams_Email p)) (CreateUserParams_Phone p)
       (CreateUserParams_DisplayName p) "" RawNil (CreateUserParams_PasswordHash p)
       (clock 0) (clock 0)))) as Hins.
  { intros c. apply insertUser_inv; simpl; try done.
    - destruct Hs. by split.
    - intros Hne. rewrite bool_decide_false in He by done. simpl in He. bool_prop.
      by apply eq_None_not_Some.
    - intros Hne. rewrite bool_decide_false in Hp by done. simpl in Hp. bool_prop.
      by apply eq_None_not_Some. }
  destruct (CreateUserParams_LegalAcceptance p) as [a|].
  - cbv zeta. destruct (negb (Acceptance_Agreed _)); [done|].
    destruct (Accept _ _) as [c []]; simpl; [apply Hins|]. destruct Hs. by split.
  - specialize (Hins (Store_compliance s)). by destruct s.
Qed.

Lemma live_user_plain s id u :
  account_inv s → live_user s id = Some u →
  Store_users s !! id = Some u ∧ User_ID u = id ∧ plain_profile (User_Profile u).
Proof. intros Hs Hu%live_user_lookup. destruct Hs. eauto. Qed.

Lemma UpdateUserPhone_inv s id phone clock :
  account_inv s → account_inv (UpdateUserPhone s id phone clock).1.
Proof.
  intros Hs. unfold UpdateUserPhone. destruct (live_user s id) as [u|] eqn:Hu; [|done].
  destruct (live_user_plain s id u Hs Hu) as (Hlk & Hid & Hpl).
  destruct Hs as [Hids Hpr Hem Hph Hun].
  destruct (taken_by_other _ _ _) eqn:Hown; [done|].
  set (u' := u <| User_Phone := phone |> <| User_UpdatedAt := clock 0 |>).
  assert (∀ owner, Store_phoneToUser s !! User_Phone u' = Some owner → owner = id) as Hown'.
  { intros owner. by apply taken_by_other_false. }
  split; cbn -[u']; (destruct (negb _) eqn:Hph0; cbn -[u']).
  all: try (intros i v Hv; apply lookup_insert_Some in Hv as [[<- <-]|[_ Hv]]; simpl; eauto; fail).
  all: try (eapply index_of_same; [done|done|reflexivity]).
  all: pose proof (index_of_move _ User_Phone _ id u u' Hph Hlk Hown') as Hmove;
    cbv zeta in Hmove; change (User_Phone u') with phone in Hmove; rewrite Hph0 in Hmove;
    intros key i Hk; rewrite <- (Hmove key i Hk); clear Hmove; cbn [andb];
    repeat case_bool_decide; subst; cbn [negb] in *;
    by rewrite ?insert_delete_eq, ?lookup_insert_ne, ?lookup_delete_ne by congruence.
Qed.

(** A patch the HTTP layer lets through: decoded text is valid UTF-8 and no key
    is a case variant of ["username"]. *)
Definition patch_ok (patch : gmap string JSON) : Prop :=
  plain_keys patch ∧ ∀ v, patch !! "username" = Some (JStr v) → ValidUTF8 v = true.

Lemma mergeProfile_inv s s0 id u patch existing now :
  account_inv s → Store_users s !! id = Some u → plain_keys (patch ∪ existing) →
  Store_users s0 = Store_users s → Store_emailToUser s0 = Store_emailToUser s →
  Store_phoneToUser s0 = Store_phoneToUser s →
  (∀ u', user_username u' = normalizeUsernameMemory (map_username (patch ∪ existing)) →
    index_of (<[id := u']> (Store_users s)) user_username (Store_usernameToUser s0)) →
  account_inv (mergeProfile s0 id u patch existing now).1.
Proof.
  intros [Hids Hpr Hem Hph Hun] Hlk Hplain Hus Hes Hps Hidx. unfold mergeProfile. cbv zeta.
  match goal with |- account_inv (?S, Ok ?U).1 => set (u' := U) end.
  assert (User_ID u' = User_ID u ∧ User_Email u' = User_Email u ∧
    User_Phone u' = User_Phone u ∧ User_Profile u' = marshal_map (patch ∪ existing))
    as (Hi & He & Hp & Hprof).
  { subst u'. clear. repeat case_match; done. }
  clearbody u'. split; cbn; rewrite ?Hus, ?Hes, ?Hps.
  - intros i v Hv. apply lookup_insert_Some in Hv as [[<- <-]|[_ Hv]]; [rewrite Hi|]; eauto.
  - intros i v Hv. apply lookup_insert_Some in Hv as [[<- <-]|[_ Hv]]; [|eauto].
    right. eauto.
  - by eapply index_of_same.
  - by eapply index_of_same.
  - apply Hidx. unfold user_username. rewrite Hprof. by apply profileUsername_marshal.
Qed.

Lemma patchUsername_spec s id patch raw patch' new :
  patch_ok patch → patch !! "username" = Some raw →
  patchUsername s id patch raw = Ok (patch', new) →
  plain_keys patch' ∧ is_Some (patch' !! "username") ∧
  normalizeUsernameMemory (map_username patch') = new ∧
  (∀ owner, new ≠ "" → Store_usernameToUser s !! new = Some owner → owner = id).
Proof.
  intros [Hplain Hutf] Hraw Hp. unfold patchUsername in Hp.
  destruct raw; try done; [by simplify_eq/=; unfold map_username; rewrite Hraw, normalize_empty; eauto|].
  op_cases Hp.
  - unfold map_username. rewrite Hraw. split_and!; [done|eauto|done|done].
  - split_and!.
    + by apply plain_keys_username.
    + rewrite lookup_insert_eq. eauto.
    + unfold map_username. rewrite lookup_insert_eq. apply normalize_at. eauto.
    + intros owner _. by apply taken_by_other_false.
Qed.

Lemma moveUsername_index s id old new :
  Store_usernameToUser (moveUsername s id old new)
  = (let index := if negb (bool_decide (old = "")) && negb (bool_decide (old = new))
                  then delete old (Store_usernameToUser s) else Store_usernameToUser s in
     if negb (bool_decide (new = "")) then <[new := id]> index else index).
Proof. unfold moveUsername. by repeat case_match. Qed.

Lemma UpdateUserProfile_inv s id profile clock :
  account_inv s → (∀ patch, unmarshal_map profile = Some (Some patch) → patch_ok patch) →
  account_inv (UpdateUserProfile s id profile clock).1.
Proof.
  intros Hs Hok. unfold UpdateUserProfile. destruct (live_user s id) as [u|] eqn:Hu; [|done].
  destruct (unmarshal_map profile) as [[patch|]|]; [|done|done].
  specialize (Hok patch eq_refl).
  destruct (live_user_plain s id u Hs Hu) as (Hlk & Hid & Hpl).
  destruct (existingProfile_plain _ Hpl) as (m & Hm & Hplm & Hname). rewrite Hm.
  destruct (patch !! "username") as [raw|] eqn:Hraw.
  - destruct (patchUsername s id patch raw) as [[patch' new]|e] eqn:Hpu; [|done].
    destruct (patchUsername_spec _ _ _ _ _ _ Hok Hraw Hpu) as (Hpl' & Hsome & Hnew & Hown).
    assert (normalizeUsernameMemory (map_username (patch' ∪ m)) = new) as Hmerged.
    { by rewrite map_username_union, bool_decide_true. }
    apply (mergeProfile_inv s); try done.
    + by apply plain_keys_union.
    + unfold moveUsername. by repeat case_match.
    + unfold moveUsername. by repeat case_match.
    + unfold moveUsername. by repeat case_match.
    + intros u' Hu'. rewrite Hmerged in Hu'. rewrite moveUsername_index.
      pose proof (index_of_move _ user_username _ id u u' (ai_username s Hs) Hlk) as Hmove.
      rewrite Hu' in Hmove. destruct (decide (new = "")) as [->|Hne]; [|by apply Hmove; eauto].
      destruct Hs. clear Hmove. rewrite (bool_decide_true ("" = "")) by done. cbn [negb]. cbv zeta.
      intros key i Hk. change (profileUsername (User_Profile u)) with (user_username u).
      destruct (decide (user_username u = key)) as [<-|Hold].
      * rewrite (bool_decide_false _ Hk). cbn [negb andb]. rewrite lookup_delete_eq.
        split; [done|]. intros (v & Hv & Ha). destruct (decide (i = id)) as [->|Hne].
        -- rewrite lookup_insert_eq in Hv. congruence.
        -- rewrite lookup_insert_ne in Hv by done. destruct Hne.
           eapply (index_of_unique _ user_username _ i id v u); eauto. congruence.
      * transitivity (Store_usernameToUser s !! key = Some i).
        { case_match; [|done]. by rewrite lookup_delete_ne. }
        rewrite (ai_username0 key i Hk). destruct (decide (i = id)) as [->|Hne].
        -- rewrite lookup_insert_eq. split; intros (v & Hv & Ha); simplify_eq; congruence.
        -- by rewrite lookup_insert_ne.
  - apply (mergeProfile_inv s); try done.
    + apply plain_keys_union; [apply Hok|done].
    + intros u' Hu'. eapply index_of_same; [apply Hs|done|].
      rewrite Hu', map_username_union, bool_decide_false; [done|].
      rewrite Hraw. intros []. done.
Qed.
End invariant.

(** ** Runs *)

Inductive AccountOp :=
  | OpCreateUser (p : CreateUserParams) (newID : UUID) (clock : Clock)
  | OpUpdateUserProfile (id : UUID) (profile : RawMessage) (clock : Clock)
  | OpUpdateUserPhone (id : UUID) (phone : string) (clock : Clock)
  | OpLinkExternalIdentity (provider subject : string) (id : UUID)
  | OpUpsertAgeAssurance (assurance : AgeAssurance)
  | OpPutAccountDeletionIntent (intent : AccountDeletionIntent) (clock : Clock).

Section runs.
Context `{GoRuntime}.
Implicit Types (s : Store) (u : User) (id : UUID) (op : AccountOp).

Definition account_step s op : Store :=
  match op with
  | OpCreateUser p newID clock => (CreateUser s p newID clock).1
  | OpUpdateUserProfile id profile clock => (UpdateUserProfile s id profile clock).1
  | OpUpdateUserPhone id phone clock => (UpdateUserPhone s id phone clock).1
  | OpLinkExternalIdentity provider subject id => (LinkExternalIdentity s provider subject id).1
  | OpUpsertAgeAssurance assurance => (UpsertAgeAssurance s assurance).1
  | OpPutAccountDeletionIntent intent clock => (PutAccountDeletionIntent s intent clock).1
  end.

(** [uuid.New] does not repeat, and profile patches come through the HTTP layer. *)
Definition account_op_ok s op : Prop :=
  match op with
  | OpCreateUser _ newID _ => Store_users s !! newID = None
  | OpUpdateUserProfile _ profile _ =>
    ∀ patch, unmarshal_map profile = Some (Some patch) → patch_ok patch
  | _ => True
  end.

Inductive account_reachable : Store → Prop :=
  | reach_new : account_reachable New
  | reach_step s op :
      account_reachable s → account_op_ok s op → account_reachable (account_step s op).

Lemma account_inv_frame s s' :
  Store_users s' = Store_users s → Store_emailToUser s' = Store_emailToUser s →
  Store_phoneToUser s' = Store_phoneToUser s →
  Store_usernameToUser s' = Store_usernameToUser s → account_inv s → account_inv s'.
Proof. intros Hu He Hp Hn []. split; by rewrite ?Hu, ?He, ?Hp, ?Hn. Qed.

Lemma account_inv_step s op :
  account_inv s → account_op_ok s op → account_inv (account_step s op).
Proof.
  intros Hs Hop. destruct op; cbn [account_step account_op_ok] in *.
  - by apply CreateUser_inv.
  - by apply UpdateUserProfile_inv.
  - by apply UpdateUserPhone_inv.
  - unfold LinkExternalIdentity. repeat case_match; first [done|by apply (account_inv_frame s)].
  - unfold UpsertAgeAssurance. repeat case_match; first [done|by apply (account_inv_frame s)].
  - unfold PutAccountDeletionIntent. repeat case_match; first [done|by apply (account_inv_frame s)].
Qed.

Lemma account_reachable_inv s : account_reachable s → account_inv s.
Proof. induction 1; [apply account_inv_new|by apply account_inv_step]. Qed.

Lemma live_user_some s id u :
  live_user s id = Some u ↔
  Store_users s !! id = Some u ∧ profile_deleted (User_Profile u) = false.
Proof.
  unfold live_user. destruct (Store_users s !! id) as [v|]; [|naive_solver].
  destruct (profile_deleted (User_Profile v)) eqn:Hd; naive_solver congruence.
Qed.

Lemma UserByID_ok s id u : UserByID s id = Ok u ↔ live_user s id = Some u.
Proof. unfold UserByID. destruct (live_user s id); naive_solver. Qed.

Lemma index_lookup_correct s attr index key u :
  account_inv s → index_of (Store_users s) attr index → key ≠ "" →
  (match index !! key with Some id => UserByID s id | None => Err ErrNotFound end = Ok u
   ↔ live_user s (User_ID u) = Some u ∧ attr u = key).
Proof.
  intros Hs Hi Hk. split.
  - destruct (index !! key) as [id|] eqn:Hx; [|done]. rewrite UserByID_ok. intros Hu.
    apply Hi in Hx as (v & Hv & Ha); [|done]. pose proof (live_user_lookup _ _ _ Hu).
    assert (v = u) as -> by congruence. by rewrite (ai_ids s Hs id u).
  - intros [Hu Ha]. assert (index !! key = Some (User_ID u)) as ->.
    { apply Hi; [done|]. exists u. split; [by apply live_user_lookup|done]. }
    by apply UserByID_ok.
Qed.

(** In every state the account operations can reach, an email, a
    phone number and a username belong to at most one account, and the lookups
    by email and by phone return exactly the live account that carries the key
    (the email compared in its normalized form), none when no live account does. *)
Theorem account_lookups_exact s :
  account_reachable s →
  (∀ i j u v, Store_users s !! i = Some u → Store_users s !! j = Some v →
     (User_Email u = User_Email v ∧ User_Email u ≠ "") ∨
     (User_Phone u = User_Phone v ∧ User_Phone u ≠ "") ∨
     (user_username u = user_username v ∧ user_username u ≠ "") → i = j) ∧
  (∀ email u, normalizeEmail email ≠ "" →
     (UserByEmail s email = Ok u ↔
      live_user s (User_ID u) = Some u ∧ User_Email u = normalizeEmail email)) ∧
  (∀ phone u, phone ≠ "" →
     (UserByPhone s phone = Ok u ↔
      live_user s (User_ID u) = Some u ∧ User_Phone u = phone)).
Proof.
  intros Hs%account_reachable_inv. split_and!.
  - intros i j u v Hu Hv [[]|[[]|[]]]; destruct Hs;
      [eapply (index_of_unique _ User_Email) | eapply (index_of_unique _ User_Phone)
      | eapply (index_of_unique _ user_username)]; eauto.
  - intros email u He. by apply index_lookup_correct; [|apply ai_email|].
  - intros phone u Hp. by apply index_lookup_correct; [|apply ai_phone|].
Qed.

(** ** Search *)

Lemma omap_users s index keys :
  index_of (Store_users s) user_username index →
  Forall (λ k, k ≠ "" ∧ is_Some (index !! k)) keys →
  user_username <$> omap (λ key, user_or_zero s <$> index !! key) keys = keys.
Proof.
  intros Hi. induction 1 as [|k keys [Hk [id Hid]] _ IH]; simpl; [done|].
  rewrite Hid. simpl. pose proof (proj1 (Hi k id Hk) Hid) as (u & Hu & Hname).
  unfold user_or_zero at 1. rewrite Hu. simpl. rewrite Hname. f_equal. exact IH.
Qed.

Definition search_limit (limit : Z) : nat :=
  Z.to_nat (if (limit <=? 0)%Z || (50 <? limit)%Z then 20%Z else limit).

Lemma HasPrefix_empty q : q ≠ "" → HasPrefix "" q = false.
Proof. by destruct q. Qed.

(** A username search returns, in increasing order of username, the
    first matches of the prefix and nothing else: its results are an initial
    segment of the sorted list of all usernames with that prefix, it is cut only
    by the limit, and the limit is between 1 and 50 whatever the caller asks. *)
Theorem search_sorted_prefix s query limit :
  account_reachable s → normalizeUsernameMemory query ≠ "" →
  ∃ rest,
    let names := user_username <$> SearchUsersByUsername s query limit in
    Sorted String.le (names ++ rest) ∧ NoDup (names ++ rest) ∧
    (∀ name, name ∈ names ++ rest ↔
       HasPrefix name (normalizeUsernameMemory query) = true ∧
       ∃ id u, Store_users s !! id = Some u ∧ user_username u = name) ∧
    1 ≤ search_limit limit ≤ 50 ∧ length names ≤ search_limit limit ∧
    (length names < search_limit limit → rest = []).
Proof.
  intros Hs%account_reachable_inv Hq. unfold SearchUsersByUsername. cbv zeta.
  rewrite bool_decide_false by done. fold (search_limit limit).
  set (keys := List.filter _ _). pose proof (ai_username s Hs) as Hi.
  assert (∀ k, k ∈ keys ↔ HasPrefix k (normalizeUsernameMemory query) = true ∧
    is_Some (Store_usernameToUser s !! k)) as Hkeys.
  { intros k. unfold keys. rewrite list_elem_of_In, filter_In, <- list_elem_of_In.
    rewrite list_elem_of_fmap. split.
    - intros [([k' id] & -> & Hin) Hp]. apply elem_of_range in Hin. split; eauto.
    - intros [Hp [id Hid]]. split; [|done]. exists (k, id). by rewrite elem_of_range. }
  assert (∀ k, k ∈ keys → k ≠ "") as Hne.
  { intros k [Hp _]%Hkeys ->. by rewrite HasPrefix_empty in Hp. }
  set (sorted := merge_sort String.le keys).
  assert (sorted ≡ₚ keys) as Hperm by apply merge_sort_Permutation.
  exists (drop (search_limit limit) sorted).
  rewrite omap_users with (keys := take (search_limit limit) sorted); [|done|].
  2: { apply Forall_take, Forall_forall. intros k Hk. rewrite Hperm in Hk.
       split; [by apply Hne|]. by apply Hkeys. }
  rewrite take_drop. split_and!.
  - apply (Sorted_merge_sort _).
  - rewrite Hperm. apply NoDup_ListNoDup, List.NoDup_filter, NoDup_ListNoDup, NoDup_fst_range.
  - intros name. rewrite Hperm, Hkeys. split.
    + intros [Hp [id Hid]]. split; [done|]. exists id. apply (Hi name id); [|done].
      apply Hne, Hkeys. eauto.
    + intros [Hp (id & u & Hu)]. split; [done|]. exists id. apply Hi; [|eauto].
      intros ->. by rewrite HasPrefix_empty in Hp.
  - unfold search_limit. repeat case_match; bool_prop; lia.
  - unfold search_limit. repeat case_match; bool_prop; lia.
  - rewrite length_take. lia.
  - rewrite length_take. intros Hlt. apply drop_ge. lia.
Qed.
End runs.

(** ** Concrete runs *)
Section witnesses.
#[local] Existing Instance Reference.runtime.

Definition sample_clock : Clock := λ i, Z.of_nat (S i).
Definition sample_params : CreateUserParams :=
  mkCreateUserParams None " Ada@Example.com" "+15550001" "Ada" "hash".
Definition sample_patch : RawMessage := Raw (JObj [("username", JStr "@Ada")]).

Definition sample_accounts : Store :=
  account_step
    (account_step New (OpCreateUser sample_params (uuid_of_N 1) sample_clock))
    (OpUpdateUserProfile (uuid_of_N 1) sample_patch sample_clock).

Lemma sample_patch_ok patch :
  unmarshal_map sample_patch = Some (Some patch) → patch_ok patch.
Proof.
  intros [= <-]. split.
  - intros k [v Hk] _. apply lookup_insert_Some in Hk as [[<- _]|[_ Hk]]; [done|].
    by rewrite lookup_empty in Hk.
  - intros v Hv. vm_compute in Hv. by simplify_eq/=.
Qed.

Lemma sample_accounts_reachable : account_reachable sample_accounts.
Proof.
  apply reach_step; [apply reach_step; [apply reach_new|]|].
  - vm_compute. reflexivity.
  - exact sample_patch_ok.
Qed.

Lemma account_lookups_exact_witness :
  ∃ u, UserByEmail sample_accounts "ADA@example.com " = Ok u ∧ User_DisplayName u = "Ada".
Proof.
  exists (user_or_zero sample_accounts (uuid_of_N 1)). split; [|vm_compute; reflexivity].
  apply (proj1 (proj2 (account_lookups_exact sample_accounts sample_accounts_reachable))).
  - vm_compute. discriminate.
  - vm_compute. split; reflexivity.
Defined.

Lemma search_sorted_prefix_witness :
  user_username <$> SearchUsersByUsername sample_accounts "ad" 5 = ["ada"].
Proof.
  destruct (search_sorted_prefix sample_accounts "ad" 5 sample_accounts_reachable
    ltac:(vm_compute; discriminate)) as (rest & Hsorted & _).
  vm_compute. reflexivity.
Defined.
End witnesses.
