(* ===== verification/Devices.v ===== *)
(** * Devices, one-time pre-keys and refresh sessions

    [src/internal/domain/device.go] and [src/internal/store/memory/memory.go],
    lines 863-1136.

    A push token names one installation: registering it on a device removes it
    from every other device of the platform ([token_inv]).  A one-time pre-key is
    handed to at most one peer.  A refresh token works once: presenting the
    previous token of a session revokes the session. *)

From Stdlib Require Import ZArith Lia.
From S2P Require Import Prelude.
From S2P Require Import Runtime.
From S2P Require Import Domain.
From S2P Require Import Compliance.
From S2P Require Import StoreState.

Record SessionIssueParams := mkSessionIssueParams {
  SessionIssueParams_UserID : UUID; SessionIssueParams_ExpectedPasswordHash : string;
  SessionIssueParams_RequirePasswordHashMatch : bool;
  SessionIssueParams_Device : Device; SessionIssueParams_Session : Session }.

Section devices.
Context `{GoRuntime}.
Implicit Types (s : Store) (d : Device) (id : UUID).

Definition MobilePlatform (platform : string) : bool :=
  bool_decide (platform = "ios") || bool_decide (platform = "android").

Definition NormalizePushToken (platform token : string) : string :=
  let token := TrimSpace token in
  if negb (bool_decide (platform = "android")) then ToLower token else token.

(** ** Devices *)

(** Remove a push token from every device but [id]:
    [for existingID, existing := range s.devices]. *)
Definition detachToken (devices : gmap UUID Device) id (platform token : string) :
    gmap UUID Device :=
  map_imap (λ existingID existing, Some (
    if bool_decide (existingID = id)
       || negb (bool_decide (Device_Platform existing = platform))
       || negb (bool_decide (Device_PushToken existing = token))
    then existing else existing <| Device_PushToken := "" |>)) devices.

(** Values a registration does not repeat are taken from the stored row;
    [keyAbsent] is the test for a missing signed pre-key. *)
Definition inheritDevice (keyAbsent : RawMessage → bool) (existing d : Device) : Device :=
  let d := if bool_decide (Device_PushToken d = "")
           then d <| Device_PushToken := Device_PushToken existing |> else d in
  let d := if bool_decide (Device_IdentityKey d = "")
           then d <| Device_IdentityKey := Device_IdentityKey existing |> else d in
  let d := if keyAbsent (Device_SignedPreKey d)
           then d <| Device_SignedPreKey := Device_SignedPreKey existing |> else d in
  d <| Device_CreatedAt := Device_CreatedAt existing |>.

(** The common tail of [UpsertDevice] and [IssueSession]: stamp and store the
    row, after taking its push token from every other device. *)
Definition storeDevice s d (created seen : Z) : Store * Device :=
  let d := if IsZero (Device_CreatedAt d) then d <| Device_CreatedAt := created |> else d in
  let s := if negb (bool_decide (Device_PushToken d = ""))
           then s <| Store_devices ::= (λ devices,
             detachToken devices (Device_ID d) (Device_Platform d) (Device_PushToken d)) |>
           else s in
  let d := d <| Device_LastSeenAt := seen |> in
  (s <| Store_devices ::= <[Device_ID d := d]> |>, d).

Definition deviceMismatch (existing d : Device) : bool :=
  negb (bool_decide (Device_UserID existing = Device_UserID d))
  || negb (bool_decide (Device_Platform existing = Device_Platform d)).

(** The part [UpsertDevice] and [IssueSession] share, from the lookup of the row. *)
Definition registerDevice (keyAbsent : RawMessage → bool) s d (clock : Clock) :
    res (Store * Device) :=
  match Store_devices s !! Device_ID d with
  | Some existing =>
    if deviceMismatch existing d then Err ErrConflict
    else Ok (storeDevice s (inheritDevice keyAbsent existing d) (clock 0) (clock 1))
  | None => Ok (storeDevice s d (clock 0) (clock 1))
  end.

Definition UpsertDevice s d (newID : UUID) (clock : Clock) : Store * res Device :=
  match live_user s (Device_UserID d) with
  | None => (s, Err ErrNotFound)
  | Some _ =>
    let d := d <| Device_PushToken :=
               NormalizePushToken (Device_Platform d) (Device_PushToken d) |> in
    let d := if bool_decide (Device_ID d = uuid_Nil) then d <| Device_ID := newID |> else d in
    match registerDevice raw_absent s d clock with
    | Err e => (s, Err e)
    | Ok (s, d) => (s, Ok d)
    end
  end.

Definition Device_ s (userID deviceID : UUID) : res Device :=
  match Store_devices s !! deviceID with
  | None => Err ErrNotFound
  | Some d => if negb (bool_decide (Device_UserID d = userID)) then Err ErrForbidden else Ok d
  end.

Definition created_le (x y : Device) : Prop := (Device_CreatedAt x ≤ Device_CreatedAt y)%Z.
#[global] Instance created_le_dec : RelDecision created_le :=
  λ x y, decide (Device_CreatedAt x ≤ Device_CreatedAt y)%Z.

Definition ListDevices s (userID : UUID) : list Device :=
  merge_sort created_le
    (List.filter (λ d, bool_decide (Device_UserID d = userID)) (range (Store_devices s)).*2).

Definition ClearDevicePushToken s (userID deviceID : UUID) : Store * res unit :=
  match Store_devices s !! deviceID with
  | None => (s, Err ErrNotFound)
  | Some d =>
    if negb (bool_decide (Device_UserID d = userID)) then (s, Err ErrForbidden)
    else (s <| Store_devices ::= <[deviceID := d <| Device_PushToken := "" |>]> |>, Ok tt)
  end.

(** ** One-time pre-keys *)

Definition preKeysOf s (deviceID : UUID) : list OneTimePreKey :=
  default [] (Store_preKeys s !! deviceID).

(** The loop over the uploaded keys: [existing] is the set of key ids seen. *)
Fixpoint addPreKeys (deviceID : UUID) (existing : gset Z)
    (stored : gmap UUID (list OneTimePreKey)) (keys : list OneTimePreKey) :
    gmap UUID (list OneTimePreKey) :=
  match keys with
  | [] => stored
  | key :: keys =>
    if bool_decide (OneTimePreKey_KeyID key ∈ existing)
    then addPreKeys deviceID existing stored keys
    else addPreKeys deviceID ({[ OneTimePreKey_KeyID key ]} ∪ existing)
           (<[deviceID := default [] (stored !! deviceID)
                ++ [key <| OneTimePreKey_DeviceID := deviceID |>]]> stored) keys
  end.

Definition PutOneTimePreKeys s (deviceID : UUID) (keys : list OneTimePreKey) :
    Store * res unit :=
  match Store_devices s !! deviceID with
  | None => (s, Err ErrNotFound)
  | Some d =>
    match live_user s (Device_UserID d) with
    | None => (s, Err ErrNotFound)
    | Some _ =>
      let existing := list_to_set (OneTimePreKey_KeyID <$> preKeysOf s deviceID) in
      (s <| Store_preKeys ::= (λ stored, addPreKeys deviceID existing stored keys) |>, Ok tt)
    end
  end.

(** Mark the first unclaimed key of a device. *)
Fixpoint claimFirst (now : Z) (keys : list OneTimePreKey) :
    option (list OneTimePreKey * OneTimePreKey) :=
  match keys with
  | [] => None
  | key :: keys =>
    match OneTimePreKey_ClaimedAt key with
    | None =>
      let key := key <| OneTimePreKey_ClaimedAt := Some now |> in Some (key :: keys, key)
    | Some _ =>
      match claimFirst now keys with
      | Some (keys, claimed) => Some (key :: keys, claimed)
      | None => None
      end
    end
  end.

(** Devices that can take part in a key exchange. *)
Definition offersKeys (userID : UUID) d : bool :=
  bool_decide (Device_UserID d = userID) && negb (bool_decide (Device_IdentityKey d = ""))
  && negb (raw_absent (Device_SignedPreKey d)).

(** One turn of the loop of [ClaimPreKeys]. *)
Definition claimDevice s d (now : Z) : Store * PreKeyBundle :=
  let bundle := mkPreKeyBundle (Device_ID d) (Device_IdentityKey d) (Device_SignedPreKey d) in
  match claimFirst now (preKeysOf s (Device_ID d)) with
  | Some (keys, key) =>
    (s <| Store_preKeys ::= <[Device_ID d := keys]> |>, bundle (Some key))
  | None => (s, bundle None)
  end.

Fixpoint claimDevices s (devices : list Device) (clock : Clock) :
    Store * list PreKeyBundle :=
  match devices with
  | [] => (s, [])
  | d :: devices =>
    let '(s, bundle) := claimDevice s d (clock 0) in
    let '(s, bundles) := claimDevices s devices (later 1 clock) in
    (s, bundle :: bundles)
  end.

Definition ClaimPreKeys s (targetUserID : UUID) (clock : Clock) :
    Store * res (list PreKeyBundle) :=
  match live_user s targetUserID with
  | None => (s, Err ErrNotFound)
  | Some _ =>
    let '(s, bundles) := claimDevices s
      (List.filter (offersKeys targetUserID) (range (Store_devices s)).*2) clock in
    match bundles with [] => (s, Err ErrNotFound) | _ => (s, Ok bundles) end
  end.

(** ** Sessions *)

Definition CreateSession s (session : Session) : Store * res unit :=
  match live_user s (Session_UserID session), Store_devices s !! Session_DeviceID session with
  | Some _, Some d =>
    if negb (bool_decide (Device_UserID d = Session_UserID session))
    then (s, Err ErrUnauthenticated)
    else (s <| Store_sessions ::= <[Session_ID session := session]> |>, Ok tt)
  | _, _ => (s, Err ErrUnauthenticated)
  end.

Definition issueInvalid (p : SessionIssueParams) : bool :=
  let d := SessionIssueParams_Device p in
  let session := SessionIssueParams_Session p in
  bool_decide (SessionIssueParams_UserID p = uuid_Nil)
  || bool_decide (Device_ID d = uuid_Nil)
  || negb (bool_decide (Device_UserID d = SessionIssueParams_UserID p))
  || bool_decide (Session_ID session = uuid_Nil)
  || negb (bool_decide (Session_UserID session = SessionIssueParams_UserID p))
  || negb (bool_decide (Session_DeviceID session = Device_ID d))
  || bool_decide (Session_RefreshTokenHash session = "").

(** [IssueSession] stamps the row before it moves the push token; the two
    readings of the clock come in the same order as in [UpsertDevice]. *)
Definition IssueSession s (p : SessionIssueParams) (clock : Clock) :
    Store * res (User * Device) :=
  if issueInvalid p then (s, Err ErrInvalid)
  else
    match live_user s (SessionIssueParams_UserID p) with
    | None => (s, Err ErrUnauthenticated)
    | Some user =>
      if SessionIssueParams_RequirePasswordHashMatch p
         && negb (bool_decide (User_PasswordHash user
                               = SessionIssueParams_ExpectedPasswordHash p))
      then (s, Err ErrUnauthenticated)
      else
        let d := SessionIssueParams_Device p in
        let d := d <| Device_PushToken :=
                   NormalizePushToken (Device_Platform d) (Device_PushToken d) |> in
        match registerDevice raw_length_zero s d clock with
        | Err e => (s, Err e)
        | Ok (s, d) =>
          let session := SessionIssueParams_Session p in
          (s <| Store_sessions ::= <[Session_ID session := session]> |>, Ok (user, d))
        end
    end.

Definition equalTokenHash (first second : string) : bool :=
  (strlen first =? strlen second)%Z && (0 <? strlen first)%Z && bool_decide (first = second).

Definition RotateSession s id (oldHash newHash : string) (expiresAt : Z) (clock : Clock) :
    Store * res Session :=
  match Store_sessions s !! id with
  | None => (s, Err ErrUnauthenticated)
  | Some session =>
    match live_user s (Session_UserID session) with
    | None => (s, Err ErrUnauthenticated)
    | Some _ =>
      if bool_decide (is_Some (Session_RevokedAt session))
         || Before (Session_ExpiresAt session) (clock 0)
      then (s, Err ErrUnauthenticated)
      else if negb (equalTokenHash (Session_RefreshTokenHash session) oldHash) then
        if equalTokenHash (Session_PreviousRefreshTokenHash session) oldHash
        then (s <| Store_sessions ::=
                <[id := session <| Session_RevokedAt := Some (clock 1) |>]> |>,
              Err ErrUnauthenticated)
        else (s, Err ErrUnauthenticated)
      else
        let session :=
          session <| Session_PreviousRefreshTokenHash := Session_RefreshTokenHash session |>
                  <| Session_RefreshTokenHash := newHash |>
                  <| Session_ExpiresAt := expiresAt |> in
        (s <| Store_sessions ::= <[id := session]> |>, Ok session)
    end
  end.

Definition RevokeSession s id (userID : UUID) (clock : Clock) : Store * res unit :=
  match Store_sessions s !! id with
  | None => (s, Err ErrNotFound)
  | Some session =>
    if negb (bool_decide (Session_UserID session = userID)) then (s, Err ErrForbidden)
    else (s <| Store_sessions ::=
            <[id := session <| Session_RevokedAt := Some (clock 0) |>]> |>, Ok tt)
  end.

Definition SessionActive s id (userID deviceID : UUID) (clock : Clock) : bool :=
  match Store_sessions s !! id, live_user s userID with
  | Some session, Some _ =>
    bool_decide (Session_UserID session = userID)
    && bool_decide (Session_DeviceID session = deviceID)
    && bool_decide (Session_RevokedAt session = None)
    && After (Session_ExpiresAt session) (clock 0)
  | _, _ => false
  end.
End devices.

(** ** Push tokens name one device *)
Section tokens.
Context `{GoRuntime}.
Implicit Types (s : Store) (d e : Device) (id : UUID).

Record device_inv (devices : gmap UUID Device) : Prop := {
  di_ids : ∀ id d, devices !! id = Some d → Device_ID d = id;
  di_tokens : ∀ i j d e, devices !! i = Some d → devices !! j = Some e →
    Device_PushToken d ≠ "" → Device_PushToken d = Device_PushToken e →
    Device_Platform d = Device_Platform e → i = j;
}.

(** What a row keeps for its lifetime. *)
Definition device_owner d : UUID * UUID * string :=
  (Device_ID d, Device_UserID d, Device_Platform d).

Lemma detachToken_lookup devices id platform token i e :
  detachToken devices id platform token !! i = Some e →
  ∃ e0, devices !! i = Some e0 ∧ device_owner e = device_owner e0 ∧
    (e = e0 ∨ Device_PushToken e = "") ∧
    (i ≠ id → Device_Platform e = platform → token ≠ "" → Device_PushToken e ≠ token).
Proof.
  unfold detachToken. rewrite map_lookup_imap.
  destruct (devices !! i) as [e0|]; simpl; [|done].
  intros [= <-]. exists e0. split; [done|].
  repeat case_bool_decide; simpl; (split_and!; [done|by auto|congruence]).
Qed.

Lemma detachToken_preserves devices id platform token i e0 :
  devices !! i = Some e0 →
  ∃ e, detachToken devices id platform token !! i = Some e ∧ device_owner e = device_owner e0.
Proof.
  intros He. unfold detachToken. rewrite map_lookup_imap, He. simpl.
  eexists. split; [reflexivity|]. by case_match.
Qed.

Lemma device_inv_detach devices id platform token :
  device_inv devices → device_inv (detachToken devices id platform token).
Proof.
  intros [Hids Htok]. split.
  - intros i e He. apply detachToken_lookup in He as (e0 & He0 & Ho & _).
    injection Ho as -> _ _. eauto.
  - intros i j d e Hd He Hne Heq Hpl.
    apply detachToken_lookup in Hd as (d0 & Hd0 & _ & [->|?] & _); [|congruence].
    apply detachToken_lookup in He as (e0 & He0 & _ & [->|?] & _); [|congruence].
    eauto.
Qed.

Lemma device_inv_insert devices d :
  device_inv devices →
  (∀ j e, devices !! j = Some e → j ≠ Device_ID d → Device_Platform e = Device_Platform d →
     Device_PushToken d ≠ "" → Device_PushToken e ≠ Device_PushToken d) →
  device_inv (<[Device_ID d := d]> devices).
Proof.
  intros [Hids Htok] Hfree. split.
  - intros i e [[<- <-]|[_ He]]%lookup_insert_Some; eauto.
  - intros i j x y Hx Hy Hne Heq Hpl.
    apply lookup_insert_Some in Hx as [[<- <-]|[Hi Hx]];
      apply lookup_insert_Some in Hy as [[<- <-]|[Hj Hy]]; eauto.
    + destruct (Hfree j y Hy); congruence.
    + destruct (Hfree i x Hx); congruence.
Qed.

Lemma storeDevice_inv s d created seen :
  device_inv (Store_devices s) → device_inv (Store_devices (storeDevice s d created seen).1).
Proof.
  intros Hs. unfold storeDevice. cbv zeta.
  set (d1 := if IsZero _ then _ else _). set (d2 := d1 <| Device_LastSeenAt := seen |>).
  change (device_inv (<[Device_ID d2 := d2]> (Store_devices
    (if negb (bool_decide (Device_PushToken d1 = ""))
     then s <| Store_devices ::= (λ devices, detachToken devices (Device_ID d1)
            (Device_Platform d1) (Device_PushToken d1)) |> else s)))).
  case_bool_decide as Htok; cbn [negb].
  - apply device_inv_insert; [done|]. intros j e _ _ _ Hne. done.
  - apply device_inv_insert; [by apply device_inv_detach|].
    intros j e He Hj Hpl Hne. apply detachToken_lookup in He as (_ & _ & _ & _ & Hfree).
    by apply Hfree.
Qed.

(** What registering a device does to the tables. *)
Lemma registerDevice_spec keyAbsent s d clock s' d' :
  registerDevice keyAbsent s d clock = Ok (s', d') →
  (device_inv (Store_devices s) → device_inv (Store_devices s')) ∧
  Store_preKeys s' = Store_preKeys s ∧ Store_sessions s' = Store_sessions s ∧
  Store_devices s' !! Device_ID d = Some d' ∧ device_owner d' = device_owner d ∧
  ∀ i e, Store_devices s !! i = Some e →
    ∃ e', Store_devices s' !! i = Some e' ∧
      Device_UserID e' = Device_UserID e ∧ Device_Platform e' = Device_Platform e.
Proof.
  unfold registerDevice. intros Hr.
  assert (∃ d0, storeDevice s d0 (clock 0) (clock 1) = (s', d') ∧
    device_owner d0 = device_owner d ∧
    ∀ e, Store_devices s !! Device_ID d = Some e → deviceMismatch e d = false)
    as (d0 & Hst & Hown & Hmis).
  { destruct (Store_devices s !! Device_ID d) as [e|].
    - destruct (deviceMismatch e d) eqn:Hm; [done|]. apply (inj Ok) in Hr as Hst.
      eexists. split; [exact Hst|]. split; [|by intros e' [= <-]].
      unfold inheritDevice. by repeat case_match.
    - apply (inj Ok) in Hr as Hst. by exists d. }
  pose proof (storeDevice_inv s d0 (clock 0) (clock 1)) as Hinv. rewrite Hst in Hinv.
  revert Hst. unfold storeDevice. cbv zeta. set (d1 := if IsZero _ then _ else _).
  assert (device_owner d1 = device_owner d0) as Hown1 by (unfold d1; by destruct (IsZero _)).
  intros [= Hs' Hd']. rewrite Hown in Hown1. clear Hown.
  assert (device_owner d' = device_owner d) as Hown' by (rewrite <- Hd'; exact Hown1).
  injection Hown1 as Hid Huid Hpl. rewrite Hd' in Hs'.
  split_and!; [exact Hinv|by subst s'; case_match|by subst s'; case_match| |done|].
  - subst s'. injection Hown' as <- _ _. subst d'. case_match; apply lookup_insert_eq.
  - intros i e He. destruct (decide (i = Device_ID d)) as [->|Hne].
    + exists d'. split.
      { subst s'. injection Hown' as <- _ _. subst d'. case_match; apply lookup_insert_eq. }
      specialize (Hmis e He). unfold deviceMismatch in Hmis. bool_prop.
      injection Hown' as _ Hu Hp. split; congruence.
    + assert (Device_ID d' ≠ i) as Hne' by (injection Hown' as -> _ _; done).
      subst s' d'. case_match.
      * destruct (detachToken_preserves (Store_devices s) (Device_ID d1) (Device_Platform d1)
          (Device_PushToken d1) i e He) as (e' & He' & [= _ ? ?]).
        exists e'. split; [|done]. cbn. by rewrite lookup_insert_ne.
      * exists e. split; [|done]. cbn. by rewrite lookup_insert_ne.
Qed.

Lemma ClearDevicePushToken_inv s userID deviceID :
  device_inv (Store_devices s) →
  device_inv (Store_devices (ClearDevicePushToken s userID deviceID).1).
Proof.
  intros Hs. unfold ClearDevicePushToken.
  destruct (Store_devices s !! deviceID) as [d|] eqn:Hd; [|done].
  destruct (negb _); [done|]. cbn. pose proof (di_ids _ Hs _ _ Hd) as Hid.
  rewrite <- Hid. change (Device_ID d) with (Device_ID (d <| Device_PushToken := "" |>)).
  apply device_inv_insert; done.
Qed.
End tokens.

(** ** One-time keys are handed out once *)
Section prekeys.
Context `{GoRuntime}.
Implicit Types (s : Store) (d : Device) (key : OneTimePreKey).

(** A key slot: device and key id. *)
Definition slot : Type := UUID * Z.

Definition prekey_inv s : Prop :=
  ∀ dev, NoDup (OneTimePreKey_KeyID <$> preKeysOf s dev) ∧
         Forall (λ key, OneTimePreKey_DeviceID key = dev) (preKeysOf s dev).

Definition claimed s (x : slot) : Prop :=
  ∃ key, key ∈ preKeysOf s x.1 ∧ OneTimePreKey_KeyID key = x.2 ∧
         is_Some (OneTimePreKey_ClaimedAt key).

Definition bundle_slot (b : PreKeyBundle) : option slot :=
  (λ key, (OneTimePreKey_DeviceID key, OneTimePreKey_KeyID key)) <$> PreKeyBundle_OneTimePreKey b.

(** A stretch of the run from [s] to [s'] that hands out the slots [h]. *)
Record hands s s' (h : list slot) : Prop := {
  ha_inv : prekey_inv s → prekey_inv s';
  ha_mono : ∀ x, claimed s x → claimed s' x;
  ha_fresh : prekey_inv s → ∀ x, x ∈ h → ¬ claimed s x ∧ claimed s' x;
  ha_nodup : prekey_inv s → NoDup h;
}.

Lemma hands_frame s s' : Store_preKeys s' = Store_preKeys s → hands s s' [].
Proof.
  intros Heq. assert (∀ dev, preKeysOf s' dev = preKeysOf s dev) as Hof.
  { intros dev. unfold preKeysOf. by rewrite Heq. }
  split; [|intros x|set_solver|constructor].
  - intros Hs dev. rewrite Hof. apply Hs.
  - unfold claimed. by rewrite Hof.
Qed.

Lemma hands_trans s1 s2 s3 h1 h2 :
  hands s1 s2 h1 → hands s2 s3 h2 → hands s1 s3 (h1 ++ h2).
Proof.
  intros [Hi1 Hm1 Hf1 Hn1] [Hi2 Hm2 Hf2 Hn2]. split.
  - auto.
  - auto.
  - intros Hs x [Hx|Hx]%elem_of_app.
    + destruct (Hf1 Hs x Hx). auto.
    + destruct (Hf2 (Hi1 Hs) x Hx). auto.
  - intros Hs. apply NoDup_app. split_and!; auto.
    intros x Hx1 Hx2. destruct (Hf1 Hs x Hx1), (Hf2 (Hi1 Hs) x Hx2). auto.
Qed.

Lemma claimFirst_spec now keys keys' key :
  claimFirst now keys = Some (keys', key) →
  ∃ l1 k0 l2, keys = l1 ++ k0 :: l2 ∧ OneTimePreKey_ClaimedAt k0 = None ∧
    key = k0 <| OneTimePreKey_ClaimedAt := Some now |> ∧ keys' = l1 ++ key :: l2.
Proof.
  revert keys'. induction keys as [|k keys IH]; intros keys' Hc; simpl in Hc; [done|].
  destruct (OneTimePreKey_ClaimedAt k) eqn:Hk.
  - destruct (claimFirst now keys) as [[ks kk]|]; [|done]. simplify_eq.
    destruct (IH ks eq_refl) as (l1 & k0 & l2 & -> & H0 & -> & ->).
    exists (k :: l1), k0, l2. done.
  - simplify_eq. by exists [], k, keys.
Qed.

Lemma preKeysOf_insert s dev keys dev' :
  preKeysOf (s <| Store_preKeys ::= <[dev := keys]> |>) dev'
  = if decide (dev' = dev) then keys else preKeysOf s dev'.
Proof.
  unfold preKeysOf. cbn. destruct (decide (dev' = dev)) as [->|Hne].
  - by rewrite lookup_insert_eq.
  - by rewrite lookup_insert_ne.
Qed.

Lemma claimDevice_hands s d now :
  hands s (claimDevice s d now).1 (option_list (bundle_slot (claimDevice s d now).2)).
Proof.
  unfold claimDevice. destruct (claimFirst now (preKeysOf s (Device_ID d))) as [[keys key]|] eqn:Hc;
    [|by apply hands_frame].
  destruct (claimFirst_spec _ _ _ _ Hc) as (l1 & k0 & l2 & Hold & Hk0 & Hkey & Hnew).
  cbn [fst snd bundle_slot PreKeyBundle_OneTimePreKey fmap option_fmap option_map option_list].
  set (s' := s <| Store_preKeys ::= _ |>).
  assert (OneTimePreKey_KeyID key = OneTimePreKey_KeyID k0) as Hid by (by subst key).
  assert (OneTimePreKey_DeviceID key = OneTimePreKey_DeviceID k0) as Hdev by (by subst key).
  assert (∀ dev, preKeysOf s' dev = if decide (dev = Device_ID d) then keys else preKeysOf s dev)
    as Hof by apply preKeysOf_insert.
  assert (prekey_inv s → OneTimePreKey_DeviceID key = Device_ID d) as Hkd.
  { intros Hs. rewrite Hdev. destruct (Hs (Device_ID d)) as [_ Hall].
    rewrite Hold, Forall_app, Forall_cons in Hall. naive_solver. }
  split.
  - intros Hs dev. rewrite Hof. destruct (decide (dev = Device_ID d)) as [->|]; [|apply Hs].
    destruct (Hs (Device_ID d)) as [Hnd Hall]. rewrite Hold in Hnd, Hall. rewrite Hnew.
    rewrite fmap_app, fmap_cons, Hid, <- fmap_cons, <- fmap_app. split; [done|].
    rewrite Forall_app, Forall_cons in Hall |- *. naive_solver.
  - intros x (k & Hin & Hkid & Hcl). destruct (decide (x.1 = Device_ID d)) as [Hx|Hx].
    + exists k. split_and!; try done. rewrite Hof, decide_True by done. rewrite Hx, Hold in Hin.
      rewrite Hnew. apply elem_of_app in Hin as [Hin|Hin]; [set_solver|].
      apply elem_of_cons in Hin as [->|Hin]; [|set_solver]. rewrite Hk0 in Hcl. by destruct Hcl.
    + exists k. split_and!; try done. by rewrite Hof, decide_False.
  - intros Hs x Hx. apply list_elem_of_singleton in Hx as ->. rewrite (Hkd Hs). split.
    + intros (k & Hin & Hkid & Hcl). simpl in Hin, Hkid. destruct (Hs (Device_ID d)) as [Hnd _].
      assert (k = k0) as ->; [|rewrite Hk0 in Hcl; by destruct Hcl].
      rewrite Hold in Hin, Hnd. rewrite fmap_app, fmap_cons in Hnd.
      apply NoDup_app in Hnd as (_ & Hdis & [Hn2 _]%NoDup_cons).
      assert (∀ l : list OneTimePreKey, k ∈ l → OneTimePreKey_KeyID k0 ∈ OneTimePreKey_KeyID <$> l)
        as Hmap.
      { intros l Hl. rewrite <- Hid, <- Hkid. by apply list_elem_of_fmap_2. }
      apply elem_of_app in Hin as [Hin|Hin].
      * destruct (Hdis (OneTimePreKey_KeyID k0)); [auto|left].
      * apply elem_of_cons in Hin as [->|Hin]; [done|]. destruct Hn2. auto.
    + exists key. simpl. rewrite Hof, decide_True, Hnew by done. split_and!; [set_solver|done|].
      rewrite Hkey. by eexists.
  - intros _. apply NoDup_singleton.
Qed.

Lemma claimDevices_hands s devices clock :
  hands s (claimDevices s devices clock).1
    (omap bundle_slot (claimDevices s devices clock).2).
Proof.
  revert s clock. induction devices as [|d devices IH]; intros s clock; simpl.
  - by apply hands_frame.
  - pose proof (claimDevice_hands s d (clock 0)) as H1.
    destruct (claimDevice s d (clock 0)) as [s1 b].
    specialize (IH s1 (later 1 clock)). destruct (claimDevices s1 devices (later 1 clock)) as [s2 bs].
    simpl in *. pose proof (hands_trans _ _ _ _ _ H1 IH) as H2.
    destruct (bundle_slot b); done.
Qed.

(** The slots a call of [ClaimPreKeys] hands out. *)
Definition handed (r : res (list PreKeyBundle)) : list slot :=
  match r with Ok bundles => omap bundle_slot bundles | Err _ => [] end.

Lemma ClaimPreKeys_hands s target clock :
  hands s (ClaimPreKeys s target clock).1 (handed (ClaimPreKeys s target clock).2).
Proof.
  unfold ClaimPreKeys. destruct (live_user s target); [|by apply hands_frame].
  pose proof (claimDevices_hands s
    (List.filter (offersKeys target) (range (Store_devices s)).*2) clock) as Hh.
  destruct (claimDevices _ _ _) as [s' [|b bundles]]; done.
Qed.

Lemma addPreKeys_spec dev existing stored keys :
  (∀ i, i ≠ dev → addPreKeys dev existing stored keys !! i = stored !! i) ∧
  ∃ added, default [] (addPreKeys dev existing stored keys !! dev)
           = default [] (stored !! dev) ++ added ∧
    Forall (λ key, OneTimePreKey_DeviceID key = dev) added ∧
    NoDup (OneTimePreKey_KeyID <$> added) ∧
    Forall (λ key, OneTimePreKey_KeyID key ∉ existing) added.
Proof.
  revert existing stored. induction keys as [|key keys IH]; intros existing stored; simpl.
  - split; [done|]. exists []. rewrite app_nil_r. by repeat constructor.
  - case_bool_decide as Hin; [apply IH|].
    destruct (IH ({[OneTimePreKey_KeyID key]} ∪ existing)
      (<[dev := default [] (stored !! dev) ++ [key <| OneTimePreKey_DeviceID := dev |>]]> stored))
      as (Hother & added & Heq & Hdev & Hnd & Hnew).
    split.
    { intros i Hi. rewrite Hother by done. by rewrite lookup_insert_ne. }
    exists (key <| OneTimePreKey_DeviceID := dev |> :: added).
    rewrite Heq, lookup_insert_eq. simpl. rewrite <- app_assoc. split_and!; [done|by constructor| |].
    + constructor; [|done]. intros Hk. apply list_elem_of_fmap in Hk as (k & Hk & Hink).
      rewrite Forall_forall in Hnew. apply (Hnew k Hink). rewrite <- Hk. set_solver.
    + constructor; [done|]. eapply Forall_impl; [exact Hnew|]. set_solver.
Qed.

Lemma PutOneTimePreKeys_hands s dev keys : hands s (PutOneTimePreKeys s dev keys).1 [].
Proof.
  unfold PutOneTimePreKeys. destruct (Store_devices s !! dev); [|by apply hands_frame].
  destruct (live_user s _); [|by apply hands_frame]. cbv zeta. cbn [fst].
  set (s' := s <| Store_preKeys ::= _ |>).
  destruct (addPreKeys_spec dev (list_to_set (OneTimePreKey_KeyID <$> preKeysOf s dev))
    (Store_preKeys s) keys) as (Hother & added & Heq & Hdev & Hnd & Hnew).
  assert (∀ i, i ≠ dev → preKeysOf s' i = preKeysOf s i) as Hof.
  { intros i Hi. unfold preKeysOf. cbn. by rewrite Hother. }
  assert (preKeysOf s' dev = preKeysOf s dev ++ added) as Hofd by exact Heq.
  split; [| |set_solver|constructor].
  - intros Hs i. destruct (decide (i = dev)) as [->|Hi]; [|rewrite Hof by done; apply Hs].
    destruct (Hs dev) as [Hnd0 Hall]. rewrite Hofd. rewrite fmap_app, Forall_app. split; [|done].
    apply NoDup_app. split_and!; try done. intros x Hx Hxa.
    apply list_elem_of_fmap in Hxa as (k & -> & Hk). rewrite Forall_forall in Hnew.
    apply (Hnew k Hk). by apply elem_of_list_to_set.
  - intros x (k & Hin & Hk). destruct (decide (x.1 = dev)) as [Hx|Hx].
    + exists k. rewrite Hx in *. rewrite Hofd. set_solver.
    + exists k. by rewrite Hof.
Qed.
End prekeys.

(** ** Runs

    [device_steps s s' h]: the device and session operations, interleaved with
    steps of other components that leave these tables alone, lead from [s] to [s']
    and hand out the key slots [h].  Session ids come from [uuid.New]. *)
Section runs.
Context `{GoRuntime}.
Implicit Types (s : Store) (d : Device) (id : UUID).

Definition device_frame s s' : Prop :=
  Store_devices s' = Store_devices s ∧ Store_preKeys s' = Store_preKeys s ∧
  Store_sessions s' = Store_sessions s.

Inductive device_step s : Store → list slot → Prop :=
  | step_upsert d newID clock : device_step s (UpsertDevice s d newID clock).1 []
  | step_clear userID deviceID : device_step s (ClearDevicePushToken s userID deviceID).1 []
  | step_put deviceID keys : device_step s (PutOneTimePreKeys s deviceID keys).1 []
  | step_claim target clock :
      device_step s (ClaimPreKeys s target clock).1 (handed (ClaimPreKeys s target clock).2)
  | step_create session :
      Store_sessions s !! Session_ID session = None →
      device_step s (CreateSession s session).1 []
  | step_issue p clock :
      Store_sessions s !! Session_ID (SessionIssueParams_Session p) = None →
      device_step s (IssueSession s p clock).1 []
  | step_rotate id oldHash newHash expiresAt clock :
      device_step s (RotateSession s id oldHash newHash expiresAt clock).1 []
  | step_revoke id userID clock : device_step s (RevokeSession s id userID clock).1 []
  | step_other s' : device_frame s s' → device_step s s' [].

Inductive device_steps s : Store → list slot → Prop :=
  | steps_refl : device_steps s s []
  | steps_snoc s1 s2 h1 h2 :
      device_steps s s1 h1 → device_step s1 s2 h2 → device_steps s s2 (h1 ++ h2).

(** ** Facts kept by every step *)

Definition owners_kept s s' : Prop :=
  ∀ i e, Store_devices s !! i = Some e → ∃ e', Store_devices s' !! i = Some e' ∧
    Device_UserID e' = Device_UserID e ∧ Device_Platform e' = Device_Platform e.

Definition revoked s id : Prop :=
  ∃ session, Store_sessions s !! id = Some session ∧ is_Some (Session_RevokedAt session).

Definition revoked_kept s s' : Prop := ∀ id, revoked s id → revoked s' id.

Record step_facts s s' (h : list slot) : Prop := {
  sf_inv : device_inv (Store_devices s) → device_inv (Store_devices s');
  sf_owners : owners_kept s s';
  sf_hands : hands s s' h;
  sf_revoked : revoked_kept s s';
}.

Lemma step_facts_frame s s' : device_frame s s' → step_facts s s' [].
Proof.
  intros (Hd & Hp & Hse). split; rewrite ?Hd; unfold owners_kept, revoked_kept, revoked;
    rewrite ?Hd, ?Hse; eauto. by apply hands_frame.
Qed.

Lemma step_facts_sessions s s' :
  Store_devices s' = Store_devices s → Store_preKeys s' = Store_preKeys s →
  revoked_kept s s' → step_facts s s' [].
Proof.
  intros Hd Hp Hr. split; rewrite ?Hd; unfold owners_kept; rewrite ?Hd; eauto.
  by apply hands_frame.
Qed.

Lemma revoked_insert s s' session :
  Store_sessions s' = <[Session_ID session := session]> (Store_sessions s) →
  Store_sessions s !! Session_ID session = None → revoked_kept s s'.
Proof.
  intros Hs Hfresh id (se & Hse & Hr). exists se. rewrite Hs, lookup_insert_ne; [done|].
  intros <-. congruence.
Qed.

Lemma step_facts_register s s' d d' keyAbsent clock sessions :
  registerDevice keyAbsent s d clock = Ok (s', d') →
  revoked_kept s (s' <| Store_sessions := sessions |>) →
  step_facts s (s' <| Store_sessions := sessions |>) [].
Proof.
  intros (Hinv & Hp & _ & _ & _ & Hown)%registerDevice_spec Hr. by split; [| |apply hands_frame|].
Qed.

Lemma revoked_update s s' id session :
  Store_sessions s' = <[id := session]> (Store_sessions s) →
  (revoked s id → is_Some (Session_RevokedAt session)) → revoked_kept s s'.
Proof.
  intros Hs Hr i Hi. unfold revoked. rewrite Hs. destruct (decide (i = id)) as [->|Hne].
  - rewrite lookup_insert_eq. eauto.
  - by rewrite lookup_insert_ne.
Qed.

Ltac frame_cases := repeat (case_match; try by apply step_facts_frame).

Lemma step_facts_upsert s d newID clock : step_facts s (UpsertDevice s d newID clock).1 [].
Proof.
  unfold UpsertDevice. case_match; [|by apply step_facts_frame]. cbv zeta.
  destruct (registerDevice _ _ _ _) as [[s' d']|] eqn:Hr; [|by apply step_facts_frame].
  pose proof (registerDevice_spec _ _ _ _ _ _ Hr) as (_ & _ & Hse & _).
  assert (s' = s' <| Store_sessions := Store_sessions s |>) as ->
    by (rewrite <- Hse; by destruct s').
  eapply step_facts_register; [exact Hr|]. by intros id.
Qed.

Lemma step_facts_issue s p clock :
  Store_sessions s !! Session_ID (SessionIssueParams_Session p) = None →
  step_facts s (IssueSession s p clock).1 [].
Proof.
  intros Hf. unfold IssueSession. destruct (issueInvalid p); [by apply step_facts_frame|].
  destruct (live_user _ _); [|by apply step_facts_frame].
  destruct (_ && _); [by apply step_facts_frame|]. cbv zeta.
  destruct (registerDevice _ _ _ _) as [[s' d']|] eqn:Hr; [|by apply step_facts_frame].
  pose proof (registerDevice_spec _ _ _ _ _ _ Hr) as (_ & _ & Hse & _).
  eapply step_facts_register; [exact Hr|]. eapply revoked_insert; [|exact Hf]. cbn. by rewrite Hse.
Qed.

Lemma step_facts_clear s userID deviceID :
  step_facts s (ClearDevicePushToken s userID deviceID).1 [].
Proof.
  pose proof (ClearDevicePushToken_inv s userID deviceID) as Hinv.
  unfold ClearDevicePushToken in *.
  destruct (Store_devices s !! deviceID) as [d|] eqn:Hd; [|by apply step_facts_frame].
  destruct (negb _); [by apply step_facts_frame|].
  split; [done| |by apply hands_frame|by intros id].
  intros i e He. cbn. destruct (decide (i = deviceID)) as [->|Hne].
  - rewrite lookup_insert_eq. eexists. split; [done|]. by assert (d = e) as -> by congruence.
  - rewrite lookup_insert_ne by done. eauto.
Qed.

Lemma claimDevices_frame s devices clock :
  Store_devices (claimDevices s devices clock).1 = Store_devices s ∧
  Store_sessions (claimDevices s devices clock).1 = Store_sessions s.
Proof.
  revert s clock. induction devices as [|d devices IH]; intros s clock; simpl; [done|].
  destruct (claimDevice s d (clock 0)) as [s1 b] eqn:Hc1.
  specialize (IH s1 (later 1 clock)).
  destruct (claimDevices s1 devices (later 1 clock)) as [s2 b2]. destruct IH as [Hd Hse].
  unfold claimDevice in Hc1. simpl in *. rewrite Hd, Hse. repeat case_match; by simplify_eq.
Qed.

Lemma step_facts_claim s target clock :
  step_facts s (ClaimPreKeys s target clock).1 (handed (ClaimPreKeys s target clock).2).
Proof.
  pose proof (ClaimPreKeys_hands s target clock) as Hh.
  assert (Store_devices (ClaimPreKeys s target clock).1 = Store_devices s ∧
    Store_sessions (ClaimPreKeys s target clock).1 = Store_sessions s) as [Hd Hse].
  { unfold ClaimPreKeys. case_match; [|done].
    pose proof (claimDevices_frame s
      (List.filter (offersKeys target) (range (Store_devices s)).*2) clock) as Hc.
    destruct (claimDevices _ _ _) as [s' bs]. by destruct bs. }
  split; [by rewrite Hd| |done|].
  - intros i e He. rewrite Hd. eauto.
  - intros i. unfold revoked. by rewrite Hse.
Qed.

Lemma step_facts_rotate s id old new exp clock :
  step_facts s (RotateSession s id old new exp clock).1 [].
Proof.
  unfold RotateSession. destruct (Store_sessions s !! id) as [se|] eqn:Hse; [|by apply step_facts_frame].
  destruct (live_user _ _); [|by apply step_facts_frame].
  destruct (_ || _) eqn:Hdead; [by apply step_facts_frame|]. bool_prop.
  destruct (negb _); [destruct (equalTokenHash _ _)|].
  - apply step_facts_sessions; [done|done|]. eapply revoked_update; [done|]. by eexists.
  - by apply step_facts_frame.
  - apply step_facts_sessions; [done|done|]. eapply revoked_update; [done|].
    intros (se' & Hse' & Hr). by simplify_eq.
Qed.

Lemma step_facts_step s s' h : device_step s s' h → step_facts s s' h.
Proof.
  destruct 1 as [d newID clock|userID deviceID|deviceID keys|target clock|session Hf|p clock Hf
    |id old new exp clock|id userID clock|s' Hframe].
  - apply step_facts_upsert.
  - apply step_facts_clear.
  - pose proof (PutOneTimePreKeys_hands s deviceID keys) as Hh. unfold PutOneTimePreKeys in *.
    frame_cases. split; [done|by eexists|done|by intros id].
  - apply step_facts_claim.
  - unfold CreateSession. frame_cases.
    apply step_facts_sessions; [done|done|]. by eapply revoked_insert.
  - by apply step_facts_issue.
  - apply step_facts_rotate.
  - unfold RevokeSession. frame_cases.
    apply step_facts_sessions; [done|done|]. eapply revoked_update; [done|]. by eexists.
  - by apply step_facts_frame.
Qed.

Lemma step_facts_trans s1 s2 s3 h1 h2 :
  step_facts s1 s2 h1 → step_facts s2 s3 h2 → step_facts s1 s3 (h1 ++ h2).
Proof.
  intros [Hi1 Ho1 Hh1 Hr1] [Hi2 Ho2 Hh2 Hr2]. split.
  - auto.
  - intros i e He. destruct (Ho1 i e He) as (e1 & He1 & <- & <-). eauto.
  - by eapply hands_trans.
  - intros i Hi. auto.
Qed.

Lemma step_facts_steps s s' h : device_steps s s' h → step_facts s s' h.
Proof.
  induction 1 as [|s1 s2 h1 h2 _ IH Hstep]; [by apply step_facts_frame|].
  eapply step_facts_trans; [exact IH|]. by apply step_facts_step.
Qed.

(** ** Properties *)

Lemma device_inv_empty s : Store_devices s = ∅ → device_inv (Store_devices s).
Proof. intros ->. split; intros *; by rewrite lookup_empty. Qed.

Lemma prekey_inv_empty s : Store_preKeys s = ∅ → prekey_inv s.
Proof. intros He dev. unfold preKeysOf. rewrite He, lookup_empty. by repeat constructor. Qed.


(** A push token belongs to one device: in every reachable state two
    devices of a platform never hold the same token, a device row never changes
    its account or platform, and a device that just registered a token is the
    only one of its platform that holds it. *)
Theorem push_token_single_device s0 s h :
  Store_devices s0 = ∅ → device_steps s0 s h →
  (∀ i j d e, Store_devices s !! i = Some d → Store_devices s !! j = Some e →
     Device_PushToken d ≠ "" → Device_PushToken d = Device_PushToken e →
     Device_Platform d = Device_Platform e → i = j) ∧
  (∀ s' h', device_steps s s' h' → owners_kept s s') ∧
  (∀ d newID clock s' d', UpsertDevice s d newID clock = (s', Ok d') →
     Device_PushToken d' ≠ "" → Store_devices s' !! Device_ID d' = Some d' ∧
     ∀ j e, Store_devices s' !! j = Some e → j ≠ Device_ID d' →
       Device_Platform e = Device_Platform d' → Device_PushToken e ≠ Device_PushToken d').
Proof.
  intros H0 Hrun%step_facts_steps.
  pose proof (sf_inv _ _ _ Hrun (device_inv_empty _ H0)) as Hinv. split_and!.
  - apply Hinv.
  - intros s' h' Hrun'%step_facts_steps. apply Hrun'.
  - intros d newID clock s' d' Hup Htok.
    pose proof (sf_inv _ _ _ (step_facts_upsert s d newID clock) Hinv) as Hinv'.
    rewrite Hup in Hinv'. unfold UpsertDevice in Hup. op_cases Hup.
    match goal with Hr : registerDevice _ _ _ _ = _ |- _ =>
      apply registerDevice_spec in Hr as (_ & _ & _ & Hlk & Ho & _) end.
    injection Ho as Hid _ _. rewrite <- Hid in Hlk. split; [done|].
    intros j e He Hne Hpl Heq. destruct Hne.
    by apply (di_tokens _ Hinv' j (Device_ID d') e d'); [|  |congruence|..].
Qed.

Lemma equalTokenHash_refl t : t ≠ "" → equalTokenHash t t = true.
Proof.
  intros Ht. unfold equalTokenHash. rewrite Z.eqb_refl, bool_decide_true by done.
  rewrite andb_true_r. apply Z.ltb_lt. unfold strlen. destruct t; [done|simpl; lia].
Qed.

Lemma equalTokenHash_true t t' : equalTokenHash t t' = true → t = t' ∧ t ≠ "".
Proof.
  unfold equalTokenHash. intros Ht. bool_prop. split; [done|]. by intros ->.
Qed.

Lemma revoked_session_dead s id :
  revoked s id →
  (∀ userID deviceID clock, SessionActive s id userID deviceID clock = false) ∧
  (∀ t t' exp clock, RotateSession s id t t' exp clock = (s, Err ErrUnauthenticated)).
Proof.
  intros (se & Hse & Hr). split.
  - intros userID deviceID clock. unfold SessionActive. rewrite Hse.
    destruct (live_user s userID); [|done].
    rewrite (bool_decide_false (Session_RevokedAt se = None)) by (intros He; rewrite He in Hr; by destruct Hr).
    by rewrite andb_false_r.
  - intros t t' exp clock. unfold RotateSession. rewrite Hse.
    destruct (live_user s _); [|done]. by rewrite bool_decide_true.
Qed.

End runs.

(** ** Concrete runs *)
Section witnesses.
#[local] Existing Instance Reference.runtime.

Definition tick : Clock := λ i, Z.of_nat (S i).
Definition sample_user : User :=
  mkUser (uuid_of_N 1) "ada@example.com" "" "Ada" "" RawNil "hash" 1 1.
Definition sample_store : Store := New <| Store_users ::= <[uuid_of_N 1 := sample_user]> |>.
Definition sample_device : Device :=
  mkDevice (uuid_of_N 2) (uuid_of_N 1) "phone" "ios" " ABCD " "identity" (Raw (JStr "signed")) 0 0.
Definition sample_session : Session :=
  mkSession (uuid_of_N 3) (uuid_of_N 1) (uuid_of_N 2) "first" "" 100 None 1.
Definition sample_key : OneTimePreKey := mkOneTimePreKey 0 uuid_Nil 7 "public" None.

Definition store1 : Store := (UpsertDevice sample_store sample_device uuid_Nil tick).1.
Definition store2 : Store := (PutOneTimePreKeys store1 (uuid_of_N 2) [sample_key; sample_key]).1.
Definition store3 : Store := (ClaimPreKeys store2 (uuid_of_N 1) tick).1.
Definition store4 : Store := (CreateSession store3 sample_session).1.

Lemma sample_run :
  device_steps sample_store (ClaimPreKeys store3 (uuid_of_N 1) tick).1
    (((([] ++ []) ++ []) ++ handed (ClaimPreKeys store2 (uuid_of_N 1) tick).2)
      ++ handed (ClaimPreKeys store3 (uuid_of_N 1) tick).2).
Proof.
  eapply steps_snoc; [|apply step_claim]. eapply steps_snoc; [|apply step_claim].
  eapply steps_snoc; [|apply step_put]. eapply steps_snoc; [|apply step_upsert].
  apply steps_refl.
Qed.


Definition stored_device : Device :=
  mkDevice (uuid_of_N 2) (uuid_of_N 1) "phone" "ios" "abcd" "identity"
    (Raw (JStr "signed")) 2 1.

Lemma push_token_single_device_witness :
  Store_devices store1 !! uuid_of_N 2 = Some stored_device.
Proof.
  refine (proj1 (proj2 (proj2 (push_token_single_device sample_store sample_store []
    eq_refl (steps_refl _))) sample_device uuid_Nil tick store1 stored_device _ _)).
  - apply pair_run. vm_compute. reflexivity.
  - discriminate.
Defined.

Definition rotated : Store := (RotateSession store4 (uuid_of_N 3) "first" "second" 90 tick).1.
End witnesses.
