(* ===== verification/Resets.v ===== *)
(** * Password resets and the mail queue

    [src/internal/store/memory/password_reset.go] and
    [src/internal/store/memory/mail_delivery.go].

    A reset challenge is guessed at most [maxAttempts] times, a user has at most one
    open challenge, and consuming one changes the password, revokes every session,
    clears every push token and closes every challenge of the account in one step.
    Mail rows are leased to one worker at a time and a finished row is never leased
    again.

    [buildMail] (the sealed mail builder) and [fence] (the realtime fence) are
    callbacks of the caller: arguments of the operations. *)

From Stdlib Require Import ZArith Lia.
From S2P Require Import Prelude.
From S2P Require Import Runtime.
From S2P Require Import Domain.
From S2P Require Import Compliance.
From S2P Require Import StoreState.
From S2P Require Import Devices.

Definition MailDeliveryPasswordReset : string := "password_reset".
Definition MailDeliveryPasswordChanged : string := "password_changed".
Definition MailDeliveryPending : string := "pending".
Definition MailDeliveryDelivered : string := "delivered".
Definition MailDeliveryDeadLetter : string := "dead_letter".
Definition MailDeliveryCanceled : string := "canceled".

Definition mailDeliveryLease : Z := 2 * Minute.
Definition MaxRetentionPruneBatchSize : Z := 1000.

(** [store.MailDeliveryBuilder]: the sealed delivery for an address, or an error. *)
Definition MailDeliveryBuilder : Type := string → res MailDelivery.
(** A fence returns [None] when it is in place. *)
Definition Fence : Type := UUID → option Error.

Record PasswordResetCompletion := mkPasswordResetCompletion {
  PasswordResetCompletion_UserID : UUID; PasswordResetCompletion_Email : string }.

Section resets.
Context `{GoRuntime}.
Implicit Types (s : Store) (id : UUID) (now : Z).

(** ** Operations on challenges *)

Definition validMailDelivery (d : MailDelivery) (purpose : string) (challengeID : UUID) : bool :=
  negb (bool_decide (MailDelivery_ID d = uuid_Nil))
  && bool_decide (MailDelivery_ChallengeID d = challengeID)
  && bool_decide (MailDelivery_Purpose d = purpose)
  && (29 <=? strlen (MailDelivery_Ciphertext d))%Z.

Definition cancelMail now (errorClass : string) (d : MailDelivery) : MailDelivery :=
  d <| MailDelivery_Status := MailDeliveryCanceled |>
    <| MailDelivery_LeaseToken := uuid_Nil |> <| MailDelivery_LockedUntil := 0%Z |>
    <| MailDelivery_CanceledAt := Some now |> <| MailDelivery_LastErrorClass := errorClass |>.

Definition pendingMail (d : MailDelivery) : bool :=
  bool_decide (MailDelivery_Status d = MailDeliveryPending).

(** [existing.UserID == userID && existing.ConsumedAt == nil] *)
Definition openFor (userID : UUID) (c : PasswordResetChallenge) : bool :=
  bool_decide (PasswordResetChallenge_UserID c = userID)
  && bool_decide (PasswordResetChallenge_ConsumedAt c = None).

Definition closeFor (userID : UUID) now (c : PasswordResetChallenge) : PasswordResetChallenge :=
  if openFor userID c then c <| PasswordResetChallenge_ConsumedAt := Some now |> else c.

Definition buildDelivery (buildMail : option MailDeliveryBuilder) (email purpose : string)
    (challengeID : UUID) : res (option MailDelivery) :=
  match buildMail with
  | None => Ok None
  | Some build =>
    match build email with
    | Err e => Err e
    | Ok built =>
      if negb (validMailDelivery built purpose challengeID) then Err ErrInvalid
      else Ok (Some built)
    end
  end.

Definition putMail s (delivery : option MailDelivery) : Store :=
  match delivery with
  | Some d => s <| Store_mailDeliveries ::= <[MailDelivery_ID d := d]> |>
  | None => s
  end.

Definition createPasswordResetChallenge s (challenge : PasswordResetChallenge)
    (buildMail : option MailDeliveryBuilder) (clock : Clock) : Store * res unit :=
  let userID := PasswordResetChallenge_UserID challenge in
  match Store_users s !! userID with
  | None => (s, Err ErrNotFound)
  | Some user =>
    match buildDelivery buildMail (User_Email user) MailDeliveryPasswordReset
            (PasswordResetChallenge_ID challenge) with
    | Err e => (s, Err e)
    | Ok delivery =>
      let now := clock 0 in
      let superseded d :=
        match Store_passwordResets s !! MailDelivery_ChallengeID d with
        | Some c => openFor userID c && pendingMail d
        | None => false
        end in
      let s := s
        <| Store_mailDeliveries ::= fmap (λ d,
             if superseded d then cancelMail now "superseded" d else d) |>
        <| Store_passwordResets ::= fmap (closeFor userID now) |>
        <| Store_passwordResets ::= <[PasswordResetChallenge_ID challenge := challenge]> |> in
      (putMail s delivery, Ok tt)
    end
  end.

Definition CreatePasswordResetChallenge s challenge (clock : Clock) : Store * res unit :=
  createPasswordResetChallenge s challenge None clock.

Definition CreatePasswordResetChallengeWithMail s challenge
    (buildMail : option MailDeliveryBuilder) (clock : Clock) : Store * res unit :=
  match buildMail with
  | None => (s, Err ErrInvalid)
  | Some _ => createPasswordResetChallenge s challenge buildMail clock
  end.

Definition CancelPasswordResetChallenge s id : Store * res unit :=
  (s <| Store_passwordResets ::= delete id |>
     <| Store_mailDeliveries ::= base.filter (λ kv : UUID * MailDelivery,
          MailDelivery_ChallengeID kv.2 ≠ id) |>, Ok tt).

(** What a successful reset writes; every step is a pass over one table. *)
Definition applyReset s id (user : User) (newPasswordHash : string) now
    (delivery : option MailDelivery) : Store :=
  let userID := User_ID user in
  let s := s
    <| Store_mailDeliveries ::= fmap (λ d,
         if bool_decide (MailDelivery_ChallengeID d = id)
            && bool_decide (MailDelivery_Purpose d = MailDeliveryPasswordReset)
            && pendingMail d
         then cancelMail now "challenge_consumed" d else d) |>
    <| Store_users ::= <[userID := user <| User_PasswordHash := newPasswordHash |>
                                        <| User_UpdatedAt := now |>]> |>
    <| Store_sessions ::= fmap (λ session,
         if bool_decide (Session_UserID session = userID)
            && bool_decide (Session_RevokedAt session = None)
         then session <| Session_RevokedAt := Some now |> else session) |>
    <| Store_devices ::= fmap (λ d,
         if bool_decide (Device_UserID d = userID)
         then d <| Device_PushToken := "" |> else d) |>
    <| Store_passwordResets ::= fmap (closeFor userID now) |> in
  putMail s delivery.

Definition consumePasswordResetChallenge s id (codeHash newPasswordHash : string)
    (maxAttempts : Z) (buildMail : option MailDeliveryBuilder) (fence : option Fence)
    (clock : Clock) : Store * res PasswordResetCompletion :=
  let now := clock 0 in
  match Store_passwordResets s !! id with
  | None => (s, Err ErrUnauthenticated)
  | Some challenge =>
    if bool_decide (is_Some (PasswordResetChallenge_ConsumedAt challenge))
       || negb (After (PasswordResetChallenge_ExpiresAt challenge) now)
       || (maxAttempts <=? PasswordResetChallenge_Attempts challenge)%Z
    then (s, Err ErrUnauthenticated)
    else if negb (bool_decide (PasswordResetChallenge_CodeHash challenge = codeHash))
    then (s <| Store_passwordResets ::=
            <[id := challenge <| PasswordResetChallenge_Attempts ::= (λ n, int64_wrap (n + 1)) |>]> |>,
          Err ErrUnauthenticated)
    else
      match Store_users s !! PasswordResetChallenge_UserID challenge with
      | None => (s, Err ErrUnauthenticated)
      | Some user =>
        if bool_decide (User_PasswordHash user = "") then (s, Err ErrUnauthenticated)
        else
          match buildDelivery buildMail (User_Email user) MailDeliveryPasswordChanged id with
          | Err e => (s, Err e)
          | Ok delivery =>
            match fence ≫= λ f, f (User_ID user) with
            | Some e => (s, Err e)
            | None =>
              (applyReset s id user newPasswordHash now delivery,
               Ok (mkPasswordResetCompletion (User_ID user) (User_Email user)))
            end
          end
      end
  end.

Definition ConsumePasswordResetChallenge s id codeHash newPasswordHash maxAttempts clock :
    Store * res string :=
  match consumePasswordResetChallenge s id codeHash newPasswordHash maxAttempts None None clock with
  | (s, Ok completion) => (s, Ok (PasswordResetCompletion_Email completion))
  | (s, Err e) => (s, Err e)
  end.

Definition ConsumePasswordResetChallengeWithMail s id codeHash newPasswordHash maxAttempts
    (buildMail : option MailDeliveryBuilder) clock : Store * res PasswordResetCompletion :=
  match buildMail with
  | None => (s, Err ErrInvalid)
  | Some _ => consumePasswordResetChallenge s id codeHash newPasswordHash maxAttempts
                buildMail None clock
  end.

Definition ConsumePasswordResetChallengeWithMailAndFence s id codeHash newPasswordHash
    maxAttempts (buildMail : option MailDeliveryBuilder) (fence : option Fence) clock :
    Store * res PasswordResetCompletion :=
  match buildMail, fence with
  | Some _, Some _ => consumePasswordResetChallenge s id codeHash newPasswordHash maxAttempts
                        buildMail fence clock
  | _, _ => (s, Err ErrInvalid)
  end.

(** ** The mail queue *)

(** Pending reset mail whose challenge is closed or expired. *)
Definition inactiveMail s now (d : MailDelivery) : bool :=
  bool_decide (MailDelivery_Purpose d = MailDeliveryPasswordReset) && pendingMail d
  && match Store_passwordResets s !! MailDelivery_ChallengeID d with
     | Some c => negb (bool_decide (PasswordResetChallenge_ConsumedAt c = None)
                       && After (PasswordResetChallenge_ExpiresAt c) now)
     | None => false
     end.

Definition mailDue now (d : MailDelivery) : bool :=
  pendingMail d && negb (After (MailDelivery_NextAttemptAt d) now)
  && negb (negb (IsZero (MailDelivery_LockedUntil d)) && After (MailDelivery_LockedUntil d) now).

Definition mail_order : relation MailDelivery :=
  time_then MailDelivery_NextAttemptAt (by_uuid MailDelivery_ID).

Definition leaseMail now (leaseToken : UUID) (d : MailDelivery) : MailDelivery :=
  d <| MailDelivery_Attempts ::= (λ n, int64_wrap (n + 1)) |>
    <| MailDelivery_LeaseToken := leaseToken |>
    <| MailDelivery_LockedUntil := (now + mailDeliveryLease)%Z |>.

Definition LockMailDeliveryBatch s (limit : Z) (leaseToken : UUID) (clock : Clock) :
    Store * res (list MailDelivery) :=
  if (limit <? 1)%Z || (MaxRetentionPruneBatchSize <? limit)%Z then (s, Err ErrInvalid)
  else
    let now := clock 0 in
    let s := s <| Store_mailDeliveries ::= fmap (λ d,
      if inactiveMail s now d then cancelMail now "challenge_inactive" d else d) |> in
    let candidates :=
      select (Store_mailDeliveries s) (mailDue now) mail_order (Z.to_nat limit) in
    let leased := leaseMail now leaseToken <$> candidates in
    (s <| Store_mailDeliveries ::= insert_all MailDelivery_ID leased |>, Ok leased).

(** The callback gets the row as it is at that moment; it runs between the store's
    critical sections and answers with an error of its own kind [E], in which the errors
    of the store are [store_error]; [l] stands for the variables it captures.  [ctxErr] is
    the reading of [ctx.Err()]. *)
Definition WithMailDeliveryLease {L E : Type} (store_error : Error → E) s (l : L) id
    (leaseToken : UUID) (ctxErr : option Error)
    (deliver : option (L → MailDelivery → L * option E)) : L * option E :=
  match deliver with
  | None => (l, Some (store_error ErrInvalid))
  | Some deliver =>
    if bool_decide (id = uuid_Nil) || bool_decide (leaseToken = uuid_Nil)
    then (l, Some (store_error ErrInvalid))
    else
      match ctxErr with
      | Some err => (l, Some (store_error err))
      | None =>
        match Store_mailDeliveries s !! id with
        | Some d =>
          if negb (pendingMail d) || negb (bool_decide (MailDelivery_LeaseToken d = leaseToken))
          then (l, Some (store_error ErrNotFound)) else deliver l d
        | None => (l, Some (store_error ErrNotFound))
        end
      end
  end.

Definition error_class_char (c : Ascii.ascii) : bool :=
  let n := Ascii.N_of_ascii c in ((97 <=? n)%N && (n <=? 122)%N) || (n =? 95)%N.

(** A byte outside the accepted ASCII letters is part of a rune outside them. *)
Definition validMailErrorClass (value : string) : bool :=
  if (64 <? strlen value)%Z || negb (bool_decide (TrimSpace value = value)) then false
  else forallb error_class_char (String.list_ascii_of_string value).

Definition mailResult (result : string) : bool :=
  bool_decide (result = MailDeliveryPending) || bool_decide (result = MailDeliveryDelivered)
  || bool_decide (result = MailDeliveryDeadLetter) || bool_decide (result = MailDeliveryCanceled).

Definition FinishMailDelivery s id (leaseToken : UUID) (result : string) (nextAttemptAt : Z)
    (errorClass : string) (clock : Clock) : Store * res unit :=
  if negb (mailResult result) then (s, Err ErrInvalid)
  else if bool_decide (id = uuid_Nil) || bool_decide (leaseToken = uuid_Nil)
          || negb (validMailErrorClass errorClass)
  then (s, Err ErrInvalid)
  else
    match Store_mailDeliveries s !! id with
    | None => (s, Err ErrConflict)
    | Some d =>
      if negb (pendingMail d) || negb (bool_decide (MailDelivery_LeaseToken d = leaseToken))
      then (s, Err ErrConflict)
      else
        let now := clock 0 in
        let nextAttemptAt := if IsZero nextAttemptAt then now else nextAttemptAt in
        let d := d <| MailDelivery_Status := result |>
                   <| MailDelivery_LeaseToken := uuid_Nil |>
                   <| MailDelivery_LockedUntil := 0%Z |>
                   <| MailDelivery_LastErrorClass := errorClass |>
                   <| MailDelivery_DeliveredAt := None |>
                   <| MailDelivery_DeadLetteredAt := None |>
                   <| MailDelivery_CanceledAt := None |> in
        if bool_decide (result = MailDeliveryPending) then
          (s <| Store_mailDeliveries ::=
             <[id := d <| MailDelivery_NextAttemptAt := nextAttemptAt |>]> |>, Ok tt)
        else if bool_decide (result = MailDeliveryDelivered) then
          (s <| Store_mailDeliveries ::=
             <[id := d <| MailDelivery_DeliveredAt := Some now |>]> |>, Ok tt)
        else if bool_decide (result = MailDeliveryDeadLetter) then
          let s :=
            if bool_decide (MailDelivery_Purpose d = MailDeliveryPasswordReset) then
              match Store_passwordResets s !! MailDelivery_ChallengeID d with
              | Some c =>
                if bool_decide (PasswordResetChallenge_ConsumedAt c = None)
                then s <| Store_passwordResets ::= <[MailDelivery_ChallengeID d :=
                            c <| PasswordResetChallenge_ConsumedAt := Some now |>]> |>
                else s
              | None => s
              end
            else s in
          (s <| Store_mailDeliveries ::=
             <[id := d <| MailDelivery_DeadLetteredAt := Some now |>]> |>, Ok tt)
        else
          (s <| Store_mailDeliveries ::=
             <[id := d <| MailDelivery_CanceledAt := Some now |>]> |>, Ok tt)
    end.

(** The time a finished row became eligible, when it is old enough. *)
Definition mailEligibleAt (deliveredBefore deadLetterBefore canceledBefore : Z)
    (d : MailDelivery) : option Z :=
  let finished status at_ before :=
    if bool_decide (MailDelivery_Status d = status)
    then t ← at_; if Before t before then Some t else None
    else None in
  match finished MailDeliveryDelivered (MailDelivery_DeliveredAt d) deliveredBefore with
  | Some t => Some t
  | None =>
    match finished MailDeliveryDeadLetter (MailDelivery_DeadLetteredAt d) deadLetterBefore with
    | Some t => Some t
    | None => finished MailDeliveryCanceled (MailDelivery_CanceledAt d) canceledBefore
    end
  end.

Definition prune_order : relation (UUID * Z) := time_then snd (by_uuid fst).

Definition PruneMailDeliveries s (deliveredBefore deadLetterBefore canceledBefore limit : Z) :
    Store * res Z :=
  if (limit <? 1)%Z || (MaxRetentionPruneBatchSize <? limit)%Z then (s, Err ErrInvalid)
  else
    let candidates := take (Z.to_nat limit) (merge_sort prune_order
      (omap (λ '(id, d), pair id <$>
         mailEligibleAt deliveredBefore deadLetterBefore canceledBefore d)
        (range (Store_mailDeliveries s)))) in
    (s <| Store_mailDeliveries ::= delete_all candidates.*1 |>,
     Ok (Z.of_nat (length candidates))).
End resets.

(** ** Guessing a code *)
Section guessing.
Context `{GoRuntime}.
Implicit Types (s : Store) (id : UUID).

(** One guess: the arguments of a consume call on a fixed challenge. *)
Record Guess := mkGuess {
  Guess_code : string; Guess_password : string;
  Guess_mail : option MailDeliveryBuilder; Guess_fence : option Fence; Guess_clock : Clock }.

Definition guess s id (maxAttempts : Z) (g : Guess) : Store * res PasswordResetCompletion :=
  consumePasswordResetChallenge s id (Guess_code g) (Guess_password g) maxAttempts
    (Guess_mail g) (Guess_fence g) (Guess_clock g).

Definition guesses s id (maxAttempts : Z) (gs : list Guess) : Store :=
  foldl (λ s g, (guess s id maxAttempts g).1) s gs.

(** A challenge that refuses everything: consumed, or out of attempts. *)
Definition exhausted (c : PasswordResetChallenge) (maxAttempts : Z) : Prop :=
  is_Some (PasswordResetChallenge_ConsumedAt c) ∨
  (maxAttempts ≤ PasswordResetChallenge_Attempts c)%Z.

Lemma guess_exhausted s id maxAttempts c g :
  Store_passwordResets s !! id = Some c → exhausted c maxAttempts →
  guess s id maxAttempts g = (s, Err ErrUnauthenticated).
Proof.
  intros Hc He. unfold guess, consumePasswordResetChallenge. rewrite Hc.
  destruct He as [He|He]; [by rewrite bool_decide_true|].
  rewrite (proj2 (Z.leb_le _ _) He), orb_true_r. done.
Qed.

Lemma guess_wrong s id maxAttempts c g :
  Store_passwordResets s !! id = Some c → Guess_code g ≠ PasswordResetChallenge_CodeHash c →
  (0 ≤ PasswordResetChallenge_Attempts c)%Z → (maxAttempts < 2 ^ 63)%Z →
  After (PasswordResetChallenge_ExpiresAt c) (Guess_clock g 0) = true →
  exhausted c maxAttempts ∨
  guess s id maxAttempts g =
    (s <| Store_passwordResets ::= <[id := c <| PasswordResetChallenge_Attempts ::= Z.succ |>]> |>,
     Err ErrUnauthenticated).
Proof.
  intros Hc Hg H0 Hmax Hexp. unfold guess, consumePasswordResetChallenge. rewrite Hc, Hexp.
  case_bool_decide; [by left; left|]. cbn [orb negb].
  destruct (maxAttempts <=? _)%Z eqn:Hle; bool_prop; [by left; right|right].
  rewrite bool_decide_false by congruence. cbn [negb].
  assert (c <| PasswordResetChallenge_Attempts ::= (λ n, int64_wrap (n + 1)) |>
          = c <| PasswordResetChallenge_Attempts ::= Z.succ |>) as ->; [|done].
  unfold set_field, set_PasswordResetChallenge_Attempts. by rewrite int64_wrap_small by lia.
Qed.

Lemma guesses_wrong s id maxAttempts c gs :
  Store_passwordResets s !! id = Some c →
  Forall (λ g, Guess_code g ≠ PasswordResetChallenge_CodeHash c ∧
               After (PasswordResetChallenge_ExpiresAt c) (Guess_clock g 0) = true) gs →
  (0 ≤ PasswordResetChallenge_Attempts c)%Z → (maxAttempts < 2 ^ 63)%Z →
  (maxAttempts - PasswordResetChallenge_Attempts c ≤ Z.of_nat (length gs))%Z →
  ∃ c', Store_passwordResets (guesses s id maxAttempts gs) !! id = Some c' ∧
        exhausted c' maxAttempts ∧
        (∀ i, i ≠ id → Store_passwordResets (guesses s id maxAttempts gs) !! i
                       = Store_passwordResets s !! i) ∧
        Store_users (guesses s id maxAttempts gs) = Store_users s.
Proof.
  revert s c. induction gs as [|g gs IH]; intros s c Hc Hall H0 Hmax Hlen.
  { exists c. split; [done|]. split; [right; simpl in Hlen; lia|done]. }
  apply Forall_cons in Hall as [[Hg Hexp] Hall].
  destruct (guess_wrong s id maxAttempts c g Hc Hg H0 Hmax Hexp) as [He|Hstep].
  - assert (∀ gs, guesses s id maxAttempts gs = s) as Hstay.
    { clear -Hc He. induction gs as [|g gs IH]; [done|]. unfold guesses in *. simpl.
      by rewrite (guess_exhausted _ _ _ _ _ Hc He). }
    rewrite Hstay. eauto.
  - unfold guesses. cbn [foldl]. rewrite Hstep. cbn [fst].
    destruct (IH (s <| Store_passwordResets ::=
        <[id := c <| PasswordResetChallenge_Attempts ::= Z.succ |>]> |>)
        (c <| PasswordResetChallenge_Attempts ::= Z.succ |>)) as (c' & Hc' & He' & Hoth & Hus).
    + apply lookup_insert_eq.
    + exact Hall.
    + cbn. lia.
    + done.
    + cbn. simpl in Hlen. lia.
    + exists c'. split_and!; try done. intros i Hi. rewrite Hoth by done. cbn.
      by rewrite lookup_insert_ne.
Qed.

(** A code can be guessed [maxAttempts] times: after that many wrong
    guesses within the lifetime of a challenge, every further attempt, the right
    code included, is refused and changes nothing, and the guessing has touched
    neither the users nor any other challenge. *)
Theorem reset_attempts_exhaust s id maxAttempts c gs g :
  Store_passwordResets s !! id = Some c → PasswordResetChallenge_Attempts c = 0%Z →
  (maxAttempts < 2 ^ 63)%Z → (maxAttempts ≤ Z.of_nat (length gs))%Z →
  Forall (λ g, Guess_code g ≠ PasswordResetChallenge_CodeHash c ∧
               After (PasswordResetChallenge_ExpiresAt c) (Guess_clock g 0) = true) gs →
  let s' := guesses s id maxAttempts gs in
  guess s' id maxAttempts g = (s', Err ErrUnauthenticated) ∧
  Store_users s' = Store_users s ∧
  ∀ i, i ≠ id → Store_passwordResets s' !! i = Store_passwordResets s !! i.
Proof.
  intros Hc H0 Hmax Hlen Hall.
  destruct (guesses_wrong s id maxAttempts c gs Hc Hall) as (c' & Hc' & He & Hoth & Hus);
    [lia|lia|lia|].
  split_and!; [|done|done]. by eapply guess_exhausted.
Qed.
End guessing.

(** ** Completing a reset *)
Section completion.
Context `{GoRuntime}.
Implicit Types (s : Store) (id : UUID).

Lemma consume_ok s id code password maxAttempts mail fence clock s' completion :
  consumePasswordResetChallenge s id code password maxAttempts mail fence clock
    = (s', Ok completion) →
  ∃ c user delivery, Store_passwordResets s !! id = Some c ∧
    PasswordResetChallenge_ConsumedAt c = None ∧ PasswordResetChallenge_CodeHash c = code ∧
    (clock 0%nat < PasswordResetChallenge_ExpiresAt c)%Z ∧
    (PasswordResetChallenge_Attempts c < maxAttempts)%Z ∧
    Store_users s !! PasswordResetChallenge_UserID c = Some user ∧
    User_PasswordHash user ≠ "" ∧
    buildDelivery mail (User_Email user) MailDeliveryPasswordChanged id = Ok delivery ∧
    s' = applyReset s id user password (clock 0) delivery ∧
    completion = mkPasswordResetCompletion (User_ID user) (User_Email user).
Proof.
  unfold consumePasswordResetChallenge. intros Hc. op_cases Hc.
  eexists _, _, _. split_and!; try done.
  by apply eq_None_not_Some.
Qed.

Lemma consume_err s id code password maxAttempts mail fence clock s' e :
  consumePasswordResetChallenge s id code password maxAttempts mail fence clock = (s', Err e) →
  s' = s ∨ ∃ c, Store_passwordResets s !! id = Some c ∧
    PasswordResetChallenge_CodeHash c ≠ code ∧
    s' = s <| Store_passwordResets ::=
           <[id := c <| PasswordResetChallenge_Attempts ::= (λ n, int64_wrap (n + 1)) |>]> |>.
Proof.
  unfold consumePasswordResetChallenge. intros Hc. op_cases Hc; eauto.
Qed.

(** C34. A completed reset closes the account's old world in one step.  When
    a consume call succeeds, the code was right, the challenge open, unexpired and
    within its attempts; afterwards the account has the new password hash, none of
    its sessions is active at any later time, none of its devices has a push
    token, it has no open challenge, no pending mail still carries the code, and
    the sessions and devices of every other account are untouched. *)
Theorem reset_completion_effects s id code password maxAttempts mail fence clock s' completion :
  (∀ i u, Store_users s !! i = Some u → User_ID u = i) →
  consumePasswordResetChallenge s id code password maxAttempts mail fence clock
    = (s', Ok completion) →
  let userID := PasswordResetCompletion_UserID completion in
  (∃ c, Store_passwordResets s !! id = Some c ∧ PasswordResetChallenge_UserID c = userID ∧
     PasswordResetChallenge_CodeHash c = code ∧
     PasswordResetChallenge_ConsumedAt c = None ∧
     (clock 0%nat < PasswordResetChallenge_ExpiresAt c)%Z ∧
     (PasswordResetChallenge_Attempts c < maxAttempts)%Z) ∧
  (∃ u, Store_users s' !! userID = Some u ∧ User_PasswordHash u = password ∧
     User_Email u = PasswordResetCompletion_Email completion) ∧
  (∀ sid did c, SessionActive s' sid userID did c = false) ∧
  (∀ did d, Store_devices s' !! did = Some d → Device_UserID d = userID →
     Device_PushToken d = "") ∧
  (∀ i c, Store_passwordResets s' !! i = Some c → openFor userID c = false) ∧
  (∀ i d, Store_mailDeliveries s' !! i = Some d → MailDelivery_ChallengeID d = id →
     MailDelivery_Purpose d = MailDeliveryPasswordReset → pendingMail d = false) ∧
  (∀ sid se, Store_sessions s !! sid = Some se → Session_UserID se ≠ userID →
     Store_sessions s' !! sid = Some se) ∧
  (∀ did d, Store_devices s !! did = Some d → Device_UserID d ≠ userID →
     Store_devices s' !! did = Some d).
Proof.
  intros Hids Hc%consume_ok.
  destruct Hc as (c & user & delivery & Hlk & Hopen & Hcode & Hexp & Hatt & Hu & Hpw & Hb & -> & ->).
  assert (User_ID user = PasswordResetChallenge_UserID c) as Huid by eauto.
  assert (∀ s f, Store_sessions (putMail s f) = Store_sessions s ∧
    Store_devices (putMail s f) = Store_devices s ∧ Store_users (putMail s f) = Store_users s ∧
    Store_passwordResets (putMail s f) = Store_passwordResets s) as Hput by (by intros ? []).
  cbn [PasswordResetCompletion_UserID PasswordResetCompletion_Email].
  unfold applyReset. set (s1 := s <| Store_mailDeliveries ::= _ |> <| Store_users ::= _ |>
    <| Store_sessions ::= _ |> <| Store_devices ::= _ |> <| Store_passwordResets ::= _ |>).
  destruct (Hput s1 delivery) as (Hse & Hde & Hus & Hpr).
  unfold SessionActive. rewrite Hse, Hde, Hus, Hpr. split_and!.
  - exists c. auto 10.
  - exists (user <| User_PasswordHash := password |> <| User_UpdatedAt := clock 0 |>).
    split; [apply lookup_insert_eq|done].
  - intros sid did c'. unfold s1. cbn. rewrite lookup_fmap.
    destruct (Store_sessions s !! sid) as [se|]; [|done]. cbn. case_match; [|done].
    repeat case_bool_decide; cbn; try done. all: simplify_eq/=; try done.
  - intros did d. unfold s1. cbn. rewrite lookup_fmap_Some. intros (d0 & <- & Hd).
    repeat case_bool_decide; done.
  - intros i c'. unfold s1. cbn. rewrite lookup_fmap_Some. intros (c0 & <- & Hd).
    unfold closeFor. destruct (openFor (User_ID user) c0) eqn:Ho; [|done].
    unfold openFor in *. cbn. by rewrite andb_false_r.
  - intros i d Hd Hch Hpu.
    assert (∀ d, MailDelivery_Purpose d = MailDeliveryPasswordReset →
      Store_mailDeliveries s1 !! i = Some d → MailDelivery_ChallengeID d = id → pendingMail d = false)
      as Hgo.
    { clear. intros d Hp. unfold s1. cbn. rewrite lookup_fmap_Some. intros (d0 & <- & Hd).
      repeat case_bool_decide; cbn in *; try done. destruct (pendingMail d0) eqn:?; done. }
    destruct delivery as [dl|]; [|by eapply Hgo]. cbn in Hd.
    apply lookup_insert_Some in Hd as [[_ <-]|[_ Hd]]; [|by eapply Hgo].
    unfold buildDelivery in Hb. op_cases Hb. unfold validMailDelivery in *. bool_prop.
    by rewrite Hpu in *.
  - intros sid se Hs Hne. unfold s1. cbn. rewrite lookup_fmap, Hs. cbn.
    by rewrite bool_decide_false.
  - intros did d Hd Hne. unfold s1. cbn. rewrite lookup_fmap, Hd. cbn. by rewrite bool_decide_false.
Qed.
End completion.

(** ** Runs of the reset and mail operations *)

Inductive ResetOp :=
  | OpCreateReset (challenge : PasswordResetChallenge) (mail : option MailDeliveryBuilder)
      (clock : Clock)
  | OpCancelReset (id : UUID)
  | OpConsumeReset (id : UUID) (code password : string) (maxAttempts : Z)
      (mail : option MailDeliveryBuilder) (fence : option Fence) (clock : Clock)
  | OpLockMail (limit : Z) (leaseToken : UUID) (clock : Clock)
  | OpFinishMail (id leaseToken : UUID) (result : string) (next : Z) (errorClass : string)
      (clock : Clock)
  | OpPruneMail (deliveredBefore deadLetterBefore canceledBefore limit : Z).

Section runs.
Context `{GoRuntime}.
Implicit Types (s : Store) (id : UUID) (d : MailDelivery) (op : ResetOp).

Definition reset_step s op : Store :=
  match op with
  | OpCreateReset challenge mail clock => (createPasswordResetChallenge s challenge mail clock).1
  | OpCancelReset id => (CancelPasswordResetChallenge s id).1
  | OpConsumeReset id code password maxAttempts mail fence clock =>
    (consumePasswordResetChallenge s id code password maxAttempts mail fence clock).1
  | OpLockMail limit token clock => (LockMailDeliveryBatch s limit token clock).1
  | OpFinishMail id token result next errorClass clock =>
    (FinishMailDelivery s id token result next errorClass clock).1
  | OpPruneMail a b c limit => (PruneMailDeliveries s a b c limit).1
  end.

(** ** At most one open challenge *)

Definition one_open (resets : gmap UUID PasswordResetChallenge) : Prop :=
  ∀ userID i j c e, resets !! i = Some c → resets !! j = Some e →
    openFor userID c = true → openFor userID e = true → i = j.

(** A table whose open challenges are among those of another table. *)
Lemma one_open_sub resets resets' :
  one_open resets →
  (∀ userID i c, resets' !! i = Some c → openFor userID c = true →
     ∃ c0, resets !! i = Some c0 ∧ openFor userID c0 = true) → one_open resets'.
Proof.
  intros Hone Hsub userID i j c e Hc He Hoc Hoe.
  destruct (Hsub _ _ _ Hc Hoc) as (c0 & Hc0 & Hoc0).
  destruct (Hsub _ _ _ He Hoe) as (e0 & He0 & Hoe0). by eapply Hone.
Qed.

Lemma closeFor_open userID now userID' c :
  openFor userID' (closeFor userID now c) = true →
  openFor userID' c = true ∧ closeFor userID now c = c ∧ openFor userID c = false.
Proof.
  unfold closeFor. destruct (openFor userID c) eqn:Ho; [|done].
  unfold openFor. cbn. by rewrite andb_false_r.
Qed.

Lemma one_open_update resets id c c' :
  one_open resets → resets !! id = Some c →
  (∀ userID, openFor userID c' = true → openFor userID c = true) →
  one_open (<[id := c']> resets).
Proof.
  intros Hone Hc Ho. eapply one_open_sub; [exact Hone|]. intros userID i e He Hoe.
  apply lookup_insert_Some in He as [[<- <-]|[_ He]]; eauto.
Qed.

Lemma one_open_step s op :
  one_open (Store_passwordResets s) → one_open (Store_passwordResets (reset_step s op)).
Proof.
  intros Hone. destruct op; cbn [reset_step].
  - unfold createPasswordResetChallenge. destruct (Store_users s !! _); [|done].
    destruct (buildDelivery _ _ _ _) as [delivery|]; [|done]. cbv zeta. cbn [fst].
    assert (∀ s m, Store_passwordResets (putMail s m) = Store_passwordResets s) as ->
      by (by intros ? []). cbn.
    intros userID i j c e Hc He Hoc Hoe.
    assert (∀ i c, (closeFor (PasswordResetChallenge_UserID challenge) (clock 0)
        <$> Store_passwordResets s) !! i = Some c → openFor userID c = true →
      Store_passwordResets s !! i = Some c ∧
      userID ≠ PasswordResetChallenge_UserID challenge) as Hcl.
    { intros i' c' Hc' Ho. apply lookup_fmap_Some in Hc' as (c0 & <- & Hc0).
      apply closeFor_open in Ho as (Ho & -> & Hn). split; [done|]. by intros ->; congruence. }
    assert (openFor userID challenge = true → userID = PasswordResetChallenge_UserID challenge)
      as Hu by (unfold openFor; intros; by bool_prop).
    apply lookup_insert_Some in Hc as [[<- <-]|[Hi Hc]];
      apply lookup_insert_Some in He as [[<- <-]|[Hj He]]; [done|..].
    + by destruct (proj2 (Hcl _ _ He Hoe) (Hu Hoc)).
    + by destruct (proj2 (Hcl _ _ Hc Hoc) (Hu Hoe)).
    + destruct (Hcl _ _ Hc Hoc) as [Hc' _], (Hcl _ _ He Hoe) as [He' _].
      by apply (Hone userID i j c e).
  - cbn. eapply one_open_sub; [exact Hone|]. intros userID i c Hc.
    apply lookup_delete_Some in Hc as [_ Hc]. eauto.
  - destruct (consumePasswordResetChallenge _ _ _ _ _ _ _ _) as [s' [completion|e]] eqn:Hr; cbn.
    + apply consume_ok in Hr as (c & u & delivery & _ & _ & _ & _ & _ & _ & _ & _ & -> & _).
      unfold applyReset. destruct delivery; cbn; (eapply one_open_sub; [exact Hone|]);
        intros userID i e He Hoe; apply lookup_fmap_Some in He as (e0 & <- & He0);
        apply closeFor_open in Hoe as (? & _); eauto.
    + apply consume_err in Hr as [->|(c & Hc & _ & ->)]; [done|].
      eapply one_open_update; [done..|]. intros userID. done.
  - unfold LockMailDeliveryBatch. by case_match.
  - unfold FinishMailDelivery. repeat case_match; cbn; try done.
    eapply one_open_update; [done..|]. intros userID. unfold openFor. cbn.
    by rewrite andb_false_r.
  - unfold PruneMailDeliveries. by case_match.
Qed.

(** Runs interleaved with steps of other components on their own tables. *)
Inductive reset_reaches s : Store → Prop :=
  | reach_refl : reset_reaches s s
  | reach_op s1 op : reset_reaches s s1 → reset_reaches s (reset_step s1 op)
  | reach_other s1 s2 : reset_reaches s s1 →
      Store_passwordResets s2 = Store_passwordResets s1 →
      Store_mailDeliveries s2 = Store_mailDeliveries s1 → reset_reaches s s2.

(** An account never has two open reset challenges: in every state
    reached from an empty challenge table, at most one challenge of a user is
    unconsumed, so a new code always closes the old one. *)
Theorem single_open_challenge s0 s userID i j c e :
  Store_passwordResets s0 = ∅ → reset_reaches s0 s →
  Store_passwordResets s !! i = Some c → Store_passwordResets s !! j = Some e →
  openFor userID c = true → openFor userID e = true → i = j.
Proof.
  intros H0 Hrun. assert (one_open (Store_passwordResets s)) as Hone; [|by apply Hone].
  induction Hrun as [|s1 op _ IH|s1 s2 _ IH Hr _].
  - rewrite H0. intros ? ? ? ? ? Hc. by rewrite lookup_empty in Hc.
  - by apply one_open_step.
  - by rewrite Hr.
Qed.

(** ** Leases of mail rows *)

Definition mail_keys (mails : gmap UUID MailDelivery) : Prop :=
  ∀ i d, mails !! i = Some d → MailDelivery_ID d = i.

(** The rows a lock call leases, as they were before the call. *)
Lemma LockMail_spec s limit token clock s' batch :
  mail_keys (Store_mailDeliveries s) →
  LockMailDeliveryBatch s limit token clock = (s', Ok batch) →
  NoDup (MailDelivery_ID <$> batch) ∧
  (∀ d, d ∈ batch → ∃ d0, Store_mailDeliveries s !! MailDelivery_ID d = Some d0 ∧
     mailDue (clock 0) d0 = true ∧ d = leaseMail (clock 0) token d0 ∧
     Store_mailDeliveries s' !! MailDelivery_ID d = Some d) ∧
  (∀ i, i ∉ MailDelivery_ID <$> batch →
     Store_mailDeliveries s' !! i =
       (λ d, if inactiveMail s (clock 0) d
             then cancelMail (clock 0) "challenge_inactive" d else d)
       <$> Store_mailDeliveries s !! i).
Proof.
  intros Hkeys. unfold LockMailDeliveryBatch. destruct (_ || _); [done|]. cbv zeta.
  set (sweep := λ d, if inactiveMail s (clock 0) d then _ else d).
  set (s1 := s <| Store_mailDeliveries ::= _ |>). intros [= <- <-].
  assert (∀ d, MailDelivery_ID (sweep d) = MailDelivery_ID d) as Hsid
    by (intros d; unfold sweep; by case_match).
  assert (∀ i d, Store_mailDeliveries s1 !! i = Some d → MailDelivery_ID d = i) as Hkeys1.
  { intros i d. unfold s1. cbn. rewrite lookup_fmap_Some. intros (d0 & <- & Hd0).
    rewrite Hsid. by apply Hkeys. }
  set (cands := select _ _ _ _).
  assert (MailDelivery_ID <$> (leaseMail (clock 0) token <$> cands) = MailDelivery_ID <$> cands)
    as Hids by (by rewrite <- list_fmap_compose).
  assert (NoDup (MailDelivery_ID <$> (leaseMail (clock 0) token <$> cands))) as Hnd
    by (rewrite Hids; by apply NoDup_select).
  split_and!; [done| |].
  - intros d Hd. pose proof Hd as Hd'. apply list_elem_of_fmap in Hd as (d1 & -> & Hd1).
    apply (elem_of_select _ MailDelivery_ID Hkeys1) in Hd1 as [Hl Hmd].
    change (MailDelivery_ID (leaseMail _ _ d1)) with (MailDelivery_ID d1).
    unfold s1 in Hl. cbn in Hl. apply lookup_fmap_Some in Hl as (d0 & Hs0 & Hd0).
    assert (sweep d0 = d0) as Heq.
    { revert Hs0 Hmd. unfold sweep. case_match; [|done]. intros <-. done. }
    exists d0. rewrite Heq in Hs0. subst d1. split_and!; try done.
    cbn. by rewrite (lookup_insert_all MailDelivery_ID) with (x := leaseMail (clock 0) token d0).
  - intros i Hi. cbn. rewrite lookup_insert_all_ne by done. unfold s1. cbn. by rewrite lookup_fmap.
Qed.

Lemma FinishMail_spec s id token result next cls clock s' r :
  FinishMailDelivery s id token result next cls clock = (s', r) →
  (s' = s ∧ ∃ e, r = Err e) ∨
  ∃ d d', r = Ok tt ∧ Store_mailDeliveries s !! id = Some d ∧ pendingMail d = true ∧
    MailDelivery_LeaseToken d = token ∧ Store_mailDeliveries s' = <[id := d']> (Store_mailDeliveries s) ∧
    MailDelivery_ID d' = MailDelivery_ID d ∧ MailDelivery_Status d' = result.
Proof.
  unfold FinishMailDelivery. intros Hf. destruct (negb (mailResult result)); [by left; simplify_eq; eauto|].
  destruct (_ || _ || _); [by left; simplify_eq; eauto|].
  destruct (Store_mailDeliveries s !! id) as [d|] eqn:Hd; [|by left; simplify_eq; eauto].
  destruct (_ || _) eqn:Hg; [by left; simplify_eq; eauto|]. bool_prop. right. exists d.
  repeat case_bool_decide; simplify_eq;
    (eexists; split_and!; [done..|first [reflexivity|cbn; repeat case_match; reflexivity]|done|done]).
Qed.

(** The fate of the row [id] in one step that nobody takes with the token [token]:
    it stays, is canceled, or is removed.  [uuid.New] never returns [id] again. *)
Definition foreign_op (id token : UUID) op : Prop :=
  match op with
  | OpCreateReset _ (Some build) _ | OpConsumeReset _ _ _ _ (Some build) _ _ =>
    ∀ email d, build email = Ok d → MailDelivery_ID d ≠ id
  | OpFinishMail id' token' _ _ _ _ => (id', token') ≠ (id, token)
  | _ => True
  end.

(** Locks happen before the time [until]. *)
Definition before_lock (until : Z) op : Prop :=
  match op with OpLockMail _ _ clock => (clock 0%nat < until)%Z | _ => True end.

Definition row_kept (d : MailDelivery) (row : option MailDelivery) : Prop :=
  match row with Some d' => d' = d ∨ pendingMail d' = false | None => True end.

Lemma buildDelivery_id mail email purpose challengeID d id :
  buildDelivery mail email purpose challengeID = Ok (Some d) →
  (∀ build, mail = Some build → ∀ email d, build email = Ok d → MailDelivery_ID d ≠ id) →
  MailDelivery_ID d ≠ id ∧ MailDelivery_ChallengeID d = challengeID ∧ MailDelivery_Purpose d = purpose.
Proof.
  unfold buildDelivery. intros Hb Hid. destruct mail as [build|]; [|done].
  destruct (build email) eqn:He; [|done]. destruct (negb _) eqn:Hv; [done|]. simplify_eq.
  unfold validMailDelivery in Hv. bool_prop. eauto.
Qed.

Lemma row_kept_putMail s mail email purpose challengeID m d id :
  buildDelivery mail email purpose challengeID = Ok m →
  (∀ build, mail = Some build → ∀ email d, build email = Ok d → MailDelivery_ID d ≠ id) →
  row_kept d (Store_mailDeliveries s !! id) → row_kept d (Store_mailDeliveries (putMail s m) !! id).
Proof.
  intros Hb Hid Hrow. destruct m as [m|]; [|done].
  destruct (buildDelivery_id _ _ _ _ _ _ Hb Hid) as (Hne & _ & _). cbn.
  by rewrite lookup_insert_ne.
Qed.

Lemma row_kept_cancel d (row : option MailDelivery) (test : MailDelivery → bool) now cls :
  row_kept d row →
  row_kept d ((λ d, if test d then cancelMail now cls d else d) <$> row).
Proof. destruct row as [d'|]; [|done]. cbn. by case_match; [right|]. Qed.

Lemma mail_keys_step s op :
  mail_keys (Store_mailDeliveries s) → mail_keys (Store_mailDeliveries (reset_step s op)).
Proof.
  intros Hk.
  assert (∀ f : MailDelivery → MailDelivery, (∀ d, MailDelivery_ID (f d) = MailDelivery_ID d) →
    mail_keys (f <$> Store_mailDeliveries s)) as Hmap.
  { intros f Hf i d. rewrite lookup_fmap_Some. intros (d0 & <- & Hd). rewrite Hf. by apply Hk. }
  assert (∀ s' m, mail_keys (Store_mailDeliveries s') → mail_keys (Store_mailDeliveries (putMail s' m)))
    as Hput.
  { intros s' [m|] Hs'; [|done]. cbn. intros i d [[<- <-]|[_ Hd]]%lookup_insert_Some; eauto. }
  destruct op; cbn [reset_step].
  - unfold createPasswordResetChallenge. repeat (case_match; [|done]). cbv zeta. apply Hput. cbn.
    apply Hmap. intros d. by case_match.
  - cbn. intros i d [Hd _]%map_lookup_filter_Some. by apply Hk.
  - destruct (consumePasswordResetChallenge _ _ _ _ _ _ _ _) as [s' [completion|e]] eqn:Hr; cbn.
    + apply consume_ok in Hr as (c & u & delivery & _ & _ & _ & _ & _ & _ & _ & _ & -> & _).
      apply Hput. cbn. apply Hmap. intros d. by case_match.
    + by apply consume_err in Hr as [->|(c & Hc & _ & ->)].
  - destruct (LockMailDeliveryBatch s limit leaseToken clock) as [s' [batch|e]] eqn:Hl; cbn.
    + apply LockMail_spec in Hl as (_ & Hb & Ho); [|done]. intros i d Hd.
      destruct (decide (i ∈ (MailDelivery_ID <$> batch))) as [Hi|Hi].
      * apply list_elem_of_fmap in Hi as (d' & -> & Hd').
        destruct (Hb _ Hd') as (_ & _ & _ & _ & Heq). congruence.
      * rewrite Ho in Hd by done. apply fmap_Some in Hd as (d0 & Hd0 & ->).
        case_match; cbn; by apply Hk.
    + unfold LockMailDeliveryBatch in Hl. by op_cases Hl.
  - destruct (FinishMailDelivery _ _ _ _ _ _ _) as [s' r] eqn:Hf.
    apply FinishMail_spec in Hf as [[-> _]|(d & d' & _ & Hd & _ & _ & Heq & Hid & _)]; [done|].
    cbn. rewrite Heq. intros i e [[<- <-]|[_ He]]%lookup_insert_Some; [rewrite Hid|]; eauto.
  - unfold PruneMailDeliveries. case_match; [done|]. cbn. intros i d Hd.
    rewrite lookup_delete_all in Hd. case_match; [done|]. by apply Hk.
Qed.

Lemma row_kept_step s op id d :
  mail_keys (Store_mailDeliveries s) → row_kept d (Store_mailDeliveries s !! id) →
  foreign_op id (MailDelivery_LeaseToken d) op →
  (pendingMail d = true → before_lock (MailDelivery_LockedUntil d) op ∧
     MailDelivery_LockedUntil d ≠ 0%Z) →
  row_kept d (Store_mailDeliveries (reset_step s op) !! id).
Proof.
  intros Hk Hrow Hop Hlock. destruct op; cbn [reset_step foreign_op before_lock] in *.
  - unfold createPasswordResetChallenge. destruct (Store_users s !! _); [|done].
    destruct (buildDelivery _ _ _ _) as [m|] eqn:Hb; [|done]. cbv zeta. cbn [fst].
    eapply row_kept_putMail; [exact Hb|by intros build ->|]. cbn. rewrite lookup_fmap.
    by apply row_kept_cancel.
  - cbn. destruct (base.filter _ _ !! id) as [d'|] eqn:Hd; [|done].
    apply map_lookup_filter_Some in Hd as [Hd _]. by rewrite Hd in Hrow.
  - destruct (consumePasswordResetChallenge _ _ _ _ _ _ _ _) as [s' [completion|e]] eqn:Hr; cbn.
    + apply consume_ok in Hr as (c & u & m & _ & _ & _ & _ & _ & _ & _ & Hb & -> & _).
      unfold applyReset. eapply row_kept_putMail; [exact Hb|by intros build ->|]. cbn.
      rewrite lookup_fmap. by apply row_kept_cancel.
    + by apply consume_err in Hr as [->|(c & Hc & _ & ->)].
  - destruct (LockMailDeliveryBatch s limit leaseToken clock) as [s' [batch|e]] eqn:Hl; cbn.
    2: { unfold LockMailDeliveryBatch in Hl. by op_cases Hl. }
    apply LockMail_spec in Hl as (_ & Hb & Ho); [|done].
    destruct (decide (id ∈ (MailDelivery_ID <$> batch))) as [Hi|Hi];
      [|rewrite Ho by done; by apply row_kept_cancel].
    apply list_elem_of_fmap in Hi as (d' & -> & Hd').
    destruct (Hb _ Hd') as (d0 & Hd0 & Hdue & _ & _). rewrite Hd0 in Hrow. exfalso.
    unfold mailDue in Hdue. bool_prop. destruct Hrow as [->|Hrow]; [|congruence].
    destruct Hlock as [Hbefore Hnz]; [done|].
    match goal with Hz : negb (IsZero _) && _ = false |- _ => apply andb_false_iff in Hz as [Hz|Hz] end;
      bool_prop; [done|lia].
  - destruct (FinishMailDelivery _ _ _ _ _ _ _) as [s' r] eqn:Hf.
    apply FinishMail_spec in Hf as [[-> _]|(e & e' & _ & He & Hp & Htok & Heq & _ & _)]; [done|].
    cbn. rewrite Heq. destruct (decide (id = id0)) as [->|Hne]; [|by rewrite lookup_insert_ne].
    rewrite He in Hrow. destruct Hrow as [->|Hrow]; congruence.
  - unfold PruneMailDeliveries. case_match; [done|]. cbn. rewrite lookup_delete_all. by case_match.
Qed.

(** A stretch of the run by everybody but the holder of the lease. *)
Inductive foreign_run (id token : UUID) (until : Z) s : Store → Prop :=
  | foreign_refl : foreign_run id token until s s
  | foreign_step s1 op : foreign_run id token until s s1 → foreign_op id token op →
      before_lock until op → foreign_run id token until s (reset_step s1 op)
  | foreign_other s1 s2 : foreign_run id token until s s1 →
      Store_mailDeliveries s2 = Store_mailDeliveries s1 → foreign_run id token until s s2.

Lemma locked_not_due until now d :
  MailDelivery_LockedUntil d = until → until ≠ 0%Z → (now < until)%Z → mailDue now d = false.
Proof.
  intros Hl Hnz Hlt. unfold mailDue. rewrite Hl.
  assert (IsZero until = false) as -> by (by apply Z.eqb_neq).
  assert (After until now = true) as -> by (by apply After_spec). by rewrite andb_false_r.
Qed.

(** A mail row is leased to one worker.  Once a lock call has
    returned the row [d], then until the lease runs out, whatever the others do
    (anything but finishing this row with this token): the row stays as leased
    unless it is canceled or removed, no lock call returns it again, and the
    holder's own report is accepted as long as the row is still there. *)
Theorem mail_lease_exclusive s limit token clock s1 batch d s2 :
  mail_keys (Store_mailDeliveries s) → (0 ≤ clock 0%nat)%Z →
  LockMailDeliveryBatch s limit token clock = (s1, Ok batch) → d ∈ batch →
  foreign_run (MailDelivery_ID d) token (MailDelivery_LockedUntil d) s1 s2 →
  row_kept d (Store_mailDeliveries s2 !! MailDelivery_ID d) ∧
  (∀ limit' token' clock' s3 batch', (clock' 0%nat < MailDelivery_LockedUntil d)%Z →
     LockMailDeliveryBatch s2 limit' token' clock' = (s3, Ok batch') →
     ¬ MailDelivery_ID d ∈ (MailDelivery_ID <$> batch')) ∧
  (∀ result next cls clock', token ≠ uuid_Nil → MailDelivery_ID d ≠ uuid_Nil →
     mailResult result = true → validMailErrorClass cls = true →
     Store_mailDeliveries s2 !! MailDelivery_ID d = Some d →
     (FinishMailDelivery s2 (MailDelivery_ID d) token result next cls clock').2 = Ok tt).
Proof.
  intros Hk H0 Hl Hd Hrun.
  assert (mail_keys (Store_mailDeliveries s1)) as Hk1.
  { pose proof (mail_keys_step s (OpLockMail limit token clock) Hk) as Hk1. cbn in Hk1.
    by rewrite Hl in Hk1. }
  destruct (LockMail_spec _ _ _ _ _ _ Hk Hl) as (_ & Hb & _).
  destruct (Hb d Hd) as (d0 & Hd0 & Hdue & Hlease & Hrow).
  assert (pendingMail d = true) as Hpend.
  { subst d. unfold mailDue in Hdue. by bool_prop. }
  assert (MailDelivery_LeaseToken d = token) as Htok by (by subst d).
  assert (MailDelivery_LockedUntil d ≠ 0%Z) as Hnz.
  { subst d. cbn. unfold mailDeliveryLease, Minute, Second. lia. }
  assert (mail_keys (Store_mailDeliveries s2) ∧
    row_kept d (Store_mailDeliveries s2 !! MailDelivery_ID d)) as [Hk2 Hrow2].
  { clear -Hrun Hk1 Hrow Htok Hnz. induction Hrun as [|s1' op _ [IHk IH] Hop Hbl|s1' s2' _ [IHk IH] Heq].
    - rewrite Hrow. split; [done|by left].
    - split; [by apply mail_keys_step|]. apply row_kept_step; [done|done| |done]. by rewrite Htok.
    - by rewrite Heq. }
  split_and!; [done| |].
  - intros limit' token' clock' s3 batch' Hlt Hl' Hin.
    apply list_elem_of_fmap in Hin as (d' & Hid & Hd').
    destruct (LockMail_spec _ _ _ _ _ _ Hk2 Hl') as (_ & Hb' & _).
    destruct (Hb' d' Hd') as (e & He & Hdue' & _ & _). rewrite <- Hid in He. rewrite He in Hrow2.
    destruct Hrow2 as [->|Hnp]; [|by unfold mailDue in Hdue'; rewrite Hnp in Hdue'].
    by erewrite locked_not_due in Hdue'.
  - intros result next cls clock' Hnt Hni Hres Hcls Hlk. unfold FinishMailDelivery.
    rewrite Hres, Hcls, Hlk, Hpend, Htok, !bool_decide_false by done. cbn.
    rewrite bool_decide_true by done. cbn. by repeat case_match.
Qed.

(** A finished mail row never goes out again: from the moment a row
    is delivered, dead-lettered or canceled, in every later state it is gone or
    still finished, no lock call returns it, and the callback that would send it
    is not invoked for any token. *)
Theorem finished_mail_stays_finished s d s2 :
  let id := MailDelivery_ID d in
  mail_keys (Store_mailDeliveries s) → Store_mailDeliveries s !! id = Some d →
  pendingMail d = false →
  rtc (λ s s', (∃ op, s' = reset_step s op ∧ ∀ token, match op with OpFinishMail _ _ _ _ _ _ => True
                       | _ => foreign_op id token op end)
               ∨ Store_mailDeliveries s' = Store_mailDeliveries s) s s2 →
  (∀ d', Store_mailDeliveries s2 !! id = Some d' → pendingMail d' = false) ∧
  (∀ limit token clock s3 batch, LockMailDeliveryBatch s2 limit token clock = (s3, Ok batch) →
     ¬ id ∈ (MailDelivery_ID <$> batch)) ∧
  (∀ token ctxErr, ∃ e, ∀ (L : Type) (l : L) deliver,
     WithMailDeliveryLease (λ e, e) s2 l id token ctxErr (Some deliver) = (l, Some e)).
Proof.
  intros id Hk Hrow Hfin Hrun.
  assert (mail_keys (Store_mailDeliveries s2) ∧ row_kept d (Store_mailDeliveries s2 !! id))
    as [Hk2 Hrow2].
  { assert (row_kept d (Store_mailDeliveries s !! id)) as Hr by (rewrite Hrow; by left).
    clear Hrow. induction Hrun as [|s s1 s2 [(op & -> & Hop)|Heq] _ IH]; [done|..].
    - apply IH; [by apply mail_keys_step|].
      destruct (match op with OpFinishMail _ _ _ _ _ _ => true | _ => false end) eqn:Ho.
      + destruct op; try done. cbn.
        destruct (FinishMailDelivery _ _ _ _ _ _ _) as [s' r] eqn:Hf.
        apply FinishMail_spec in Hf as [[-> _]|(e & e' & _ & He & Hp & _ & Hq & _ & _)]; [done|].
        cbn. rewrite Hq. destruct (decide (id = id0)) as [Hi|Hne]; [|by rewrite lookup_insert_ne].
        rewrite Hi, He in Hr. destruct Hr as [->|]; congruence.
      + apply row_kept_step; [done|done| |congruence].
        specialize (Hop (MailDelivery_LeaseToken d)). by destruct op.
    - apply IH; by rewrite Heq. }
  assert (∀ d', Store_mailDeliveries s2 !! id = Some d' → pendingMail d' = false) as Hnp.
  { intros d' Hd'. rewrite Hd' in Hrow2. by destruct Hrow2 as [->|]. }
  split_and!; [done| |].
  - intros limit token clock s3 batch Hl Hin. apply list_elem_of_fmap in Hin as (d' & Hid & Hd').
    destruct (LockMail_spec _ _ _ _ _ _ Hk2 Hl) as (_ & Hb & _).
    destruct (Hb d' Hd') as (e & He & Hdue & _ & _). rewrite <- Hid in He.
    unfold mailDue in Hdue. by rewrite (Hnp e He) in Hdue.
  - intros token ctxErr. unfold WithMailDeliveryLease. destruct (_ || _); [by eexists|].
    destruct ctxErr; [by eexists|].
    destruct (Store_mailDeliveries s2 !! id) as [e|] eqn:He; [|by eexists].
    rewrite (Hnp e eq_refl). by eexists.
Qed.
End runs.

(** ** Concrete runs *)
Section witnesses.
#[local] Existing Instance Reference.runtime.

Definition at_time (t : Z) : Clock := λ i, (t + Z.of_nat i)%Z.
Definition reset_user : User :=
  mkUser (uuid_of_N 1) "ada@example.com" "" "Ada" "" RawNil "old" 1 1.
Definition reset_device : Device :=
  mkDevice (uuid_of_N 2) (uuid_of_N 1) "phone" "ios" "abcd" "" RawNil 1 1.
Definition reset_session : Session :=
  mkSession (uuid_of_N 3) (uuid_of_N 1) (uuid_of_N 2) "token" "" 1000 None 1.
Definition reset_challenge : PasswordResetChallenge :=
  mkPasswordResetChallenge (uuid_of_N 4) (uuid_of_N 1) "code" 0 500 None 10.
Definition reset_mail (id : N) (purpose : string) : MailDelivery :=
  mkMailDelivery (uuid_of_N id) (uuid_of_N 4) purpose "a ciphertext of at least 29 bytes"
    "pending" 0 10 uuid_Nil 0 10 None None None "".

Definition reset_store : Store :=
  New <| Store_users ::= <[uuid_of_N 1 := reset_user]> |>
      <| Store_devices ::= <[uuid_of_N 2 := reset_device]> |>
      <| Store_sessions ::= <[uuid_of_N 3 := reset_session]> |>.
Definition challenged : Store :=
  reset_step reset_store (OpCreateReset reset_challenge
    (Some (λ _, Ok (reset_mail 5 "password_reset"))) (at_time 10)).
Definition wrong_guess : Guess := mkGuess "guess" "new" None None (at_time 20).
Definition right_guess : Guess := mkGuess "code" "new" None None (at_time 30).

Lemma reset_attempts_exhaust_witness :
  let s' := guesses challenged (uuid_of_N 4) 2 [wrong_guess; wrong_guess] in
  guess s' (uuid_of_N 4) 2 right_guess = (s', Err ErrUnauthenticated).
Proof.
  refine (proj1 (reset_attempts_exhaust challenged (uuid_of_N 4) 2 reset_challenge
    [wrong_guess; wrong_guess] right_guess _ _ _ _ _)).
  - vm_compute. reflexivity.
  - reflexivity.
  - lia.
  - vm_compute. discriminate.
  - repeat constructor; vm_compute; done.
Defined.

Definition completed : Store :=
  (guess challenged (uuid_of_N 4) 2 right_guess).1.

Lemma reset_completion_effects_witness :
  SessionActive completed (uuid_of_N 3) (uuid_of_N 1) (uuid_of_N 2) (at_time 40) = false.
Proof.
  refine (proj1 (proj2 (proj2 (reset_completion_effects challenged (uuid_of_N 4) "code" "new" 2
    None None (at_time 30) completed
    (mkPasswordResetCompletion (uuid_of_N 1) "ada@example.com") _ _))) _ _ _).
  - intros i u Hu.
    change (<[uuid_of_N 1 := reset_user]> (∅ : gmap UUID User) !! i = Some u) in Hu.
    apply lookup_insert_Some in Hu as [[<- <-]|[_ Hu]]; [reflexivity|].
    by rewrite lookup_empty in Hu.
  - apply pair_run. vm_compute. reflexivity.
Defined.

Lemma single_open_challenge_witness :
  ∃ c, Store_passwordResets challenged !! uuid_of_N 4 = Some c ∧
    (∀ j e, Store_passwordResets challenged !! j = Some e →
      openFor (uuid_of_N 1) e = true → uuid_of_N 4 = j).
Proof.
  exists reset_challenge. split; [vm_compute; reflexivity|]. intros j e He Ho.
  apply (single_open_challenge reset_store challenged (uuid_of_N 1) (uuid_of_N 4) j reset_challenge e).
  - reflexivity.
  - apply reach_op, reach_refl.
  - vm_compute. reflexivity.
  - exact He.
  - vm_compute. reflexivity.
  - exact Ho.
Defined.

Lemma challenged_keys : mail_keys (Store_mailDeliveries challenged).
Proof.
  apply mail_keys_step. intros i d Hd. change ((∅ : gmap UUID MailDelivery) !! i = Some d) in Hd.
  by rewrite lookup_empty in Hd.
Qed.

Definition leased : MailDelivery := leaseMail 40 (uuid_of_N 9) (reset_mail 5 "password_reset").
Definition locked : Store := reset_step challenged (OpLockMail 10 (uuid_of_N 9) (at_time 40)).

Lemma mail_lease_exclusive_witness :
  ¬ uuid_of_N 5 ∈ (MailDelivery_ID <$>
      match (LockMailDeliveryBatch locked 10 (uuid_of_N 8) (at_time 50)).2 with
      | Ok batch => batch | Err _ => [] end).
Proof.
  destruct (mail_lease_exclusive challenged 10 (uuid_of_N 9) (at_time 40) locked [leased] leased locked)
    as (_ & Hno & _).
  - exact challenged_keys.
  - vm_compute. discriminate.
  - apply pair_run. vm_compute. reflexivity.
  - left.
  - apply foreign_refl.
  - refine (Hno 10%Z (uuid_of_N 8) (at_time 50) _ _ _ (pair_run _ _ _)).
    + vm_compute. reflexivity.
    + vm_compute. reflexivity.
Defined.

Definition finished : Store :=
  reset_step locked (OpFinishMail (uuid_of_N 5) (uuid_of_N 9) "delivered" 0 "" (at_time 60)).
Definition finished_mail : MailDelivery :=
  leased <| MailDelivery_Status := "delivered" |> <| MailDelivery_LeaseToken := uuid_Nil |>
    <| MailDelivery_LockedUntil := 0%Z |> <| MailDelivery_DeliveredAt := Some 60%Z |>.

Lemma finished_mail_stays_finished_witness :
  ∃ e, ∀ (L : Type) (l : L) deliver,
    WithMailDeliveryLease (λ e, e) finished l (uuid_of_N 5) (uuid_of_N 9) None (Some deliver) = (l, Some e).
Proof.
  refine (proj2 (proj2 (finished_mail_stays_finished finished finished_mail finished _ _ _ _)) (uuid_of_N 9) None).
  - apply mail_keys_step, mail_keys_step, challenged_keys.
  - vm_compute. reflexivity.
  - vm_compute. reflexivity.
  - apply rtc_refl.
Defined.
End witnesses.
