(* ===== verification/Projection.v ===== *)
(** * The member list inside conversation metadata

    [src/internal/store/member_projection.go].  Group metadata is a JSON document
    the client writes; its ["members"] array is always rebuilt from the store's own
    member table.  A member also has a local id, the identifier historical payloads
    use: it is chosen once, from the metadata when that is unambiguous.

    The document is kept at the level of decoded values; [json.Marshal] of decoded
    values does not fail, so the projection returns its document directly. *)

From Stdlib Require Import ZArith Lia Ascii.
From S2P Require Import Prelude.
From S2P Require Import Runtime.
From S2P Require Import Domain.
From S2P Require Import Compliance.
From S2P Require Import StoreState.

Record ConversationMemberLocalID := mkConversationMemberLocalID {
  ConversationMemberLocalID_UserID : UUID; ConversationMemberLocalID_LocalID : UUID }.

Record PublicUser := mkPublicUser {
  PublicUser_ID : UUID; PublicUser_MatchedPhone : string; PublicUser_DisplayName : string;
  PublicUser_AvatarURL : string; PublicUser_Profile : RawMessage; PublicUser_CreatedAt : Z;
  PublicUser_UpdatedAt : Z }.
Definition eta_PublicUser (r : PublicUser) : PublicUser :=
  mkPublicUser (PublicUser_ID r) (PublicUser_MatchedPhone r) (PublicUser_DisplayName r)
  (PublicUser_AvatarURL r) (PublicUser_Profile r) (PublicUser_CreatedAt r) (PublicUser_UpdatedAt r).
#[export] Instance set_PublicUser_MatchedPhone : Setter PublicUser_MatchedPhone :=
  ltac:(field_setter eta_PublicUser PublicUser_MatchedPhone).

Definition defaultMemberAvatarColor : string := "#4A6CF7".
Definition DeletedUserDisplayName : string := "Deleted user".

Section projection.
Context `{GoRuntime}.
Implicit Types (metadata : RawMessage) (m : ConversationMember) (user : User).

(** ** Public identity *)

Definition ConversationMemberWithPublicIdentity m user : ConversationMember :=
  let field name := TrimSpace (decode_string_field name (User_Profile user)) in
  let displayName := TrimSpace (User_DisplayName user) in
  let avatarURL := TrimSpace (User_AvatarURL user) in
  m <| ConversationMember_DisplayName :=
         if bool_decide (displayName = "") then field "display_name" else displayName |>
    <| ConversationMember_Username := field "username" |>
    <| ConversationMember_Bio := field "bio" |>
    <| ConversationMember_AvatarURL :=
         if bool_decide (avatarURL = "") then field "profile_image_url" else avatarURL |>
    <| ConversationMember_AvatarColor := field "avatar_color" |>.

(** The view of an account other people may see; [MatchedPhone] repeats the number a lookup
    was made with. *)
Definition omitEmpty (value : string) : JSON :=
  if bool_decide (TrimSpace value = "") then JNull else JStr (TrimSpace value).

Definition is_null (v : JSON) : bool := match v with JNull => true | _ => false end.

Definition compactJSONObject (raw : RawMessage) : RawMessage :=
  match unmarshal_map raw with
  | None => Raw (JObj [])
  | Some None => Raw JNull
  | Some (Some object) => marshal_map (filter (λ kv, is_null kv.2 = false) object)
  end.

Definition PublicUserFromUser user (includePhone : bool) : PublicUser :=
  let field name := decode_string_field name (User_Profile user) in
  let publicProfile := marshal_map (
    <["display_name" := omitEmpty (field "display_name")]> (
    <["avatar_color" := omitEmpty (field "avatar_color")]> (
    <["username" := omitEmpty (field "username")]> (
    <["bio" := omitEmpty (field "bio")]> (
    <["profile_image_url" := omitEmpty (field "profile_image_url")]> (∅ : gmap string JSON)))))) in
  let displayName := TrimSpace (User_DisplayName user) in
  let avatarURL := TrimSpace (User_AvatarURL user) in
  mkPublicUser (User_ID user) (if includePhone then User_Phone user else "")
    (if bool_decide (displayName = "") then TrimSpace (field "display_name") else displayName)
    (if bool_decide (avatarURL = "") then TrimSpace (field "profile_image_url") else avatarURL)
    (compactJSONObject publicProfile) (User_CreatedAt user) (User_UpdatedAt user).

Definition boundedString (value : string) (maximum : Z) : string :=
  let value := TrimSpace value in
  if bool_decide (value = "") || (maximum <? strlen value)%Z then "" else value.

Definition hex_char (c : ascii) : bool :=
  let n := N_of_ascii c in
  ((48 <=? n)%N && (n <=? 57)%N) || ((97 <=? n)%N && (n <=? 102)%N)
  || ((65 <=? n)%N && (n <=? 70)%N).

Definition normalizedAvatarColor (value : string) : string :=
  let value := TrimSpace value in
  match value with
  | String c digits =>
    if negb (strlen value =? 7)%Z || negb (bool_decide (c = "#"%char))
    then defaultMemberAvatarColor
    else if forallb hex_char (String.list_ascii_of_string digits) then value
    else defaultMemberAvatarColor
  | EmptyString => defaultMemberAvatarColor
  end.

(** ** Reading member objects *)

Definition separator_char (c : ascii) : bool :=
  bool_decide (c = "_"%char) || bool_decide (c = "-"%char) || bool_decide (c = "."%char).

Definition normalizeJSONKey (key : string) : string :=
  ToLower (String.string_of_list_ascii
    (List.filter (λ c, negb (separator_char c)) (String.list_ascii_of_string key))).

(** The values whose key normalizes to [wanted], in iteration order. *)
Definition fieldsNamed (object : gmap string JSON) (wanted : string) : list JSON :=
  omap (λ '(k, v), if bool_decide (normalizeJSONKey k = wanted) then Some v else None)
    (range object).

(** A present and valid backend id, or whether one is present at all. *)
Inductive IdField := FieldAbsent | FieldInvalid | FieldID (id : UUID).

Definition memberBackendUserID (object : gmap string JSON) : IdField :=
  match fieldsNamed object "backenduserid" with
  | [] => FieldAbsent
  | [JStr value] =>
    match uuid_Parse (TrimSpace value) with
    | Some id => if bool_decide (id = uuid_Nil) then FieldInvalid else FieldID id
    | None => FieldInvalid
    end
  | _ => FieldInvalid
  end.

(** The text of the only field named [wanted]; [None] when absent or ambiguous. *)
Definition uniqueStringField (object : gmap string JSON) (wanted : string) : option string :=
  match fieldsNamed object (normalizeJSONKey wanted) with
  | [JStr value] => Some (TrimSpace value)
  | [JNull] => Some (TrimSpace "")
  | _ => None
  end.

(** The local id a member object proposes. *)
Definition proposedLocalID (object : gmap string JSON) : option UUID :=
  local ← uniqueStringField object "id";
  localID ← uuid_Parse local;
  if bool_decide (localID = uuid_Nil) then None else Some localID.

(** ** Local ids *)

(** [result], [invalid] and [localOwners] of [metadataLocalIDCandidates]. *)
Record Candidates := mkCandidates {
  Candidates_result : gmap UUID UUID; Candidates_invalid : gset UUID;
  Candidates_owners : gmap UUID UUID }.

Definition addCandidate (active : gset UUID) (c : Candidates) (raw : JSON) : Candidates :=
  match json_object raw with
  | None => c
  | Some object =>
    match memberBackendUserID object with
    | FieldAbsent | FieldInvalid => c
    | FieldID backendID =>
      if negb (bool_decide (backendID ∈ active)) then c
      else
        match proposedLocalID object with
        | None => c
        | Some localID =>
          let invalid :=
            match Candidates_result c !! backendID with
            | Some prior => if negb (bool_decide (prior = localID))
                            then {[ backendID ]} ∪ Candidates_invalid c
                            else Candidates_invalid c
            | None => Candidates_invalid c
            end in
          let result := <[backendID := localID]> (Candidates_result c) in
          match Candidates_owners c !! localID with
          | Some owner =>
            if negb (bool_decide (owner = backendID))
            then mkCandidates result ({[ owner ]} ∪ ({[ backendID ]} ∪ invalid)) (Candidates_owners c)
            else mkCandidates result invalid (<[localID := backendID]> (Candidates_owners c))
          | None => mkCandidates result invalid (<[localID := backendID]> (Candidates_owners c))
          end
        end
    end
  end.

Definition metadataLocalIDCandidates metadata (active : gset UUID) : gmap UUID UUID :=
  match raw_object metadata with
  | None => ∅
  | Some root =>
    match json_array (root !! "members") with
    | None => ∅
    | Some rawMembers =>
      let c := foldl (addCandidate active) (mkCandidates ∅ ∅ ∅) rawMembers in
      base.filter (λ kv : UUID * UUID, kv.1 ∉ Candidates_invalid c) (Candidates_result c)
    end
  end.

Definition memberLocalName (userID : UUID) (attempt : nat) : string :=
  "member-local:" +:+ uuid_String userID +:+ ":" +:+ pretty attempt.

(** The collision loop [for attempt := 0; ; attempt++].  Every turn that goes on
    has found one more used identifier, so [size used + 1] turns reach the exit
    ([freshLocalID_exits]); out of fuel, the last candidate is returned. *)
Fixpoint freshLocalID_loop (fuel attempt : nat) (used : gmap UUID UUID)
    (conversationID userID localID : UUID) : UUID :=
  match used !! localID with
  | None => localID
  | Some owner =>
    if bool_decide (owner = userID) then localID
    else
      match fuel with
      | O => localID
      | S fuel =>
        freshLocalID_loop fuel (S attempt) used conversationID userID
          (uuid_NewSHA1 conversationID (memberLocalName userID attempt))
      end
  end.

Definition freshLocalID (used : gmap UUID UUID) (conversationID userID localID : UUID) : UUID :=
  freshLocalID_loop (size used + 1) 0 used conversationID userID localID.

(** [result] and [used] of [DeriveConversationMemberLocalIDs]. *)
Record LocalIDs := mkLocalIDs { LocalIDs_result : gmap UUID UUID; LocalIDs_used : gmap UUID UUID }.

(** [owner, ok := m[k]; ok && owner != v] *)
Definition mappedElsewhere (l : gmap UUID UUID) (k v : UUID) : bool :=
  match l !! k with Some owner => negb (bool_decide (owner = v)) | None => false end.

Definition addExisting (active : gset UUID) (l : LocalIDs) (mapping : ConversationMemberLocalID) :
    LocalIDs :=
  let userID := ConversationMemberLocalID_UserID mapping in
  let localID := ConversationMemberLocalID_LocalID mapping in
  if bool_decide (userID = uuid_Nil) || bool_decide (localID = uuid_Nil) then l
  else if mappedElsewhere (LocalIDs_used l) localID userID then l
  else
    mkLocalIDs
      (if bool_decide (userID ∈ active) then <[userID := localID]> (LocalIDs_result l)
       else LocalIDs_result l)
      (<[localID := userID]> (LocalIDs_used l)).

(** The proposal of the metadata, unless it collides. *)
Definition initialLocalID (active : gset UUID) (candidates used : gmap UUID UUID)
    (userID : UUID) : UUID :=
  let localID := default uuid_Nil (candidates !! userID) in
  let localID :=
    if negb (bool_decide (localID = uuid_Nil)) then
      let localID := if mappedElsewhere used localID userID then uuid_Nil else localID in
      if bool_decide (localID ∈ active) && negb (bool_decide (localID = userID))
      then uuid_Nil else localID
    else localID in
  if bool_decide (localID = uuid_Nil) then userID else localID.

Definition addDerived (active : gset UUID) (conversationID : UUID) (candidates : gmap UUID UUID)
    (l : LocalIDs) m : LocalIDs :=
  let userID := ConversationMember_UserID m in
  match LocalIDs_result l !! userID with
  | Some _ => l
  | None =>
    let localID := freshLocalID (LocalIDs_used l) conversationID userID
      (initialLocalID active candidates (LocalIDs_used l) userID) in
    mkLocalIDs (<[userID := localID]> (LocalIDs_result l))
               (<[localID := userID]> (LocalIDs_used l))
  end.

Definition DeriveConversationMemberLocalIDs metadata (members : list ConversationMember)
    (existing : list ConversationMemberLocalID) : list ConversationMemberLocalID :=
  let ordered := merge_sort (by_uuid ConversationMember_UserID) members in
  let active : gset UUID := list_to_set (ConversationMember_UserID <$> ordered) in
  let conversationID :=
    foldl (λ c m, if bool_decide (c = uuid_Nil) then ConversationMember_ConversationID m else c)
      uuid_Nil ordered in
  let l := foldl (addExisting active) (mkLocalIDs ∅ ∅) existing in
  let candidates := metadataLocalIDCandidates metadata active in
  let l := foldl (addDerived active conversationID candidates) l ordered in
  (λ m, mkConversationMemberLocalID (ConversationMember_UserID m)
          (default uuid_Nil (LocalIDs_result l !! ConversationMember_UserID m))) <$> ordered.

(** [localByUser] and [localOwner] of the validation; [None] on a conflict. *)
Definition addMapping (acc : option (gmap UUID UUID * gmap UUID UUID))
    (mapping : ConversationMemberLocalID) : option (gmap UUID UUID * gmap UUID UUID) :=
  '(localByUser, localOwner) ← acc;
  let userID := ConversationMemberLocalID_UserID mapping in
  let localID := ConversationMemberLocalID_LocalID mapping in
  if bool_decide (userID = uuid_Nil) || bool_decide (localID = uuid_Nil) then None
  else if mappedElsewhere localByUser userID localID then None
  else if mappedElsewhere localOwner localID userID then None
  else Some (<[userID := localID]> localByUser, <[localID := userID]> localOwner).

Definition ValidateConversationMemberLocalIDNamespace (members : list ConversationMember)
    (mappings : list ConversationMemberLocalID) : option Error :=
  if existsb (λ m, bool_decide (ConversationMember_UserID m = uuid_Nil)) members
  then Some ErrConflict
  else
    match foldl addMapping (Some (∅, ∅)) mappings with
    | None => Some ErrConflict
    | Some (localByUser, localOwner) =>
      if existsb (λ m,
           let userID := ConversationMember_UserID m in
           negb (bool_decide (is_Some (localByUser !! userID)))
           || mappedElsewhere localOwner userID userID) members
      then Some ErrConflict else None
    end.

(** ** The projection *)

Definition member_order : relation ConversationMember :=
  time_then ConversationMember_JoinedAt (by_uuid ConversationMember_UserID).

Definition marshalProjectedMember m (localID : UUID) : JSON :=
  let localID := if bool_decide (localID = uuid_Nil) then ConversationMember_UserID m else localID in
  let name := boundedString (ConversationMember_DisplayName m) 100 in
  let name := if bool_decide (name = "")
              then boundedString (TrimPrefix (TrimSpace (ConversationMember_Username m)) "@") 100
              else name in
  let name := if bool_decide (name = "") then "Member" else name in
  let username := boundedString (ConversationMember_Username m) 31 in
  let avatarURL := boundedString (ConversationMember_AvatarURL m) 2048 in
  let object : gmap string JSON :=
    <["rosterState" := JStr "active"]> (
    <["avatarColor" := JStr (normalizedAvatarColor (ConversationMember_AvatarColor m))]> (
    <["name" := JStr name]> (
    <["id" := JStr (uuid_String localID)]> (
    <["backendUserId" := JStr (uuid_String (ConversationMember_UserID m))]> ∅)))) in
  let object := if negb (bool_decide (username = ""))
                then <["username" := JStr username]> object else object in
  let object := if negb (bool_decide (avatarURL = ""))
                then <["profileImageURL" := JStr avatarURL]> object else object in
  JObj (merge_sort key_le (map_to_list object)).

Definition marshalTrustedDeletedMember (t : ConversationMemberTombstone) : JSON :=
  let userID := ConversationMemberTombstone_UserID t in
  let localID := ConversationMemberTombstone_LocalID t in
  let localID := if bool_decide (localID = uuid_Nil) then userID else localID in
  JObj (merge_sort key_le (map_to_list (
    <["rosterState" := JStr "inactiveTombstone"]> (
    <["isDeleted" := JBool true]> (
    <["avatarColor" := JStr defaultMemberAvatarColor]> (
    <["name" := JStr DeletedUserDisplayName]> (
    <["backendUserId" := JStr (uuid_String userID)]> (
    <["id" := JStr (uuid_String localID)]> (∅ : gmap string JSON))))))))).

(** The active members the old array names, in its order, each once. *)
Fixpoint projectExisting (authoritative : gmap UUID ConversationMember) (seen : gset UUID)
    (existing : list JSON) : list ConversationMember :=
  match existing with
  | [] => []
  | raw :: existing =>
    match json_object raw with
    | None => projectExisting authoritative seen existing
    | Some object =>
      match memberBackendUserID object with
      | FieldAbsent | FieldInvalid => projectExisting authoritative seen existing
      | FieldID backendID =>
        match authoritative !! backendID with
        | None => projectExisting authoritative seen existing
        | Some m =>
          if bool_decide (backendID ∈ seen) then projectExisting authoritative seen existing
          else m :: projectExisting authoritative ({[ backendID ]} ∪ seen) existing
        end
      end
    end
  end.

(** The members not seen yet, in order. *)
Fixpoint projectRest (seen : gset UUID) (ordered : list ConversationMember) :
    list ConversationMember :=
  match ordered with
  | [] => []
  | m :: ordered =>
    if bool_decide (ConversationMember_UserID m ∈ seen) then projectRest seen ordered
    else m :: projectRest ({[ ConversationMember_UserID m ]} ∪ seen) ordered
  end.

(** [root] of the projection: not an object, or absent, heals to an empty one. *)
Definition metadataRoot metadata : gmap string JSON := default ∅ (raw_object metadata).

Definition localByUser (localIDs : list ConversationMemberLocalID) : gmap UUID UUID :=
  foldl (λ l mapping,
    let userID := ConversationMemberLocalID_UserID mapping in
    let localID := ConversationMemberLocalID_LocalID mapping in
    if negb (bool_decide (userID = uuid_Nil)) && negb (bool_decide (localID = uuid_Nil))
    then <[userID := localID]> l else l) ∅ localIDs.

(** The rows of the array: the active members and the tombstones. *)
Definition projectedActive metadata (members : list ConversationMember) :
    list ConversationMember :=
  let ordered := merge_sort member_order members in
  let authoritative := insert_all ConversationMember_UserID ordered ∅ in
  let existing := default [] (json_array (metadataRoot metadata !! "members")) in
  let first := projectExisting authoritative ∅ existing in
  first ++ projectRest (list_to_set (ConversationMember_UserID <$> first)) ordered.

Definition projectedTombstones (members : list ConversationMember)
    (tombstones : list ConversationMemberTombstone) : list ConversationMemberTombstone :=
  List.filter (λ t,
    negb (bool_decide (ConversationMemberTombstone_UserID t = uuid_Nil))
    && negb (bool_decide (ConversationMemberTombstone_UserID t
                          ∈ (ConversationMember_UserID <$> members)))) tombstones.

Definition ProjectConversationMembersWithLocalIDs metadata (members : list ConversationMember)
    (localIDs : list ConversationMemberLocalID)
    (tombstones : list ConversationMemberTombstone) : RawMessage :=
  let local userID := default uuid_Nil (localByUser localIDs !! userID) in
  let projected :=
    ((λ m, marshalProjectedMember m (local (ConversationMember_UserID m)))
       <$> projectedActive metadata members)
    ++ (marshalTrustedDeletedMember <$> projectedTombstones members tombstones) in
  marshal_map (<["members" := JArr projected]> (metadataRoot metadata)).

Definition ProjectConversationMembers metadata (members : list ConversationMember)
    (tombstones : list ConversationMemberTombstone) : RawMessage :=
  ProjectConversationMembersWithLocalIDs metadata members
    (DeriveConversationMemberLocalIDs metadata members []) tombstones.
End projection.

(** ** The projection lists exactly the members *)
Section exact.
Context `{GoRuntime}.
Implicit Types (m : ConversationMember) (metadata : RawMessage).

Definition uid : ConversationMember → UUID := ConversationMember_UserID.

Lemma projectExisting_spec authoritative seen existing :
  (∀ k m, authoritative !! k = Some m → uid m = k) →
  let first := projectExisting authoritative seen existing in
  NoDup (uid <$> first) ∧
  ∀ m, m ∈ first → authoritative !! uid m = Some m ∧ uid m ∉ seen.
Proof.
  intros Hk. revert seen. induction existing as [|raw existing IH]; intros seen; simpl.
  { split; [constructor|]. intros m Hm. by apply not_elem_of_nil in Hm. }
  destruct (json_object raw) as [object|]; [|apply IH].
  destruct (memberBackendUserID object) as [| |b]; [apply IH..|].
  destruct (authoritative !! b) as [m|] eqn:Hb; [|apply IH]. pose proof (Hk _ _ Hb) as <-.
  case_bool_decide as Hs; [apply IH|].
  destruct (IH ({[ uid m ]} ∪ seen)) as [Hnd Hall]. split.
  - rewrite fmap_cons. constructor; [|done]. intros Hin.
    apply list_elem_of_fmap in Hin as (m' & Heq & Hm'). destruct (Hall m' Hm'). set_solver.
  - intros m' [->|Hm']%elem_of_cons; [done|]. destruct (Hall m' Hm'). set_solver.
Qed.

Lemma projectRest_spec seen ordered :
  NoDup (uid <$> ordered) →
  projectRest seen ordered = List.filter (λ m, negb (bool_decide (uid m ∈ seen))) ordered.
Proof.
  revert seen. induction ordered as [|m ordered IH]; intros seen Hnd; [done|].
  rewrite fmap_cons, NoDup_cons in Hnd. destruct Hnd as [Hm Hnd]. simpl.
  change (ConversationMember_UserID m) with (uid m).
  case_bool_decide as Hs; [by apply IH|]. cbn [negb]. f_equal. rewrite IH by done.
  apply List.filter_ext_in. intros m' Hm'%list_elem_of_In. f_equal.
  apply bool_decide_ext. assert (uid m' ≠ uid m); [|set_solver].
  intros Heq. apply Hm. rewrite <- Heq. by apply list_elem_of_fmap_2.
Qed.

Lemma projectedActive_perm metadata members :
  NoDup (uid <$> members) → projectedActive metadata members ≡ₚ members.
Proof.
  intros Hnd. unfold projectedActive. cbv zeta.
  set (ordered := merge_sort member_order members).
  assert (ordered ≡ₚ members) as Hperm by apply merge_sort_Permutation.
  assert (NoDup (uid <$> ordered)) as Hndo by (by rewrite Hperm).
  set (authoritative := insert_all ConversationMember_UserID ordered ∅).
  assert (∀ k m, authoritative !! k = Some m ↔ m ∈ ordered ∧ uid m = k) as Hauth.
  { intros k m. unfold authoritative. rewrite lookup_insert_all_Some by done.
    rewrite lookup_empty. split; [by intros [?|[_ ?]]|by left]. }
  set (existing := default [] _).
  destruct (projectExisting_spec authoritative ∅ existing) as [Hnd1 Hall].
  { intros k m Hm. by apply Hauth. }
  set (first := projectExisting authoritative ∅ existing) in *.
  rewrite projectRest_spec by done. rewrite <- Hperm.
  apply NoDup_Permutation.
  - apply (NoDup_fmap_1 uid). rewrite fmap_app. apply NoDup_app. split_and!.
    + done.
    + intros x Hx Hy. apply list_elem_of_fmap in Hy as (m & -> & Hm).
      rewrite list_elem_of_In, filter_In in Hm. destruct Hm as [_ Hm]. bool_prop.
      apply Hm, elem_of_list_to_set, Hx.
    + apply NoDup_fmap_filter, Hndo.
  - by apply (NoDup_fmap_1 uid).
  - intros m. rewrite elem_of_app, (list_elem_of_In (List.filter _ _)), filter_In,
      <- list_elem_of_In. split.
    + intros [Hm|[Hm _]]; [|done]. by apply Hall, proj1, Hauth, proj1 in Hm.
    + intros Hm. destruct (decide (uid m ∈ (uid <$> first))) as [Hin|Hin].
      * left. apply list_elem_of_fmap in Hin as (m' & Heq & Hm').
        assert (m = m') as ->; [|done]. eapply (NoDup_fmap_unique uid ordered); try done.
        by apply Hall, proj1, Hauth, proj1 in Hm'.
      * right. split; [done|]. rewrite bool_decide_false; [done|].
        by rewrite elem_of_list_to_set.
Qed.

Lemma raw_object_marshal (root : gmap string JSON) : raw_object (marshal_map root) = Some root.
Proof.
  simpl. f_equal. rewrite <- (list_to_map_to_list root) at 2.
  assert (reverse (merge_sort key_le (map_to_list root)) ≡ₚ map_to_list root) as Hp.
  { by rewrite reverse_Permutation, merge_sort_Permutation. }
  apply list_to_map_proper; [|done]. rewrite Hp. apply NoDup_fst_map_to_list.
Qed.

(** Client metadata cannot grant or restore membership.  For any
    metadata whatsoever, the rebuilt document keeps every other top-level key, and
    its ["members"] array is one object per current member, in some order, followed
    by one object per trusted tombstone of a user who is not a member: old
    metadata influences the order and nothing else. *)
Theorem projection_exact metadata members localIDs tombstones :
  NoDup (uid <$> members) →
  ∃ root order rows,
    raw_object (ProjectConversationMembersWithLocalIDs metadata members localIDs tombstones)
      = Some root ∧
    (∀ key, key ≠ "members" → root !! key = metadataRoot metadata !! key) ∧
    order ≡ₚ members ∧ root !! "members" = Some (JArr rows) ∧
    rows = ((λ m, marshalProjectedMember m (default uuid_Nil (localByUser localIDs !! uid m))) <$> order)
           ++ (marshalTrustedDeletedMember <$>
                List.filter (λ t,
                  negb (bool_decide (ConversationMemberTombstone_UserID t = uuid_Nil))
                  && negb (bool_decide (ConversationMemberTombstone_UserID t ∈ (uid <$> members))))
                  tombstones).
Proof.
  intros Hnd. eexists _, (projectedActive metadata members), _. split_and!.
  - apply raw_object_marshal.
  - intros key Hkey. by rewrite lookup_insert_ne.
  - by apply projectedActive_perm.
  - apply lookup_insert_eq.
  - reflexivity.
Qed.

(** ** The collision loop exits *)

Definition exits (used : gmap UUID UUID) (userID localID : UUID) : Prop :=
  used !! localID = None ∨ used !! localID = Some userID.

(** The identifiers the loop tries after the first. *)
Definition attempt_id (conversationID userID : UUID) (attempt : nat) : UUID :=
  uuid_NewSHA1 conversationID (memberLocalName userID attempt).

Lemma freshLocalID_loop_stuck fuel attempt used conversationID userID localID :
  let r := freshLocalID_loop fuel attempt used conversationID userID localID in
  exits used userID r ∨
  ∀ i, i < fuel → is_Some (used !! attempt_id conversationID userID (attempt + i)).
Proof.
  revert attempt localID. induction fuel as [|fuel IH]; intros attempt localID; simpl.
  - right. lia.
  - destruct (used !! localID) as [owner|] eqn:Hu; [|by left; left].
    case_bool_decide as Ho; [left; right; by subst|].
    destruct (IH (S attempt) (attempt_id conversationID userID attempt)) as [Hx|Hall]; [by left|].
    destruct (used !! attempt_id conversationID userID attempt) as [o|] eqn:Hfirst.
    + right. intros [|i] Hi; [by rewrite Nat.add_0_r, Hfirst|].
      replace (attempt + S i) with (S attempt + i) by lia. apply Hall. lia.
    + left. left. change (uuid_NewSHA1 _ _) with (attempt_id conversationID userID attempt).
      destruct fuel; simpl; by rewrite Hfirst.
Qed.

(** The search for a free local id terminates: when the identifiers
    derived for the attempts of one user do not repeat among as many attempts as
    there are used ids, [size used + 1] turns of the loop reach its exit, an id
    that is free or already the user's own. *)
Theorem freshLocalID_exits used conversationID userID localID :
  (∀ i j, i ≤ size used → j ≤ size used →
     attempt_id conversationID userID i = attempt_id conversationID userID j → i = j) →
  exits used userID (freshLocalID used conversationID userID localID).
Proof.
  intros Hinj. unfold freshLocalID.
  destruct (freshLocalID_loop_stuck (size used + 1) 0 used conversationID userID localID)
    as [Hx|Hall]; [done|]. exfalso.
  set (l := attempt_id conversationID userID <$> seq 0 (size used + 1)).
  assert (NoDup l) as Hnd.
  { apply NoDup_fmap_2_strong; [|apply NoDup_seq].
    intros i j Hi Hj. apply elem_of_seq in Hi, Hj. apply Hinj; lia. }
  assert (list_to_set l ⊆ dom used) as Hsub.
  { intros x Hx. apply elem_of_list_to_set, list_elem_of_fmap in Hx as (i & -> & Hi).
    apply elem_of_seq in Hi. apply elem_of_dom, (Hall i). lia. }
  apply subseteq_size in Hsub. rewrite size_list_to_set, size_dom in Hsub by done.
  unfold l in Hsub. rewrite length_fmap, length_seq in Hsub. lia.
Qed.
End exact.

(** ** Concrete inputs *)
Section witnesses.
#[local] Existing Instance Reference.runtime.

Definition projected_member (n : N) (name : string) : ConversationMember :=
  mkConversationMember (uuid_of_N 9) (uuid_of_N n) "member" 1 None name "" "" "" "".
Definition two_members : list ConversationMember :=
  [projected_member 1 "Ada"; projected_member 2 "Bob"].

(** Metadata that claims a third member. *)
Definition forged_metadata : RawMessage :=
  Raw (JObj [("theme", JStr "dark");
             ("members", JArr [JObj [("userId", JStr (uuid_String (uuid_of_N 3)))]])]).

Lemma projection_exact_witness :
  ∃ root order rows,
    raw_object (ProjectConversationMembersWithLocalIDs forged_metadata two_members [] []) = Some root ∧
    order ≡ₚ two_members ∧ root !! "members" = Some (JArr rows) ∧ length rows = 2.
Proof.
  destruct (projection_exact forged_metadata two_members [] [])
    as (root & order & rows & Hroot & _ & Hperm & Hrows & ->).
  - apply (bool_decide_unpack (NoDup _)). vm_compute. exact I.
  - eexists root, order, _. split_and!; [done|done|exact Hrows|].
    rewrite app_nil_r, length_fmap. by rewrite Hperm.
Defined.

(** Two users want the same id; the loop moves on. *)
Definition taken : gmap UUID UUID := {[ uuid_of_N 1 := uuid_of_N 2 ]}.

Lemma freshLocalID_exits_witness :
  exits taken (uuid_of_N 1) (freshLocalID taken (uuid_of_N 9) (uuid_of_N 1) (uuid_of_N 1)).
Proof.
  apply freshLocalID_exits. intros i j Hi Hj.
  assert (size taken = 1) as Hsize by (unfold taken; apply map_size_singleton).
  rewrite Hsize in Hi, Hj.
  destruct (decide (i = j)) as [->|Hne]; [done|]. intros Heq. exfalso.
  assert (bool_decide (attempt_id (uuid_of_N 9) (uuid_of_N 1) 0
    = attempt_id (uuid_of_N 9) (uuid_of_N 1) 1) = false) as Hd by (vm_compute; reflexivity).
  apply bool_decide_eq_false in Hd.
  destruct i as [|[|i]], j as [|[|j]]; try lia; apply Hd; [exact Heq|symmetry; exact Heq].
Defined.
End witnesses.
