(* ===== verification/Conversations.v ===== *)
(** * Conversations, membership and invites

    [src/internal/store/memory/memory.go], lines 1138-1944.

    The member table is the access list.  [conv_inv]: every conversation has its
    member map, its rows carry their own keys, and exactly one member, the recorded
    creator, is the owner.  Local ids are injective per conversation and never change.
    An invite link admits at most [MaxUses] members, none after it is revoked or
    expired, and no group grows beyond 1024 members. *)

From Stdlib Require Import ZArith Lia.
From S2P Require Import Prelude.
From S2P Require Import Runtime.
From S2P Require Import Domain.
From S2P Require Import Compliance.
From S2P Require Import StoreState.
From S2P Require Import Projection.

Record CreateConversationParams := mkCreateConversationParams {
  CreateConversationParams_ID : UUID; CreateConversationParams_Kind : string;
  CreateConversationParams_Title : string; CreateConversationParams_Metadata : RawMessage;
  CreateConversationParams_CreatedBy : UUID; CreateConversationParams_MemberIDs : list UUID;
  CreateConversationParams_InvitePhones : list string }.

Record UpdateConversationParams := mkUpdateConversationParams {
  UpdateConversationParams_Title : option string;
  UpdateConversationParams_AvatarURL : option string;
  UpdateConversationParams_Metadata : option RawMessage }.

Record CreateConversationInviteParams := mkCreateConversationInviteParams {
  CreateConversationInviteParams_ID : UUID;
  CreateConversationInviteParams_ConversationID : UUID;
  CreateConversationInviteParams_ActorID : UUID;
  CreateConversationInviteParams_TokenHash : string;
  CreateConversationInviteParams_ExpiresAt : Z; CreateConversationInviteParams_MaxUses : Z }.

Definition maxMembers : nat := 1024.
Definition MediaScopeConversation : string := "conversation".

Section conversations.
Context `{GoRuntime}.
Implicit Types (s : Store) (cid actorID userID : UUID) (m : ConversationMember).

Definition conversation_or_zero s cid : Conversation :=
  default zeroConversation (Store_conversations s !! cid).

Definition role (om : option ConversationMember) : string :=
  match om with Some m => ConversationMember_Role m | None => "" end.

(** [actor.Role == "owner" || actor.Role == "admin"] *)
Definition privileged (om : option ConversationMember) : bool :=
  bool_decide (role om = "owner") || bool_decide (role om = "admin").

(** ** Members and local ids *)

Definition withIdentity s m : ConversationMember :=
  match Store_users s !! ConversationMember_UserID m with
  | Some user => ConversationMemberWithPublicIdentity m user
  | None => m
  end.

Definition conversationMembersLocked s cid : list ConversationMember :=
  merge_sort member_order (withIdentity s <$> (range (membersOf s cid)).*2).

Definition existingLocalIDs s cid : list ConversationMemberLocalID :=
  (λ '(userID, localID), mkConversationMemberLocalID userID localID)
    <$> range (inner (Store_memberLocalIDs s) cid).

(** The stored mappings and the derived ones for users without one. *)
Definition allLocalIDs s cid (metadata : RawMessage) (members : list ConversationMember) :
    list ConversationMemberLocalID :=
  let existing := existingLocalIDs s cid in
  existing ++ List.filter (λ mapping,
    negb (bool_decide (ConversationMemberLocalID_UserID mapping
                       ∈ (ConversationMemberLocalID_UserID <$> existing))))
    (DeriveConversationMemberLocalIDs metadata members existing).

(** [allByUser] *)
Definition mappingsByUser (all : list ConversationMemberLocalID) : gmap UUID UUID :=
  foldl (λ l mapping, <[ConversationMemberLocalID_UserID mapping :=
                          ConversationMemberLocalID_LocalID mapping]> l) ∅ all.

Fixpoint pickLocalIDs (allByUser : gmap UUID UUID) (members : list ConversationMember) :
    option (list ConversationMemberLocalID) :=
  match members with
  | [] => Some []
  | m :: members =>
    localID ← allByUser !! ConversationMember_UserID m;
    rest ← pickLocalIDs allByUser members;
    Some (mkConversationMemberLocalID (ConversationMember_UserID m) localID :: rest)
  end.

Definition planConversationMemberLocalIDsLocked s cid (metadata : RawMessage)
    (members : list ConversationMember) : res (list ConversationMemberLocalID) :=
  let all := allLocalIDs s cid metadata members in
  match ValidateConversationMemberLocalIDNamespace members all with
  | Some e => Err e
  | None =>
    match pickLocalIDs (mappingsByUser all) members with
    | Some result => Ok result
    | None => Err ErrConflict
    end
  end.

(** A user who has a local id keeps it. *)
Definition commitMapping (l : gmap UUID UUID) (mapping : ConversationMemberLocalID) :
    gmap UUID UUID :=
  match l !! ConversationMemberLocalID_UserID mapping with
  | Some _ => l
  | None => <[ConversationMemberLocalID_UserID mapping := ConversationMemberLocalID_LocalID mapping]> l
  end.

Definition commitConversationMemberLocalIDsLocked s cid
    (mappings : list ConversationMemberLocalID) : Store :=
  s <| Store_memberLocalIDs ::= (λ t, <[cid := foldl commitMapping (inner t cid) mappings]> t) |>.

Definition ensureConversationMemberLocalIDsLocked s cid (metadata : RawMessage)
    (members : list ConversationMember) : Store * res (list ConversationMemberLocalID) :=
  match planConversationMemberLocalIDsLocked s cid metadata members with
  | Err e => (s, Err e)
  | Ok planned => (commitConversationMemberLocalIDsLocked s cid planned, Ok planned)
  end.

Definition conversationMemberTombstonesLocked s cid : list ConversationMemberTombstone :=
  merge_sort (by_uuid ConversationMemberTombstone_UserID)
    (range (inner (Store_memberTombstones s) cid)).*2.

(** Replace the row of the candidate or append it. *)
Fixpoint replaceMember (members : list ConversationMember) m : list ConversationMember :=
  match members with
  | [] => [m]
  | x :: members =>
    if bool_decide (ConversationMember_UserID x = ConversationMember_UserID m)
    then m :: members else x :: replaceMember members m
  end.

Definition prospectiveConversationMembersLocked s cid m : list ConversationMember :=
  merge_sort member_order (replaceMember (conversationMembersLocked s cid) (withIdentity s m)).

Definition planConversationMembershipProjectionLocked s cid (metadata : RawMessage)
    (members : list ConversationMember) (joiningUserID : UUID) :
    res (list ConversationMemberLocalID * RawMessage) :=
  match planConversationMemberLocalIDsLocked s cid metadata members with
  | Err e => Err e
  | Ok planned =>
    let filtered := List.filter (λ t,
      negb (bool_decide (ConversationMemberTombstone_UserID t = joiningUserID)))
      (conversationMemberTombstonesLocked s cid) in
    Ok (planned, ProjectConversationMembersWithLocalIDs metadata members planned filtered)
  end.

(** [None] is the nil error. *)
Definition projectConversationMembersLocked s cid : Store * option Error :=
  match Store_conversations s !! cid with
  | None => (s, None)
  | Some conversation =>
    if negb (bool_decide (Conversation_Kind conversation = "group")) then (s, None)
    else
      match ensureConversationMemberLocalIDsLocked s cid (Conversation_Metadata conversation)
              (conversationMembersLocked s cid) with
      | (s, Err e) => (s, Some e)
      | (s, Ok localIDs) =>
        let metadata := ProjectConversationMembersWithLocalIDs
          (Conversation_Metadata conversation) (conversationMembersLocked s cid) localIDs
          (conversationMemberTombstonesLocked s cid) in
        (s <| Store_conversations ::=
           <[cid := conversation <| Conversation_Metadata := metadata |>]> |>, None)
      end
  end.

(** Writing into a map of maps. *)
Definition setMember s cid userID m : Store :=
  s <| Store_members ::= (λ t, <[cid := <[userID := m]> (inner t cid)]> t) |>.
Definition removeMember s cid userID : Store :=
  s <| Store_members ::= (λ t, <[cid := delete userID (inner t cid)]> t) |>.
(** [delete(s.memberTombstones[cid], userID)] *)
Definition dropTombstone s cid userID : Store :=
  match Store_memberTombstones s !! cid with
  | Some t => s <| Store_memberTombstones ::= <[cid := delete userID t]> |>
  | None => s
  end.

(** ** Creating, changing and deleting a conversation *)

(** An existing direct conversation with exactly these members. *)
Definition sameDirect s (targets : list UUID) (kv : UUID * Conversation) : bool :=
  bool_decide (Conversation_Kind kv.2 = "direct")
  && bool_decide (size (membersOf s kv.1) = length targets)
  && forallb (is_member s kv.1) targets.

Definition newMembers cid (createdBy : UUID) (now : Z) (ids : list UUID) :
    gmap UUID ConversationMember :=
  foldl (λ t id, <[id := mkConversationMember cid id
    (if bool_decide (id = createdBy) then "owner" else "member") now None "" "" "" "" ""]> t) ∅ ids.

Definition openConversation s (conversation : Conversation)
    (members : gmap UUID ConversationMember) : Store :=
  let cid := Conversation_ID conversation in
  s <| Store_conversations ::= <[cid := conversation]> |>
    <| Store_members ::= <[cid := members]> |>
    <| Store_memberLocalIDs ::= <[cid := ∅]> |>
    <| Store_memberTombstones ::= <[cid := ∅]> |>
    <| Store_invites ::= <[cid := ∅]> |>.

Definition rollbackConversation s cid : Store :=
  s <| Store_conversations ::= delete cid |> <| Store_members ::= delete cid |>
    <| Store_memberLocalIDs ::= delete cid |> <| Store_memberTombstones ::= delete cid |>
    <| Store_invites ::= delete cid |>.

Definition putPhoneInvites s cid (actorID : UUID) (phones : list string) : Store :=
  s <| Store_invites ::= (λ t,
    <[cid := foldl (λ i phone, <[phone := actorID]> i) (inner t cid) phones]> t) |>.

Definition CreateConversation s (p : CreateConversationParams) (newID : UUID) (clock : Clock) :
    Store * res Conversation :=
  let createdBy := CreateConversationParams_CreatedBy p in
  let targets := uniqueUUIDs (createdBy :: CreateConversationParams_MemberIDs p) in
  let direct := if bool_decide (CreateConversationParams_Kind p = "direct")
                then List.find (sameDirect s targets) (range (Store_conversations s)) else None in
  match direct with
  | Some (_, conversation) => (s, Ok conversation)
  | None =>
    let now := clock 0 in
    if existsb (λ id, bool_decide (live_user s id = None)) targets then (s, Err ErrNotFound)
    else
      let cid := if bool_decide (CreateConversationParams_ID p = uuid_Nil)
                 then newID else CreateConversationParams_ID p in
      match Store_conversations s !! cid with
      | Some existing =>
        if bool_decide (Conversation_CreatedBy existing = createdBy) then (s, Ok existing)
        else (s, Err ErrConflict)
      | None =>
        let conversation := mkConversation cid (CreateConversationParams_Kind p)
          (CreateConversationParams_Title p) "" (CreateConversationParams_Metadata p)
          createdBy 0 now now in
        let s := openConversation s conversation (newMembers cid createdBy now targets) in
        let members := conversationMembersLocked s cid in
        match ensureConversationMemberLocalIDsLocked s cid
                (Conversation_Metadata conversation) members with
        | (s, Err e) => (rollbackConversation s cid, Err e)
        | (s, Ok localIDs) =>
          let conversation :=
            if bool_decide (Conversation_Kind conversation = "group")
            then conversation <| Conversation_Metadata :=
                   ProjectConversationMembersWithLocalIDs (Conversation_Metadata conversation)
                     members localIDs (conversationMemberTombstonesLocked s cid) |>
            else conversation in
          let s := s <| Store_conversations ::= <[cid := conversation]> |> in
          let s := putPhoneInvites s cid createdBy (CreateConversationParams_InvitePhones p) in
          (appendOutbox s "conversation.created" cid (PConversation conversation) (later 1 clock),
           Ok conversation)
        end
      end
  end.

Definition UpdateConversation s cid actorID (p : UpdateConversationParams) (clock : Clock) :
    Store * res Conversation :=
  match Store_conversations s !! cid with
  | None => (s, Err ErrNotFound)
  | Some conversation =>
    if negb (privileged (member s cid actorID)) then (s, Err ErrForbidden)
    else
      let conversation := match UpdateConversationParams_Title p with
        | Some title => conversation <| Conversation_Title := title |> | None => conversation end in
      let conversation := match UpdateConversationParams_AvatarURL p with
        | Some url => conversation <| Conversation_AvatarURL := url |> | None => conversation end in
      let conversation := match UpdateConversationParams_Metadata p with
        | Some metadata => conversation <| Conversation_Metadata := metadata |>
        | None => conversation end in
      let finish s conversation :=
        let conversation := conversation <| Conversation_UpdatedAt := clock 0 |> in
        let s := s <| Store_conversations ::= <[cid := conversation]> |> in
        (appendOutbox s "conversation.updated" cid (PConversation conversation) (later 1 clock),
         Ok conversation) in
      if bool_decide (Conversation_Kind conversation = "group") then
        let members := conversationMembersLocked s cid in
        match ensureConversationMemberLocalIDsLocked s cid
                (Conversation_Metadata conversation) members with
        | (s, Err e) => (s, Err e)
        | (s, Ok localIDs) =>
          finish s (conversation <| Conversation_Metadata :=
            ProjectConversationMembersWithLocalIDs (Conversation_Metadata conversation)
              members localIDs (conversationMemberTombstonesLocked s cid) |>)
        end
      else finish s conversation
  end.

(** The media of a conversation, in iteration order. *)
Definition conversationMedia s cid : list (UUID * MediaObject) :=
  List.filter (λ kv : UUID * MediaObject,
    bool_decide (MediaObject_Scope kv.2 = MediaScopeConversation)
    && bool_decide (MediaObject_ConversationID kv.2 = cid)) (range (Store_media s)).

(** [clock 0] is the reading before the loop; each object reads it once more. *)
Fixpoint latestNotBefore (notBefore : Z) (objects : list MediaObject) (clock : Clock) : Z :=
  match objects with
  | [] => notBefore
  | object :: objects =>
    let candidate := memoryMediaDeleteNotBefore (MediaObject_UploadValidUntil object) clock in
    latestNotBefore (if After candidate notBefore then candidate else notBefore)
      objects (later 1 clock)
  end.

(** [for start := 0; start < len(objectKeys); start += MediaDeleteBatchSize];
    fuel [length keys] suffices since every batch takes at least one key. *)
Fixpoint appendMediaDeleteBatches (fuel : nat) s cid (keys : list string) (notBefore : Z)
    (clock : Clock) : Store :=
  match fuel, keys with
  | S fuel, _ :: _ =>
    appendMediaDeleteBatches fuel
      (appendMediaDeletesAt s cid (take MediaDeleteBatchSize keys) notBefore clock)
      cid (drop MediaDeleteBatchSize keys) notBefore (later 2 clock)
  | _, _ => s
  end.

Definition DeleteConversation s cid actorID (clock : Clock) : Store * res unit :=
  match Store_conversations s !! cid with
  | None => (s, Err ErrNotFound)
  | Some conversation =>
    if negb (bool_decide (Conversation_CreatedBy conversation = actorID))
       || negb (bool_decide (role (member s cid actorID) = "owner"))
    then (s, Err ErrForbidden)
    else
      let objects := conversationMedia s cid in
      let notBefore := latestNotBefore (clock 0%nat + MediaDeleteGrace)%Z objects.*2 (later 1 clock) in
      let removed := List.filter (λ kv : string * ConversationInvite,
        bool_decide (ConversationInvite_ConversationID kv.2 = cid)) (range (Store_inviteLinks s)) in
      let s := s
        <| Store_media ::= delete_all objects.*1 |>
        <| Store_mediaUploadCapabilities ::= delete_all objects.*1 |>
        <| Store_outbox ::= List.filter (λ e,
             negb (bool_decide (OutboxEvent_AggregateID e = cid))) |>
        <| Store_conversations ::= delete cid |> <| Store_members ::= delete cid |>
        <| Store_memberLocalIDs ::= delete cid |> <| Store_memberTombstones ::= delete cid |>
        <| Store_invites ::= delete cid |>
        <| Store_inviteLinks ::= delete_all removed.*1 |>
        <| Store_inviteLinkKeys ::= delete_all (ConversationInvite_ID <$> removed.*2) |>
        <| Store_messages ::= delete cid |> in
      let keys := merge_sort String.le (MediaObject_ObjectKey <$> objects.*2) in
      (appendMediaDeleteBatches (length keys) s cid keys notBefore
         (later (1 + length objects) clock), Ok tt)
  end.

(** ** Reading *)

Definition Conversation_ s cid userID : res Conversation :=
  match Store_conversations s !! cid with
  | None => Err ErrNotFound
  | Some conversation => if negb (is_member s cid userID) then Err ErrNotFound else Ok conversation
  end.

Definition ListConversations s userID (before limit : Z) : list Conversation :=
  take (Z.to_nat limit) (merge_sort (by_field (λ c, (- Conversation_UpdatedAt c)%Z))
    (List.filter (λ kv : UUID * Conversation,
       is_member s kv.1 userID
       && (IsZero before || Before (Conversation_UpdatedAt kv.2) before))
       (range (Store_conversations s))).*2).

Definition ListConversationMembers s cid actorID : res (list ConversationMember) :=
  match Store_members s !! cid with
  | None => Err ErrNotFound
  | Some members =>
    match members !! actorID with
    | None => Err ErrForbidden
    | Some _ => Ok (conversationMembersLocked s cid)
    end
  end.

Definition ConversationMemberIDs s cid : res (list UUID) :=
  match Store_members s !! cid with
  | None => Err ErrNotFound
  | Some members => Ok (memberIDs members)
  end.

Definition UsersShareConversation s (first second : UUID) : bool :=
  existsb (λ kv : UUID * gmap UUID ConversationMember,
    bool_decide (is_Some (kv.2 !! first)) && bool_decide (is_Some (kv.2 !! second)))
    (range (Store_members s)).

(** ** Membership *)

(** Admit the planned member and publish the planned metadata. *)
Definition commitJoin s cid userID m (planned : list ConversationMemberLocalID)
    (metadata : RawMessage) (updatedAt : Z) : Store :=
  let s := setMember s cid userID m in
  let s := dropTombstone s cid userID in
  let s := commitConversationMemberLocalIDsLocked s cid planned in
  s <| Store_conversations ::= <[cid := (conversation_or_zero s cid)
         <| Conversation_Metadata := metadata |> <| Conversation_UpdatedAt := updatedAt |>]> |>.

Definition appendMemberAdded s cid actorID userID (clock : Clock) : Store :=
  appendOutbox s "conversation.member_added" cid
    (PMemberAdded (mkConversationMemberAdded cid actorID userID)) clock.

Definition AddConversationMember s cid actorID userID (newRole : string) (clock : Clock) :
    Store * res unit :=
  match Store_members s !! cid with
  | None => (s, Err ErrNotFound)
  | Some members =>
    if negb (bool_decide (Conversation_Kind (conversation_or_zero s cid) = "group"))
    then (s, Err ErrInvalid)
    else if negb (bool_decide (newRole = "member")) && negb (bool_decide (newRole = "admin"))
    then (s, Err ErrInvalid)
    else
      match live_user s userID with
      | None => (s, Err ErrNotFound)
      | Some _ =>
        if negb (privileged (members !! actorID)) then (s, Err ErrForbidden)
        else
          let target := members !! userID in
          if bool_decide (role target = "owner") then (s, Err ErrForbidden)
          else if bool_decide (target = None) && (maxMembers <=? size members)%nat
          then (s, Err ErrInvalid)
          else
            let joinedAt := match target with
                            | Some t => ConversationMember_JoinedAt t | None => clock 0 end in
            let candidate := mkConversationMember cid userID newRole joinedAt None "" "" "" "" "" in
            match planConversationMembershipProjectionLocked s cid
                    (Conversation_Metadata (conversation_or_zero s cid))
                    (prospectiveConversationMembersLocked s cid candidate) userID with
            | Err e => (s, Err e)
            | Ok (planned, projected) =>
              let s := commitJoin s cid userID candidate planned projected (clock 1) in
              (if bool_decide (target = None)
               then appendMemberAdded s cid actorID userID (later 2 clock) else s, Ok tt)
            end
      end
  end.

Definition CreateConversationInvites s cid actorID (phones : list string) : Store * res unit :=
  if negb (privileged (member s cid actorID)) then (s, Err ErrForbidden)
  else (putPhoneInvites s cid actorID phones, Ok tt).

Record ClaimPlan := mkClaimPlan {
  ClaimPlan_conversationID : UUID; ClaimPlan_candidate : ConversationMember;
  ClaimPlan_joined : bool; ClaimPlan_localIDs : list ConversationMemberLocalID;
  ClaimPlan_metadata : RawMessage }.

Definition planClaim s userID (now : Z) cid : res ClaimPlan :=
  match Store_conversations s !! cid with
  | None => Err ErrNotFound
  | Some conversation =>
    if negb (bool_decide (Conversation_Kind conversation = "group")) then Err ErrInvalid
    else
      let current := member s cid userID in
      if bool_decide (current = None) && (maxMembers <=? size (membersOf s cid))%nat
      then Err ErrInvalid
      else
        let candidate := default
          (mkConversationMember cid userID "member" now None "" "" "" "" "") current in
        match planConversationMembershipProjectionLocked s cid
                (Conversation_Metadata conversation)
                (prospectiveConversationMembersLocked s cid candidate) userID with
        | Err e => Err e
        | Ok (localIDs, metadata) =>
          Ok (mkClaimPlan cid candidate (bool_decide (current = None)) localIDs metadata)
        end
  end.

(** All plans, or the first error. *)
Fixpoint planClaims s userID (now : Z) (cids : list UUID) : res (list ClaimPlan) :=
  match cids with
  | [] => Ok []
  | cid :: cids =>
    match planClaim s userID now cid with
    | Err e => Err e
    | Ok plan =>
      match planClaims s userID now cids with
      | Err e => Err e
      | Ok plans => Ok (plan :: plans)
      end
    end
  end.

Definition commitClaim s userID (phone : string) (now : Z) (plan : ClaimPlan) (clock : Clock) :
    Store :=
  let cid := ClaimPlan_conversationID plan in
  let s := s <| Store_invites ::= (λ t, <[cid := delete phone (inner t cid)]> t) |> in
  let s := if ClaimPlan_joined plan
           then appendMemberAdded (setMember s cid userID (ClaimPlan_candidate plan))
                  cid userID userID clock
           else s in
  let s := dropTombstone s cid userID in
  let s := commitConversationMemberLocalIDsLocked s cid (ClaimPlan_localIDs plan) in
  s <| Store_conversations ::= <[cid := (conversation_or_zero s cid)
         <| Conversation_Metadata := ClaimPlan_metadata plan |> <| Conversation_UpdatedAt := now |>]> |>.

Fixpoint commitClaims s userID (phone : string) (now : Z) (plans : list ClaimPlan)
    (clock : Clock) : Store :=
  match plans with
  | [] => s
  | plan :: plans =>
    commitClaims (commitClaim s userID phone now plan clock) userID phone now plans (later 2 clock)
  end.

Definition ClaimConversationInvites s userID (phone : string) (clock : Clock) :
    Store * res (list UUID) :=
  match live_user s userID with
  | None => (s, Err ErrNotFound)
  | Some _ =>
    let cids := merge_sort uuid_text_le (omap (λ '(cid, phones),
      if bool_decide (is_Some (phones !! phone)) then Some cid else None) (range (Store_invites s))) in
    let now := clock 0 in
    match planClaims s userID now cids with
    | Err e => (s, Err e)
    | Ok plans =>
      (commitClaims s userID phone now plans (later 1 clock),
       Ok (ClaimPlan_conversationID <$> plans))
    end
  end.

(** ** Invite links *)

Definition CreateConversationInvite s (p : CreateConversationInviteParams) (newID : UUID)
    (clock : Clock) : Store * res ConversationInvite :=
  let cid := CreateConversationInviteParams_ConversationID p in
  let actorID := CreateConversationInviteParams_ActorID p in
  let maxUses := CreateConversationInviteParams_MaxUses p in
  let tokenKey := CreateConversationInviteParams_TokenHash p in
  if negb (strlen tokenKey =? 32)%Z || (maxUses <? 1)%Z || (1000 <? maxUses)%Z
     || negb (After (CreateConversationInviteParams_ExpiresAt p) (clock 0))
  then (s, Err ErrInvalid)
  else
    match Store_conversations s !! cid with
    | None => (s, Err ErrForbidden)
    | Some conversation =>
      if negb (privileged (member s cid actorID)) then (s, Err ErrForbidden)
      else if negb (bool_decide (Conversation_Kind conversation = "group"))
      then (s, Err ErrInvalid)
      else
        let id := if bool_decide (CreateConversationInviteParams_ID p = uuid_Nil)
                  then newID else CreateConversationInviteParams_ID p in
        if bool_decide (is_Some (Store_inviteLinks s !! tokenKey)) then (s, Err ErrConflict)
        else if bool_decide (is_Some (Store_inviteLinkKeys s !! id)) then (s, Err ErrConflict)
        else
          let invite := mkConversationInvite id cid actorID maxUses 0
            (CreateConversationInviteParams_ExpiresAt p) None (clock 1) in
          (s <| Store_inviteLinks ::= <[tokenKey := invite]> |>
             <| Store_inviteLinkKeys ::= <[id := tokenKey]> |>, Ok invite)
    end.

Definition conversationInviteActiveError (invite : ConversationInvite) (now : Z) : option Error :=
  if bool_decide (is_Some (ConversationInvite_RevokedAt invite)) then Some ErrInviteRevoked
  else if negb (After (ConversationInvite_ExpiresAt invite) now) then Some ErrInviteExpired
  else if (ConversationInvite_MaxUses invite <=? ConversationInvite_Uses invite)%Z
  then Some ErrInviteExhausted
  else None.

Definition ConversationInvitePreview_ s (tokenHash : string) userID (clock : Clock) :
    res ConversationInvitePreview :=
  match Store_inviteLinks s !! tokenHash with
  | None => Err ErrNotFound
  | Some invite =>
    let cid := ConversationInvite_ConversationID invite in
    match Store_conversations s !! cid with
    | None => Err ErrNotFound
    | Some conversation =>
      let alreadyMember := is_member s cid userID in
      let preview := mkConversationInvitePreview (ConversationInvite_ID invite)
        (Conversation_Kind conversation) (Conversation_Title conversation)
        (Conversation_AvatarURL conversation) (ConversationInvite_ExpiresAt invite) alreadyMember in
      if alreadyMember then Ok preview
      else match conversationInviteActiveError invite (clock 0) with
           | Some e => Err e
           | None => Ok preview
           end
    end
  end.

Definition AcceptConversationInvite s (tokenHash : string) userID (clock : Clock) :
    Store * res ConversationInviteAcceptance :=
  match live_user s userID with
  | None => (s, Err ErrNotFound)
  | Some _ =>
    match Store_inviteLinks s !! tokenHash with
    | None => (s, Err ErrNotFound)
    | Some invite =>
      let now := clock 0 in
      match Store_conversations s !! ConversationInvite_ConversationID invite with
      | None => (s, Err ErrNotFound)
      | Some conversation =>
        let cid := Conversation_ID conversation in
        let members := membersOf s (ConversationInvite_ConversationID invite) in
        match members !! userID with
        | Some _ =>
          let activeMembers := conversationMembersLocked s cid in
          match ensureConversationMemberLocalIDsLocked s cid
                  (Conversation_Metadata conversation) activeMembers with
          | (s, Err e) => (s, Err e)
          | (s, Ok localIDs) =>
            let projected := ProjectConversationMembersWithLocalIDs
              (Conversation_Metadata conversation) activeMembers localIDs
              (conversationMemberTombstonesLocked s cid) in
            if negb (JSONValuesEqual projected (Conversation_Metadata conversation)) then
              let conversation := conversation <| Conversation_Metadata := projected |>
                                               <| Conversation_UpdatedAt := now |> in
              (s <| Store_conversations ::= <[cid := conversation]> |>,
               Ok (mkConversationInviteAcceptance conversation false))
            else (s, Ok (mkConversationInviteAcceptance conversation false))
          end
        | None =>
          match conversationInviteActiveError invite now with
          | Some e => (s, Err e)
          | None =>
            if negb (bool_decide (Conversation_Kind conversation = "group"))
               || (maxMembers <=? size members)%nat
            then (s, Err ErrInvalid)
            else
              let candidate := mkConversationMember cid userID "member" now None "" "" "" "" "" in
              match planConversationMembershipProjectionLocked s cid
                      (Conversation_Metadata conversation)
                      (prospectiveConversationMembersLocked s cid candidate) userID with
              | Err e => (s, Err e)
              | Ok (planned, projected) =>
                let s := setMember s (ConversationInvite_ConversationID invite) userID candidate in
                let s := dropTombstone s cid userID in
                let s := commitConversationMemberLocalIDsLocked s cid planned in
                let s := s <| Store_inviteLinks ::=
                  <[tokenHash := invite <| ConversationInvite_Uses ::= (λ n, int64_wrap (n + 1)) |>]> |> in
                let conversation := conversation <| Conversation_Metadata := projected |>
                                                 <| Conversation_UpdatedAt := now |> in
                let s := s <| Store_conversations ::= <[cid := conversation]> |> in
                (appendMemberAdded s cid userID userID (later 1 clock),
                 Ok (mkConversationInviteAcceptance conversation true))
              end
          end
        end
      end
    end
  end.

Definition zeroInvite : ConversationInvite :=
  mkConversationInvite uuid_Nil uuid_Nil uuid_Nil 0 0 0 None 0.

Definition RevokeConversationInvite s cid actorID (inviteID : UUID) (clock : Clock) :
    Store * res unit :=
  if negb (privileged (member s cid actorID)) then (s, Err ErrForbidden)
  else
    match Store_inviteLinkKeys s !! inviteID with
    | None => (s, Err ErrNotFound)
    | Some tokenKey =>
      let invite := default zeroInvite (Store_inviteLinks s !! tokenKey) in
      if negb (bool_decide (ConversationInvite_ConversationID invite = cid))
      then (s, Err ErrNotFound)
      else if bool_decide (ConversationInvite_RevokedAt invite = None)
      then (s <| Store_inviteLinks ::=
              <[tokenKey := invite <| ConversationInvite_RevokedAt := Some (clock 0) |>]> |>, Ok tt)
      else (s, Ok tt)
    end.

(** ** Leaving and handing over *)

Definition RemoveConversationMember s cid actorID userID (clock : Clock) : Store * res unit :=
  match Store_members s !! cid with
  | None => (s, Err ErrNotFound)
  | Some members =>
    if negb (bool_decide (Conversation_Kind (conversation_or_zero s cid) = "group"))
    then (s, Err ErrInvalid)
    else
      match members !! userID with
      | None => (s, Err ErrNotFound)
      | Some target =>
        if bool_decide (ConversationMember_Role target = "owner") then (s, Err ErrForbidden)
        else if negb (bool_decide (actorID = userID)) && negb (privileged (members !! actorID))
        then (s, Err ErrForbidden)
        else
          let conversation := conversation_or_zero s cid in
          let localID := default uuid_Nil (inner (Store_memberLocalIDs s) cid !! userID) in
          let localID := if bool_decide (localID = uuid_Nil) then userID else localID in
          let s := removeMember s cid userID in
          let s := s <| Store_memberTombstones ::= (λ t,
            <[cid := <[userID := mkConversationMemberTombstone userID localID]> (inner t cid)]> t) |> in
          let s := s <| Store_conversations ::=
            <[cid := conversation <| Conversation_UpdatedAt := clock 0 |>]> |> in
          let s := (projectConversationMembersLocked s cid).1 in
          (appendOutbox s "conversation.member_removed" cid
             (PMemberRemoved (mkConversationMemberRemoved cid actorID userID)) (later 1 clock),
           Ok tt)
      end
  end.

Definition TransferConversationOwnership s cid actorID (targetID : UUID) (clock : Clock) :
    Store * res unit :=
  if negb (bool_decide (Conversation_Kind (conversation_or_zero s cid) = "group"))
  then (s, Err ErrInvalid)
  else
    match Store_members s !! cid with
    | None => (s, Err ErrNotFound)
    | Some members =>
      match members !! actorID with
      | None => (s, Err ErrForbidden)
      | Some actor =>
        if negb (bool_decide (ConversationMember_Role actor = "owner")) then (s, Err ErrForbidden)
        else
          match members !! targetID with
          | None => (s, Err ErrInvalid)
          | Some target =>
            if bool_decide (targetID = actorID) then (s, Err ErrInvalid)
            else
              let s := setMember s cid actorID (actor <| ConversationMember_Role := "admin" |>) in
              let s := setMember s cid targetID (target <| ConversationMember_Role := "owner" |>) in
              (s <| Store_conversations ::= <[cid := (conversation_or_zero s cid)
                      <| Conversation_CreatedBy := targetID |>
                      <| Conversation_UpdatedAt := clock 0 |>]> |>, Ok tt)
          end
      end
    end.
End conversations.
