(* ===== verification/Membership.v ===== *)
(** * Ownership and membership invariants

    Every operation of [Conversations] preserves [conv_inv] (one owner, the recorded
    creator; rows keyed by their own identifiers; at most 1024 members). *)

From Stdlib Require Import ZArith Lia.
From S2P Require Import Prelude.
From S2P Require Import Runtime.
From S2P Require Import Domain.
From S2P Require Import Compliance.
From S2P Require Import StoreState.
From S2P Require Import Projection.
From S2P Require Import Conversations.

Section invariant.
Context `{GoRuntime}.
Implicit Types (s : Store) (cid actorID userID : UUID) (c : Conversation)
  (m : ConversationMember) (ms : gmap UUID ConversationMember).

Definition rows_ok cid ms : Prop :=
  ∀ u m, ms !! u = Some m →
    ConversationMember_ConversationID m = cid ∧ ConversationMember_UserID m = u.

(** The owner is the recorded creator, and is a member. *)
Definition owner_ok (createdBy : UUID) ms : Prop :=
  is_Some (ms !! createdBy) ∧
  ∀ u m, ms !! u = Some m → (ConversationMember_Role m = "owner" ↔ u = createdBy).

Record conv_inv s : Prop := {
  ci_dom : ∀ cid, is_Some (Store_conversations s !! cid) ↔ is_Some (Store_members s !! cid);
  ci_id : ∀ cid c, Store_conversations s !! cid = Some c → Conversation_ID c = cid;
  ci_rows : ∀ cid ms, Store_members s !! cid = Some ms → rows_ok cid ms;
  ci_owner : ∀ cid c ms, Store_conversations s !! cid = Some c →
    Store_members s !! cid = Some ms → owner_ok (Conversation_CreatedBy c) ms;
  ci_size : ∀ cid ms, Store_members s !! cid = Some ms → size ms ≤ maxMembers;
}.

Lemma conv_inv_frame s s' :
  Store_conversations s' = Store_conversations s → Store_members s' = Store_members s →
  conv_inv s → conv_inv s'.
Proof. intros Hc Hm []. split; by rewrite ?Hc, ?Hm. Qed.

(** Writing one conversation with its members. *)
Lemma conv_inv_put s s' cid c ms :
  conv_inv s → Store_conversations s' = <[cid := c]> (Store_conversations s) →
  Store_members s' = <[cid := ms]> (Store_members s) →
  Conversation_ID c = cid → rows_ok cid ms → owner_ok (Conversation_CreatedBy c) ms →
  size ms ≤ maxMembers → conv_inv s'.
Proof.
  intros [Hdom Hid Hrows Hown Hsize] Hc Hm Hcid Hr Ho Hs. split; rewrite ?Hc, ?Hm.
  - intros i. destruct (decide (i = cid)) as [->|Hne].
    + rewrite !lookup_insert_eq. split; eauto.
    + rewrite !lookup_insert_ne by done. apply Hdom.
  - intros i e [[<- <-]|[_ He]]%lookup_insert_Some; eauto.
  - intros i e [[<- <-]|[_ He]]%lookup_insert_Some; eauto.
  - intros i e f He Hf. destruct (decide (i = cid)) as [->|Hne].
    + rewrite lookup_insert_eq in He. rewrite lookup_insert_eq in Hf. by simplify_eq.
    + rewrite lookup_insert_ne in He by done. rewrite lookup_insert_ne in Hf by done. eauto.
  - intros i e [[<- <-]|[_ He]]%lookup_insert_Some; eauto.
Qed.

(** Writing a conversation row that keeps its identifier and creator. *)
Lemma conv_inv_row s s' cid c c' :
  conv_inv s → Store_conversations s !! cid = Some c →
  Store_conversations s' = <[cid := c']> (Store_conversations s) →
  Store_members s' = Store_members s →
  Conversation_ID c' = Conversation_ID c → Conversation_CreatedBy c' = Conversation_CreatedBy c →
  conv_inv s'.
Proof.
  intros Hs Hc Hcs Hms Hid Hcb. pose proof (proj1 (ci_dom s Hs cid)) as [ms Hm]; [by eexists|].
  apply (conv_inv_put s s' cid c' ms); try done.
  - by rewrite insert_id.
  - rewrite Hid. by apply (ci_id s Hs).
  - by apply (ci_rows s Hs).
  - rewrite Hcb. by apply (ci_owner s Hs cid).
  - by apply (ci_size s Hs cid).
Qed.

Lemma conv_inv_delete s s' cid :
  conv_inv s → Store_conversations s' = delete cid (Store_conversations s) →
  Store_members s' = delete cid (Store_members s) → conv_inv s'.
Proof.
  intros [Hdom Hid Hrows Hown Hsize] Hc Hm. split; rewrite ?Hc, ?Hm.
  - intros i. destruct (decide (i = cid)) as [->|Hne].
    + rewrite !lookup_delete_eq. by split; intros [].
    + rewrite !lookup_delete_ne by done. apply Hdom.
  - intros i e [_ He]%lookup_delete_Some. eauto.
  - intros i e [_ He]%lookup_delete_Some. eauto.
  - intros i e f [_ He]%lookup_delete_Some [_ Hf]%lookup_delete_Some. eauto.
  - intros i e [_ He]%lookup_delete_Some. eauto.
Qed.

Lemma conv_inv_new : conv_inv New.
Proof.
  split; intros *; cbn; rewrite ?lookup_empty; try done; by split; intros [].
Qed.

(** Appending events touches neither table. *)
Lemma outbox_grows_tables s s' evs :
  outbox_grows s s' evs → Store_conversations s' = Store_conversations s ∧
  Store_members s' = Store_members s.
Proof. by intros [n ->]. Qed.

Lemma ensure_tables s cid metadata members :
  let s' := (ensureConversationMemberLocalIDsLocked s cid metadata members).1 in
  Store_conversations s' = Store_conversations s ∧ Store_members s' = Store_members s.
Proof. unfold ensureConversationMemberLocalIDsLocked. by case_match. Qed.

Lemma dropTombstone_tables s cid userID :
  Store_conversations (dropTombstone s cid userID) = Store_conversations s ∧
  Store_members (dropTombstone s cid userID) = Store_members s.
Proof. unfold dropTombstone. by case_match. Qed.

(** ** Sets of members *)

Lemma rows_ok_insert cid ms u m :
  rows_ok cid ms → ConversationMember_ConversationID m = cid → ConversationMember_UserID m = u →
  rows_ok cid (<[u := m]> ms).
Proof. intros Hr Hc Hu i e [[<- <-]|[_ He]]%lookup_insert_Some; eauto. Qed.

Lemma owner_ok_insert createdBy ms u m :
  owner_ok createdBy ms → u ≠ createdBy → ConversationMember_Role m ≠ "owner" →
  owner_ok createdBy (<[u := m]> ms).
Proof.
  intros [Hmem Hown] Hu Hr. split; [by rewrite lookup_insert_ne|].
  intros i e [[<- <-]|[_ He]]%lookup_insert_Some; [done|eauto].
Qed.

(** Not an owner, or not there: not the creator. *)
Lemma not_creator createdBy ms u :
  owner_ok createdBy ms → role (ms !! u) ≠ "owner" → u ≠ createdBy.
Proof.
  intros [[m Hm] Hown] Hr ->. apply Hr. rewrite Hm. simpl. by apply (Hown createdBy m).
Qed.

Lemma size_insert_bound ms u m :
  size ms ≤ maxMembers → (ms !! u = None → size ms < maxMembers) →
  size (<[u := m]> ms) ≤ maxMembers.
Proof.
  intros Hs Hn. rewrite map_size_insert. destruct (ms !! u) eqn:Hu; [done|].
  specialize (Hn eq_refl). simpl. lia.
Qed.

(** The members of a new conversation. *)
Definition newRow cid createdBy (now : Z) (u : UUID) : ConversationMember :=
  mkConversationMember cid u (if bool_decide (u = createdBy) then "owner" else "member")
    now None "" "" "" "" "".

Lemma newMembers_lookup cid createdBy now ids u :
  newMembers cid createdBy now ids !! u
  = if decide (u ∈ ids) then Some (newRow cid createdBy now u) else None.
Proof.
  unfold newMembers. rewrite <- (lookup_empty (M := gmap UUID) (A := ConversationMember) u).
  generalize (∅ : gmap UUID ConversationMember) as t.
  induction ids as [|id ids IH]; intros t.
  { by destruct (decide (u ∈ [])) as [?%not_elem_of_nil|]. }
  simpl. rewrite IH. destruct (decide (u ∈ ids)); [by rewrite decide_True by set_solver|].
  destruct (decide (u = id)) as [->|Hne].
  - by rewrite lookup_insert_eq, decide_True by set_solver.
  - by rewrite lookup_insert_ne, decide_False by set_solver.
Qed.

Lemma newMembers_size cid createdBy now ids :
  NoDup ids → size (newMembers cid createdBy now ids) ≤ length ids.
Proof.
  intros Hnd. rewrite <- (size_dom (D := gset UUID)).
  transitivity (size (list_to_set ids : gset UUID)).
  - apply subseteq_size. intros u. rewrite elem_of_dom, newMembers_lookup.
    intros [m Hm]. case_decide; [|done]. by apply elem_of_list_to_set.
  - by rewrite size_list_to_set.
Qed.

Lemma newMembers_ok cid createdBy now ids :
  createdBy ≠ uuid_Nil → 
  let ms := newMembers cid createdBy now (uniqueUUIDs (createdBy :: ids)) in
  rows_ok cid ms ∧ owner_ok createdBy ms.
Proof.
  intros Hnil ms.
  assert (∀ u m, ms !! u = Some m → m = newRow cid createdBy now u) as Hrow.
  { intros u m. unfold ms. rewrite newMembers_lookup. by case_decide; intros [= <-]. }
  split.
  - intros u m ->%Hrow. done.
  - split.
    + unfold ms. rewrite newMembers_lookup, decide_True; [by eexists|].
      apply elem_of_uniqueUUIDs. set_solver.
    + intros u m ->%Hrow. simpl. by case_bool_decide.
Qed.

(** ** Every operation keeps the invariant *)

Lemma CreateConversation_inv s p newID clock :
  conv_inv s → CreateConversationParams_CreatedBy p ≠ uuid_Nil →
  length (uniqueUUIDs (CreateConversationParams_CreatedBy p
                       :: CreateConversationParams_MemberIDs p)) ≤ maxMembers →
  conv_inv (CreateConversation s p newID clock).1.
Proof.
  intros Hs Hnil Hlen. unfold CreateConversation. cbv zeta.
  destruct (if bool_decide _ then _ else _) as [[]|]; [done|].
  destruct (existsb _ _); [done|].
  set (cid := if bool_decide _ then newID else _).
  destruct (Store_conversations s !! cid) as [existing|] eqn:Hex; [by case_match|].
  set (c := mkConversation cid _ _ _ _ _ _ _ _).
  set (ms := newMembers cid _ _ _). set (s1 := openConversation s c ms).
  pose proof (ensure_tables s1 cid (Conversation_Metadata c) (conversationMembersLocked s1 cid))
    as [Hc Hm].
  destruct (ensureConversationMemberLocalIDsLocked _ _ _ _) as [s2 [localIDs|e]]; cbn [fst] in *.
  - set (c' := if bool_decide (Conversation_Kind c = "group") then _ else c).
    apply (conv_inv_put s _ cid c' ms); [done| | | | | |].
    + cbn. rewrite Hc. cbn. by rewrite insert_insert_eq.
    + cbn. by rewrite Hm.
    + unfold c'. by case_match.
    + by apply newMembers_ok.
    + assert (Conversation_CreatedBy c' = CreateConversationParams_CreatedBy p) as ->
        by (unfold c'; by case_match).
      by apply newMembers_ok.
    + etrans; [apply newMembers_size, NoDup_uniqueUUIDs|done].
  - apply (conv_inv_frame s); [| |done].
    + cbn. rewrite Hc. cbn. by rewrite delete_insert_id.
    + cbn. rewrite Hm. cbn. rewrite delete_insert_id; [done|].
      apply eq_None_not_Some. rewrite <- (ci_dom s Hs), Hex. by intros [].
Qed.

Lemma UpdateConversation_inv s cid actorID p clock :
  conv_inv s → conv_inv (UpdateConversation s cid actorID p clock).1.
Proof.
  intros Hs. unfold UpdateConversation. destruct (Store_conversations s !! cid) as [c|] eqn:Hc; [|done].
  destruct (negb _); [done|]. cbv zeta.
  set (c1 := match UpdateConversationParams_Metadata p with Some _ => _ | None => _ end).
  assert (Conversation_ID c1 = Conversation_ID c ∧ Conversation_CreatedBy c1 = Conversation_CreatedBy c)
    as [Hid Hcb] by (unfold c1; by repeat case_match).
  destruct (bool_decide _).
  - pose proof (ensure_tables s cid (Conversation_Metadata c1) (conversationMembersLocked s cid))
      as [Hcs Hms].
    destruct (ensureConversationMemberLocalIDsLocked _ _ _ _) as [s2 [localIDs|e]]; cbn [fst] in *.
    + by eapply (conv_inv_row s _ cid c);
        [done|done|cbn; rewrite Hcs; reflexivity|cbn; rewrite Hms|..].
    + by apply (conv_inv_frame s).
  - by eapply (conv_inv_row s _ cid c).
Qed.

Lemma appendMediaDeletesAt_tables s agg keys notBefore clock :
  Store_conversations (appendMediaDeletesAt s agg keys notBefore clock) = Store_conversations s ∧
  Store_members (appendMediaDeletesAt s agg keys notBefore clock) = Store_members s.
Proof.
  destruct (appendMediaDeletesAt_grows s agg keys notBefore clock) as (evs & all & Hg & _).
  by eapply outbox_grows_tables.
Qed.

Lemma appendMediaDeleteBatches_tables fuel s cid keys notBefore clock :
  let s' := appendMediaDeleteBatches fuel s cid keys notBefore clock in
  Store_conversations s' = Store_conversations s ∧ Store_members s' = Store_members s.
Proof.
  revert s keys clock. induction fuel as [|fuel IH]; intros s keys clock; [done|].
  destruct keys as [|k keys]; [done|]. cbn [appendMediaDeleteBatches].
  cbv zeta.
  match goal with |- context [appendMediaDeleteBatches fuel ?s1 _ ?k1 _ ?c1] =>
    destruct (IH s1 k1 c1) as [-> ->] end.
  apply appendMediaDeletesAt_tables.
Qed.

Lemma DeleteConversation_inv s cid actorID clock :
  conv_inv s → conv_inv (DeleteConversation s cid actorID clock).1.
Proof.
  intros Hs. unfold DeleteConversation. destruct (Store_conversations s !! cid) as [c|] eqn:Hc; [|done].
  destruct (_ || _); [done|]. cbv zeta. cbn [fst].
  match goal with |- conv_inv (appendMediaDeleteBatches ?f ?s1 ?c ?k ?n ?cl) =>
    destruct (appendMediaDeleteBatches_tables f s1 c k n cl) as [Hcs Hms] end.
  by apply (conv_inv_delete s _ cid).
Qed.

Lemma plan_ok_irrelevant s cid userID m planned metadata updatedAt :
  Store_conversations (commitJoin s cid userID m planned metadata updatedAt)
    = <[cid := (conversation_or_zero s cid) <| Conversation_Metadata := metadata |>
               <| Conversation_UpdatedAt := updatedAt |>]> (Store_conversations s) ∧
  Store_members (commitJoin s cid userID m planned metadata updatedAt)
    = <[cid := <[userID := m]> (membersOf s cid)]> (Store_members s).
Proof.
  unfold commitJoin. cbn.
  destruct (dropTombstone_tables (setMember s cid userID m) cid userID) as [Hc Hm].
  split.
  - rewrite Hc. cbn. unfold conversation_or_zero. cbn. by rewrite Hc.
  - by rewrite Hm.
Qed.

Lemma membersOf_some s cid ms : Store_members s !! cid = Some ms → membersOf s cid = ms.
Proof. intros Hm. unfold membersOf, inner. by rewrite Hm. Qed.

(** Admitting one member to a conversation. *)
Lemma conv_inv_join s s' cid c ms userID m :
  conv_inv s → Store_conversations s !! cid = Some c → Store_members s !! cid = Some ms →
  ConversationMember_ConversationID m = cid → ConversationMember_UserID m = userID →
  ConversationMember_Role m ≠ "owner" → role (ms !! userID) ≠ "owner" →
  (ms !! userID = None → size ms < maxMembers) →
  (∃ c', Conversation_ID c' = Conversation_ID c ∧
     Conversation_CreatedBy c' = Conversation_CreatedBy c ∧
     Store_conversations s' = <[cid := c']> (Store_conversations s)) →
  Store_members s' = <[cid := <[userID := m]> ms]> (Store_members s) → conv_inv s'.
Proof.
  intros Hs Hc Hm Hmc Hmu Hr Hrt Hsz (c' & Hid & Hcb & Hcs) Hms.
  pose proof (ci_owner s Hs _ _ _ Hc Hm) as Hown.
  apply (conv_inv_put s s' cid c' (<[userID := m]> ms)); try done.
  - rewrite Hid. by apply (ci_id s Hs).
  - apply rows_ok_insert; [by apply (ci_rows s Hs)|done|done].
  - rewrite Hcb. apply owner_ok_insert; [done|by eapply not_creator|done].
  - apply size_insert_bound; [by apply (ci_size s Hs cid)|done].
Qed.

Lemma AddConversationMember_inv s cid actorID userID newRole clock :
  conv_inv s → conv_inv (AddConversationMember s cid actorID userID newRole clock).1.
Proof.
  intros Hs. unfold AddConversationMember.
  destruct (Store_members s !! cid) as [ms|] eqn:Hms; [|done].
  destruct (negb _); [done|]. destruct (_ && _) eqn:Hrole; [done|].
  destruct (live_user s userID); [|done]. destruct (negb (privileged _)); [done|]. cbv zeta.
  destruct (bool_decide (role (ms !! userID) = "owner")) eqn:Hown; [done|].
  destruct (bool_decide (ms !! userID = None) && _) eqn:Hfull; [done|].
  destruct (planConversationMembershipProjectionLocked _ _ _ _ _) as [[planned projected]|]; [|done].
  pose proof (proj2 (ci_dom s Hs cid)) as [c Hc]; [by eexists|]. bool_prop.
  set (cand := mkConversationMember _ _ _ _ _ _ _ _ _ _).
  destruct (plan_ok_irrelevant s cid userID cand planned projected (clock 1)) as [Hcs Hm].
  rewrite (membersOf_some s cid ms Hms) in Hm. cbn [fst].
  assert (conv_inv (commitJoin s cid userID cand planned projected (clock 1))) as Hinv.
  { eapply (conv_inv_join s _ cid c ms userID cand); try done.
    - change (newRole ≠ "owner"). apply andb_false_iff in Hrole as [Hr|Hr]; bool_prop; congruence.
    - intros Hn. rewrite bool_decide_true in Hfull by done. cbn [andb] in Hfull.
      apply Nat.leb_gt in Hfull. done.
    - eexists. split_and!; [| |exact Hcs]; unfold conversation_or_zero; by rewrite Hc. }
  case_bool_decide; [|done].
  by apply (conv_inv_frame (commitJoin s cid userID cand planned projected (clock 1))).
Qed.

Lemma commitClaim_inv s userID phone now plan clock cid :
  conv_inv s → ClaimPlan_conversationID plan = cid →
  is_Some (Store_conversations s !! cid) →
  (ClaimPlan_joined plan = true →
     member s cid userID = None ∧ size (membersOf s cid) < maxMembers ∧
     ConversationMember_ConversationID (ClaimPlan_candidate plan) = cid ∧
     ConversationMember_UserID (ClaimPlan_candidate plan) = userID ∧
     ConversationMember_Role (ClaimPlan_candidate plan) ≠ "owner") →
  let s' := commitClaim s userID phone now plan clock in
  conv_inv s' ∧
  (∀ i, i ≠ cid → Store_conversations s' !! i = Store_conversations s !! i ∧
                  Store_members s' !! i = Store_members s !! i).
Proof.
  intros Hs Hcid [c Hc] Hjoin. unfold commitClaim. cbv zeta. rewrite Hcid.
  pose proof (proj1 (ci_dom s Hs cid)) as [ms Hms]; [by eexists|].
  set (s1 := s <| Store_invites ::= _ |>).
  set (s2 := if ClaimPlan_joined plan then _ else s1).
  assert (Store_conversations s2 = Store_conversations s) as Hc2 by (unfold s2; by case_match).
  destruct (dropTombstone_tables s2 cid userID) as [Hc3 Hm3].
  assert (Store_conversations (dropTombstone s2 cid userID) !! cid = Some c) as Hlk
    by (by rewrite Hc3, Hc2).
  destruct (ClaimPlan_joined plan).
  - destruct (Hjoin eq_refl) as (Hnone & Hsz & Hmc & Hmu & Hmr).
    unfold member in Hnone. rewrite (membersOf_some s cid ms Hms) in Hnone, Hsz.
    assert (Store_members s2 = <[cid := <[userID := ClaimPlan_candidate plan]> ms]> (Store_members s))
      as Hm2.
    { unfold s2. cbn. unfold inner. by rewrite Hms. }
    split.
    + eapply (conv_inv_join s _ cid c ms userID (ClaimPlan_candidate plan)); try done.
      * by rewrite Hnone.
      * eexists. split_and!; [| |cbn; rewrite Hc3, Hc2; reflexivity];
          unfold conversation_or_zero; cbn; by rewrite Hlk.
      * cbn. by rewrite Hm3, Hm2.
    + intros i Hi. cbn. rewrite Hc3, Hc2, Hm3, Hm2. by rewrite !lookup_insert_ne.
  - assert (Store_members s2 = Store_members s) as Hm2 by done. split.
    + eapply (conv_inv_row s _ cid c); [done|done|cbn; rewrite Hc3, Hc2; reflexivity|..].
      * cbn. by rewrite Hm3.
      * unfold conversation_or_zero. cbn. by rewrite Hlk.
      * unfold conversation_or_zero. cbn. by rewrite Hlk.
    + intros i Hi. cbn. rewrite Hc3, Hc2, Hm3, Hm2. by rewrite lookup_insert_ne.
Qed.

(** What a plan promises about the state it was made in. *)
Definition plan_ok s userID (plan : ClaimPlan) : Prop :=
  let cid := ClaimPlan_conversationID plan in
  is_Some (Store_conversations s !! cid) ∧
  (ClaimPlan_joined plan = true →
     member s cid userID = None ∧ size (membersOf s cid) < maxMembers ∧
     ConversationMember_ConversationID (ClaimPlan_candidate plan) = cid ∧
     ConversationMember_UserID (ClaimPlan_candidate plan) = userID ∧
     ConversationMember_Role (ClaimPlan_candidate plan) ≠ "owner").

Lemma planClaim_ok s userID now cid plan :
  planClaim s userID now cid = Ok plan → ClaimPlan_conversationID plan = cid ∧ plan_ok s userID plan.
Proof.
  unfold planClaim. destruct (Store_conversations s !! cid) as [c|] eqn:Hc; [|done].
  destruct (negb _); [done|]. cbv zeta.
  destruct (bool_decide (member s cid userID = None) && _) eqn:Hfull; [done|].
  destruct (planConversationMembershipProjectionLocked _ _ _ _ _) as [[]|]; [|done].
  intros [= <-]. split; [done|]. unfold plan_ok. cbn. split; [by eexists|].
  intros Hj. bool_prop. rewrite Hj in *. rewrite bool_decide_true in Hfull by done.
  cbn [andb] in Hfull. apply Nat.leb_gt in Hfull. done.
Qed.

Lemma planClaims_ok s userID now cids plans :
  planClaims s userID now cids = Ok plans →
  ClaimPlan_conversationID <$> plans = cids ∧ Forall (plan_ok s userID) plans.
Proof.
  revert plans. induction cids as [|cid cids IH]; intros plans Hp; simpl in Hp; [by simplify_eq|].
  destruct (planClaim s userID now cid) as [plan|] eqn:Hplan; [|done].
  destruct (planClaims s userID now cids) as [rest|]; [|done]. simplify_eq.
  destruct (IH rest eq_refl) as [<- Hall]. apply planClaim_ok in Hplan as [<- Hok].
  split; [done|by constructor].
Qed.

Lemma plan_ok_other s s' userID plan :
  (let cid := ClaimPlan_conversationID plan in
   Store_conversations s' !! cid = Store_conversations s !! cid ∧
   Store_members s' !! cid = Store_members s !! cid) →
  plan_ok s userID plan → plan_ok s' userID plan.
Proof.
  intros [Hc Hm] [Hs Hj]. unfold plan_ok, member, membersOf, inner in *. by rewrite Hc, Hm.
Qed.

Lemma commitClaims_inv s userID phone now plans clock :
  conv_inv s → NoDup (ClaimPlan_conversationID <$> plans) → Forall (plan_ok s userID) plans →
  conv_inv (commitClaims s userID phone now plans clock).
Proof.
  revert s clock. induction plans as [|plan plans IH]; intros s clock Hs Hnd Hall; [done|].
  rewrite fmap_cons, NoDup_cons in Hnd. destruct Hnd as [Hn Hnd].
  apply Forall_cons in Hall as [[Hex Hj] Hall]. simpl.
  destruct (commitClaim_inv s userID phone now plan clock _ Hs eq_refl Hex Hj) as [Hinv Hoth].
  apply IH; [done|done|]. apply Forall_forall. intros plan' Hp'. rewrite Forall_forall in Hall.
  apply (plan_ok_other s); [|by apply Hall]. apply Hoth.
  intros Heq. apply Hn. rewrite <- Heq. by apply list_elem_of_fmap_2.
Qed.

(** The conversations that invite a phone number, each once. *)
Lemma NoDup_invited s (phone : string) :
  NoDup (merge_sort uuid_text_le (omap (λ '(cid, phones),
    if bool_decide (is_Some (phones !! phone)) then Some cid else None) (range (Store_invites s)))).
Proof.
  rewrite merge_sort_Permutation.
  assert (NoDup (range (Store_invites s)).*1) as Hnd by apply NoDup_fst_range.
  revert Hnd. generalize (range (Store_invites s)) as l. induction l as [|[k v] l IH]; [constructor|].
  rewrite fmap_cons, NoDup_cons. intros [Hk Hnd]. simpl.
  case_bool_decide; [|by apply IH]. constructor; [|by apply IH]. intros Hin. apply Hk.
  apply list_elem_of_omap in Hin as ([k' v'] & Hin & Hs). case_bool_decide; [|done]. simplify_eq.
  by apply (list_elem_of_fmap_2 fst) in Hin.
Qed.

Lemma ClaimConversationInvites_inv s userID phone clock :
  conv_inv s → conv_inv (ClaimConversationInvites s userID phone clock).1.
Proof.
  intros Hs. unfold ClaimConversationInvites. destruct (live_user s userID); [|done]. cbv zeta.
  set (cids := merge_sort _ _).
  destruct (planClaims s userID (clock 0) cids) as [plans|] eqn:Hp; [|done].
  apply planClaims_ok in Hp as [Hids Hall]. apply commitClaims_inv; [done| |done].
  rewrite Hids. apply NoDup_invited.
Qed.

Lemma AcceptConversationInvite_inv s tokenHash userID clock :
  conv_inv s → conv_inv (AcceptConversationInvite s tokenHash userID clock).1.
Proof.
  intros Hs. unfold AcceptConversationInvite. destruct (live_user s userID); [|done].
  destruct (Store_inviteLinks s !! tokenHash) as [invite|]; [|done]. cbv zeta.
  set (cid := ConversationInvite_ConversationID invite).
  destruct (Store_conversations s !! cid) as [c|] eqn:Hc; [|done].
  assert (Conversation_ID c = cid) as -> by (by apply (ci_id s Hs)).
  pose proof (proj1 (ci_dom s Hs cid)) as [ms Hms]; [by eexists|].
  rewrite (membersOf_some s cid ms Hms).
  destruct (ms !! userID) as [m|] eqn:Hm.
  - pose proof (ensure_tables s cid (Conversation_Metadata c) (conversationMembersLocked s cid))
      as [Hcs Hmss].
    destruct (ensureConversationMemberLocalIDsLocked _ _ _ _) as [s2 [localIDs|e]]; cbn [fst] in *;
      [|by apply (conv_inv_frame s)].
    destruct (negb _); [|by apply (conv_inv_frame s)].
    by eapply (conv_inv_row s _ cid c); [done|done|cbn; rewrite Hcs; reflexivity|cbn; rewrite Hmss|..].
  - destruct (conversationInviteActiveError invite (clock 0)); [done|].
    destruct (_ || _) eqn:Hfull; [done|]. bool_prop. apply Nat.leb_gt in H1.
    destruct (planConversationMembershipProjectionLocked _ _ _ _ _) as [[planned projected]|]; [|done].
    cbn [fst]. set (cand := mkConversationMember _ _ _ _ _ _ _ _ _ _).
    destruct (dropTombstone_tables (setMember s cid userID cand) cid userID) as [Hc3 Hm3].
    eapply (conv_inv_join s _ cid c ms userID cand); try done.
    + by rewrite Hm.
    + eexists. split_and!; [| |cbn; rewrite Hc3; reflexivity]; done.
    + cbn. rewrite Hm3. cbn. unfold inner. by rewrite Hms.
Qed.

Lemma projectConversationMembersLocked_tables s cid :
  let s' := (projectConversationMembersLocked s cid).1 in
  Store_members s' = Store_members s ∧
  (Store_conversations s' = Store_conversations s ∨
   ∃ c c', Store_conversations s !! cid = Some c ∧ Conversation_ID c' = Conversation_ID c ∧
     Conversation_CreatedBy c' = Conversation_CreatedBy c ∧
     Store_conversations s' = <[cid := c']> (Store_conversations s)).
Proof.
  unfold projectConversationMembersLocked.
  destruct (Store_conversations s !! cid) as [c|] eqn:Hc; [|by split; [|left]].
  destruct (negb _); [by split; [|left]|].
  pose proof (ensure_tables s cid (Conversation_Metadata c) (conversationMembersLocked s cid))
    as [Hcs Hms].
  destruct (ensureConversationMemberLocalIDsLocked _ _ _ _) as [s2 [localIDs|e]]; cbn [fst] in *;
    [|by split; [|left]].
  split; [done|]. right. exists c. eexists. split_and!; [done| | |cbn; rewrite Hcs; reflexivity]; done.
Qed.

Lemma RemoveConversationMember_inv s cid actorID userID clock :
  conv_inv s → conv_inv (RemoveConversationMember s cid actorID userID clock).1.
Proof.
  intros Hs. unfold RemoveConversationMember.
  destruct (Store_members s !! cid) as [ms|] eqn:Hms; [|done]. destruct (negb _); [done|].
  destruct (ms !! userID) as [target|] eqn:Ht; [|done]. case_bool_decide as Hr; [done|].
  destruct (_ && _); [done|]. cbv zeta. cbn [fst].
  pose proof (proj2 (ci_dom s Hs cid)) as [c Hc]; [by eexists|].
  match goal with |- context [projectConversationMembersLocked ?s1 cid] => set (s2 := s1) end.
  assert (userID ≠ Conversation_CreatedBy c) as Hne.
  { eapply not_creator; [by apply (ci_owner s Hs cid)|]. by rewrite Ht. }
  assert (conv_inv s2) as Hs2.
  { eapply (conv_inv_put s s2 cid _ (delete userID ms)); [done|reflexivity|..].
    - cbn. unfold inner. by rewrite Hms.
    - unfold conversation_or_zero. rewrite Hc. exact (ci_id s Hs _ _ Hc).
    - intros u m [_ Hm]%lookup_delete_Some. by apply (ci_rows s Hs cid ms).
    - pose proof (ci_owner s Hs _ _ _ Hc Hms) as [Hmem Hown].
      unfold conversation_or_zero. rewrite Hc. cbn. split; [by rewrite lookup_delete_ne|].
      intros u m [_ Hm]%lookup_delete_Some. eauto.
    - rewrite map_size_delete. pose proof (ci_size s Hs cid ms Hms). destruct (ms !! userID); simpl; lia. }
  destruct (projectConversationMembersLocked_tables s2 cid) as [Hm3 [Hc3|(c2 & c3 & Hc2 & Hid & Hcb & Hc3)]].
  - by apply (conv_inv_frame s2).
  - by eapply (conv_inv_row s2 _ cid c2).
Qed.

Lemma TransferConversationOwnership_inv s cid actorID targetID clock :
  conv_inv s → conv_inv (TransferConversationOwnership s cid actorID targetID clock).1.
Proof.
  intros Hs. unfold TransferConversationOwnership. destruct (negb _); [done|].
  destruct (Store_members s !! cid) as [ms|] eqn:Hms; [|done].
  destruct (ms !! actorID) as [actor|] eqn:Ha; [|done].
  case_bool_decide as Hr; cbn [negb]; [|done].
  destruct (ms !! targetID) as [target|] eqn:Ht; [|done]. case_bool_decide as Hne; [done|]. cbv zeta.
  pose proof (proj2 (ci_dom s Hs cid)) as [c Hc]; [by eexists|].
  pose proof (ci_owner s Hs _ _ _ Hc Hms) as [Hmem Hown].
  assert (actorID = Conversation_CreatedBy c) as -> by (by apply (Hown actorID actor)).
  set (a' := actor <| ConversationMember_Role := "admin" |>).
  set (t' := target <| ConversationMember_Role := "owner" |>).
  destruct (ci_rows s Hs cid ms Hms _ _ Ha) as [Ha1 Ha2].
  destruct (ci_rows s Hs cid ms Hms _ _ Ht) as [Ht1 Ht2].
  eapply (conv_inv_put s _ cid _ (<[targetID := t']> (<[Conversation_CreatedBy c := a']> ms)));
    [done|reflexivity|..].
  - cbn. unfold inner. rewrite lookup_insert_eq, Hms. cbn. by rewrite insert_insert_eq.
  - unfold conversation_or_zero. cbn. rewrite Hc. by apply (ci_id s Hs).
  - apply rows_ok_insert; [apply rows_ok_insert; [by apply (ci_rows s Hs)|done..]|done..].
  - cbn. split; [by rewrite lookup_insert_eq; eexists|].
    intros u m [[<- <-]|[Hu Hm]]%lookup_insert_Some; [done|].
    apply lookup_insert_Some in Hm as [[<- <-]|[Hu' Hm]]; [split; [done|congruence]|].
    rewrite (Hown u m Hm). split; congruence.
  - rewrite !map_size_insert. rewrite lookup_insert_ne by done. rewrite Ht, Ha. simpl.
    by apply (ci_size s Hs cid).
Qed.
End invariant.

(** ** Runs *)

Inductive ConvOp :=
  | OpCreateConversation (p : CreateConversationParams) (newID : UUID) (clock : Clock)
  | OpUpdateConversation (cid actorID : UUID) (p : UpdateConversationParams) (clock : Clock)
  | OpDeleteConversation (cid actorID : UUID) (clock : Clock)
  | OpAddMember (cid actorID userID : UUID) (newRole : string) (clock : Clock)
  | OpCreateInvites (cid actorID : UUID) (phones : list string)
  | OpClaimInvites (userID : UUID) (phone : string) (clock : Clock)
  | OpCreateInvite (p : CreateConversationInviteParams) (newID : UUID) (clock : Clock)
  | OpAcceptInvite (tokenHash : string) (userID : UUID) (clock : Clock)
  | OpRevokeInvite (cid actorID inviteID : UUID) (clock : Clock)
  | OpRemoveMember (cid actorID userID : UUID) (clock : Clock)
  | OpTransferOwnership (cid actorID targetID : UUID) (clock : Clock).

Section runs.
Context `{GoRuntime}.
Implicit Types (s : Store) (cid actorID userID : UUID) (op : ConvOp).

Definition conv_step s op : Store :=
  match op with
  | OpCreateConversation p newID clock => (CreateConversation s p newID clock).1
  | OpUpdateConversation cid actorID p clock => (UpdateConversation s cid actorID p clock).1
  | OpDeleteConversation cid actorID clock => (DeleteConversation s cid actorID clock).1
  | OpAddMember cid actorID userID newRole clock =>
    (AddConversationMember s cid actorID userID newRole clock).1
  | OpCreateInvites cid actorID phones => (CreateConversationInvites s cid actorID phones).1
  | OpClaimInvites userID phone clock => (ClaimConversationInvites s userID phone clock).1
  | OpCreateInvite p newID clock => (CreateConversationInvite s p newID clock).1
  | OpAcceptInvite tokenHash userID clock => (AcceptConversationInvite s tokenHash userID clock).1
  | OpRevokeInvite cid actorID inviteID clock =>
    (RevokeConversationInvite s cid actorID inviteID clock).1
  | OpRemoveMember cid actorID userID clock =>
    (RemoveConversationMember s cid actorID userID clock).1
  | OpTransferOwnership cid actorID targetID clock =>
    (TransferConversationOwnership s cid actorID targetID clock).1
  end.

(** The HTTP layer names the authenticated user as creator and caps the list. *)
Definition conv_op_ok op : Prop :=
  match op with
  | OpCreateConversation p _ _ =>
    CreateConversationParams_CreatedBy p ≠ uuid_Nil ∧
    length (uniqueUUIDs (CreateConversationParams_CreatedBy p
                         :: CreateConversationParams_MemberIDs p)) ≤ maxMembers
  | _ => True
  end.

Lemma conv_inv_step s op : conv_inv s → conv_op_ok op → conv_inv (conv_step s op).
Proof.
  intros Hs Hop. destruct op; cbn [conv_step conv_op_ok] in *.
  - destruct Hop. by apply CreateConversation_inv.
  - by apply UpdateConversation_inv.
  - by apply DeleteConversation_inv.
  - by apply AddConversationMember_inv.
  - unfold CreateConversationInvites. case_match; [done|by apply (conv_inv_frame s)].
  - by apply ClaimConversationInvites_inv.
  - unfold CreateConversationInvite. cbv zeta. repeat (case_match; try done); by apply (conv_inv_frame s).
  - by apply AcceptConversationInvite_inv.
  - unfold RevokeConversationInvite. cbv zeta. repeat (case_match; try done); by apply (conv_inv_frame s).
  - by apply RemoveConversationMember_inv.
  - by apply TransferConversationOwnership_inv.
Qed.

(** Steps of other components may change a conversation row (its counter and
    times) but not its identity, creator or members. *)
Definition conv_identity (c : Conversation) : UUID * UUID :=
  (Conversation_ID c, Conversation_CreatedBy c).

Inductive conv_reachable : Store → Prop :=
  | conv_reach_new s : Store_conversations s = ∅ → Store_members s = ∅ → conv_reachable s
  | conv_reach_op s op : conv_reachable s → conv_op_ok op → conv_reachable (conv_step s op)
  | conv_reach_other s s' : conv_reachable s → Store_members s' = Store_members s →
      conv_identity <$> Store_conversations s' = conv_identity <$> Store_conversations s →
      conv_reachable s'.

Lemma conv_inv_other s s' :
  conv_inv s → Store_members s' = Store_members s →
  conv_identity <$> Store_conversations s' = conv_identity <$> Store_conversations s → conv_inv s'.
Proof.
  intros [Hdom Hid Hrows Hown Hsize] Hm Hc.
  assert (∀ cid c', Store_conversations s' !! cid = Some c' →
    ∃ c, Store_conversations s !! cid = Some c ∧ conv_identity c = conv_identity c') as Hback.
  { intros cid c' Hc'. assert ((conv_identity <$> Store_conversations s) !! cid = Some (conv_identity c'))
      as Hx by (by rewrite <- Hc, lookup_fmap, Hc'). apply lookup_fmap_Some in Hx as (c & Heq & Hx). eauto. }
  split; rewrite ?Hm; try done.
  - intros cid. rewrite <- Hdom. rewrite <- !(fmap_is_Some conv_identity), <- !lookup_fmap. by rewrite Hc.
  - intros cid c' Hc'. destruct (Hback _ _ Hc') as (c & Hlk & [= <- _]). eauto.
  - intros cid c' ms Hc' Hms. destruct (Hback _ _ Hc') as (c & Hlk & [= _ <-]). eauto.
Qed.

Lemma conv_reachable_inv s : conv_reachable s → conv_inv s.
Proof.
  induction 1 as [s Hc Hm|s op _ IH Hop|s s' _ IH Hm Hc].
  - apply (conv_inv_frame New); [done|done|apply conv_inv_new].
  - by apply conv_inv_step.
  - by eapply conv_inv_other.
Qed.

(** C3. Every conversation has exactly one owner, and it is the recorded
    creator: in every reachable state, whatever mixture of creations, additions,
    removals, invitations and transfers led to it, a member has the role owner
    if and only if it is the conversation's [CreatedBy], that user is a member,
    and the conversation has at most 1024 members. *)
Theorem exactly_one_owner s cid c :
  conv_reachable s → Store_conversations s !! cid = Some c →
  (∃ m, member s cid (Conversation_CreatedBy c) = Some m ∧ ConversationMember_Role m = "owner") ∧
  (∀ u m, member s cid u = Some m → ConversationMember_Role m = "owner" →
     u = Conversation_CreatedBy c) ∧
  size (membersOf s cid) ≤ maxMembers.
Proof.
  intros Hs%conv_reachable_inv Hc. pose proof (proj1 (ci_dom s Hs cid)) as [ms Hms]; [by eexists|].
  destruct (ci_owner s Hs _ _ _ Hc Hms) as [[m Hm] Hown].
  unfold member. rewrite (membersOf_some s cid ms Hms). split_and!.
  - exists m. split; [done|]. by apply (Hown (Conversation_CreatedBy c) m).
  - intros u m' Hm' Hr. by apply (Hown u m').
  - by apply (ci_size s Hs cid).
Qed.

(** ** The gates of a conversation *)

(** The ways into a conversation. *)
Inductive admitted s cid userID : ConvOp → Prop :=
  | admitted_create p newID clock :
      Store_conversations s !! cid = None →
      userID ∈ CreateConversationParams_CreatedBy p :: CreateConversationParams_MemberIDs p →
      admitted s cid userID (OpCreateConversation p newID clock)
  | admitted_add actorID newRole clock :
      privileged (member s cid actorID) = true → is_Some (live_user s userID) →
      newRole ≠ "owner" → admitted s cid userID (OpAddMember cid actorID userID newRole clock)
  | admitted_claim phone clock :
      is_Some (inner (Store_invites s) cid !! phone) →
      admitted s cid userID (OpClaimInvites userID phone clock)
  | admitted_accept tokenHash invite clock :
      Store_inviteLinks s !! tokenHash = Some invite → ConversationInvite_ConversationID invite = cid →
      conversationInviteActiveError invite (clock 0) = None →
      admitted s cid userID (OpAcceptInvite tokenHash userID clock).

(** The ways out. *)
Inductive released s cid userID : ConvOp → Prop :=
  | released_remove actorID clock :
      role (member s cid userID) ≠ "owner" →
      (actorID = userID ∨ privileged (member s cid actorID) = true) →
      released s cid userID (OpRemoveMember cid actorID userID clock)
  | released_delete actorID clock :
      role (member s cid actorID) = "owner" →
      released s cid userID (OpDeleteConversation cid actorID clock).

(** How one step relates the member tables. *)
Definition gated s s' op : Prop :=
  ∀ i u, (is_member s' i u = true → is_member s i u = true ∨ admitted s i u op) ∧
         (is_member s i u = true → is_member s' i u = true ∨ released s i u op).

Lemma is_member_spec s cid userID :
  is_member s cid userID = true ↔ is_Some (membersOf s cid !! userID).
Proof. unfold is_member, member. by rewrite bool_decide_eq_true. Qed.

Lemma gated_same s s' op : Store_members s' = Store_members s → gated s s' op.
Proof. intros Hm i u. unfold is_member, member, membersOf. rewrite Hm. auto. Qed.

Lemma membersOf_insert s s' cid ms i :
  Store_members s' = <[cid := ms]> (Store_members s) →
  membersOf s' i = if decide (i = cid) then ms else membersOf s i.
Proof.
  intros Hm. unfold membersOf, inner. rewrite Hm. destruct (decide (i = cid)) as [->|Hne].
  - by rewrite lookup_insert_eq.
  - by rewrite lookup_insert_ne.
Qed.

(** One row written. *)
Lemma gated_join s s' op cid userID m :
  Store_members s' = <[cid := <[userID := m]> (membersOf s cid)]> (Store_members s) →
  (is_member s cid userID = false → admitted s cid userID op) → gated s s' op.
Proof.
  intros Hm Ha i u. rewrite !is_member_spec, (membersOf_insert _ _ _ _ _ Hm).
  destruct (decide (i = cid)) as [->|Hne]; [|auto]. destruct (decide (u = userID)) as [->|Hu].
  - rewrite lookup_insert_eq. split; [|left; by eexists]. intros _.
    destruct (is_member s cid userID) eqn:Hmem; [left; by apply is_member_spec|auto].
  - rewrite lookup_insert_ne by done. auto.
Qed.

Lemma gated_create s p newID clock :
  conv_inv s → gated s (CreateConversation s p newID clock).1 (OpCreateConversation p newID clock).
Proof.
  intros Hs. unfold CreateConversation. cbv zeta.
  destruct (if bool_decide _ then _ else _) as [[]|]; [by apply gated_same|].
  destruct (existsb _ _); [by apply gated_same|].
  set (cid := if bool_decide _ then newID else _).
  destruct (Store_conversations s !! cid) as [existing|] eqn:Hex;
    [case_match; by apply gated_same|].
  assert (Store_members s !! cid = None) as Hnone.
  { apply eq_None_not_Some. rewrite <- (ci_dom s Hs), Hex. by intros []. }
  set (c := mkConversation cid _ _ _ _ _ _ _ _).
  set (ms := newMembers cid _ _ _). set (s1 := openConversation s c ms).
  pose proof (ensure_tables s1 cid (Conversation_Metadata c) (conversationMembersLocked s1 cid))
    as [_ Hm].
  destruct (ensureConversationMemberLocalIDsLocked _ _ _ _) as [s2 [localIDs|e]]; cbn [fst] in *.
  - intros i u. rewrite !is_member_spec. rewrite (membersOf_insert s _ cid ms i) by exact Hm.
    destruct (decide (i = cid)) as [->|Hne]; [|auto]. split.
    + unfold ms. rewrite newMembers_lookup. case_decide as Hin; [|by intros []].
      intros _. right. constructor; [done|]. by apply elem_of_uniqueUUIDs in Hin as [Hin _].
    + unfold membersOf, inner. rewrite Hnone. simpl. rewrite lookup_empty. by intros [].
  - apply gated_same. cbn. rewrite Hm. cbn. by rewrite delete_insert_id.
Qed.

Lemma gated_add s cid actorID userID newRole clock :
  gated s (AddConversationMember s cid actorID userID newRole clock).1
    (OpAddMember cid actorID userID newRole clock).
Proof.
  unfold AddConversationMember.
  destruct (Store_members s !! cid) as [ms|] eqn:Hms; [|by apply gated_same].
  destruct (negb _); [by apply gated_same|]. destruct (_ && _) eqn:Hrole; [by apply gated_same|].
  destruct (live_user s userID) eqn:Hlive; [|by apply gated_same].
  destruct (negb (privileged _)) eqn:Hpriv; [by apply gated_same|]. cbv zeta.
  destruct (bool_decide (role (ms !! userID) = "owner")); [by apply gated_same|].
  destruct (bool_decide (ms !! userID = None) && _); [by apply gated_same|].
  destruct (planConversationMembershipProjectionLocked _ _ _ _ _) as [[planned projected]|];
    [|by apply gated_same].
  cbn [fst]. set (cand := mkConversationMember _ _ _ _ _ _ _ _ _ _).
  destruct (plan_ok_irrelevant s cid userID cand planned projected (clock 1)) as [_ Hm].
  apply (gated_join _ _ _ cid userID cand).
  - destruct (bool_decide (ms !! userID = None)); exact Hm.
  - intros _. bool_prop. constructor.
    + unfold member. by rewrite (membersOf_some s cid ms Hms).
    + by eexists.
    + apply andb_false_iff in Hrole as [Hr|Hr]; bool_prop; congruence.
Qed.

Lemma gated_accept s tokenHash userID clock :
  conv_inv s →
  gated s (AcceptConversationInvite s tokenHash userID clock).1 (OpAcceptInvite tokenHash userID clock).
Proof.
  intros Hs. unfold AcceptConversationInvite. destruct (live_user s userID); [|by apply gated_same].
  destruct (Store_inviteLinks s !! tokenHash) as [invite|] eqn:Hinv; [|by apply gated_same]. cbv zeta.
  set (cid := ConversationInvite_ConversationID invite).
  destruct (Store_conversations s !! cid) as [c|] eqn:Hc; [|by apply gated_same].
  assert (Conversation_ID c = cid) as -> by (by apply (ci_id s Hs)).
  destruct (membersOf s cid !! userID) as [m|] eqn:Hm.
  - pose proof (ensure_tables s cid (Conversation_Metadata c) (conversationMembersLocked s cid))
      as [_ Hmss].
    destruct (ensureConversationMemberLocalIDsLocked _ _ _ _) as [s2 [localIDs|e]]; cbn [fst] in *;
      [|by apply gated_same]. destruct (negb _); by apply gated_same.
  - destruct (conversationInviteActiveError invite (clock 0)) eqn:Hact; [by apply gated_same|].
    destruct (_ || _); [by apply gated_same|].
    destruct (planConversationMembershipProjectionLocked _ _ _ _ _) as [[planned projected]|];
      [|by apply gated_same].
    cbn [fst]. set (cand := mkConversationMember _ _ _ _ _ _ _ _ _ _).
    destruct (dropTombstone_tables (setMember s cid userID cand) cid userID) as [_ Hm3].
    apply (gated_join _ _ _ cid userID cand).
    + cbn. by rewrite Hm3.
    + intros _. by eapply admitted_accept.
Qed.

Lemma gated_remove s cid actorID userID clock :
  gated s (RemoveConversationMember s cid actorID userID clock).1
    (OpRemoveMember cid actorID userID clock).
Proof.
  unfold RemoveConversationMember.
  destruct (Store_members s !! cid) as [ms|] eqn:Hms; [|by apply gated_same].
  destruct (negb _); [by apply gated_same|].
  destruct (ms !! userID) as [target|] eqn:Ht; [|by apply gated_same].
  case_bool_decide as Hr; [by apply gated_same|].
  destruct (_ && _) eqn:Hact; [by apply gated_same|]. cbv zeta. cbn [fst].
  match goal with |- context [projectConversationMembersLocked ?s1 cid] =>
    destruct (projectConversationMembersLocked_tables s1 cid) as [Hm3 _] end.
  intros i u. rewrite !is_member_spec.
  rewrite (membersOf_insert s _ cid (delete userID (membersOf s cid)) i) by exact Hm3.
  destruct (decide (i = cid)) as [->|Hne]; [|auto].
  rewrite (membersOf_some s cid ms Hms). destruct (decide (u = userID)) as [->|Hu].
  - rewrite lookup_delete_eq. split; [by intros []|]. intros _. right. constructor.
    + unfold member. rewrite (membersOf_some s cid ms Hms), Ht. done.
    + unfold member. rewrite (membersOf_some s cid ms Hms).
      apply andb_false_iff in Hact as [Ha|Ha]; bool_prop; [by left|by right].
  - rewrite lookup_delete_ne by done. auto.
Qed.

Lemma gated_delete s cid actorID clock :
  gated s (DeleteConversation s cid actorID clock).1 (OpDeleteConversation cid actorID clock).
Proof.
  unfold DeleteConversation. destruct (Store_conversations s !! cid); [|by apply gated_same].
  destruct (_ || _) eqn:Hg; [by apply gated_same|]. bool_prop. cbv zeta. cbn [fst].
  match goal with |- context [appendMediaDeleteBatches ?f ?s1 ?c ?k ?n ?cl] =>
    destruct (appendMediaDeleteBatches_tables f s1 c k n cl) as [_ Hm] end.
  intros i u. unfold is_member, member, membersOf, inner. rewrite Hm. cbn.
  destruct (decide (i = cid)) as [->|Hne].
  - rewrite lookup_delete_eq. simpl. rewrite lookup_empty. split.
    + rewrite bool_decide_false; [done|]. by intros [].
    + intros _. right. by constructor.
  - rewrite lookup_delete_ne by done. auto.
Qed.

(** What the commit of one plan does to the member tables. *)
Lemma commitClaim_members s userID phone now plan clock :
  Store_members (commitClaim s userID phone now plan clock)
  = if ClaimPlan_joined plan
    then <[ClaimPlan_conversationID plan := <[userID := ClaimPlan_candidate plan]>
             (membersOf s (ClaimPlan_conversationID plan))]> (Store_members s)
    else Store_members s.
Proof.
  unfold commitClaim. cbv zeta. cbn.
  match goal with |- Store_members (dropTombstone ?s2 ?c userID) = _ =>
    destruct (dropTombstone_tables s2 c userID) as [_ ->] end.
  by destruct (ClaimPlan_joined plan).
Qed.

Lemma commitClaims_members s userID phone now plans clock i u :
  let s' := commitClaims s userID phone now plans clock in
  (is_Some (membersOf s' i !! u) →
     is_Some (membersOf s i !! u) ∨ u = userID ∧ i ∈ (ClaimPlan_conversationID <$> plans)) ∧
  (is_Some (membersOf s i !! u) → is_Some (membersOf s' i !! u)).
Proof.
  revert s clock. induction plans as [|plan plans IH]; intros s clock; [by split; [left|]|].
  cbn [commitClaims]. cbv zeta.
  destruct (IH (commitClaim s userID phone now plan clock) (later 2 clock)) as [IH1 IH2].
  set (cid := ClaimPlan_conversationID plan).
  assert ((is_Some (membersOf (commitClaim s userID phone now plan clock) i !! u) →
      is_Some (membersOf s i !! u) ∨ u = userID ∧ i = cid) ∧
    (is_Some (membersOf s i !! u) →
      is_Some (membersOf (commitClaim s userID phone now plan clock) i !! u))) as [H1 H2].
  { pose proof (commitClaim_members s userID phone now plan clock) as Hm. fold cid in Hm.
    destruct (ClaimPlan_joined plan).
    - rewrite (membersOf_insert _ _ _ _ i Hm). destruct (decide (i = cid)) as [->|Hne]; [|auto].
      rewrite lookup_insert_is_Some'. naive_solver.
    - unfold membersOf. rewrite Hm. auto. }
  rewrite fmap_cons. fold cid. split; [|auto].
  intros [Hs|[-> Hin]]%IH1; [|right; split; [done|by right]].
  destruct (H1 Hs) as [?|[-> ->]]; [by left|right; split; [done|left]].
Qed.

Lemma gated_claim s userID phone clock :
  gated s (ClaimConversationInvites s userID phone clock).1 (OpClaimInvites userID phone clock).
Proof.
  unfold ClaimConversationInvites. destruct (live_user s userID) as [usr|]; [|by apply gated_same]. cbv zeta.
  set (cids := merge_sort _ _).
  destruct (planClaims s userID (clock 0) cids) as [plans|] eqn:Hp; [|by apply gated_same].
  apply planClaims_ok in Hp as [Hids _]. cbn [fst]. intros i u. rewrite !is_member_spec.
  destruct (commitClaims_members s userID phone (clock 0) plans (later 1 clock) i u) as [H1 H2].
  split; [|auto]. intros [Hs|[-> Hin]]%H1; [by left|right]. constructor.
  rewrite Hids in Hin. unfold cids in Hin. rewrite merge_sort_Permutation in Hin.
  apply list_elem_of_omap in Hin as ([k v] & Hin & Hk). case_bool_decide; [|done]. simplify_eq.
  apply elem_of_range in Hin. unfold inner. by rewrite Hin.
Qed.

Lemma setMember_twice_members s cid a am b bm i u :
  is_Some (membersOf s cid !! a) → is_Some (membersOf s cid !! b) →
  is_Some (membersOf (setMember (setMember s cid a am) cid b bm) i !! u) ↔
  is_Some (membersOf s i !! u).
Proof.
  intros Ha Hb. unfold setMember, membersOf, inner in *. cbn.
  destruct (decide (i = cid)) as [->|Hne].
  - rewrite !lookup_insert_eq. simpl. rewrite !lookup_insert_is_Some'. naive_solver.
  - by rewrite !lookup_insert_ne.
Qed.

Lemma gated_transfer s cid actorID targetID clock :
  gated s (TransferConversationOwnership s cid actorID targetID clock).1
    (OpTransferOwnership cid actorID targetID clock).
Proof.
  unfold TransferConversationOwnership. destruct (negb _); [by apply gated_same|].
  destruct (Store_members s !! cid) as [ms|] eqn:Hms; [|by apply gated_same].
  destruct (ms !! actorID) as [actor|] eqn:Ha; [|by apply gated_same].
  destruct (negb _); [by apply gated_same|].
  destruct (ms !! targetID) as [target|] eqn:Ht; [|by apply gated_same].
  destruct (bool_decide _); [by apply gated_same|]. cbv zeta.
  intros i u. rewrite !is_member_spec.
  pose proof (membersOf_some s cid ms Hms) as Hof.
  match goal with |- context [membersOf (?S <| Store_conversations ::= ?f |>, _).1 i] =>
    change (membersOf (S <| Store_conversations ::= f |>, Ok tt).1 i) with (membersOf S i) end.
  rewrite setMember_twice_members by (rewrite Hof; by eexists). auto.
Qed.

Lemma UpdateConversation_members s cid actorID p clock :
  Store_members (UpdateConversation s cid actorID p clock).1 = Store_members s.
Proof.
  unfold UpdateConversation. destruct (Store_conversations s !! cid) as [c|]; [|done].
  destruct (negb _); [done|]. cbv zeta. destruct (bool_decide _); [|done].
  match goal with |- context [ensureConversationMemberLocalIDsLocked ?a ?b ?c ?d] =>
    pose proof (ensure_tables a b c d) as [_ Hm];
    destruct (ensureConversationMemberLocalIDsLocked a b c d) as [s2 []] end; exact Hm.
Qed.

End runs.

(** ** A concrete run: a group of two, handed over and left *)
Section witnesses.
#[local] Existing Instance Reference.runtime.

Definition group_clock : Clock := λ i, Z.of_nat (S i).
Definition ada : UUID := uuid_of_N 1.
Definition bob : UUID := uuid_of_N 2.
Definition group_id : UUID := uuid_of_N 9.
Definition plain_user (id : UUID) (name : string) : User :=
  mkUser id "" "" name "" RawNil "hash" 1 1.
Definition empty_store : Store :=
  New <| Store_users ::= (λ t, <[bob := plain_user bob "Bob"]> (<[ada := plain_user ada "Ada"]> t)) |>.

Definition op_open : ConvOp :=
  OpCreateConversation (mkCreateConversationParams group_id "group" "Trip" (Raw (JObj [])) ada [bob] [])
    uuid_Nil group_clock.
Definition op_hand_over : ConvOp := OpTransferOwnership group_id ada bob group_clock.
Definition op_leave : ConvOp := OpRemoveMember group_id ada ada group_clock.
Definition group_store : Store := conv_step (conv_step empty_store op_open) op_hand_over.

Lemma op_open_ok : conv_op_ok op_open.
Proof.
  split; [discriminate|].
  apply (bool_decide_unpack (_ ≤ _)). vm_compute. exact I.
Qed.

Lemma group_reachable : conv_reachable group_store.
Proof.
  apply conv_reach_op; [|exact I]. apply conv_reach_op; [|exact op_open_ok].
  by apply conv_reach_new.
Qed.


Lemma exactly_one_owner_witness :
  ∃ c m, Store_conversations group_store !! group_id = Some c ∧
    member group_store group_id (Conversation_CreatedBy c) = Some m ∧
    ConversationMember_Role m = "owner".
Proof.
  assert (bool_decide (is_Some (Store_conversations group_store !! group_id)) = true) as Hc
    by (vm_compute; reflexivity).
  apply bool_decide_eq_true in Hc. destruct Hc as [c Hc].
  destruct (exactly_one_owner group_store group_id c group_reachable Hc) as [(m & Hm & Hr) _].
  exists c, m. exact (conj Hc (conj Hm Hr)).
Defined.

End witnesses.
