(* ===== verification/LocalIDs.v ===== *)
(** * Local ids are injective and never change

    Historical payloads name members by their local id.  The store promises that
    within a conversation two users never share one, and that an assigned id is kept
    for as long as the conversation exists, also while the user is not a member. *)

From Stdlib Require Import ZArith Lia.
From S2P Require Import Prelude.
From S2P Require Import Runtime.
From S2P Require Import Domain.
From S2P Require Import Compliance.
From S2P Require Import StoreState.
From S2P Require Import Projection.
From S2P Require Import Conversations.
From S2P Require Import Membership.

Section local_ids.
Context `{GoRuntime}.
Implicit Types (s : Store) (cid userID : UUID) (l bu lo : gmap UUID UUID)
  (mp : ConversationMemberLocalID).

Definition mp_user : ConversationMemberLocalID → UUID := ConversationMemberLocalID_UserID.
Definition mp_local : ConversationMemberLocalID → UUID := ConversationMemberLocalID_LocalID.

(** An assignment of local ids: no nil on either side, injective. *)
Definition lid_ok l : Prop :=
  (∀ u x, l !! u = Some x → u ≠ uuid_Nil ∧ x ≠ uuid_Nil) ∧
  (∀ u v x, l !! u = Some x → l !! v = Some x → u = v).

Lemma lid_ok_empty : lid_ok ∅.
Proof. split; intros *; by rewrite lookup_empty. Qed.

Lemma lid_ok_sub l bu : (∀ u x, l !! u = Some x → bu !! u = Some x) → lid_ok bu → lid_ok l.
Proof. intros Hsub [Hnil Hinj]. split; eauto. Qed.

(** ** What validation establishes *)

Definition inverse bu lo : Prop := ∀ u x, bu !! u = Some x → lo !! x = Some u.
Definition no_nil bu : Prop := ∀ u x, bu !! u = Some x → u ≠ uuid_Nil ∧ x ≠ uuid_Nil.

Lemma mappedElsewhere_false l k v owner :
  mappedElsewhere l k v = false → l !! k = Some owner → owner = v.
Proof. unfold mappedElsewhere. intros Hm Ho. rewrite Ho in Hm. by bool_prop. Qed.

Lemma addMapping_spec bu lo mp bu' lo' :
  addMapping (Some (bu, lo)) mp = Some (bu', lo') → inverse bu lo → no_nil bu →
  inverse bu' lo' ∧ no_nil bu' ∧ bu' !! mp_user mp = Some (mp_local mp) ∧
  (∀ u x, bu !! u = Some x → bu' !! u = Some x).
Proof.
  unfold addMapping. simpl. intros Hadd Hinv Hnil. destruct (_ || _) eqn:Hn; [done|].
  destruct (mappedElsewhere bu _ _) eqn:Hu; [done|].
  destruct (mappedElsewhere lo _ _) eqn:Hl; [done|]. simplify_eq. bool_prop.
  split_and!.
  - intros u x [[<- <-]|[Hne Hx]]%lookup_insert_Some; [by rewrite lookup_insert_eq|].
    rewrite lookup_insert_ne; [by apply Hinv|]. intros Heq. apply Hinv in Hx.
    rewrite <- Heq in Hx. by eapply mappedElsewhere_false in Hx.
  - intros u x [[<- <-]|[_ Hx]]%lookup_insert_Some; eauto.
  - apply lookup_insert_eq.
  - intros u x Hx. destruct (decide (u = ConversationMemberLocalID_UserID mp)) as [->|Hne].
    + rewrite lookup_insert_eq. f_equal. symmetry. by eapply mappedElsewhere_false.
    + by rewrite lookup_insert_ne.
Qed.

Lemma addMapping_none (all : list ConversationMemberLocalID) : foldl addMapping None all = None.
Proof. induction all as [|mp all IH]; [done|exact IH]. Qed.

Lemma foldl_addMapping_spec all bu lo bu' lo' :
  foldl addMapping (Some (bu, lo)) all = Some (bu', lo') → inverse bu lo → no_nil bu →
  inverse bu' lo' ∧ no_nil bu' ∧ (∀ u x, bu !! u = Some x → bu' !! u = Some x) ∧
  Forall (λ mp, bu' !! mp_user mp = Some (mp_local mp)) all.
Proof.
  revert bu lo. induction all as [|mp all IH]; intros bu lo Hf Hinv Hnil; cbn [foldl] in Hf.
  { simplify_eq. split_and!; [done|done|done|constructor]. }
  destruct (addMapping (Some (bu, lo)) mp) as [[bu1 lo1]|] eqn:Hadd;
    [|by rewrite addMapping_none in Hf].
  destruct (addMapping_spec _ _ _ _ _ Hadd Hinv Hnil) as (Hinv1 & Hnil1 & Hmp & Hsub).
  destruct (IH _ _ Hf Hinv1 Hnil1) as (Hinv' & Hnil' & Hsub' & Hall).
  split_and!; auto.
Qed.

Lemma Validate_spec members all :
  ValidateConversationMemberLocalIDNamespace members all = None →
  ∃ bu, lid_ok bu ∧ Forall (λ mp, bu !! mp_user mp = Some (mp_local mp)) all.
Proof.
  unfold ValidateConversationMemberLocalIDNamespace. destruct (existsb _ members); [done|].
  destruct (foldl addMapping _ all) as [[bu lo]|] eqn:Hf; [|done]. intros _.
  destruct (foldl_addMapping_spec _ _ _ _ _ Hf) as (Hinv & Hnil & _ & Hall);
    [intros ? ?; by rewrite lookup_empty..|].
  exists bu. split; [|done]. split; [done|]. intros u v x Hu Hv.
  apply Hinv in Hu, Hv. congruence.
Qed.

(** ** What a plan commits *)

Lemma mappingsByUser_elem all u x :
  mappingsByUser all !! u = Some x → ∃ mp, mp ∈ all ∧ mp_user mp = u ∧ mp_local mp = x.
Proof.
  unfold mappingsByUser.
  assert (∀ l, foldl (λ l mapping, <[ConversationMemberLocalID_UserID mapping :=
      ConversationMemberLocalID_LocalID mapping]> l) l all !! u = Some x →
    l !! u = Some x ∨ ∃ mp, mp ∈ all ∧ mp_user mp = u ∧ mp_local mp = x) as Hgo.
  { induction all as [|mp all IH]; intros l Hl; simpl in Hl; [by left|].
    apply IH in Hl as [Hl|(mp' & Hin & Hmp)]; [|right; exists mp'; split; [by right|done]].
    apply lookup_insert_Some in Hl as [[Hu Hx]|[_ Hl]]; [right|by left].
    exists mp. split; [left|done]. }
  intros [Hl|?]%Hgo; [by rewrite lookup_empty in Hl|done].
Qed.

Lemma pickLocalIDs_elem bu members result :
  pickLocalIDs bu members = Some result → Forall (λ mp, bu !! mp_user mp = Some (mp_local mp)) result.
Proof.
  revert result. induction members as [|m members IH]; intros result Hp; simpl in Hp.
  { simplify_eq. constructor. }
  destruct (bu !! ConversationMember_UserID m) as [x|] eqn:Hx; [|done]. simpl in Hp.
  destruct (pickLocalIDs bu members) as [rest|] eqn:Hr; [|done]. simplify_eq/=.
  constructor; [done|by apply IH].
Qed.

Lemma existing_elem s cid u x :
  inner (Store_memberLocalIDs s) cid !! u = Some x →
  mkConversationMemberLocalID u x ∈ existingLocalIDs s cid.
Proof.
  intros Hx. unfold existingLocalIDs. apply list_elem_of_fmap.
  exists (u, x). by rewrite elem_of_range.
Qed.

Lemma commitMapping_sub mappings l u x :
  l !! u = Some x → foldl commitMapping l mappings !! u = Some x.
Proof.
  revert l. induction mappings as [|mp mappings IH]; intros l Hl; simpl; [done|].
  apply IH. unfold commitMapping.
  destruct (l !! ConversationMemberLocalID_UserID mp) eqn:Hm; [done|].
  rewrite lookup_insert_ne; [done|]. intros Heq. rewrite <- Heq in Hl. congruence.
Qed.

Lemma commitMapping_elem mappings l u x :
  foldl commitMapping l mappings !! u = Some x →
  l !! u = Some x ∨ ∃ mp, mp ∈ mappings ∧ mp_user mp = u ∧ mp_local mp = x.
Proof.
  revert l. induction mappings as [|mp mappings IH]; intros l Hl; simpl in Hl; [by left|].
  apply IH in Hl as [Hl|(mp' & Hin & Hmp)]; [|right; exists mp'; split; [by right|done]].
  unfold commitMapping in Hl.
  destruct (l !! ConversationMemberLocalID_UserID mp); [by left|].
  apply lookup_insert_Some in Hl as [[Hu Hx]|[_ Hl]]; [right|by left].
  exists mp. split; [left|done].
Qed.

(** The assignment of a conversation after a plan is committed. *)
Definition committed s cid (planned : list ConversationMemberLocalID) : gmap UUID UUID :=
  foldl commitMapping (inner (Store_memberLocalIDs s) cid) planned.

Lemma plan_committed_ok s cid metadata members planned :
  planConversationMemberLocalIDsLocked s cid metadata members = Ok planned →
  lid_ok (committed s cid planned).
Proof.
  unfold planConversationMemberLocalIDsLocked. set (all := allLocalIDs s cid metadata members).
  destruct (ValidateConversationMemberLocalIDNamespace members all) eqn:Hv; [done|].
  destruct (pickLocalIDs _ _) as [result|] eqn:Hp; [|done]. intros [= <-].
  apply Validate_spec in Hv as (bu & Hok & Hall). rewrite Forall_forall in Hall.
  apply pickLocalIDs_elem in Hp. rewrite Forall_forall in Hp.
  apply (lid_ok_sub _ bu); [|done]. intros u x Hx.
  apply commitMapping_elem in Hx as [Hx|(mp & Hmp & <- & <-)].
  - apply existing_elem in Hx. apply (Hall (mkConversationMemberLocalID u x)).
    apply elem_of_app. by left.
  - apply Hp, mappingsByUser_elem in Hmp as (mp' & Hin & <- & <-). by apply Hall.
Qed.

(** ** Every operation keeps the assignments *)

Record lids_inv s : Prop := {
  li_ok : ∀ cid, lid_ok (inner (Store_memberLocalIDs s) cid);
  li_dom : ∀ cid, is_Some (Store_memberLocalIDs s !! cid) → is_Some (Store_conversations s !! cid);
}.

(** Assigned ids persist, except in conversations that stop existing. *)
Definition lids_kept s s' : Prop :=
  ∀ cid u x, inner (Store_memberLocalIDs s) cid !! u = Some x →
    inner (Store_memberLocalIDs s') cid !! u = Some x ∨
    Store_conversations s' !! cid = None.

Definition lids_step s s' : Prop := (lids_inv s → lids_inv s') ∧ (lids_inv s → lids_kept s s').

Lemma lids_step_same s s' :
  Store_memberLocalIDs s' = Store_memberLocalIDs s →
  (∀ cid, is_Some (Store_conversations s !! cid) → is_Some (Store_conversations s' !! cid)) →
  lids_step s s'.
Proof.
  intros Hl Hc. split.
  - intros [Hok Hdom]. split; rewrite Hl; auto.
  - intros _ cid u x Hx. left. by rewrite Hl.
Qed.

Lemma inner_insert (t : gmap UUID (gmap UUID UUID)) cid l i :
  inner (<[cid := l]> t) i = if decide (i = cid) then l else inner t i.
Proof.
  unfold inner. destruct (decide (i = cid)) as [->|Hne].
  - by rewrite lookup_insert_eq.
  - by rewrite lookup_insert_ne.
Qed.

(** Committing a plan for one existing conversation. *)
Lemma lids_step_commit s s' cid planned :
  Store_memberLocalIDs s' = <[cid := committed s cid planned]> (Store_memberLocalIDs s) →
  lid_ok (committed s cid planned) → is_Some (Store_conversations s !! cid) →
  (∀ i, is_Some (Store_conversations s !! i) → is_Some (Store_conversations s' !! i)) →
  lids_step s s'.
Proof.
  intros Hl Hp Hex Hc. split.
  - intros [Hok Hdom]. split.
    + intros i. rewrite Hl, inner_insert. by case_decide.
    + intros i. rewrite Hl. destruct (decide (i = cid)) as [->|Hne]; [auto|].
      rewrite lookup_insert_ne by done. auto.
  - intros _ i u x Hx. left. rewrite Hl, inner_insert. case_decide; [|done]. subst.
    by apply commitMapping_sub.
Qed.

Lemma lids_step_trans s1 s2 s3 :
  lids_step s1 s2 → lids_step s2 s3 →
  (∀ cid, Store_conversations s2 !! cid = None → Store_conversations s3 !! cid = None) →
  lids_step s1 s3.
Proof.
  intros [Hi1 Hk1] [Hi2 Hk2] Hc. split; [auto|]. intros Hs cid u x Hx.
  destruct (Hk1 Hs cid u x Hx) as [Hx2|Hn]; [|by right; apply Hc].
  by apply (Hk2 (Hi1 Hs)).
Qed.

Lemma insert_keeps {V} (m : gmap UUID V) k v i : is_Some (m !! i) → is_Some (<[k := v]> m !! i).
Proof. intros Hi. rewrite lookup_insert_is_Some'. by right. Qed.

Lemma ensure_lids s cid metadata members :
  is_Some (Store_conversations s !! cid) →
  lids_step s (ensureConversationMemberLocalIDsLocked s cid metadata members).1.
Proof.
  intros Hex. unfold ensureConversationMemberLocalIDsLocked.
  destruct (planConversationMemberLocalIDsLocked _ _ _ _) as [planned|] eqn:Hp; cbn [fst].
  - eapply (lids_step_commit s _ cid planned); [reflexivity|by eapply plan_committed_ok|done|done].
  - by apply lids_step_same.
Qed.

Lemma planProjection_lids s cid metadata members joining planned projected :
  planConversationMembershipProjectionLocked s cid metadata members joining = Ok (planned, projected) →
  lid_ok (committed s cid planned).
Proof.
  unfold planConversationMembershipProjectionLocked.
  destruct (planConversationMemberLocalIDsLocked _ _ _ _) as [p|] eqn:Hp; [|done].
  intros [= <- _]. by eapply plan_committed_ok.
Qed.

Lemma dropTombstone_lids s cid userID :
  Store_memberLocalIDs (dropTombstone s cid userID) = Store_memberLocalIDs s.
Proof. unfold dropTombstone. by case_match. Qed.

(** An [ensure] followed by writes to other tables and to the conversation row. *)
Lemma lids_step_ensure_then s s' cid metadata members :
  is_Some (Store_conversations s !! cid) →
  let s1 := (ensureConversationMemberLocalIDsLocked s cid metadata members).1 in
  Store_memberLocalIDs s' = Store_memberLocalIDs s1 →
  (∀ i, is_Some (Store_conversations s1 !! i) → is_Some (Store_conversations s' !! i)) →
  lids_step s s'.
Proof.
  intros Hex s1 Hl Hc. pose proof (ensure_lids s cid metadata members Hex) as [Hi Hk].
  pose proof (ensure_tables s cid metadata members) as [Hcs _]. split.
  - intros Hs. destruct (Hi Hs) as [Hok Hdom]. split; rewrite Hl; auto.
  - intros Hs i u x Hx. rewrite Hl. destruct (Hk Hs i u x Hx) as [?|Hn]; [by left|].
    exfalso. rewrite Hcs in Hn. assert (is_Some (Store_conversations s !! i)) as [? Hsome]; [|congruence].
    apply (li_dom s Hs). unfold inner in Hx. destruct (Store_memberLocalIDs s !! i); [by eexists|].
    simpl in Hx. by rewrite lookup_empty in Hx.
Qed.

Lemma lids_create s p newID clock :
  lids_step s (CreateConversation s p newID clock).1.
Proof.
  unfold CreateConversation. cbv zeta.
  destruct (if bool_decide _ then _ else _) as [[]|]; [by apply lids_step_same|].
  destruct (existsb _ _); [by apply lids_step_same|].
  set (cid := if bool_decide _ then newID else _).
  destruct (Store_conversations s !! cid) as [existing|] eqn:Hex;
    [case_match; by apply lids_step_same|].
  set (c := mkConversation cid _ _ _ _ _ _ _ _).
  set (ms := newMembers cid _ _ _). set (s1 := openConversation s c ms).
  assert (lids_inv s → Store_memberLocalIDs s !! cid = None) as Hnone.
  { intros Hs. apply eq_None_not_Some. intros [? Hn]%(li_dom s Hs). congruence. }
  assert (lids_step s s1) as Hs1.
  { split.
    - intros Hs. destruct (Hs) as [Hok Hdom]. split.
      + intros i. unfold s1. cbn. rewrite inner_insert. case_decide; [apply lid_ok_empty|done].
      + intros i. unfold s1. cbn. destruct (decide (i = cid)) as [->|Hne].
        * rewrite !lookup_insert_eq. by eexists.
        * rewrite !lookup_insert_ne by done. auto.
    - intros Hs i u x Hx. left. unfold s1. cbn. rewrite inner_insert. case_decide as Hi; [|done].
      subst i. exfalso. revert Hx. unfold inner. rewrite (Hnone Hs). simpl. by rewrite lookup_empty. }
  assert (is_Some (Store_conversations s1 !! cid)) as Hs1c.
  { unfold s1. cbn. rewrite lookup_insert_eq. by eexists. }
  pose proof (ensure_lids s1 cid (Conversation_Metadata c) (conversationMembersLocked s1 cid) Hs1c)
    as Hens.
  pose proof (ensure_tables s1 cid (Conversation_Metadata c) (conversationMembersLocked s1 cid))
    as [Hcs _].
  assert (Store_conversations s1 = <[cid := c]> (Store_conversations s)) as Hc1 by done.
  unfold ensureConversationMemberLocalIDsLocked in *.
  destruct (planConversationMemberLocalIDsLocked _ _ _ _) as [planned|]; cbn [fst] in *.
  - eapply lids_step_trans; [exact Hs1| |].
    + eapply lids_step_trans; [exact Hens|apply lids_step_same; [done|]|].
      * intros i Hi. by apply insert_keeps.
      * intros i Hi. cbn. destruct (decide (i = cid)) as [->|Hne];
          [by rewrite Hcs in Hi; rewrite Hi in Hs1c; destruct Hs1c|].
        by rewrite lookup_insert_ne.
    + intros i Hi. cbn. destruct (decide (i = cid)) as [->|Hne];
        [by rewrite Hi in Hs1c; destruct Hs1c|]. by rewrite lookup_insert_ne.
  - split.
    + intros Hs. destruct (Hs) as [Hok Hdom]. split.
      * intros i. cbn. rewrite delete_insert_id by auto. apply Hok.
      * intros i. cbn. rewrite !delete_insert_id by auto. apply Hdom.
    + intros Hs i u x Hx. left. cbn. by rewrite delete_insert_id by auto.
Qed.

Lemma lids_update s cid actorID p clock :
  lids_step s (UpdateConversation s cid actorID p clock).1.
Proof.
  unfold UpdateConversation. destruct (Store_conversations s !! cid) as [c|] eqn:Hc;
    [|by apply lids_step_same].
  destruct (negb _); [by apply lids_step_same|]. cbv zeta.
  destruct (bool_decide _).
  - match goal with |- context [ensureConversationMemberLocalIDsLocked s cid ?md ?mb] =>
      apply (lids_step_ensure_then s _ cid md mb); [by eexists|..];
      destruct (ensureConversationMemberLocalIDsLocked s cid md mb) as [s2 []] end; try done.
    intros i Hi. by apply insert_keeps.
  - apply lids_step_same; [done|]. intros i Hi. by apply insert_keeps.
Qed.

Lemma lids_add s cid actorID userID newRole clock :
  conv_inv s → lids_step s (AddConversationMember s cid actorID userID newRole clock).1.
Proof.
  intros Hs. unfold AddConversationMember.
  destruct (Store_members s !! cid) as [ms|] eqn:Hms; [|by apply lids_step_same].
  destruct (negb _); [by apply lids_step_same|]. destruct (_ && _); [by apply lids_step_same|].
  destruct (live_user s userID); [|by apply lids_step_same].
  destruct (negb (privileged _)); [by apply lids_step_same|]. cbv zeta.
  destruct (bool_decide (role (ms !! userID) = "owner")); [by apply lids_step_same|].
  destruct (bool_decide (ms !! userID = None) && _); [by apply lids_step_same|].
  destruct (planConversationMembershipProjectionLocked _ _ _ _ _) as [[planned projected]|] eqn:Hp;
    [|by apply lids_step_same].
  apply planProjection_lids in Hp. cbn [fst].
  set (cand := mkConversationMember _ _ _ _ _ _ _ _ _ _).
  destruct (plan_ok_irrelevant s cid userID cand planned projected (clock 1)) as [Hcs _].
  apply (lids_step_commit s _ cid planned); [|done|by apply (ci_dom s Hs); eexists|].
  - destruct (bool_decide (ms !! userID = None)); cbn; rewrite dropTombstone_lids; unfold committed;
      cbn; by rewrite ?dropTombstone_lids.
  - intros i Hi. assert (is_Some (Store_conversations
      (commitJoin s cid userID cand planned projected (clock 1)) !! i)) as Hi'
      by (rewrite Hcs; by apply insert_keeps).
    by destruct (bool_decide (ms !! userID = None)).
Qed.

Lemma lids_accept s tokenHash userID clock :
  conv_inv s → lids_step s (AcceptConversationInvite s tokenHash userID clock).1.
Proof.
  intros Hs. unfold AcceptConversationInvite. destruct (live_user s userID); [|by apply lids_step_same].
  destruct (Store_inviteLinks s !! tokenHash) as [invite|]; [|by apply lids_step_same]. cbv zeta.
  set (cid := ConversationInvite_ConversationID invite).
  destruct (Store_conversations s !! cid) as [c|] eqn:Hc; [|by apply lids_step_same].
  assert (Conversation_ID c = cid) as -> by (by apply (ci_id s Hs)).
  destruct (membersOf s cid !! userID) as [m|].
  - match goal with |- context [ensureConversationMemberLocalIDsLocked s cid ?md ?mb] =>
      apply (lids_step_ensure_then s _ cid md mb); [by eexists|..];
      destruct (ensureConversationMemberLocalIDsLocked s cid md mb) as [s2 []] end; try done;
      destruct (negb _); try done.
    intros i Hi. by apply insert_keeps.
  - destruct (conversationInviteActiveError invite (clock 0)); [by apply lids_step_same|].
    destruct (_ || _); [by apply lids_step_same|].
    destruct (planConversationMembershipProjectionLocked _ _ _ _ _) as [[planned projected]|] eqn:Hp;
      [|by apply lids_step_same].
    apply planProjection_lids in Hp. cbn [fst].
    set (cand := mkConversationMember _ _ _ _ _ _ _ _ _ _).
    apply (lids_step_commit s _ cid planned); [|done|by eexists|].
    + cbn. rewrite dropTombstone_lids. unfold committed. done.
    + intros i Hi. cbn. apply insert_keeps.
      by destruct (dropTombstone_tables (setMember s cid userID cand) cid userID) as [-> _].
Qed.

Lemma lids_remove s cid actorID userID clock :
  conv_inv s → lids_step s (RemoveConversationMember s cid actorID userID clock).1.
Proof.
  intros Hs. unfold RemoveConversationMember.
  destruct (Store_members s !! cid) as [ms|] eqn:Hms; [|by apply lids_step_same].
  destruct (negb _); [by apply lids_step_same|].
  destruct (ms !! userID) as [target|]; [|by apply lids_step_same].
  destruct (bool_decide _); [by apply lids_step_same|]. destruct (_ && _); [by apply lids_step_same|].
  cbv zeta. cbn [fst].
  match goal with |- context [projectConversationMembersLocked ?s1 cid] => set (s2 := s1) end.
  assert (lids_step s s2) as H2.
  { apply lids_step_same; [done|]. intros i Hi. by apply insert_keeps. }
  assert (lids_step s2 (projectConversationMembersLocked s2 cid).1) as H3.
  { unfold projectConversationMembersLocked.
    destruct (Store_conversations s2 !! cid) as [c|] eqn:Hc; [|by apply lids_step_same].
    destruct (negb _); [by apply lids_step_same|].
    match goal with |- context [ensureConversationMemberLocalIDsLocked s2 cid ?md ?mb] =>
      apply (lids_step_ensure_then s2 _ cid md mb); [by eexists|..];
      destruct (ensureConversationMemberLocalIDsLocked s2 cid md mb) as [s3 []] end; try done.
    intros i Hi. by apply insert_keeps. }
  assert (∀ i, Store_conversations s2 !! i = None →
    Store_conversations (projectConversationMembersLocked s2 cid).1 !! i = None) as Hnone.
  { intros i Hi. destruct (projectConversationMembersLocked_tables s2 cid)
      as [_ [->|(c & c' & Hc & _ & _ & ->)]]; [done|].
    rewrite lookup_insert_ne; [done|]. intros <-. congruence. }
  pose proof (lids_step_trans _ _ _ H2 H3 Hnone) as [Hi Hk]. split; [|exact Hk].
  intros Hinv. destruct (Hi Hinv) as [Hok Hdom]. by split.
Qed.

Lemma appendMediaDeletesAt_lids s agg keys notBefore clock :
  Store_memberLocalIDs (appendMediaDeletesAt s agg keys notBefore clock) = Store_memberLocalIDs s.
Proof. by destruct (appendMediaDeletesAt_grows s agg keys notBefore clock) as (? & ? & [n ->] & _). Qed.

Lemma appendMediaDeleteBatches_lids fuel s cid keys notBefore clock :
  Store_memberLocalIDs (appendMediaDeleteBatches fuel s cid keys notBefore clock)
  = Store_memberLocalIDs s.
Proof.
  revert s keys clock. induction fuel as [|fuel IH]; intros s keys clock; [done|].
  destruct keys as [|k keys]; [done|]. cbn [appendMediaDeleteBatches].
  by rewrite IH, appendMediaDeletesAt_lids.
Qed.

Lemma lids_delete s cid actorID clock : lids_step s (DeleteConversation s cid actorID clock).1.
Proof.
  unfold DeleteConversation. destruct (Store_conversations s !! cid); [|by apply lids_step_same].
  destruct (_ || _); [by apply lids_step_same|]. cbv zeta. cbn [fst].
  match goal with |- context [appendMediaDeleteBatches ?f ?s1 ?c ?k ?n ?cl] =>
    destruct (appendMediaDeleteBatches_tables f s1 c k n cl) as [Hc _];
    pose proof (appendMediaDeleteBatches_lids f s1 c k n cl) as Hl;
    set (s' := appendMediaDeleteBatches f s1 c k n cl) in * end.
  assert (Store_memberLocalIDs s' = delete cid (Store_memberLocalIDs s)) as Hl' by exact Hl.
  assert (Store_conversations s' = delete cid (Store_conversations s)) as Hc' by exact Hc.
  clear Hl Hc. split.
  - intros [Hok Hdom]. split; cbn; rewrite Hl', ?Hc'.
    + intros i. unfold inner. destruct (decide (i = cid)) as [->|Hne].
      * rewrite lookup_delete_eq. apply lid_ok_empty.
      * rewrite lookup_delete_ne by done. apply Hok.
    + intros i. destruct (decide (i = cid)) as [->|Hne].
      * rewrite lookup_delete_eq. by intros [].
      * rewrite !lookup_delete_ne by done. apply Hdom.
  - intros _ i u x Hx. cbn. rewrite Hc', Hl'. destruct (decide (i = cid)) as [->|Hne].
    + right. apply lookup_delete_eq.
    + left. unfold inner in *. by rewrite lookup_delete_ne.
Qed.

Lemma commitClaim_tables s userID phone now plan clock :
  let cid := ClaimPlan_conversationID plan in
  Store_memberLocalIDs (commitClaim s userID phone now plan clock)
    = <[cid := committed s cid (ClaimPlan_localIDs plan)]> (Store_memberLocalIDs s) ∧
  ∃ c, Store_conversations (commitClaim s userID phone now plan clock)
    = <[cid := c]> (Store_conversations s).
Proof.
  unfold commitClaim, committed. cbv zeta. cbn. rewrite dropTombstone_lids.
  match goal with |- context [dropTombstone ?s2 ?c userID] =>
    destruct (dropTombstone_tables s2 c userID) as [Hc _] end.
  rewrite Hc. destruct (ClaimPlan_joined plan); (split; [done|by eexists]).
Qed.

Lemma lids_claims s userID phone now plans clock :
  NoDup (ClaimPlan_conversationID <$> plans) →
  Forall (λ plan, is_Some (Store_conversations s !! ClaimPlan_conversationID plan) ∧
    lid_ok (committed s (ClaimPlan_conversationID plan) (ClaimPlan_localIDs plan))) plans →
  lids_step s (commitClaims s userID phone now plans clock) ∧
  ∀ i, Store_conversations s !! i = None →
    Store_conversations (commitClaims s userID phone now plans clock) !! i = None.
Proof.
  revert s clock. induction plans as [|plan plans IH]; intros s clock Hnd Hall.
  { split; [by apply lids_step_same|done]. }
  rewrite fmap_cons, NoDup_cons in Hnd. destruct Hnd as [Hn Hnd].
  apply Forall_cons in Hall as [[Hex Hok] Hall]. cbn [commitClaims].
  destruct (commitClaim_tables s userID phone now plan clock) as [Hl [c Hc]].
  set (s1 := commitClaim s userID phone now plan clock) in *.
  set (cid := ClaimPlan_conversationID plan) in *.
  assert (lids_step s s1) as H1.
  { apply (lids_step_commit s s1 cid (ClaimPlan_localIDs plan)); try done.
    intros i Hi. rewrite Hc. by apply insert_keeps. }
  destruct (IH s1 (later 2 clock) Hnd) as [H2 Hnone].
  { apply Forall_forall. intros plan' Hp'. rewrite Forall_forall in Hall.
    destruct (Hall plan' Hp') as [Hex' Hok'].
    assert (ClaimPlan_conversationID plan' ≠ cid) as Hne.
    { intros Heq. apply Hn. rewrite <- Heq. by apply list_elem_of_fmap_2. }
    split; [rewrite Hc; by apply insert_keeps|].
    unfold committed in *. rewrite Hl, inner_insert. by rewrite decide_False. }
  split; [by eapply lids_step_trans|]. intros i Hi. apply Hnone. rewrite Hc.
  rewrite lookup_insert_ne; [done|]. intros <-. destruct Hex. congruence.
Qed.

Lemma planClaims_lids s userID now cids plans :
  planClaims s userID now cids = Ok plans →
  Forall (λ plan, is_Some (Store_conversations s !! ClaimPlan_conversationID plan) ∧
    lid_ok (committed s (ClaimPlan_conversationID plan) (ClaimPlan_localIDs plan))) plans.
Proof.
  revert plans. induction cids as [|cid cids IH]; intros plans Hp; simpl in Hp.
  { simplify_eq. constructor. }
  destruct (planClaim s userID now cid) as [plan|] eqn:Hplan; [|done].
  destruct (planClaims s userID now cids) as [rest|]; [|done]. simplify_eq.
  constructor; [|by apply IH]. pose proof (planClaim_ok _ _ _ _ _ Hplan) as [_ [Hex _]].
  split; [done|]. unfold planClaim in Hplan. op_cases Hplan. by eapply planProjection_lids.
Qed.

Lemma lids_claim s userID phone clock :
  lids_step s (ClaimConversationInvites s userID phone clock).1.
Proof.
  unfold ClaimConversationInvites. destruct (live_user s userID); [|by apply lids_step_same]. cbv zeta.
  set (cids := merge_sort _ _).
  destruct (planClaims s userID (clock 0) cids) as [plans|] eqn:Hp; [|by apply lids_step_same].
  cbn [fst]. apply lids_claims; [|by eapply planClaims_lids].
  apply planClaims_ok in Hp as [-> _]. apply NoDup_invited.
Qed.

Lemma lids_conv_step s op : conv_inv s → lids_step s (conv_step s op).
Proof.
  intros Hs. destruct op; cbn [conv_step].
  - apply lids_create.
  - apply lids_update.
  - apply lids_delete.
  - by apply lids_add.
  - unfold CreateConversationInvites. case_match; by apply lids_step_same.
  - apply lids_claim.
  - unfold CreateConversationInvite. cbv zeta. repeat case_match; by apply lids_step_same.
  - by apply lids_accept.
  - unfold RevokeConversationInvite. cbv zeta. repeat case_match; by apply lids_step_same.
  - by apply lids_remove.
  - unfold TransferConversationOwnership. cbv zeta. repeat case_match; try by apply lids_step_same.
    apply lids_step_same; [done|]. intros i Hi. by apply insert_keeps.
Qed.

(** Runs of the conversation operations, of the entity operations' [ensure] calls,
    and of steps elsewhere. *)
Inductive lids_reachable : Store → Prop :=
  | lids_reach_new s : Store_conversations s = ∅ → Store_members s = ∅ →
      Store_memberLocalIDs s = ∅ → lids_reachable s
  | lids_reach_op s op : lids_reachable s → conv_op_ok op → lids_reachable (conv_step s op)
  | lids_reach_ensure s cid metadata members : lids_reachable s →
      is_Some (Store_conversations s !! cid) →
      lids_reachable (ensureConversationMemberLocalIDsLocked s cid metadata members).1
  | lids_reach_other s s' : lids_reachable s → Store_members s' = Store_members s →
      Store_memberLocalIDs s' = Store_memberLocalIDs s →
      conv_identity <$> Store_conversations s' = conv_identity <$> Store_conversations s →
      lids_reachable s'.

Lemma lids_reachable_inv s : lids_reachable s → conv_inv s ∧ lids_inv s.
Proof.
  induction 1 as [s Hc Hm Hl|s op _ [IHc IHl] Hop|s cid md mb _ [IHc IHl] Hex|s s' _ [IHc IHl] Hm Hl Hc].
  - split; [apply (conv_inv_frame New); [done|done|apply conv_inv_new]|].
    split; rewrite Hl; intros cid; unfold inner; rewrite lookup_empty; [apply lid_ok_empty|by intros []].
  - split; [by apply conv_inv_step|]. by apply (lids_conv_step s op IHc).
  - pose proof (ensure_tables s cid md mb) as [Hc Hm]. split; [by apply (conv_inv_frame s)|].
    by apply (ensure_lids s cid md mb Hex).
  - split; [by eapply conv_inv_other|]. destruct IHl as [Hok Hdom]. split; rewrite Hl; [done|].
    intros cid Hi. apply Hdom in Hi. rewrite <- (fmap_is_Some conv_identity), <- lookup_fmap in Hi |- *.
    by rewrite Hc.
Qed.

(** C38. Local ids are injective and immutable.  In every reachable state
    no conversation gives two users the same local id (and neither side is ever
    the nil id), and a step of any conversation operation keeps every id assigned
    so far, unless it deletes that conversation. *)
Theorem local_ids_injective_immutable s :
  lids_reachable s →
  (∀ cid u v x, inner (Store_memberLocalIDs s) cid !! u = Some x →
     inner (Store_memberLocalIDs s) cid !! v = Some x → u = v ∧ x ≠ uuid_Nil ∧ u ≠ uuid_Nil) ∧
  (∀ op cid u x, conv_op_ok op → inner (Store_memberLocalIDs s) cid !! u = Some x →
     inner (Store_memberLocalIDs (conv_step s op)) cid !! u = Some x ∨
     Store_conversations (conv_step s op) !! cid = None).
Proof.
  intros [Hc Hl]%lids_reachable_inv. split.
  - intros cid u v x Hu Hv. destruct (li_ok s Hl cid) as [Hnil Hinj].
    destruct (Hnil u x Hu). split_and!; eauto.
  - intros op cid u x Hop Hx. by apply (lids_conv_step s op Hc).
Qed.
End local_ids.

(** ** A concrete run *)
Section witnesses.
#[local] Existing Instance Reference.runtime.

Lemma group_lids_reachable : lids_reachable group_store.
Proof.
  apply lids_reach_op; [|exact I]. apply lids_reach_op; [|exact op_open_ok].
  by apply lids_reach_new.
Qed.

Lemma local_ids_injective_immutable_witness :
  inner (Store_memberLocalIDs (conv_step group_store op_leave)) group_id !! ada = Some ada ∨
  Store_conversations (conv_step group_store op_leave) !! group_id = None.
Proof.
  apply (local_ids_injective_immutable group_store group_lids_reachable); [exact I|].
  apply (bool_decide_unpack (_ = _)). vm_compute. exact I.
Defined.
End witnesses.
