(* ===== verification/ConvFrame.v ===== *)
(** * What the conversation operations leave alone

    The operations of [Conversations] share the store with messages, receipts,
    entities and chore rotations.  [conv_effect] is the interface the components for
    those build on: a conversation operation never writes their tables, deletes the
    messages of a conversation only together with the conversation, starts a new
    conversation at sequence number 0, and never moves the counter of an existing
    one. *)

From Stdlib Require Import ZArith Lia.
From S2P Require Import Prelude.
From S2P Require Import Runtime.
From S2P Require Import Domain.
From S2P Require Import Compliance.
From S2P Require Import StoreState.
From S2P Require Import Projection.
From S2P Require Import Conversations.
From S2P Require Import Membership.

Section effect.
Context `{GoRuntime}.
Implicit Types (s : Store) (cid userID : UUID).

(** The tables of the other components that live inside conversations. *)
Definition content s :=
  (Store_clientMessages s, Store_receipts s, Store_entities s, Store_choreRotations s,
   Store_users s, Store_compliance s).

Definition last_seq s cid : option Z := Conversation_LastSeq <$> Store_conversations s !! cid.

(** One conversation before and after a step. *)
Inductive row_effect s s' cid : Prop :=
  | row_same : Store_messages s' !! cid = Store_messages s !! cid →
      last_seq s' cid = last_seq s cid → row_effect s s' cid
  | row_deleted : Store_messages s' !! cid = None → last_seq s' cid = None → row_effect s s' cid
  | row_created : Store_messages s' !! cid = Store_messages s !! cid →
      last_seq s cid = None → last_seq s' cid = Some 0%Z → row_effect s s' cid.

Record conv_effect s s' : Prop := {
  ce_content : content s' = content s;
  ce_row : ∀ cid, row_effect s s' cid;
}.

Lemma conv_effect_same s s' :
  content s' = content s → Store_messages s' = Store_messages s →
  Store_conversations s' = Store_conversations s → conv_effect s s'.
Proof. intros Hct Hm Hc. split; [done|]. intros cid. apply row_same; unfold last_seq; by rewrite ?Hm, ?Hc. Qed.

(** A write to the row of one existing conversation. *)
Lemma conv_effect_row s s' cid c c' :
  content s' = content s → Store_messages s' = Store_messages s →
  Store_conversations s !! cid = Some c → Conversation_LastSeq c' = Conversation_LastSeq c →
  Store_conversations s' = <[cid := c']> (Store_conversations s) → conv_effect s s'.
Proof.
  intros Hct Hm Hc Hseq Hc'. split; [done|]. intros i. apply row_same; [by rewrite Hm|].
  unfold last_seq. rewrite Hc'. destruct (decide (i = cid)) as [->|Hne].
  - rewrite lookup_insert_eq, Hc. simpl. by rewrite Hseq.
  - by rewrite lookup_insert_ne.
Qed.

(** The same, written through [conversation_or_zero]. *)
Lemma conv_effect_row_zero s s' cid c' :
  conv_inv s → is_Some (Store_members s !! cid) →
  content s' = content s → Store_messages s' = Store_messages s →
  Conversation_LastSeq c' = Conversation_LastSeq (conversation_or_zero s cid) →
  Store_conversations s' = <[cid := c']> (Store_conversations s) → conv_effect s s'.
Proof.
  intros Hs Hm Hct Hmsg Hseq Hc'. apply (ci_dom s Hs) in Hm as [c Hc].
  eapply (conv_effect_row s s' cid c c'); [done|done|done| |done].
  rewrite Hseq. unfold conversation_or_zero. by rewrite Hc.
Qed.

Lemma conv_effect_trans s1 s2 s3 :
  conv_effect s1 s2 → conv_effect s2 s3 →
  (∀ cid, last_seq s1 cid = None → last_seq s2 cid = None) →
  (∀ cid, last_seq s2 cid = None → last_seq s3 cid = None) → conv_effect s1 s3.
Proof.
  intros [Hc1 Hr1] [Hc2 Hr2] Hn1 Hn2. split; [congruence|]. intros cid.
  destruct (Hr1 cid) as [Hm Hs|Hm Hs|Hm Hs Hs'], (Hr2 cid) as [Hm' Hs''|Hm' Hs''|Hm' Hs'' Hs''']; 
    first [apply row_same; congruence | apply row_deleted; congruence
          | apply row_created; congruence | apply Hn1 in Hs; congruence
          | apply Hn2 in Hs''; congruence | idtac].
Qed.

(** ** The helpers *)

Lemma outbox_grows_content s s' evs :
  outbox_grows s s' evs → content s' = content s ∧ Store_messages s' = Store_messages s.
Proof. by intros [n ->]. Qed.

Lemma dropTombstone_content s cid userID :
  content (dropTombstone s cid userID) = content s ∧
  Store_messages (dropTombstone s cid userID) = Store_messages s.
Proof. unfold dropTombstone. by case_match. Qed.

Lemma ensure_content s cid metadata members :
  let s' := (ensureConversationMemberLocalIDsLocked s cid metadata members).1 in
  content s' = content s ∧ Store_messages s' = Store_messages s.
Proof. unfold ensureConversationMemberLocalIDsLocked. by case_match. Qed.

Lemma appendMediaDeleteBatches_content fuel s cid keys notBefore clock :
  let s' := appendMediaDeleteBatches fuel s cid keys notBefore clock in
  content s' = content s ∧ Store_messages s' = Store_messages s.
Proof.
  revert s keys clock. induction fuel as [|fuel IH]; intros s keys clock; [done|].
  destruct keys as [|k keys]; [done|]. cbn [appendMediaDeleteBatches]. cbv zeta.
  destruct (appendMediaDeletesAt_grows s cid (take MediaDeleteBatchSize (k :: keys)) notBefore clock)
    as (evs & all & Hg & _).
  destruct (outbox_grows_content _ _ _ Hg) as [<- <-]. apply IH.
Qed.

Lemma projectConversationMembersLocked_content s cid :
  let s' := (projectConversationMembersLocked s cid).1 in
  content s' = content s ∧ Store_messages s' = Store_messages s ∧
  (Store_conversations s' = Store_conversations s ∨
   ∃ c c', Store_conversations s !! cid = Some c ∧
     Conversation_LastSeq c' = Conversation_LastSeq c ∧
     Store_conversations s' = <[cid := c']> (Store_conversations s)).
Proof.
  unfold projectConversationMembersLocked.
  destruct (Store_conversations s !! cid) as [c|] eqn:Hc; [|by repeat split; left].
  destruct (negb _); [by repeat split; left|].
  match goal with |- context [ensureConversationMemberLocalIDsLocked s cid ?md ?mb] =>
    destruct (ensure_content s cid md mb) as [Hct Hm];
    destruct (ensure_tables s cid md mb) as [Hcs _];
    destruct (ensureConversationMemberLocalIDsLocked s cid md mb) as [s2 [localIDs|e]] end;
    cbn [fst] in *; [|by repeat split; auto].
  split_and!; [exact Hct|exact Hm|right]. eexists c, _. split_and!; [done| |cbn; by rewrite Hcs].
  done.
Qed.

(** ** The operations *)

Ltac same := by apply conv_effect_same.

Lemma effect_create s p newID clock : conv_effect s (CreateConversation s p newID clock).1.
Proof.
  unfold CreateConversation. cbv zeta.
  destruct (if bool_decide _ then _ else _) as [[]|]; [same|].
  destruct (existsb _ _); [same|].
  set (cid := if bool_decide _ then newID else _).
  destruct (Store_conversations s !! cid) as [existing|] eqn:Hex; [case_match; same|].
  set (c := mkConversation cid _ _ _ _ _ _ _ _).
  set (s1 := openConversation s c (newMembers cid _ _ _)).
  match goal with |- context [ensureConversationMemberLocalIDsLocked s1 cid ?md ?mb] =>
    destruct (ensure_content s1 cid md mb) as [Hct Hm];
    destruct (ensure_tables s1 cid md mb) as [Hcs _];
    destruct (ensureConversationMemberLocalIDsLocked s1 cid md mb) as [s2 [localIDs|e]] end;
    cbn [fst] in *.
  - split; [exact Hct|]. intros i. unfold last_seq. cbn.
    destruct (decide (i = cid)) as [->|Hne].
    + apply row_created; unfold last_seq; cbn; rewrite ?Hm, ?lookup_insert_eq, ?Hex; [done|done|].
      by case_match.
    + apply row_same; unfold last_seq; cbn; rewrite ?Hm; [done|].
      rewrite lookup_insert_ne, Hcs by done. unfold s1. cbn. by rewrite lookup_insert_ne.
  - apply conv_effect_same; [exact Hct|exact Hm|]. cbn. rewrite Hcs. unfold s1. cbn.
    by apply delete_insert_id.
Qed.

Lemma effect_update s cid actorID p clock :
  conv_effect s (UpdateConversation s cid actorID p clock).1.
Proof.
  unfold UpdateConversation. destruct (Store_conversations s !! cid) as [c|] eqn:Hc; [|same].
  destruct (negb _); [same|]. cbv zeta. destruct (bool_decide _).
  - match goal with |- context [ensureConversationMemberLocalIDsLocked s cid ?md ?mb] =>
      destruct (ensure_content s cid md mb) as [Hct Hm];
      destruct (ensure_tables s cid md mb) as [Hcs _];
      destruct (ensureConversationMemberLocalIDsLocked s cid md mb) as [s2 [localIDs|e]] end;
      cbn [fst] in *; [|by apply conv_effect_same].
    eapply (conv_effect_row s _ cid c); [exact Hct|exact Hm|done| |cbn; by rewrite Hcs].
    cbn. by repeat case_match.
  - eapply (conv_effect_row s _ cid c); [done|done|done| |reflexivity]. cbn. by repeat case_match.
Qed.

Lemma effect_delete s cid actorID clock : conv_effect s (DeleteConversation s cid actorID clock).1.
Proof.
  unfold DeleteConversation. destruct (Store_conversations s !! cid) as [c|]; [|same].
  destruct (_ || _); [same|]. cbv zeta. cbn [fst].
  match goal with |- context [appendMediaDeleteBatches ?f ?s1 ?c ?k ?n ?cl] =>
    destruct (appendMediaDeleteBatches_content f s1 c k n cl) as [Hct Hm];
    destruct (appendMediaDeleteBatches_tables f s1 c k n cl) as [Hcs _];
    set (s' := appendMediaDeleteBatches f s1 c k n cl) in * end.
  assert (Store_messages s' = delete cid (Store_messages s)) as Hm' by exact Hm.
  assert (Store_conversations s' = delete cid (Store_conversations s)) as Hc' by exact Hcs.
  clear Hm Hcs. split; [exact Hct|]. intros i. destruct (decide (i = cid)) as [->|Hne].
  - apply row_deleted; unfold last_seq; by rewrite ?Hm', ?Hc', lookup_delete_eq.
  - apply row_same; unfold last_seq; by rewrite ?Hm', ?Hc', lookup_delete_ne.
Qed.

Lemma effect_add s cid actorID userID newRole clock :
  conv_inv s → conv_effect s (AddConversationMember s cid actorID userID newRole clock).1.
Proof.
  intros Hs. unfold AddConversationMember.
  destruct (Store_members s !! cid) as [ms|] eqn:Hms; [|same].
  destruct (negb _); [same|]. destruct (_ && _); [same|].
  destruct (live_user s userID); [|same]. destruct (negb (privileged _)); [same|]. cbv zeta.
  destruct (bool_decide (role (ms !! userID) = "owner")); [same|].
  destruct (bool_decide (ms !! userID = None) && _); [same|].
  destruct (planConversationMembershipProjectionLocked _ _ _ _ _) as [[planned projected]|]; [|same].
  cbn [fst]. set (cand := mkConversationMember _ _ _ _ _ _ _ _ _ _).
  destruct (plan_ok_irrelevant s cid userID cand planned projected (clock 1)) as [Hcs _].
  assert (content (commitJoin s cid userID cand planned projected (clock 1)) = content s ∧
    Store_messages (commitJoin s cid userID cand planned projected (clock 1)) = Store_messages s)
    as [Hct Hm] by exact (dropTombstone_content (setMember s cid userID cand) cid userID).
  eapply (conv_effect_row_zero s _ cid); [done|by eexists|..].
  - destruct (bool_decide _); exact Hct.
  - destruct (bool_decide _); exact Hm.
  - shelve.
  - destruct (bool_decide _); exact Hcs.
  Unshelve. done.
Qed.

Lemma commitClaim_effect s userID phone now plan clock :
  let cid := ClaimPlan_conversationID plan in
  let s' := commitClaim s userID phone now plan clock in
  is_Some (Store_conversations s !! cid) →
  conv_effect s s' ∧ ∀ i, is_Some (Store_conversations s' !! i) ↔ is_Some (Store_conversations s !! i).
Proof.
  intros cid s' [c Hc]. unfold s', commitClaim. cbv zeta. fold cid.
  match goal with |- context [dropTombstone ?s2 cid userID] =>
    destruct (dropTombstone_content s2 cid userID) as [Hct Hm];
    destruct (dropTombstone_tables s2 cid userID) as [Hcs _] end.
  assert (∀ s3, Store_conversations (if ClaimPlan_joined plan
      then appendMemberAdded (setMember s3 cid userID (ClaimPlan_candidate plan)) cid userID userID clock
      else s3) = Store_conversations s3) as Hj by (intros s3; by destruct (ClaimPlan_joined plan)).
  split.
  - eapply (conv_effect_row s _ cid c).
    + etrans; [exact Hct|]. by destruct (ClaimPlan_joined plan).
    + etrans; [exact Hm|]. by destruct (ClaimPlan_joined plan).
    + done.
    + shelve.
    + cbn. by rewrite Hcs, Hj.
    Unshelve. cbn. unfold conversation_or_zero. cbn. rewrite Hcs, Hj. cbn. by rewrite Hc.
  - intros i. cbn. rewrite Hcs, Hj. cbn. rewrite lookup_insert_is_Some'.
    split; [intros [<-|?]; [by eexists|done]|by right].
Qed.

Lemma commitClaims_effect s userID phone now plans clock :
  Forall (λ plan, is_Some (Store_conversations s !! ClaimPlan_conversationID plan)) plans →
  conv_effect s (commitClaims s userID phone now plans clock) ∧
  ∀ i, is_Some (Store_conversations (commitClaims s userID phone now plans clock) !! i)
    ↔ is_Some (Store_conversations s !! i).
Proof.
  revert s clock. induction plans as [|plan plans IH]; intros s clock Hall; [by split; [same|]|].
  apply Forall_cons in Hall as [Hex Hall]. cbn [commitClaims].
  destruct (commitClaim_effect s userID phone now plan clock Hex) as [H1 Hd1].
  set (s1 := commitClaim s userID phone now plan clock) in *.
  destruct (IH s1 (later 2 clock)) as [H2 Hd2].
  { eapply Forall_impl; [exact Hall|]. intros plan' Hp. by apply Hd1. }
  split; [|intros i; by rewrite Hd2].
  assert (∀ a b, (∀ i, is_Some (Store_conversations b !! i) ↔ is_Some (Store_conversations a !! i)) →
    ∀ i, last_seq a i = None → last_seq b i = None) as Hnone.
  { intros a b Hab i. unfold last_seq. rewrite !fmap_None, !eq_None_not_Some, Hab. done. }
  eapply conv_effect_trans; [exact H1|exact H2|apply Hnone, Hd1|apply Hnone, Hd2].
Qed.

Lemma effect_claim s userID phone clock :
  conv_effect s (ClaimConversationInvites s userID phone clock).1.
Proof.
  unfold ClaimConversationInvites. destruct (live_user s userID); [|same]. cbv zeta.
  destruct (planClaims s userID (clock 0) _) as [plans|] eqn:Hp; [|same]. cbn [fst].
  apply commitClaims_effect. apply planClaims_ok in Hp as [_ Hp].
  eapply Forall_impl; [exact Hp|]. by intros plan [Hex _].
Qed.

Lemma effect_accept s tokenHash userID clock :
  conv_inv s → conv_effect s (AcceptConversationInvite s tokenHash userID clock).1.
Proof.
  intros Hs. unfold AcceptConversationInvite. destruct (live_user s userID); [|same].
  destruct (Store_inviteLinks s !! tokenHash) as [invite|]; [|same]. cbv zeta.
  set (cid := ConversationInvite_ConversationID invite).
  destruct (Store_conversations s !! cid) as [c|] eqn:Hc; [|same].
  assert (Conversation_ID c = cid) as -> by (by apply (ci_id s Hs)).
  destruct (membersOf s cid !! userID) as [m|].
  - match goal with |- context [ensureConversationMemberLocalIDsLocked s cid ?md ?mb] =>
      destruct (ensure_content s cid md mb) as [Hct Hm];
      destruct (ensure_tables s cid md mb) as [Hcs _];
      destruct (ensureConversationMemberLocalIDsLocked s cid md mb) as [s2 [localIDs|e]] end;
      cbn [fst] in *; [|by apply conv_effect_same].
    destruct (negb _); [|by apply conv_effect_same].
    eapply (conv_effect_row s _ cid c); [exact Hct|exact Hm|done| |cbn; by rewrite Hcs]. done.
  - destruct (conversationInviteActiveError invite (clock 0)); [same|].
    destruct (_ || _); [same|].
    destruct (planConversationMembershipProjectionLocked _ _ _ _ _) as [[planned projected]|]; [|same].
    cbn [fst]. set (cand := mkConversationMember _ _ _ _ _ _ _ _ _ _).
    destruct (dropTombstone_content (setMember s cid userID cand) cid userID) as [Hct Hm].
    destruct (dropTombstone_tables (setMember s cid userID cand) cid userID) as [Hcs _].
    eapply (conv_effect_row s _ cid c); [exact Hct|exact Hm|done| |cbn; by rewrite Hcs]. done.
Qed.

Lemma effect_remove s cid actorID userID clock :
  conv_inv s → conv_effect s (RemoveConversationMember s cid actorID userID clock).1.
Proof.
  intros Hs. unfold RemoveConversationMember.
  destruct (Store_members s !! cid) as [ms|] eqn:Hms; [|same].
  destruct (negb _); [same|]. destruct (ms !! userID) as [target|]; [|same].
  destruct (bool_decide _); [same|]. destruct (_ && _); [same|]. cbv zeta. cbn [fst].
  match goal with |- context [projectConversationMembersLocked ?s1 cid] =>
    set (s2 := s1);
    destruct (projectConversationMembersLocked_content s2 cid) as (Hct & Hm & Hcs);
    set (s3 := (projectConversationMembersLocked s2 cid).1) in * end.
  assert (∃ c', Store_conversations s3 = <[cid := c']> (Store_conversations s) ∧
    Conversation_LastSeq c' = Conversation_LastSeq (conversation_or_zero s cid)) as (c' & Hc' & Hseq).
  { destruct Hcs as [->|(c & c' & Hc & Hseq & ->)].
    - unfold s2. cbn. by eexists.
    - exists c'. unfold s2 in *. cbn in *. rewrite lookup_insert_eq in Hc. simplify_eq.
      by rewrite insert_insert_eq. }
  eapply (conv_effect_row_zero s _ cid); [done|by eexists|exact Hct|exact Hm|exact Hseq|exact Hc'].
Qed.

Lemma effect_transfer s cid actorID targetID clock :
  conv_inv s → conv_effect s (TransferConversationOwnership s cid actorID targetID clock).1.
Proof.
  intros Hs. unfold TransferConversationOwnership. cbv zeta.
  destruct (negb _); [same|].
  destruct (Store_members s !! cid) as [ms|] eqn:Hms; [|same].
  destruct (ms !! actorID); [|same]. destruct (negb _); [same|].
  destruct (ms !! targetID); [|same]. destruct (bool_decide _); [same|].
  eapply (conv_effect_row_zero s _ cid); [done|by eexists|done|done| |reflexivity]. done.
Qed.

Lemma conv_step_effect s op : conv_inv s → conv_effect s (conv_step s op).
Proof.
  intros Hs. destruct op; cbn [conv_step].
  - apply effect_create.
  - apply effect_update.
  - apply effect_delete.
  - by apply effect_add.
  - unfold CreateConversationInvites. case_match; same.
  - apply effect_claim.
  - unfold CreateConversationInvite. cbv zeta. repeat case_match; same.
  - by apply effect_accept.
  - unfold RevokeConversationInvite. cbv zeta. repeat case_match; same.
  - by apply effect_remove.
  - by apply effect_transfer.
Qed.
End effect.
