(* ===== verification/Messages.v ===== *)
(** * Messages and receipts

    [src/internal/store/memory/memory.go], lines 1946-2055, with the parameter types of
    [src/internal/store/store.go].

    A conversation's messages carry the numbers 1, 2, ... [LastSeq] without gaps, a
    client message id is stored once per sender, a page is the expected slice of the
    visible messages, following the pages visits all of them, and a receipt never
    moves back. *)

From Stdlib Require Import ZArith Lia.
From S2P Require Import Prelude.
From S2P Require Import Runtime.
From S2P Require Import Domain.
From S2P Require Import Compliance.
From S2P Require Import StoreState.
From S2P Require Import Conversations.
From S2P Require Import Membership.
From S2P Require Import ConvFrame.

Record CreateMessageParams := mkCreateMessageParams {
  CreateMessageParams_ID : UUID; CreateMessageParams_ClientMessageID : string;
  CreateMessageParams_ConversationID : UUID; CreateMessageParams_SenderID : UUID;
  CreateMessageParams_SenderDeviceID : UUID; CreateMessageParams_ContentType : string;
  CreateMessageParams_Ciphertext : string; CreateMessageParams_Envelope : RawMessage;
  CreateMessageParams_ReplyToID : option UUID }.

Record ListMessagesParams := mkListMessagesParams {
  ListMessagesParams_ConversationID : UUID; ListMessagesParams_UserID : UUID;
  ListMessagesParams_BeforeSeq : option Z; ListMessagesParams_AfterSeq : option Z;
  ListMessagesParams_Limit : Z }.

Definition MaxMessagePageSize : Z := 500.

Definition ListMessagesParams_Validate (p : ListMessagesParams) : option Error :=
  if bool_decide (ListMessagesParams_ConversationID p = uuid_Nil)
     || bool_decide (ListMessagesParams_UserID p = uuid_Nil)
     || (ListMessagesParams_Limit p <? 1)%Z
     || (MaxMessagePageSize <? ListMessagesParams_Limit p)%Z
     || (bool_decide (is_Some (ListMessagesParams_BeforeSeq p))
         && bool_decide (is_Some (ListMessagesParams_AfterSeq p)))
     || match ListMessagesParams_BeforeSeq p with Some b => (b <? 1)%Z | None => false end
     || match ListMessagesParams_AfterSeq p with Some a => (a <? 0)%Z | None => false end
  then Some ErrInvalid else None.

(** ** [sort.Search]

    [i, j := 0, n; for i < j { h := (i+j)/2; if !f(h) { i = h+1 } else { j = h } }];
    the interval shrinks in every turn, so the fuel [n] is enough. *)
Fixpoint search_loop (fuel : nat) (f : nat → bool) (i j : nat) : nat :=
  match fuel with
  | O => i
  | S fuel =>
    if (i <? j)%nat then
      let h := (i + j) / 2 in
      if f h then search_loop fuel f i h else search_loop fuel f (S h) j
    else i
  end.
Definition sort_Search (n : nat) (f : nat → bool) : nat := search_loop n f 0 n.

Lemma search_loop_spec fuel f n i j :
  j - i ≤ fuel → i ≤ j ≤ n →
  (∀ a b, a ≤ b < n → f a = true → f b = true) →
  (∀ k, k < i → f k = false) → (∀ k, j ≤ k < n → f k = true) →
  let r := search_loop fuel f i j in r ≤ n ∧ ∀ k, k < n → f k = true ↔ r ≤ k.
Proof.
  intros Hfuel Hij Hmono. revert i j Hfuel Hij.
  assert (∀ i, i ≤ n → (∀ k, k < i → f k = false) → (∀ k, i ≤ k < n → f k = true) →
    ∀ k, k < n → f k = true ↔ i ≤ k) as Hdone.
  { intros i Hi Hlo Hhi k Hk. split; [|intros; apply Hhi; lia].
    intros Hf. destruct (decide (i ≤ k)); [done|]. rewrite Hlo in Hf by lia. done. }
  induction fuel as [|fuel IH]; intros i j Hfuel Hij Hlo Hhi; cbn [search_loop]; cbv zeta.
  - split; [lia|]. apply Hdone; [lia|done|]. intros k Hk. apply Hhi. lia.
  - destruct (Nat.ltb_spec i j) as [Hlt|Hge].
    + set (h := (i + j) / 2). assert (i ≤ h < j) as Hh.
      { pose proof (Nat.div_mod_eq (i + j) 2). pose proof (Nat.mod_upper_bound (i + j) 2). lia. }
      destruct (f h) eqn:Hf; apply IH; try lia; try done.
      * intros k Hk. destruct (decide (k < j)); [|apply Hhi; lia]. apply (Hmono h); [lia|done].
      * intros k Hk. destruct (f k) eqn:Hfk; [|done]. rewrite (Hmono k h) in Hf; [done|lia|done].
    + split; [lia|]. apply Hdone; [lia|done|]. intros k Hk. apply Hhi. lia.
Qed.

Lemma sort_Search_spec n f :
  (∀ a b, a ≤ b < n → f a = true → f b = true) →
  sort_Search n f ≤ n ∧ ∀ k, k < n → f k = true ↔ sort_Search n f ≤ k.
Proof. intros Hmono. apply search_loop_spec; [lia|lia|done|lia|lia]. Qed.

(** ** The operations *)
Section messages.
Context `{GoRuntime}.
Implicit Types (s : Store) (cid userID : UUID) (m : Message).

(** [p.ConversationID.String() + ":" + p.SenderID.String() + ":" + p.ClientMessageID] *)
Definition clientMessageKey cid (senderID : UUID) (clientMessageID : string) : string :=
  uuidTextKey cid (uuidTextKey senderID clientMessageID).

Definition messagesOf s cid : list Message := default [] (Store_messages s !! cid).

(** The message a successful call stores. *)
Definition newMessage (p : CreateMessageParams) (id : UUID) (seq now : Z) : Message :=
  mkMessage id (CreateMessageParams_ClientMessageID p) (CreateMessageParams_ConversationID p)
    (CreateMessageParams_SenderID p) (CreateMessageParams_SenderDeviceID p) seq
    (CreateMessageParams_ContentType p) (CreateMessageParams_Ciphertext p)
    (CreateMessageParams_Envelope p) (CreateMessageParams_ReplyToID p) now now.

Definition CreateMessage s (p : CreateMessageParams) (newID : UUID) (clock : Clock) :
    Store * res (Message * list UUID) :=
  let cid := CreateMessageParams_ConversationID p in
  match Store_members s !! cid with
  | None => (s, Err ErrNotFound)
  | Some members =>
    match members !! CreateMessageParams_SenderID p with
    | None => (s, Err ErrForbidden)
    | Some _ =>
      let idempotencyKey := clientMessageKey cid (CreateMessageParams_SenderID p)
        (CreateMessageParams_ClientMessageID p) in
      match Store_clientMessages s !! idempotencyKey with
      | Some existing => (s, Ok (existing, memberIDs members))
      | None =>
        let conversation := (conversation_or_zero s cid)
          <| Conversation_LastSeq ::= (λ n, int64_wrap (n + 1)) |> in
        let now := clock 0 in
        let conversation := conversation <| Conversation_UpdatedAt := now |> in
        let s := s <| Store_conversations ::= <[cid := conversation]> |> in
        let message := newMessage p
          (if bool_decide (CreateMessageParams_ID p = uuid_Nil) then newID
           else CreateMessageParams_ID p) (Conversation_LastSeq conversation) now in
        let s := s <| Store_messages ::= (λ t, <[cid := default [] (t !! cid) ++ [message]]> t) |> in
        let s := s <| Store_clientMessages ::= <[idempotencyKey := message]> |> in
        (appendOutbox s "message.created" cid (PMessage message) (later 1 clock),
         Ok (message, memberIDs members))
      end
    end
  end.

(** The messages of senders with no block in either direction. *)
Definition visibleMessages s cid userID : list Message :=
  List.filter (λ m, negb (Blocked (Store_compliance s) userID (Message_SenderID m)))
    (messagesOf s cid).

(** The loop for [AfterSeq], with the result built so far. *)
Fixpoint collectAfter (afterSeq limit : Z) (result messages : list Message) : list Message :=
  match messages with
  | [] => result
  | message :: messages =>
    if (Message_Seq message <=? afterSeq)%Z then collectAfter afterSeq limit result messages
    else
      let result := result ++ [message] in
      if (Z.of_nat (length result) =? limit)%Z then result
      else collectAfter afterSeq limit result messages
  end.

Definition seqAt (messages : list Message) (index : nat) : Z :=
  match messages !! index with Some m => Message_Seq m | None => 0 end.

Definition ListMessages s (p : ListMessagesParams) : res (list Message) :=
  match ListMessagesParams_Validate p with
  | Some e => Err e
  | None =>
    let cid := ListMessagesParams_ConversationID p in
    if negb (is_member s cid (ListMessagesParams_UserID p)) then Err ErrForbidden
    else
      let messages := visibleMessages s cid (ListMessagesParams_UserID p) in
      match ListMessagesParams_AfterSeq p with
      | Some afterSeq => Ok (collectAfter afterSeq (ListMessagesParams_Limit p) [] messages)
      | None =>
        let end_ := match ListMessagesParams_BeforeSeq p with
          | Some beforeSeq =>
            sort_Search (length messages) (λ index, (beforeSeq <=? seqAt messages index)%Z)
          | None => length messages
          end in
        let start := Z.to_nat (Z.max 0 (Z.of_nat end_ - ListMessagesParams_Limit p)) in
        Ok (take (end_ - start) (drop start messages))
      end
  end.

Definition zeroReceipt : Receipt := mkReceipt uuid_Nil uuid_Nil 0 0 0.

Definition UpsertReceipt s (receipt : Receipt) (clock : Clock) : Store * res Receipt :=
  let cid := Receipt_ConversationID receipt in
  if negb (is_member s cid (Receipt_UserID receipt)) then (s, Err ErrForbidden)
  else
    let key := uuidPairKey cid (Receipt_UserID receipt) in
    let current := default zeroReceipt (Store_receipts s !! key) in
    if (Receipt_DeliveredSeq receipt <? Receipt_DeliveredSeq current)%Z
       || (Receipt_ReadSeq receipt <? Receipt_ReadSeq current)%Z
    then (s, Err ErrConflict)
    else
      let receipt := receipt <| Receipt_UpdatedAt := clock 0 |> in
      let s := s <| Store_receipts ::= <[key := receipt]> |> in
      (appendOutbox s "receipt.updated" cid (PReceipt receipt) (later 1 clock), Ok receipt).

Definition ListReceipts s cid (actorID : UUID) : res (list Receipt) :=
  if negb (is_member s cid actorID) then Err ErrForbidden
  else
    Ok (merge_sort (by_uuid Receipt_UserID)
      (List.filter (λ kv : string * Receipt, HasPrefix kv.1 (uuid_String cid +:+ ":"))
         (range (Store_receipts s))).*2).
End messages.

(** ** Invariant *)
Section invariant.
Context `{GoRuntime}.
Implicit Types (s : Store) (cid userID : UUID) (m : Message).

Definition message_key m : string :=
  clientMessageKey (Message_ConversationID m) (Message_SenderID m) (Message_ClientMessageID m).

Definition int64_max : Z := 2 ^ 63 - 1.

(** Numbered 1, 2, 3, ... in list order. *)
Definition numbered_from_one (l : list Message) : Prop :=
  ∀ i m, l !! i = Some m → Message_Seq m = (Z.of_nat i + 1)%Z.

Record msg_inv s : Prop := {
  mi_dom : ∀ cid, is_Some (Store_messages s !! cid) → is_Some (last_seq s cid);
  mi_seq : ∀ cid n, last_seq s cid = Some n →
    (Z.of_nat (length (messagesOf s cid)) ≤ int64_max)%Z →
    n = Z.of_nat (length (messagesOf s cid)) ∧ numbered_from_one (messagesOf s cid);
  mi_rows : ∀ cid m, m ∈ messagesOf s cid →
    Message_ConversationID m = cid ∧ Store_clientMessages s !! message_key m = Some m;
  mi_once : ∀ cid, NoDup (message_key <$> messagesOf s cid);
  mi_keys : ∀ k m, Store_clientMessages s !! k = Some m → message_key m = k;
  mi_receipts : ∀ k r, Store_receipts s !! k = Some r →
    k = uuidPairKey (Receipt_ConversationID r) (Receipt_UserID r);
}.

Lemma numbered_app l m :
  numbered_from_one l → Message_Seq m = (Z.of_nat (length l) + 1)%Z → numbered_from_one (l ++ [m]).
Proof.
  intros Hl Hm i x [Hx|[Hi Hx]]%lookup_app_Some; [by apply Hl|].
  apply list_lookup_singleton_Some in Hx as [Hi0 <-]. rewrite Hm. f_equal. lia.
Qed.

(** The messages after a step that creates none. *)
Lemma messagesOf_effect s s' cid :
  msg_inv s → row_effect s s' cid →
  messagesOf s' cid = messagesOf s cid ∧
    (last_seq s' cid = last_seq s cid ∨
     messagesOf s cid = [] ∧ last_seq s' cid = Some 0%Z) ∨
  messagesOf s' cid = [] ∧ last_seq s' cid = None.
Proof.
  intros Hs [Hm Hl|Hm Hl|Hm Hl Hl']; unfold messagesOf; rewrite Hm; [left; auto|right; auto|].
  left. split; [done|]. right. split; [|done].
  destruct (Store_messages s !! cid) eqn:Hsm; [|done].
  destruct (mi_dom s Hs cid) as [? Hn]; [by eexists|]. congruence.
Qed.

Lemma msg_inv_effect s s' : msg_inv s → conv_effect s s' → msg_inv s'.
Proof.
  intros Hs [Hct Hrow]. unfold content in Hct. simplify_eq.
  match goal with Hk : Store_clientMessages s' = _ |- _ => rename Hk into Hkeys end.
  match goal with Hk : Store_receipts s' = _ |- _ => rename Hk into Hrec end.
  split.
  - intros cid Hm. destruct (Hrow cid) as [Hm' ->|Hm' _|Hm' _ ->]; [|by rewrite Hm' in Hm; destruct Hm|by eexists].
    rewrite Hm' in Hm. by apply (mi_dom s Hs).
  - intros cid n Hn Hlen. destruct (messagesOf_effect s s' cid Hs (Hrow cid)) as [[Hm [Hl|[Hnil Hl]]]|[_ Hl]].
    + rewrite Hm in *. rewrite Hl in Hn. by apply (mi_seq s Hs).
    + rewrite Hm, Hnil in *. rewrite Hl in Hn. simplify_eq. split; [done|]. by intros i m Hi.
    + congruence.
  - intros cid m Hm. rewrite Hkeys. apply (mi_rows s Hs).
    destruct (messagesOf_effect s s' cid Hs (Hrow cid)) as [[<- _]|[Hnil _]]; [done|].
    rewrite Hnil in Hm. by apply not_elem_of_nil in Hm.
  - intros cid. destruct (messagesOf_effect s s' cid Hs (Hrow cid)) as [[-> _]|[-> _]];
      [apply (mi_once s Hs)|constructor].
  - rewrite Hkeys. apply (mi_keys s Hs).
  - rewrite Hrec. apply (mi_receipts s Hs).
Qed.

(** What a successful, non-replayed call of [CreateMessage] writes. *)
Lemma CreateMessage_cases s p newID clock :
  let cid := CreateMessageParams_ConversationID p in
  let key := clientMessageKey cid (CreateMessageParams_SenderID p) (CreateMessageParams_ClientMessageID p) in
  let s' := (CreateMessage s p newID clock).1 in
  s' = s ∨
  is_Some (Store_members s !! cid) ∧ Store_clientMessages s !! key = None ∧
  ∃ m c, Store_conversations s' = <[cid := c]> (Store_conversations s) ∧
    Store_messages s' = <[cid := messagesOf s cid ++ [m]]> (Store_messages s) ∧
    Message_Seq m = int64_wrap (Conversation_LastSeq (conversation_or_zero s cid) + 1) ∧
    Message_ConversationID m = cid ∧ message_key m = key ∧
    Conversation_LastSeq c = Message_Seq m ∧
    conv_identity c = conv_identity (conversation_or_zero s cid) ∧
    Store_clientMessages s' = <[key := m]> (Store_clientMessages s) ∧
    Store_members s' = Store_members s ∧ Store_receipts s' = Store_receipts s.
Proof.
  cbv zeta. unfold CreateMessage. cbv zeta.
  destruct (Store_members s !! _) as [members|] eqn:Hms; [|by left].
  destruct (members !! _); [|by left].
  destruct (Store_clientMessages s !! _) eqn:Hk; [by left|]. right.
  split; [by eexists|]. split; [done|].
  eexists _, _. split_and!; reflexivity.
Qed.

Lemma last_seq_zero s cid n :
  last_seq s cid = Some n → Conversation_LastSeq (conversation_or_zero s cid) = n.
Proof.
  unfold last_seq, conversation_or_zero. destruct (Store_conversations s !! cid); intros; by simplify_eq/=.
Qed.

Lemma CreateMessage_inv s p newID clock :
  conv_inv s → msg_inv s → msg_inv (CreateMessage s p newID clock).1.
Proof.
  intros Hc Hs. destruct (CreateMessage_cases s p newID clock)
    as [->|(Hex & Hkey & m & c & Hcs & Hmsg & Hseq & Hcid & Hmk & Hlast & _ & Hcl & _ & Hrec)]; [done|].
  set (cid := CreateMessageParams_ConversationID p) in *.
  set (s' := (CreateMessage s p newID clock).1) in *.
  assert (∀ i, messagesOf s' i = if decide (i = cid) then messagesOf s cid ++ [m] else messagesOf s i) as Hof.
  { intros i. unfold messagesOf at 1. rewrite Hmsg. destruct (decide (i = cid)) as [->|Hne].
    - by rewrite lookup_insert_eq.
    - by rewrite lookup_insert_ne. }
  assert (∀ i, last_seq s' i = if decide (i = cid) then Some (Message_Seq m) else last_seq s i) as Hls.
  { intros i. unfold last_seq. rewrite Hcs. destruct (decide (i = cid)) as [->|Hne].
    - rewrite lookup_insert_eq. simpl. by rewrite Hlast.
    - by rewrite lookup_insert_ne. }
  assert (∀ x, x ∈ messagesOf s cid → message_key x ≠ message_key m) as Hfresh.
  { intros x [_ Hx]%(mi_rows s Hs) Heq. rewrite Heq, Hmk in Hx. congruence. }
  split.
  - intros i. rewrite Hls, Hmsg. destruct (decide (i = cid)) as [->|Hne]; [by eexists|].
    rewrite lookup_insert_ne by done. apply (mi_dom s Hs).
  - intros i n. rewrite Hls, Hof. destruct (decide (i = cid)) as [->|Hne]; [|apply (mi_seq s Hs)].
    intros [= <-]. rewrite length_app. simpl. intros Hlen.
    apply (ci_dom s Hc) in Hex as [c0 Hc0]. 
    destruct (mi_seq s Hs cid (Conversation_LastSeq c0)) as [Hn Hnum]; [unfold last_seq; by rewrite Hc0|lia|].
    rewrite (last_seq_zero s cid (Conversation_LastSeq c0)) in Hseq by (unfold last_seq; by rewrite Hc0).
    rewrite int64_wrap_small in Hseq by (unfold int64_max in Hlen; lia).
    split; [lia|]. apply numbered_app; [done|lia].
  - intros i x. rewrite Hof, Hcl. destruct (decide (i = cid)) as [->|Hne].
    + intros [Hx| ->%list_elem_of_singleton]%elem_of_app.
      * rewrite lookup_insert_ne; [by apply (mi_rows s Hs)|]. rewrite <- Hmk. by apply not_eq_sym, Hfresh.
      * split; [done|]. by rewrite Hmk, lookup_insert_eq.
    + intros Hx. destruct (mi_rows s Hs i x Hx) as [Hi Hk]. split; [done|].
      rewrite lookup_insert_ne; [done|]. intros Heq. rewrite <- Heq in Hk. congruence.
  - intros i. rewrite Hof. destruct (decide (i = cid)) as [->|Hne]; [|apply (mi_once s Hs)].
    rewrite fmap_app, NoDup_app. split_and!; [apply (mi_once s Hs)| |apply NoDup_singleton].
    intros k (x & -> & Hx)%list_elem_of_fmap Hin. apply list_elem_of_singleton in Hin.
    by apply (Hfresh x).
  - rewrite Hcl. intros k x [[<- <-]|[_ Hx]]%lookup_insert_Some; [done|by apply (mi_keys s Hs)].
  - rewrite Hrec. apply (mi_receipts s Hs).
Qed.

Lemma UpsertReceipt_inv s r clock : msg_inv s → msg_inv (UpsertReceipt s r clock).1.
Proof.
  intros Hs. unfold UpsertReceipt. cbv zeta.
  destruct (negb _); [done|]. destruct (_ || _); [done|]. destruct Hs. split; try done.
  cbn. intros k x [[<- <-]|[_ Hx]]%lookup_insert_Some; [done|auto].
Qed.
End invariant.

(** ** Runs *)
Section runs.
Context `{GoRuntime}.
Implicit Types (s : Store) (cid userID : UUID) (m : Message).

(** Steps elsewhere may change anything but these tables. *)
Definition conv_counter (c : Conversation) : (UUID * UUID) * Z := (conv_identity c, Conversation_LastSeq c).

Record msg_frame s s' : Prop := {
  mf_messages : Store_messages s' = Store_messages s;
  mf_client : Store_clientMessages s' = Store_clientMessages s;
  mf_receipts : Store_receipts s' = Store_receipts s;
  mf_members : Store_members s' = Store_members s;
  mf_rows : conv_counter <$> Store_conversations s' = conv_counter <$> Store_conversations s;
}.

Inductive msg_step s : Store → Prop :=
  | step_conv op : conv_op_ok op → msg_step s (conv_step s op)
  | step_message p newID clock : msg_step s (CreateMessage s p newID clock).1
  | step_receipt r clock : msg_step s (UpsertReceipt s r clock).1
  | step_other s' : msg_frame s s' → msg_step s s'.

Definition msg_start s : Prop :=
  Store_conversations s = ∅ ∧ Store_members s = ∅ ∧ Store_messages s = ∅ ∧
  Store_clientMessages s = ∅ ∧ Store_receipts s = ∅.

Definition msg_reachable s : Prop := ∃ s0, msg_start s0 ∧ rtc msg_step s0 s.

Lemma msg_inv_start s : msg_start s → conv_inv s ∧ msg_inv s.
Proof.
  intros (Hc & Hm & Hmsg & Hcl & Hr). split; [apply (conv_inv_frame New); [done|done|apply conv_inv_new]|].
  assert (∀ cid, messagesOf s cid = []) as Hof.
  { intros cid. unfold messagesOf. by rewrite Hmsg, lookup_empty. }
  split; rewrite ?Hcl, ?Hr, ?Hmsg.
  - intros cid. rewrite lookup_empty. by intros [].
  - intros cid n Hn. unfold last_seq in Hn. by rewrite Hc, lookup_empty in Hn.
  - intros cid m. rewrite Hof. by intros ?%not_elem_of_nil.
  - intros cid. rewrite Hof. constructor.
  - intros k m. by rewrite lookup_empty.
  - intros k r. by rewrite lookup_empty.
Qed.

Lemma conv_inv_message s p newID clock :
  conv_inv s → conv_inv (CreateMessage s p newID clock).1.
Proof.
  intros Hs. destruct (CreateMessage_cases s p newID clock)
    as [->|(Hex & _ & m & c & Hcs & _ & _ & _ & _ & _ & Hid & _ & Hm & _)]; [done|].
  apply (ci_dom s Hs) in Hex as [c0 Hc0]. unfold conversation_or_zero in Hid. rewrite Hc0 in Hid.
  injection Hid as Hid Hcb. by eapply conv_inv_row.
Qed.

Lemma msg_frame_last_seq s s' cid : msg_frame s s' → last_seq s' cid = last_seq s cid.
Proof.
  intros [_ _ _ _ Hr]. unfold last_seq.
  change (Conversation_LastSeq) with (snd ∘ conv_counter).
  rewrite !option_fmap_compose, <- !lookup_fmap. by rewrite Hr.
Qed.

Lemma msg_inv_step s s' : msg_step s s' → conv_inv s → msg_inv s → conv_inv s' ∧ msg_inv s'.
Proof.
  intros Hstep Hc Hs. destruct Hstep as [op Hop|p newID clock|r clock|s' Hf].
  - split; [by apply conv_inv_step|]. eapply msg_inv_effect; [done|by apply conv_step_effect].
  - split; [by apply conv_inv_message|by apply CreateMessage_inv].
  - split; [|by apply UpsertReceipt_inv]. apply (conv_inv_frame s); [..|done];
      unfold UpsertReceipt; cbv zeta; by repeat case_match.
  - pose proof (λ cid, msg_frame_last_seq s s' cid Hf) as Hls. destruct Hf as [Hm Hcl Hr Hmem Hrows].
    split.
    + apply (conv_inv_other s); [done|done|].
      apply (f_equal (fmap fst)) in Hrows. by rewrite <- !map_fmap_compose in Hrows.
    + destruct Hs. split; rewrite ?Hcl, ?Hr; [..|done|done].
      * intros cid. rewrite Hm, Hls. auto.
      * intros cid n. unfold messagesOf in *. rewrite Hm, Hls. auto.
      * intros cid m. unfold messagesOf in *. rewrite Hm. auto.
      * intros cid. unfold messagesOf in *. rewrite Hm. auto.
Qed.

Lemma msg_inv_steps s s' : rtc msg_step s s' → conv_inv s → msg_inv s → conv_inv s' ∧ msg_inv s'.
Proof.
  induction 1 as [s|s1 s2 s3 Hst _ IH]; [done|]. intros Hc Hs.
  destruct (msg_inv_step s1 s2 Hst Hc Hs). auto.
Qed.

Lemma msg_reachable_inv s : msg_reachable s → conv_inv s ∧ msg_inv s.
Proof. intros (s0 & [Hc Hs]%msg_inv_start & Hrun). by eapply msg_inv_steps. Qed.

(** ** Numbering *)

(** C1. Message numbers have no gaps and no repetitions: in every reachable
    state the messages of a conversation are numbered 1, 2, ..., and the counter of
    the conversation is their number (for fewer than 2^63 messages, where the 64-bit
    counter has not wrapped). *)
Theorem messages_numbered s cid c :
  msg_reachable s → Store_conversations s !! cid = Some c →
  (Z.of_nat (length (messagesOf s cid)) ≤ int64_max)%Z →
  Conversation_LastSeq c = Z.of_nat (length (messagesOf s cid)) ∧
  ∀ i m, messagesOf s cid !! i = Some m →
    Message_Seq m = (Z.of_nat i + 1)%Z ∧ Message_ConversationID m = cid.
Proof.
  intros [_ Hs]%msg_reachable_inv Hc Hlen.
  destruct (mi_seq s Hs cid (Conversation_LastSeq c)) as [Hn Hnum];
    [unfold last_seq; by rewrite Hc|done|].
  split; [done|]. intros i m Hi. split; [by apply Hnum|].
  apply list_elem_of_lookup_2 in Hi. by apply (mi_rows s Hs).
Qed.

(** ** Exactly once *)

Lemma client_kept_step s s' k m :
  msg_step s s' → conv_inv s → Store_clientMessages s !! k = Some m → Store_clientMessages s' !! k = Some m.
Proof.
  intros Hst Hc Hk. destruct Hst as [op Hop|p newID clock|r clock|s' Hf].
  - pose proof (ce_content _ _ (conv_step_effect s op Hc)) as Hct. unfold content in Hct.
    simplify_eq. congruence.
  - destruct (CreateMessage_cases s p newID clock)
      as [->|(_ & Hnone & x & c & _ & _ & _ & _ & _ & _ & _ & -> & _)]; [done|].
    rewrite lookup_insert_ne; [done|]. intros <-. congruence.
  - unfold UpsertReceipt. cbv zeta. by repeat case_match.
  - by rewrite (mf_client _ _ Hf).
Qed.

Lemma client_kept s s' k m :
  rtc msg_step s s' → conv_inv s → msg_inv s →
  Store_clientMessages s !! k = Some m → Store_clientMessages s' !! k = Some m.
Proof.
  induction 1 as [s|s1 s2 s3 Hst _ IH]; [done|]. intros Hc Hs Hk.
  destruct (msg_inv_step s1 s2 Hst Hc Hs) as [Hc2 Hs2]. apply IH; [done|done|].
  by eapply client_kept_step.
Qed.

Lemma CreateMessage_ok s p newID clock s' m ids :
  CreateMessage s p newID clock = (s', Ok (m, ids)) →
  Store_clientMessages s' !! clientMessageKey (CreateMessageParams_ConversationID p)
    (CreateMessageParams_SenderID p) (CreateMessageParams_ClientMessageID p) = Some m ∧
  message_key m = clientMessageKey (CreateMessageParams_ConversationID p)
    (CreateMessageParams_SenderID p) (CreateMessageParams_ClientMessageID p) ∨
  s' = s ∧ Store_clientMessages s !! clientMessageKey (CreateMessageParams_ConversationID p)
    (CreateMessageParams_SenderID p) (CreateMessageParams_ClientMessageID p) = Some m.
Proof.
  unfold CreateMessage. cbv zeta. destruct (Store_members s !! _) as [members|]; [|done].
  destruct (members !! _); [|done].
  destruct (Store_clientMessages s !! _) as [existing|] eqn:Hk.
  - intros [= <- <- _]. by right.
  - intros Heq. apply pair_equal_spec in Heq as [<- Heq]. apply (inj Ok) in Heq. simplify_eq. left.
    split; [|done]. cbn. apply lookup_insert_eq.
Qed.

Lemma clientMessageKey_inj cid cid' sender sender' client client' :
  clientMessageKey cid sender client = clientMessageKey cid' sender' client' →
  cid = cid' ∧ sender = sender' ∧ client = client'.
Proof. intros [-> [-> ->]%uuidTextKey_inj]%uuidTextKey_inj. done. Qed.

End runs.

(** ** Pages *)
Section pages.
Context `{GoRuntime}.
Implicit Types (s : Store) (cid userID : UUID) (m : Message) (l : list Message) (p : ListMessagesParams).

Definition seq_lt : relation Message := λ x y, (Message_Seq x < Message_Seq y)%Z.

Lemma StronglySorted_lookup_lt l i j x y :
  StronglySorted seq_lt l → l !! i = Some x → l !! j = Some y → i < j → seq_lt x y.
Proof.
  intros Hs. revert i j. induction Hs as [|z l Hs IH Hz]; intros i j Hx Hy Hij; [done|].
  destruct j as [|j]; [lia|]. destruct i as [|i]; simpl in *; [|apply (IH i j); [done|done|lia]].
  simplify_eq. rewrite Forall_forall in Hz. by apply Hz, (list_elem_of_lookup_2 _ j).
Qed.

Lemma StronglySorted_lookup_intro l :
  (∀ i j x y, l !! i = Some x → l !! j = Some y → i < j → seq_lt x y) → StronglySorted seq_lt l.
Proof.
  induction l as [|z l IH]; intros Hl; constructor.
  - apply IH. intros i j x y Hx Hy Hij. apply (Hl (S i) (S j)); [done|done|lia].
  - apply Forall_forall. intros x [j Hj]%list_elem_of_lookup. apply (Hl 0 (S j)); [done|done|lia].
Qed.

Lemma StronglySorted_filter_bool (P : Message → bool) l :
  StronglySorted seq_lt l → StronglySorted seq_lt (List.filter P l).
Proof.
  induction 1 as [|z l Hs IH Hz]; simpl; [constructor|]. destruct (P z); [|done].
  constructor; [done|]. rewrite Forall_forall in *. intros x Hx.
  rewrite list_elem_of_In, filter_In, <- list_elem_of_In in Hx. destruct Hx. by apply Hz.
Qed.

Lemma filter_prefix {A} (P : A → bool) (l : list A) r :
  (∀ k x, l !! k = Some x → P x = true ↔ k < r) → List.filter P l = take r l.
Proof.
  revert r. induction l as [|x l IH]; intros r Hl; [by rewrite take_nil|]. simpl.
  pose proof (Hl 0 x eq_refl) as H0. destruct r as [|r].
  - destruct (P x); [lia|]. rewrite (IH 0); [by rewrite take_0|].
    intros k y Hk. rewrite (Hl (S k) y Hk). lia.
  - destruct (P x); [|by destruct H0 as [_ H0]; discriminate H0; lia]. simpl. f_equal.
    apply IH. intros k y Hk. rewrite (Hl (S k) y Hk). lia.
Qed.

Lemma collectAfter_spec after limit result l :
  (Z.of_nat (length result) < limit)%Z →
  collectAfter after limit result l
  = result ++ take (Z.to_nat limit - length result) (List.filter (λ m, (after <? Message_Seq m)%Z) l).
Proof.
  revert result. induction l as [|m l IH]; intros result Hlen; simpl.
  { by rewrite take_nil, app_nil_r. }
  rewrite Z.leb_antisym. destruct (after <? Message_Seq m)%Z; simpl; [|by apply IH].
  destruct (Z.to_nat limit - length result) as [|k] eqn:Hk; [lia|].
  destruct (Z.eqb_spec (Z.of_nat (length (result ++ [m]))) limit) as [He|He].
  - rewrite length_app in He. simpl in He. assert (k = 0) as -> by lia. done.
  - rewrite IH by (rewrite length_app in *; simpl in *; lia).
    rewrite <- app_assoc. simpl. do 3 f_equal. rewrite length_app. simpl. lia.
Qed.

(** What a page should be: the visible messages inside the window, the first
    [Limit] of them when walking forward and the last [Limit] otherwise. *)
Definition in_window p m : bool :=
  match ListMessagesParams_BeforeSeq p with Some b => (Message_Seq m <? b)%Z | None => true end
  && match ListMessagesParams_AfterSeq p with Some a => (a <? Message_Seq m)%Z | None => true end.

Definition page_spec s p : list Message :=
  let window := List.filter (in_window p) (visibleMessages s (ListMessagesParams_ConversationID p)
                                              (ListMessagesParams_UserID p)) in
  let limit := Z.to_nat (ListMessagesParams_Limit p) in
  match ListMessagesParams_AfterSeq p with
  | Some _ => take limit window
  | None => drop (length window - limit) window
  end.

Lemma visible_sorted s cid userID :
  numbered_from_one (messagesOf s cid) → StronglySorted seq_lt (visibleMessages s cid userID).
Proof.
  intros Hnum. apply StronglySorted_filter_bool, StronglySorted_lookup_intro.
  intros i j x y Hx Hy Hij. unfold seq_lt. rewrite (Hnum i x Hx), (Hnum j y Hy). lia.
Qed.

Lemma seqAt_some l k m : l !! k = Some m → seqAt l k = Message_Seq m.
Proof. unfold seqAt. by intros ->. Qed.

Lemma search_before l b :
  StronglySorted seq_lt l →
  let r := sort_Search (length l) (λ index, (b <=? seqAt l index)%Z) in
  r ≤ length l ∧ take r l = List.filter (λ m, (Message_Seq m <? b)%Z) l.
Proof.
  intros Hs r. destruct (sort_Search_spec (length l) (λ index, (b <=? seqAt l index)%Z)) as [Hr Hk].
  { intros i j [Hij Hj] Hi. destruct (decide (i = j)) as [->|Hne]; [done|].
    destruct (lookup_lt_is_Some_2 l i) as [x Hx]; [lia|].
    destruct (lookup_lt_is_Some_2 l j) as [y Hy]; [lia|].
    rewrite (seqAt_some _ _ _ Hx) in Hi. rewrite (seqAt_some _ _ _ Hy).
    pose proof (StronglySorted_lookup_lt l i j x y Hs Hx Hy) as Hlt. unfold seq_lt in Hlt.
    apply Z.leb_le in Hi. apply Z.leb_le. lia. }
  split; [done|]. symmetry. apply filter_prefix. intros k x Hx.
  pose proof (Hk k (lookup_lt_Some _ _ _ Hx)) as Hk'. cbv beta in Hk'.
  rewrite (seqAt_some _ _ _ Hx) in Hk'. fold r in Hk'.
  rewrite Z.ltb_antisym. destruct (b <=? Message_Seq x)%Z; simpl; [|].
  - split; [done|]. destruct Hk' as [Hk' _]. specialize (Hk' eq_refl). lia.
  - split; [|done]. intros _. destruct (decide (k < r)); [done|].
    destruct Hk' as [_ Hk']. discriminate Hk'. lia.
Qed.

Lemma slice_end (l : list Message) end_ limit :
  end_ ≤ length l → (0 ≤ limit)%Z →
  let start := Z.to_nat (Z.max 0 (Z.of_nat end_ - limit)) in
  take (end_ - start) (drop start l)
  = drop (length (take end_ l) - Z.to_nat limit) (take end_ l).
Proof.
  intros Hend Hlim start. rewrite take_drop_commute. rewrite length_take, (Nat.min_l end_) by done.
  f_equal; [lia|]. f_equal. lia.
Qed.

Lemma ListMessages_spec s p :
  numbered_from_one (messagesOf s (ListMessagesParams_ConversationID p)) →
  ListMessagesParams_Validate p = None →
  is_member s (ListMessagesParams_ConversationID p) (ListMessagesParams_UserID p) = true →
  ListMessages s p = Ok (page_spec s p).
Proof.
  intros Hnum Hv Hmem. unfold ListMessages, page_spec. rewrite Hv, Hmem. cbn [negb]. cbv zeta.
  set (l := visibleMessages s _ _).
  assert (StronglySorted seq_lt l) as Hs by (by apply visible_sorted).
  unfold ListMessagesParams_Validate in Hv. destruct (_ || _) eqn:Hbad; [done|]. clear Hv. bool_prop.
  unfold in_window. destruct (ListMessagesParams_AfterSeq p) as [a|].
  - destruct (ListMessagesParams_BeforeSeq p) as [b|].
    { by rewrite !bool_decide_true in * by (by eexists). }
    rewrite collectAfter_spec by (simpl; lia). simpl. by rewrite Nat.sub_0_r.
  - f_equal. destruct (ListMessagesParams_BeforeSeq p) as [b|].
    + destruct (search_before l b Hs) as [Hle Htake].
      rewrite slice_end by (done || lia). rewrite Htake.
      assert (List.filter (λ m, (Message_Seq m <? b)%Z && true) l
              = List.filter (λ m, (Message_Seq m <? b)%Z) l) as ->; [|done].
      apply List.filter_ext. intros m. apply andb_true_r.
    + rewrite slice_end by (done || lia). rewrite take_ge by done.
      assert (List.filter (λ _ : Message, true && true) l = l) as ->; [|done].
      clear. induction l as [|m l IH]; simpl; [done|]. by f_equal.
Qed.

Lemma member_numbered s cid userID :
  msg_reachable s → is_member s cid userID = true →
  (Z.of_nat (length (messagesOf s cid)) ≤ int64_max)%Z → numbered_from_one (messagesOf s cid).
Proof.
  intros [Hc Hs]%msg_reachable_inv Hmem Hlen.
  apply is_member_spec in Hmem as [row Hrow]. unfold membersOf, inner in Hrow.
  destruct (Store_members s !! cid) as [members|] eqn:Hms; [|by simpl in Hrow; rewrite lookup_empty in Hrow].
  destruct (proj2 (ci_dom s Hc cid)) as [c Hcs]; [by eexists|].
  by apply (mi_seq s Hs cid (Conversation_LastSeq c)); [unfold last_seq; by rewrite Hcs|].
Qed.

Lemma page_spec_elem s p m :
  m ∈ page_spec s p →
  m ∈ visibleMessages s (ListMessagesParams_ConversationID p) (ListMessagesParams_UserID p).
Proof.
  unfold page_spec. cbv zeta. set (w := List.filter _ _). intros Hm.
  assert (m ∈ w) as Hw.
  { destruct (ListMessagesParams_AfterSeq p).
    - apply elem_of_take in Hm as (i & Hi & _). by eapply list_elem_of_lookup_2.
    - rewrite <- (take_drop (length w - Z.to_nat (ListMessagesParams_Limit p)) w).
      apply elem_of_app. by right. }
  unfold w in Hw. rewrite list_elem_of_In, filter_In, <- list_elem_of_In in Hw. by destruct Hw.
Qed.

(** A page of messages is exactly what the parameters ask for: in every
    reachable state (with fewer than 2^63 messages) a valid request of a member
    returns the messages of the window that the block list lets them see, the first
    [Limit] of them with [AfterSeq] and the last [Limit] otherwise; in particular the
    binary search for [BeforeSeq] finds the right boundary. *)
Theorem message_pages_exact s p :
  msg_reachable s →
  is_member s (ListMessagesParams_ConversationID p) (ListMessagesParams_UserID p) = true →
  (Z.of_nat (length (messagesOf s (ListMessagesParams_ConversationID p))) ≤ int64_max)%Z →
  ListMessagesParams_Validate p = None →
  ListMessages s p = Ok (page_spec s p) ∧
  (Z.of_nat (length (page_spec s p)) ≤ ListMessagesParams_Limit p)%Z ∧
  ∀ m, m ∈ page_spec s p →
    Blocked (Store_compliance s) (ListMessagesParams_UserID p) (Message_SenderID m) = false.
Proof.
  intros Hr Hmem Hlen Hv. assert (numbered_from_one (messagesOf s (ListMessagesParams_ConversationID p)))
    as Hnum by (by eapply member_numbered).
  split; [by apply ListMessages_spec|]. split.
  - unfold ListMessagesParams_Validate in Hv. destruct (_ || _) eqn:Hbad; [done|]. bool_prop.
    unfold page_spec. cbv zeta. destruct (ListMessagesParams_AfterSeq p);
      rewrite ?length_take, ?length_drop; lia.
  - intros m Hm. apply page_spec_elem in Hm. unfold visibleMessages in Hm.
    rewrite list_elem_of_In, filter_In in Hm. destruct Hm as [_ Hm]. by bool_prop.
Qed.

(** ** Walking forward *)

(** The client loop: ask for the messages after the last one seen, until a page is
    empty. *)
Fixpoint walk (fuel : nat) s cid userID (limit after : Z) : list Message :=
  match fuel with
  | O => []
  | S fuel =>
    match ListMessages s (mkListMessagesParams cid userID None (Some after) limit) with
    | Ok page =>
      match last page with
      | Some m => page ++ walk fuel s cid userID limit (Message_Seq m)
      | None => []
      end
    | Err _ => []
    end
  end.

Lemma filter_after_last l after page rest m :
  StronglySorted seq_lt l →
  List.filter (λ x, (after <? Message_Seq x)%Z) l = page ++ rest → last page = Some m →
  List.filter (λ x, (Message_Seq m <? Message_Seq x)%Z) l = rest ∧ (after < Message_Seq m)%Z.
Proof.
  intros Hs Hw Hlast. apply last_Some in Hlast as [page' ->].
  assert (m ∈ List.filter (λ x, (after <? Message_Seq x)%Z) l) as Hm by (rewrite Hw; set_solver).
  rewrite list_elem_of_In, filter_In in Hm. destruct Hm as [_ Hm]. bool_prop. split; [|done].
  assert (List.filter (λ x, (Message_Seq m <? Message_Seq x)%Z) l
    = List.filter (λ x, (Message_Seq m <? Message_Seq x)%Z)
        (List.filter (λ x, (after <? Message_Seq x)%Z) l)) as ->.
  { clear Hw Hs. induction l as [|x l IH]; simpl; [done|].
    destruct (Z.ltb_spec after (Message_Seq x)); simpl; rewrite IH; [done|].
    by destruct (Z.ltb_spec (Message_Seq m) (Message_Seq x)); [lia|]. }
  apply (StronglySorted_filter_bool (λ x, (after <? Message_Seq x)%Z)) in Hs. rewrite Hw in *.
  rewrite <- app_assoc in *. apply StronglySorted_app in Hs as (Hpre & Hs1 & Hs2).
  simpl in Hs2. apply StronglySorted_inv in Hs2 as [_ Hs2].
  rewrite List.filter_app. simpl. rewrite Z.ltb_irrefl.
  rewrite (filter_prefix _ page' 0), (filter_prefix _ rest (length rest)).
  - by rewrite take_0, take_ge.
  - intros k x Hx. pose proof (lookup_lt_Some _ _ _ Hx). split; [done|]. intros _.
    rewrite Forall_forall in Hs2. apply Z.ltb_lt, Hs2. by eapply list_elem_of_lookup_2.
  - intros k x Hx. split; [|lia]. intros Hlt%Z.ltb_lt. apply list_elem_of_lookup_2 in Hx.
    specialize (Hpre x m Hx ltac:(set_solver)). unfold seq_lt in Hpre. lia.
Qed.

Lemma walk_spec fuel s cid userID limit after :
  numbered_from_one (messagesOf s cid) → is_member s cid userID = true →
  cid ≠ uuid_Nil → userID ≠ uuid_Nil → (1 ≤ limit ≤ MaxMessagePageSize)%Z → (0 ≤ after)%Z →
  let w := List.filter (λ x, (after <? Message_Seq x)%Z) (visibleMessages s cid userID) in
  length w < fuel → walk fuel s cid userID limit after = w.
Proof.
  intros Hnum Hmem Hcid Hu Hlim. revert after. induction fuel as [|fuel IH]; intros after Hafter w Hlen; [lia|].
  cbn [walk]. rewrite ListMessages_spec; [|done| |done].
  2: { unfold ListMessagesParams_Validate. cbn. rewrite !bool_decide_false by done.
       rewrite !(proj2 (Z.ltb_ge _ _)) by lia. done. }
  unfold page_spec. cbn -[take]. unfold in_window. cbn -[take].
  fold w. destruct (last (take (Z.to_nat limit) w)) as [m|] eqn:Hlast.
  - destruct (filter_after_last (visibleMessages s cid userID) after (take (Z.to_nat limit) w)
      (drop (Z.to_nat limit) w) m) as [Hrest Hm]; [by apply visible_sorted|by rewrite take_drop|done|].
    rewrite IH.
    + rewrite Hrest. apply take_drop.
    + lia.
    + rewrite Hrest, length_drop. destruct w; [by rewrite take_nil in Hlast|]. simpl in *. lia.
  - apply last_None in Hlast. apply (f_equal length) in Hlast. rewrite length_take in Hlast.
    simpl in Hlast. symmetry. apply nil_length_inv. lia.
Qed.

(** C40. Following the pages loses nothing and repeats nothing: a member who starts
    at 0 and keeps asking for what comes after the last message received obtains
    exactly the messages visible to them, once each and in order, whatever the page
    size. *)
Theorem forward_walk_complete s cid userID limit :
  msg_reachable s → is_member s cid userID = true →
  (Z.of_nat (length (messagesOf s cid)) ≤ int64_max)%Z →
  cid ≠ uuid_Nil → userID ≠ uuid_Nil → (1 ≤ limit ≤ MaxMessagePageSize)%Z →
  walk (S (length (messagesOf s cid))) s cid userID limit 0 = visibleMessages s cid userID.
Proof.
  intros Hr Hmem Hlen Hcid Hu Hlim.
  assert (numbered_from_one (messagesOf s cid)) as Hnum by (by eapply member_numbered).
  assert (List.filter (λ x, (0 <? Message_Seq x)%Z) (visibleMessages s cid userID)
    = visibleMessages s cid userID) as Hall.
  { rewrite (filter_prefix _ _ (length (visibleMessages s cid userID))); [by rewrite take_ge|].
    intros k x Hx. pose proof (lookup_lt_Some _ _ _ Hx). split; [done|]. intros _.
    apply list_elem_of_lookup_2 in Hx. unfold visibleMessages in Hx.
    rewrite list_elem_of_In, filter_In, <- list_elem_of_In in Hx. destruct Hx as [Hx _].
    apply list_elem_of_lookup in Hx as [i Hx]. rewrite (Hnum i x Hx). apply Z.ltb_lt. lia. }
  rewrite walk_spec; [done..|]. rewrite Hall. unfold visibleMessages.
  pose proof (List.filter_length_le (λ m, negb (Blocked (Store_compliance s) userID (Message_SenderID m)))
    (messagesOf s cid)). lia.
Qed.
End pages.

(** ** Receipts *)
Section receipts.
Context `{GoRuntime}.
Implicit Types (s : Store) (cid userID : UUID) (r : Receipt).

Definition receipt_key r : string := uuidPairKey (Receipt_ConversationID r) (Receipt_UserID r).

(** [r'] is at least as far as [r]. *)
Definition receipt_le r r' : Prop :=
  (Receipt_DeliveredSeq r ≤ Receipt_DeliveredSeq r')%Z ∧ (Receipt_ReadSeq r ≤ Receipt_ReadSeq r')%Z.

Lemma receipt_step s s' k r :
  msg_step s s' → conv_inv s → Store_receipts s !! k = Some r →
  ∃ r', Store_receipts s' !! k = Some r' ∧ receipt_le r r'.
Proof.
  intros Hst Hc Hk. assert (receipt_le r r) as Hrefl by (split; lia).
  destruct Hst as [op Hop|p newID clock|x clock|s' Hf].
  - pose proof (ce_content _ _ (conv_step_effect s op Hc)) as Hct. unfold content in Hct.
    simplify_eq. exists r. split; [congruence|done].
  - exists r. split; [|done]. destruct (CreateMessage_cases s p newID clock)
      as [->|(_ & _ & m & c & _ & _ & _ & _ & _ & _ & _ & _ & _ & ->)]; done.
  - unfold UpsertReceipt. cbv zeta. destruct (negb _); [by exists r|].
    destruct (_ || _) eqn:Hle; [by exists r|]. cbn. bool_prop.
    destruct (decide (uuidPairKey (Receipt_ConversationID x) (Receipt_UserID x) = k)) as [<-|Hne].
    + rewrite lookup_insert_eq. rewrite Hk in *. eexists. split; [done|]. by split.
    + rewrite lookup_insert_ne by done. by exists r.
  - exists r. by rewrite (mf_receipts _ _ Hf).
Qed.

Lemma receipt_prefix cid r :
  HasPrefix (receipt_key r) (uuid_String cid +:+ ":") = true ↔ Receipt_ConversationID r = cid.
Proof.
  unfold receipt_key, uuidPairKey. split.
  - intros [t Ht]%HasPrefix_spec. rewrite string_app_assoc in Ht. by apply uuid_text_inj_prefix in Ht as [-> _].
  - intros <-. rewrite <- string_app_assoc. apply HasPrefix_app.
Qed.

(** Read and delivery marks only move forward.  From any reachable state,
    along any run, the stored receipt of a member keeps existing and neither of its
    two sequence numbers ever decreases; and a member who lists the receipts of a
    conversation gets exactly its stored receipts. *)
Theorem receipts_monotone s s' k r cid actorID :
  msg_reachable s → rtc msg_step s s' → Store_receipts s !! k = Some r →
  (∃ r', Store_receipts s' !! k = Some r' ∧ receipt_le r r' ∧ receipt_key r' = k) ∧
  (is_member s' cid actorID = true → ∃ rs, ListReceipts s' cid actorID = Ok rs ∧
     ∀ x, x ∈ rs ↔ Store_receipts s' !! receipt_key x = Some x ∧ Receipt_ConversationID x = cid).
Proof.
  intros [Hc Hs]%msg_reachable_inv Hrun Hk.
  pose proof (msg_inv_steps _ _ Hrun Hc Hs) as [_ Hs']. split.
  - assert (∃ r', Store_receipts s' !! k = Some r' ∧ receipt_le r r') as (r' & Hr' & Hle).
    { clear Hs'. revert r Hk. induction Hrun as [s|s1 s2 s3 Hst _ IH]; intros r Hk.
      - exists r. split; [done|]. split; lia.
      - destruct (receipt_step _ _ _ _ Hst Hc Hk) as (r2 & Hr2 & Hle).
        destruct (msg_inv_step _ _ Hst Hc Hs) as [Hc2 Hs2].
        destruct (IH Hc2 Hs2 r2 Hr2) as (r3 & Hr3 & Hle3). exists r3. split; [done|].
        unfold receipt_le in *. lia. }
    exists r'. split_and!; [done|done|]. symmetry. by apply (mi_receipts s' Hs').
  - intros Hmem. unfold ListReceipts. rewrite Hmem. simpl. eexists. split; [done|].
    intros x. rewrite merge_sort_Permutation, list_elem_of_fmap. split.
    + intros ([k' y] & -> & Hin). rewrite list_elem_of_In, filter_In, <- list_elem_of_In, elem_of_range in Hin.
      destruct Hin as [Hy Hp]. simpl in *. pose proof (mi_receipts s' Hs' _ _ Hy) as ->.
      split; [done|]. by apply receipt_prefix.
    + intros [Hx Hcid]. exists (receipt_key x, x). split; [done|].
      rewrite list_elem_of_In, filter_In, <- list_elem_of_In, elem_of_range. split; [done|].
      by apply receipt_prefix.
Qed.
End receipts.

(** ** A concrete run, and what survives a deleted conversation *)
Section witnesses.
#[local] Existing Instance Reference.runtime.

Definition hello (text : string) : CreateMessageParams :=
  mkCreateMessageParams uuid_Nil "client-1" group_id ada (uuid_of_N 5) "text" text RawNil None.
Definition hello2 : CreateMessageParams :=
  mkCreateMessageParams uuid_Nil "client-2" group_id bob (uuid_of_N 6) "text" "two" RawNil None.
Definition opened : Store := conv_step empty_store op_open.
Definition sent1 : Store := (CreateMessage opened (hello "one") (uuid_of_N 21) group_clock).1.
Definition sent2 : Store := (CreateMessage sent1 hello2 (uuid_of_N 22) group_clock).1.
Definition mark : Receipt := mkReceipt group_id bob 2 1 0.
Definition marked : Store := (UpsertReceipt sent2 mark group_clock).1.

Lemma opened_reachable : msg_reachable opened.
Proof.
  exists empty_store. split; [by repeat split|].
  apply rtc_once, step_conv, op_open_ok.
Qed.

Lemma sent2_reachable : msg_reachable sent2.
Proof.
  destruct opened_reachable as (s0 & Hs0 & Hrun). exists s0. split; [exact Hs0|].
  eapply rtc_r; [|apply step_message]. eapply rtc_r; [exact Hrun|apply step_message].
Qed.

Definition shown (l : list Message) : list (Z * string) :=
  (λ m, (Message_Seq m, Message_Ciphertext m)) <$> l.

Lemma messages_numbered_witness :
  ∃ c, Store_conversations sent2 !! group_id = Some c ∧ Conversation_LastSeq c = 2%Z.
Proof.
  assert (bool_decide (is_Some (Store_conversations sent2 !! group_id)) = true) as Hc
    by (vm_compute; reflexivity).
  apply bool_decide_eq_true in Hc. destruct Hc as [c Hc]. exists c. split; [exact Hc|].
  assert (length (messagesOf sent2 group_id) = 2) as Hlen by (vm_compute; reflexivity).
  destruct (messages_numbered sent2 group_id c sent2_reachable Hc) as [Hn _].
  - rewrite Hlen. vm_compute. discriminate.
  - rewrite Hn, Hlen. reflexivity.
Defined.


Lemma message_pages_exact_witness :
  ∃ page, ListMessages sent2 (mkListMessagesParams group_id ada (Some 2%Z) None 10) = Ok page ∧
    shown page = [(1%Z, "one")].
Proof.
  destruct (message_pages_exact sent2 (mkListMessagesParams group_id ada (Some 2%Z) None 10)
    sent2_reachable) as [Hpage _];
    [vm_compute; reflexivity|vm_compute; discriminate|vm_compute; reflexivity|].
  eexists. split; [exact Hpage|]. vm_compute. reflexivity.
Defined.

Lemma forward_walk_complete_witness :
  shown (walk (S (length (messagesOf sent2 group_id))) sent2 group_id ada 1 0)
  = [(1%Z, "one"); (2%Z, "two")].
Proof.
  rewrite (forward_walk_complete sent2 group_id ada 1 sent2_reachable);
    [vm_compute; reflexivity|vm_compute; reflexivity|vm_compute; discriminate|discriminate|discriminate|].
  unfold MaxMessagePageSize. lia.
Defined.

Lemma marked_reachable : msg_reachable marked.
Proof.
  destruct sent2_reachable as (s0 & Hs0 & Hrun). exists s0. split; [exact Hs0|].
  eapply rtc_r; [exact Hrun|apply step_receipt].
Qed.

Lemma receipts_monotone_witness :
  ∃ rs, ListReceipts marked group_id ada = Ok rs ∧
    ((λ r, (Receipt_DeliveredSeq r, Receipt_ReadSeq r)) <$> rs) = [(2%Z, 1%Z)].
Proof.
  assert (bool_decide (is_Some (Store_receipts marked !! receipt_key mark)) = true) as Hk
    by (vm_compute; reflexivity).
  apply bool_decide_eq_true in Hk. destruct Hk as [r Hk].
  destruct (receipts_monotone marked marked (receipt_key mark) r group_id ada marked_reachable
    (rtc_refl _ _) Hk) as [_ Hlist].
  destruct Hlist as (rs & Hrs & _); [vm_compute; reflexivity|].
  exists rs. split; [exact Hrs|].
  assert (match ListReceipts marked group_id ada with
          | Ok l => (λ r, (Receipt_DeliveredSeq r, Receipt_ReadSeq r)) <$> l | Err _ => [] end
          = [(2%Z, 1%Z)]) as Hv by (vm_compute; reflexivity).
  rewrite Hrs in Hv. exact Hv.
Defined.

Definition reopened : Store :=
  conv_step (conv_step sent1 (OpDeleteConversation group_id ada group_clock)) op_open.

(** Deleting a conversation keeps its entries in [clientMessages].  When the
    same conversation id is created again, a message whose client id was used before the
    deletion is answered with the message of the deleted conversation and is not
    stored. *)
Theorem recreated_conversation_swallows_message :
  let r := CreateMessage reopened (hello "after") (uuid_of_N 24) group_clock in
  match r.2 with Ok (m, _) => Message_Ciphertext m | Err _ => "" end = "one" ∧
  length (messagesOf reopened group_id) = 0 ∧ length (messagesOf r.1 group_id) = 0.
Proof. split_and!; vm_compute; reflexivity. Qed.
End witnesses.
