(* ===== verification/Participants.v ===== *)
(** * Participants of shared entities

    [src/internal/store/entity_participants.go].  Expenses, tasks, chores and
    settlements name people.  A write is refused unless every reference in a
    participant field is a current member, by account id or by the local id of an
    active member.

    Every failure is the same [ErrInvalid], so fallible helpers return [option]. *)

From Stdlib Require Import ZArith Lia Ascii.
From S2P Require Import Prelude.
From S2P Require Import Runtime.
From S2P Require Import Domain.
From S2P Require Import Compliance.
From S2P Require Import StoreState.
From S2P Require Import Projection.

Definition participantEntityKinds : list string :=
  ["expense"; "recurring_expense"; "task"; "chore"; "settlement"].
Definition participantFields : list string :=
  ["paidby"; "defaultpaidby"; "splitbetween"; "customamounts"; "assignedto"; "createdby";
   "rotateorder"; "from"; "to"; "payer"; "payerid"; "assignee"; "assigneeid"; "participants";
   "participantids"; "backenduserid"].
Definition scalarParticipantFields : list string :=
  ["paidby"; "defaultpaidby"; "assignedto"; "createdby"; "from"; "to"; "payerid"; "assigneeid";
   "backenduserid"].
Definition arrayParticipantFields : list string := ["splitbetween"; "rotateorder"; "participantids"].
Definition allowedDescriptor : list string :=
  ["displayname"; "name"; "username"; "avatarcolor"; "profileimageurl"; "email"; "phone"].
Definition identityFields : list string := ["id"; "backenduserid"; "userid"; "memberid"].

Section participants.
Context `{GoRuntime}.

Definition strictParticipantUUID (value : string) : option UUID :=
  let trimmed := TrimSpace value in
  match uuid_Parse trimmed with
  | None => None
  | Some id =>
    if bool_decide (id = uuid_Nil) || negb (bool_decide (trimmed = value))
       || negb (EqualFold (uuid_String id) trimmed)
    then None else Some id
  end.

Definition participantScalar (value : JSON) : option UUID :=
  match value with JStr text => strictParticipantUUID text | _ => None end.

(** [seen], [found] and [result] of the loop over one identity object. *)
Definition identityEntry (acc : option (gset string * option UUID)) (kv : string * JSON) :
    option (gset string * option UUID) :=
  '(seen, found) ← acc;
  let normalized := normalizeJSONKey kv.1 in
  if bool_decide (normalized ∈ seen) then None
  else
    let seen := {[ normalized ]} ∪ seen in
    if bool_decide (normalized ∈ identityFields) then
      match found with
      | Some _ => None
      | None => id ← participantScalar kv.2; Some (seen, Some id)
      end
    else if negb (bool_decide (normalized ∈ allowedDescriptor)) then None
    else match kv.2 with JNull | JStr _ => Some (seen, found) | _ => None end.

(** [map[string]any]: a repeated key keeps its last value. *)
Definition any_map (members : list (string * JSON)) : gmap string JSON := list_to_map (reverse members).

Definition participantIdentityObject (value : JSON) : option UUID :=
  match value with
  | JObj members =>
    let object := any_map members in
    if bool_decide (size object = 0) then None
    else match foldl identityEntry (Some (∅, None)) (range object) with
         | Some (_, found) => found
         | None => None
         end
  | _ => None
  end.

(** [appendAmount]: [seen] and [result]. *)
Definition appendAmount (acc : option (gset UUID * list UUID)) (kv : string * JSON) :
    option (gset UUID * list UUID) :=
  '(seen, result) ← acc;
  match strictParticipantUUID kv.1, kv.2 with
  | Some id, JNum m e =>
    if float64_negative m e then None
    else if bool_decide (id ∈ seen) then None
    else Some ({[ id ]} ∪ seen, result ++ [id])
  | _, _ => None
  end.

(** Alternating keys and values. *)
Fixpoint amountPairs (items : list JSON) : option (list (string * JSON)) :=
  match items with
  | [] => Some []
  | JStr key :: amount :: items => rest ← amountPairs items; Some ((key, amount) :: rest)
  | _ => None
  end.

Definition customAmountIDs (value : JSON) : option (list UUID) :=
  entries ← match value with
            | JObj members => Some (range (any_map members))
            | JArr items => amountPairs items
            | _ => None
            end;
  match foldl appendAmount (Some (∅, [])) entries with
  | Some (_, []) | None => None
  | Some (_, result) => Some result
  end.

Definition is_object (v : JSON) : bool := match v with JObj _ => true | _ => false end.
Definition is_string (v : JSON) : bool := match v with JStr _ => true | _ => false end.

Definition participantIDsForField (field : string) (value : JSON) : option (list UUID) :=
  if bool_decide (field = "customamounts") then customAmountIDs value
  else if bool_decide (field ∈ scalarParticipantFields) then
    match value with JNull => Some [] | _ => id ← participantScalar value; Some [id] end
  else if bool_decide (field ∈ arrayParticipantFields) then
    match value with JArr items => mapM participantScalar items | _ => None end
  else if bool_decide (field = "payer") || bool_decide (field = "assignee") then
    match value with JNull => Some [] | _ => id ← participantIdentityObject value; Some [id] end
  else if bool_decide (field = "participants") then
    match value with
    | JArr items =>
      match items with
      | [] => Some []
      | first :: _ =>
        if negb (is_object first) && negb (is_string first) then None
        else mapM (if is_object first then participantIdentityObject else participantScalar) items
      end
    | _ => None
    end
  else None.

(** The local ids the metadata gives to members, for callers without a mapping. *)
Definition metadataAllowed (active : gset UUID) (metadata : RawMessage) : gset UUID :=
  match raw_object metadata with
  | None => active
  | Some root =>
    match json_array (root !! "members") with
    | None => active
    | Some projected =>
      match mapM json_object projected with
      | None => active
      | Some objects =>
        foldl (λ allowed object,
          match memberBackendUserID object with
          | FieldID backendID =>
            if bool_decide (backendID ∈ allowed) then
              match proposedLocalID object with
              | Some id => {[ id ]} ∪ allowed
              | None => allowed
              end
            else allowed
          | _ => allowed
          end) active objects
      end
    end
  end.

Definition allowMapping (allowed : gset UUID) (mapping : ConversationMemberLocalID) : gset UUID :=
  if bool_decide (ConversationMemberLocalID_UserID mapping ∈ allowed)
     && negb (bool_decide (ConversationMemberLocalID_LocalID mapping = uuid_Nil))
  then {[ ConversationMemberLocalID_LocalID mapping ]} ∪ allowed else allowed.

Definition allowedParticipants (metadata : RawMessage) (members : list ConversationMember)
    (localIDs : list ConversationMemberLocalID) : gset UUID :=
  let active : gset UUID := list_to_set (ConversationMember_UserID <$> members) in
  match localIDs with
  | [] => metadataAllowed active metadata
  | _ => foldl allowMapping active localIDs
  end.

(** One key of the payload; [None] is the error. *)
Definition checkField (allowed : gset UUID) (acc : option (gset string)) (kv : string * JSON) :
    option (gset string) :=
  seenFields ← acc;
  let normalized := normalizeJSONKey kv.1 in
  if negb (bool_decide (normalized ∈ participantFields)) then Some seenFields
  else if bool_decide (normalized ∈ seenFields) then None
  else
    ids ← participantIDsForField normalized kv.2;
    if forallb (λ id, bool_decide (id ∈ allowed)) ids
    then Some ({[ normalized ]} ∪ seenFields) else None.

Definition ValidateEntityParticipants (kind : string) (payload metadata : RawMessage)
    (members : list ConversationMember) (localIDs : list ConversationMemberLocalID) : option Error :=
  if negb (bool_decide (kind ∈ participantEntityKinds)) then None
  else
    match raw_object payload with
    | None => Some ErrInvalid
    | Some object =>
      match foldl (checkField (allowedParticipants metadata members localIDs)) (Some ∅) (range object) with
      | Some _ => None
      | None => Some ErrInvalid
      end
    end.

(** ** What acceptance means *)

Lemma checkField_none allowed l : foldl (checkField allowed) None l = None.
Proof. by induction l. Qed.

(** The normalized participant fields of a list of entries. *)
Definition fields_of (l : list (string * JSON)) : list string :=
  List.filter (λ f, bool_decide (f ∈ participantFields)) ((λ kv, normalizeJSONKey kv.1) <$> l).

#[local] Instance fields_of_perm : Proper ((≡ₚ) ==> (≡ₚ)) fields_of.
Proof.
  intros l l' Hl. unfold fields_of. induction Hl; cbn; repeat case_match; try done.
  - by constructor.
  - constructor.
  - by etrans.
Qed.

(** A field whose references are all allowed. *)
Definition field_ok (allowed : gset UUID) (kv : string * JSON) : Prop :=
  normalizeJSONKey kv.1 ∈ participantFields →
  ∃ ids, participantIDsForField (normalizeJSONKey kv.1) kv.2 = Some ids ∧ ∀ id, id ∈ ids → id ∈ allowed.

Lemma checkField_spec allowed l seen :
  is_Some (foldl (checkField allowed) (Some seen) l) ↔
  Forall (field_ok allowed) l ∧ NoDup (fields_of l) ∧ (∀ f, f ∈ fields_of l → f ∉ seen).
Proof.
  revert seen. induction l as [|kv l IH]; intros seen.
  { split; [|by eexists]. intros _. split_and!; [constructor|constructor|].
    by intros f ?%not_elem_of_nil. }
  cbn [foldl]. unfold fields_of. rewrite fmap_cons, Forall_cons. cbn [List.filter].
  fold (fields_of l). set (f := normalizeJSONKey kv.1).
  unfold checkField at 2. cbn [mbind option_bind]. fold f. unfold field_ok at 1. fold f.
  case_bool_decide as Hpf; cbn [negb].
  2: { rewrite IH. naive_solver. }
  rewrite NoDup_cons. case_bool_decide as Hseen.
  { rewrite checkField_none. split; [by intros []|]. intros (_ & _ & Hf). destruct (Hf f); [left|done]. }
  destruct (participantIDsForField f kv.2) as [ids|]; cbn [mbind option_bind].
  2: { rewrite checkField_none. split; [by intros []|]. intros [[Hf _] _]. by destruct (Hf Hpf) as (? & ? & _). }
  destruct (forallb _ ids) eqn:Hall.
  - apply Is_true_true, forallb_True in Hall. rewrite Forall_forall in Hall.
    assert (∀ id, id ∈ ids → id ∈ allowed) as Hids.
    { intros id Hid. by apply Hall, bool_decide_unpack in Hid. }
    rewrite IH. split.
    + intros (Hl & Hnd & Hnew). split_and!; [eauto|done| |done|].
      * intros Hin. apply (Hnew f Hin). set_solver.
      * intros g [->|Hg]%elem_of_cons; [done|]. specialize (Hnew g Hg). set_solver.
    + intros ([_ Hl] & [Hnin Hnd] & Hnew). split_and!; [done|done|]. intros g Hg.
      assert (g ≠ f) by (by intros ->). specialize (Hnew g). set_solver.
  - rewrite checkField_none. split; [by intros []|]. intros [[Hf _] _].
    destruct (Hf Hpf) as (ids' & [= <-] & Hids). exfalso.
    assert (forallb (λ id, bool_decide (id ∈ allowed)) ids = true) as Ht; [|congruence].
    apply Is_true_true, forallb_True, Forall_forall. intros id Hid. by apply bool_decide_pack, Hids.
Qed.

(** The local ids of current members, and the members themselves. *)
Lemma allowedParticipants_sound metadata members localIDs id :
  localIDs ≠ [] →
  (∀ mp, mp ∈ localIDs → ConversationMemberLocalID_UserID mp ∈ (ConversationMember_UserID <$> members)) →
  id ∈ allowedParticipants metadata members localIDs ↔
  id ∈ (ConversationMember_UserID <$> members) ∨
  id ≠ uuid_Nil ∧ id ∈ (ConversationMemberLocalID_LocalID <$> localIDs).
Proof.
  intros Hne Hact. unfold allowedParticipants.
  destruct localIDs as [|mp0 rest]; [done|]. remember (mp0 :: rest) as localIDs eqn:Heq. clear Heq Hne mp0 rest.
  set (users := ConversationMember_UserID <$> members) in *.
  assert (∀ allowed : gset UUID, (∀ u, u ∈ users → u ∈ allowed) →
    id ∈ foldl allowMapping allowed localIDs ↔
    id ∈ allowed ∨ id ≠ uuid_Nil ∧ id ∈ (ConversationMemberLocalID_LocalID <$> localIDs)) as Hgo.
  { induction localIDs as [|mp l IH]; intros allowed Husers; simpl; [set_solver|].
    rewrite IH.
    - unfold allowMapping. rewrite bool_decide_true by (apply Husers, Hact; left). simpl.
      case_bool_decide; simpl; set_solver.
    - intros mp' Hmp'. apply Hact. by right.
    - intros u Hu. unfold allowMapping. case_match; set_solver. }
  rewrite Hgo by (intros u Hu; by apply elem_of_list_to_set). by rewrite elem_of_list_to_set.
Qed.

(** A write to a participant entity is accepted if and only if its
    payload is an object in which no participant field occurs twice (under any
    spelling) and every participant field is well formed and refers only to current
    members, by account id or by an assigned local id.  The result does not depend on
    the order in which the payload's keys are visited. *)
Theorem participants_validated kind payload metadata members localIDs :
  kind ∈ participantEntityKinds → localIDs ≠ [] →
  (∀ mp, mp ∈ localIDs → ConversationMemberLocalID_UserID mp ∈ (ConversationMember_UserID <$> members)) →
  ValidateEntityParticipants kind payload metadata members localIDs = None ↔
  ∃ object, raw_object payload = Some object ∧ NoDup (fields_of (map_to_list object)) ∧
    ∀ key value, object !! key = Some value → normalizeJSONKey key ∈ participantFields →
      ∃ ids, participantIDsForField (normalizeJSONKey key) value = Some ids ∧
        ∀ id, id ∈ ids → id ∈ (ConversationMember_UserID <$> members) ∨
          id ≠ uuid_Nil ∧ id ∈ (ConversationMemberLocalID_LocalID <$> localIDs).
Proof.
  intros Hkind Hne Hact. unfold ValidateEntityParticipants. rewrite bool_decide_true by done. simpl.
  destruct (raw_object payload) as [object|]; [|naive_solver].
  set (allowed := allowedParticipants metadata members localIDs).
  assert (is_Some (foldl (checkField allowed) (Some ∅) (range object)) ↔
    NoDup (fields_of (map_to_list object)) ∧ Forall (field_ok allowed) (map_to_list object)) as Hspec.
  { rewrite checkField_spec, <- (range_perm object). set_solver. }
  transitivity (is_Some (foldl (checkField allowed) (Some ∅) (range object))).
  { by destruct (foldl _ _ _) as [x|]; split; [| |intros|intros []]. }
  rewrite Hspec. split.
  - intros [Hnodup Hall]. exists object. split_and!; [done|done|]. intros key value Hkv Hf.
    rewrite Forall_forall in Hall. destruct (Hall (key, value)) as (ids & Hids & Hin);
      [by apply elem_of_map_to_list|done|].
    exists ids. split; [done|]. intros id Hid. by apply (allowedParticipants_sound metadata), Hin.
  - intros (o & [= <-] & Hnodup & Hall). split; [done|]. apply Forall_forall.
    intros [key value] Hkv%elem_of_map_to_list Hf. destruct (Hall key value Hkv Hf) as (ids & Hids & Hin).
    exists ids. split; [done|]. intros id Hid. by apply (allowedParticipants_sound metadata), Hin.
Qed.
End participants.

(** ** Concrete payloads *)
Section witnesses.
#[local] Existing Instance Reference.runtime.

Definition two_locals : list ConversationMemberLocalID :=
  [mkConversationMemberLocalID (uuid_of_N 1) (uuid_of_N 1);
   mkConversationMemberLocalID (uuid_of_N 2) (uuid_of_N 12)].
(** The second member by local id; an outsider; the same field in two spellings. *)
Definition payload_local : RawMessage :=
  Raw (JObj [("title", JStr "Dishes"); ("assignedTo", JStr (uuid_String (uuid_of_N 12)))]).
Definition payload_outsider : RawMessage :=
  Raw (JObj [("splitBetween", JArr [JStr (uuid_String (uuid_of_N 1)); JStr (uuid_String (uuid_of_N 3))])]).
Definition payload_twice : RawMessage :=
  Raw (JObj [("assignedTo", JNull); ("assigned_to", JNull)]).

Lemma participants_refused :
  ValidateEntityParticipants "expense" payload_outsider RawNil two_members two_locals = Some ErrInvalid ∧
  ValidateEntityParticipants "task" payload_twice RawNil two_members two_locals = Some ErrInvalid.
Proof. split; vm_compute; reflexivity. Qed.

Lemma participants_validated_witness :
  ∃ object, raw_object payload_local = Some object ∧
    ∀ key value, object !! key = Some value → normalizeJSONKey key ∈ participantFields →
      ∃ ids, participantIDsForField (normalizeJSONKey key) value = Some ids.
Proof.
  assert (ValidateEntityParticipants "chore" payload_local RawNil two_members two_locals = None) as Hv
    by (vm_compute; reflexivity).
  apply (participants_validated "chore" payload_local RawNil two_members two_locals) in Hv.
  - destruct Hv as (object & Ho & _ & Hall). exists object. split; [exact Ho|].
    intros key value Hkv Hf. destruct (Hall key value Hkv Hf) as (ids & Hids & _). by exists ids.
  - apply (bool_decide_unpack (_ ∈ _)). vm_compute. exact I.
  - discriminate.
  - apply (Forall_forall (λ mp, ConversationMemberLocalID_UserID mp
      ∈ (ConversationMember_UserID <$> two_members)) two_locals).
    apply (bool_decide_unpack (Forall _ _)). vm_compute. exact I.
Defined.
End witnesses.
