(* ===== verification/Entities.v ===== *)
(** * Shared entities and chore rotations

    [src/internal/store/memory/memory.go], lines 2057-2249, with [RotateChoreParams] of
    [src/internal/store/store.go].

    An entity is a versioned document.  Its version grows by one with every write, so
    that of two writers who saw the same version only one succeeds; a refused write
    changes no entity, no rotation and no outbox row; a chore rotation happens once
    per operation id, and its result can be replayed until it expires. *)

From Stdlib Require Import ZArith Lia.
From S2P Require Import Prelude.
From S2P Require Import Runtime.
From S2P Require Import Domain.
From S2P Require Import Compliance.
From S2P Require Import StoreState.
From S2P Require Import Projection.
From S2P Require Import Conversations.
From S2P Require Import Membership.
From S2P Require Import ConvFrame.
From S2P Require Import Participants.

Record RotateChoreParams := mkRotateChoreParams {
  RotateChoreParams_OperationID : UUID; RotateChoreParams_ConversationID : UUID;
  RotateChoreParams_ChoreID : UUID; RotateChoreParams_ActorID : UUID;
  RotateChoreParams_ExpectedChoreVersion : Z; RotateChoreParams_ChorePayload : RawMessage;
  RotateChoreParams_FeedPayload : RawMessage; RotateChoreParams_RequestHash : string }.

(** ** Decoding the command payloads *)
Section decode.
Context `{GoRuntime}.

(** [json.Unmarshal] into a struct: [null] leaves it zero. *)
Definition raw_struct (r : RawMessage) : option (list (string * JSON)) :=
  match r with
  | Raw (JObj members) => Some members
  | Raw JNull => Some []
  | _ => None
  end.

(** One field, in document order, keys matched up to case; [None] is a decoding
    error.  [uuid.UUID] decodes from a JSON string, [null] leaves a value as it is
    and sets a pointer to nil. *)
Definition decode_field {A} (field : string) (decode : A → JSON → option A) (zero : A)
    (members : list (string * JSON)) : option A :=
  foldl (λ acc '(k, v), current ← acc; if EqualFold k field then decode current v else Some current)
    (Some zero) members.

Definition decode_uuid (current : UUID) (v : JSON) : option UUID :=
  match v with JStr t => uuid_Parse t | JNull => Some current | _ => None end.
Definition decode_uuid_pointer (current : option UUID) (v : JSON) : option (option UUID) :=
  match v with JStr t => Some <$> uuid_Parse t | JNull => Some None | _ => None end.
Definition decode_text (current : string) (v : JSON) : option string :=
  match v with JStr t => Some t | JNull => Some current | _ => None end.

(** The two payloads name the chore, the conversation and the operation. *)
Definition chorePayloadMatches (p : RotateChoreParams) : bool :=
  match members ← raw_struct (RotateChoreParams_ChorePayload p);
        id ← decode_field "id" decode_uuid uuid_Nil members;
        groupID ← decode_field "groupId" decode_uuid uuid_Nil members;
        Some (id, groupID) with
  | Some (id, groupID) =>
    bool_decide (id = RotateChoreParams_ChoreID p)
    && bool_decide (groupID = RotateChoreParams_ConversationID p)
  | None => false
  end.

Definition feedPayloadMatches (p : RotateChoreParams) : bool :=
  match members ← raw_struct (RotateChoreParams_FeedPayload p);
        id ← decode_field "id" decode_uuid uuid_Nil members;
        groupID ← decode_field "groupId" decode_uuid uuid_Nil members;
        relatedID ← decode_field "relatedId" decode_uuid_pointer None members;
        type ← decode_field "type" decode_text "" members;
        Some (id, groupID, relatedID, type) with
  | Some (id, groupID, relatedID, type) =>
    bool_decide (id = RotateChoreParams_OperationID p)
    && bool_decide (groupID = RotateChoreParams_ConversationID p)
    && bool_decide (relatedID = Some (RotateChoreParams_ChoreID p))
    && bool_decide (type = "note")
  | None => false
  end.

Definition RotateChoreParams_Validate (p : RotateChoreParams) : option Error :=
  if bool_decide (RotateChoreParams_OperationID p = uuid_Nil)
     || bool_decide (RotateChoreParams_ConversationID p = uuid_Nil)
     || bool_decide (RotateChoreParams_ChoreID p = uuid_Nil)
     || bool_decide (RotateChoreParams_ActorID p = uuid_Nil)
     || (RotateChoreParams_ExpectedChoreVersion p <? 1)%Z
     || negb (strlen (RotateChoreParams_RequestHash p) =? 32)%Z
  then Some ErrInvalid
  else if negb (chorePayloadMatches p) || negb (feedPayloadMatches p) then Some ErrInvalid
  else None.
End decode.

(** ** The operations *)
Section entities.
Context `{GoRuntime}.
Implicit Types (s : Store) (cid actorID : UUID) (e : Entity).

Definition versionMismatch (existing : option Entity) (expectedVersion : option Z) : bool :=
  match expectedVersion with
  | None => false
  | Some v =>
    match existing with
    | None => negb (v =? 0)%Z
    | Some x => negb (Entity_Version x =? v)%Z
    end
  end.

Definition PutEntity s e (expectedVersion : option Z) (clock : Clock) : Store * res Entity :=
  let cid := Entity_ConversationID e in
  if negb (is_member s cid (Entity_CreatedBy e)) then (s, Err ErrForbidden)
  else
    match Store_conversations s !! cid with
    | None => (s, Err ErrNotFound)
    | Some conversation =>
      let activeMembers := conversationMembersLocked s cid in
      match ensureConversationMemberLocalIDsLocked s cid
              (Conversation_Metadata conversation) activeMembers with
      | (s, Err err) => (s, Err err)
      | (s, Ok localIDs) =>
        match ValidateEntityParticipants (Entity_Kind e) (Entity_Payload e)
                (Conversation_Metadata conversation) activeMembers localIDs with
        | Some err => (s, Err err)
        | None =>
          let key := entityKey cid (Entity_Kind e) (Entity_ID e) in
          let now := clock 0 in
          let existing := Store_entities s !! key in
          if versionMismatch existing expectedVersion then (s, Err ErrConflict)
          else
            let e := match existing with
              | Some x => e <| Entity_Version := int64_wrap (Entity_Version x + 1) |>
                            <| Entity_CreatedAt := Entity_CreatedAt x |>
              | None => e <| Entity_Version := 1%Z |> <| Entity_CreatedAt := now |>
              end in
            let e := e <| Entity_UpdatedAt := now |> in
            let s := s <| Store_entities ::= <[key := e]> |> in
            (appendOutbox s "entity.updated" cid (PEntity e) (later 1 clock), Ok e)
        end
      end
    end.

Definition ListEntities s cid (userID : UUID) (kind : string) (since limit : Z) : res (list Entity) :=
  if negb (is_member s cid userID) then Err ErrForbidden
  else
    Ok (take (Z.to_nat limit) (merge_sort (by_field Entity_UpdatedAt)
      (List.filter (λ e,
         bool_decide (Entity_ConversationID e = cid) && bool_decide (Entity_Kind e = kind)
         && (IsZero since || After (Entity_UpdatedAt e) since)) (range (Store_entities s)).*2))).

Definition DeleteEntity s cid actorID (kind : string) (id : UUID) (expectedVersion : option Z)
    (clock : Clock) : Store * res Entity :=
  if negb (is_member s cid actorID) then (s, Err ErrForbidden)
  else
    let key := entityKey cid kind id in
    match Store_entities s !! key with
    | None => (s, Err ErrNotFound)
    | Some e =>
      if versionMismatch (Some e) expectedVersion then (s, Err ErrConflict)
      else
        let now := clock 0 in
        let e := e <| Entity_DeletedAt := Some now |> <| Entity_UpdatedAt := now |>
                   <| Entity_Version ::= (λ v, int64_wrap (v + 1)) |> in
        let s := s <| Store_entities ::= <[key := e]> |> in
        (appendOutbox s "entity.deleted" cid (PEntity e) (later 1 clock), Ok e)
    end.

Definition rotationRetention : Z := 90 * 24 * Hour.

Definition rotationMismatch (prior : memoryChoreRotation) (p : RotateChoreParams) : bool :=
  negb (bool_decide (memoryChoreRotation_ConversationID prior = RotateChoreParams_ConversationID p))
  || negb (bool_decide (memoryChoreRotation_ActorID prior = RotateChoreParams_ActorID p))
  || negb (bool_decide (memoryChoreRotation_ChoreID prior = RotateChoreParams_ChoreID p))
  || negb (bool_decide (memoryChoreRotation_RequestHash prior = RotateChoreParams_RequestHash p)).

(** The atomic commit of a rotation. *)
Definition commitRotation s (p : RotateChoreParams) (chore feed : Entity) (now : Z) (clock : Clock) :
    Store * res RotateChoreResult :=
  let cid := RotateChoreParams_ConversationID p in
  let result := mkRotateChoreResult (RotateChoreParams_OperationID p) chore feed in
  let s := s <| Store_entities ::= <[entityKey cid "chore" (RotateChoreParams_ChoreID p) := chore]> |> in
  let s := s <| Store_entities ::=
    <[entityKey cid "feed_item" (RotateChoreParams_OperationID p) := feed]> |> in
  let s := appendOutbox s "entity.updated" cid (PEntity chore) clock in
  let s := appendOutbox s "entity.updated" cid (PEntity feed) (later 2 clock) in
  let s := s <| Store_choreRotations ::= <[RotateChoreParams_OperationID p :=
    mkmemoryChoreRotation cid (RotateChoreParams_ActorID p) (RotateChoreParams_ChoreID p)
      (RotateChoreParams_RequestHash p) result (now + rotationRetention)%Z]> |> in
  (s, Ok result).

Definition RotateChore s (p : RotateChoreParams) (clock : Clock) : Store * res RotateChoreResult :=
  let cid := RotateChoreParams_ConversationID p in
  if bool_decide (RotateChoreParams_OperationID p = uuid_Nil) then (s, Err ErrInvalid)
  else if negb (is_member s cid (RotateChoreParams_ActorID p)) then (s, Err ErrForbidden)
  else
    match Store_choreRotations s !! RotateChoreParams_OperationID p with
    | Some prior =>
      if rotationMismatch prior p then (s, Err ErrConflict)
      else (s, Ok (memoryChoreRotation_Result prior))
    | None =>
      match RotateChoreParams_Validate p with
      | Some _ => (s, Err ErrInvalid)
      | None =>
        match Store_entities s !! entityKey cid "chore" (RotateChoreParams_ChoreID p) with
        | None => (s, Err ErrNotFound)
        | Some chore =>
          if bool_decide (is_Some (Entity_DeletedAt chore)) then (s, Err ErrNotFound)
          else if negb (Entity_Version chore =? RotateChoreParams_ExpectedChoreVersion p)%Z
          then (s, Err ErrConflict)
          else
            match Store_conversations s !! cid with
            | None => (s, Err ErrNotFound)
            | Some conversation =>
              let metadata := Conversation_Metadata conversation in
              let members := conversationMembersLocked s cid in
              match ensureConversationMemberLocalIDsLocked s cid metadata members with
              | (s, Err err) => (s, Err err)
              | (s, Ok localIDs) =>
                match ValidateEntityParticipants "chore" (RotateChoreParams_ChorePayload p)
                        metadata members localIDs with
                | Some err => (s, Err err)
                | None =>
                  match ValidateEntityParticipants "feed_item" (RotateChoreParams_FeedPayload p)
                          metadata members localIDs with
                  | Some err => (s, Err err)
                  | None =>
                    let now := clock 0 in
                    let chore := chore <| Entity_Payload := RotateChoreParams_ChorePayload p |>
                                       <| Entity_Version ::= (λ v, int64_wrap (v + 1)) |>
                                       <| Entity_UpdatedAt := now |> in
                    let feed := mkEntity cid "feed_item" (RotateChoreParams_OperationID p) 1
                      (RotateChoreParams_FeedPayload p) (RotateChoreParams_ActorID p) now now None in
                    if bool_decide (is_Some (Store_entities s !!
                         entityKey cid "feed_item" (RotateChoreParams_OperationID p)))
                    then (s, Err ErrConflict)
                    else commitRotation s p chore feed now (later 1 clock)
                  end
                end
              end
            end
        end
      end
    end.

Definition expiredOperations s (cutoff : Z) : list (UUID * memoryChoreRotation) :=
  List.filter (λ kv : UUID * memoryChoreRotation,
    negb (After (memoryChoreRotation_ExpiresAt kv.2) cutoff)) (range (Store_choreRotations s)).

Definition expiry_order : relation (UUID * memoryChoreRotation) :=
  time_then (λ kv, memoryChoreRotation_ExpiresAt kv.2) (by_uuid fst).

Definition PruneChoreRotationOperations s (cutoff batchSize : Z) (clock : Clock) : Store * res Z :=
  if (batchSize <? 1)%Z then (s, Err ErrInvalid)
  else
    let now := clock 0 in
    let cutoff := if After cutoff now then now else cutoff in
    let expired := take (Z.to_nat batchSize) (merge_sort expiry_order (expiredOperations s cutoff)) in
    (s <| Store_choreRotations ::= delete_all expired.*1 |>, Ok (Z.of_nat (length expired))).
End entities.

(** ** What each operation writes *)
Section effects.
Context `{GoRuntime}.
Implicit Types (s : Store) (cid actorID : UUID) (e : Entity) (k : string).

(** The tables a refused write must not touch. *)
Definition writes s := (Store_entities s, Store_choreRotations s, Store_outbox s, Store_nextOutboxID s).

Lemma ensure_writes s cid metadata members :
  writes (ensureConversationMemberLocalIDsLocked s cid metadata members).1 = writes s.
Proof. unfold ensureConversationMemberLocalIDsLocked. by case_match. Qed.

(** The version a write to a slot produces. *)
Definition next_version (existing : option Entity) : Z :=
  match existing with Some x => int64_wrap (Entity_Version x + 1) | None => 1 end.

(** A successful write of [e'] under [key]. *)
Record entity_written s s' key e' : Prop := {
  ew_table : Store_entities s' = <[key := e']> (Store_entities s);
  ew_version : Entity_Version e' = next_version (Store_entities s !! key);
  ew_rotations : Store_choreRotations s' = Store_choreRotations s;
  ew_event : ∃ ev, Store_outbox s' = Store_outbox s ++ [ev] ∧ OutboxEvent_Payload ev = PEntity e';
}.

Lemma PutEntity_cases s e ev clock :
  let key := entityKey (Entity_ConversationID e) (Entity_Kind e) (Entity_ID e) in
  let r := PutEntity s e ev clock in
  (∃ err, r.2 = Err err ∧ writes r.1 = writes s) ∨
  (∃ e', r.2 = Ok e' ∧ entity_written s r.1 key e' ∧
     versionMismatch (Store_entities s !! key) ev = false).
Proof.
  cbv zeta. unfold PutEntity. cbv zeta.
  destruct (negb _); [left; by eexists|].
  destruct (Store_conversations s !! _) as [c|]; [|left; by eexists].
  match goal with |- context [ensureConversationMemberLocalIDsLocked s ?i ?md ?mb] =>
    pose proof (ensure_writes s i md mb) as Hw;
    destruct (ensureConversationMemberLocalIDsLocked s i md mb) as [s2 [localIDs|err]] end;
    cbn [fst] in Hw; [|left; by eexists].
  destruct (ValidateEntityParticipants _ _ _ _ _) as [err|]; [left; by eexists|].
  unfold writes in Hw. injection Hw as Hent Hrot Hout Hnext. rewrite !Hent.
  set (key := entityKey _ _ _).
  destruct (versionMismatch (Store_entities s !! key) ev) eqn:Hv.
  { left. eexists. split; [done|]. unfold writes. cbn. congruence. }
  right. eexists. split; [reflexivity|]. split; [|done].
  split; cbn; rewrite ?Hent, ?Hout; [done| |done|by eexists].
  by destruct (Store_entities s !! key).
Qed.

Lemma DeleteEntity_cases s cid actorID kind id ev clock :
  let key := entityKey cid kind id in
  let r := DeleteEntity s cid actorID kind id ev clock in
  (∃ err, r.2 = Err err ∧ writes r.1 = writes s) ∨
  (∃ e e', r.2 = Ok e' ∧ Store_entities s !! key = Some e ∧ entity_written s r.1 key e' ∧
     versionMismatch (Some e) ev = false ∧ is_Some (Entity_DeletedAt e')).
Proof.
  cbv zeta. unfold DeleteEntity. cbv zeta.
  destruct (negb _); [left; by eexists|].
  destruct (Store_entities s !! _) as [e|] eqn:He; [|left; by eexists].
  destruct (versionMismatch (Some e) ev) eqn:Hv; [left; by eexists|].
  right. eexists e, _. split; [reflexivity|]. split_and!; [done| |done|by eexists].
  split; cbn; [done| |done|by eexists]. by rewrite He.
Qed.

Definition chore_key (p : RotateChoreParams) : string :=
  entityKey (RotateChoreParams_ConversationID p) "chore" (RotateChoreParams_ChoreID p).
Definition feed_key (p : RotateChoreParams) : string :=
  entityKey (RotateChoreParams_ConversationID p) "feed_item" (RotateChoreParams_OperationID p).

(** A committed rotation: the chore moves on by one version, its feed item appears,
    and the result is remembered under the operation id. *)
Record rotation_committed s s' (p : RotateChoreParams) (now : Z) (r : RotateChoreResult) : Prop := {
  ro_chore : ∃ chore, Store_entities s !! chore_key p = Some chore ∧ Entity_DeletedAt chore = None ∧
    Entity_Version chore = RotateChoreParams_ExpectedChoreVersion p ∧
    Entity_Version (RotateChoreResult_Chore r) = int64_wrap (Entity_Version chore + 1);
  ro_feed : Store_entities s !! feed_key p = None ∧ Entity_Version (RotateChoreResult_FeedItem r) = 1%Z;
  ro_table : Store_entities s' = <[feed_key p := RotateChoreResult_FeedItem r]>
    (<[chore_key p := RotateChoreResult_Chore r]> (Store_entities s));
  ro_memo : Store_choreRotations s' = <[RotateChoreParams_OperationID p :=
    mkmemoryChoreRotation (RotateChoreParams_ConversationID p) (RotateChoreParams_ActorID p)
      (RotateChoreParams_ChoreID p) (RotateChoreParams_RequestHash p) r (now + rotationRetention)%Z]>
    (Store_choreRotations s);
  ro_events : ∃ ev1 ev2, Store_outbox s' = Store_outbox s ++ [ev1; ev2] ∧
    OutboxEvent_Payload ev1 = PEntity (RotateChoreResult_Chore r) ∧
    OutboxEvent_Payload ev2 = PEntity (RotateChoreResult_FeedItem r);
}.

Lemma RotateChore_cases s p clock :
  let r := RotateChore s p clock in
  (∃ err, r.2 = Err err ∧ writes r.1 = writes s) ∨
  (∃ prior, Store_choreRotations s !! RotateChoreParams_OperationID p = Some prior ∧
     rotationMismatch prior p = false ∧ r = (s, Ok (memoryChoreRotation_Result prior))) ∨
  (Store_choreRotations s !! RotateChoreParams_OperationID p = None ∧
   ∃ result, r.2 = Ok result ∧ rotation_committed s r.1 p (clock 0) result).
Proof.
  cbv zeta. unfold RotateChore. cbv zeta.
  case_bool_decide; [left; by eexists|]. destruct (negb (is_member _ _ _)); [left; by eexists|].
  destruct (Store_choreRotations s !! _) as [prior|] eqn:Hprior.
  { destruct (rotationMismatch prior p) eqn:Hm; [left; by eexists|]. right. left. by exists prior. }
  destruct (RotateChoreParams_Validate p); [left; by eexists|].
  destruct (Store_entities s !! entityKey _ "chore" _) as [chore|] eqn:Hch; [|left; by eexists].
  case_bool_decide as Hdel; [left; by eexists|].
  destruct (negb _) eqn:Hver; [left; by eexists|]. bool_prop.
  destruct (Store_conversations s !! _) as [c|]; [|left; by eexists].
  match goal with |- context [ensureConversationMemberLocalIDsLocked s ?i ?md ?mb] =>
    pose proof (ensure_writes s i md mb) as Hw;
    destruct (ensureConversationMemberLocalIDsLocked s i md mb) as [s2 [localIDs|err]] end;
    cbn [fst] in Hw; [|left; by eexists].
  destruct (ValidateEntityParticipants "chore" _ _ _ _) as [err|]; [left; by eexists|].
  destruct (ValidateEntityParticipants "feed_item" _ _ _ _) as [err|]; [left; by eexists|].
  unfold writes in Hw. injection Hw as Hent Hrot Hout Hnext. rewrite !Hent.
  case_bool_decide as Hfeed.
  { left. eexists. split; [done|]. unfold writes. cbn. congruence. }
  right. right. split; [done|]. unfold commitRotation. cbv zeta. eexists. split; [reflexivity|].
  split; cbn; rewrite ?Hent, ?Hrot, ?Hout.
  - exists chore. split_and!; [done| |done|done]. by apply eq_None_not_Some.
  - split; [|done]. by apply eq_None_not_Some.
  - done.
  - done.
  - rewrite <- app_assoc. by eexists _, _.
Qed.
End effects.

(** ** Runs *)
Section runs.
Context `{GoRuntime}.
Implicit Types (s : Store) (cid actorID : UUID) (e : Entity) (k : string).

Definition int64_max : Z := 2 ^ 63 - 1.

(** Steps of the entity operations; the pruning job runs before [T].  Steps elsewhere
    leave the two tables alone, the conversation operations among them
    ([conv_step_elsewhere]). *)
Inductive ent_step (T : Z) s : Store → Prop :=
  | ent_put e ev clock : ent_step T s (PutEntity s e ev clock).1
  | ent_delete cid actorID kind id ev clock :
      ent_step T s (DeleteEntity s cid actorID kind id ev clock).1
  | ent_rotate p clock : ent_step T s (RotateChore s p clock).1
  | ent_prune cutoff batchSize clock : (clock 0%nat < T)%Z →
      ent_step T s (PruneChoreRotationOperations s cutoff batchSize clock).1
  | ent_elsewhere s' : Store_entities s' = Store_entities s →
      Store_choreRotations s' = Store_choreRotations s → ent_step T s s'.

Lemma conv_step_elsewhere T s op : conv_inv s → ent_step T s (conv_step s op).
Proof.
  intros Hs. pose proof (ce_content _ _ (conv_step_effect s op Hs)) as Hct.
  unfold content in Hct. simplify_eq. by apply ent_elsewhere.
Qed.

Lemma writes_entities s s' : writes s' = writes s → Store_entities s' = Store_entities s.
Proof. unfold writes. congruence. Qed.
Lemma writes_rotations s s' : writes s' = writes s → Store_choreRotations s' = Store_choreRotations s.
Proof. unfold writes. congruence. Qed.

Lemma chore_feed_distinct p : chore_key p ≠ feed_key p.
Proof. intros (_ & [=] & _)%entityKey_inj. Qed.

(** A step leaves a slot alone or writes its next version. *)
Lemma slot_step T s s' k :
  ent_step T s s' →
  Store_entities s' !! k = Store_entities s !! k ∨
  ∃ e', Store_entities s' !! k = Some e' ∧ Entity_Version e' = next_version (Store_entities s !! k).
Proof.
  assert (∀ s s' key e', entity_written s s' key e' →
    Store_entities s' !! k = Store_entities s !! k ∨
    ∃ e', Store_entities s' !! k = Some e' ∧ Entity_Version e' = next_version (Store_entities s !! k)) as Hew.
  { intros t t' key e' [Htab Hver _ _]. rewrite Htab. destruct (decide (k = key)) as [->|Hne].
    - right. exists e'. by rewrite lookup_insert_eq.
    - left. by rewrite lookup_insert_ne. }
  intros [e ev clock|cid actorID kind id ev clock|p clock|cutoff b clock _|s'' He _].
  - destruct (PutEntity_cases s e ev clock) as [(err & _ & Hw)|(e' & _ & Hwr & _)]; [|by eapply Hew].
    left. by rewrite (writes_entities _ _ Hw).
  - destruct (DeleteEntity_cases s cid actorID kind id ev clock)
      as [(err & _ & Hw)|(e & e' & _ & _ & Hwr & _)]; [|by eapply Hew].
    left. by rewrite (writes_entities _ _ Hw).
  - destruct (RotateChore_cases s p clock) as [(err & _ & Hw)|[(prior & _ & _ & ->)|(_ & r & _ & Hro)]];
      [left; by rewrite (writes_entities _ _ Hw)|by left|].
    destruct (ro_chore _ _ _ _ _ Hro) as (chore & Hch & _ & _ & Hv).
    destruct (ro_feed _ _ _ _ _ Hro) as [Hnone Hv1]. rewrite (ro_table _ _ _ _ _ Hro).
    destruct (decide (k = feed_key p)) as [->|Hf].
    + right. rewrite lookup_insert_eq, Hnone. by eexists.
    + rewrite lookup_insert_ne by done. destruct (decide (k = chore_key p)) as [->|Hc].
      * right. rewrite lookup_insert_eq, Hch. by eexists.
      * left. by rewrite lookup_insert_ne.
  - left. unfold PruneChoreRotationOperations. by case_match.
  - left. by rewrite He.
Qed.

Lemma versions_grow T n s s' k e :
  nsteps (ent_step T) n s s' → Store_entities s !! k = Some e → (0 ≤ Entity_Version e)%Z →
  (Entity_Version e + Z.of_nat n ≤ int64_max)%Z →
  ∃ e', Store_entities s' !! k = Some e' ∧
    (Entity_Version e ≤ Entity_Version e' ≤ Entity_Version e + Z.of_nat n)%Z.
Proof.
  intros Hrun. revert e. induction Hrun as [s|n s1 s2 s3 Hst _ IH]; intros e Hk H0 Hmax.
  { exists e. split; [done|lia]. }
  unfold int64_max in *. destruct (slot_step T s1 s2 k Hst) as [Heq|(e2 & He2 & Hv)].
  - destruct (IH e) as (e' & He' & Hle); [congruence|done|lia|]. exists e'. split; [done|lia].
  - rewrite Hk in Hv. simpl in Hv. rewrite int64_wrap_small in Hv by lia.
    destruct (IH e2) as (e' & He' & Hle); [done|lia|lia|]. exists e'. split; [done|lia].
Qed.

Lemma mismatch_false_version existing v :
  versionMismatch existing (Some v) = false → (0 ≤ v < int64_max)%Z → next_version existing = (v + 1)%Z.
Proof.
  unfold versionMismatch, next_version, int64_max. destruct existing as [x|]; intros Hm Hv; bool_prop;
    [rewrite Hm; apply int64_wrap_small|]; lia.
Qed.


(** ** Rotations *)

Lemma rotation_kept T s s' id rec :
  ent_step T s s' → Store_choreRotations s !! id = Some rec →
  (T ≤ memoryChoreRotation_ExpiresAt rec)%Z → Store_choreRotations s' !! id = Some rec.
Proof.
  intros Hst Hid HT. destruct Hst as [e ev clock|cid actorID kind i ev clock|p clock|cutoff b clock Hcl|s' _ Hr].
  - destruct (PutEntity_cases s e ev clock) as [(err & _ & Hw)|(e' & _ & Hwr & _)];
      [by rewrite (writes_rotations _ _ Hw)|by rewrite (ew_rotations _ _ _ _ Hwr)].
  - destruct (DeleteEntity_cases s cid actorID kind i ev clock)
      as [(err & _ & Hw)|(e & e' & _ & _ & Hwr & _)];
      [by rewrite (writes_rotations _ _ Hw)|by rewrite (ew_rotations _ _ _ _ Hwr)].
  - destruct (RotateChore_cases s p clock) as [(err & _ & Hw)|[(prior & _ & _ & ->)|(Hn & r & _ & Hro)]];
      [by rewrite (writes_rotations _ _ Hw)|done|].
    rewrite (ro_memo _ _ _ _ _ Hro), lookup_insert_ne; [done|]. intros <-. congruence.
  - unfold PruneChoreRotationOperations. destruct (b <? 1)%Z; [done|]. cbn.
    rewrite lookup_delete_all, decide_False; [done|].
    set (now := clock 0%nat) in *. set (cut := if After cutoff now then now else cutoff).
    assert (cut ≤ now)%Z as Hcut.
    { unfold cut. destruct (After cutoff now) eqn:Ha; bool_prop; lia. }
    intros Hin. apply list_elem_of_fmap in Hin as ([i r] & -> & Hin).
    apply elem_of_take in Hin as (j & Hin & _). apply list_elem_of_lookup_2 in Hin.
    rewrite merge_sort_Permutation in Hin. unfold expiredOperations in Hin.
    rewrite list_elem_of_In, filter_In, <- list_elem_of_In, elem_of_range in Hin.
    destruct Hin as [Hr Hexp]. simpl in *. simplify_eq. bool_prop. lia.
  - by rewrite Hr.
Qed.

Lemma rotation_kept_run T s s' id rec :
  rtc (ent_step T) s s' → Store_choreRotations s !! id = Some rec →
  (T ≤ memoryChoreRotation_ExpiresAt rec)%Z → Store_choreRotations s' !! id = Some rec.
Proof. induction 1 as [s|s1 s2 s3 Hst _ IH]; [done|]. intros Hid HT. apply IH; [|done]. by eapply rotation_kept. Qed.

(** What a repeated call answers from the remembered operation. *)
Lemma RotateChore_replay s p clock rec :
  Store_choreRotations s !! RotateChoreParams_OperationID p = Some rec →
  RotateChoreParams_OperationID p ≠ uuid_Nil →
  is_member s (RotateChoreParams_ConversationID p) (RotateChoreParams_ActorID p) = true →
  RotateChore s p clock
  = (s, if rotationMismatch rec p then Err ErrConflict else Ok (memoryChoreRotation_Result rec)).
Proof.
  intros Hrec Hid Hmem. unfold RotateChore. rewrite bool_decide_false by done. rewrite Hmem, Hrec. simpl.
  by destruct (rotationMismatch rec p).
Qed.

(** A chore rotation happens exactly once.  A call that starts a new
    operation and succeeds moved the chore from the expected version to the next,
    created its feed item, and queued one event for each.  Until the remembered
    operation expires (90 days later, however often the pruning job runs), every
    repetition by the same actor with the same request returns the same result and
    changes nothing, and a different request under that operation id is refused. *)
Theorem chore_rotation_once s p clock s1 r s2 p' clock' :
  Store_choreRotations s !! RotateChoreParams_OperationID p = None →
  RotateChore s p clock = (s1, Ok r) →
  rtc (ent_step (clock 0%nat + rotationRetention)) s1 s2 →
  RotateChoreParams_OperationID p' = RotateChoreParams_OperationID p →
  is_member s2 (RotateChoreParams_ConversationID p') (RotateChoreParams_ActorID p') = true →
  rotation_committed s s1 p (clock 0) r ∧
  (RotateChoreParams_ConversationID p' = RotateChoreParams_ConversationID p →
   RotateChoreParams_ActorID p' = RotateChoreParams_ActorID p →
   RotateChoreParams_ChoreID p' = RotateChoreParams_ChoreID p →
   RotateChoreParams_RequestHash p' = RotateChoreParams_RequestHash p →
   RotateChore s2 p' clock' = (s2, Ok r)) ∧
  (RotateChoreParams_RequestHash p' ≠ RotateChoreParams_RequestHash p →
   RotateChore s2 p' clock' = (s2, Err ErrConflict)).
Proof.
  intros Hnew Hrot Hrun Hop Hmem.
  destruct (RotateChore_cases s p clock) as [(err & Herr & _)|[(prior & Hp & _)|(_ & r' & Hok & Hro)]];
    [by rewrite Hrot in Herr|congruence|].
  rewrite Hrot in Hok, Hro. simpl in *. simplify_eq.
  assert (RotateChoreParams_OperationID p ≠ uuid_Nil) as Hid.
  { intros Hnil. unfold RotateChore in Hrot. by rewrite bool_decide_true in Hrot. }
  assert (Store_choreRotations s1 !! RotateChoreParams_OperationID p = Some
    (mkmemoryChoreRotation (RotateChoreParams_ConversationID p) (RotateChoreParams_ActorID p)
      (RotateChoreParams_ChoreID p) (RotateChoreParams_RequestHash p) r' (clock 0%nat + rotationRetention)%Z))
    as Hmemo by (by rewrite (ro_memo _ _ _ _ _ Hro), lookup_insert_eq).
  eapply rotation_kept_run in Hmemo; [|exact Hrun|simpl; lia].
  split; [done|]. rewrite <- Hop in Hmemo, Hid. split.
  - intros H1 H2 H3 H4. erewrite RotateChore_replay by done. unfold rotationMismatch.
    cbn -[bool_decide]. rewrite H1, H2, H3, H4. by rewrite !bool_decide_eq_true_2.
  - intros Hne. erewrite RotateChore_replay by done.
    destruct (rotationMismatch _ p') eqn:Hm; [done|]. unfold rotationMismatch in Hm. bool_prop.
    simpl in *. congruence.
Qed.
End runs.

(** ** A concrete rotation *)
Section witnesses.
#[local] Existing Instance Reference.runtime.

Definition chore_id : UUID := uuid_of_N 31.
Definition rotation_id : UUID := uuid_of_N 32.
Definition chore_doc (who : UUID) : RawMessage :=
  Raw (JObj [("id", JStr (uuid_String chore_id)); ("groupId", JStr (uuid_String group_id));
             ("assignedTo", JStr (uuid_String who))]).
Definition feed_doc : RawMessage :=
  Raw (JObj [("id", JStr (uuid_String rotation_id)); ("groupId", JStr (uuid_String group_id));
             ("relatedId", JStr (uuid_String chore_id)); ("type", JStr "note")]).
Definition first_chore : Entity :=
  mkEntity group_id "chore" chore_id 0 (chore_doc ada) ada 0 0 None.
Definition rotation : RotateChoreParams :=
  mkRotateChoreParams rotation_id group_id chore_id ada 1 (chore_doc bob) feed_doc
    "0123456789abcdef0123456789abcdef".

Definition with_group : Store := conv_step empty_store op_open.
Definition with_chore : Store := (PutEntity with_group first_chore (Some 0%Z) group_clock).1.
Definition with_rotation : Store := (RotateChore with_chore rotation group_clock).1.


Lemma chore_rotation_once_witness :
  ∃ r, RotateChore with_chore rotation group_clock = (with_rotation, Ok r) ∧
    RotateChore with_rotation rotation group_clock = (with_rotation, Ok r) ∧
    Entity_Version (RotateChoreResult_Chore r) = 2%Z.
Proof.
  destruct (RotateChore with_chore rotation group_clock).2 as [r|err] eqn:Hres.
  2: { assert (is_ok (RotateChore with_chore rotation group_clock).2 = true) as Hok
         by (vm_compute; reflexivity). rewrite Hres in Hok. discriminate Hok. }
  assert (Store_choreRotations with_chore !! rotation_id = None) as Hnone.
  { assert (bool_decide (is_Some (Store_choreRotations with_chore !! rotation_id)) = false) as Hb
      by (vm_compute; reflexivity).
    apply bool_decide_eq_false in Hb. by apply eq_None_not_Some. }
  destruct (chore_rotation_once with_chore rotation group_clock with_rotation r with_rotation rotation
    group_clock Hnone (pair_run _ _ Hres) (rtc_refl _ _) eq_refl) as (Hro & Hreplay & _);
    [vm_compute; reflexivity|].
  exists r. split; [exact (pair_run _ _ Hres)|]. split; [exact (Hreplay eq_refl eq_refl eq_refl eq_refl)|].
  destruct (ro_chore _ _ _ _ _ Hro) as (chore & _ & _ & Hv & Hv').
  rewrite Hv', Hv. reflexivity.
Defined.
End witnesses.
