(* ===== verification/Media.v ===== *)
(** * Media objects

    [src/internal/store/memory/memory.go], lines 2251-2753, with the reservation limits
    of [src/internal/store/store.go].

    An upload is reserved ([pending]), verified under a lease and published
    ([ready]), and finally [deleted].  Reservations keep every user and conversation
    within its quotas, only the lease holder publishes, and no object loses its row
    without its storage key being queued for deletion, not before the upload
    capability has run out. *)

From Stdlib Require Import ZArith Lia.
From S2P Require Import Prelude.
From S2P Require Import Runtime.
From S2P Require Import Domain.
From S2P Require Import Compliance.
From S2P Require Import MediaKey.
From S2P Require Import StoreState.
From S2P Require Import Accounts.
From S2P Require Import Projection.
From S2P Require Import Conversations.

Definition MediaScopeProfile : string := "profile".

Record MediaReservationLimits := mkMediaReservationLimits {
  MediaReservationLimits_PendingTTL : Z;
  MediaReservationLimits_MaxPendingCountPerUser : Z;
  MediaReservationLimits_MaxPendingBytesPerUser : Z;
  MediaReservationLimits_MaxPendingCountConversation : Z;
  MediaReservationLimits_MaxPendingBytesConversation : Z;
  MediaReservationLimits_MaxStoredCountPerUser : Z;
  MediaReservationLimits_MaxStoredBytesPerUser : Z;
  MediaReservationLimits_MaxStoredCountConversation : Z;
  MediaReservationLimits_MaxStoredBytesConversation : Z }.

Definition DefaultMediaReservationLimits : MediaReservationLimits :=
  mkMediaReservationLimits (5 * Minute) 8 (2 * 2 ^ 30) 32 (8 * 2 ^ 30) 2000 (2 * 2 ^ 30) 10000 (10 * 2 ^ 30).

Definition MediaReservationLimits_Validate (l : MediaReservationLimits) : option Error :=
  if (MediaReservationLimits_PendingTTL l <? Minute)%Z
     || (15 * Minute <? MediaReservationLimits_PendingTTL l)%Z
     || (MediaReservationLimits_MaxPendingCountPerUser l <? 1)%Z
     || (MediaReservationLimits_MaxPendingBytesPerUser l <? 1)%Z
     || (MediaReservationLimits_MaxPendingCountConversation l <? 1)%Z
     || (MediaReservationLimits_MaxPendingBytesConversation l <? 1)%Z
     || (MediaReservationLimits_MaxStoredCountPerUser l <? MediaReservationLimits_MaxPendingCountPerUser l)%Z
     || (MediaReservationLimits_MaxStoredBytesPerUser l <? MediaReservationLimits_MaxPendingBytesPerUser l)%Z
     || (MediaReservationLimits_MaxStoredCountConversation l
         <? MediaReservationLimits_MaxPendingCountConversation l)%Z
     || (MediaReservationLimits_MaxStoredBytesConversation l
         <? MediaReservationLimits_MaxPendingBytesConversation l)%Z
  then Some ErrInvalid else None.

(** The eight counters of [createMediaLocked]. *)
Record Tally := mkTally {
  Tally_userPendingCount : Z; Tally_userPendingBytes : Z;
  Tally_userStoredCount : Z; Tally_userStoredBytes : Z;
  Tally_conversationPendingCount : Z; Tally_conversationPendingBytes : Z;
  Tally_conversationStoredCount : Z; Tally_conversationStoredBytes : Z }.

Section media.
Context `{GoRuntime}.
Implicit Types (s : Store) (media : MediaObject) (id actorID : UUID) (limits : MediaReservationLimits).

Definition authorizeMediaMutationLocked s media actorID : option Error :=
  match live_user s actorID with
  | None => Some ErrNotFound
  | Some _ =>
    if bool_decide (MediaObject_Scope media = MediaScopeConversation)
       && negb (is_member s (MediaObject_ConversationID media) actorID)
    then Some ErrForbidden else None
  end.

(** Byte counters are [int64]; counts of table rows are [int]. *)
Definition tallyMedia media (t : Tally) (existing : MediaObject) : Tally :=
  if bool_decide (MediaObject_Status existing = "deleted") then t
  else
    let bytes := MediaObject_ByteSize existing in
    let pending := bool_decide (MediaObject_Status existing = "pending") in
    let add (on : bool) c := if on then int64_wrap (c + 1) else c in
    let addBytes (on : bool) c := if on then int64_wrap (c + bytes) else c in
    let user := bool_decide (MediaObject_OwnerID existing = MediaObject_OwnerID media) in
    let conversation := bool_decide (MediaObject_Scope media = MediaScopeConversation)
      && bool_decide (MediaObject_Scope existing = MediaScopeConversation)
      && bool_decide (MediaObject_ConversationID existing = MediaObject_ConversationID media) in
    mkTally (add (user && pending) (Tally_userPendingCount t))
      (addBytes (user && pending) (Tally_userPendingBytes t))
      (add user (Tally_userStoredCount t)) (addBytes user (Tally_userStoredBytes t))
      (add (conversation && pending) (Tally_conversationPendingCount t))
      (addBytes (conversation && pending) (Tally_conversationPendingBytes t))
      (add conversation (Tally_conversationStoredCount t))
      (addBytes conversation (Tally_conversationStoredBytes t)).

Definition tallyOf s media : Tally :=
  foldl (tallyMedia media) (mkTally 0 0 0 0 0 0 0 0) (range (Store_media s)).*2.

(** The object alone is larger than a quota. *)
Definition oversized media limits : bool :=
  (MediaReservationLimits_MaxPendingBytesPerUser limits <? MediaObject_ByteSize media)%Z
  || (MediaReservationLimits_MaxStoredBytesPerUser limits <? MediaObject_ByteSize media)%Z
  || (bool_decide (MediaObject_Scope media = MediaScopeConversation)
      && ((MediaReservationLimits_MaxPendingBytesConversation limits <? MediaObject_ByteSize media)%Z
          || (MediaReservationLimits_MaxStoredBytesConversation limits <? MediaObject_ByteSize media)%Z)).

Definition quotaExceeded media limits (t : Tally) : bool :=
  let bytes := MediaObject_ByteSize media in
  (MediaReservationLimits_MaxPendingCountPerUser limits <? int64_wrap (Tally_userPendingCount t + 1))%Z
  || (MediaReservationLimits_MaxPendingBytesPerUser limits <? int64_wrap (Tally_userPendingBytes t + bytes))%Z
  || (MediaReservationLimits_MaxStoredCountPerUser limits <? int64_wrap (Tally_userStoredCount t + 1))%Z
  || (MediaReservationLimits_MaxStoredBytesPerUser limits <? int64_wrap (Tally_userStoredBytes t + bytes))%Z
  || (bool_decide (MediaObject_Scope media = MediaScopeConversation)
      && ((MediaReservationLimits_MaxPendingCountConversation limits
           <? int64_wrap (Tally_conversationPendingCount t + 1))%Z
          || (MediaReservationLimits_MaxPendingBytesConversation limits
              <? int64_wrap (Tally_conversationPendingBytes t + bytes))%Z
          || (MediaReservationLimits_MaxStoredCountConversation limits
              <? int64_wrap (Tally_conversationStoredCount t + 1))%Z
          || (MediaReservationLimits_MaxStoredBytesConversation limits
              <? int64_wrap (Tally_conversationStoredBytes t + bytes))%Z)).

Definition createMediaLocked s media limits (clock : Clock) : Store * res MediaObject :=
  if bool_decide (MediaObject_ID media = uuid_Nil) || bool_decide (MediaObject_OwnerID media = uuid_Nil)
     || (MediaObject_ByteSize media <? 1)%Z
     || bool_decide (TrimSpace (MediaObject_ObjectKey media) = "")
     || bool_decide (TrimSpace (MediaObject_ContentType media) = "")
  then (s, Err ErrInvalid)
  else if bool_decide (is_Some (Store_media s !! MediaObject_ID media)) then (s, Err ErrConflict)
  else if oversized media limits then (s, Err ErrQuotaExceeded)
  else if quotaExceeded media limits (tallyOf s media) then (s, Err ErrQuotaExceeded)
  else
    let now := clock 0%nat in
    let expiresAt := (now + MediaReservationLimits_PendingTTL limits)%Z in
    let media := media <| MediaObject_CreatedAt := now |> <| MediaObject_UpdatedAt := now |>
      <| MediaObject_Status := "pending" |> <| MediaObject_ExpiresAt := Some expiresAt |>
      <| MediaObject_UploadValidUntil := expiresAt |> in
    (s <| Store_media ::= <[MediaObject_ID media := media]> |>, Ok media).

Definition CreateMedia s media limits (clock : Clock) : Store * res MediaObject :=
  match MediaReservationLimits_Validate limits with
  | Some e => (s, Err e)
  | None =>
    if negb (is_member s (MediaObject_ConversationID media) (MediaObject_OwnerID media))
    then (s, Err ErrForbidden)
    else createMediaLocked s (media <| MediaObject_Scope := MediaScopeConversation |>) limits clock
  end.

Definition CreateProfileMedia s media limits (clock : Clock) : Store * res MediaObject :=
  match MediaReservationLimits_Validate limits with
  | Some e => (s, Err e)
  | None =>
    match live_user s (MediaObject_OwnerID media) with
    | None => (s, Err ErrNotFound)
    | Some _ =>
      createMediaLocked s (media <| MediaObject_Scope := MediaScopeProfile |>
                                 <| MediaObject_ConversationID := uuid_Nil |>) limits clock
    end
  end.

(** The checks every mutation starts with: the row exists and is not deleted, the
    actor owns it and may still change it. *)
Definition ownedMedia s id actorID : res MediaObject :=
  match Store_media s !! id with
  | None => Err ErrNotFound
  | Some media =>
    if bool_decide (MediaObject_Status media = "deleted") then Err ErrNotFound
    else if negb (bool_decide (MediaObject_OwnerID media = actorID)) then Err ErrForbidden
    else match authorizeMediaMutationLocked s media actorID with
         | Some e => Err e
         | None => Ok media
         end
  end.

Definition PersistMediaUploadCapability s id actorID (revocationToken : string) : Store * res unit :=
  let revocationToken := TrimSpace revocationToken in
  if bool_decide (id = uuid_Nil) || bool_decide (actorID = uuid_Nil)
     || bool_decide (revocationToken = "") || (1024 <? strlen revocationToken)%Z
  then (s, Err ErrInvalid)
  else
    match ownedMedia s id actorID with
    | Err e => (s, Err e)
    | Ok media =>
      if negb (bool_decide (MediaObject_Status media = "pending")) then (s, Err ErrConflict)
      else
        let existing := default "" (Store_mediaUploadCapabilities s !! id) in
        if negb (bool_decide (existing = "")) && negb (bool_decide (existing = revocationToken))
        then (s, Err ErrConflict)
        else (s <| Store_mediaUploadCapabilities ::= <[id := revocationToken]> |>, Ok tt)
    end.

Definition MediaUploadCapability s id actorID : res string :=
  match ownedMedia s id actorID with
  | Err e => Err e
  | Ok _ => Ok (default "" (Store_mediaUploadCapabilities s !! id))
  end.

Definition Media_ s id actorID : res MediaObject :=
  match Store_media s !! id with
  | None => Err ErrNotFound
  | Some media =>
    if bool_decide (MediaObject_Status media = "deleted") then Err ErrNotFound
    else if bool_decide (MediaObject_Scope media = MediaScopeProfile) then
      if negb (bool_decide (MediaObject_Status media = "ready"))
         && negb (bool_decide (MediaObject_OwnerID media = actorID))
      then Err ErrForbidden else Ok media
    else if negb (is_member s (MediaObject_ConversationID media) actorID) then Err ErrForbidden
    else Ok media
  end.

(** [media.ExpiresAt == nil || !media.ExpiresAt.After(now)] *)
Definition mediaExpired media (now : Z) : bool :=
  match MediaObject_ExpiresAt media with Some t => negb (After t now) | None => true end.

(** A lease that is still running. *)
Definition leaseRunning media (now : Z) : bool :=
  match MediaObject_VerificationLeaseToken media, MediaObject_VerificationLockedUntil media with
  | Some _, Some t => After t now
  | _, _ => false
  end.

(** The running lease of this token. *)
Definition holdsLease media (leaseToken : UUID) (now : Z) : bool :=
  bool_decide (MediaObject_VerificationLeaseToken media = Some leaseToken) && leaseRunning media now.

Definition ClaimMediaVerification s id actorID (leaseDuration : Z) (leaseToken : UUID) (clock : Clock) :
    Store * res MediaObject :=
  if bool_decide (id = uuid_Nil) || bool_decide (actorID = uuid_Nil)
     || (leaseDuration <? Second)%Z || (5 * Minute <? leaseDuration)%Z
  then (s, Err ErrInvalid)
  else
    match ownedMedia s id actorID with
    | Err e => (s, Err e)
    | Ok media =>
      if bool_decide (MediaObject_Status media = "ready") then (s, Ok media)
      else if negb (bool_decide (MediaObject_Status media = "pending")) then (s, Err ErrConflict)
      else
        let now := clock 0%nat in
        if mediaExpired media now then (s, Err ErrMediaExpired)
        else if leaseRunning media now then (s, Err ErrConflict)
        else
          let media := media <| MediaObject_VerificationLeaseToken := Some leaseToken |>
            <| MediaObject_VerificationLockedUntil := Some (now + leaseDuration)%Z |>
            <| MediaObject_UpdatedAt := now |> in
          (s <| Store_media ::= <[id := media]> |>, Ok media)
    end.

Definition mediaReferencePrefix : string := "clustr-media://".

Definition profileMediaID (reference : string) : UUID :=
  if negb (HasPrefix reference mediaReferencePrefix) then uuid_Nil
  else default uuid_Nil (uuid_Parse (TrimPrefix reference mediaReferencePrefix)).

(** A profile that is not an object heals to an empty one. *)
Definition setProfileMediaReference (profile : RawMessage) (reference : string) : RawMessage :=
  let value := default ∅ (mjoin (unmarshal_map profile)) in
  let value := delete "profileImageURL" value in
  marshal_map (if bool_decide (reference = "") then delete "profile_image_url" value
               else <["profile_image_url" := JStr reference]> value).

(** The row of a deleted object. *)
Definition deletedMedia media (updatedAt : Z) : MediaObject :=
  media <| MediaObject_Status := "deleted" |> <| MediaObject_UpdatedAt := updatedAt |>
    <| MediaObject_ExpiresAt := None |> <| MediaObject_VerificationLeaseToken := None |>
    <| MediaObject_VerificationLockedUntil := None |>.

Definition dropMedia s id media (updatedAt : Z) : Store :=
  s <| Store_media ::= <[id := deletedMedia media updatedAt]> |>
    <| Store_mediaUploadCapabilities ::= delete id |>.

(** Point the account at its new picture and drop the previous one. *)
Definition replaceProfilePicture s actorID media (clock : Clock) : Store :=
  let reference := mediaReferencePrefix +:+ uuid_String (MediaObject_ID media) in
  let user := user_or_zero s actorID in
  let oldID := profileMediaID (User_AvatarURL user) in
  let user := user <| User_AvatarURL := reference |>
    <| User_Profile := setProfileMediaReference (User_Profile user) reference |>
    <| User_UpdatedAt := MediaObject_UpdatedAt media |> in
  let s := s <| Store_users ::= <[actorID := user]> |> in
  if negb (bool_decide (oldID = uuid_Nil)) && negb (bool_decide (oldID = MediaObject_ID media)) then
    match Store_media s !! oldID with
    | Some old =>
      if bool_decide (MediaObject_OwnerID old = actorID)
         && bool_decide (MediaObject_Scope old = MediaScopeProfile)
         && negb (bool_decide (MediaObject_Status old = "deleted"))
      then
        let s := dropMedia s oldID old (MediaObject_UpdatedAt media) in
        appendMediaDeletesAt s actorID [MediaObject_ObjectKey old]
          (memoryMediaDeleteNotBefore (MediaObject_UploadValidUntil old) clock) (later 1 clock)
      else s
    | None => s
    end
  else s.

(** Readings: 0 lease, 1 expiry, 2 update, 3 and 4 staging deletion, 5 and 6 the old
    picture. *)
Definition MarkMediaReady s id actorID (leaseToken : UUID) (publishedObjectKey : string) (clock : Clock) :
    Store * res MediaObject :=
  match Validate publishedObjectKey with
  | Some _ => (s, Err ErrInvalid)
  | None =>
    match ownedMedia s id actorID with
    | Err e => (s, Err e)
    | Ok media =>
      if bool_decide (MediaObject_Status media = "ready") then (s, Ok media)
      else if negb (bool_decide (MediaObject_Status media = "pending"))
              || bool_decide (leaseToken = uuid_Nil) || negb (holdsLease media leaseToken (clock 0%nat))
      then (s, Err ErrConflict)
      else if mediaExpired media (clock 1%nat) then (s, Err ErrMediaExpired)
      else
        let stagingObjectKey := MediaObject_ObjectKey media in
        let media := media <| MediaObject_ObjectKey := publishedObjectKey |>
          <| MediaObject_Status := "ready" |> <| MediaObject_UpdatedAt := clock 2%nat |>
          <| MediaObject_ExpiresAt := None |> <| MediaObject_VerificationLeaseToken := None |>
          <| MediaObject_VerificationLockedUntil := None |> in
        let s := s <| Store_media ::= <[id := media]> |>
                   <| Store_mediaUploadCapabilities ::= delete id |> in
        let s := if negb (bool_decide (stagingObjectKey = publishedObjectKey))
          then appendExactMediaDeletesAt s actorID [stagingObjectKey]
                 (memoryMediaDeleteNotBefore (MediaObject_UploadValidUntil media) (later 3 clock))
                 (later 4 clock)
          else s in
        let s := if bool_decide (MediaObject_Scope media = MediaScopeProfile)
          then replaceProfilePicture s actorID media (later 5 clock) else s in
        (s, Ok media)
    end
  end.

Definition ReleaseMediaVerification s id actorID (leaseToken : UUID) (clock : Clock) : Store * res unit :=
  match ownedMedia s id actorID with
  | Err e => (s, Err e)
  | Ok media =>
    if negb (bool_decide (MediaObject_Status media = "pending")) || bool_decide (leaseToken = uuid_Nil)
       || negb (bool_decide (MediaObject_VerificationLeaseToken media = Some leaseToken))
    then (s, Err ErrConflict)
    else
      let media := media <| MediaObject_VerificationLeaseToken := None |>
        <| MediaObject_VerificationLockedUntil := None |> <| MediaObject_UpdatedAt := clock 0%nat |> in
      (s <| Store_media ::= <[id := media]> |>, Ok tt)
  end.

Definition rejectPendingMedia s id actorID (leaseToken : UUID) (clock : Clock) : Store * res MediaObject :=
  match ownedMedia s id actorID with
  | Err e => (s, Err e)
  | Ok media =>
    if negb (bool_decide (MediaObject_Status media = "pending")) then (s, Err ErrConflict)
    else if negb (bool_decide (leaseToken = uuid_Nil)) && negb (holdsLease media leaseToken (clock 0%nat))
    then (s, Err ErrConflict)
    else
      let deleteNotBefore := memoryMediaDeleteNotBefore (MediaObject_UploadValidUntil media) (later 2 clock) in
      let s := dropMedia s id media (clock 1%nat) in
      (appendMediaDeletesAt s actorID [MediaObject_ObjectKey media] deleteNotBefore (later 3 clock),
       Ok (deletedMedia media (clock 1%nat)))
  end.

Definition RejectMediaVerification s id actorID (leaseToken : UUID) (clock : Clock) :=
  rejectPendingMedia s id actorID leaseToken clock.

Definition RejectPendingMedia s id actorID (clock : Clock) :=
  rejectPendingMedia s id actorID uuid_Nil clock.

Definition DeleteMedia s id actorID (clock : Clock) : Store * res MediaObject :=
  match ownedMedia s id actorID with
  | Err e => (s, Err e)
  | Ok media =>
    let now := clock 0%nat in
    let deleteNotBefore := memoryMediaDeleteNotBefore (MediaObject_UploadValidUntil media) (later 1 clock) in
    let s := dropMedia s id media now in
    let s := if bool_decide (MediaObject_Scope media = MediaScopeProfile) then
        let user := user_or_zero s actorID in
        if bool_decide (profileMediaID (User_AvatarURL user) = id)
        then s <| Store_users ::= <[actorID := user <| User_AvatarURL := "" |>
                 <| User_Profile := setProfileMediaReference (User_Profile user) "" |>
                 <| User_UpdatedAt := now |>]> |>
        else s
      else s in
    (appendMediaDeletesAt s actorID [MediaObject_ObjectKey media] deleteNotBefore (later 2 clock),
     Ok (deletedMedia media now))
  end.

Definition expirable (cutoff : Z) (kv : UUID * MediaObject) : bool :=
  bool_decide (MediaObject_Status kv.2 = "pending")
  && match MediaObject_ExpiresAt kv.2 with Some t => negb (After t cutoff) | None => false end.

Definition by_object_key (x y : UUID * MediaObject) : Prop :=
  String.le (MediaObject_ObjectKey x.2) (MediaObject_ObjectKey y.2).
#[global] Instance by_object_key_dec : RelDecision by_object_key :=
  λ x y, decide (String.le (MediaObject_ObjectKey x.2) (MediaObject_ObjectKey y.2)).

Definition ExpirePendingMedia s (cutoff limit : Z) (clock : Clock) : Store * res Z :=
  if (limit <? 1)%Z || (Z.of_nat MediaDeleteBatchSize <? limit)%Z then (s, Err ErrInvalid)
  else
    let objects := take (Z.to_nat limit) (merge_sort by_object_key
      (List.filter (expirable cutoff) (range (Store_media s)))) in
    let s := foldl (λ s '(id, object), dropMedia s id object cutoff) s objects in
    let keys := MediaObject_ObjectKey <$> objects.*2 in
    let s := match keys with
      | [] => s
      | _ =>
        let deleteNotBefore := latestNotBefore (clock 0%nat + MediaDeleteGrace)%Z objects.*2 (later 1 clock) in
        appendMediaDeletesAt s uuid_Nil keys deleteNotBefore (later (1 + length objects) clock)
      end in
    (s, Ok (Z.of_nat (length keys))).
End media.
