(* ===== verification/MediaQuotas.v ===== *)
(** * Quotas of media reservations

    With fixed limits, no run of the media operations ever takes a user or a
    conversation over one of its quotas: neither the pending nor the stored objects,
    neither their number nor their bytes. *)

From Stdlib Require Import ZArith Lia.
From S2P Require Import Prelude.
From S2P Require Import Runtime.
From S2P Require Import Domain.
From S2P Require Import Compliance.
From S2P Require Import MediaKey.
From S2P Require Import StoreState.
From S2P Require Import Accounts.
From S2P Require Import Conversations.
From S2P Require Import Media.

(** ** Totals over a table *)
Section totals.
Context {K V : Type} `{Countable K}.
Implicit Types (f : V → Z) (m : gmap K V) (l : list V).

Definition total f l : Z := foldr (λ v acc, (f v + acc)%Z) 0%Z l.
Definition table_total f m : Z := total f (map_to_list m).*2.

#[export] Instance total_perm f : Proper ((≡ₚ) ==> (=)) (total f).
Proof. intros l l' Hl. induction Hl; simpl; lia. Qed.

Lemma total_nonneg f l : (∀ v, v ∈ l → 0 ≤ f v)%Z → (0 ≤ total f l)%Z.
Proof.
  induction l as [|v l IH]; simpl; intros Hf; [lia|].
  pose proof (Hf v ltac:(left)). assert (0 ≤ total f l)%Z; [|lia]. apply IH. intros x Hx. apply Hf. by right.
Qed.

Lemma table_total_insert f m k v :
  m !! k = None → table_total f (<[k := v]> m) = (f v + table_total f m)%Z.
Proof. intros Hk. unfold table_total. by rewrite map_to_list_insert. Qed.

Lemma table_total_delete f m k v :
  m !! k = Some v → table_total f m = (f v + table_total f (delete k m))%Z.
Proof.
  intros Hk. rewrite <- (table_total_insert f (delete k m) k v) by apply lookup_delete_eq.
  by rewrite insert_delete_id.
Qed.

(** What a slot contributes. *)
Definition slot f (ov : option V) : Z := match ov with Some v => f v | None => 0 end.

Lemma table_total_mono f m m' :
  (∀ k, 0 ≤ slot f (m !! k))%Z → (∀ k, slot f (m' !! k) ≤ slot f (m !! k))%Z →
  (table_total f m' ≤ table_total f m)%Z.
Proof.
  revert m. induction m' as [|k v m' Hk IH] using map_ind; intros m Hpos Hle.
  - unfold table_total at 1. rewrite map_to_list_empty. apply total_nonneg.
    intros v ([k v'] & -> & Hin%elem_of_map_to_list)%list_elem_of_fmap. specialize (Hpos k). by rewrite Hin in Hpos.
  - rewrite table_total_insert by done.
    assert (table_total f m' ≤ table_total f (delete k m))%Z as Hrest.
    { apply IH; intros i; destruct (decide (i = k)) as [->|Hne];
        rewrite ?lookup_delete_eq, ?lookup_delete_ne by done; simpl; [lia|apply Hpos|by rewrite Hk|].
      specialize (Hle i). by rewrite lookup_insert_ne in Hle. }
    specialize (Hle k). rewrite lookup_insert_eq in Hle. simpl in Hle.
    destruct (m !! k) as [w|] eqn:Hm; simpl in Hle.
    + rewrite (table_total_delete f m k w) by done. lia.
    + rewrite delete_id in Hrest by done. lia.
Qed.
End totals.

(** ** What counts against a quota *)
Section quotas.
Context `{GoRuntime}.
Implicit Types (s : Store) (v media : MediaObject) (L : MediaReservationLimits).

Definition stored v : bool := negb (bool_decide (MediaObject_Status v = "deleted")).
Definition pending v : bool := bool_decide (MediaObject_Status v = "pending").
Definition by_owner (u : UUID) v : bool := bool_decide (MediaObject_OwnerID v = u).
Definition in_conversation (c : UUID) v : bool :=
  bool_decide (MediaObject_Scope v = MediaScopeConversation)
  && bool_decide (MediaObject_ConversationID v = c).

(** One of the four quantities of a user or conversation: pending or all stored
    objects, their number or their bytes. *)
Definition weight (who : MediaObject → bool) (pendingOnly inBytes : bool) v : Z :=
  if stored v && who v && (negb pendingOnly || pending v)
  then (if inBytes then MediaObject_ByteSize v else 1) else 0.

Definition usage s (who : MediaObject → bool) (pendingOnly inBytes : bool) : Z :=
  table_total (weight who pendingOnly inBytes) (Store_media s).

Definition user_limit L (pendingOnly inBytes : bool) : Z :=
  match pendingOnly, inBytes with
  | true, false => MediaReservationLimits_MaxPendingCountPerUser L
  | true, true => MediaReservationLimits_MaxPendingBytesPerUser L
  | false, false => MediaReservationLimits_MaxStoredCountPerUser L
  | false, true => MediaReservationLimits_MaxStoredBytesPerUser L
  end.
Definition conversation_limit L (pendingOnly inBytes : bool) : Z :=
  match pendingOnly, inBytes with
  | true, false => MediaReservationLimits_MaxPendingCountConversation L
  | true, true => MediaReservationLimits_MaxPendingBytesConversation L
  | false, false => MediaReservationLimits_MaxStoredCountConversation L
  | false, true => MediaReservationLimits_MaxStoredBytesConversation L
  end.

Record quota_inv L s : Prop := {
  qi_size : ∀ id v, Store_media s !! id = Some v → (1 ≤ MediaObject_ByteSize v)%Z;
  qi_user : ∀ u p b, (usage s (by_owner u) p b ≤ user_limit L p b)%Z;
  qi_conversation : ∀ c p b, (usage s (in_conversation c) p b ≤ conversation_limit L p b)%Z;
}.

(** The limits fit: valid, and far enough from the edge of [int64]. *)
Record limits_ok L : Prop := {
  lo_valid : MediaReservationLimits_Validate L = None;
  lo_user : ∀ p b, (user_limit L p b < 2 ^ 62)%Z;
  lo_conversation : ∀ p b, (conversation_limit L p b < 2 ^ 62)%Z;
}.

Lemma limits_pos L p b : limits_ok L → (1 ≤ user_limit L p b)%Z ∧ (1 ≤ conversation_limit L p b)%Z.
Proof.
  intros [Hv _ _]. unfold MediaReservationLimits_Validate in Hv.
  destruct (_ || _) eqn:Hb; [done|]. bool_prop. destruct p, b; simpl; lia.
Qed.

Lemma weight_nonneg who p b v : (1 ≤ MediaObject_ByteSize v)%Z → (0 ≤ weight who p b v)%Z.
Proof. intros Hv. unfold weight. case_match; [case_match|]; lia. Qed.

(** ** Rows may only lose weight *)

Definition row_shrinks (v v' : MediaObject) : Prop :=
  MediaObject_OwnerID v' = MediaObject_OwnerID v ∧ MediaObject_Scope v' = MediaObject_Scope v ∧
  MediaObject_ConversationID v' = MediaObject_ConversationID v ∧
  MediaObject_ByteSize v' = MediaObject_ByteSize v ∧
  (stored v' = true → stored v = true) ∧ (pending v' = true → pending v = true).

Definition media_shrinks s s' : Prop :=
  ∀ id v', Store_media s' !! id = Some v' → ∃ v, Store_media s !! id = Some v ∧ row_shrinks v v'.

Definition who_ok (who : MediaObject → bool) : Prop :=
  ∀ v v', row_shrinks v v' → who v' = who v.

Lemma by_owner_ok u : who_ok (by_owner u).
Proof. intros v v' (Ho & _). unfold by_owner. by rewrite Ho. Qed.
Lemma in_conversation_ok c : who_ok (in_conversation c).
Proof. intros v v' (_ & Hs & Hc & _). unfold in_conversation. by rewrite Hs, Hc. Qed.

Lemma weight_shrinks who p b v v' :
  who_ok who → row_shrinks v v' → (1 ≤ MediaObject_ByteSize v)%Z → (weight who p b v' ≤ weight who p b v)%Z.
Proof.
  intros Hwho Hr Hv. unfold weight. rewrite (Hwho v v' Hr).
  destruct Hr as (_ & _ & _ & Hb & Hst & Hpe). rewrite Hb.
  destruct (stored v'), (stored v), (who v), p, (pending v'), (pending v), b; simpl in *;
    try lia; try (by specialize (Hst eq_refl)); by specialize (Hpe eq_refl).
Qed.

Lemma usage_shrinks L s s' who p b :
  quota_inv L s → media_shrinks s s' → who_ok who → (usage s' who p b ≤ usage s who p b)%Z.
Proof.
  intros Hs Hsh Hwho. apply table_total_mono; intros id.
  - destruct (Store_media s !! id) as [v|] eqn:Hv; simpl; [|lia]. by eapply weight_nonneg, qi_size.
  - destruct (Store_media s' !! id) as [v'|] eqn:Hv'; simpl.
    + destruct (Hsh id v' Hv') as (v & Hv & Hr). rewrite Hv. simpl.
      apply weight_shrinks; [done|done|]. by eapply qi_size.
    + destruct (Store_media s !! id) as [v|] eqn:Hv; simpl; [|lia]. by eapply weight_nonneg, qi_size.
Qed.

Lemma quota_shrinks L s s' : quota_inv L s → media_shrinks s s' → quota_inv L s'.
Proof.
  intros Hs Hsh. split.
  - intros id v' Hv'. destruct (Hsh id v' Hv') as (v & Hv & (_ & _ & _ & -> & _)). by eapply qi_size.
  - intros u p b. etrans; [eapply usage_shrinks; [done|done|apply by_owner_ok]|apply Hs].
  - intros c p b. etrans; [eapply usage_shrinks; [done|done|apply in_conversation_ok]|apply Hs].
Qed.

Lemma row_shrinks_refl v : row_shrinks v v.
Proof. by repeat split. Qed.

Lemma media_shrinks_refl s s' : Store_media s' = Store_media s → media_shrinks s s'.
Proof. intros Hm id v' Hv'. rewrite Hm in Hv'. exists v'. split; [done|]. apply row_shrinks_refl. Qed.

Lemma media_shrinks_insert s s' id v v' :
  Store_media s !! id = Some v → row_shrinks v v' →
  Store_media s' = <[id := v']> (Store_media s) → media_shrinks s s'.
Proof.
  intros Hv Hr Hm i w. rewrite Hm. intros [[<- <-]|[_ Hw]]%lookup_insert_Some; [by exists v|].
  exists w. split; [done|]. apply row_shrinks_refl.
Qed.

Lemma media_shrinks_trans s1 s2 s3 : media_shrinks s1 s2 → media_shrinks s2 s3 → media_shrinks s1 s3.
Proof.
  intros H1 H2 id v3 Hv3. destruct (H2 id v3 Hv3) as (v2 & Hv2 & Hr2).
  destruct (H1 id v2 Hv2) as (v1 & Hv1 & Hr1). exists v1. split; [done|].
  unfold row_shrinks in *. naive_solver congruence.
Qed.

(** ** A reservation *)

Lemma tally_sum media (proj : Tally → Z) (f : MediaObject → Z) t l :
  (∀ t v, proj (tallyMedia media t v) = int64_wrap (proj t + f v)
          ∨ proj (tallyMedia media t v) = proj t ∧ f v = 0%Z) →
  (∀ v, v ∈ l → 0 ≤ f v)%Z → (0 ≤ proj t)%Z → (proj t + total f l < 2 ^ 63)%Z →
  proj (foldl (tallyMedia media) t l) = (proj t + total f l)%Z.
Proof.
  intros Hstep. revert t. induction l as [|v l IH]; intros t Hf Ht Hmax; simpl in *; [lia|].
  pose proof (Hf v ltac:(left)) as Hv. assert (∀ w, w ∈ l → 0 ≤ f w)%Z as Hl.
  { intros w Hw. apply Hf. by right. }
  pose proof (total_nonneg f l Hl). assert (proj (tallyMedia media t v) = proj t + f v)%Z as Heq.
  { destruct (Hstep t v) as [->|[-> ->]]; [|lia]. apply int64_wrap_small. lia. }
  rewrite IH; [lia|done|lia|lia].
Qed.

Lemma tally_usage L s media (proj : Tally → Z) who p b limit :
  quota_inv L s → proj (mkTally 0 0 0 0 0 0 0 0) = 0%Z →
  (∀ t v, proj (tallyMedia media t v) = int64_wrap (proj t + weight who p b v)
          ∨ proj (tallyMedia media t v) = proj t ∧ weight who p b v = 0%Z) →
  (usage s who p b ≤ limit)%Z → (limit < 2 ^ 62)%Z →
  proj (tallyOf s media) = usage s who p b ∧ (0 ≤ usage s who p b)%Z.
Proof.
  intros Hs H0 Hstep Hle Hlim.
  assert (usage s who p b = total (weight who p b) (range (Store_media s)).*2) as Heq.
  { unfold usage, table_total. apply total_perm. by rewrite (range_perm (Store_media s)). }
  assert (∀ v, v ∈ (range (Store_media s)).*2 → 0 ≤ weight who p b v)%Z as Hpos.
  { intros v ([id v'] & -> & Hin%elem_of_range)%list_elem_of_fmap. by eapply weight_nonneg, qi_size. }
  unfold tallyOf. rewrite (tally_sum media proj (weight who p b)) by (done || lia).
  rewrite H0, <- Heq. split; [lia|]. rewrite Heq. by apply total_nonneg.
Qed.

(** Each counter of the tally is one usage. *)
Ltac tally_component :=
  intros t v; unfold weight, tallyMedia, stored, pending, by_owner, in_conversation;
  repeat case_bool_decide; simpl; auto.

Lemma tally_user L s media p b :
  quota_inv L s → limits_ok L →
  (match p, b with
   | true, false => Tally_userPendingCount | true, true => Tally_userPendingBytes
   | false, false => Tally_userStoredCount | false, true => Tally_userStoredBytes end)
    (tallyOf s media) = usage s (by_owner (MediaObject_OwnerID media)) p b ∧
  (0 ≤ usage s (by_owner (MediaObject_OwnerID media)) p b)%Z.
Proof.
  intros Hs HL.
  destruct p, b; (eapply tally_usage; [done|done| |apply Hs|apply HL]); tally_component.
Qed.

Lemma tally_conversation L s media p b :
  quota_inv L s → limits_ok L → MediaObject_Scope media = MediaScopeConversation →
  (match p, b with
   | true, false => Tally_conversationPendingCount | true, true => Tally_conversationPendingBytes
   | false, false => Tally_conversationStoredCount | false, true => Tally_conversationStoredBytes end)
    (tallyOf s media) = usage s (in_conversation (MediaObject_ConversationID media)) p b ∧
  (0 ≤ usage s (in_conversation (MediaObject_ConversationID media)) p b)%Z.
Proof.
  intros Hs HL Hscope.
  destruct p, b; (eapply tally_usage; [done|done| |apply Hs|apply HL]);
    tally_component; congruence.
Qed.

Lemma usage_insert s s' id v who p b :
  Store_media s !! id = None → Store_media s' = <[id := v]> (Store_media s) →
  usage s' who p b = (weight who p b v + usage s who p b)%Z.
Proof. intros Hid Hm. unfold usage. rewrite Hm. by apply table_total_insert. Qed.

Lemma weight_pending who p b v :
  MediaObject_Status v = "pending" →
  weight who p b v = if who v then (if b then MediaObject_ByteSize v else 1%Z) else 0%Z.
Proof.
  intros Hst. unfold weight, stored, pending. rewrite Hst. simpl. by destruct (who v), p.
Qed.

(** The comparison that let the reservation through, without wrap-around. *)
Ltac quota_bound Heq :=
  simpl in *;
  match type of Heq with ?c = _ =>
    match goal with Hq : (int64_wrap (c + _) ≤ _)%Z |- _ =>
      rewrite Heq in Hq; rewrite int64_wrap_small in Hq by lia; lia end end.

Lemma createMediaLocked_quota L s media clock :
  limits_ok L → quota_inv L s → quota_inv L (createMediaLocked s media L clock).1.
Proof.
  intros HL Hs. unfold createMediaLocked. destruct (_ || _) eqn:Hvalid; [exact Hs|].
  destruct (bool_decide (is_Some _)) eqn:Hid; [exact Hs|]. destruct (oversized media L) eqn:Hover; [exact Hs|].
  destruct (quotaExceeded media L (tallyOf s media)) eqn:Hquota; [exact Hs|]. bool_prop. cbn [fst].
  set (v := media <| MediaObject_CreatedAt := _ |> <| MediaObject_UpdatedAt := _ |>
    <| MediaObject_Status := _ |> <| MediaObject_ExpiresAt := _ |> <| MediaObject_UploadValidUntil := _ |>).
  match goal with |- quota_inv L ?S => set (s' := S) end.
  assert (Store_media s !! MediaObject_ID media = None) as Hnone by (by apply eq_None_not_Some).
  assert (Store_media s' = <[MediaObject_ID media := v]> (Store_media s)) as Hm by done.
  assert (∀ who p b, usage s' who p b
    = ((if who v then (if b then MediaObject_ByteSize media else 1) else 0) + usage s who p b)%Z) as Huse.
  { intros who p b. rewrite (usage_insert s s' _ v who p b Hnone Hm), weight_pending; done. }
  unfold oversized in Hover. apply orb_false_iff in Hover as [Hover Hoc]. bool_prop.
  unfold quotaExceeded in Hquota. apply orb_false_iff in Hquota as [Hqu Hqc]. bool_prop. split.
  - intros id w. rewrite Hm. intros [[_ <-]|[_ Hw]]%lookup_insert_Some; [done|by eapply qi_size].
  - intros u p b. rewrite Huse. destruct (by_owner u v) eqn:Hu; [|apply Hs].
    unfold by_owner in Hu. bool_prop. change (MediaObject_OwnerID v) with (MediaObject_OwnerID media) in Hu. subst u.
    destruct (tally_user L s media p b Hs HL) as [Heq Hpos].
    pose proof (qi_user L s Hs (MediaObject_OwnerID media) p b). pose proof (lo_user L HL p b).
    destruct p, b; quota_bound Heq.
  - intros c p b. rewrite Huse. destruct (in_conversation c v) eqn:Hc; [|apply Hs].
    unfold in_conversation in Hc. bool_prop.
    change (MediaObject_ConversationID v) with (MediaObject_ConversationID media) in *.
    change (MediaObject_Scope v) with (MediaObject_Scope media) in *. subst c.
    destruct (tally_conversation L s media p b Hs HL) as [Heq Hpos]; [done|].
    rewrite bool_decide_true in Hoc, Hqc by done. simpl in Hoc, Hqc. bool_prop.
    pose proof (qi_conversation L s Hs (MediaObject_ConversationID media) p b).
    pose proof (lo_conversation L HL p b).
    destruct p, b; quota_bound Heq.
Qed.
End quotas.
