(* ===== verification/MediaLifecycle.v ===== *)
(** * The life of a media object

    [media_row] lists everything a step can do to the row of one object; every
    operation of [Media], and the deletion of a conversation, does one of these.  From
    it follow the quotas along runs, the exclusiveness of the verification lease, and
    that no stored object disappears without its key being queued for deletion. *)

From Stdlib Require Import ZArith Lia.
From S2P Require Import Prelude.
From S2P Require Import Runtime.
From S2P Require Import Domain.
From S2P Require Import Compliance.
From S2P Require Import MediaKey.
From S2P Require Import StoreState.
From S2P Require Import Accounts.
From S2P Require Import Conversations.
From S2P Require Import Media.
From S2P Require Import MediaQuotas.

Section lifecycle.
Context `{GoRuntime}.
Implicit Types (s : Store) (v media : MediaObject) (id actorID : UUID) (L : MediaReservationLimits).

Inductive MediaOp :=
  | OpCreateMedia (media : MediaObject) (limits : MediaReservationLimits) (clock : Clock)
  | OpCreateProfileMedia (media : MediaObject) (limits : MediaReservationLimits) (clock : Clock)
  | OpPersistCapability (id actorID : UUID) (token : string)
  | OpClaimVerification (id actorID : UUID) (duration : Z) (token : UUID) (clock : Clock)
  | OpMarkReady (id actorID token : UUID) (key : string) (clock : Clock)
  | OpReleaseVerification (id actorID token : UUID) (clock : Clock)
  | OpReject (id actorID token : UUID) (clock : Clock)
  | OpDeleteMedia (id actorID : UUID) (clock : Clock)
  | OpExpirePending (cutoff limit : Z) (clock : Clock)
  | OpDropConversation (cid actorID : UUID) (clock : Clock).

Definition media_step s (op : MediaOp) : Store :=
  match op with
  | OpCreateMedia media limits clock => (CreateMedia s media limits clock).1
  | OpCreateProfileMedia media limits clock => (CreateProfileMedia s media limits clock).1
  | OpPersistCapability id actorID token => (PersistMediaUploadCapability s id actorID token).1
  | OpClaimVerification id actorID duration token clock =>
    (ClaimMediaVerification s id actorID duration token clock).1
  | OpMarkReady id actorID token key clock => (MarkMediaReady s id actorID token key clock).1
  | OpReleaseVerification id actorID token clock => (ReleaseMediaVerification s id actorID token clock).1
  | OpReject id actorID token clock => (rejectPendingMedia s id actorID token clock).1
  | OpDeleteMedia id actorID clock => (DeleteMedia s id actorID clock).1
  | OpExpirePending cutoff limit clock => (ExpirePendingMedia s cutoff limit clock).1
  | OpDropConversation cid actorID clock => (DeleteConversation s cid actorID clock).1
  end.

Definition op_creates (op : MediaOp) : bool :=
  match op with OpCreateMedia _ _ _ | OpCreateProfileMedia _ _ _ => true | _ => false end.

(** The lease token an operation presents, and the time at which it looks at leases. *)
Definition op_token (op : MediaOp) : option UUID :=
  match op with
  | OpMarkReady _ _ token _ _ | OpReleaseVerification _ _ token _ | OpReject _ _ token _ => Some token
  | _ => None
  end.
Definition op_time (op : MediaOp) : Z :=
  match op with
  | OpClaimVerification _ _ _ _ clock | OpMarkReady _ _ _ _ clock => clock 0%nat
  | _ => 0
  end.

(** The key of [v] is queued for deletion, not before its upload has run out. *)
Definition queued s v : Prop :=
  ∃ ev, ev ∈ Store_outbox s ∧ OutboxEvent_Topic ev = "media.delete" ∧ fresh_event ev ∧
    MediaObject_ObjectKey v ∈ event_keys ev ∧
    (MediaObject_UploadValidUntil v + MediaDeleteGrace ≤ OutboxEvent_AvailableAt ev)%Z.

(** What never changes while an object exists. *)
Definition same_object v v' : Prop :=
  MediaObject_ID v' = MediaObject_ID v ∧ MediaObject_OwnerID v' = MediaObject_OwnerID v ∧
  MediaObject_Scope v' = MediaObject_Scope v ∧
  MediaObject_ConversationID v' = MediaObject_ConversationID v ∧
  MediaObject_ByteSize v' = MediaObject_ByteSize v ∧
  MediaObject_UploadValidUntil v' = MediaObject_UploadValidUntil v.

Inductive media_row (cr : bool) (token : option UUID) (now : Z) s s' id : Prop :=
  | row_kept : Store_media s' !! id = Store_media s !! id → media_row cr token now s s' id
  | row_reserved v : cr = true → Store_media s !! id = None → Store_media s' !! id = Some v →
      MediaObject_Status v = "pending" → MediaObject_ID v = id →
      MediaObject_ExpiresAt v = Some (MediaObject_UploadValidUntil v) → media_row cr token now s s' id
  | row_leased v v' : Store_media s !! id = Some v → Store_media s' !! id = Some v' →
      same_object v v' → MediaObject_ObjectKey v' = MediaObject_ObjectKey v →
      MediaObject_Status v = "pending" → MediaObject_Status v' = "pending" →
      leaseRunning v now = false → media_row cr token now s s' id
  | row_unleased v v' : Store_media s !! id = Some v → Store_media s' !! id = Some v' →
      same_object v v' → MediaObject_ObjectKey v' = MediaObject_ObjectKey v →
      MediaObject_Status v = "pending" → MediaObject_Status v' = "pending" →
      is_Some token → MediaObject_VerificationLeaseToken v = token → media_row cr token now s s' id
  | row_published v v' t : Store_media s !! id = Some v → Store_media s' !! id = Some v' →
      same_object v v' → MediaObject_Status v = "pending" → MediaObject_Status v' = "ready" →
      token = Some t → holdsLease v t now = true →
      (MediaObject_ObjectKey v' ≠ MediaObject_ObjectKey v → queued s' v) → media_row cr token now s s' id
  | row_dropped v : Store_media s !! id = Some v → stored v = true →
      (Store_media s' !! id = None ∨ ∃ t, Store_media s' !! id = Some (deletedMedia v t)) →
      queued s' v → media_row cr token now s s' id
  | row_purged v : Store_media s !! id = Some v → stored v = false → Store_media s' !! id = None →
      media_row cr token now s s' id.

Definition keyed s : Prop := ∀ id v, Store_media s !! id = Some v → MediaObject_ID v = id.

(** ** Queueing *)

Lemma queued_grows s s' evs v : outbox_grows s s' evs → queued s v → queued s' v.
Proof.
  intros [n ->] (ev & Hin & Hrest). exists ev. split; [|done]. apply elem_of_app. by left.
Qed.

Lemma elem_of_event_keys agg keys notBefore evs k :
  media_delete_events agg keys notBefore evs → k ∈ keys →
  ∃ ev, ev ∈ evs ∧ OutboxEvent_Topic ev = "media.delete" ∧ fresh_event ev ∧ k ∈ event_keys ev ∧
    OutboxEvent_AvailableAt ev = notBefore.
Proof.
  intros [<- Hall] Hk. apply list_elem_of_join in Hk as (l & Hk & Hl).
  apply list_elem_of_fmap in Hl as (ev & -> & Hev). exists ev.
  rewrite Forall_forall in Hall. destruct (Hall ev Hev) as (Ht & _ & Ha & Hf & _). by split_and!.
Qed.

Lemma queued_append s agg keys notBefore clock v :
  MediaObject_ObjectKey v ∈ keys → (MediaObject_UploadValidUntil v + MediaDeleteGrace ≤ notBefore)%Z →
  queued (appendMediaDeletesAt s agg keys notBefore clock) v.
Proof.
  intros Hk Hle. destruct (appendMediaDeletesAt_grows s agg keys notBefore clock)
    as (evs & all & [n ->] & Hev & _ & Hall).
  destruct (elem_of_event_keys _ _ _ _ (MediaObject_ObjectKey v) Hev) as (ev & Hin & Ht & Hf & Hke & Ha).
  { apply Hall. exists (MediaObject_ObjectKey v). split; [done|]. apply elem_of_expand_key. }
  exists ev. split_and!; [apply elem_of_app; by right|done|done|done|lia].
Qed.

Lemma queued_append_exact s agg keys notBefore clock v :
  MediaObject_ObjectKey v ∈ keys → (MediaObject_UploadValidUntil v + MediaDeleteGrace ≤ notBefore)%Z →
  queued (appendExactMediaDeletesAt s agg keys notBefore clock) v.
Proof.
  intros Hk Hle. destruct (appendExactMediaDeletesAt_grows s agg keys notBefore clock)
    as (evs & [n ->] & Hev).
  destruct (elem_of_event_keys _ _ _ _ (MediaObject_ObjectKey v) Hev Hk) as (ev & Hin & Ht & Hf & Hke & Ha).
  exists ev. split_and!; [apply elem_of_app; by right|done|done|done|lia].
Qed.

Lemma appendMediaDeletesAt_media s agg keys notBefore clock :
  Store_media (appendMediaDeletesAt s agg keys notBefore clock) = Store_media s.
Proof. by destruct (appendMediaDeletesAt_grows s agg keys notBefore clock) as (? & ? & [n ->] & _). Qed.

Lemma appendExactMediaDeletesAt_media s agg keys notBefore clock :
  Store_media (appendExactMediaDeletesAt s agg keys notBefore clock) = Store_media s.
Proof. by destruct (appendExactMediaDeletesAt_grows s agg keys notBefore clock) as (? & [n ->] & _). Qed.

Lemma queued_append_kept s agg keys notBefore clock v :
  queued s v → queued (appendMediaDeletesAt s agg keys notBefore clock) v.
Proof.
  destruct (appendMediaDeletesAt_grows s agg keys notBefore clock) as (evs & all & Hg & _).
  by apply (queued_grows s _ evs).
Qed.

(** ** The operations *)

Lemma ownedMedia_ok s id actorID v :
  ownedMedia s id actorID = Ok v →
  Store_media s !! id = Some v ∧ stored v = true ∧ MediaObject_OwnerID v = actorID.
Proof.
  unfold ownedMedia, stored. destruct (Store_media s !! id) as [w|]; [|done].
  intros Ho. op_cases Ho. split_and!; [done|by rewrite bool_decide_false|done].
Qed.

(** A step that writes the row [id0] only. *)
Lemma row_write cr token now s s' id0 w id :
  Store_media s' = <[id0 := w]> (Store_media s) →
  (Store_media s' !! id0 = Some w → media_row cr token now s s' id0) → media_row cr token now s s' id.
Proof.
  intros Hm Hrow. destruct (decide (id = id0)) as [->|Hne].
  - apply Hrow. by rewrite Hm, lookup_insert_eq.
  - apply row_kept. by rewrite Hm, lookup_insert_ne.
Qed.

Lemma row_same cr token now s s' id : Store_media s' = Store_media s → media_row cr token now s s' id.
Proof. intros Hm. apply row_kept. by rewrite Hm. Qed.

Lemma createMediaLocked_row token now s media limits clock id :
  media_row true token now s (createMediaLocked s media limits clock).1 id.
Proof.
  unfold createMediaLocked. destruct (_ || _); [by apply row_same|].
  destruct (bool_decide (is_Some _)) eqn:Hex; [by apply row_same|].
  destruct (oversized _ _); [by apply row_same|]. destruct (quotaExceeded _ _ _); [by apply row_same|].
  bool_prop. cbn [fst]. eapply row_write; [reflexivity|]. intros Hrow.
  eapply row_reserved; [done|by apply eq_None_not_Some|exact Hrow|done|done|done].
Qed.

Lemma claim_row cr s id0 actorID duration token clock id :
  media_row cr None (clock 0%nat) s (ClaimMediaVerification s id0 actorID duration token clock).1 id.
Proof.
  unfold ClaimMediaVerification. destruct (_ || _); [by apply row_same|].
  destruct (ownedMedia s id0 actorID) as [v|] eqn:Ho; [|by apply row_same].
  apply ownedMedia_ok in Ho as (Hv & _ & _).
  destruct (bool_decide _); [by apply row_same|].
  destruct (negb _) eqn:Hp; [by apply row_same|]. cbv zeta.
  destruct (mediaExpired _ _); [by apply row_same|].
  destruct (leaseRunning v (clock 0%nat)) eqn:Hl; [by apply row_same|]. bool_prop.
  cbn [fst]. eapply row_write; [reflexivity|]. intros Hrow.
  by eapply (row_leased _ _ _ _ _ _ v); [exact Hv|exact Hrow|repeat split|..].
Qed.

Lemma release_row cr s id0 actorID token clock now id :
  media_row cr (Some token) now s (ReleaseMediaVerification s id0 actorID token clock).1 id.
Proof.
  unfold ReleaseMediaVerification.
  destruct (ownedMedia s id0 actorID) as [v|] eqn:Ho; [|by apply row_same].
  apply ownedMedia_ok in Ho as (Hv & _ & _). destruct (_ || _) eqn:Hc; [by apply row_same|].
  bool_prop. cbn [fst]. eapply row_write; [reflexivity|]. intros Hrow.
  by eapply (row_unleased _ _ _ _ _ _ v); [exact Hv|exact Hrow|repeat split|..].
Qed.

Lemma dropMedia_row cr token now s s' id0 v updatedAt id :
  Store_media s !! id0 = Some v → stored v = true →
  Store_media s' = <[id0 := deletedMedia v updatedAt]> (Store_media s) → queued s' v →
  media_row cr token now s s' id.
Proof.
  intros Hv Hst Hm Hq. eapply row_write; [exact Hm|]. intros Hrow.
  eapply (row_dropped _ _ _ _ _ _ v); [done|done|right; by eexists|done].
Qed.

Lemma reject_row cr s id0 actorID token clock now id :
  media_row cr (Some token) now s (rejectPendingMedia s id0 actorID token clock).1 id.
Proof.
  unfold rejectPendingMedia.
  destruct (ownedMedia s id0 actorID) as [v|] eqn:Ho; [|by apply row_same].
  apply ownedMedia_ok in Ho as (Hv & Hst & _). destruct (negb _); [by apply row_same|].
  destruct (_ && _); [by apply row_same|]. cbv zeta. cbn [fst].
  eapply (dropMedia_row _ _ _ _ _ id0 v (clock 1%nat)); [done|done| |].
  - by rewrite appendMediaDeletesAt_media.
  - apply queued_append; [left|]. apply memoryMediaDeleteNotBefore_bounds.
Qed.

Lemma delete_row cr s id0 actorID clock token now id :
  media_row cr token now s (DeleteMedia s id0 actorID clock).1 id.
Proof.
  unfold DeleteMedia. destruct (ownedMedia s id0 actorID) as [v|] eqn:Ho; [|by apply row_same].
  apply ownedMedia_ok in Ho as (Hv & Hst & _). cbv zeta. cbn [fst].
  eapply (dropMedia_row _ _ _ _ _ id0 v (clock 0%nat)); [done|done| |].
  - rewrite appendMediaDeletesAt_media. by repeat case_bool_decide.
  - apply queued_append; [left|]. apply memoryMediaDeleteNotBefore_bounds.
Qed.

Lemma latestNotBefore_bounds notBefore objects clock :
  (notBefore ≤ latestNotBefore notBefore objects clock)%Z ∧
  ∀ o, o ∈ objects →
    (MediaObject_UploadValidUntil o + MediaDeleteGrace ≤ latestNotBefore notBefore objects clock)%Z.
Proof.
  revert notBefore clock. induction objects as [|o objects IH]; intros notBefore clock; cbn [latestNotBefore].
  { split; [lia|]. by intros o ?%not_elem_of_nil. }
  pose proof (memoryMediaDeleteNotBefore_bounds (MediaObject_UploadValidUntil o) clock) as [Hb _].
  cbv zeta. set (candidate := memoryMediaDeleteNotBefore _ _) in *.
  set (next := if After candidate notBefore then candidate else notBefore).
  assert (candidate ≤ next ∧ notBefore ≤ next)%Z as [Hc Hn].
  { unfold next. destruct (After candidate notBefore) eqn:Ha; bool_prop; lia. }
  destruct (IH next (later 1 clock)) as [Hle Hall]. split; [lia|].
  intros x [->|Hx]%elem_of_cons; [lia|by apply Hall].
Qed.

(** A batch of drops. *)
Definition drop_all s (objects : list (UUID * MediaObject)) (updatedAt : Z) : Store :=
  foldl (λ s '(id, object), dropMedia s id object updatedAt) s objects.

Lemma drop_all_media s objects updatedAt id :
  NoDup objects.*1 →
  (∀ v, (id, v) ∈ objects →
     Store_media (drop_all s objects updatedAt) !! id = Some (deletedMedia v updatedAt)) ∧
  (id ∉ objects.*1 → Store_media (drop_all s objects updatedAt) !! id = Store_media s !! id).
Proof.
  revert s. induction objects as [|[i o] objects IH]; intros s Hnd.
  { split; [by intros v ?%not_elem_of_nil|done]. }
  rewrite fmap_cons, NoDup_cons in Hnd. destruct Hnd as [Hi Hnd].
  change (drop_all s ((i, o) :: objects) updatedAt) with (drop_all (dropMedia s i o updatedAt) objects updatedAt).
  destruct (IH (dropMedia s i o updatedAt) Hnd) as [IH1 IH2]. split.
  - intros v [[= -> ->]|Hv]%elem_of_cons; [|by apply IH1].
    rewrite IH2 by done. apply lookup_insert_eq.
  - rewrite fmap_cons, not_elem_of_cons. intros [Hne Hn]. rewrite IH2 by done. by apply lookup_insert_ne.
Qed.

Lemma expire_row cr token now s cutoff limit clock id :
  media_row cr token now s (ExpirePendingMedia s cutoff limit clock).1 id.
Proof.
  unfold ExpirePendingMedia. destruct (_ || _); [by apply row_same|]. cbv zeta. cbn [fst].
  set (objects := take _ _). fold (drop_all s objects cutoff).
  assert (∀ kv, kv ∈ objects → Store_media s !! kv.1 = Some kv.2 ∧ stored kv.2 = true) as Hobj.
  { intros [i o] Hin. apply elem_of_take in Hin as (j & Hin & _). apply list_elem_of_lookup_2 in Hin.
    rewrite merge_sort_Permutation, elem_of_bool_filter, elem_of_range in Hin.
    destruct Hin as [Hm He]. split; [done|]. unfold expirable in He. bool_prop. unfold stored.
    simpl in *. rewrite bool_decide_false; [done|]. congruence. }
  assert (NoDup objects.*1) as Hnd.
  { unfold objects. rewrite fmap_take. eapply sublist_NoDup; [|apply sublist_take].
    rewrite merge_sort_Permutation. apply NoDup_fmap_filter, NoDup_fst_range. }
  destruct (drop_all_media s objects cutoff id Hnd) as [Hin Hout].
  set (keys := MediaObject_ObjectKey <$> objects.*2).
  match goal with |- context [appendMediaDeletesAt ?a ?b ?c ?d ?e] =>
    set (s' := appendMediaDeletesAt a b c d e) end.
  destruct (decide (id ∈ objects.*1)) as [Hid|Hid].
  - apply list_elem_of_fmap in Hid as ([i v] & -> & Hv). destruct (Hobj (i, v) Hv) as [Hm Hst].
    assert (MediaObject_ObjectKey v ∈ keys) as Hk.
    { unfold keys. apply list_elem_of_fmap. exists v. split; [done|]. by apply (list_elem_of_fmap_2 snd _ (i, v)). }
    destruct keys as [|k0 keys0]; [by apply not_elem_of_nil in Hk|].
    eapply (row_dropped _ _ _ _ _ _ v); [done|done|right; exists cutoff|].
    + unfold s'. rewrite appendMediaDeletesAt_media. by apply Hin.
    + apply queued_append; [done|]. apply latestNotBefore_bounds.
      by apply (list_elem_of_fmap_2 snd _ (i, v)).
  - apply row_kept. destruct keys as [|k0 keys0]; [by apply Hout|].
    unfold s'. rewrite appendMediaDeletesAt_media. by apply Hout.
Qed.

Lemma replaceProfilePicture_rows s actorID media clock :
  let s' := replaceProfilePicture s actorID media clock in
  (∀ v, queued s v → queued s' v) ∧
  (Store_media s' = Store_media s ∨
   ∃ oldID old t, oldID ≠ MediaObject_ID media ∧ Store_media s !! oldID = Some old ∧ stored old = true ∧
     Store_media s' = <[oldID := deletedMedia old t]> (Store_media s) ∧ queued s' old).
Proof.
  unfold replaceProfilePicture. cbv zeta. set (s1 := s <| Store_users ::= _ |>).
  assert (∀ v, queued s v → queued s1 v) as H1 by (by intros v).
  assert (Store_media s1 = Store_media s) as Hm1 by done.
  destruct (_ && _) eqn:Hid; [|split; [exact H1|by left]]. bool_prop.
  destruct (Store_media s1 !! _) as [old|] eqn:Hold; [|split; [exact H1|by left]].
  destruct (_ && _) eqn:Hmine; [|split; [exact H1|by left]]. bool_prop. split.
  - intros v Hv. apply queued_append_kept. apply H1 in Hv as (ev & Hev & Hrest). by exists ev.
  - right. eexists _, old, _. split_and!; [done|by rewrite <- Hm1| | |].
    + unfold stored. by rewrite bool_decide_false.
    + rewrite appendMediaDeletesAt_media. reflexivity.
    + apply queued_append; [left|]. apply memoryMediaDeleteNotBefore_bounds.
Qed.

Lemma publish_rows cr token s s1 id0 v v' actorID clock id :
  keyed s → Store_media s !! id0 = Some v → same_object v v' →
  MediaObject_Status v = "pending" → MediaObject_Status v' = "ready" →
  holdsLease v token (clock 0%nat) = true →
  Store_media s1 = <[id0 := v']> (Store_media s) →
  (MediaObject_ObjectKey v' ≠ MediaObject_ObjectKey v → queued s1 v) →
  media_row cr (Some token) (clock 0%nat) s
    (if bool_decide (MediaObject_Scope v' = MediaScopeProfile)
     then replaceProfilePicture s1 actorID v' (later 5 clock) else s1) id.
Proof.
  intros Hkey Hv Hsame Hp Hr Hl Hm Hq.
  assert (∀ s2, Store_media s2 !! id0 = Some v' → (∀ x, queued s1 x → queued s2 x) →
    media_row cr (Some token) (clock 0%nat) s s2 id0) as Hpub.
  { intros s2 Hs2 Hq2. eapply (row_published _ _ _ _ _ _ v v' token); try done. auto. }
  case_bool_decide.
  2: { eapply row_write; [exact Hm|]. intros Hrow. by apply Hpub. }
  destruct (replaceProfilePicture_rows s1 actorID v' (later 5 clock)) as [Hq1 Hrows].
  set (s2 := replaceProfilePicture s1 actorID v' (later 5 clock)) in *.
  destruct Hrows as [Hm2|(oldID & old & t & Hne & Hold & Hst & Hm2 & Hqold)].
  { rewrite Hm in Hm2. eapply row_write; [exact Hm2|]. intros Hrow. by apply Hpub. }
  assert (oldID ≠ id0) as Hne'.
  { destruct Hsame as [Hid _]. rewrite (Hkey id0 v Hv) in Hid. congruence. }
  rewrite Hm, lookup_insert_ne in Hold by done.
  destruct (decide (id = oldID)) as [->|Hn1]; [|destruct (decide (id = id0)) as [->|Hn2]].
  - eapply (row_dropped _ _ _ _ _ _ old); [done|done|right; exists t|done]. by rewrite Hm2, lookup_insert_eq.
  - apply Hpub; [|done]. by rewrite Hm2, lookup_insert_ne, Hm, lookup_insert_eq.
  - apply row_kept. by rewrite Hm2, lookup_insert_ne, Hm, lookup_insert_ne.
Qed.

Lemma ready_row cr s id0 actorID token key clock id :
  keyed s → media_row cr (Some token) (clock 0%nat) s (MarkMediaReady s id0 actorID token key clock).1 id.
Proof.
  intros Hkey. unfold MarkMediaReady. destruct (Validate key); [by apply row_same|].
  destruct (ownedMedia s id0 actorID) as [v|] eqn:Ho; [|by apply row_same].
  apply ownedMedia_ok in Ho as (Hv & _ & _). destruct (bool_decide _); [by apply row_same|].
  destruct (_ || _) eqn:Hc; [by apply row_same|]. destruct (mediaExpired _ _); [by apply row_same|].
  bool_prop. cbv zeta. cbn [fst].
  match goal with |- context [<[id0 := ?w]>] => set (v' := w) end.
  eapply (publish_rows cr token s _ id0 v v'); try done.
  - destruct (negb _); [by rewrite appendExactMediaDeletesAt_media|done].
  - intros Hne. rewrite bool_decide_false by (by apply not_eq_sym). simpl.
    apply queued_append_exact; [left|]. apply memoryMediaDeleteNotBefore_bounds.
Qed.

Lemma appendMediaDeleteBatches_queued fuel s cid keys notBefore clock :
  length keys ≤ fuel →
  let s' := appendMediaDeleteBatches fuel s cid keys notBefore clock in
  Store_media s' = Store_media s ∧ (∀ v, queued s v → queued s' v) ∧
  (∀ v, MediaObject_ObjectKey v ∈ keys →
     (MediaObject_UploadValidUntil v + MediaDeleteGrace ≤ notBefore)%Z → queued s' v).
Proof.
  revert s keys clock. induction fuel as [|fuel IH]; intros s keys clock Hlen.
  - destruct keys; simpl in Hlen; [|lia]. split_and!; [done|done|]. by intros v ?%not_elem_of_nil.
  - destruct keys as [|k keys]; [split_and!; [done|done|]; by intros v ?%not_elem_of_nil|].
    cbn [appendMediaDeleteBatches].
    set (s1 := appendMediaDeletesAt s cid (take MediaDeleteBatchSize (k :: keys)) notBefore clock).
    destruct (IH s1 (drop MediaDeleteBatchSize (k :: keys)) (later 2 clock)) as (Hm & Hkeep & Hnew).
    { rewrite length_drop. cbn [length] in *. unfold MediaDeleteBatchSize. lia. }
    split_and!.
    + rewrite Hm. unfold s1. apply appendMediaDeletesAt_media.
    + intros v Hv. by apply Hkeep, queued_append_kept.
    + intros v Hv Hle. rewrite <- (take_drop MediaDeleteBatchSize (k :: keys)) in Hv.
      apply elem_of_app in Hv as [Hv|Hv]; [by apply Hkeep, queued_append|by apply Hnew].
Qed.

Lemma drop_conversation_row cr token now s cid actorID clock id :
  media_row cr token now s (DeleteConversation s cid actorID clock).1 id.
Proof.
  unfold DeleteConversation. destruct (Store_conversations s !! cid) as [c|]; [|by apply row_same].
  destruct (_ || _); [by apply row_same|]. cbv zeta. cbn [fst].
  set (objects := conversationMedia s cid). set (keys := merge_sort String.le _).
  match goal with |- context [appendMediaDeleteBatches ?f ?s1 ?c ?k ?n ?cl] =>
    destruct (appendMediaDeleteBatches_queued f s1 c k n cl) as (Hm & _ & Hq); [done|];
    set (s' := appendMediaDeleteBatches f s1 c k n cl) in * end.
  assert (Store_media s' = delete_all objects.*1 (Store_media s)) as Hm' by exact Hm.
  clear Hm. destruct (decide (id ∈ objects.*1)) as [Hin|Hout].
  - assert (Store_media s' !! id = None) as Hnone by (by rewrite Hm', lookup_delete_all, decide_True).
    apply list_elem_of_fmap in Hin as ([i v] & -> & Hin). simpl in *.
    pose proof Hin as Hv. unfold objects, conversationMedia in Hv.
    rewrite elem_of_bool_filter, elem_of_range in Hv. destruct Hv as [Hv _].
    destruct (stored v) eqn:Hst; [|by eapply row_purged].
    eapply (row_dropped _ _ _ _ _ _ v); [done|done|by left|]. apply Hq.
    + unfold keys. rewrite merge_sort_Permutation. apply list_elem_of_fmap. exists v.
      split; [done|]. by apply (list_elem_of_fmap_2 snd _ (i, v)).
    + apply latestNotBefore_bounds. by apply (list_elem_of_fmap_2 snd _ (i, v)).
  - apply row_kept. by rewrite Hm', lookup_delete_all, decide_False.
Qed.

Lemma media_step_row s op id :
  keyed s → media_row (op_creates op) (op_token op) (op_time op) s (media_step s op) id.
Proof.
  intros Hkey. destruct op; cbn [media_step op_creates op_token op_time].
  - unfold CreateMedia. destruct (MediaReservationLimits_Validate _); [by apply row_same|].
    destruct (negb _); [by apply row_same|apply createMediaLocked_row].
  - unfold CreateProfileMedia. destruct (MediaReservationLimits_Validate _); [by apply row_same|].
    destruct (live_user _ _); [apply createMediaLocked_row|by apply row_same].
  - apply row_same. unfold PersistMediaUploadCapability. cbv zeta. by repeat case_match.
  - apply claim_row.
  - by apply ready_row.
  - apply release_row.
  - apply reject_row.
  - apply delete_row.
  - apply expire_row.
  - apply drop_conversation_row.
Qed.

Lemma media_step_keyed s op : keyed s → keyed (media_step s op).
Proof.
  intros Hkey id w Hw. destruct (media_step_row s op id Hkey)
    as [Heq|v _ _ Hv _ Hid _|v v' Hv Hv' [Hid _] _ _ _ _|v v' Hv Hv' [Hid _] _ _ _ _ _
       |v v' t Hv Hv' [Hid _] _ _ _ _ _|v Hv _ [Hn|[t Ht]] _|v _ _ Hn]; simplify_eq.
  all: first [by rewrite Heq in Hw; apply Hkey | by rewrite Hid; apply Hkey | by apply (Hkey _ v) | done].
Qed.
End lifecycle.

(** ** Runs *)
Section runs.
Context `{GoRuntime}.
Implicit Types (s : Store) (v media : MediaObject) (id actorID : UUID) (L : MediaReservationLimits).

(** Reservations are made under the limits [L]. *)
Definition op_limits (L : MediaReservationLimits) (op : MediaOp) : Prop :=
  match op with
  | OpCreateMedia _ limits _ | OpCreateProfileMedia _ limits _ => limits = L
  | _ => True
  end.

(** Steps elsewhere leave the media table alone. *)
Inductive media_reachable L : Store → Prop :=
  | media_reach_new s : Store_media s = ∅ → media_reachable L s
  | media_reach_op s op : media_reachable L s → op_limits L op → media_reachable L (media_step s op)
  | media_reach_other s s' : media_reachable L s → Store_media s' = Store_media s → media_reachable L s'.

Lemma media_step_shrinks s op : keyed s → op_creates op = false → media_shrinks s (media_step s op).
Proof.
  intros Hkey Hcr id w Hw. destruct (media_step_row s op id Hkey)
    as [Heq|v Hc _ _ _ _ _|v v' Hv Hv' Hsame _ Hst Hst' _|v v' Hv Hv' Hsame _ Hst Hst' _ _
       |v v' t Hv Hv' Hsame Hst Hst' _ _ _|v Hv Hst [Hn|[t Ht]] _|v _ _ Hn]; try congruence.
  - rewrite Heq in Hw. exists w. split; [done|]. apply row_shrinks_refl.
  - assert (v' = w) as -> by congruence. exists v. split; [done|].
    destruct Hsame as (_ & Ho & Hsc & Hc & Hb & _). unfold row_shrinks, stored, pending.
    by rewrite Hst, Hst'.
  - assert (v' = w) as -> by congruence. exists v. split; [done|].
    destruct Hsame as (_ & Ho & Hsc & Hc & Hb & _). unfold row_shrinks, stored, pending.
    by rewrite Hst, Hst'.
  - assert (v' = w) as -> by congruence. exists v. split; [done|].
    destruct Hsame as (_ & Ho & Hsc & Hc & Hb & _). unfold row_shrinks, stored, pending.
    by rewrite Hst, Hst'.
  - assert (deletedMedia v t = w) as <- by congruence. exists v. split; [done|]. by repeat split.
Qed.

Lemma media_step_quota L s op :
  limits_ok L → op_limits L op → keyed s → quota_inv L s → quota_inv L (media_step s op).
Proof.
  intros HL Hop Hkey Hs. destruct (op_creates op) eqn:Hcr;
    [|eapply quota_shrinks; [done|by apply media_step_shrinks]].
  destruct op; try done; cbn in Hop |- *; subst.
  - unfold CreateMedia. rewrite (lo_valid L HL). destruct (negb _); [done|]. by apply createMediaLocked_quota.
  - unfold CreateProfileMedia. rewrite (lo_valid L HL). destruct (live_user _ _); [|done].
    by apply createMediaLocked_quota.
Qed.

Lemma quota_inv_empty L s : limits_ok L → Store_media s = ∅ → quota_inv L s.
Proof.
  intros HL Hm. split.
  - intros id v. by rewrite Hm, lookup_empty.
  - intros u p b. destruct (limits_pos L p b HL). unfold usage, table_total.
    rewrite Hm, map_to_list_empty. simpl. lia.
  - intros c p b. destruct (limits_pos L p b HL). unfold usage, table_total.
    rewrite Hm, map_to_list_empty. simpl. lia.
Qed.

Lemma media_reachable_inv L s : limits_ok L → media_reachable L s → keyed s ∧ quota_inv L s.
Proof.
  intros HL. induction 1 as [s Hm|s op _ [IHk IHq] Hop|s s' _ [IHk IHq] Hm].
  - split; [|by apply quota_inv_empty]. intros id v. by rewrite Hm, lookup_empty.
  - split; [by apply media_step_keyed|by apply media_step_quota].
  - split; [intros id v; rewrite Hm; apply IHk|]. eapply quota_shrinks; [done|by apply media_shrinks_refl].
Qed.

(** C35. Media quotas hold: under valid limits below 2^62, whatever uploads are
    reserved, verified, rejected, expired or deleted, no user and no conversation ever
    has more pending or stored objects, or more pending or stored bytes, than its
    limit. *)
Theorem media_quotas_hold L s :
  limits_ok L → media_reachable L s →
  (∀ u pendingOnly inBytes, usage s (by_owner u) pendingOnly inBytes ≤ user_limit L pendingOnly inBytes)%Z ∧
  (∀ c pendingOnly inBytes,
     usage s (in_conversation c) pendingOnly inBytes ≤ conversation_limit L pendingOnly inBytes)%Z.
Proof. intros HL Hr. destruct (media_reachable_inv L s HL Hr) as [_ [_ Hu Hc]]. by split. Qed.

(** The row is marked deleted or absent. *)
Definition gone s id : Prop :=
  match Store_media s !! id with Some v => stored v = false | None => True end.

(** C36. No stored object is forgotten.  Whenever a step of any media operation, or
    the deletion of a conversation, removes an object or marks it deleted, the new
    outbox holds a fresh [media.delete] event that names the object's key, to be
    carried out no earlier than three minutes after the upload capability has run
    out; and publishing under another key queues the staging key in the same way. *)
Theorem media_never_orphaned L s op id v :
  limits_ok L → media_reachable L s → Store_media s !! id = Some v → stored v = true →
  (∀ v', Store_media (media_step s op) !! id = Some v' → stored v' = true →
     same_object v v' ∧ (MediaObject_ObjectKey v' ≠ MediaObject_ObjectKey v → queued (media_step s op) v)) ∧
  (gone (media_step s op) id → queued (media_step s op) v).
Proof.
  intros HL Hr Hv Hst. destruct (media_reachable_inv L s HL Hr) as [Hkey _]. unfold gone.
  destruct (media_step_row s op id Hkey)
    as [Heq|w _ Hn _ _ _ _|w v' Hw Hv' Hsame Hk Hp Hp' _|w v' Hw Hv' Hsame Hk Hp Hp' _ _
       |w v' t Hw Hv' Hsame Hp Hp' _ _ Hq|w Hw _ Hgone Hq|w Hw Hns _]; try congruence.
  - rewrite Heq, Hv. split; [|congruence]. intros v' [= <-] _. by repeat split.
  - assert (w = v) as -> by congruence. rewrite Hv'. split; [|unfold stored; by rewrite Hp'].
    by intros x [= <-] _.
  - assert (w = v) as -> by congruence. rewrite Hv'. split; [|unfold stored; by rewrite Hp'].
    by intros x [= <-] _.
  - assert (w = v) as -> by congruence. rewrite Hv'. split; [|unfold stored; by rewrite Hp'].
    by intros x [= <-] _.
  - assert (w = v) as -> by congruence. split; [|done].
    destruct Hgone as [->|[t ->]]; [done|]. by intros x [= <-].
Qed.

(** ** The verification lease *)

Definition leased v (t : UUID) (T : Z) : Prop :=
  MediaObject_Status v = "pending" ∧ MediaObject_VerificationLeaseToken v = Some t ∧
  MediaObject_VerificationLockedUntil v = Some T.

(** Steps of parties that do not present the token [t], before [T]. *)
Inductive foreign_media (t : UUID) (T : Z) s : Store → Prop :=
  | foreign_op op : op_token op ≠ Some t → (op_time op < T)%Z → foreign_media t T s (media_step s op)
  | foreign_other s' : Store_media s' = Store_media s → foreign_media t T s s'.

Lemma foreign_keyed t T s s' : foreign_media t T s s' → keyed s → keyed s'.
Proof.
  intros [op _ _|s'' Hm] Hkey; [by apply media_step_keyed|]. intros id v. rewrite Hm. apply Hkey.
Qed.

Lemma leased_running v t T now : leased v t T → (now < T)%Z → leaseRunning v now = true.
Proof. intros (_ & Ht & HT) Hn. unfold leaseRunning. rewrite Ht, HT. by apply After_spec. Qed.

Lemma lease_step t T s s' id v :
  foreign_media t T s s' → keyed s → Store_media s !! id = Some v → leased v t T →
  Store_media s' !! id = Some v ∨ gone s' id.
Proof.
  intros [op Htok Htime|s'' Hm] Hkey Hv Hl; [|left; by rewrite Hm].
  pose proof (leased_running v t T _ Hl Htime) as Hrun. destruct Hl as (Hst & Ht & HT). unfold gone.
  destruct (media_step_row s op id Hkey)
    as [Heq|w _ Hn _ _ _ _|w v' Hw Hv' _ _ _ _ Hno|w v' Hw Hv' _ _ _ _ _ Hsame
       |w v' t' Hw Hv' _ _ _ Htk Hh _|w Hw _ [->|[t' ->]] _|w _ _ ->]; try congruence; auto.
  - left. congruence.
  - assert (w = v) as -> by congruence. unfold holdsLease in Hh. bool_prop. congruence.
Qed.

Lemma lease_run t T s s' id v :
  rtc (foreign_media t T) s s' → keyed s → Store_media s !! id = Some v → leased v t T →
  Store_media s' !! id = Some v ∨
  ∃ s1, rtc (foreign_media t T) s s1 ∧ rtc (foreign_media t T) s1 s' ∧ gone s1 id.
Proof.
  induction 1 as [s|s1 s2 s3 Hst Hrun IH]; intros Hkey Hv Hl; [by left|].
  destruct (lease_step t T s1 s2 id v Hst Hkey Hv Hl) as [Hv2|Hg].
  - destruct (IH (foreign_keyed _ _ _ _ Hst Hkey) Hv2 Hl) as [?|(s0 & H1 & H2 & Hg)]; [by left|].
    right. exists s0. split_and!; [by eapply rtc_l|done|done].
  - right. exists s2. split_and!; [by apply rtc_once|done|done].
Qed.

Lemma claim_ok s id actorID duration t clock s1 v :
  ClaimMediaVerification s id actorID duration t clock = (s1, Ok v) → MediaObject_Status v = "pending" →
  Store_media s1 !! id = Some v ∧ leased v t (clock 0%nat + duration).
Proof.
  intros Hclaim Hst. unfold ClaimMediaVerification in Hclaim. op_cases Hclaim; [congruence|].
  split; [by rewrite lookup_insert_eq|by repeat split].
Qed.

(** Only the lease holder publishes.  After an upload was claimed for
    verification with the token [t], then whatever others do before the lease runs
    out, the row stays as claimed until the object itself is deleted; while it is
    there, publishing with any other token is refused and so is every other claim. *)
Theorem verification_lease_exclusive L s id actorID duration t clock s1 v s2 :
  limits_ok L → media_reachable L s →
  ClaimMediaVerification s id actorID duration t clock = (s1, Ok v) → MediaObject_Status v = "pending" →
  let T := (clock 0%nat + duration)%Z in
  rtc (foreign_media t T) s1 s2 →
  (Store_media s2 !! id = Some v ∨
   ∃ s', rtc (foreign_media t T) s1 s' ∧ rtc (foreign_media t T) s' s2 ∧ gone s' id) ∧
  (Store_media s2 !! id = Some v →
   (∀ actor' t' key clock', t' ≠ t → is_ok (MarkMediaReady s2 id actor' t' key clock').2 = false) ∧
   (∀ actor' duration' t' clock', (clock' 0%nat < T)%Z →
      is_ok (ClaimMediaVerification s2 id actor' duration' t' clock').2 = false)).
Proof.
  intros HL Hr Hclaim Hst T Hrun. destruct (media_reachable_inv L s HL Hr) as [Hkey _].
  destruct (claim_ok _ _ _ _ _ _ _ _ Hclaim Hst) as [Hv Hl].
  assert (keyed s1) as Hkey1.
  { rewrite <- (f_equal fst Hclaim : media_step s (OpClaimVerification id actorID duration t clock) = s1).
    by apply media_step_keyed. }
  split; [by eapply lease_run|]. intros Hv2. split.
  - intros actor' t' key clock' Hne. unfold MarkMediaReady. destruct (Validate key); [done|].
    destruct (ownedMedia s2 id actor') as [w|] eqn:Ho; [|done]. apply ownedMedia_ok in Ho as (Hw & _ & _).
    assert (w = v) as -> by congruence. destruct Hl as (Hp & Ht & HT).
    rewrite bool_decide_false by congruence. unfold holdsLease.
    rewrite (bool_decide_false (MediaObject_VerificationLeaseToken v = Some t')) by congruence.
    simpl. by rewrite orb_true_r.
  - intros actor' duration' t' clock' Hlt. unfold ClaimMediaVerification. destruct (_ || _); [done|].
    destruct (ownedMedia s2 id actor') as [w|] eqn:Ho; [|done]. apply ownedMedia_ok in Ho as (Hw & _ & _).
    assert (w = v) as -> by congruence. rewrite (leased_running v t T) by done.
    destruct Hl as (Hp & _ & _). rewrite bool_decide_false by congruence.
    destruct (negb _); [done|]. cbv zeta. by destruct (mediaExpired _ _).
Qed.
End runs.

(** ** A concrete upload *)
Section witnesses.
#[local] Existing Instance Reference.runtime.

Definition owner : UUID := uuid_of_N 1.
Definition upload_id : UUID := uuid_of_N 41.
Definition lease_token : UUID := uuid_of_N 42.
Definition at_minute (n : Z) : Clock := λ i, (n * Minute + Z.of_nat i)%Z.
Definition owner_store : Store :=
  New <| Store_users ::= <[owner := mkUser owner "" "" "Ada" "" RawNil "hash" 1 1]> |>.
Definition upload : MediaObject :=
  mkMediaObject upload_id owner uuid_Nil "" "uploads/41" "image/png" 1000 "" "" None 0 None None 0 0.
Definition limits : MediaReservationLimits := DefaultMediaReservationLimits.

Definition op_reserve : MediaOp := OpCreateProfileMedia upload limits (at_minute 1).
Definition op_remove : MediaOp := OpDeleteMedia upload_id owner (at_minute 2).
Definition reserved : Store := media_step owner_store op_reserve.
Definition claimed_store : Store :=
  (ClaimMediaVerification reserved upload_id owner Minute lease_token (at_minute 2)).1.

Lemma limits_fit : limits_ok limits.
Proof. split; [vm_compute; reflexivity|..]; intros [] []; vm_compute; reflexivity. Qed.

Lemma reserved_reachable : media_reachable limits reserved.
Proof. apply media_reach_op; [by apply media_reach_new|reflexivity]. Qed.

Lemma media_quotas_hold_witness :
  usage reserved (by_owner owner) true true = 1000%Z ∧
  (usage reserved (by_owner owner) true true ≤ 2 * 2 ^ 30)%Z.
Proof.
  split; [vm_compute; reflexivity|].
  exact (proj1 (media_quotas_hold limits reserved limits_fit reserved_reachable) owner true true).
Defined.

Lemma reserved_row : ∃ v, Store_media reserved !! upload_id = Some v ∧ stored v = true.
Proof.
  assert (match Store_media reserved !! upload_id with Some v => stored v | None => false end = true) as Hv
    by (vm_compute; reflexivity).
  destruct (Store_media reserved !! upload_id) as [v|]; [|discriminate Hv]. by exists v.
Qed.

Lemma gone_check s id :
  match Store_media s !! id with Some v => negb (stored v) | None => true end = true → gone s id.
Proof. unfold gone. destruct (Store_media s !! id); [|done]. apply negb_true_iff. Qed.

Lemma removed_gone : gone (media_step reserved op_remove) upload_id.
Proof. apply gone_check. vm_compute. reflexivity. Qed.

Lemma media_never_orphaned_witness :
  ∃ v, Store_media reserved !! upload_id = Some v ∧ queued (media_step reserved op_remove) v.
Proof.
  destruct reserved_row as (v & Hv & Hst). exists v. split; [exact Hv|].
  exact (proj2 (media_never_orphaned limits reserved op_remove upload_id v limits_fit reserved_reachable Hv Hst)
    removed_gone).
Defined.

Lemma claimed_row :
  ∃ v, ClaimMediaVerification reserved upload_id owner Minute lease_token (at_minute 2) = (claimed_store, Ok v) ∧
    MediaObject_Status v = "pending".
Proof.
  assert (match (ClaimMediaVerification reserved upload_id owner Minute lease_token (at_minute 2)).2 with
          | Ok v => bool_decide (MediaObject_Status v = "pending") | Err _ => false end = true) as Hb
    by (vm_compute; reflexivity).
  destruct (ClaimMediaVerification reserved upload_id owner Minute lease_token (at_minute 2)).2
    as [v|err] eqn:Hres; [|discriminate Hb].
  exists v. split; [exact (pair_run _ _ Hres)|]. by apply bool_decide_eq_true in Hb.
Qed.

Lemma other_token : uuid_of_N 43 ≠ lease_token.
Proof. apply (bool_decide_unpack (_ ≠ _)). vm_compute. exact I. Qed.

Lemma verification_lease_exclusive_witness :
  ∃ v, ClaimMediaVerification reserved upload_id owner Minute lease_token (at_minute 2) = (claimed_store, Ok v) ∧
    ∀ key clock, is_ok (MarkMediaReady claimed_store upload_id owner (uuid_of_N 43) key clock).2 = false.
Proof.
  destruct claimed_row as (v & Hclaim & Hst). exists v. split; [exact Hclaim|]. intros key clock.
  exact (proj1 (proj2 (verification_lease_exclusive limits reserved upload_id owner Minute lease_token (at_minute 2)
    claimed_store v claimed_store limits_fit reserved_reachable Hclaim Hst (rtc_refl _ _))
    (proj1 (claim_ok _ _ _ _ _ _ _ _ Hclaim Hst))) owner (uuid_of_N 43) key clock other_token).
Defined.

(** A conversation that is deleted and created again under the same id. *)
Definition trip : UUID := uuid_of_N 9.
Definition open_trip (s : Store) : Store :=
  (CreateConversation s (mkCreateConversationParams trip "group" "Trip" (Raw (JObj [])) owner [] [])
     uuid_Nil (at_minute 1)).1.
Definition close_trip (s : Store) : Store := (DeleteConversation s trip owner (at_minute 3)).1.
Definition with_photo : Store :=
  (CreateMedia (open_trip owner_store) (upload <| MediaObject_ConversationID := trip |>) limits (at_minute 2)).1.

(** Deleting a conversation drops every outbox event that carries its id,
    also the [media.delete] events of an earlier conversation with the same id that are
    still waiting for their time: create, upload, delete, create again, delete again, and
    the uploaded object is no longer queued anywhere. *)
Theorem recreated_conversation_drops_media_deletes :
  mjoin (event_keys <$> Store_outbox (close_trip with_photo)) = ["uploads/41"; "published/uploads/41"] ∧
  mjoin (event_keys <$> Store_outbox (close_trip (open_trip (close_trip with_photo)))) = [] ∧
  match Store_media (close_trip (open_trip (close_trip with_photo))) !! upload_id with
  | Some _ => true | None => false end = false.
Proof. split_and!; vm_compute; reflexivity. Qed.
End witnesses.
