(* ===== verification/Outbox.v ===== *)
(** * The transactional outbox

    Claiming, delivering, releasing, publishing and pruning outbox events, from
    [src/internal/store/memory/memory.go] (lines 2755-2901 and 3201-3263).

    Events are appended by the operations of the other components inside their own
    critical section ([appendOutboxAt]) and are consumed by two workers: realtime events
    through [DeliverRealtimeOutbox], media deletions by topic.  A delivery spans two
    critical sections with the callback between them, so it is two steps here; the
    callback is a function on the store because everybody else runs meanwhile. *)

From Stdlib Require Import ZArith Lia.
From S2P Require Import Prelude.
From S2P Require Import Runtime.
From S2P Require Import Domain.
From S2P Require Import StoreState.
From S2P Require Import Resets.

Section outbox.
Context `{GoRuntime}.
Implicit Types (s : Store) (e : OutboxEvent) (id attempt limit : Z) (claim : string).

Definition unpublished e : bool := bool_decide (OutboxEvent_PublishedAt e = None).

(** Inspection only: nothing is leased. *)
Definition LockOutboxBatch s limit : res (list OutboxEvent) :=
  if (limit <? 1)%Z then Err ErrInvalid
  else Ok (take (Z.to_nat limit) (List.filter unpublished (Store_outbox s))).

Definition lockRunning e (now : Z) : bool :=
  match OutboxEvent_LockedUntil e with Some t => After t now | None => false end.

(** The tests of the claiming loop, in its order. *)
Definition claimable (active : gmap Z Z) claim (now : Z) e : bool :=
  if negb (unpublished e)
     || negb (IsZero (OutboxEvent_AvailableAt e)) && After (OutboxEvent_AvailableAt e) now
     || lockRunning e now
  then false
  else if bool_decide (claim = "realtime") && bool_decide (OutboxEvent_Topic e = "media.delete")
          || bool_decide (claim = "media.delete")
             && negb (bool_decide (OutboxEvent_Topic e = "media.delete"))
  then false
  else bool_decide (active !! OutboxEvent_ID e = None).

Definition lockDuration claim : Z :=
  if bool_decide (claim = "media.delete") then 30 * Minute else 30 * Second.

Definition leaseEvent claim (now : Z) e : OutboxEvent :=
  e <| OutboxEvent_LockedUntil := Some (now + lockDuration claim)%Z |>
    <| OutboxEvent_Attempts ::= (λ n, int64_wrap (n + 1)) |>.

(** One pass over the outbox that stops once [room] events are leased: the new outbox
    and the leased events. *)
Fixpoint claimEvents (active : gmap Z Z) claim (now : Z) (room : nat) (l : list OutboxEvent) :
    list OutboxEvent * list OutboxEvent :=
  match l, room with
  | e :: l', S room' =>
    if claimable active claim now e then
      let e' := leaseEvent claim now e in
      let '(rest, result) := claimEvents active claim now room' l' in
      (e' :: rest, e' :: result)
    else
      let '(rest, result) := claimEvents active claim now room l' in (e :: rest, result)
  | _, _ => (l, [])
  end.

Definition lockOutboxBatch s limit claim (clock : Clock) : Store * res (list OutboxEvent) :=
  if (limit <? 1)%Z then (s, Err ErrInvalid)
  else
    let '(l, result) := claimEvents (Store_activeRealtimeDeliveries s) claim (clock 0)
                          (Z.to_nat limit) (Store_outbox s) in
    (s <| Store_outbox := l |>, Ok result).

Definition LockRealtimeOutboxBatch s limit (clock : Clock) := lockOutboxBatch s limit "realtime" clock.
Definition LockMediaDeleteOutboxBatch s limit (clock : Clock) :=
  lockOutboxBatch s limit "media.delete" clock.

(** ** Delivering a realtime event *)

Definition deliverable id attempt e : bool :=
  bool_decide (OutboxEvent_ID e = id) && unpublished e
  && negb (bool_decide (OutboxEvent_Topic e = "media.delete"))
  && bool_decide (OutboxEvent_Attempts e = attempt)
  && bool_decide (is_Some (OutboxEvent_LockedUntil e)).

(** The first critical section: find the leased event and register the delivery. *)
Definition beginRealtimeDelivery s id attempt : Store * res OutboxEvent :=
  match List.find (deliverable id attempt) (Store_outbox s) with
  | None => (s, Err ErrNotFound)
  | Some e =>
    match Store_activeRealtimeDeliveries s !! id with
    | Some _ => (s, Err ErrNotFound)
    | None => (s <| Store_activeRealtimeDeliveries ::= <[id := attempt]> |>, Ok e)
    end
  end.

(** The deferred second critical section. *)
Definition endRealtimeDelivery s id attempt : Store :=
  if bool_decide (default 0%Z (Store_activeRealtimeDeliveries s !! id) = attempt)
  then s <| Store_activeRealtimeDeliveries ::= delete id |> else s.

(** [ctxErr i] is the [i]-th reading of [ctx.Err()]; [l] stands for the variables the
    callback captures. *)
Definition DeliverRealtimeOutbox {L : Type} s (l : L) id attempt (ctxErr : nat → option Error)
    (deliver : option (Store → L → OutboxEvent → Store * L * option Error)) :
    Store * L * option Error :=
  match deliver with
  | None => (s, l, Some ErrInvalid)
  | Some deliver =>
    if (id <? 1)%Z || (attempt <? 1)%Z then (s, l, Some ErrInvalid)
    else
      match ctxErr 0 with
      | Some err => (s, l, Some err)
      | None =>
        match beginRealtimeDelivery s id attempt with
        | (s, Err err) => (s, l, Some err)
        | (s, Ok leased) =>
          let '(s, l, err) := deliver s l leased in
          (endRealtimeDelivery s id attempt, l,
           match err with Some err => Some err | None => ctxErr 1 end)
        end
      end
  end.

(** ** Releasing, publishing, pruning *)

(** The first unpublished event with this number. *)
Fixpoint releaseEvent id (availableAt : Z) (l : list OutboxEvent) : option (list OutboxEvent) :=
  match l with
  | [] => None
  | e :: l =>
    if negb (bool_decide (OutboxEvent_ID e = id)) || negb (unpublished e)
    then cons e <$> releaseEvent id availableAt l
    else Some (e <| OutboxEvent_AvailableAt := availableAt |>
                 <| OutboxEvent_LockedUntil := None |> :: l)
  end.

Definition ReleaseOutboxEvent s id (availableAt : Z) : Store * res unit :=
  if (id <? 1)%Z || IsZero availableAt then (s, Err ErrInvalid)
  else
    match releaseEvent id availableAt (Store_outbox s) with
    | Some l => (s <| Store_outbox := l |>, Ok tt)
    | None => (s, Err ErrNotFound)
    end.

Definition publishEvent (ids : gset Z) (now : Z) e : OutboxEvent :=
  if bool_decide (OutboxEvent_ID e ∈ ids) && unpublished e
  then e <| OutboxEvent_PublishedAt := Some now |> <| OutboxEvent_LockedUntil := None |> else e.

Definition MarkOutboxPublished s (ids : list Z) (clock : Clock) : Store * res unit :=
  (s <| Store_outbox ::= fmap (publishEvent (list_to_set ids) (clock 0)) |>, Ok tt).

(** The events that still have push rows. *)
Definition referencedEvents s : gset Z :=
  list_to_set (PushDelivery_OutboxEventID <$> (range (Store_pushDeliveries s)).*2).

Definition prunable s (publishedBefore : Z) e : bool :=
  match OutboxEvent_PublishedAt e with
  | Some t => Before t publishedBefore && negb (bool_decide (OutboxEvent_ID e ∈ referencedEvents s))
  | None => false
  end.

Definition published_order : relation OutboxEvent :=
  time_then (λ e, default 0%Z (OutboxEvent_PublishedAt e)) (by_field OutboxEvent_ID).

Definition prunedEvents s (publishedBefore limit : Z) : list OutboxEvent :=
  take (Z.to_nat limit)
    (merge_sort published_order (List.filter (prunable s publishedBefore) (Store_outbox s))).

Definition PrunePublishedOutbox s (publishedBefore limit : Z) : Store * res Z :=
  if (limit <? 1)%Z || (MaxRetentionPruneBatchSize <? limit)%Z then (s, Err ErrInvalid)
  else
    let candidates := prunedEvents s publishedBefore limit in
    let selected : gset Z := list_to_set (OutboxEvent_ID <$> candidates) in
    (s <| Store_outbox ::= List.filter (λ e, negb (bool_decide (OutboxEvent_ID e ∈ selected))) |>,
     Ok (Z.of_nat (length candidates))).
End outbox.

(** ** Runs

    Every write to the outbox or to the table of active deliveries is one of these
    steps: the operations above, the append used by the other components, and the purge
    of a deleted conversation's events. *)
Inductive OutboxOp :=
  | OpAppend (topic : string) (agg : UUID) (payload : Payload) (availableAt : Z) (clock : Clock)
  | OpPurge (conversationID : UUID)
  | OpLock (limit : Z) (claim : string) (clock : Clock)
  | OpBegin (id attempt : Z)
  | OpEnd (id attempt : Z)
  | OpRelease (id availableAt : Z)
  | OpMark (ids : list Z) (clock : Clock)
  | OpPrune (publishedBefore limit : Z).

Section runs.
Context `{GoRuntime}.
Implicit Types (s : Store) (e : OutboxEvent) (id attempt limit : Z) (claim : string) (op : OutboxOp).

Definition outbox_step s op : Store :=
  match op with
  | OpAppend topic agg payload at_ clock => appendOutboxAt s topic agg payload at_ clock
  | OpPurge cid => s <| Store_outbox ::=
      List.filter (λ e, negb (bool_decide (OutboxEvent_AggregateID e = cid))) |>
  | OpLock limit claim clock => (lockOutboxBatch s limit claim clock).1
  | OpBegin id attempt => (beginRealtimeDelivery s id attempt).1
  | OpEnd id attempt => endRealtimeDelivery s id attempt
  | OpRelease id at_ => (ReleaseOutboxEvent s id at_).1
  | OpMark ids clock => (MarkOutboxPublished s ids clock).1
  | OpPrune before limit => (PrunePublishedOutbox s before limit).1
  end.

(** Events are numbered from a counter: distinct, positive, below it. *)
Record outbox_inv s : Prop := {
  ob_next : (1 ≤ Store_nextOutboxID s < 2 ^ 63)%Z;
  ob_range : ∀ e, e ∈ Store_outbox s → (1 ≤ OutboxEvent_ID e < Store_nextOutboxID s)%Z;
  ob_nodup : NoDup (OutboxEvent_ID <$> Store_outbox s);
}.

(** The counter has not come to the end of its 63 bits. *)
Definition outbox_room s : Prop := (Store_nextOutboxID s < 2 ^ 63 - 1)%Z.

(** What a step does to an event that is already there. *)
Inductive event_change s op e : OutboxEvent → Prop :=
  | ev_same : event_change s op e e
  | ev_leased limit claim clock : op = OpLock limit claim clock →
      claimable (Store_activeRealtimeDeliveries s) claim (clock 0) e = true →
      event_change s op e (leaseEvent claim (clock 0) e)
  | ev_released at_ : op = OpRelease (OutboxEvent_ID e) at_ → unpublished e = true →
      event_change s op e (e <| OutboxEvent_AvailableAt := at_ |> <| OutboxEvent_LockedUntil := None |>)
  | ev_published ids clock : op = OpMark ids clock → OutboxEvent_ID e ∈ ids → unpublished e = true →
      event_change s op e
        (e <| OutboxEvent_PublishedAt := Some (clock 0) |> <| OutboxEvent_LockedUntil := None |>).

Lemma event_change_id s op e e' : event_change s op e e' → OutboxEvent_ID e' = OutboxEvent_ID e.
Proof. by destruct 1. Qed.

(** The pass of a claim: which events it leases and what becomes of the others. *)
Lemma claimEvents_spec active claim now room l l' result :
  claimEvents active claim now room l = (l', result) →
  OutboxEvent_ID <$> l' = OutboxEvent_ID <$> l ∧
  (∀ e', e' ∈ l' → e' ∈ l ∨ ∃ e, e ∈ l ∧ claimable active claim now e = true ∧
     e' = leaseEvent claim now e) ∧
  (∀ e', e' ∈ result → e' ∈ l' ∧ ∃ e, e ∈ l ∧ claimable active claim now e = true ∧
     e' = leaseEvent claim now e) ∧
  (OutboxEvent_ID <$> result) `sublist_of` (OutboxEvent_ID <$> l) ∧ length result ≤ room.
Proof.
  revert room l' result. induction l as [|e l IH]; intros room l' result.
  { simpl. intros [= <- <-]. split_and!; [done|set_solver|set_solver|done|simpl; lia]. }
  destruct room as [|room]; simpl.
  { intros [= <- <-]. split_and!; [done|set_solver|set_solver|apply sublist_nil_l|simpl; lia]. }
  destruct (claimable active claim now e) eqn:Hc.
  - destruct (claimEvents _ _ _ room l) as [rest res] eqn:Hr. intros [= <- <-].
    destruct (IH _ _ _ Hr) as (Hid & Hl & Hres & Hsub & Hlen). rewrite !fmap_cons, Hid.
    split_and!; [done|set_solver|set_solver|by apply sublist_skip|simpl; lia].
  - destruct (claimEvents _ _ _ (S room) l) as [rest res] eqn:Hr. intros [= <- <-].
    destruct (IH _ _ _ Hr) as (Hid & Hl & Hres & Hsub & Hlen). rewrite !fmap_cons, Hid.
    split_and!; [done|set_solver|set_solver|by apply sublist_cons|done].
Qed.

Lemma releaseEvent_spec id at_ l l' :
  releaseEvent id at_ l = Some l' →
  OutboxEvent_ID <$> l' = OutboxEvent_ID <$> l ∧
  ∀ e', e' ∈ l' → e' ∈ l ∨ ∃ e, e ∈ l ∧ OutboxEvent_ID e = id ∧ unpublished e = true ∧
    e' = e <| OutboxEvent_AvailableAt := at_ |> <| OutboxEvent_LockedUntil := None |>.
Proof.
  revert l'. induction l as [|e l IH]; intros l'; simpl; [done|].
  destruct (_ || _) eqn:Hg.
  - intros (rest & Hr & ->)%fmap_Some. destruct (IH _ Hr) as [Hid Hl].
    rewrite !fmap_cons, Hid. split; [done|set_solver].
  - bool_prop. intros [= <-]. split; [done|]. set_solver.
Qed.

(** Every event after a step is an old one, changed as listed, or the appended one. *)
Lemma outbox_step_events s op e' :
  e' ∈ Store_outbox (outbox_step s op) →
  (∃ e, e ∈ Store_outbox s ∧ event_change s op e e') ∨
  (OutboxEvent_ID e' = Store_nextOutboxID s ∧ fresh_event e' ∧
   ∃ topic agg payload at_ clock, op = OpAppend topic agg payload at_ clock).
Proof.
  assert (∀ e, e ∈ Store_outbox s → ∃ e0, e0 ∈ Store_outbox s ∧ event_change s op e0 e) as Hold
    by (intros e ?; exists e; split; [done|constructor]).
  destruct op as [topic agg payload at_ clock|cid|limit claim clock|id attempt|id attempt|id at_|ids clock|before limit];
    cbn [outbox_step].
  - cbn. intros [He|He]%elem_of_app; [auto|]. right. apply list_elem_of_singleton in He as ->.
    split; [done|]. split; [done|]. by eauto 10.
  - cbn. intros [He _]%elem_of_bool_filter. auto.
  - unfold lockOutboxBatch. destruct (limit <? 1)%Z; [by cbn; auto|].
    destruct (claimEvents _ _ _ _ _) as [l result] eqn:Hc. cbn. intros He. left.
    destruct (claimEvents_spec _ _ _ _ _ _ _ Hc) as (_ & Hl & _).
    destruct (Hl _ He) as [?|(e & ? & ? & ->)]; [auto|]. exists e. split; [done|]. by econstructor.
  - unfold beginRealtimeDelivery. destruct (List.find _ _); [|by cbn; auto]. by destruct (_ !! id); cbn; auto.
  - unfold endRealtimeDelivery. case_bool_decide; cbn; auto.
  - unfold ReleaseOutboxEvent. destruct (_ || _); [by cbn; auto|].
    destruct (releaseEvent _ _ _) as [l|] eqn:Hr; [|by cbn; auto]. cbn. intros He. left.
    destruct (releaseEvent_spec _ _ _ _ Hr) as [_ Hl].
    destruct (Hl _ He) as [?|(e & ? & <- & ? & ->)]; [auto|]. exists e. split; [done|]. by econstructor.
  - cbn. intros (e & -> & He)%list_elem_of_fmap. left. exists e. split; [done|]. unfold publishEvent.
    destruct (_ && _) eqn:Hg; [|constructor]. bool_prop. econstructor; [done| |done]. set_solver.
  - unfold PrunePublishedOutbox. destruct (_ || _); [by cbn; auto|]. cbn.
    intros [He _]%elem_of_bool_filter. auto.
Qed.

Lemma outbox_step_active s op i :
  Store_activeRealtimeDeliveries (outbox_step s op) !! i = Store_activeRealtimeDeliveries s !! i ∨
  (∃ attempt, op = OpBegin i attempt ∧ Store_activeRealtimeDeliveries s !! i = None) ∨
  (∃ attempt, op = OpEnd i attempt ∧ default 0%Z (Store_activeRealtimeDeliveries s !! i) = attempt).
Proof.
  destruct op as [| |limit claim clock|id attempt|id attempt|id at_| |before limit]; cbn [outbox_step]; auto.
  - unfold lockOutboxBatch. destruct (_ <? _)%Z; [auto|]. destruct (claimEvents _ _ _ _ _). auto.
  - unfold beginRealtimeDelivery. destruct (List.find _ _); [|auto].
    destruct (Store_activeRealtimeDeliveries s !! id) eqn:Ha; [auto|]. cbn.
    destruct (decide (id = i)) as [->|]; [eauto|]. rewrite lookup_insert_ne by done. auto.
  - unfold endRealtimeDelivery. case_bool_decide as Hd; [|auto]. cbn.
    destruct (decide (id = i)) as [->|]; [eauto|]. rewrite lookup_delete_ne by done. auto.
  - unfold ReleaseOutboxEvent. destruct (_ || _); [auto|]. destruct (releaseEvent _ _ _); auto.
  - unfold PrunePublishedOutbox. destruct (_ || _); auto.
Qed.

Lemma outbox_step_next s op :
  Store_nextOutboxID (outbox_step s op) = Store_nextOutboxID s ∨
  (∃ topic agg payload at_ clock, op = OpAppend topic agg payload at_ clock ∧
   Store_nextOutboxID (outbox_step s op) = int64_wrap (Store_nextOutboxID s + 1)).
Proof.
  destruct op; cbn [outbox_step]; try (by left).
  - right. by eauto 10.
  - left. unfold lockOutboxBatch. destruct (_ <? _)%Z; [done|]. by destruct (claimEvents _ _ _ _ _).
  - left. unfold beginRealtimeDelivery. destruct (List.find _ _); [|done]. by destruct (_ !! id).
  - left. unfold endRealtimeDelivery. by case_match.
  - left. unfold ReleaseOutboxEvent. destruct (_ || _); [done|]. by destruct (releaseEvent _ _ _).
  - left. unfold PrunePublishedOutbox. by destruct (_ || _).
Qed.

Lemma outbox_step_ids s op :
  (OutboxEvent_ID <$> Store_outbox (outbox_step s op)) `sublist_of` (OutboxEvent_ID <$> Store_outbox s) ∨
  (OutboxEvent_ID <$> Store_outbox (outbox_step s op)) =
    (OutboxEvent_ID <$> Store_outbox s) ++ [Store_nextOutboxID s].
Proof.
  assert (∀ f : OutboxEvent → bool, (OutboxEvent_ID <$> List.filter f (Store_outbox s))
    `sublist_of` (OutboxEvent_ID <$> Store_outbox s)) as Hfilter.
  { intros f. generalize (Store_outbox s) as l. induction l as [|x l IH]; simpl; [done|].
    destruct (f x); [by apply sublist_skip|by apply sublist_cons]. }
  destruct op; cbn [outbox_step]; try (by left).
  - right. cbn. by rewrite fmap_app.
  - left. apply Hfilter.
  - left. unfold lockOutboxBatch. destruct (_ <? _)%Z; [done|].
    destruct (claimEvents _ _ _ _ _) as [l result] eqn:Hc. cbn.
    by destruct (claimEvents_spec _ _ _ _ _ _ _ Hc) as (-> & _).
  - left. unfold beginRealtimeDelivery. destruct (List.find _ _); [|done]. by destruct (_ !! id).
  - left. unfold endRealtimeDelivery. by case_match.
  - left. unfold ReleaseOutboxEvent. destruct (_ || _); [done|].
    destruct (releaseEvent _ _ _) as [l|] eqn:Hr; [|done]. cbn.
    by destruct (releaseEvent_spec _ _ _ _ Hr) as [-> _].
  - left. cbn. rewrite <- list_fmap_compose. erewrite list_fmap_ext; [done|].
    intros i e _. cbn. unfold publishEvent. by case_match.
  - left. unfold PrunePublishedOutbox. destruct (_ || _); [done|]. apply Hfilter.
Qed.

Lemma outbox_inv_step s op : outbox_inv s → outbox_room s → outbox_inv (outbox_step s op).
Proof.
  intros [Hn Hr Hnd] Hroom. unfold outbox_room in Hroom.
  assert (Store_nextOutboxID s ≤ Store_nextOutboxID (outbox_step s op) < 2 ^ 63)%Z as Hn'.
  { destruct (outbox_step_next s op) as [->|(? & ? & ? & ? & ? & _ & ->)]; [lia|].
    rewrite int64_wrap_small by lia. lia. }
  split; [lia| |].
  - intros e' He'. destruct (outbox_step_events _ _ _ He') as [(e & He & Hch)|(Hid & _ & ? & ? & ? & ? & ? & Hop)].
    + rewrite (event_change_id _ _ _ _ Hch). specialize (Hr _ He). lia.
    + rewrite Hid. split; [lia|]. subst op. cbn. rewrite int64_wrap_small by lia. lia.
  - destruct (outbox_step_ids s op) as [Hsub| ->]; [by eapply sublist_NoDup|].
    apply NoDup_app. split_and!; [done| |apply NoDup_singleton].
    intros i (e & -> & He)%list_elem_of_fmap Hi%list_elem_of_singleton. specialize (Hr _ He). lia.
Qed.

(** A stretch of a run in which the steps on the outbox satisfy [P]; steps of other
    components leave the outbox alone. *)
Inductive outbox_run (P : OutboxOp → Prop) s : Store → Prop :=
  | run_refl : outbox_run P s s
  | run_op s1 op : outbox_run P s s1 → outbox_room s1 → P op → outbox_run P s (outbox_step s1 op)
  | run_other s1 s2 : outbox_run P s s1 → Store_outbox s2 = Store_outbox s1 →
      Store_nextOutboxID s2 = Store_nextOutboxID s1 →
      Store_activeRealtimeDeliveries s2 = Store_activeRealtimeDeliveries s1 → outbox_run P s s2.

(** The events of number [id] keep a property that the allowed changes preserve. *)
Lemma outbox_run_event (P : OutboxOp → Prop) (Q : OutboxEvent → Prop) s s2 id :
  outbox_inv s → (id < Store_nextOutboxID s)%Z →
  (∀ s op e e', P op → OutboxEvent_ID e = id → Q e → event_change s op e e' → Q e') →
  outbox_run P s s2 → (∀ e, e ∈ Store_outbox s → OutboxEvent_ID e = id → Q e) →
  outbox_inv s2 ∧ ∀ e, e ∈ Store_outbox s2 → OutboxEvent_ID e = id → Q e.
Proof.
  intros Hinv Hid Hch Hrun HQ.
  assert (outbox_inv s2 ∧ (id < Store_nextOutboxID s2)%Z ∧
    ∀ e, e ∈ Store_outbox s2 → OutboxEvent_ID e = id → Q e) as (? & _ & ?); [|done].
  induction Hrun as [|s1 op _ (IHi & IHn & IHQ) Hroom HP|s1 s2 _ (IHi & IHn & IHQ) Ho Hn _]; [done|..].
  - pose proof (outbox_inv_step s1 op IHi Hroom) as Hi'. split; [done|]. split.
    + destruct (outbox_step_next s1 op) as [->|(? & ? & ? & ? & ? & _ & ->)]; [done|].
      unfold outbox_room in Hroom. destruct IHi. rewrite int64_wrap_small by lia. lia.
    + intros e' He' Heq. destruct (outbox_step_events _ _ _ He') as [(e & He & Hc)|(Hid' & _)]; [|lia].
      pose proof (event_change_id _ _ _ _ Hc). eapply Hch; [exact HP| | |exact Hc]; [congruence|].
      apply IHQ; [done|congruence].
  - split; [|rewrite Hn, Ho; done]. destruct IHi. split; rewrite ?Hn, ?Ho; done.
Qed.

Lemma lockOutboxBatch_spec s limit claim clock s' batch :
  lockOutboxBatch s limit claim clock = (s', Ok batch) →
  s' = outbox_step s (OpLock limit claim clock) ∧ (1 ≤ limit)%Z ∧
  (∀ e', e' ∈ batch → e' ∈ Store_outbox s' ∧ ∃ e, e ∈ Store_outbox s ∧
     claimable (Store_activeRealtimeDeliveries s) claim (clock 0) e = true ∧
     e' = leaseEvent claim (clock 0) e) ∧
  (OutboxEvent_ID <$> batch) `sublist_of` (OutboxEvent_ID <$> Store_outbox s) ∧
  length batch ≤ Z.to_nat limit.
Proof.
  intros Hl. assert (s' = outbox_step s (OpLock limit claim clock)) as Hs by (cbn; by rewrite Hl).
  split; [done|]. clear Hs. unfold lockOutboxBatch in Hl. destruct (limit <? 1)%Z eqn:Hlim; [done|].
  destruct (claimEvents _ _ _ _ _) as [l result] eqn:Hc. simplify_eq. bool_prop.
  destruct (claimEvents_spec _ _ _ _ _ _ _ Hc) as (_ & _ & Hres & Hsub & Hlen). done.
Qed.

Lemma claimable_facts active claim now e :
  claimable active claim now e = true →
  unpublished e = true ∧ lockRunning e now = false ∧ active !! OutboxEvent_ID e = None.
Proof. unfold claimable. intros Hc. op_cases Hc. done. Qed.

Lemma begin_spec s id attempt s' r :
  beginRealtimeDelivery s id attempt = (s', r) →
  (s' = s ∧ r = Err ErrNotFound) ∨
  ∃ e, r = Ok e ∧ e ∈ Store_outbox s ∧ deliverable id attempt e = true ∧
    Store_activeRealtimeDeliveries s !! id = None ∧
    s' = s <| Store_activeRealtimeDeliveries ::= <[id := attempt]> |>.
Proof.
  unfold beginRealtimeDelivery. destruct (List.find _ _) as [e|] eqn:Hf; [|by intros [= <- <-]; left].
  apply List.find_some in Hf as [He Hd]. apply list_elem_of_In in He.
  destruct (_ !! id) eqn:Ha; intros [= <- <-]; [by left|]. right. eauto 10.
Qed.
End runs.

(** ** Leases, deliveries, publication *)
Section delivery.
Context `{GoRuntime}.
Implicit Types (s : Store) (e : OutboxEvent) (id attempt limit : Z) (claim : string) (op : OutboxOp).

(** The others while a lease on [id] runs: they lock before it ends and do not release
    the event, which only its holder does. *)
Definition lease_respected id (deadline : Z) op : Prop :=
  match op with
  | OpLock _ _ clock => (clock 0%nat < deadline)%Z
  | OpRelease id' _ => id' ≠ id
  | _ => True
  end.

Lemma leased_change deadline s op e e' e1 :
  lease_respected (OutboxEvent_ID e) deadline op → OutboxEvent_LockedUntil e = Some deadline →
  OutboxEvent_ID e1 = OutboxEvent_ID e →
  (e1 = e ∨ unpublished e1 = false) → event_change s op e1 e' → e' = e ∨ unpublished e' = false.
Proof.
  intros Hop Hlock Hid Hq Hch. destruct Hch as [|limit claim clock -> Hc|at_ -> Hu|ids clock _ _ _]; [done|..].
  - apply claimable_facts in Hc as (Hu & Hr & _). destruct Hq as [->|Hq]; [|congruence].
    cbn in Hop. unfold lockRunning in Hr. rewrite Hlock in Hr. bool_prop. lia.
  - by destruct Hop.
  - by right.
Qed.

(** C23. An outbox event is leased to one worker at a time.  A lock call
    returns at most [limit] distinct events.  From then until the lease of a returned
    event runs out, whatever the others do short of releasing it: the event is unchanged,
    published or gone; no lock call returns it; and no delivery of it starts under
    another attempt number, so a worker whose lease was taken over cannot deliver. *)
Theorem outbox_lease_exclusive s limit claim clock s1 batch e s2 :
  let deadline := (clock 0%nat + lockDuration claim)%Z in
  outbox_inv s → outbox_room s →
  lockOutboxBatch s limit claim clock = (s1, Ok batch) → e ∈ batch →
  outbox_run (lease_respected (OutboxEvent_ID e) deadline) s1 s2 →
  NoDup (OutboxEvent_ID <$> batch) ∧ (Z.of_nat (length batch) ≤ limit)%Z ∧
  (∀ e', e' ∈ Store_outbox s2 → OutboxEvent_ID e' = OutboxEvent_ID e →
     e' = e ∨ unpublished e' = false) ∧
  (∀ limit' claim' clock' s3 batch', (clock' 0%nat < deadline)%Z →
     lockOutboxBatch s2 limit' claim' clock' = (s3, Ok batch') →
     OutboxEvent_ID e ∉ (OutboxEvent_ID <$> batch')) ∧
  (∀ attempt, attempt ≠ OutboxEvent_Attempts e →
     beginRealtimeDelivery s2 (OutboxEvent_ID e) attempt = (s2, Err ErrNotFound)).
Proof.
  intros deadline Hinv Hroom Hl He Hrun.
  destruct (lockOutboxBatch_spec _ _ _ _ _ _ Hl) as (Hs1 & Hlim & Hb & Hsub & Hlen).
  destruct (Hb e He) as (He1 & e0 & _ & _ & Hlease).
  assert (outbox_inv s1) as Hinv1 by (rewrite Hs1; by apply outbox_inv_step).
  assert (OutboxEvent_LockedUntil e = Some deadline) as Hlock by (by subst e).
  destruct (outbox_run_event (lease_respected (OutboxEvent_ID e) deadline)
    (λ e', e' = e ∨ unpublished e' = false) s1 s2 (OutboxEvent_ID e)
    Hinv1) as [Hinv2 HQ].
  - by apply (ob_range _ Hinv1).
  - intros s' op e1 e2 Hop Hid Hq Hch. by eapply leased_change.
  - done.
  - intros e' He' Hid. left. eapply NoDup_fmap_unique; [apply (ob_nodup _ Hinv1)|done..].
  - split_and!; [eapply sublist_NoDup; [exact (ob_nodup _ Hinv)|done]|lia|done| |].
    + intros limit' claim' clock' s3 batch' Hlt Hl' (e' & Hid & Hin)%list_elem_of_fmap.
      destruct (lockOutboxBatch_spec _ _ _ _ _ _ Hl') as (_ & _ & Hb' & _).
      destruct (Hb' e' Hin) as (_ & e1 & He1' & Hc & ->). apply claimable_facts in Hc as (Hu & Hr & _).
      destruct (HQ e1 He1') as [->|Hp]; [done| |congruence].
      unfold lockRunning in Hr. rewrite Hlock in Hr. bool_prop. lia.
    + intros attempt Hne. destruct (beginRealtimeDelivery _ _ _) as [s3 r] eqn:Hbeg.
      apply begin_spec in Hbeg as [[-> ->]|(e' & _ & He' & Hd & _)]; [done|].
      unfold deliverable in Hd. bool_prop. destruct (HQ e' He') as [->|Hp]; [done|done|].
      unfold unpublished in *. by bool_prop.
Qed.

(** Deliveries of one event never overlap, however long they take.
    When the first critical section of [DeliverRealtimeOutbox] succeeds, the event is an
    unpublished, leased realtime event of exactly that attempt; until the delivery's own
    second critical section, even after the lease has expired, no other delivery of the
    event starts and no lock call returns it; that section then makes the event available
    again. *)
Theorem realtime_delivery_single s id attempt s1 e s2 :
  (1 ≤ attempt)%Z → beginRealtimeDelivery s id attempt = (s1, Ok e) →
  outbox_run (λ op, op ≠ OpEnd id attempt) s1 s2 →
  (e ∈ Store_outbox s ∧ OutboxEvent_ID e = id ∧ OutboxEvent_PublishedAt e = None ∧
   OutboxEvent_Attempts e = attempt ∧ OutboxEvent_Topic e ≠ "media.delete" ∧
   is_Some (OutboxEvent_LockedUntil e)) ∧
  (∀ attempt', beginRealtimeDelivery s2 id attempt' = (s2, Err ErrNotFound)) ∧
  (∀ limit claim clock s3 batch, lockOutboxBatch s2 limit claim clock = (s3, Ok batch) →
     id ∉ (OutboxEvent_ID <$> batch)) ∧
  Store_activeRealtimeDeliveries (endRealtimeDelivery s2 id attempt) !! id = None.
Proof.
  intros Hatt Hbeg Hrun.
  apply begin_spec in Hbeg as [[_ ?]|(e' & [= <-] & He & Hd & Hnone & ->)]; [done|].
  assert (Store_activeRealtimeDeliveries s2 !! id = Some attempt) as Hact.
  { induction Hrun as [|s1 op _ IH _ HP|s1 s2 _ IH _ _ Ha].
    - apply lookup_insert_eq.
    - destruct (outbox_step_active s1 op id) as [->|[(a & -> & ?)|(a & -> & Hdef)]]; [done|congruence|].
      rewrite IH in Hdef. cbn in Hdef. by subst a.
    - by rewrite Ha. }
  unfold deliverable, unpublished in Hd. bool_prop. split_and!; try done.
  - intros attempt'. destruct (beginRealtimeDelivery _ _ _) as [s3 r] eqn:Hbeg.
    apply begin_spec in Hbeg as [[-> ->]|(e' & _ & _ & _ & Hn & _)]; [done|congruence].
  - intros limit claim clock s3 batch Hl (e' & Hid & Hin)%list_elem_of_fmap.
    destruct (lockOutboxBatch_spec _ _ _ _ _ _ Hl) as (_ & _ & Hb & _).
    destruct (Hb e' Hin) as (_ & e1 & _ & Hc & ->). apply claimable_facts in Hc as (_ & _ & Hn).
    change (OutboxEvent_ID (leaseEvent claim (clock 0) e1)) with (OutboxEvent_ID e1) in Hid. congruence.
  - unfold endRealtimeDelivery. rewrite Hact, bool_decide_true by done. apply lookup_delete_eq.
Qed.

(** Publication is final: from the moment an event carries a publication
    time, in every later state it is there unchanged or gone; it is never leased,
    delivered or released again. *)
Theorem published_event_final s e s2 :
  outbox_inv s → e ∈ Store_outbox s → is_Some (OutboxEvent_PublishedAt e) →
  outbox_run (λ _, True) s s2 →
  (∀ e', e' ∈ Store_outbox s2 → OutboxEvent_ID e' = OutboxEvent_ID e → e' = e) ∧
  (∀ limit claim clock s3 batch, lockOutboxBatch s2 limit claim clock = (s3, Ok batch) →
     OutboxEvent_ID e ∉ (OutboxEvent_ID <$> batch)) ∧
  (∀ attempt, beginRealtimeDelivery s2 (OutboxEvent_ID e) attempt = (s2, Err ErrNotFound)) ∧
  (∀ at_, ∃ err, ReleaseOutboxEvent s2 (OutboxEvent_ID e) at_ = (s2, Err err)).
Proof.
  intros Hinv He [t Ht] Hrun.
  assert (unpublished e = false) as Hp by (unfold unpublished; rewrite Ht; done).
  destruct (outbox_run_event (λ _, True) (λ e', e' = e) s s2 (OutboxEvent_ID e) Hinv) as [Hinv2 HQ].
  - by apply (ob_range _ Hinv).
  - intros s' op e1 e2 _ _ -> Hch.
    destruct Hch as [|limit claim clock _ Hc|at_ _ Hu|ids clock _ _ Hu]; [done| |congruence..].
    apply claimable_facts in Hc as (Hu & _). congruence.
  - done.
  - intros e' He' Hid. eapply NoDup_fmap_unique; [apply (ob_nodup _ Hinv)|done..].
  - split_and!; [done|..].
    + intros limit claim clock s3 batch Hl (e' & Hid & Hin)%list_elem_of_fmap.
      destruct (lockOutboxBatch_spec _ _ _ _ _ _ Hl) as (_ & _ & Hb & _).
      destruct (Hb e' Hin) as (_ & e1 & He1 & Hc & ->). apply claimable_facts in Hc as (Hu & _).
      rewrite (HQ e1 He1) in Hu by done. congruence.
    + intros attempt. destruct (beginRealtimeDelivery _ _ _) as [s3 r] eqn:Hbeg.
      apply begin_spec in Hbeg as [[-> ->]|(e' & _ & He' & Hd & _)]; [done|].
      unfold deliverable in Hd. bool_prop. rewrite (HQ e' He') in * by done. congruence.
    + intros at_. unfold ReleaseOutboxEvent. destruct (_ || _); [by eexists|].
      assert (releaseEvent (OutboxEvent_ID e) at_ (Store_outbox s2) = None) as ->; [|by eexists].
      clear -HQ Hp. induction (Store_outbox s2) as [|x l IH]; [done|]. cbn.
      case_bool_decide as Hid; cbn; [|rewrite IH; [done|set_solver]].
      rewrite (HQ x) by (done || left). rewrite Hp. cbn. rewrite IH; [done|set_solver].
Qed.

(** Pruning removes exactly the selected published events: no more than
    [limit], each published before the cutoff and referenced by no push row, the oldest
    of those first, and all of them when they fit; everything else stays in place. *)
Theorem prune_outbox_exact s before limit s' n :
  outbox_inv s → PrunePublishedOutbox s before limit = (s', Ok n) →
  let removed := prunedEvents s before limit in
  let eligible := List.filter (prunable s before) (Store_outbox s) in
  n = Z.of_nat (length removed) ∧ length removed = Z.to_nat limit `min` length eligible ∧
  (∀ e, e ∈ removed → e ∈ Store_outbox s ∧
     (∃ t, OutboxEvent_PublishedAt e = Some t ∧ (t < before)%Z) ∧
     ∀ i d, Store_pushDeliveries s !! i = Some d → PushDelivery_OutboxEventID d ≠ OutboxEvent_ID e) ∧
  (∀ e x, e ∈ removed → x ∈ eligible → x ∉ removed → published_order e x) ∧
  (∀ e, e ∈ Store_outbox s' ↔ e ∈ Store_outbox s ∧ e ∉ removed) ∧
  Store_outbox s' `sublist_of` Store_outbox s.
Proof.
  intros Hinv Hp removed eligible. unfold PrunePublishedOutbox in Hp. destruct (_ || _); [done|].
  cbv zeta in Hp. fold removed in Hp. simplify_eq.
  assert (∀ e, e ∈ removed → e ∈ eligible) as Hsub.
  { intros e He. unfold removed, prunedEvents in He. apply elem_of_take in He as (i & He & _).
    apply list_elem_of_lookup_2 in He. by rewrite merge_sort_Permutation in He. }
  split_and!; [done| | | | |].
  - unfold removed, prunedEvents. by rewrite length_take, merge_sort_Permutation.
  - intros e He%Hsub. apply elem_of_bool_filter in He as [Hin Hpr]. split; [done|].
    unfold prunable in Hpr. destruct (OutboxEvent_PublishedAt e) as [t|]; [|done]. bool_prop.
    split; [by exists t|]. intros i d Hd Heq. unfold referencedEvents in *. set_unfold.
    match goal with Hn : ¬ _ |- _ => apply Hn end. exists d. split; [done|].
    exists (i, d). split; [done|]. by apply elem_of_range.
  - intros e x He Hx Hnx. by eapply (take_sorted_first published_order).
  - intros e. cbn. rewrite elem_of_bool_filter, negb_true_iff, bool_decide_eq_false.
    rewrite elem_of_list_to_set, list_elem_of_fmap. split.
    + intros [He Hn]. split; [done|]. intros Hr. apply Hn. by exists e.
    + intros [He Hn]. split; [done|]. intros (x & Hid & Hx). apply Hn.
      assert (e = x) as ->; [|done]. eapply NoDup_fmap_unique; [apply (ob_nodup _ Hinv)|done| |done].
      apply Hsub in Hx. by apply elem_of_bool_filter in Hx as [? _].
  - apply sublist_bool_filter.
Qed.
End delivery.

(** ** Concrete runs *)
Section witnesses.
#[local] Existing Instance Reference.runtime.

Definition second (n : Z) : Clock := λ i, (n * Second + Z.of_nat i)%Z.
Definition note : Payload := PMediaDelete (mkMediaDeletePayload [] None).
Definition two_events : Store :=
  outbox_step (outbox_step New (OpAppend "message.created" (uuid_of_N 1) note 1 (second 1)))
    (OpAppend "media.delete" (uuid_of_N 1) note 1 (second 1)).
Definition leased_batch : Store := outbox_step two_events (OpLock 10 "realtime" (second 2)).
Definition realtime_event : OutboxEvent :=
  mkOutboxEvent 1 "message.created" (uuid_of_N 1) note Second None 1 (Some (32 * Second)%Z) 1.

Lemma new_outbox_inv : outbox_inv New.
Proof. split; [cbn; lia|cbn; set_solver|constructor]. Qed.
Lemma two_events_inv : outbox_inv two_events.
Proof. repeat (apply outbox_inv_step; [|vm_compute; reflexivity]). apply new_outbox_inv. Qed.
Lemma leased_batch_inv : outbox_inv leased_batch.
Proof. apply outbox_inv_step; [apply two_events_inv|vm_compute; reflexivity]. Qed.
Lemma lock_two_events :
  lockOutboxBatch two_events 10 "realtime" (second 2) = (leased_batch, Ok [realtime_event]).
Proof. apply pair_run. vm_compute. reflexivity. Qed.

Lemma outbox_lease_exclusive_witness :
  beginRealtimeDelivery leased_batch 1 2 = (leased_batch, Err ErrNotFound).
Proof.
  refine (proj2 (proj2 (proj2 (proj2 (outbox_lease_exclusive two_events 10 "realtime" (second 2)
    leased_batch [realtime_event] realtime_event leased_batch _ _ _ _ _)))) 2%Z _).
  - apply two_events_inv.
  - vm_compute. reflexivity.
  - apply lock_two_events.
  - left.
  - apply run_refl.
  - discriminate.
Defined.

Definition in_flight : Store := (beginRealtimeDelivery leased_batch 1 1).1.
Lemma begin_leased : beginRealtimeDelivery leased_batch 1 1 = (in_flight, Ok realtime_event).
Proof. apply pair_run. vm_compute. reflexivity. Qed.
Definition an_hour_later : Store := outbox_step in_flight (OpLock 10 "realtime" (second 3600)).

Lemma realtime_delivery_single_witness :
  beginRealtimeDelivery an_hour_later 1 1 = (an_hour_later, Err ErrNotFound).
Proof.
  refine (proj1 (proj2 (realtime_delivery_single leased_batch 1 1 in_flight realtime_event
    an_hour_later _ _ _)) 1%Z).
  - lia.
  - apply begin_leased.
  - apply run_op; [apply run_refl|vm_compute; reflexivity|discriminate].
Defined.

Definition published : Store := outbox_step leased_batch (OpMark [1%Z] (second 4)).
Definition published_event : OutboxEvent :=
  realtime_event <| OutboxEvent_PublishedAt := Some (4 * Second)%Z |> <| OutboxEvent_LockedUntil := None |>.
Lemma published_inv : outbox_inv published.
Proof. apply outbox_inv_step; [apply leased_batch_inv|vm_compute; reflexivity]. Qed.
Lemma published_in : published_event ∈ Store_outbox published.
Proof. left. Qed.

Lemma published_event_final_witness :
  ∃ err, ReleaseOutboxEvent published 1 (5 * Second)%Z = (published, Err err).
Proof.
  refine (proj2 (proj2 (proj2 (published_event_final published published_event published _ _ _ _)))
    (5 * Second)%Z).
  - apply published_inv.
  - apply published_in.
  - by eexists.
  - apply run_refl.
Defined.

Lemma prune_outbox_exact_witness :
  length (prunedEvents published (10 * Second) 5) = 1%nat ∧
  published_event ∈ Store_outbox published.
Proof.
  split; [|apply published_in].
  rewrite (proj1 (proj2 (prune_outbox_exact published (10 * Second) 5
    (PrunePublishedOutbox published (10 * Second) 5).1 1 published_inv
    ltac:(apply pair_run; vm_compute; reflexivity)))).
  vm_compute. reflexivity.
Defined.
End witnesses.
