(* ===== verification/Push.v ===== *)
(** * Push deliveries

    The durable per-device push rows of [src/internal/store/memory/memory.go] (lines
    2903-3199 and 3265-3277): fan-out of an outbox event to the recipients' devices,
    leases, the guarded callback, results and retention.

    As for the outbox, a delivery is two critical sections around a callback.  The
    callback is a function on the store, and [others i] is what the other goroutines do
    to the store between two critical sections of the call. *)

From Stdlib Require Import ZArith Lia.
From S2P Require Import Prelude.
From S2P Require Import Runtime.
From S2P Require Import Domain.
From S2P Require Import Compliance.
From S2P Require Import StoreState.
From S2P Require Import Devices.
From S2P Require Import Resets.
From S2P Require Import Messages.
From S2P Require Import Outbox.

Definition PushDeliveryPending : string := "pending".
Definition PushDeliveryDelivered : string := "delivered".
Definition PushDeliveryInvalidToken : string := "invalid_token".
Definition PushDeliveryDeadLetter : string := "dead_letter".
Definition PushDeliveryCanceled : string := "canceled".

Section push.
Context `{GoRuntime}.
Implicit Types (s : Store) (d delivery : PushDelivery) (id limit : Z) (leaseToken userID deviceID : UUID).

(** ** Fan-out *)

Definition pushRecipients (recipientIDs : list UUID) : gset UUID :=
  list_to_set (List.filter (λ u, negb (bool_decide (u = uuid_Nil))) recipientIDs).

Definition pushEligible (recipients : gset UUID) (device : Device) : bool :=
  bool_decide (Device_UserID device ∈ recipients) && MobilePlatform (Device_Platform device)
  && negb (bool_decide (Device_PushToken device = "")).

Definition queuedPush delivery deviceID id (now : Z) : PushDelivery :=
  delivery <| PushDelivery_DeviceID := deviceID |> <| PushDelivery_ID := id |>
    <| PushDelivery_Status := PushDeliveryPending |> <| PushDelivery_Attempts := 0%Z |>
    <| PushDelivery_NextAttemptAt := now |> <| PushDelivery_CreatedAt := now |>
    <| PushDelivery_LeaseToken := uuid_Nil |> <| PushDelivery_LockedUntil := 0%Z |>.

(** One device of the loop; the count is the number of rows inserted so far. *)
Definition enqueueDevice delivery (recipients : gset UUID) (now : Z) (acc : Store * Z)
    (kv : UUID * Device) : Store * Z :=
  let '(s, inserted) := acc in
  if negb (pushEligible recipients kv.2) then acc
  else
    let key := pushDeliveryKey (PushDelivery_OutboxEventID delivery) kv.1 in
    match Store_pushDeliveryByEventDevice s !! key with
    | Some _ => acc
    | None =>
      let id := Store_nextPushDeliveryID s in
      (s <| Store_nextPushDeliveryID ::= (λ n, int64_wrap (n + 1)) |>
         <| Store_pushDeliveries ::= <[id := queuedPush delivery kv.1 id now]> |>
         <| Store_pushDeliveryByEventDevice ::= <[key := id]> |>, (inserted + 1)%Z)
    end.

Definition pushInvalid delivery : bool :=
  (PushDelivery_OutboxEventID delivery <? 1)%Z
  || bool_decide (PushDelivery_ConversationID delivery = uuid_Nil)
  || bool_decide (PushDelivery_EntityID delivery = uuid_Nil)
  || bool_decide (TrimSpace (PushDelivery_NotificationID delivery) = "").

Definition EnqueuePushDeliveries s delivery (recipientIDs : list UUID) (clock : Clock) : Store * res Z :=
  if pushInvalid delivery then (s, Err ErrInvalid)
  else
    let '(s', inserted) :=
      foldl (enqueueDevice delivery (pushRecipients recipientIDs) (clock 0)) (s, 0%Z)
        (range (Store_devices s)) in
    (s', Ok inserted).

(** ** Leases *)

(** [s.devices[delivery.DeviceID].Platform], the zero value when the device is gone. *)
Definition pushPlatform s d : string :=
  match Store_devices s !! PushDelivery_DeviceID d with
  | Some device => Device_Platform device
  | None => ""
  end.

Definition platformMatched s (platforms : list string) d : bool :=
  match platforms with
  | [] => true
  | _ => existsb (λ p, bool_decide (pushPlatform s d = p)) platforms
  end.

Definition pendingPush d : bool := bool_decide (PushDelivery_Status d = PushDeliveryPending).

Definition pushDue s (now : Z) id d : bool :=
  pendingPush d && negb (After (PushDelivery_NextAttemptAt d) now)
  && (IsZero (PushDelivery_LockedUntil d) || negb (After (PushDelivery_LockedUntil d) now))
  && bool_decide (Store_activePushDeliveries s !! id = None).

Definition push_order : relation (Z * PushDelivery) :=
  time_then (λ kv, PushDelivery_NextAttemptAt kv.2) (by_field fst).

(** The device's current owner, token and platform. *)
Definition resolveDevice s d : PushDelivery :=
  match Store_devices s !! PushDelivery_DeviceID d with
  | Some device => d <| PushDelivery_UserID := Device_UserID device |>
                     <| PushDelivery_PushToken := Device_PushToken device |>
                     <| PushDelivery_Platform := Device_Platform device |>
  | None => d
  end.

Definition pushLease : Z := 2 * Minute.

Definition leasePush s (now : Z) leaseToken d : PushDelivery :=
  resolveDevice s (d <| PushDelivery_Attempts ::= (λ n, int64_wrap (n + 1)) |>
                     <| PushDelivery_LeaseToken := leaseToken |>
                     <| PushDelivery_LockedUntil := (now + pushLease)%Z |>).

(** [newID i] is the token of the [i]-th claimed row.  The claimed rows have distinct
    numbers, so the loop of assignments is a union of maps. *)
Definition LockPushDeliveryBatch s limit (platforms : list string) (newID : nat → UUID)
    (clock : Clock) : Store * res (list PushDelivery) :=
  if (limit <? 1)%Z then (s, Err ErrInvalid)
  else
    let now := clock 0 in
    let candidates := take (Z.to_nat limit) (merge_sort push_order
      (List.filter (λ kv : Z * PushDelivery, platformMatched s platforms kv.2 && pushDue s now kv.1 kv.2)
         (range (Store_pushDeliveries s)))) in
    let claimed := imap (λ i (kv : Z * PushDelivery), (kv.1, leasePush s now (newID i) kv.2)) candidates in
    (s <| Store_pushDeliveries ::= (λ m, list_to_map claimed ∪ m) |>, Ok claimed.*2).

(** ** The guarded callback *)

Definition beginPushDelivery s id leaseToken : Store * res PushDelivery :=
  match Store_pushDeliveries s !! id with
  | None => (s, Err ErrNotFound)
  | Some leased =>
    if negb (pendingPush leased) || negb (bool_decide (PushDelivery_LeaseToken leased = leaseToken))
    then (s, Err ErrNotFound)
    else
      match Store_activePushDeliveries s !! id with
      | Some _ => (s, Err ErrNotFound)
      | None =>
        match Store_devices s !! PushDelivery_DeviceID leased with
        | None => (s, Err ErrNotFound)
        | Some _ => (s <| Store_activePushDeliveries ::= <[id := leaseToken]> |>,
                     Ok (resolveDevice s leased))
        end
      end
  end.

Definition endPushDelivery s id leaseToken : Store :=
  if bool_decide (default uuid_Nil (Store_activePushDeliveries s !! id) = leaseToken)
  then s <| Store_activePushDeliveries ::= delete id |> else s.

(** The sender of the message the row announces, [uuid.Nil] when it is not found. *)
Definition pushSender s d : UUID :=
  match List.find (λ m, bool_decide (Message_ID m = PushDelivery_EntityID d))
          (messagesOf s (PushDelivery_ConversationID d)) with
  | Some m => Message_SenderID m
  | None => uuid_Nil
  end.

(** The callback of the worker; [L] stands for the variables it captures. *)
Definition Callback (L : Type) : Type := Store → L → PushDelivery → Store * L * option Error.

(** The body between the two critical sections: the callback, for a message under the
    block check of the compliance repository. *)
Definition guardedDeliver {L : Type} s (l : L) (others : nat → Store → Store) (deliver : Callback L)
    leased : Store * L * option Error :=
  if bool_decide (PushDelivery_Kind leased = "message") then
    let sender := pushSender s leased in
    let s := others 1 s in
    if negb (bool_decide (sender = uuid_Nil)) then
      let '(s', l', err) := deliver s l leased in
      match DeliverIfAllowed (Store_compliance s) (PushDelivery_UserID leased) sender err with
      | (ran, (_, Some err)) => (if ran then (s', l') else (s, l), Some err)
      | (ran, (allowed, None)) =>
        (if ran then (s', l') else (s, l), if allowed : bool then None else Some ErrNotFound)
      end
    else deliver s l leased
  else deliver s l leased.

Definition WithPushDeliveryLease {L : Type} s (l : L) id leaseToken (ctxErr : option Error)
    (others : nat → Store → Store) (deliver : option (Callback L)) : Store * L * option Error :=
  match deliver with
  | None => (s, l, Some ErrInvalid)
  | Some deliver =>
    if (id <? 1)%Z || bool_decide (leaseToken = uuid_Nil) then (s, l, Some ErrInvalid)
    else
      match ctxErr with
      | Some err => (s, l, Some err)
      | None =>
        match beginPushDelivery s id leaseToken with
        | (s, Err err) => (s, l, Some err)
        | (s, Ok leased) =>
          let '(s, l, err) := guardedDeliver (others 0 s) l others deliver leased in
          (endPushDelivery s id leaseToken, l, err)
        end
      end
  end.

(** ** Results *)

Definition closePush d (errorClass : string) : PushDelivery :=
  d <| PushDelivery_LastErrorClass := errorClass |> <| PushDelivery_LeaseToken := uuid_Nil |>
    <| PushDelivery_LockedUntil := 0%Z |>.

Definition applyPushResult d (result : string) (nextAttemptAt now : Z) : option PushDelivery :=
  if bool_decide (result = PushDeliveryPending) then
    Some (d <| PushDelivery_NextAttemptAt := if IsZero nextAttemptAt then now else nextAttemptAt |>)
  else if bool_decide (result = PushDeliveryDelivered) || bool_decide (result = PushDeliveryInvalidToken)
          || bool_decide (result = PushDeliveryCanceled)
  then Some (d <| PushDelivery_Status := result |> <| PushDelivery_DeliveredAt := Some now |>)
  else if bool_decide (result = PushDeliveryDeadLetter)
  then Some (d <| PushDelivery_Status := result |> <| PushDelivery_DeadLetteredAt := Some now |>)
  else None.

Definition FinishPushDelivery s id leaseToken (result : string) (nextAttemptAt : Z)
    (errorClass : string) (clock : Clock) : Store * res unit :=
  match Store_pushDeliveries s !! id with
  | None => (s, Err ErrNotFound)
  | Some d =>
    if negb (pendingPush d) || negb (bool_decide (PushDelivery_LeaseToken d = leaseToken))
    then (s, Err ErrConflict)
    else
      match applyPushResult d result nextAttemptAt (clock 0) with
      | None => (s, Err ErrInvalid)
      | Some d => (s <| Store_pushDeliveries ::= <[id := closePush d errorClass]> |>, Ok tt)
      end
  end.

Definition InvalidatePushDelivery s id leaseToken userID deviceID (pushToken : string)
    (clock : Clock) : Store * res unit :=
  match Store_pushDeliveries s !! id with
  | None => (s, Err ErrNotFound)
  | Some d =>
    if negb (pendingPush d) || negb (bool_decide (PushDelivery_LeaseToken d = leaseToken))
       || negb (bool_decide (PushDelivery_DeviceID d = deviceID))
    then (s, Err ErrConflict)
    else
      match Store_devices s !! deviceID with
      | None => (s, Err ErrNotFound)
      | Some device =>
        if negb (bool_decide (Device_UserID device = userID)) then (s, Err ErrNotFound)
        else
          let s := if bool_decide (Device_PushToken device = pushToken)
                   then s <| Store_devices ::= <[deviceID := device <| Device_PushToken := "" |>]> |>
                   else s in
          let d := d <| PushDelivery_Status := PushDeliveryInvalidToken |>
                     <| PushDelivery_DeliveredAt := Some (clock 0) |> in
          (s <| Store_pushDeliveries ::= <[id := closePush d "invalid_token"]> |>, Ok tt)
      end
  end.

(** ** Retention *)

Definition unpublishedEvents s : gset Z :=
  list_to_set (OutboxEvent_ID <$> List.filter unpublished (Store_outbox s)).

Definition finishedBefore (t : option Z) (before : Z) : bool :=
  match t with Some t => Before t before | None => false end.

Definition pushPrunable s (deliveredBefore deadLetterBefore : Z) d : bool :=
  if bool_decide (PushDelivery_OutboxEventID d ∈ unpublishedEvents s) then false
  else
    (bool_decide (PushDelivery_Status d = PushDeliveryDelivered)
     || bool_decide (PushDelivery_Status d = PushDeliveryInvalidToken)
     || bool_decide (PushDelivery_Status d = PushDeliveryCanceled))
    && finishedBefore (PushDelivery_DeliveredAt d) deliveredBefore
    || bool_decide (PushDelivery_Status d = PushDeliveryDeadLetter)
       && finishedBefore (PushDelivery_DeadLetteredAt d) deadLetterBefore.

Definition terminalPushTime d : Z :=
  match PushDelivery_DeadLetteredAt d, PushDelivery_DeliveredAt d with
  | Some t, _ => t
  | None, Some t => t
  | None, None => 0%Z
  end.

Definition terminal_order : relation (Z * PushDelivery) :=
  time_then (λ kv, terminalPushTime kv.2) (by_field fst).

Definition PrunePushDeliveries s (deliveredBefore deadLetterBefore limit : Z) : Store * res Z :=
  if (limit <? 1)%Z || (MaxRetentionPruneBatchSize <? limit)%Z then (s, Err ErrInvalid)
  else
    let candidates := take (Z.to_nat limit) (merge_sort terminal_order
      (List.filter (λ kv : Z * PushDelivery, pushPrunable s deliveredBefore deadLetterBefore kv.2)
         (range (Store_pushDeliveries s)))) in
    (s <| Store_pushDeliveries ::= delete_all candidates.*1 |>
       <| Store_pushDeliveryByEventDevice ::= delete_all
            ((λ kv : Z * PushDelivery,
               pushDeliveryKey (PushDelivery_OutboxEventID kv.2) (PushDelivery_DeviceID kv.2))
             <$> candidates) |>,
     Ok (Z.of_nat (length candidates))).
End push.

(** ** Fan-out: one row per event and device *)
Section fanout.
Context `{GoRuntime}.
Implicit Types (s : Store) (d delivery : PushDelivery) (id limit : Z).

Definition row_key d : string :=
  pushDeliveryKey (PushDelivery_OutboxEventID d) (PushDelivery_DeviceID d).

(** Rows carry their number, numbers come from the counter, and the index is exactly the
    inverse of the rows' event and device. *)
Record push_inv s : Prop := {
  pi_next : (1 ≤ Store_nextPushDeliveryID s < 2 ^ 63)%Z;
  pi_rows : ∀ i d, Store_pushDeliveries s !! i = Some d →
    PushDelivery_ID d = i ∧ (1 ≤ i < Store_nextPushDeliveryID s)%Z ∧
    Store_pushDeliveryByEventDevice s !! row_key d = Some i;
  pi_index : ∀ k i, Store_pushDeliveryByEventDevice s !! k = Some i →
    ∃ d, Store_pushDeliveries s !! i = Some d ∧ row_key d = k;
}.

(** The tables of this component. *)
Definition push_frame s s' : Prop :=
  Store_pushDeliveries s' = Store_pushDeliveries s ∧
  Store_pushDeliveryByEventDevice s' = Store_pushDeliveryByEventDevice s ∧
  Store_nextPushDeliveryID s' = Store_nextPushDeliveryID s ∧
  Store_activePushDeliveries s' = Store_activePushDeliveries s.

Lemma push_inv_frame s s' :
  Store_pushDeliveries s' = Store_pushDeliveries s →
  Store_pushDeliveryByEventDevice s' = Store_pushDeliveryByEventDevice s →
  Store_nextPushDeliveryID s' = Store_nextPushDeliveryID s → push_inv s → push_inv s'.
Proof. intros H1 H2 H3 []. split; rewrite ?H1, ?H2, ?H3; done. Qed.

(** Replacing a row by one with the same number, event and device. *)
Definition same_row d d' : Prop :=
  PushDelivery_ID d' = PushDelivery_ID d ∧ row_key d' = row_key d.

Lemma Some_Forall2_inv d d' : option_Forall2 same_row (Some d) (Some d') → same_row d d'.
Proof. by inversion 1. Qed.

Lemma push_inv_rewrite s s' :
  push_inv s → Store_pushDeliveryByEventDevice s' = Store_pushDeliveryByEventDevice s →
  Store_nextPushDeliveryID s' = Store_nextPushDeliveryID s →
  (∀ i, option_Forall2 same_row (Store_pushDeliveries s !! i) (Store_pushDeliveries s' !! i)) →
  push_inv s'.
Proof.
  intros [Hn Hr Hi] Hix Hnx Hsame. split; rewrite ?Hix, ?Hnx; [done|..].
  - intros i d' Hd'. specialize (Hsame i). rewrite Hd' in Hsame.
    destruct (Store_pushDeliveries s !! i) as [d|] eqn:Hd; [|by inversion Hsame].
    apply Some_Forall2_inv in Hsame as [Hid Hk]. rewrite Hid, Hk. by apply Hr.
  - intros k i Hk. destruct (Hi k i Hk) as (d & Hd & <-). specialize (Hsame i). rewrite Hd in Hsame.
    destruct (Store_pushDeliveries s' !! i) as [d'|] eqn:Hd'; [|by inversion Hsame].
    apply Some_Forall2_inv in Hsame as [_ Hk']. eauto.
Qed.

(** What the loop of [EnqueuePushDeliveries] has done after some devices. *)
Record enqueued delivery recipients (now : Z) s (devices : list (UUID * Device)) s' (n : Z) : Prop := {
  en_inv : push_inv s';
  en_next : (Store_nextPushDeliveryID s' = Store_nextPushDeliveryID s + n)%Z;
  en_count : (0 ≤ n ≤ Z.of_nat (length devices))%Z;
  en_size : Z.of_nat (size (Store_pushDeliveries s')) = (Z.of_nat (size (Store_pushDeliveries s)) + n)%Z;
  en_old : ∀ i d, Store_pushDeliveries s !! i = Some d → Store_pushDeliveries s' !! i = Some d;
  en_new : ∀ i d, Store_pushDeliveries s' !! i = Some d → Store_pushDeliveries s !! i = Some d ∨
    ∃ deviceID device, (deviceID, device) ∈ devices ∧ pushEligible recipients device = true ∧
      d = queuedPush delivery deviceID i now ∧ (Store_nextPushDeliveryID s ≤ i)%Z ∧
      Store_pushDeliveryByEventDevice s !! row_key d = None;
  en_all : ∀ deviceID device, (deviceID, device) ∈ devices → pushEligible recipients device = true →
    is_Some (Store_pushDeliveryByEventDevice s'
      !! pushDeliveryKey (PushDelivery_OutboxEventID delivery) deviceID);
  en_index : ∀ k i, Store_pushDeliveryByEventDevice s !! k = Some i →
    Store_pushDeliveryByEventDevice s' !! k = Some i;
}.

Lemma enqueued_nil delivery recipients now s : push_inv s → enqueued delivery recipients now s [] s 0.
Proof. intros Hinv. split; cbn; [done|lia|lia|lia|done|auto|by intros ?? ?%not_elem_of_nil|done]. Qed.

Lemma enqueueDevice_inv delivery recipients now s n kv s' n' :
  push_inv s → (Store_nextPushDeliveryID s < 2 ^ 63 - 1)%Z →
  enqueueDevice delivery recipients now (s, n) kv = (s', n') →
  (s' = s ∧ n' = n ∧ (pushEligible recipients kv.2 = true →
     is_Some (Store_pushDeliveryByEventDevice s
       !! pushDeliveryKey (PushDelivery_OutboxEventID delivery) kv.1))) ∨
  (let id := Store_nextPushDeliveryID s in
   let key := pushDeliveryKey (PushDelivery_OutboxEventID delivery) kv.1 in
   n' = (n + 1)%Z ∧ pushEligible recipients kv.2 = true ∧
   Store_pushDeliveryByEventDevice s !! key = None ∧ Store_pushDeliveries s !! id = None ∧
   Store_nextPushDeliveryID s' = (id + 1)%Z ∧
   Store_pushDeliveries s' = <[id := queuedPush delivery kv.1 id now]> (Store_pushDeliveries s) ∧
   Store_pushDeliveryByEventDevice s' = <[key := id]> (Store_pushDeliveryByEventDevice s)).
Proof.
  intros Hinv Hroom. unfold enqueueDevice. destruct (pushEligible _ _) eqn:Hel; cbn [negb].
  2: { intros [= <- <-]. by left. }
  destruct (_ !! _) eqn:Hk; [intros [= <- <-]; left; by eauto|]. intros [= <- <-]. right.
  pose proof (pi_next s Hinv). split_and!; try done.
  - destruct (Store_pushDeliveries s !! _) as [d|] eqn:Hd; [|done].
    apply (pi_rows s Hinv) in Hd. lia.
  - cbn. rewrite int64_wrap_small by lia. done.
Qed.

Lemma push_inv_insert s s' delivery deviceID now :
  let id := Store_nextPushDeliveryID s in
  let key := pushDeliveryKey (PushDelivery_OutboxEventID delivery) deviceID in
  push_inv s → (id < 2 ^ 63 - 1)%Z → Store_pushDeliveryByEventDevice s !! key = None →
  Store_nextPushDeliveryID s' = (id + 1)%Z →
  Store_pushDeliveries s' = <[id := queuedPush delivery deviceID id now]> (Store_pushDeliveries s) →
  Store_pushDeliveryByEventDevice s' = <[key := id]> (Store_pushDeliveryByEventDevice s) → push_inv s'.
Proof.
  intros id key [Hn Hr Hi] Hroom Hkey Hnx Hrows Hix. split; rewrite ?Hnx, ?Hrows, ?Hix.
  - lia.
  - intros i d [[<- <-]|[Hne Hd]]%lookup_insert_Some.
    + split; [done|]. split; [lia|]. apply lookup_insert_eq.
    + destruct (Hr i d Hd) as (? & ? & Hk). split; [done|]. split; [lia|].
      rewrite lookup_insert_ne; [done|]. intros Heq. rewrite <- Heq in Hk. unfold key in *. congruence.
  - intros k i [[<- <-]|[Hne Hk]]%lookup_insert_Some.
    + eexists. split; [apply lookup_insert_eq|done].
    + destruct (Hi k i Hk) as (d & Hd & Hdk). exists d. split; [|done].
      rewrite lookup_insert_ne; [done|]. destruct (Hr i d Hd) as (_ & ? & _). lia.
Qed.

Lemma enqueued_snoc delivery recipients now s l s1 n1 kv s2 n2 :
  (Store_nextPushDeliveryID s + Z.of_nat (length (l ++ [kv])) < 2 ^ 63)%Z →
  enqueued delivery recipients now s l s1 n1 →
  enqueueDevice delivery recipients now (s1, n1) kv = (s2, n2) →
  enqueued delivery recipients now s (l ++ [kv]) s2 n2.
Proof.
  intros Hroom [Hinv Hnext Hcount Hsize Hold Hnew Hall Hix] Hstep. rewrite length_app in Hroom. simpl in Hroom.
  assert (Store_nextPushDeliveryID s1 < 2 ^ 63 - 1)%Z as Hroom1 by lia.
  destruct (enqueueDevice_inv _ _ _ _ _ _ _ _ Hinv Hroom1 Hstep)
    as [(-> & -> & Hsk)|(-> & Hel & Hkey & Hfree & Hnx & Hrows & Hidx)].
  - split; try done.
    + rewrite length_app. simpl. lia.
    + intros i d Hd. destruct (Hnew i d Hd) as [?|(dev & device & ? & ?)]; [by left|right].
      exists dev, device. set_solver.
    + intros dev device [?| <-%list_elem_of_singleton]%elem_of_app Hel; [by eapply Hall|by apply Hsk].
  - split; rewrite ?Hnx, ?Hrows, ?Hidx.
    + by eapply push_inv_insert.
    + lia.
    + rewrite length_app. simpl. lia.
    + rewrite map_size_insert_None by done. lia.
    + intros i d Hd. apply Hold in Hd. rewrite lookup_insert_ne; [done|]. intros <-. congruence.
    + intros i d [[<- <-]|[Hne Hd]]%lookup_insert_Some.
      * right. exists kv.1, kv.2. rewrite <- surjective_pairing.
        split; [set_solver|]. split; [done|]. split; [done|]. split; [lia|].
        change (row_key _) with (pushDeliveryKey (PushDelivery_OutboxEventID delivery) kv.1).
        destruct (Store_pushDeliveryByEventDevice s !! _) as [j|] eqn:Hj; [|done]. apply Hix in Hj. congruence.
      * destruct (Hnew i d Hd) as [?|(dev & device & ? & ?)]; [by left|right].
        exists dev, device. set_solver.
    + intros dev device [Hin| <-%list_elem_of_singleton]%elem_of_app Hel'.
      * destruct (Hall dev device Hin Hel') as [i Hi]. rewrite lookup_insert. case_decide; eauto.
      * rewrite lookup_insert_eq. eauto.
    + intros k i Hk. apply Hix in Hk. rewrite lookup_insert_ne; [done|]. intros <-. congruence.
Qed.

Lemma enqueue_fold delivery recipients now s l :
  push_inv s → (Store_nextPushDeliveryID s + Z.of_nat (length l) < 2 ^ 63)%Z →
  ∃ s' n, foldl (enqueueDevice delivery recipients now) (s, 0%Z) l = (s', n) ∧
    enqueued delivery recipients now s l s' n.
Proof.
  intros Hinv. induction l as [|kv l IH] using rev_ind; intros Hroom.
  { exists s, 0%Z. split; [done|by apply enqueued_nil]. }
  destruct IH as (s1 & n1 & Hf & Hen); [rewrite length_app in Hroom; simpl in Hroom; lia|].
  rewrite foldl_app, Hf. cbn [foldl].
  destruct (enqueueDevice _ _ _ _ _) as [s2 n2] eqn:Hstep. exists s2, n2. split; [done|].
  by eapply enqueued_snoc.
Qed.

(** The counter has room for one row per device. *)
Definition push_room s : Prop :=
  (Store_nextPushDeliveryID s + Z.of_nat (size (Store_devices s)) < 2 ^ 63)%Z.

Lemma enqueue_run s delivery recipientIDs clock :
  push_inv s → push_room s → pushInvalid delivery = false →
  ∃ s' n, EnqueuePushDeliveries s delivery recipientIDs clock = (s', Ok n) ∧
    enqueued delivery (pushRecipients recipientIDs) (clock 0) s (range (Store_devices s)) s' n.
Proof.
  intros Hinv Hroom Hv. unfold EnqueuePushDeliveries. rewrite Hv.
  destruct (enqueue_fold delivery (pushRecipients recipientIDs) (clock 0) s (range (Store_devices s)) Hinv)
    as (s' & n & -> & Hen); [by rewrite length_range|]. eauto.
Qed.

Lemma enqueue_ok s delivery recipientIDs clock s' n :
  push_inv s → push_room s → EnqueuePushDeliveries s delivery recipientIDs clock = (s', Ok n) →
  enqueued delivery (pushRecipients recipientIDs) (clock 0) s (range (Store_devices s)) s' n.
Proof.
  intros Hinv Hroom Heq. destruct (pushInvalid delivery) eqn:Hv.
  { unfold EnqueuePushDeliveries in Heq. by rewrite Hv in Heq. }
  destruct (enqueue_run s delivery recipientIDs clock Hinv Hroom Hv) as (s1 & n1 & Hrun & Hen).
  rewrite Hrun in Heq. by simplify_eq.
Qed.

(** A pass in which every eligible device is already indexed changes nothing. *)
Lemma enqueue_idle delivery recipients now s n l :
  (∀ dev device, (dev, device) ∈ l → pushEligible recipients device = true →
     is_Some (Store_pushDeliveryByEventDevice s
       !! pushDeliveryKey (PushDelivery_OutboxEventID delivery) dev)) →
  foldl (enqueueDevice delivery recipients now) (s, n) l = (s, n).
Proof.
  induction l as [|[dev device] l IH]; intros Hall; [done|]. cbn [foldl].
  assert (enqueueDevice delivery recipients now (s, n) (dev, device) = (s, n)) as ->.
  { unfold enqueueDevice. cbn [fst snd]. destruct (pushEligible _ _) eqn:Hel; [|done]. cbn [negb].
    destruct (Hall dev device) as [i ->]; [left|done|done]. }
  apply IH. intros dev' device' Hin. apply Hall. by right.
Qed.

Lemma enqueue_tables delivery recipients now s n l s' n' :
  foldl (enqueueDevice delivery recipients now) (s, n) l = (s', n') →
  Store_devices s' = Store_devices s ∧ Store_activePushDeliveries s' = Store_activePushDeliveries s.
Proof.
  revert s n. induction l as [|kv l IH]; intros s n; cbn [foldl]; [by intros [= <- _]|].
  destruct (enqueueDevice _ _ _ _ _) as [s1 n1] eqn:Hstep. intros Hf. destruct (IH _ _ Hf) as [-> ->].
  revert Hstep. unfold enqueueDevice. repeat case_match; by intros [= <- _].
Qed.

(** An outbox event is fanned out to each device once.  A successful
    [EnqueuePushDeliveries] leaves the existing rows alone; afterwards every mobile
    device with a token whose owner is a recipient has a row for the event, no two rows
    are for the same event and device, the rows added are pending rows of such devices,
    as many as the result says; and a retry of the same call adds nothing. *)
Theorem push_fanout_once s delivery recipientIDs clock s' n clock' :
  push_inv s → push_room s → EnqueuePushDeliveries s delivery recipientIDs clock = (s', Ok n) →
  let event := PushDelivery_OutboxEventID delivery in
  let recipients := pushRecipients recipientIDs in
  (∀ i d, Store_pushDeliveries s !! i = Some d → Store_pushDeliveries s' !! i = Some d) ∧
  (∀ dev device, Store_devices s !! dev = Some device → pushEligible recipients device = true →
     ∃ i d, Store_pushDeliveries s' !! i = Some d ∧ PushDelivery_OutboxEventID d = event ∧
       PushDelivery_DeviceID d = dev) ∧
  (∀ i j d e, Store_pushDeliveries s' !! i = Some d → Store_pushDeliveries s' !! j = Some e →
     PushDelivery_OutboxEventID d = PushDelivery_OutboxEventID e →
     PushDelivery_DeviceID d = PushDelivery_DeviceID e → i = j) ∧
  (∀ i d, Store_pushDeliveries s' !! i = Some d → Store_pushDeliveries s !! i = None →
     ∃ device, Store_devices s !! PushDelivery_DeviceID d = Some device ∧
       pushEligible recipients device = true ∧
       d = queuedPush delivery (PushDelivery_DeviceID d) i (clock 0)) ∧
  Z.of_nat (size (Store_pushDeliveries s')) = (Z.of_nat (size (Store_pushDeliveries s)) + n)%Z ∧
  EnqueuePushDeliveries s' delivery recipientIDs clock' = (s', Ok 0%Z).
Proof.
  intros Hinv Hroom Heq event recipients.
  pose proof (enqueue_ok _ _ _ _ _ _ Hinv Hroom Heq) as [Hinv' _ _ Hsize Hold Hnew Hall _].
  split_and!; [done|..|done|].
  - intros dev device Hdev Hel. destruct (Hall dev device) as [i Hi]; [by apply elem_of_range|done|].
    destruct (pi_index _ Hinv' _ _ Hi) as (d & Hd & Hk).
    apply pushDeliveryKey_inj in Hk as [? ?]. eauto 10.
  - intros i j d e Hd He Hev Hdv. apply (pi_rows _ Hinv') in Hd as (_ & _ & Hi), He as (_ & _ & Hj).
    unfold row_key in *. congruence.
  - intros i d Hd Hnone. destruct (Hnew i d Hd) as [?|(dev & device & Hin & Hel & -> & _ & _)]; [congruence|].
    apply elem_of_range in Hin. by exists device.
  - revert Heq. unfold EnqueuePushDeliveries. destruct (pushInvalid delivery); [done|].
    destruct (foldl _ _ _) as [s1 n1] eqn:Hf. intros [= <- <-].
    rewrite (proj1 (enqueue_tables _ _ _ _ _ _ _ _ Hf)). by rewrite enqueue_idle.
Qed.
End fanout.

(** ** Runs of the push operations *)
Inductive PushOp :=
  | OpEnqueue (delivery : PushDelivery) (recipientIDs : list UUID) (clock : Clock)
  | OpLockPush (limit : Z) (platforms : list string) (newID : nat → UUID) (clock : Clock)
  | OpBeginPush (id : Z) (leaseToken : UUID)
  | OpEndPush (id : Z) (leaseToken : UUID)
  | OpFinishPush (id : Z) (leaseToken : UUID) (result : string) (next : Z) (errorClass : string)
      (clock : Clock)
  | OpInvalidate (id : Z) (leaseToken userID deviceID : UUID) (pushToken : string) (clock : Clock)
  | OpPrunePush (deliveredBefore deadLetterBefore limit : Z).

Section runs.
Context `{GoRuntime}.
Implicit Types (s : Store) (d : PushDelivery) (id limit : Z) (op : PushOp) (leaseToken : UUID).

Definition push_step s op : Store :=
  match op with
  | OpEnqueue delivery recipientIDs clock => (EnqueuePushDeliveries s delivery recipientIDs clock).1
  | OpLockPush limit platforms newID clock => (LockPushDeliveryBatch s limit platforms newID clock).1
  | OpBeginPush id token => (beginPushDelivery s id token).1
  | OpEndPush id token => endPushDelivery s id token
  | OpFinishPush id token result next cls clock =>
    (FinishPushDelivery s id token result next cls clock).1
  | OpInvalidate id token userID deviceID pushToken clock =>
    (InvalidatePushDelivery s id token userID deviceID pushToken clock).1
  | OpPrunePush a b limit => (PrunePushDeliveries s a b limit).1
  end.

(** The token with which an operation reports on a row. *)
Definition reports op : option (Z * UUID) :=
  match op with
  | OpFinishPush id token _ _ _ _ | OpInvalidate id token _ _ _ _ => Some (id, token)
  | _ => None
  end.

(** Everything a step can do to one row. *)
Inductive push_change s op (i : Z) : option PushDelivery → option PushDelivery → Prop :=
  | pc_same row : push_change s op i row row
  | pc_queued d : (Store_nextPushDeliveryID s ≤ i)%Z → pendingPush d = true →
      push_change s op i None (Some d)
  | pc_leased d token limit platforms newID clock : op = OpLockPush limit platforms newID clock →
      pushDue s (clock 0) i d = true →
      push_change s op i (Some d) (Some (leasePush s (clock 0) token d))
  | pc_reported d d' : reports op = Some (i, PushDelivery_LeaseToken d) → pendingPush d = true →
      same_row d d' → push_change s op i (Some d) (Some d')
  | pc_pruned d a b limit : op = OpPrunePush a b limit → pushPrunable s a b d = true →
      push_change s op i (Some d) None.

Lemma pushPrunable_finished s a b d : pushPrunable s a b d = true → pendingPush d = false.
Proof.
  unfold pushPrunable, pendingPush. case_bool_decide; [done|]. intros Hp.
  apply bool_decide_eq_false. intros Hs. rewrite Hs in Hp. done.
Qed.

(** The claimed batch: distinct rows that were due, leased as they were. *)
Lemma LockPush_spec s limit platforms newID clock s' batch :
  push_inv s → LockPushDeliveryBatch s limit platforms newID clock = (s', Ok batch) →
  (1 ≤ limit)%Z ∧ NoDup (PushDelivery_ID <$> batch) ∧ (Z.of_nat (length batch) ≤ limit)%Z ∧
  (∀ d', d' ∈ batch → ∃ d k, Store_pushDeliveries s !! PushDelivery_ID d' = Some d ∧
     pushDue s (clock 0) (PushDelivery_ID d') d = true ∧
     d' = leasePush s (clock 0) (newID k) d ∧
     Store_pushDeliveries s' !! PushDelivery_ID d' = Some d') ∧
  (∀ i, i ∉ PushDelivery_ID <$> batch → Store_pushDeliveries s' !! i = Store_pushDeliveries s !! i) ∧
  Store_pushDeliveryByEventDevice s' = Store_pushDeliveryByEventDevice s ∧
  Store_nextPushDeliveryID s' = Store_nextPushDeliveryID s ∧
  Store_activePushDeliveries s' = Store_activePushDeliveries s.
Proof.
  intros Hinv. unfold LockPushDeliveryBatch. destruct (limit <? 1)%Z eqn:Hlim; [done|].
  cbv zeta. set (cands := take _ _). set (claimed := imap _ cands). intros [= <- <-]. bool_prop.
  assert (∀ kv, kv ∈ cands → Store_pushDeliveries s !! kv.1 = Some kv.2 ∧
    pushDue s (clock 0) kv.1 kv.2 = true) as Hc.
  { intros [i d] (j & Hj & _)%elem_of_take. apply list_elem_of_lookup_2 in Hj.
    rewrite merge_sort_Permutation in Hj. apply elem_of_bool_filter in Hj as [Hr Hf].
    apply elem_of_range in Hr. by bool_prop. }
  assert (∀ d token, PushDelivery_ID (leasePush s (clock 0) token d) = PushDelivery_ID d) as Hlid.
  { intros d token. unfold leasePush, resolveDevice. by case_match. }
  assert (∀ kv', kv' ∈ claimed → ∃ d k, Store_pushDeliveries s !! kv'.1 = Some d ∧
    pushDue s (clock 0) kv'.1 d = true ∧ kv'.2 = leasePush s (clock 0) (newID k) d ∧
    PushDelivery_ID kv'.2 = kv'.1) as Hcl.
  { intros kv' (k & Hk)%list_elem_of_lookup. unfold claimed in Hk. rewrite list_lookup_imap in Hk.
    apply fmap_Some in Hk as (kv & Hkv & ->). destruct (Hc kv) as [Hd Hdue];
      [by eapply list_elem_of_lookup_2|]. exists kv.2, k. split_and!; try done.
    cbn. rewrite Hlid. by apply (pi_rows s Hinv). }
  assert (claimed.*1 = cands.*1) as Hfst.
  { apply list_eq. intros i. unfold claimed. rewrite !list_lookup_fmap, list_lookup_imap.
    by destruct (cands !! i). }
  assert (NoDup claimed.*1) as Hnd.
  { rewrite Hfst. unfold cands. rewrite fmap_take. eapply sublist_NoDup; [|apply sublist_take].
    rewrite merge_sort_Permutation. apply NoDup_fmap_filter, NoDup_fst_range. }
  assert (PushDelivery_ID <$> claimed.*2 = claimed.*1) as Hids.
  { rewrite <- list_fmap_compose. apply list_fmap_ext. intros i kv Hi.
    apply list_elem_of_lookup_2 in Hi. by destruct (Hcl _ Hi) as (? & ? & _ & _ & _ & ?). }
  rewrite Hids. split_and!; try done.
  - unfold claimed, cands. rewrite length_fmap, length_imap, length_take. lia.
  - intros d' (kv' & -> & Hin)%list_elem_of_fmap. destruct (Hcl kv' Hin) as (d & k & Hd & Hdue & Heq & Hid).
    rewrite Hid. exists d, k. split_and!; try done. cbn. apply lookup_union_Some_l.
    apply elem_of_list_to_map; [done|]. by destruct kv'.
  - intros i Hi. cbn. rewrite lookup_union_r; [done|]. by apply not_elem_of_list_to_map.
Qed.

Lemma FinishPush_spec s id token result next cls clock s' r :
  FinishPushDelivery s id token result next cls clock = (s', r) →
  (s' = s ∧ ∃ e, r = Err e) ∨
  ∃ d d', r = Ok tt ∧ Store_pushDeliveries s !! id = Some d ∧ pendingPush d = true ∧
    PushDelivery_LeaseToken d = token ∧ same_row d d' ∧
    s' = s <| Store_pushDeliveries ::= <[id := d']> |>.
Proof.
  unfold FinishPushDelivery. destruct (_ !! id) as [d|] eqn:Hd; [|by intros [= <- <-]; left; eauto].
  destruct (_ || _) eqn:Hg; [by intros [= <- <-]; left; eauto|]. bool_prop.
  destruct (applyPushResult _ _ _ _) as [d'|] eqn:Ha; intros [= <- <-]; [right|by left; eauto].
  exists d, (closePush d' cls). split_and!; try done.
  unfold applyPushResult in Ha. by op_cases Ha.
Qed.

Lemma InvalidatePush_spec s id token userID deviceID pushToken clock s' r :
  InvalidatePushDelivery s id token userID deviceID pushToken clock = (s', r) →
  (s' = s ∧ ∃ e, r = Err e) ∨
  ∃ d d', r = Ok tt ∧ Store_pushDeliveries s !! id = Some d ∧ pendingPush d = true ∧
    PushDelivery_LeaseToken d = token ∧ same_row d d' ∧
    Store_pushDeliveries s' = <[id := d']> (Store_pushDeliveries s) ∧
    Store_pushDeliveryByEventDevice s' = Store_pushDeliveryByEventDevice s ∧
    Store_nextPushDeliveryID s' = Store_nextPushDeliveryID s ∧
    Store_activePushDeliveries s' = Store_activePushDeliveries s.
Proof.
  unfold InvalidatePushDelivery. destruct (_ !! id) as [d|] eqn:Hd; [|by intros [= <- <-]; left; eauto].
  destruct (_ || _ || _) eqn:Hg; [by intros [= <- <-]; left; eauto|]. bool_prop.
  destruct (Store_devices s !! deviceID) as [device|]; [|by intros [= <- <-]; left; eauto].
  destruct (negb _); [by intros [= <- <-]; left; eauto|]. cbv zeta. intros [= <- <-]. right.
  eexists d, _. split; [done|]. split; [done|]. split; [done|]. split; [done|].
  case_bool_decide; (split; [|done]); done.
Qed.

Lemma push_inv_prune s a b limit : push_inv s → push_inv (PrunePushDeliveries s a b limit).1.
Proof.
  intros Hinv. unfold PrunePushDeliveries. destruct (_ || _); [done|]. cbv zeta.
  set (cands := take _ _).
  assert (∀ i d, (i, d) ∈ cands → Store_pushDeliveries s !! i = Some d) as Hc.
  { intros i d (j & Hj & _)%elem_of_take. apply list_elem_of_lookup_2 in Hj.
    rewrite merge_sort_Permutation in Hj. apply elem_of_bool_filter in Hj as [Hr _].
    by apply elem_of_range in Hr. }
  destruct Hinv as [Hn Hr Hi]. split; cbn.
  - done.
  - intros i d. rewrite lookup_delete_all. destruct (decide (i ∈ cands.*1)) as [|Hni]; [done|].
    intros Hd. destruct (Hr i d Hd) as (? & ? & Hk). split; [done|]. split; [done|].
    rewrite lookup_delete_all. destruct (decide _) as [Hin|]; [|done].
    apply list_elem_of_fmap in Hin as ([j e] & Hke & Hin). pose proof (Hc j e Hin) as He.
    apply Hr in He as (_ & _ & Hkj). unfold row_key in *. cbn in Hke. rewrite Hke in Hk. simplify_eq.
    destruct Hni. by apply (list_elem_of_fmap_2 fst _ _ Hin).
  - intros k i. rewrite lookup_delete_all. destruct (decide _) as [|Hnk]; [done|]. intros Hk.
    destruct (Hi k i Hk) as (d & Hd & <-). exists d. split; [|done]. rewrite lookup_delete_all.
    destruct (decide _) as [Hin|]; [|done]. destruct Hnk. apply list_elem_of_fmap.
    apply list_elem_of_fmap in Hin as ([j e] & -> & Hin). exists (j, e). split; [|done].
    pose proof (Hc j e Hin). cbn in *. by simplify_eq.
Qed.

(** Enqueueing needs room for the numbers of the new rows. *)
Definition push_ok s op : Prop := match op with OpEnqueue _ _ _ => push_room s | _ => True end.

Lemma push_inv_write s s' id d d' :
  push_inv s → Store_pushDeliveries s !! id = Some d → same_row d d' →
  Store_pushDeliveries s' = <[id := d']> (Store_pushDeliveries s) →
  Store_pushDeliveryByEventDevice s' = Store_pushDeliveryByEventDevice s →
  Store_nextPushDeliveryID s' = Store_nextPushDeliveryID s → push_inv s'.
Proof.
  intros Hinv Hd Hsame Hrows Hix Hnx. eapply push_inv_rewrite; [exact Hinv|done|done|].
  intros i. rewrite Hrows. destruct (decide (id = i)) as [->|Hne].
  - rewrite Hd, lookup_insert_eq. by constructor.
  - rewrite lookup_insert_ne by done. destruct (_ !! i); by constructor.
Qed.

Lemma same_row_lease s now token d : same_row d (leasePush s now token d).
Proof. unfold leasePush, resolveDevice. by case_match. Qed.

Lemma push_inv_step s op : push_inv s → push_ok s op → push_inv (push_step s op).
Proof.
  intros Hinv Hok.
  destruct op as [delivery ids clock|limit platforms newID clock|id token|id token|id token result next cls clock
    |id token userID deviceID pt clock|a b limit]; cbn [push_step].
  - destruct (EnqueuePushDeliveries _ _ _ _) as [s' [n|e]] eqn:He.
    + by destruct (enqueue_ok _ _ _ _ _ _ Hinv Hok He).
    + unfold EnqueuePushDeliveries in He. op_cases He. done.
  - destruct (LockPushDeliveryBatch _ _ _ _ _) as [s' [batch|e]] eqn:Hl.
    2: { unfold LockPushDeliveryBatch in Hl. op_cases Hl. done. }
    destruct (LockPush_spec _ _ _ _ _ _ _ Hinv Hl) as (_ & _ & _ & Hb & Ho & Hix & Hnx & _).
    eapply push_inv_rewrite; [exact Hinv|done|done|]. intros i. cbn.
    destruct (decide (i ∈ (PushDelivery_ID <$> batch))) as [Hin|Hni].
    + apply list_elem_of_fmap in Hin as (d' & -> & Hd'). destruct (Hb _ Hd') as (d & k & -> & _ & Heq & ->).
      constructor. rewrite Heq. apply same_row_lease.
    + rewrite Ho by done. destruct (_ !! i); by constructor.
  - apply (push_inv_frame s); [..|done]; unfold beginPushDelivery; by repeat case_match.
  - apply (push_inv_frame s); [..|done]; unfold endPushDelivery; by case_match.
  - destruct (FinishPushDelivery _ _ _ _ _ _ _) as [s' r] eqn:Hf.
    apply FinishPush_spec in Hf as [[-> _]|(d & d' & _ & Hd & _ & _ & Hs & ->)]; [done|].
    by eapply push_inv_write.
  - destruct (InvalidatePushDelivery _ _ _ _ _ _ _) as [s' r] eqn:Hf.
    apply InvalidatePush_spec in Hf as [[-> _]|(d & d' & _ & Hd & _ & _ & Hs & ? & ? & ? & _)]; [done|].
    by eapply push_inv_write.
  - by apply push_inv_prune.
Qed.

Lemma push_step_row s op i :
  push_inv s → push_ok s op →
  push_change s op i (Store_pushDeliveries s !! i) (Store_pushDeliveries (push_step s op) !! i).
Proof.
  intros Hinv Hok.
  destruct op as [delivery ids clock|limit platforms newID clock|id token|id token|id token result next cls clock
    |id token userID deviceID pt clock|a b limit]; cbn [push_step].
  - destruct (EnqueuePushDeliveries _ _ _ _) as [s' [n|e]] eqn:He.
    2: { unfold EnqueuePushDeliveries in He. op_cases He. constructor. }
    destruct (enqueue_ok _ _ _ _ _ _ Hinv Hok He) as [_ _ _ _ Hold Hnew _ _]. cbn.
    destruct (Store_pushDeliveries s !! i) as [d|] eqn:Hd; [rewrite (Hold _ _ Hd); constructor|].
    destruct (Store_pushDeliveries s' !! i) as [d'|] eqn:Hd'; [|constructor].
    destruct (Hnew i d' Hd') as [?|(dev & device & _ & _ & -> & Hi & _)]; [congruence|].
    by constructor.
  - destruct (LockPushDeliveryBatch _ _ _ _ _) as [s' [batch|e]] eqn:Hl.
    2: { unfold LockPushDeliveryBatch in Hl. op_cases Hl. constructor. }
    destruct (LockPush_spec _ _ _ _ _ _ _ Hinv Hl) as (_ & _ & _ & Hb & Ho & _). cbn.
    destruct (decide (i ∈ (PushDelivery_ID <$> batch))) as [Hin|Hni]; [|rewrite Ho by done; constructor].
    apply list_elem_of_fmap in Hin as (d' & -> & Hd'). destruct (Hb _ Hd') as (d & k & Hd & Hdue & Heq & ->).
    set (i := PushDelivery_ID d') in *. clearbody i. rewrite Hd. subst d'. by econstructor.
  - unfold beginPushDelivery. repeat case_match; constructor.
  - unfold endPushDelivery. case_match; constructor.
  - destruct (FinishPushDelivery _ _ _ _ _ _ _) as [s' r] eqn:Hf.
    apply FinishPush_spec in Hf as [[-> _]|(d & d' & _ & Hd & Hp & <- & Hs & ->)]; [constructor|].
    cbn. destruct (decide (id = i)) as [->|]; [|rewrite lookup_insert_ne by done; constructor].
    rewrite lookup_insert_eq, Hd. by constructor.
  - destruct (InvalidatePushDelivery _ _ _ _ _ _ _) as [s' r] eqn:Hf.
    apply InvalidatePush_spec in Hf as [[-> _]|(d & d' & _ & Hd & Hp & <- & Hs & Hrow & _)]; [constructor|].
    cbn. rewrite Hrow. destruct (decide (id = i)) as [->|]; [|rewrite lookup_insert_ne by done; constructor].
    rewrite lookup_insert_eq, Hd. by constructor.
  - unfold PrunePushDeliveries. destruct (_ || _); [constructor|]. cbn. rewrite lookup_delete_all.
    case_decide as Hin; [|constructor]. apply list_elem_of_fmap in Hin as ([j d] & -> & Hin).
    apply elem_of_take in Hin as (k & Hin & _). apply list_elem_of_lookup_2 in Hin.
    rewrite merge_sort_Permutation in Hin. apply elem_of_bool_filter in Hin as [Hr Hp].
    apply elem_of_range in Hr. cbn in *. rewrite Hr. by econstructor.
Qed.

Lemma push_step_active s op i :
  Store_activePushDeliveries (push_step s op) !! i = Store_activePushDeliveries s !! i ∨
  (∃ token, op = OpBeginPush i token ∧ Store_activePushDeliveries s !! i = None) ∨
  (∃ token, op = OpEndPush i token ∧ default uuid_Nil (Store_activePushDeliveries s !! i) = token).
Proof.
  destruct op as [delivery ids clock|limit platforms newID clock|id token|id token|id token result next cls clock
    |id token userID deviceID pt clock|a b limit]; cbn [push_step].
  - left. unfold EnqueuePushDeliveries. case_match; [done|].
    destruct (foldl _ _ _) as [s' n] eqn:Hf. cbn. by rewrite (proj2 (enqueue_tables _ _ _ _ _ _ _ _ Hf)).
  - left. unfold LockPushDeliveryBatch. by case_match.
  - unfold beginPushDelivery. repeat case_match; auto. cbn.
    destruct (decide (id = i)) as [->|]; [eauto|]. rewrite lookup_insert_ne by done. auto.
  - unfold endPushDelivery. case_bool_decide; [|auto]. cbn.
    destruct (decide (id = i)) as [->|]; [eauto|]. rewrite lookup_delete_ne by done. auto.
  - destruct (FinishPushDelivery _ _ _ _ _ _ _) as [s' r] eqn:Hf.
    apply FinishPush_spec in Hf as [[-> _]|(d & d' & _ & _ & _ & _ & _ & ->)]; auto.
  - destruct (InvalidatePushDelivery _ _ _ _ _ _ _) as [s' r] eqn:Hf. left. cbn.
    apply InvalidatePush_spec in Hf as [[-> _]|(d & d' & _ & _ & _ & _ & _ & _ & _ & _ & ->)]; done.
  - left. unfold PrunePushDeliveries. by case_match.
Qed.
End runs.

(** ** Leases, the callback, finished rows *)
Section delivery.
Context `{GoRuntime}.
Implicit Types (s : Store) (d : PushDelivery) (id limit : Z) (op : PushOp) (token : UUID).

(** A stretch of a run whose push steps satisfy [P]. *)
Inductive push_run (P : PushOp → Prop) s : Store → Prop :=
  | prun_refl : push_run P s s
  | prun_op s1 op : push_run P s s1 → push_ok s1 op → P op → push_run P s (push_step s1 op)
  | prun_other s1 s2 : push_run P s s1 → push_frame s1 s2 → push_run P s s2.

Lemma push_step_next s op :
  push_inv s → push_ok s op → (Store_nextPushDeliveryID s ≤ Store_nextPushDeliveryID (push_step s op))%Z.
Proof.
  intros Hinv Hok.
  destruct op as [delivery ids clock|limit platforms newID clock|id token|id token|id token result next cls clock
    |id token userID deviceID pt clock|a b limit]; cbn [push_step].
  - destruct (EnqueuePushDeliveries _ _ _ _) as [s' [n|e]] eqn:He.
    + destruct (enqueue_ok _ _ _ _ _ _ Hinv Hok He). cbn. lia.
    + unfold EnqueuePushDeliveries in He. op_cases He. done.
  - unfold LockPushDeliveryBatch. by case_match.
  - unfold beginPushDelivery. by repeat case_match.
  - unfold endPushDelivery. by case_match.
  - unfold FinishPushDelivery. by repeat case_match.
  - destruct (InvalidatePushDelivery _ _ _ _ _ _ _) as [s' r] eqn:Hf. cbn.
    apply InvalidatePush_spec in Hf as [[-> _]|(d & d' & _ & _ & _ & _ & _ & _ & _ & -> & _)]; done.
  - unfold PrunePushDeliveries. by case_match.
Qed.

(** Row [i] keeps a property that the allowed changes preserve. *)
Lemma push_run_row (P : PushOp → Prop) (Q : option PushDelivery → Prop) s s2 i :
  push_inv s → (i < Store_nextPushDeliveryID s)%Z →
  (∀ s op row row', P op → (i < Store_nextPushDeliveryID s)%Z → Q row →
     push_change s op i row row' → Q row') →
  push_run P s s2 → Q (Store_pushDeliveries s !! i) →
  push_inv s2 ∧ Q (Store_pushDeliveries s2 !! i).
Proof.
  intros Hinv Hi Hch Hrun HQ.
  assert (push_inv s2 ∧ (i < Store_nextPushDeliveryID s2)%Z ∧ Q (Store_pushDeliveries s2 !! i))
    as (? & _ & ?); [|done].
  induction Hrun as [|s1 op _ (IHi & IHn & IHQ) Hok HP|s1 s2 _ (IHi & IHn & IHQ) (Hr & Hx & Hn & _)]; [done|..].
  - pose proof (push_step_next s1 op IHi Hok). split; [by apply push_inv_step|]. split; [lia|].
    eapply Hch; [exact HP|exact IHn|exact IHQ|]. by apply push_step_row.
  - rewrite Hr, Hn. split; [|done]. by eapply push_inv_frame.
Qed.

(** Everybody but the holder of the lease, while it runs. *)
Definition lease_held id token (deadline : Z) op : Prop :=
  reports op ≠ Some (id, token) ∧
  match op with OpLockPush _ _ _ clock => (clock 0%nat < deadline)%Z | _ => True end.

Lemma leasePush_facts s now token d :
  PushDelivery_LeaseToken (leasePush s now token d) = token ∧
  PushDelivery_LockedUntil (leasePush s now token d) = (now + pushLease)%Z ∧
  pendingPush (leasePush s now token d) = pendingPush d.
Proof. unfold leasePush, resolveDevice. by case_match. Qed.

Lemma pushDue_facts s now i d :
  pushDue s now i d = true →
  pendingPush d = true ∧ (PushDelivery_LockedUntil d = 0%Z ∨ (PushDelivery_LockedUntil d ≤ now)%Z) ∧
  Store_activePushDeliveries s !! i = None.
Proof.
  unfold pushDue. intros Hd. bool_prop.
  match goal with Hz : _ || _ = true |- _ => apply orb_true_iff in Hz as [Hz|Hz] end; bool_prop; auto.
Qed.

(** A push row is leased to one worker.  A lock call returns at most
    [limit] distinct rows.  From then until the lease of a returned row [d] runs out,
    whatever the others do: the row stays exactly as leased (it is not even pruned), no
    lock call returns it, no delivery of it starts under another token, and a valid
    report of the holder is accepted. *)
Theorem push_lease_exclusive s limit platforms newID clock s1 batch d s2 :
  let id := PushDelivery_ID d in
  let token := PushDelivery_LeaseToken d in
  let deadline := (clock 0%nat + pushLease)%Z in
  push_inv s → (0 ≤ clock 0%nat)%Z →
  LockPushDeliveryBatch s limit platforms newID clock = (s1, Ok batch) → d ∈ batch →
  push_run (lease_held id token deadline) s1 s2 →
  NoDup (PushDelivery_ID <$> batch) ∧ (Z.of_nat (length batch) ≤ limit)%Z ∧
  Store_pushDeliveries s2 !! id = Some d ∧
  (∀ limit' platforms' newID' clock' s3 batch', (clock' 0%nat < deadline)%Z →
     LockPushDeliveryBatch s2 limit' platforms' newID' clock' = (s3, Ok batch') →
     id ∉ (PushDelivery_ID <$> batch')) ∧
  (∀ token', token' ≠ token → beginPushDelivery s2 id token' = (s2, Err ErrNotFound)) ∧
  (∀ result next cls clock', is_Some (applyPushResult d result next (clock' 0%nat)) →
     (FinishPushDelivery s2 id token result next cls clock').2 = Ok tt).
Proof.
  intros id token deadline Hinv H0 Hl Hd Hrun.
  destruct (LockPush_spec _ _ _ _ _ _ _ Hinv Hl) as (_ & Hnd & Hlen & Hb & _ & _ & Hnx & _).
  destruct (Hb d Hd) as (d0 & k & Hd0 & Hdue & Heq & Hrow).
  apply pushDue_facts in Hdue as (Hpend & _ & _).
  destruct (leasePush_facts s (clock 0) (newID k) d0) as (_ & Hlock & Hp). rewrite <- Heq in Hlock, Hp.
  rewrite Hpend in Hp. fold deadline in Hlock. fold id in Hd0, Hrow.
  assert (deadline ≠ 0%Z) as Hnz by (unfold deadline, pushLease, Minute, Second; lia).
  assert (push_inv s1) as Hinv1.
  { pose proof (push_inv_step s (OpLockPush limit platforms newID clock) Hinv I) as Hi.
    cbn in Hi. by rewrite Hl in Hi. }
  destruct (push_run_row (lease_held id token deadline) (λ row, row = Some d) s1 s2 id) as [Hinv2 Hrow2];
    [done|by apply (pi_rows _ Hinv1) in Hrow as (_ & [_ ?] & _)| |done|done|].
  { intros s' op row row' [Hrep Hbl] _ -> Hch. inversion Hch as [|?|e tk lim pl nid cl Hop Hdu|e e' Hre _ _|e a b lim _ Hpr];
      subst; [done| |by destruct Hrep|].
    - apply pushDue_facts in Hdu as (_ & Hlu & _). rewrite Hlock in Hlu. destruct Hlu; [done|lia].
    - apply pushPrunable_finished in Hpr. congruence. }
  split_and!; [done|done|done|..].
  - intros limit' platforms' newID' clock' s3 batch' Hlt Hl' (e & Hid & Hin)%list_elem_of_fmap.
    destruct (LockPush_spec _ _ _ _ _ _ _ Hinv2 Hl') as (_ & _ & _ & Hb' & _).
    destruct (Hb' e Hin) as (e0 & _ & He0 & Hdue' & _). rewrite <- Hid, Hrow2 in He0. simplify_eq.
    apply pushDue_facts in Hdue' as (_ & Hlu & _). rewrite Hlock in Hlu. destruct Hlu; [done|lia].
  - intros token' Hne. unfold beginPushDelivery. rewrite Hrow2, Hp. cbn [negb orb].
    rewrite bool_decide_false; [done|]. by intros <-.
  - intros result next cls clock' [d' Hd']. unfold FinishPushDelivery. rewrite Hrow2, Hp. cbn [negb orb].
    rewrite bool_decide_true by done. cbn [negb]. by rewrite Hd'.
Qed.

(** A finished row is final.  Once a row is delivered, dead-lettered,
    cancelled or invalidated, in every later state it is there unchanged or gone; it is
    never leased again, no callback runs for it, and every report on it is refused. *)
Theorem finished_push_final s id d s2 :
  push_inv s → Store_pushDeliveries s !! id = Some d → pendingPush d = false →
  push_run (λ _, True) s s2 →
  (Store_pushDeliveries s2 !! id = Some d ∨ Store_pushDeliveries s2 !! id = None) ∧
  (∀ limit platforms newID clock s3 batch,
     LockPushDeliveryBatch s2 limit platforms newID clock = (s3, Ok batch) →
     id ∉ (PushDelivery_ID <$> batch)) ∧
  (∀ token, beginPushDelivery s2 id token = (s2, Err ErrNotFound)) ∧
  (∀ token result next cls clock,
     ∃ e, FinishPushDelivery s2 id token result next cls clock = (s2, Err e)).
Proof.
  intros Hinv Hd Hfin Hrun.
  destruct (push_run_row (λ _, True) (λ row, row = Some d ∨ row = None) s s2 id) as [Hinv2 Hrow];
    [done|by apply (pi_rows _ Hinv) in Hd as (_ & [_ ?] & _)| |done|by left|].
  { intros s' op row row' _ Hlt Hq Hch.
    inversion Hch as [|e Hge Hp|e tk lim pl nid cl Hop Hdu|e e' Hre Hp _|e a b lim _ Hpr]; subst; [done|lia|..|by right];
      destruct Hq as [[= ->]|]; try done; [apply pushDue_facts in Hdu as (? & _)|]; congruence. }
  split_and!; [done|..].
  - intros limit platforms newID clock s3 batch Hl (e & Hid & Hin)%list_elem_of_fmap.
    destruct (LockPush_spec _ _ _ _ _ _ _ Hinv2 Hl) as (_ & _ & _ & Hb & _).
    destruct (Hb e Hin) as (e0 & _ & He0 & (Hp & _)%pushDue_facts & _). rewrite <- Hid in He0.
    destruct Hrow as [Hrow|Hrow]; rewrite Hrow in He0; simplify_eq. congruence.
  - intros token. unfold beginPushDelivery. destruct Hrow as [->| ->]; [|done]. by rewrite Hfin.
  - intros token result next cls clock. unfold FinishPushDelivery.
    destruct Hrow as [->| ->]; [|by eexists]. rewrite Hfin. by eexists.
Qed.

(** What the provider is asked to send is decided at the last moment.  A
    call of [WithPushDeliveryLease], whatever the other goroutines do in between, either
    refuses without running the callback, or runs it exactly once on a pending row held
    by this token and not in delivery, addressed to the device's current owner and
    current token; and for a message whose sender is known, only if at that moment
    neither side blocks the other. *)
Theorem push_callback_guarded {L : Type} s (l : L) id token ctxErr others :
  (∃ s' err, ∀ deliver, WithPushDeliveryLease s l id token ctxErr others (Some deliver) = (s', l, Some err)) ∨
  (∃ row device s', let leased := resolveDevice s row in
     let s1 := others 0%nat (s <| Store_activePushDeliveries ::= <[id := token]> |>) in
     Store_pushDeliveries s !! id = Some row ∧ pendingPush row = true ∧
     PushDelivery_LeaseToken row = token ∧ token ≠ uuid_Nil ∧
     Store_activePushDeliveries s !! id = None ∧
     Store_devices s !! PushDelivery_DeviceID row = Some device ∧
     PushDelivery_UserID leased = Device_UserID device ∧
     PushDelivery_PushToken leased = Device_PushToken device ∧
     (PushDelivery_Kind row = "message" → pushSender s1 leased ≠ uuid_Nil →
        Blocked (Store_compliance s') (Device_UserID device) (pushSender s1 leased) = false) ∧
     ∀ deliver, WithPushDeliveryLease s l id token ctxErr others (Some deliver) =
       let '(s'', l', err) := deliver s' l leased in (endPushDelivery s'' id token, l', err)).
Proof.
  unfold WithPushDeliveryLease. destruct (_ || _) eqn:Hg; [by left; eauto|]. bool_prop.
  destruct ctxErr as [err|]; [by left; eauto|]. unfold beginPushDelivery.
  destruct (Store_pushDeliveries s !! id) as [row|]; [|by left; eauto].
  destruct (_ || _) eqn:Hrow; [by left; eauto|]. bool_prop.
  destruct (Store_activePushDeliveries s !! id) as [|]; [by left; eauto|].
  destruct (Store_devices s !! PushDelivery_DeviceID row) as [device|] eqn:Hdev; [|by left; eauto].
  set (s1 := others 0%nat _). set (leased := resolveDevice s row).
  assert (PushDelivery_UserID leased = Device_UserID device ∧
    PushDelivery_PushToken leased = Device_PushToken device ∧
    PushDelivery_Kind leased = PushDelivery_Kind row) as (Hu & Ht & Hk)
    by (unfold leased, resolveDevice; by rewrite Hdev).
  unfold guardedDeliver. rewrite Hk. case_bool_decide as Hmsg; cycle 1.
  { right. exists row, device, s1. cbv zeta. fold s1 leased. by split_and!. }
  case_bool_decide as Hs; cbn [negb].
  { right. exists row, device, (others 1%nat s1). cbv zeta. fold s1 leased. by split_and!. }
  unfold DeliverIfAllowed. rewrite Hu.
  destruct (Blocked (Store_compliance (others 1%nat s1)) (Device_UserID device) _) eqn:Hb.
  - left. eexists _, ErrNotFound. intros deliver. by destruct (deliver (others 1%nat s1) l leased) as [[??] ?].
  - right. exists row, device, (others 1%nat s1). cbv zeta. fold s1 leased. split_and!; try done.
    intros deliver. by destruct (deliver (others 1%nat s1) l leased) as [[??] [err|]].
Qed.
End delivery.

(** ** Concrete runs *)
Section witnesses.
#[local] Existing Instance Reference.runtime.

Definition phone : Device :=
  mkDevice (uuid_of_N 2) (uuid_of_N 1) "phone" "ios" "abcd" "" RawNil 1 1.
Definition phone_store : Store := New <| Store_devices ::= <[uuid_of_N 2 := phone]> |>.
Definition announcement : PushDelivery :=
  mkPushDelivery 0 7 uuid_Nil uuid_Nil "" "" "Ada" "hello" "message" (uuid_of_N 5) (uuid_of_N 6)
    "n-7" "" 0 0 uuid_Nil 0 0 None None "".
Definition announced : Store :=
  push_step phone_store (OpEnqueue announcement [uuid_of_N 1] (second 1)).

Lemma phone_store_inv : push_inv phone_store.
Proof. split; [cbn; lia|..]; intros ? ? Hx; cbn in Hx; by rewrite lookup_empty in Hx. Qed.
Lemma phone_store_room : push_room phone_store.
Proof. vm_compute. reflexivity. Qed.
Lemma announced_inv : push_inv announced.
Proof. apply push_inv_step; [apply phone_store_inv|apply phone_store_room]. Qed.
Lemma announce_run :
  EnqueuePushDeliveries phone_store announcement [uuid_of_N 1] (second 1) = (announced, Ok 1%Z).
Proof. apply pair_run. vm_compute. reflexivity. Qed.

Lemma push_fanout_once_witness :
  EnqueuePushDeliveries announced announcement [uuid_of_N 1] (second 9) = (announced, Ok 0%Z).
Proof.
  refine (proj2 (proj2 (proj2 (proj2 (proj2 (push_fanout_once phone_store announcement [uuid_of_N 1]
    (second 1) announced 1 (second 9) _ _ _)))))).
  - apply phone_store_inv.
  - apply phone_store_room.
  - apply announce_run.
Defined.

Definition tokens (i : nat) : UUID := uuid_of_N (20 + N.of_nat i).
Definition leased_push : Store := push_step announced (OpLockPush 10 ["ios"] tokens (second 2)).
Definition leased_row : PushDelivery :=
  leasePush announced (2 * Second) (tokens 0) (queuedPush announcement (uuid_of_N 2) 1 Second).
Lemma lock_announced :
  LockPushDeliveryBatch announced 10 ["ios"] tokens (second 2) = (leased_push, Ok [leased_row]).
Proof. apply pair_run. vm_compute. reflexivity. Qed.

Lemma push_lease_exclusive_witness :
  beginPushDelivery leased_push 1 (uuid_of_N 99) = (leased_push, Err ErrNotFound).
Proof.
  refine (proj1 (proj2 (proj2 (proj2 (proj2 (push_lease_exclusive announced 10 ["ios"] tokens (second 2)
    leased_push [leased_row] leased_row leased_push _ _ _ _ _))))) (uuid_of_N 99) _).
  - apply announced_inv.
  - vm_compute. discriminate.
  - apply lock_announced.
  - left.
  - apply prun_refl.
  - intros Heq. apply (f_equal (λ u : UUID, uuid_String u)) in Heq. vm_compute in Heq. discriminate Heq.
Defined.

Definition sent : Store :=
  push_step leased_push (OpFinishPush 1 (tokens 0) "delivered" 0 "" (second 3)).
Lemma sent_inv : push_inv sent.
Proof. apply push_inv_step, I. apply push_inv_step, I. apply announced_inv. Qed.

Lemma finished_push_final_witness :
  beginPushDelivery sent 1 (tokens 0) = (sent, Err ErrNotFound).
Proof.
  assert (match Store_pushDeliveries sent !! 1%Z with
          | Some d => negb (pendingPush d) | None => false end = true) as Hd by (vm_compute; reflexivity).
  destruct (Store_pushDeliveries sent !! 1%Z) as [d|] eqn:Hrow; [|discriminate Hd].
  refine (proj1 (proj2 (proj2 (finished_push_final sent 1 d sent _ _ _ _))) (tokens 0)).
  - apply sent_inv.
  - exact Hrow.
  - by apply negb_true_iff.
  - apply prun_refl.
Defined.
End witnesses.
