(* ===== verification/RateLimit.v ===== *)
(** * The in-memory rate limiter

    [src/internal/ratelimit/limiter.go]: fixed windows per key.  [Allow] is one critical
    section; [now] is its reading of the clock.  The Redis limiter runs a script inside
    Redis and is not modelled. *)

From Stdlib Require Import ZArith Lia.
From S2P Require Import Prelude.

Record window := mkwindow { window_count : Z; window_expires : Z }.

Record Memory := mkMemory { Memory_windows : gmap string window }.

Definition NewMemory : Memory := mkMemory ∅.

(** [m.windows[key]]: the zero window when the key is missing. *)
Definition current_window (m : Memory) (key : string) : window :=
  default (mkwindow 0 0) (Memory_windows m !! key).

Definition Allow (m : Memory) (key : string) (limit duration now : Z) : Memory * bool :=
  let current := current_window m key in
  let current := if Before (window_expires current) now
                 then mkwindow 0 (now + duration) else current in
  let current := mkwindow (int64_wrap (window_count current + 1)) (window_expires current) in
  (mkMemory (<[key := current]> (Memory_windows m)), (window_count current <=? limit)%Z).

(** ** Runs *)

Record Call := mkCall { Call_key : string; Call_limit : Z; Call_duration : Z; Call_now : Z }.

Definition call (m : Memory) (c : Call) : Memory * bool :=
  Allow m (Call_key c) (Call_limit c) (Call_duration c) (Call_now c).

Definition run (m : Memory) (calls : list Call) : Memory := foldl (λ m c, (call m c).1) m calls.

(** Calls of [key] in the interval from [t] to [t + D] that are allowed. *)
Fixpoint allowed (m : Memory) (calls : list Call) (key : string) (t D : Z) : Z :=
  match calls with
  | [] => 0
  | c :: calls =>
    let '(m', ok) := call m c in
    ((if bool_decide (Call_key c = key) && (t <=? Call_now c)%Z && (Call_now c <=? t + D)%Z && ok
      then 1 else 0) + allowed m' calls key t D)%Z
  end.

(** Every call on [key] uses the same limit and duration, as each route does. *)
Definition uniform (key : string) (L D : Z) (c : Call) : Prop :=
  Call_key c = key → Call_limit c = L ∧ Call_duration c = D.

Definition in_order : relation Call := λ c c', (Call_now c ≤ Call_now c')%Z.

Lemma call_other m c key : Call_key c ≠ key → current_window (call m c).1 key = current_window m key.
Proof. intros Hne. unfold current_window, call, Allow. cbn. by rewrite lookup_insert_ne. Qed.

Lemma call_window m c :
  let w := current_window m (Call_key c) in
  let w' := current_window (call m c).1 (Call_key c) in
  (0 ≤ window_count w < 2 ^ 63 - 1)%Z →
  ((Call_now c ≤ window_expires w)%Z ∧
     w' = mkwindow (window_count w + 1) (window_expires w) ∨
   (window_expires w < Call_now c)%Z ∧ w' = mkwindow 1 (Call_now c + Call_duration c)) ∧
  (call m c).2 = (window_count w' <=? Call_limit c)%Z.
Proof.
  intros w w' Hc. unfold w', call, Allow. cbn [fst snd]. fold w.
  unfold current_window. cbn [Memory_windows]. rewrite lookup_insert_eq. cbn [default id].
  destruct (Before _ _) eqn:Hb; bool_prop; (split; [|done]); cbn [window_count window_expires].
  - right. split; [done|]. f_equal.
  - left. split; [done|]. by rewrite int64_wrap_small by lia.
Qed.

(** After the interval nothing counts. *)
Lemma allowed_late m calls key t D :
  Forall (λ c, (t + D < Call_now c)%Z) calls → allowed m calls key t D = 0%Z.
Proof.
  intros Hl. revert m. induction Hl as [|c calls Hc Hl IH]; intros m; [done|]. cbn [allowed].
  destruct (call m c) as [m' ok]. rewrite IH, (proj2 (Z.leb_gt _ _) Hc).
  by rewrite andb_false_r, andb_false_l.
Qed.

(** The windows an interval can meet: the current one, and at most one more that opens
    inside it. *)
Lemma allowed_bound m calls key L D t :
  let w := current_window m key in
  StronglySorted in_order calls → Forall (uniform key L D) calls → (0 ≤ L)%Z →
  (0 ≤ window_count w)%Z → (window_count w + Z.of_nat (length calls) < 2 ^ 63)%Z →
  (Z.of_nat (length calls) < 2 ^ 63 - 1)%Z →
  ((t + D ≤ window_expires w)%Z → (allowed m calls key t D ≤ Z.max 0 (L - window_count w))%Z) ∧
  ((t ≤ window_expires w)%Z → (allowed m calls key t D ≤ Z.max 0 (L - window_count w) + L)%Z) ∧
  (allowed m calls key t D ≤ 2 * L)%Z.
Proof.
  revert m. induction calls as [|c calls IH]; intros m w Hs Hu HL Hc0 Hc1 Hlen.
  { cbn [allowed]. lia. }
  apply StronglySorted_inv in Hs as [Hs Hlate]. apply Forall_cons in Hu as [Hu Hus].
  cbn [length] in Hc1, Hlen.
  cbn [allowed]. destruct (call m c) as [m' ok] eqn:Hcall.
  assert (m' = (call m c).1 ∧ ok = (call m c).2) as [Hm' Hok] by (by rewrite Hcall).
  destruct (decide (Call_key c = key)) as [Hk|Hne]; cycle 1.
  { rewrite bool_decide_false by done. cbn [andb].
    specialize (IH m' Hs Hus HL). cbv zeta in IH. rewrite Hm' in IH.
    rewrite call_other in IH by done. rewrite Hm'. unfold w in *. lia. }
  rewrite bool_decide_true by done. destruct (Hu Hk) as [HcL HcD]. cbn [andb].
  pose proof (call_window m c) as Hw. cbv zeta in Hw. rewrite Hk in Hw. fold w in Hw.
  destruct Hw as [Hcase Hdec]; [lia|]. rewrite <- Hm', <- Hok, HcL, HcD in *.
  specialize (IH m' Hs Hus HL). cbv zeta in IH.
  assert (t + D < Call_now c → allowed m' calls key t D = 0)%Z as Hzero.
  { intros Hlt. apply allowed_late. eapply Forall_impl; [exact Hlate|]. unfold in_order. intros. lia. }
  destruct Hcase as [[Hin Hw']|[Hout Hw']]; rewrite Hw' in IH, Hdec; cbn [window_count window_expires] in *.
  - destruct (t <=? _)%Z eqn:Ht, (_ <=? t + D)%Z eqn:HtD, ok; cbn [andb]; bool_prop; lia.
  - destruct (t <=? _)%Z eqn:Ht, (_ <=? t + D)%Z eqn:HtD, ok; cbn [andb]; bool_prop; lia.
Qed.

(** The expiry of a window is one duration after some call on its key. *)
Lemma run_expires calls key L D :
  Forall (uniform key L D) calls →
  window_expires (current_window (run NewMemory calls) key) = 0%Z ∨
  ∃ c, c ∈ calls ∧ Call_key c = key ∧
    window_expires (current_window (run NewMemory calls) key) = (Call_now c + D)%Z.
Proof.
  induction calls as [|c calls IH] using rev_ind; intros Hu.
  { left. unfold run, NewMemory, current_window. cbn. by rewrite lookup_empty. }
  apply Forall_app in Hu as [Hu [Hc _]%Forall_cons]. unfold run. rewrite foldl_app. cbn [foldl].
  fold (run NewMemory calls). destruct (decide (Call_key c = key)) as [Hk|Hne]; cycle 1.
  { rewrite call_other by done. destruct (IH Hu) as [->|(c' & ? & ? & ->)]; [by left|right].
    exists c'. split; [set_solver|done]. }
  destruct (Hc Hk) as [_ HD]. unfold call, Allow, current_window. cbn.
  rewrite Hk, lookup_insert_eq. cbn. fold (current_window (run NewMemory calls) key).
  destruct (Before _ _); cbn; [|destruct (IH Hu) as [->|(c' & ? & ? & ->)]; [by left|right]].
  - right. exists c. rewrite HD. split; [set_solver|done].
  - exists c'. split; [set_solver|done].
Qed.

(** The limiter bounds the rate of every key.  For calls in the order of their
    times (fewer than the 63-bit counter holds), when the calls on [key] use the limit
    [L] and the duration [D]: in no interval of length [D], wherever it starts, are more
    than [2 * L] calls on the key allowed; and it does not starve: a call on a key that
    has been silent for longer than [D] is allowed. *)
Theorem rate_limited calls key L D t c :
  StronglySorted in_order calls → Forall (uniform key L D) calls → (1 ≤ L)%Z →
  (Z.of_nat (length calls) < 2 ^ 63 - 1)%Z →
  (allowed NewMemory calls key t D ≤ 2 * L)%Z ∧
  (uniform key L D c → Call_key c = key → (0 < Call_now c)%Z →
   Forall (λ c', Call_key c' = key → (Call_now c' + D < Call_now c)%Z) calls →
   (call (run NewMemory calls) c).2 = true).
Proof.
  intros Hs Hu HL Hlen. split.
  - assert (current_window NewMemory key = mkwindow 0 0) as Hw
      by (unfold current_window; cbn; by rewrite lookup_empty).
    apply (allowed_bound NewMemory calls key L D t); try done; try lia; rewrite Hw; cbn; lia.
  - intros Hc Hk Hpos Hsil. destruct (Hc Hk) as [HcL HcD].
    assert (window_expires (current_window (run NewMemory calls) key) < Call_now c)%Z as He.
    { destruct (run_expires calls key L D Hu) as [->|(c' & Hin & Hk' & ->)]; [done|].
      rewrite Forall_forall in Hsil. by apply Hsil. }
    unfold call, Allow. rewrite Hk. cbn. rewrite (proj2 (Before_spec _ _) He). cbn.
    rewrite HcL. by apply Z.leb_le.
Qed.

(** Two calls in a window of one hour with limit 1: the second is refused, and an hour
    later a call is allowed again. *)
Definition reset_call (now : Z) : Call := mkCall "reset:ada" 1 Hour now.

Lemma rate_limited_witness :
  allowed NewMemory [reset_call 1; reset_call 2] "reset:ada" 0 Hour = 1%Z ∧
  (call (run NewMemory [reset_call 1; reset_call 2]) (reset_call (3 + Hour))).2 = true.
Proof.
  split; [vm_compute; reflexivity|].
  refine (proj2 (rate_limited [reset_call 1; reset_call 2] "reset:ada" 1 Hour 0 (reset_call (3 + Hour))
    _ _ _ _) _ _ _ _).
  - repeat constructor; vm_compute; discriminate.
  - repeat constructor.
  - lia.
  - vm_compute. reflexivity.
  - done.
  - done.
  - vm_compute. reflexivity.
  - repeat constructor; vm_compute; reflexivity.
Defined.
