(* ===== verification/Presence.v ===== *)
(** * Presence of devices

    The in-memory service of [src/internal/presence/presence.go].  A device is online for
    70 seconds after its last heartbeat; a query deletes the expired entries it meets
    until it finds a live one.  The Redis service stores the same in sorted sets of an
    external server and is not modelled.

    [Service] is the interface the HTTP layer uses; [Promise] is the behaviour it relies
    on, stated on the history of calls, and the refinement theorem says that the memory
    service keeps it. *)

From Stdlib Require Import ZArith Lia.
From S2P Require Import Prelude.
From S2P Require Import Runtime.

Record Memory := mkMemory { Memory_devices : gmap UUID (gmap UUID Z) }.

Definition NewMemory : Memory := mkMemory ∅.

Definition presenceTTL : Z := 70 * Second.

Section presence.
Context `{GoRuntime}.
Implicit Types (m : Memory) (userID deviceID : UUID) (now : Z).

Definition set_ m userID deviceID now : Memory :=
  mkMemory (<[userID := <[deviceID := (now + presenceTTL)%Z]>
                          (default ∅ (Memory_devices m !! userID))]> (Memory_devices m)).

Definition Online m userID deviceID now : Memory := set_ m userID deviceID now.
Definition Heartbeat m userID deviceID now : Memory := set_ m userID deviceID now.

(** Deleting from a missing inner map does nothing. *)
Definition Offline m userID deviceID : Memory :=
  match Memory_devices m !! userID with
  | Some devices => mkMemory (<[userID := delete deviceID devices]> (Memory_devices m))
  | None => m
  end.

(** The loop of [IsOnline]: entries are deleted while the map is iterated. *)
Fixpoint scan now (entries : list (UUID * Z)) (devices : gmap UUID Z) : gmap UUID Z * bool :=
  match entries with
  | [] => (devices, false)
  | (deviceID, expires) :: entries =>
    if After expires now then (devices, true) else scan now entries (delete deviceID devices)
  end.

Definition IsOnline m userID now : Memory * bool :=
  match Memory_devices m !! userID with
  | Some devices =>
    let '(devices, online) := scan now (range devices) devices in
    (mkMemory (<[userID := devices]> (Memory_devices m)), online)
  | None => (m, false)
  end.

(** ** Histories *)

Inductive PresenceOp :=
  | OpOnline userID deviceID now
  | OpHeartbeat userID deviceID now
  | OpOffline userID deviceID
  | OpIsOnline userID now.

Definition presence_step m (op : PresenceOp) : Memory :=
  match op with
  | OpOnline u d now => Online m u d now
  | OpHeartbeat u d now => Heartbeat m u d now
  | OpOffline u d => Offline m u d
  | OpIsOnline u now => (IsOnline m u now).1
  end.

Definition presence_run m (ops : list PresenceOp) : Memory := foldl presence_step m ops.

(** The abstract service remembers the last heartbeat of a device that has not gone
    offline since. *)

Definition spec_step (a : gmap (UUID * UUID) Z) (op : PresenceOp) : gmap (UUID * UUID) Z :=
  match op with
  | OpOnline u d now | OpHeartbeat u d now => <[(u, d) := now]> a
  | OpOffline u d => delete (u, d) a
  | OpIsOnline _ _ => a
  end.
Definition spec_run (a : gmap (UUID * UUID) Z) (ops : list PresenceOp) : gmap (UUID * UUID) Z := foldl spec_step a ops.

Definition spec_online (a : gmap (UUID * UUID) Z) userID now : Prop :=
  ∃ deviceID t, a !! (userID, deviceID) = Some t ∧ (now < t + presenceTTL)%Z.

Definition op_time (op : PresenceOp) : option Z :=
  match op with
  | OpOnline _ _ now | OpHeartbeat _ _ now | OpIsOnline _ now => Some now
  | OpOffline _ _ => None
  end.

(** The clock does not run backwards. *)
Fixpoint monotone (T : Z) (ops : list PresenceOp) : Prop :=
  match ops with
  | [] => True
  | op :: ops =>
    match op_time op with Some t => (T ≤ t)%Z ∧ monotone t ops | None => monotone T ops end
  end.

Fixpoint last_time (T : Z) (ops : list PresenceOp) : Z :=
  match ops with
  | [] => T
  | op :: ops => last_time (default T (op_time op)) ops
  end.

Definition expiry m userID deviceID : option Z :=
  default ∅ (Memory_devices m !! userID) !! deviceID.

(** The simulation: a stored entry is the expiry of the last heartbeat; an entry that is
    missing belongs to nobody, or to a heartbeat that had expired by now. *)
Definition sim (T : Z) m (a : gmap (UUID * UUID) Z) : Prop :=
  ∀ u d, match expiry m u d with
         | Some e => ∃ t, a !! (u, d) = Some t ∧ e = (t + presenceTTL)%Z
         | None => ∀ t, a !! (u, d) = Some t → (t + presenceTTL ≤ T)%Z
         end.

Lemma sim_later T T' m a : sim T m a → (T ≤ T')%Z → sim T' m a.
Proof.
  intros Hs Hle u d. specialize (Hs u d). destruct (expiry m u d); [done|].
  intros t Ht. specialize (Hs t Ht). lia.
Qed.

Lemma expiry_set m u d now u' d' :
  expiry (set_ m u d now) u' d' =
  if decide (u = u' ∧ d = d') then Some (now + presenceTTL)%Z else expiry m u' d'.
Proof.
  unfold expiry, set_. cbn. destruct (decide (u = u')) as [->|Hu].
  - rewrite lookup_insert_eq. cbn. destruct (decide (d = d')) as [->|Hd].
    + by rewrite lookup_insert_eq, decide_True.
    + rewrite lookup_insert_ne by done. by rewrite decide_False by naive_solver.
  - rewrite lookup_insert_ne by done. by rewrite decide_False by naive_solver.
Qed.

Lemma expiry_offline m u d u' d' :
  expiry (Offline m u d) u' d' = if decide (u = u' ∧ d = d') then None else expiry m u' d'.
Proof.
  unfold expiry, Offline. destruct (Memory_devices m !! u) as [devices|] eqn:Hm; cbn.
  - destruct (decide (u = u')) as [->|Hu].
    + rewrite lookup_insert_eq, Hm. cbn. destruct (decide (d = d')) as [->|Hd].
      * by rewrite lookup_delete_eq, decide_True.
      * rewrite lookup_delete_ne by done. by rewrite decide_False by naive_solver.
    + rewrite lookup_insert_ne by done. by rewrite decide_False by naive_solver.
  - destruct (decide _) as [[-> ->]|]; [|done]. rewrite Hm. cbn. by rewrite lookup_empty.
Qed.

(** The loop finds a live entry exactly when there is one, and deletes expired ones only. *)
Lemma scan_spec now entries devices devices' online :
  scan now entries devices = (devices', online) →
  (online = true ↔ ∃ d e, (d, e) ∈ entries ∧ (now < e)%Z) ∧
  ∀ d, devices' !! d = devices !! d ∨
       devices' !! d = None ∧ ∃ e, (d, e) ∈ entries ∧ (e ≤ now)%Z.
Proof.
  revert devices. induction entries as [|[d e] entries IH]; intros devices; cbn [scan].
  { intros [= <- <-]. split; [|auto]. split; [done|]. intros (? & ? & []%not_elem_of_nil & _). }
  destruct (After e now) eqn:Ha; bool_prop.
  - intros [= <- <-]. split; [|auto]. split; [|done]. intros _. exists d, e. split; [left|done].
  - intros (Hon & Hdel)%IH. split.
    + rewrite Hon. split.
      * intros (d' & e' & Hin & Hlt). exists d', e'. split; [by right|done].
      * intros (d' & e' & [[= -> ->]|Hin]%elem_of_cons & Hlt); [lia|eauto].
    + intros d'. destruct (Hdel d') as [Heq|(Hn & e' & Hin & Hle)]; [|right; split; [done|]].
      * rewrite Heq. destruct (decide (d = d')) as [->|Hd]; [|rewrite lookup_delete_ne by done; auto].
        right. rewrite lookup_delete_eq. split; [done|]. exists e. split; [left|done].
      * exists e'. split; [by right|done].
Qed.

Lemma IsOnline_spec m u now :
  ((IsOnline m u now).2 = true ↔ ∃ d e, expiry m u d = Some e ∧ (now < e)%Z) ∧
  ∀ u' d, expiry (IsOnline m u now).1 u' d = expiry m u' d ∨
          expiry (IsOnline m u now).1 u' d = None ∧
            ∃ e, expiry m u' d = Some e ∧ (e ≤ now)%Z.
Proof.
  unfold IsOnline, expiry. destruct (Memory_devices m !! u) as [devices|] eqn:Hm; cbn.
  2: { split; [|auto]. split; [done|]. intros (d & e & He & _). by rewrite lookup_empty in He. }
  destruct (scan now (range devices) devices) as [devices' online] eqn:Hs. cbn.
  destruct (scan_spec _ _ _ _ _ Hs) as [Hon Hdel]. split.
  - rewrite Hon. setoid_rewrite elem_of_range. done.
  - intros u' d. destruct (decide (u = u')) as [<-|Hu]; [|rewrite lookup_insert_ne by done; auto].
    rewrite lookup_insert_eq, Hm. cbn. destruct (Hdel d) as [->|(-> & e & Hin & Hle)]; [auto|right].
    apply elem_of_range in Hin. eauto.
Qed.

Lemma sim_set T m a u d now :
  sim T m a → (T ≤ now)%Z → sim now (set_ m u d now) (<[(u, d) := now]> a).
Proof.
  intros Hs Hle u' d'. rewrite expiry_set. destruct (decide (u = u' ∧ d = d')) as [[-> ->]|Hne].
  - exists now. by rewrite lookup_insert_eq.
  - rewrite lookup_insert_ne by (intros [= -> ->]; by destruct Hne).
    exact (sim_later _ _ _ _ Hs Hle u' d').
Qed.

Lemma sim_step T m a op :
  sim T m a → match op_time op with Some t => (T ≤ t)%Z | None => True end →
  sim (default T (op_time op)) (presence_step m op) (spec_step a op).
Proof.
  intros Hs Hle. destruct op as [u d now|u d now|u d|u now]; cbn [op_time default presence_step spec_step] in *.
  - by apply (sim_set T).
  - by apply (sim_set T).
  - intros u' d'. rewrite expiry_offline. cbn. destruct (decide (u = u' ∧ d = d')) as [[-> ->]|Hne].
    + intros t. by rewrite lookup_delete_eq.
    + rewrite lookup_delete_ne by (intros [= -> ->]; by destruct Hne). apply Hs.
  - intros u' d'. pose proof (Hs u' d') as Hud. destruct (IsOnline_spec m u now) as [_ Hdel].
    destruct (Hdel u' d') as [->|(-> & e & He & Hexp)]; cbn.
    + destruct (expiry m u' d'); [done|]. intros t Ht. specialize (Hud t Ht). lia.
    + rewrite He in Hud. destruct Hud as (t & Ht & ->). intros t'. rewrite Ht. by intros [= <-].
Qed.

Lemma sim_run ops T m a :
  monotone T ops → sim T m a → sim (last_time T ops) (presence_run m ops) (spec_run a ops).
Proof.
  revert T m a. induction ops as [|op ops IH]; intros T m a Hm Hs; [done|]. cbn [last_time].
  apply IH.
  - cbn in Hm. destruct (op_time op); cbn; [by destruct Hm|done].
  - apply sim_step; [done|]. cbn in Hm. destruct (op_time op); [by destruct Hm|done].
Qed.

(** The memory service refines the abstract one.  After any history of
    calls with a clock that does not run backwards, a query at a later time answers
    "online" exactly when some device of the user sent its last heartbeat less than 70
    seconds before and has not gone offline since, however the expired entries were
    cleaned up in between and in whatever order the map is iterated. *)
Theorem presence_refines ops userID now :
  monotone 0 ops → (last_time 0 ops ≤ now)%Z →
  ((IsOnline (presence_run NewMemory ops) userID now).2 = true ↔
   spec_online (spec_run ∅ ops) userID now).
Proof.
  intros Hm Hnow. assert (sim 0 NewMemory ∅) as H0.
  { intros u d. unfold expiry, NewMemory. cbn. rewrite lookup_empty. cbn. rewrite lookup_empty.
    intros t. by rewrite lookup_empty. }
  pose proof (sim_run ops 0 NewMemory ∅ Hm H0) as Hs.
  rewrite (proj1 (IsOnline_spec _ _ _)). unfold spec_online. split.
  - intros (d & e & He & Hlt). pose proof (Hs userID d) as Hud. rewrite He in Hud.
    destruct Hud as (t & Ht & ->). eauto.
  - intros (d & t & Ht & Hlt). pose proof (Hs userID d) as Hud.
    destruct (expiry _ userID d) as [e|] eqn:He.
    + destruct Hud as (t' & Ht' & ->). rewrite Ht in Ht'. simplify_eq. eauto.
    + specialize (Hud t Ht). lia.
Qed.
End presence.

Section witnesses.
#[local] Existing Instance Reference.runtime.

Definition calls : list PresenceOp :=
  [OpOnline (uuid_of_N 1) (uuid_of_N 2) (10 * Second)%Z; OpIsOnline (uuid_of_N 1) (90 * Second)%Z;
   OpHeartbeat (uuid_of_N 1) (uuid_of_N 3) (100 * Second)%Z].

Lemma presence_refines_witness :
  (IsOnline (presence_run NewMemory calls) (uuid_of_N 1) (160 * Second)%Z).2 = true.
Proof.
  apply (presence_refines calls (uuid_of_N 1) (160 * Second)%Z).
  - vm_compute. repeat split; discriminate.
  - vm_compute. discriminate.
  - exists (uuid_of_N 3), (100 * Second)%Z. split; [|vm_compute; reflexivity].
    unfold spec_run. cbn. apply lookup_insert_eq.
Defined.
End witnesses.
