(* ===== verification/Bus.v ===== *)
(** * The in-memory event bus

    [src/internal/events/memory.go]: subscriptions that receive realtime events, owners
    of realtime sessions, and the fences that end sessions while an account is changed.

    The bus is shared by goroutines, so the model is a transition system.  Objects
    behind pointers live in heaps indexed by their address.  A thread that is between two
    atomic actions of a call has a [PC]; a thread without one is outside the bus.  A
    critical section that calls nothing else is one step.  [Publish] keeps the read lock
    while it sends to one subscriber after another, and [Close] of the bus keeps the write
    lock while it runs the [sync.Once] of every subscription; these are split into their
    steps, and the lock is free when no thread is inside them.  A step that would block
    is not enabled. *)

From Stdlib Require Import ZArith Lia.
From S2P Require Import Prelude.
From S2P Require Import Runtime.
From S2P Require Import Domain.

Record RealtimeEvent := mkRealtimeEvent {
  RealtimeEvent_ID : string; RealtimeEvent_Type : string;
  RealtimeEvent_ConversationID : option UUID; RealtimeEvent_Seq : Z;
  RealtimeEvent_Payload : Payload; RealtimeEvent_OccurredAt : Z }.

(** [sync.Once]: a second caller of [Do] waits while the function of the first runs. *)
Inductive Once := OnceFresh | OnceRunning | OnceDone.
#[export] Instance Once_eq_dec : EqDecision Once.
Proof. solve_decision. Defined.

Definition pointer : Type := nat.

Record memoryFence := mkmemoryFence {
  memoryFence_sessionID : option UUID; memoryFence_validUntil : Z }.

Record memoryFenceTicket := mkmemoryFenceTicket {
  ticket_userID : UUID; ticket_ticketID : UUID; ticket_once : Once }.

(** [owner_sessionID] is the session of the call that registered the owner: the callback
    closes over it. *)
Record memorySessionOwner := mkmemorySessionOwner {
  owner_userID : UUID; owner_sessionID : UUID; owner_once : Once }.

Record memorySubscription := mkmemorySubscription {
  sub_userID : UUID; sub_ch : list RealtimeEvent; sub_closed : bool; sub_once : Once }.

Record MemoryBus := mkMemoryBus {
  MemoryBus_subscribers : gmap UUID (gmap pointer unit);
  MemoryBus_owners : gmap UUID (gmap pointer unit);
  MemoryBus_fences : gmap UUID (gmap UUID memoryFence) }.

Definition NewMemoryBus : MemoryBus := mkMemoryBus ∅ ∅ ∅.

Definition channelCapacity : nat := 256.
Definition realtimeFenceTTL : Z := 2 * Minute.

(** Where a thread is inside a call. *)
Inductive PC :=
  (** holds the read lock; still to send to *)
  | Publishing (rest : list pointer) (event : RealtimeEvent)
  (** [memorySubscription.Close] inside its [Once], before [Lock] *)
  | SubClosing (s : pointer)
  (** after [Unlock], before [close(s.ch)] *)
  | SubRemoved (s : pointer)
  (** [MemoryBus.Close]: holds the lock; still to close *)
  | BusClosing (rest : list pointer)
  (** after [Unlock] of [FenceSessions] or [RegisterSessionOwner]: callbacks to make *)
  | Fencing (rest : list (pointer * option UUID)).

Record World := mkWorld {
  World_bus : MemoryBus;
  World_subs : gmap pointer memorySubscription;
  World_owners : gmap pointer memorySessionOwner;
  World_tickets : gmap pointer memoryFenceTicket;
  World_threads : gmap nat PC;
  (** the callbacks made so far *)
  World_fenced : list (pointer * option UUID);
  (** a goroutine has sent on, or closed, a closed channel *)
  World_panicked : bool }.

Definition eta_World (w : World) : World :=
  mkWorld (World_bus w) (World_subs w) (World_owners w) (World_tickets w) (World_threads w)
    (World_fenced w) (World_panicked w).
#[export] Instance set_World_bus : Setter World_bus :=
  ltac:(field_setter eta_World World_bus).
#[export] Instance set_World_subs : Setter World_subs :=
  ltac:(field_setter eta_World World_subs).
#[export] Instance set_World_owners : Setter World_owners :=
  ltac:(field_setter eta_World World_owners).
#[export] Instance set_World_tickets : Setter World_tickets :=
  ltac:(field_setter eta_World World_tickets).
#[export] Instance set_World_threads : Setter World_threads :=
  ltac:(field_setter eta_World World_threads).
#[export] Instance set_World_fenced : Setter World_fenced :=
  ltac:(field_setter eta_World World_fenced).
#[export] Instance set_World_panicked : Setter World_panicked :=
  ltac:(field_setter eta_World World_panicked).

Definition NewWorld : World := mkWorld NewMemoryBus ∅ ∅ ∅ ∅ [] false.

Section bus.
Context `{GoRuntime}.
Implicit Types (w : World) (b : MemoryBus) (s o : pointer) (t : nat).

(** ** The critical sections *)

Definition addSubscriber b (userID : UUID) s : MemoryBus :=
  mkMemoryBus (<[userID := <[s := tt]> (nested (MemoryBus_subscribers b) userID)]>
                 (MemoryBus_subscribers b))
    (MemoryBus_owners b) (MemoryBus_fences b).

(** Deleting from a missing inner map does nothing. *)
Definition dropSubscriber b (userID : UUID) s : MemoryBus :=
  match MemoryBus_subscribers b !! userID with
  | Some subscriptions =>
    mkMemoryBus (<[userID := delete s subscriptions]> (MemoryBus_subscribers b))
      (MemoryBus_owners b) (MemoryBus_fences b)
  | None => b
  end.

(** The subscriptions [Publish] sends to, in its order. *)
Definition receivers b (users : list UUID) : list pointer :=
  users ≫= λ userID, (range (nested (MemoryBus_subscribers b) userID)).*1.

(** The subscriptions [Close] of the bus visits. *)
Definition allSubscriptions b : list pointer :=
  range (MemoryBus_subscribers b) ≫= λ '(_, subscriptions), (range subscriptions).*1.

(** The loop of [RegisterSessionOwner] over the fences of the user: expired ones are
    deleted, the others are collected.  [now] is the clock at each iteration. *)
Fixpoint collectBarriers (now : UUID → Z) (entries : list (UUID * memoryFence))
    (fences : gmap UUID memoryFence) : gmap UUID memoryFence * list memoryFence :=
  match entries with
  | [] => (fences, [])
  | (ticketID, barrier) :: entries =>
    if negb (After (memoryFence_validUntil barrier) (now ticketID))
    then collectBarriers now entries (delete ticketID fences)
    else let '(fences, barriers) := collectBarriers now entries fences in
         (fences, barrier :: barriers)
  end.

(** [barrier.sessionID == nil || *barrier.sessionID == sessionID] *)
Definition covers (barrier : option UUID) (sessionID : UUID) : bool :=
  match barrier with None => true | Some x => bool_decide (x = sessionID) end.

Definition registerOwner b (userID : UUID) o (now : UUID → Z) : MemoryBus * list memoryFence :=
  let owners := <[userID := <[o := tt]> (nested (MemoryBus_owners b) userID)]> (MemoryBus_owners b) in
  match MemoryBus_fences b !! userID with
  | Some fences =>
    let '(fences, barriers) := collectBarriers now (range fences) fences in
    (mkMemoryBus (MemoryBus_subscribers b) owners (<[userID := fences]> (MemoryBus_fences b)), barriers)
  | None => (mkMemoryBus (MemoryBus_subscribers b) owners (MemoryBus_fences b), [])
  end.

Definition addFence b (userID ticketID : UUID) (sessionID : option UUID) (now : Z) : MemoryBus :=
  mkMemoryBus (MemoryBus_subscribers b) (MemoryBus_owners b)
    (<[userID := <[ticketID := mkmemoryFence sessionID (now + realtimeFenceTTL)]>
                   (nested (MemoryBus_fences b) userID)]> (MemoryBus_fences b)).

Definition dropFence b (userID ticketID : UUID) : MemoryBus :=
  match MemoryBus_fences b !! userID with
  | Some fences =>
    mkMemoryBus (MemoryBus_subscribers b) (MemoryBus_owners b)
      (<[userID := delete ticketID fences]> (MemoryBus_fences b))
  | None => b
  end.

Definition dropOwner b (userID : UUID) o : MemoryBus :=
  let owners := match MemoryBus_owners b !! userID with
                | Some owners => <[userID := delete o owners]> (MemoryBus_owners b)
                | None => MemoryBus_owners b
                end in
  let owners := if bool_decide (nested owners userID = ∅) then delete userID owners else owners in
  mkMemoryBus (MemoryBus_subscribers b) owners (MemoryBus_fences b).

(** [Valid] of a session owner. *)
Definition Valid w o : bool :=
  match World_owners w !! o with
  | Some owner =>
    bool_decide (is_Some (nested (MemoryBus_owners (World_bus w)) (owner_userID owner) !! o))
  | None => false
  end.

(** ** Locks and channels *)

Definition holdsWrite (pc : PC) : bool := match pc with BusClosing _ => true | _ => false end.
Definition holdsLock (pc : PC) : bool :=
  match pc with BusClosing _ | Publishing _ _ => true | _ => false end.

Definition mayLock w : bool := bool_decide (map_Forall (λ _ pc, holdsLock pc = false) (World_threads w)).
Definition mayRLock w : bool := bool_decide (map_Forall (λ _ pc, holdsWrite pc = false) (World_threads w)).

Definition goto w t (pc : PC) : World := w <| World_threads := <[t := pc]> (World_threads w) |>.
Definition leave w t : World := w <| World_threads := delete t (World_threads w) |>.

(** [select { case ch <- event: default: }]; a closed channel panics. *)
Definition send w s (event : RealtimeEvent) : World :=
  match World_subs w !! s with
  | Some sub =>
    if sub_closed sub then w <| World_panicked := true |>
    else if (length (sub_ch sub) <? channelCapacity)%nat
    then w <| World_subs := <[s := mkmemorySubscription (sub_userID sub) (sub_ch sub ++ [event])
                                     (sub_closed sub) (sub_once sub)]> (World_subs w) |>
    else w
  | None => w
  end.

(** [close(ch)] at the end of the function a [Once] runs. *)
Definition closeCh w s : World :=
  match World_subs w !! s with
  | Some sub =>
    let w := if sub_closed sub then w <| World_panicked := true |> else w in
    w <| World_subs := <[s := mkmemorySubscription (sub_userID sub) (sub_ch sub) true OnceDone]>
                         (World_subs w) |>
  | None => w
  end.

(** ** Steps *)

Inductive Label :=
  | Publish (users : list UUID) (event : RealtimeEvent)
  | Subscribe (s : pointer) (userID : UUID)
  | RegisterSessionOwner (o : pointer) (userID sessionID : UUID) (now : UUID → Z)
  | FenceSessions (ticket : pointer) (userID : UUID) (sessionID : option UUID) (ticketID : UUID) (now : Z)
  | Release (ticket : pointer)
  | CloseBus
  | CloseOwner (o : pointer)
  | CloseSubscription (s : pointer)
  | Receive (s : pointer)
  (** the next action of a call in progress *)
  | Continue.

Definition enter w t (label : Label) : option World :=
  match label with
  | Publish users event =>
    if mayRLock w then Some (goto w t (Publishing (receivers (World_bus w) users) event)) else None
  | Subscribe s userID =>
    if bool_decide (World_subs w !! s = None) && mayLock w
    then Some (w <| World_subs := <[s := mkmemorySubscription userID [] false OnceFresh]> (World_subs w) |>
                 <| World_bus := addSubscriber (World_bus w) userID s |>)
    else None
  | RegisterSessionOwner o userID sessionID now =>
    if bool_decide (World_owners w !! o = None) && mayLock w
    then let '(b, barriers) := registerOwner (World_bus w) userID o now in
         let calls := List.filter (λ barrier, covers (memoryFence_sessionID barrier) sessionID) barriers in
         Some (goto (w <| World_owners := <[o := mkmemorySessionOwner userID sessionID OnceFresh]>
                                            (World_owners w) |>
                       <| World_bus := b |>)
                 t (Fencing (map (λ barrier, (o, memoryFence_sessionID barrier)) calls)))
    else None
  | FenceSessions ticket userID sessionID ticketID now =>
    if bool_decide (World_tickets w !! ticket = None) && mayLock w
    then let owners := (range (nested (MemoryBus_owners (World_bus w)) userID)).*1 in
         Some (goto (w <| World_tickets := <[ticket := mkmemoryFenceTicket userID ticketID OnceFresh]>
                                             (World_tickets w) |>
                       <| World_bus := addFence (World_bus w) userID ticketID sessionID now |>)
                 t (Fencing (map (λ o, (o, sessionID)) owners)))
    else None
  | Release ticket =>
    match World_tickets w !! ticket with
    | Some tk =>
      match ticket_once tk with
      | OnceFresh =>
        if mayLock w
        then Some (w <| World_tickets := <[ticket := mkmemoryFenceTicket (ticket_userID tk)
                                                       (ticket_ticketID tk) OnceDone]> (World_tickets w) |>
                     <| World_bus := dropFence (World_bus w) (ticket_userID tk) (ticket_ticketID tk) |>)
        else None
      | OnceRunning => None
      | OnceDone => Some w
      end
    | None => None
    end
  | CloseBus => if mayLock w then Some (goto w t (BusClosing (allSubscriptions (World_bus w)))) else None
  | CloseOwner o =>
    match World_owners w !! o with
    | Some owner =>
      match owner_once owner with
      | OnceFresh =>
        if mayLock w
        then Some (w <| World_owners := <[o := mkmemorySessionOwner (owner_userID owner)
                                                 (owner_sessionID owner) OnceDone]> (World_owners w) |>
                     <| World_bus := dropOwner (World_bus w) (owner_userID owner) o |>)
        else None
      | OnceRunning => None
      | OnceDone => Some w
      end
    | None => None
    end
  | CloseSubscription s =>
    match World_subs w !! s with
    | Some sub =>
      match sub_once sub with
      | OnceFresh =>
        Some (goto (w <| World_subs := <[s := mkmemorySubscription (sub_userID sub) (sub_ch sub)
                                                (sub_closed sub) OnceRunning]> (World_subs w) |>)
                t (SubClosing s))
      | OnceRunning => None
      | OnceDone => Some w
      end
    | None => None
    end
  | Receive s =>
    match World_subs w !! s with
    | Some sub =>
      Some (w <| World_subs := <[s := mkmemorySubscription (sub_userID sub) (tail (sub_ch sub))
                                        (sub_closed sub) (sub_once sub)]> (World_subs w) |>)
    | None => None
    end
  | Continue => None
  end.

Definition continue w t (pc : PC) : option World :=
  match pc with
  | Publishing [] _ => Some (leave w t)
  | Publishing (s :: rest) event => Some (goto (send w s event) t (Publishing rest event))
  | SubClosing s =>
    match World_subs w !! s with
    | Some sub =>
      if mayLock w
      then Some (goto (w <| World_bus := dropSubscriber (World_bus w) (sub_userID sub) s |>) t (SubRemoved s))
      else None
    | None => None
    end
  | SubRemoved s => Some (leave (closeCh w s) t)
  | BusClosing [] => Some (leave (w <| World_bus := NewMemoryBus |>) t)
  | BusClosing (s :: rest) =>
    match World_subs w !! s with
    | Some sub =>
      match sub_once sub with
      | OnceFresh => Some (goto (closeCh w s) t (BusClosing rest))
      | OnceRunning => None
      | OnceDone => Some (goto w t (BusClosing rest))
      end
    | None => None
    end
  | Fencing [] => Some (leave w t)
  | Fencing (call :: rest) =>
    Some (goto (w <| World_fenced ::= λ calls, calls ++ [call] |>) t (Fencing rest))
  end.

Definition step w t (label : Label) : option World :=
  match World_threads w !! t, label with
  | Some pc, Continue => continue w t pc
  | Some _, _ => None
  | None, _ => enter w t label
  end.

Fixpoint run w (trace : list (nat * Label)) : option World :=
  match trace with
  | [] => Some w
  | (t, label) :: trace => step w t label ≫= λ w, run w trace
  end.

Definition reachable w : Prop := ∃ trace, run NewWorld trace = Some w.

(** ** No goroutine touches a closed channel *)

Definition subscribed b (userID : UUID) s : Prop :=
  nested (MemoryBus_subscribers b) userID !! s = Some tt.

(** The subscription whose [Once] the thread runs in [memorySubscription.Close]. *)
Definition closes (pc : PC) : option pointer :=
  match pc with SubClosing s | SubRemoved s => Some s | _ => None end.

Record bus_inv w : Prop := {
  inv_writer t t' pc pc' :
    World_threads w !! t = Some pc → World_threads w !! t' = Some pc' →
    holdsWrite pc = true → holdsLock pc' = true → t' = t;
  inv_once t pc s :
    World_threads w !! t = Some pc → closes pc = Some s →
    ∃ sub, World_subs w !! s = Some sub ∧ sub_once sub = OnceRunning;
  inv_single t t' pc pc' s :
    World_threads w !! t = Some pc → World_threads w !! t' = Some pc' →
    closes pc = Some s → closes pc' = Some s → t' = t;
  inv_removed t s u :
    World_threads w !! t = Some (SubRemoved s) → ¬ subscribed (World_bus w) u s;
  inv_subscribed u s :
    subscribed (World_bus w) u s →
    ∃ sub, World_subs w !! s = Some sub ∧ sub_userID sub = u ∧
      (sub_once sub ≠ OnceDone ∨
       ∃ t pc, World_threads w !! t = Some pc ∧ holdsWrite pc = true);
  inv_publishing t rest event s :
    World_threads w !! t = Some (Publishing rest event) → s ∈ rest →
    ∃ u, subscribed (World_bus w) u s;
  inv_open s sub :
    World_subs w !! s = Some sub → sub_once sub ≠ OnceDone → sub_closed sub = false;
  inv_capacity s sub :
    World_subs w !! s = Some sub → (length (sub_ch sub) ≤ channelCapacity)%nat;
  inv_no_panic : World_panicked w = false }.

Lemma NewWorld_inv : bus_inv NewWorld.
Proof.
  by split; cbn; intros *; rewrite ?lookup_empty.
Qed.

Lemma mayLock_spec w t pc :
  mayLock w = true → World_threads w !! t = Some pc → holdsLock pc = false.
Proof. unfold mayLock. intros Hm%bool_decide_eq_true. apply Hm. Qed.

Lemma mayRLock_spec w t pc :
  mayRLock w = true → World_threads w !! t = Some pc → holdsWrite pc = false.
Proof. unfold mayRLock. intros Hm%bool_decide_eq_true. apply Hm. Qed.

(** Threads that are outside the bus or make callbacks matter to no subscription. *)
Definition quiet (pc : option PC) : bool :=
  match pc with None | Some (Fencing _) => true | _ => false end.

Lemma inv_frame w w' :
  bus_inv w →
  (∀ t, World_threads w' !! t = World_threads w !! t ∨
        quiet (World_threads w !! t) ∧ quiet (World_threads w' !! t)) →
  (∀ u s, subscribed (World_bus w') u s ↔ subscribed (World_bus w) u s) →
  World_subs w' = World_subs w → World_panicked w' = World_panicked w →
  bus_inv w'.
Proof.
  intros Hi Ht Hb Hs Hp.
  assert (∀ t pc, quiet (Some pc) = false →
            World_threads w' !! t = Some pc ↔ World_threads w !! t = Some pc) as Hpc.
  { intros t pc Hq. destruct (Ht t) as [->|[Hq1 Hq2]]; [done|].
    split; intros Heq; rewrite Heq in *; by rewrite Hq in *. }
  split.
  - intros t t' pc pc' H1 H2 Hw Hl. apply Hpc in H1; [|by destruct pc]. apply Hpc in H2; [|by destruct pc'].
    by apply (inv_writer w Hi t t' pc pc').
  - intros t pc s H1 Hc. apply Hpc in H1; [|by destruct pc]. rewrite Hs. by apply (inv_once w Hi t pc s).
  - intros t t' pc pc' s H1 H2 Hc Hc'. apply Hpc in H1; [|by destruct pc].
    apply Hpc in H2; [|by destruct pc']. by apply (inv_single w Hi t t' pc pc' s).
  - intros t s u H1. rewrite Hb. apply Hpc in H1; [|done]. by apply (inv_removed w Hi t s u).
  - intros u s. rewrite Hb, Hs. intros (sub & Hsub & Hu & Ho)%(inv_subscribed w Hi).
    exists sub. split_and!; [done|done|]. destruct Ho as [?|(t & pc & H1 & Hw)]; [by left|right].
    exists t, pc. split; [|done]. apply Hpc; [by destruct pc|done].
  - intros t rest event s H1 Hin. apply Hpc in H1; [|done].
    destruct (inv_publishing w Hi t rest event s H1 Hin) as [u Hu]. exists u. by apply Hb.
  - rewrite Hs. apply (inv_open w Hi).
  - rewrite Hs. apply (inv_capacity w Hi).
  - rewrite Hp. apply (inv_no_panic w Hi).
Qed.

(** Changes of a buffer that keep it within its capacity. *)
Lemma inv_buffer w s sub ch :
  bus_inv w → World_subs w !! s = Some sub → (length ch ≤ channelCapacity)%nat →
  bus_inv (w <| World_subs := <[s := mkmemorySubscription (sub_userID sub) ch (sub_closed sub)
                                       (sub_once sub)]> (World_subs w) |>).
Proof.
  intros Hi Hs Hch. destruct Hi as [? Ho ? ? Hm ? Hop Hc ?]. split; cbn; try done.
  - intros t pc s' H1 H2. destruct (Ho _ _ _ H1 H2) as (sub' & H3 & H4).
    destruct (decide (s = s')) as [->|Hne]; [|rewrite lookup_insert_ne by done; eauto].
    rewrite lookup_insert_eq. simplify_eq. eauto.
  - intros u s' Hu. destruct (Hm _ _ Hu) as (sub' & H3 & H4 & H5).
    destruct (decide (s = s')) as [->|Hne]; [|rewrite lookup_insert_ne by done; eauto].
    rewrite lookup_insert_eq. simplify_eq. eauto.
  - intros s' sub'. rewrite lookup_insert_Some. intros [[<- <-]|[_ Hs']]; cbn; [by apply (Hop s)|eauto].
  - intros s' sub'. rewrite lookup_insert_Some. intros [[<- <-]|[_ Hs']]; cbn; [done|eauto].
Qed.

Lemma inv_send w s event :
  bus_inv w → (∀ sub, World_subs w !! s = Some sub → sub_closed sub = false) → bus_inv (send w s event).
Proof.
  intros Hi Hopen. unfold send. destruct (World_subs w !! s) as [sub|] eqn:Hs; [|done].
  rewrite (Hopen sub) by done. destruct (_ <? _)%nat eqn:Hl; [|done].
  pose proof (inv_buffer w s sub (sub_ch sub ++ [event]) Hi Hs) as Hb.
  rewrite (Hopen sub) in Hb by done. apply Hb.
  apply Nat.ltb_lt in Hl. rewrite length_app. cbn. lia.
Qed.

Lemma send_frame w s event :
  World_threads (send w s event) = World_threads w ∧ World_bus (send w s event) = World_bus w.
Proof. unfold send. repeat case_match; done. Qed.

Lemma closeCh_frame w s :
  World_threads (closeCh w s) = World_threads w ∧ World_bus (closeCh w s) = World_bus w.
Proof. unfold closeCh. repeat case_match; done. Qed.

(** Case analysis on the thread that moved. *)
Ltac moved :=
  intros; unfold goto, leave in *; cbn in *;
  repeat match goal with
  | H : <[_ := _]> _ !! _ = Some _ |- _ => apply lookup_insert_Some in H as [[? ?]|[? H]]
  | H : delete _ _ !! _ = Some _ |- _ => apply lookup_delete_Some in H as [? H]
  end; simplify_eq; cbn in *; simplify_eq; try done;
  try match goal with
  | F : ∀ t pc, _ !! t = Some pc → _ pc = false, H : _ !! ?t = Some ?pc |- _ =>
    specialize (F t pc H); cbn in F; first [congruence | destruct pc; cbn in *; congruence]
  end; eauto 4.

Lemma inv_publish w t users event :
  bus_inv w → World_threads w !! t = None → mayRLock w = true →
  bus_inv (goto w t (Publishing (receivers (World_bus w) users) event)).
Proof.
  intros Hi Ht Hm. pose proof (λ t pc, mayRLock_spec w t pc Hm) as Hfree.
  destruct Hi as [Hw Ho Hu Hr Hm' Hp Hop Hc ?]. split; cbn; try done.
  - moved.
  - moved.
  - moved.
  - moved.
  - intros u s (sub & Hs & Hx & Hd)%Hm'. exists sub. split_and!; [done|done|]. left.
    destruct Hd as [?|(t1 & pc & H1 & H2)]; [done|]. by rewrite (Hfree _ _ H1) in H2.
  - intros t1 rest event' s. rewrite lookup_insert_Some. intros [[<- [= <- <-]]|[_ H1]]; [|eauto].
    unfold receivers. intros (u & Hs & _)%list_elem_of_bind. exists u. unfold subscribed.
    apply list_elem_of_fmap in Hs as ([s' []] & -> & Hs%elem_of_range). done.
Qed.

(** Steps inside [Publish]. *)
Lemma inv_published w t s rest event :
  bus_inv w → World_threads w !! t = Some (Publishing (s :: rest) event) →
  bus_inv (goto (send w s event) t (Publishing rest event)).
Proof.
  intros Hi Ht.
  assert (bus_inv (send w s event)) as Hi'.
  { apply inv_send; [done|]. intros sub Hs.
    destruct (inv_publishing w Hi t _ _ s Ht ltac:(left)) as [u Hu].
    destruct (inv_subscribed w Hi u s Hu) as (sub' & Hs' & _ & [Hd|(t' & pc & H1 & H2)]); simplify_eq.
    - by apply (inv_open w Hi s).
    - pose proof (inv_writer w Hi t' t pc _ H1 Ht H2 eq_refl). by simplify_eq. }
  destruct (send_frame w s event) as [Heq _]. rewrite <-Heq in Ht. clear Heq Hi.
  revert Ht Hi'. generalize (send w s event). clear w. intros w Ht Hi.
  destruct Hi as [Hw Ho Hu Hr Hm Hp Hop Hc ?]. split; cbn; try done.
  - moved.
  - moved.
  - moved.
  - moved.
  - intros u s' (sub & Hs & Hx & Hd)%Hm. exists sub. split_and!; [done|done|].
    destruct Hd as [?|(t1 & pc & H1 & H2)]; [by left|right]. exists t1, pc.
    rewrite lookup_insert_ne; [done|]. intros <-. by simplify_eq.
  - intros t1 rest' event' s'. rewrite lookup_insert_Some. intros [[<- [= <- <-]]|[_ H1]]; [|eauto].
    intros Hin. apply (Hp t (s :: rest) event); [done|by right].
Qed.

Lemma inv_leave w t pc0 :
  bus_inv w → World_threads w !! t = Some pc0 → holdsWrite pc0 = false → bus_inv (leave w t).
Proof.
  intros Hi Ht Hpc0. destruct Hi as [Hw Ho Hu Hr Hm Hp Hop Hc ?]. split; cbn; try done.
  - moved.
  - moved.
  - moved.
  - moved.
  - intros u s' (sub & Hs & Hx & Hd)%Hm. exists sub. split_and!; [done|done|].
    destruct Hd as [?|(t1 & pc & H1 & H2)]; [by left|right]. exists t1, pc.
    rewrite lookup_delete_ne; [done|]. intros <-. congruence.
  - intros t1 rest' event' s'. rewrite lookup_delete_Some. intros [_ H1]. eauto.
Qed.

Lemma subscribed_add b u s u' s' :
  subscribed (addSubscriber b u s) u' s' ↔ u = u' ∧ s = s' ∨ subscribed b u' s'.
Proof.
  unfold subscribed, addSubscriber. cbn. rewrite nested_insert. destruct (decide (u = u')) as [->|].
  - rewrite lookup_insert_Some. destruct (decide (s = s')); naive_solver.
  - naive_solver.
Qed.

Lemma subscribed_drop b u s u' s' :
  subscribed (dropSubscriber b u s) u' s' ↔ ¬ (u = u' ∧ s = s') ∧ subscribed b u' s'.
Proof.
  unfold subscribed, dropSubscriber. destruct (MemoryBus_subscribers b !! u) as [m|] eqn:Hm; cbn.
  - rewrite nested_insert. destruct (decide (u = u')) as [<-|].
    + rewrite lookup_delete_Some. unfold nested. rewrite Hm. cbn. naive_solver.
    + naive_solver.
  - split; [|by intros []]. intros Hs. split; [|done]. intros [<- <-].
    unfold nested in Hs. rewrite Hm in Hs. cbn in Hs. by rewrite lookup_empty in Hs.
Qed.

Lemma inv_subscribe w u s :
  bus_inv w → World_subs w !! s = None → mayLock w = true →
  bus_inv (w <| World_subs := <[s := mkmemorySubscription u [] false OnceFresh]> (World_subs w) |>
             <| World_bus := addSubscriber (World_bus w) u s |>).
Proof.
  intros Hi Hs Hm. pose proof (λ t pc, mayLock_spec w t pc Hm) as Hfree.
  destruct Hi as [Hw Ho Hu Hr Hm' Hp Hop Hc ?]. split; cbn; try done.
  - intros t pc s' H1 H2. destruct (Ho _ _ _ H1 H2) as (sub & H3 & H4). exists sub.
    rewrite lookup_insert_ne by (intros <-; by simplify_eq). done.
  - intros t s' u' H1 [[<- <-]|H2]%subscribed_add; [|by eapply Hr].
    destruct (Ho _ _ _ H1 eq_refl) as (sub & H3 & _). by simplify_eq.
  - intros u' s' [[<- <-]|(sub & H3 & H4)%Hm']%subscribed_add.
    + rewrite lookup_insert_eq. eexists. split; [done|]. by auto.
    + exists sub. rewrite lookup_insert_ne by (intros <-; by simplify_eq). done.
  - intros t rest event s' H1. by specialize (Hfree _ _ H1).
  - intros s' sub. rewrite lookup_insert_Some. naive_solver.
  - intros s' sub. rewrite lookup_insert_Some. intros [[<- <-]|[_ H1]]; cbn; [lia|eauto].
Qed.

Lemma inv_bus_close w t rest :
  bus_inv w → World_threads w !! t = None → mayLock w = true → bus_inv (goto w t (BusClosing rest)).
Proof.
  intros Hi Ht Hm. pose proof (λ t pc, mayLock_spec w t pc Hm) as Hfree.
  destruct Hi as [Hw Ho Hu Hr Hm' Hp Hop Hc ?]. split; cbn; try done.
  1-4: moved.
  - intros u s (sub & Hs & Hx & Hd)%Hm'. exists sub. split_and!; [done|done|].
    right. exists t. eexists. by rewrite lookup_insert_eq.
  - moved.
Qed.

(** The lock holder advances. *)
Lemma inv_bus_closing w t rest rest' :
  bus_inv w → World_threads w !! t = Some (BusClosing rest) → bus_inv (goto w t (BusClosing rest')).
Proof.
  intros Hi Ht. destruct Hi as [Hw Ho Hu Hr Hm' Hp Hop Hc ?]. split; cbn; try done.
  1-4: moved.
  - intros u s (sub & Hs & Hx & Hd)%Hm'. exists sub. split_and!; [done|done|].
    right. exists t. eexists. by rewrite lookup_insert_eq.
  - moved.
Qed.

Lemma inv_bus_closed w t :
  bus_inv w → World_threads w !! t = Some (BusClosing []) →
  bus_inv (leave (w <| World_bus := NewMemoryBus |>) t).
Proof.
  intros Hi Ht. destruct Hi as [Hw Ho Hu Hr Hm' Hp Hop Hc ?]. split; cbn; try done.
  1-3: moved.
  intros t' rest event s [Hne Ht']%lookup_delete_Some. exfalso. apply Hne.
  symmetry. eapply Hw; [exact Ht|exact Ht'|done|done].
Qed.

Lemma inv_sub_close w t s sub :
  bus_inv w → World_threads w !! t = None → World_subs w !! s = Some sub → sub_once sub = OnceFresh →
  bus_inv (goto (w <| World_subs := <[s := mkmemorySubscription (sub_userID sub) (sub_ch sub)
                                             (sub_closed sub) OnceRunning]> (World_subs w) |>)
             t (SubClosing s)).
Proof.
  intros Hi Ht Hs Hf. destruct Hi as [Hw Ho Hu Hr Hm' Hp Hop Hc ?].
  assert (∀ t' pc, World_threads w !! t' = Some pc → closes pc ≠ Some s) as Hnot.
  { intros t' pc H1 H2. destruct (Ho _ _ _ H1 H2) as (sub' & H3 & H4). simplify_eq. congruence. }
  split; cbn; try done.
  - moved.
  - intros t' pc s' [[<- <-]|[_ H1]]%lookup_insert_Some H2.
    + injection H2 as <-. rewrite lookup_insert_eq. eauto.
    + destruct (Ho _ _ _ H1 H2) as (sub' & H3 & H4).
      rewrite lookup_insert_ne; [eauto|]. intros <-. by destruct (Hnot _ _ H1).
  - moved; by exfalso; eapply Hnot.
  - moved.
  - intros u s' (sub' & Hs' & Hx & Hd)%Hm'. destruct (decide (s = s')) as [<-|Hne].
    + rewrite lookup_insert_eq. simplify_eq. eexists. split_and!; [done|done|by left].
    + rewrite lookup_insert_ne by done. exists sub'. split_and!; [done|done|].
      destruct Hd as [?|(t1 & pc & H1 & H2)]; [by left|right]. exists t1, pc.
      rewrite lookup_insert_ne; [done|]. intros <-. by simplify_eq.
  - moved.
  - intros s' sub' [[<- <-]|[_ H1]]%lookup_insert_Some; cbn; [|by eauto].
    intros _. apply (Hop s); [done|]. by rewrite Hf.
  - intros s' sub' [[<- <-]|[_ H1]]%lookup_insert_Some; cbn; eauto.
Qed.

Lemma inv_sub_removed w t s sub :
  bus_inv w → World_threads w !! t = Some (SubClosing s) → World_subs w !! s = Some sub →
  mayLock w = true →
  bus_inv (goto (w <| World_bus := dropSubscriber (World_bus w) (sub_userID sub) s |>) t (SubRemoved s)).
Proof.
  intros Hi Ht Hs Hm. pose proof (λ t pc, mayLock_spec w t pc Hm) as Hfree.
  destruct Hi as [Hw Ho Hu Hr Hm' Hp Hop Hc ?]. split; cbn; try done.
  - moved.
  - moved.
  - moved.
  - intros t' s' u [[<- [= <-]]|[_ H1]]%lookup_insert_Some [Hne Hin]%subscribed_drop.
    + destruct (Hm' _ _ Hin) as (sub' & H3 & <- & _). simplify_eq. by destruct Hne.
    + by apply (Hr t' s' u).
  - intros u s' [_ (sub' & Hs' & Hx & Hd)%Hm']%subscribed_drop. exists sub'. split_and!; [done|done|].
    destruct Hd as [?|(t1 & pc & H1 & H2)]; [by left|right]. exists t1, pc.
    rewrite lookup_insert_ne; [done|]. intros <-. by simplify_eq.
  - moved.
Qed.

(** [close(ch)] by the thread that runs the [Once], or by the lock holder when it has not
    run yet. *)
Lemma inv_close w s sub :
  bus_inv w → World_subs w !! s = Some sub → sub_once sub ≠ OnceDone →
  (∀ t pc, World_threads w !! t = Some pc → closes pc ≠ Some s) →
  (∀ u, subscribed (World_bus w) u s →
        ∃ t pc, World_threads w !! t = Some pc ∧ holdsWrite pc = true) →
  bus_inv (closeCh w s).
Proof.
  intros Hi Hs Hd Hnot Hheld. unfold closeCh. rewrite Hs, (inv_open w Hi s sub Hs Hd).
  destruct Hi as [Hw Ho Hu Hr Hm' Hp Hop Hc ?]. split; cbn; try done.
  - intros t pc s' H1 H2. rewrite lookup_insert_ne; [by eauto|]. intros <-. by destruct (Hnot _ _ H1).
  - intros u s' Hin. destruct (Hm' _ _ Hin) as (sub' & Hs' & Hx & Hd'). destruct (decide (s = s')) as [<-|Hne].
    + rewrite lookup_insert_eq. simplify_eq. eexists. split_and!; [done|done|]. right. by eapply Hheld.
    + rewrite lookup_insert_ne by done. eauto.
  - intros s' sub' [[<- <-]|[_ H1]]%lookup_insert_Some; cbn; [done|by eauto].
  - intros s' sub' [[<- <-]|[_ H1]]%lookup_insert_Some; cbn; eauto.
Qed.

Lemma inv_sub_closed w t s :
  bus_inv w → World_threads w !! t = Some (SubRemoved s) → bus_inv (leave (closeCh w s) t).
Proof.
  intros Hi Ht. assert (leave (closeCh w s) t = closeCh (leave w t) s) as ->.
  { unfold leave, closeCh. cbn. by repeat case_match. }
  destruct (inv_once w Hi t _ s Ht eq_refl) as (sub & Hs & Ho).
  apply (inv_close _ s sub); [by eapply inv_leave|done|by rewrite Ho| |].
  - unfold leave. cbn. intros t' pc [Hne H1]%lookup_delete_Some Hc. apply Hne. symmetry.
    by apply (inv_single w Hi t t' _ pc s Ht H1).
  - intros u Hu. by destruct (inv_removed w Hi t s u Ht).
Qed.

Lemma inv_bus_close_one w t s rest sub :
  bus_inv w → World_threads w !! t = Some (BusClosing (s :: rest)) →
  World_subs w !! s = Some sub → sub_once sub = OnceFresh →
  bus_inv (goto (closeCh w s) t (BusClosing rest)).
Proof.
  intros Hi Ht Hs Hf. apply (inv_bus_closing _ t (s :: rest)).
  2: { by rewrite (proj1 (closeCh_frame w s)). }
  apply (inv_close _ s sub); [done|done|by rewrite Hf| |].
  - intros t' pc H1 Hc. destruct (inv_once w Hi t' pc s H1 Hc) as (sub' & H2 & H3). congruence.
  - intros u _. by exists t, (BusClosing (s :: rest)).
Qed.

(** Operations on owners and fences leave the subscribers alone. *)
Lemma registerOwner_subscribers b u o (now : UUID → Z) :
  MemoryBus_subscribers (registerOwner b u o now).1 = MemoryBus_subscribers b.
Proof. unfold registerOwner. repeat case_match; done. Qed.

Lemma dropFence_subscribers b u ticketID :
  MemoryBus_subscribers (dropFence b u ticketID) = MemoryBus_subscribers b.
Proof. unfold dropFence. by case_match. Qed.

Lemma subscribed_same b b' u s :
  MemoryBus_subscribers b' = MemoryBus_subscribers b → subscribed b' u s ↔ subscribed b u s.
Proof. unfold subscribed. by intros ->. Qed.

(** Entering or leaving the callbacks. *)
Lemma inv_quiet w w' t :
  bus_inv w → quiet (World_threads w !! t) → quiet (World_threads w' !! t) →
  (∀ t', t ≠ t' → World_threads w' !! t' = World_threads w !! t') →
  MemoryBus_subscribers (World_bus w') = MemoryBus_subscribers (World_bus w) →
  World_subs w' = World_subs w → World_panicked w' = World_panicked w → bus_inv w'.
Proof.
  intros Hi Hq Hq' Ht Hb Hs Hp. apply (inv_frame w); [done| |by intros; apply subscribed_same|done|done].
  intros t'. destruct (decide (t = t')) as [<-|Hne]; [by right|left]. by apply Ht.
Qed.

Lemma enter_inv w t label w' :
  bus_inv w → World_threads w !! t = None → enter w t label = Some w' → bus_inv w'.
Proof.
  intros Hi Ht He. assert (quiet (World_threads w !! t)) as Hq by by rewrite Ht.
  destruct label as [users event|s u|o u x now|tk u x ticketID now|tk| |o|s|s|]; cbn in He.
  - destruct (mayRLock w) eqn:Hm; simplify_eq. by apply inv_publish.
  - destruct (bool_decide _ && _) eqn:Hg; simplify_eq. bool_prop. by apply inv_subscribe.
  - destruct (bool_decide _ && _) eqn:Hg; [|done].
    pose proof (registerOwner_subscribers (World_bus w) u o now) as Hb.
    destruct (registerOwner _ _ _ _) as [b barriers]. simplify_eq.
    apply (inv_quiet w _ t); cbn; [done|done|by rewrite lookup_insert_eq| |done|done|done].
    intros t' Hne. by rewrite lookup_insert_ne.
  - destruct (bool_decide _ && _) eqn:Hg; simplify_eq.
    apply (inv_quiet w _ t); cbn; [done|done|by rewrite lookup_insert_eq| |done|done|done].
    intros t' Hne. by rewrite lookup_insert_ne.
  - repeat case_match; simplify_eq; [|done].
    apply (inv_quiet w _ t); cbn; [done..|by apply dropFence_subscribers|done|done].
  - destruct (mayLock w) eqn:Hm; simplify_eq. by apply inv_bus_close.
  - repeat case_match; simplify_eq; [|done]. by apply (inv_quiet w _ t).
  - repeat case_match; simplify_eq; [|done]. by apply inv_sub_close.
  - destruct (World_subs w !! s) as [sub|] eqn:Hs; simplify_eq. apply inv_buffer; [done|done|].
    pose proof (inv_capacity w Hi s sub Hs). destruct (sub_ch sub); cbn in *; lia.
  - done.
Qed.

Lemma continue_inv w t pc w' :
  bus_inv w → World_threads w !! t = Some pc → continue w t pc = Some w' → bus_inv w'.
Proof.
  intros Hi Ht Hc. destruct pc as [[|s rest] event|s|s|[|s rest]|[|call rest]]; cbn in Hc.
  - simplify_eq. by eapply inv_leave.
  - simplify_eq. by apply inv_published.
  - destruct (World_subs w !! s) as [sub|] eqn:Hs; [|done].
    destruct (mayLock w) eqn:Hm; simplify_eq. by apply inv_sub_removed.
  - simplify_eq. by apply inv_sub_closed.
  - simplify_eq. by apply inv_bus_closed.
  - destruct (World_subs w !! s) as [sub|] eqn:Hs; [|done].
    destruct (sub_once sub) eqn:Ho; simplify_eq; [by eapply inv_bus_close_one|by eapply inv_bus_closing].
  - simplify_eq. by eapply inv_leave.
  - simplify_eq. apply (inv_quiet w _ t); cbn; [done|by rewrite Ht|by rewrite lookup_insert_eq| |done..].
    intros t' Hne. by rewrite lookup_insert_ne.
Qed.

Lemma step_inv w t label w' : bus_inv w → step w t label = Some w' → bus_inv w'.
Proof.
  intros Hi. unfold step. destruct (World_threads w !! t) as [pc|] eqn:Ht.
  - destruct label; try done. by apply continue_inv.
  - by apply enter_inv.
Qed.

(** Invariants of single steps hold along runs. *)
Lemma run_ind (P : World → Prop) trace w w' :
  (∀ w t label w', P w → step w t label = Some w' → P w') → P w → run w trace = Some w' → P w'.
Proof.
  intros Hstep. revert w. induction trace as [|[t label] trace IH]; intros w Hw; cbn.
  { by intros [= <-]. }
  destruct (step w t label) as [w1|] eqn:Hs; [|done]. cbn. apply IH. by eapply Hstep.
Qed.

Lemma reachable_inv w : reachable w → bus_inv w.
Proof. intros [trace Hr]. eapply (run_ind bus_inv); [apply step_inv|apply NewWorld_inv|done]. Qed.

(** Whatever goroutines publish, subscribe, receive, and close subscriptions or
    the bus, in whatever order their steps interleave: no goroutine ever sends on or closes
    a closed channel (which would crash the process), no buffer holds more than 256 events,
    and a subscription that is registered while the bus is not being closed is open. *)
Theorem bus_never_panics w :
  reachable w →
  World_panicked w = false ∧
  (∀ s sub, World_subs w !! s = Some sub → (length (sub_ch sub) ≤ 256)%nat) ∧
  (∀ u s, subscribed (World_bus w) u s →
     (∀ t pc, World_threads w !! t = Some pc → holdsWrite pc = false) →
     ∃ sub, World_subs w !! s = Some sub ∧ sub_userID sub = u ∧ sub_closed sub = false).
Proof.
  intros Hi%reachable_inv. split_and!; [by apply inv_no_panic|apply inv_capacity, Hi|].
  intros u s Hs Hfree. destruct (inv_subscribed w Hi u s Hs) as (sub & H1 & H2 & [H3|(t & pc & H3 & H4)]).
  - exists sub. split_and!; [done|done|]. by apply (inv_open w Hi s).
  - by rewrite (Hfree _ _ H3) in H4.
Qed.

(** ** A session cannot slip past a fence *)

Definition registered b (userID : UUID) o : Prop :=
  nested (MemoryBus_owners b) userID !! o = Some tt.

(** The callback of [o] was made with [x], or a call in progress is about to make it. *)
Definition made w o (x : option UUID) : Prop :=
  (o, x) ∈ World_fenced w ∨
  ∃ t rest, World_threads w !! t = Some (Fencing rest) ∧ (o, x) ∈ rest.

Record fence_inv w : Prop := {
  inv_owner u o : registered (World_bus w) u o → is_Some (World_owners w !! o);
  inv_fenced u o owner ticketID barrier :
    registered (World_bus w) u o → World_owners w !! o = Some owner →
    nested (MemoryBus_fences (World_bus w)) u !! ticketID = Some barrier →
    covers (memoryFence_sessionID barrier) (owner_sessionID owner) = true →
    made w o (memoryFence_sessionID barrier) }.

Lemma collectBarriers_spec now entries fences fences' barriers :
  collectBarriers now entries fences = (fences', barriers) →
  ∀ k barrier, fences' !! k = Some barrier →
    fences !! k = Some barrier ∧ ((k, barrier) ∈ entries → barrier ∈ barriers).
Proof.
  revert fences fences' barriers.
  induction entries as [|[k0 barrier0] entries IH]; intros fences fences' barriers; cbn.
  { intros [= <- <-] k barrier Hk. split; [done|]. by intros ?%not_elem_of_nil. }
  destruct (After _ _); cbn.
  - destruct (collectBarriers now entries fences) as [fences1 barriers1] eqn:Hc.
    intros [= <- <-] k barrier Hk. destruct (IH _ _ _ Hc k barrier Hk) as [H1 H2]. split; [done|].
    intros [[= -> ->]|Hin]%elem_of_cons; [left|right; auto].
  - intros Hc k barrier Hk. destruct (IH _ _ _ Hc k barrier Hk) as [[Hne H1]%lookup_delete_Some H2].
    split; [done|]. intros [[= -> ->]|Hin]%elem_of_cons; [done|auto].
Qed.

Lemma registerOwner_spec b u o now b' barriers :
  registerOwner b u o now = (b', barriers) →
  (∀ u' o', registered b' u' o' ↔ u' = u ∧ o' = o ∨ registered b u' o') ∧
  (∀ u' k barrier, nested (MemoryBus_fences b') u' !! k = Some barrier →
     nested (MemoryBus_fences b) u' !! k = Some barrier ∧ (u' = u → barrier ∈ barriers)).
Proof.
  intros Hr.
  assert (∀ x, MemoryBus_owners x = <[u := <[o := tt]> (nested (MemoryBus_owners b) u)]> (MemoryBus_owners b) →
            ∀ u' o', registered x u' o' ↔ u' = u ∧ o' = o ∨ registered b u' o') as Hreg.
  { intros x Hx u' o'. unfold registered. rewrite Hx, nested_insert.
    destruct (decide (u = u')) as [->|Hne]; [|naive_solver].
    rewrite lookup_insert_Some. destruct (decide (o = o')); naive_solver. }
  unfold registerOwner in Hr. destruct (MemoryBus_fences b !! u) as [fences|] eqn:Hf.
  - destruct (collectBarriers now (range fences) fences) as [fences' barriers'] eqn:Hc. simplify_eq.
    split; [by apply Hreg|]. intros u' k barrier. cbn. rewrite nested_insert.
    destruct (decide (u = u')) as [<-|Hne]; [|naive_solver].
    intros Hk. destruct (collectBarriers_spec _ _ _ _ _ Hc k barrier Hk) as [H1 H2].
    unfold nested. rewrite Hf. split; [done|]. intros _. by apply H2, elem_of_range.
  - simplify_eq. split; [by apply Hreg|]. intros u' k barrier. cbn. intros Hk. split; [done|].
    intros ->. unfold nested in Hk. rewrite Hf in Hk. cbn in Hk. by rewrite lookup_empty in Hk.
Qed.

Lemma made_enter w t label w' o x :
  World_threads w !! t = None → enter w t label = Some w' → made w o x → made w' o x.
Proof.
  intros Ht He. assert (World_fenced w' = World_fenced w ∧
    ∀ t', t ≠ t' → World_threads w' !! t' = World_threads w !! t') as [Hf Hto].
  { destruct label; cbn in He; repeat case_match; simplify_eq; (split; [done|]); cbn;
      intros t' Hne; by rewrite ?lookup_insert_ne. }
  intros [Hin|(t' & rest & H1 & H2)]; [left; by rewrite Hf|right]. exists t', rest.
  rewrite Hto; [done|]. intros ->. congruence.
Qed.

Lemma made_continue w t pc w' o x :
  World_threads w !! t = Some pc → continue w t pc = Some w' → made w o x → made w' o x.
Proof.
  intros Ht Hc. assert (∀ t', t ≠ t' → World_threads w' !! t' = World_threads w !! t') as Hto.
  { intros t' Hne. unfold continue in Hc. repeat case_match; simplify_eq; cbn;
      rewrite ?lookup_insert_ne, ?lookup_delete_ne by done;
      rewrite ?(proj1 (send_frame _ _ _)), ?(proj1 (closeCh_frame _ _)); done. }
  assert (∀ call, call ∈ World_fenced w → call ∈ World_fenced w') as Hkeep.
  { intros call Hin. unfold continue in Hc. repeat case_match; simplify_eq; cbn;
      unfold send, closeCh; repeat case_match; cbn; rewrite ?elem_of_app; auto. }
  intros [Hin|(t' & rest & H1 & H2)]; [left; by apply Hkeep|].
  destruct (decide (t = t')) as [<-|Hne]; [|right; exists t', rest; by rewrite Hto].
  simplify_eq. destruct rest as [|call rest]; [by apply not_elem_of_nil in H2|]. cbn in Hc. simplify_eq.
  apply elem_of_cons in H2 as [<-|H2]; [left; cbn; rewrite elem_of_app; right; left|right].
  exists t, rest. cbn. by rewrite lookup_insert_eq.
Qed.

Lemma made_step w t label w' o x : step w t label = Some w' → made w o x → made w' o x.
Proof.
  unfold step. destruct (World_threads w !! t) as [pc|] eqn:Ht.
  - destruct label; try done. by apply made_continue.
  - by apply made_enter.
Qed.

(** Owners and fences only go away, and no owner is forgotten. *)
Definition fences_shrink w w' : Prop :=
  (∀ u o, registered (World_bus w') u o → registered (World_bus w) u o) ∧
  (∀ u k barrier, nested (MemoryBus_fences (World_bus w')) u !! k = Some barrier →
     nested (MemoryBus_fences (World_bus w)) u !! k = Some barrier) ∧
  (∀ o owner, World_owners w !! o = Some owner →
     ∃ owner', World_owners w' !! o = Some owner' ∧ owner_sessionID owner' = owner_sessionID owner).

Lemma fence_inv_shrink w w' :
  fence_inv w → fences_shrink w w' → (∀ o x, made w o x → made w' o x) → fence_inv w'.
Proof.
  intros [Ho Hf] (Hr & Hb & Hown) Hm. split.
  - intros u o [owner Hs]%Hr%Ho. destruct (Hown _ _ Hs) as (owner' & -> & _). eauto.
  - intros u o owner' ticketID barrier Hreg Hs' Hbar Hcov. apply Hm.
    destruct (Ho u o (Hr _ _ Hreg)) as [owner Hs]. destruct (Hown _ _ Hs) as (owner'' & H1 & H2).
    rewrite Hs' in H1. injection H1 as <-. apply (Hf u o owner ticketID); [by apply Hr|done|by apply Hb|].
    by rewrite <-H2.
Qed.

Lemma fences_shrink_refl w w' :
  World_bus w' = World_bus w → World_owners w' = World_owners w → fences_shrink w w'.
Proof. intros Hb Ho. unfold fences_shrink. rewrite Hb, Ho. split_and!; [done..|]. eauto. Qed.

Lemma dropSubscriber_frame b u s :
  MemoryBus_owners (dropSubscriber b u s) = MemoryBus_owners b ∧
  MemoryBus_fences (dropSubscriber b u s) = MemoryBus_fences b.
Proof. unfold dropSubscriber. by case_match. Qed.

Lemma dropFence_shrinks b u ticketID u' k barrier :
  nested (MemoryBus_fences (dropFence b u ticketID)) u' !! k = Some barrier →
  nested (MemoryBus_fences b) u' !! k = Some barrier.
Proof.
  unfold dropFence. destruct (MemoryBus_fences b !! u) as [fences|] eqn:Hf; [|done]. cbn.
  rewrite nested_insert. destruct (decide (u = u')) as [<-|]; [|done].
  intros [_ Hk]%lookup_delete_Some. unfold nested. by rewrite Hf.
Qed.

Lemma dropFence_owners b u ticketID :
  MemoryBus_owners (dropFence b u ticketID) = MemoryBus_owners b.
Proof. unfold dropFence. by case_match. Qed.

Lemma dropOwner_shrinks b u o u' o' :
  registered (dropOwner b u o) u' o' → registered b u' o'.
Proof.
  unfold registered, dropOwner. cbn.
  assert (∀ m, (m = MemoryBus_owners b ∨ ∃ owners, MemoryBus_owners b !! u = Some owners ∧
                  m = <[u := delete o owners]> (MemoryBus_owners b)) →
            nested m u' !! o' = Some tt → nested (MemoryBus_owners b) u' !! o' = Some tt) as Hm.
  { intros m [->|(owners & Hu & ->)]; [done|]. rewrite nested_insert.
    destruct (decide (u = u')) as [<-|]; [|done]. intros [_ Hk]%lookup_delete_Some.
    unfold nested. by rewrite Hu. }
  destruct (bool_decide _); [rewrite nested_delete; destruct (decide (u = u')) as [<-|];
    [by rewrite lookup_empty|]|]; apply Hm; case_match; eauto.
Qed.

Lemma fence_inv_register w t o u x now w' :
  fence_inv w → (∀ o x, made w o x → made w' o x) →
  enter w t (RegisterSessionOwner o u x now) = Some w' → fence_inv w'.
Proof.
  intros [Ho Hf] Hm He. cbn in He. destruct (bool_decide _ && _) eqn:Hg; [|done].
  apply andb_true_iff in Hg as [Hnew%bool_decide_eq_true _]. destruct (registerOwner _ _ _ _) as [b barriers] eqn:Hr.
  destruct (registerOwner_spec _ _ _ _ _ _ Hr) as [Hreg Hbar]. injection He as <-. split; cbn.
  - intros u' o' [[-> ->]|Hin%Ho]%Hreg; [by rewrite lookup_insert_eq|].
    by rewrite lookup_insert_ne by (intros <-; rewrite Hnew in Hin; by destruct Hin).
  - intros u' o' owner ticketID barrier Hin Hown [Hk Hsame]%Hbar Hcov.
    apply lookup_insert_Some in Hown as [[<- <-]|[Hne Hown]].
    + right. exists t. eexists. cbn. rewrite lookup_insert_eq. split; [done|].
      assert (u' = u) as ->.
      { apply Hreg in Hin as [[-> _]|Hin%Ho]; [done|]. rewrite Hnew in Hin. by destruct Hin. }
      apply list_elem_of_In, in_map_iff. exists barrier. split; [done|].
      apply filter_In. split; [by apply list_elem_of_In, Hsame|done].
    + apply Hm, (Hf u' o' owner ticketID); [|done..]. apply Hreg in Hin as [[_ ->]|Hin]; done.
Qed.

Lemma fence_inv_fence w t tk u x ticketID now w' :
  fence_inv w → (∀ o x, made w o x → made w' o x) →
  enter w t (FenceSessions tk u x ticketID now) = Some w' → fence_inv w'.
Proof.
  intros [Ho Hf] Hm He. cbn in He. destruct (bool_decide _ && _) eqn:Hg; [|done].
  injection He as <-. split; cbn; [done|].
  intros u' o owner k barrier Hin Hown. rewrite nested_insert.
  destruct (decide (u = u')) as [<-|Hne]; [|intros; by apply Hm, (Hf u' o owner k)].
  intros [[<- <-]|[_ Hk]]%lookup_insert_Some Hcov; [|by apply Hm, (Hf u o owner k)].
  right. exists t. eexists. cbn. rewrite lookup_insert_eq. split; [done|].
  apply list_elem_of_In, in_map_iff. exists o. split; [done|].
  apply list_elem_of_In, list_elem_of_fmap. exists (o, tt). split; [done|]. by apply elem_of_range.
Qed.

Lemma enter_fence_inv w t label w' :
  fence_inv w → (∀ o x, made w o x → made w' o x) → enter w t label = Some w' → fence_inv w'.
Proof.
  intros Hi Hm He.
  destruct label as [users event|s u|o u x now|tk u x ticketID now|tk| |o|s|s|];
    [| |by eapply fence_inv_register|by eapply fence_inv_fence|..|done];
    cbn in He; apply (fence_inv_shrink w); try done; repeat case_match; simplify_eq;
    try by apply fences_shrink_refl.
  - split_and!; cbn; [done|done|eauto].
  - split_and!; cbn; [by unfold registered; rewrite dropFence_owners|by apply dropFence_shrinks|eauto].
  - split_and!; cbn; [by apply dropOwner_shrinks|done|].
    intros o' owner Hown. destruct (decide (o = o')) as [<-|Hne].
    + rewrite lookup_insert_eq. simplify_eq. eauto.
    + rewrite lookup_insert_ne by done. eauto.
Qed.

Lemma continue_fence_inv w t pc w' :
  fence_inv w → (∀ o x, made w o x → made w' o x) → continue w t pc = Some w' → fence_inv w'.
Proof.
  intros Hi Hm Hc. apply (fence_inv_shrink w); [done| |done].
  destruct pc as [[|s rest] event|s|s|[|s rest]|[|call rest]]; cbn in Hc; repeat case_match; simplify_eq;
    try by apply fences_shrink_refl.
  - apply fences_shrink_refl; unfold send; cbn; by repeat case_match.
  - unfold fences_shrink, registered. cbn. destruct (dropSubscriber_frame (World_bus w) (sub_userID m) s) as [-> ->].
    split_and!; [done|done|eauto].
  - apply fences_shrink_refl; unfold closeCh; cbn; by repeat case_match.
  - unfold fences_shrink, registered, nested. cbn. split_and!; [done|done|eauto].
  - apply fences_shrink_refl; unfold closeCh; cbn; by repeat case_match.
Qed.

Lemma step_fence_inv w t label w' : fence_inv w → step w t label = Some w' → fence_inv w'.
Proof.
  intros Hi Hs. assert (∀ o x, made w o x → made w' o x) as Hm by (intros o x; by eapply made_step).
  revert Hs. unfold step. destruct (World_threads w !! t) as [pc|] eqn:Ht.
  - destruct label; try done. by apply continue_fence_inv.
  - by apply enter_fence_inv.
Qed.

Lemma NewWorld_fence_inv : fence_inv NewWorld.
Proof. split; unfold registered, nested; cbn; done. Qed.


(** ** Closing a subscription while the bus is closed *)

(** Thread [t1] is in [Close] of the subscription, inside the [Once], and waits for the
    lock; thread [t2] is in [Close] of the bus, holds the lock and waits for the [Once]. *)
Definition deadlocked (t1 t2 : nat) s rest w : Prop :=
  t1 ≠ t2 ∧ World_threads w !! t1 = Some (SubClosing s) ∧
  World_threads w !! t2 = Some (BusClosing (s :: rest)) ∧
  ∃ sub, World_subs w !! s = Some sub ∧ sub_once sub = OnceRunning.

Lemma deadlocked_locked t1 t2 s rest w :
  deadlocked t1 t2 s rest w → mayLock w = false ∧ mayRLock w = false.
Proof.
  intros (_ & _ & H2 & _). split; apply not_true_is_false; intros Hm.
  - by specialize (mayLock_spec w t2 _ Hm H2).
  - by specialize (mayRLock_spec w t2 _ Hm H2).
Qed.

Lemma deadlocked_frame t1 t2 s rest w w' :
  deadlocked t1 t2 s rest w →
  World_threads w' !! t1 = World_threads w !! t1 → World_threads w' !! t2 = World_threads w !! t2 →
  (∀ sub, World_subs w !! s = Some sub → sub_once sub = OnceRunning →
     ∃ sub', World_subs w' !! s = Some sub' ∧ sub_once sub' = OnceRunning) →
  deadlocked t1 t2 s rest w'.
Proof.
  intros (Hne & H1 & H2 & sub & H3 & H4) E1 E2 Hs. unfold deadlocked. rewrite E1, E2.
  split_and!; [done..|]. by apply (Hs sub).
Qed.

Lemma deadlocked_enter t1 t2 s rest w t label w' :
  deadlocked t1 t2 s rest w → World_threads w !! t = None → enter w t label = Some w' →
  deadlocked t1 t2 s rest w'.
Proof.
  intros Hd Ht He. destruct (deadlocked_locked _ _ _ _ _ Hd) as [Hm1 Hm2].
  assert (t ≠ t1 ∧ t ≠ t2) as [N1 N2].
  { destruct Hd as (_ & H1 & H2 & _). split; intros ->; congruence. }
  destruct label; cbn in He; rewrite ?Hm1, ?Hm2, ?andb_false_r in He; try done;
    repeat case_match; simplify_eq; try done.
  - apply (deadlocked_frame t1 t2 s rest w); [done|cbn; by rewrite lookup_insert_ne..|].
    intros sub Hs Ho. cbn. destruct (decide (s0 = s)) as [->|]; [congruence|].
    rewrite lookup_insert_ne by done. eauto.
  - apply (deadlocked_frame t1 t2 s rest w); [done|done|done|].
    intros sub Hs Ho. cbn. destruct (decide (s0 = s)) as [->|].
    + rewrite lookup_insert_eq. simplify_eq. eauto.
    + rewrite lookup_insert_ne by done. eauto.
Qed.

Lemma deadlocked_continue t1 t2 s rest w t pc w' :
  bus_inv w → deadlocked t1 t2 s rest w → World_threads w !! t = Some pc → continue w t pc = Some w' →
  deadlocked t1 t2 s rest w'.
Proof.
  intros Hi Hd Ht Hc. destruct (deadlocked_locked _ _ _ _ _ Hd) as [Hm1 Hm2].
  pose proof Hd as (Hne & H1 & H2 & sub & H3 & H4).
  assert (holdsLock pc = true → t = t2) as Hlock.
  { intros Hl. by apply (inv_writer w Hi t2 t _ pc H2 Ht). }
  destruct pc as [rest' event|s'|s'|rest'|rest'].
  - rewrite Hlock in Ht by done. congruence.
  - cbn in Hc. case_match; [|done]. by rewrite Hm1 in Hc.
  - assert (t ≠ t1 ∧ t ≠ t2) as [N1 N2] by (split; intros ->; congruence).
    assert (s' ≠ s) as Hs.
    { intros ->. by apply N1, (inv_single w Hi t1 t _ _ s H1 Ht). }
    cbn in Hc. injection Hc as <-. pose proof (closeCh_frame w s') as [Hth _].
    apply (deadlocked_frame t1 t2 s rest w); [done|cbn; by rewrite lookup_delete_ne, Hth..|].
    intros sub' Hsub Ho. cbn. unfold closeCh. repeat case_match; cbn; try rewrite lookup_insert_ne by done; eauto.
  - rewrite Hlock in Ht by done. rewrite H2 in Ht. injection Ht as <-. cbn in Hc.
    by rewrite H3, H4 in Hc.
  - assert (t ≠ t1 ∧ t ≠ t2) as [N1 N2] by (split; intros ->; congruence).
    apply (deadlocked_frame t1 t2 s rest w); destruct rest'; cbn in Hc; simplify_eq; cbn;
      rewrite ?lookup_insert_ne, ?lookup_delete_ne by done; eauto.
Qed.

Lemma deadlocked_forever t1 t2 s rest w trace w' :
  bus_inv w → deadlocked t1 t2 s rest w → run w trace = Some w' → deadlocked t1 t2 s rest w'.
Proof.
  intros Hi Hd Hr. apply (run_ind (λ w, bus_inv w ∧ deadlocked t1 t2 s rest w) trace w); [|done|done].
  clear. intros w t label w' [Hi Hd] Hs. split; [by eapply step_inv|]. revert Hs. unfold step.
  destruct (World_threads w !! t) as [pc|] eqn:Ht.
  - destruct label; try done. by apply deadlocked_continue.
  - by apply deadlocked_enter.
Qed.

(** The schedule: a subscription is made, a goroutine starts to close it, and before that
    goroutine has the lock another one closes the bus. *)
Definition closingTrace (userID : UUID) : list (nat * Label) :=
  [(0, Subscribe 0 userID); (1, CloseSubscription 0); (2, CloseBus)].

Lemma range_singleton {K} `{Countable K} {V} (k : K) (v : V) : range ({[k := v]} : gmap K V) = [(k, v)].
Proof. apply Permutation_singleton_r. by rewrite range_perm, map_to_list_singleton. Qed.

Lemma closingTrace_deadlocks userID :
  ∃ w, run NewWorld (closingTrace userID) = Some w ∧ deadlocked 1 2 0 [] w.
Proof.
  assert (allSubscriptions (addSubscriber NewMemoryBus userID 0) = [0]) as Hall.
  { unfold allSubscriptions, addSubscriber. cbn. unfold nested. cbn.
    rewrite lookup_empty. cbn. rewrite !insert_empty, range_singleton. cbn. by rewrite range_singleton. }
  pose (sub := mkmemorySubscription userID [] false).
  pose (b := addSubscriber NewMemoryBus userID 0).
  pose (w1 := mkWorld b {[0 := sub OnceFresh]} ∅ ∅ ∅ [] false).
  pose (w2 := mkWorld b {[0 := sub OnceRunning]} ∅ ∅ {[1 := SubClosing 0]} [] false).
  pose (w3 := goto w2 2 (BusClosing [0])).
  assert (step NewWorld 0 (Subscribe 0 userID) = Some w1) as S1 by reflexivity.
  assert (step w1 1 (CloseSubscription 0) = Some w2) as S2 by reflexivity.
  assert (step w2 2 CloseBus = Some w3) as S3.
  { unfold w3. rewrite <-Hall. reflexivity. }
  exists w3. split; [|by split_and!; [..|eexists]].
  unfold closingTrace. cbn [run]. rewrite S1. cbn [mbind option_bind]. rewrite S2.
  cbn [mbind option_bind]. rewrite S3. done.
Qed.

(** Closing a subscription while the bus is being closed can deadlock: there is
    a schedule of three calls after which the goroutine in [Close] of the subscription (inside
    its [Once], waiting for the lock) and the goroutine in [Close] of the bus (holding the
    lock, waiting for that [Once]) stay where they are in every continuation, whatever the
    other goroutines do, and from then on no event can be published and nobody can subscribe. *)
Theorem bus_close_deadlocks userID :
  ∃ w, run NewWorld (closingTrace userID) = Some w ∧
  ∀ trace w', run w trace = Some w' →
    World_threads w' !! 1 = Some (SubClosing 0) ∧ World_threads w' !! 2 = Some (BusClosing [0]) ∧
    ∀ t users event s u, step w' t (Publish users event) = None ∧ step w' t (Subscribe s u) = None.
Proof.
  destruct (closingTrace_deadlocks userID) as (w & Hw & Hd). exists w. split; [done|].
  intros trace w' Hr. assert (deadlocked 1 2 0 [] w') as Hd'.
  { eapply deadlocked_forever; [|done|done]. apply reachable_inv. by eexists. }
  destruct (deadlocked_locked _ _ _ _ _ Hd') as [Hm1 Hm2]. destruct Hd' as (_ & H1 & H2 & _).
  split_and!; [done|done|]. intros t users event s u. unfold step. case_match; [done|]. cbn.
  by rewrite Hm1, Hm2, andb_false_r.
Qed.
End bus.

Section witnesses.
#[local] Existing Instance Reference.runtime.

Definition user1 : UUID := uuid_of_N 1.
Definition event1 : RealtimeEvent := mkRealtimeEvent "1" "conversation.member_removed" None 0%Z
  (PMemberRemoved (mkConversationMemberRemoved (uuid_of_N 9) user1 user1)) 0%Z.

(** A subscriber that received an event, an owner and a fence whose callback is due. *)
Definition busTrace : list (nat * Label) :=
  [(0, Subscribe 0 user1); (1, Publish [user1] event1); (1, Continue); (1, Continue);
   (0, FenceSessions 0 user1 None (uuid_of_N 9) 100%Z);
   (0, Continue);
   (0, RegisterSessionOwner 0 user1 (uuid_of_N 2) (λ _, 200%Z))].

Definition busWorld : World := default NewWorld (run NewWorld busTrace).

Lemma busWorld_run : run NewWorld busTrace = Some busWorld.
Proof.
  assert (bool_decide (is_Some (run NewWorld busTrace)) = true) as Hs by (vm_compute; reflexivity).
  apply bool_decide_eq_true in Hs as [w Hw]. unfold busWorld. by rewrite Hw.
Qed.

Lemma busWorld_reachable : reachable busWorld.
Proof. exists busTrace. apply busWorld_run. Qed.

Lemma bus_never_panics_witness :
  World_panicked busWorld = false ∧
  fmap sub_ch (World_subs busWorld !! 0) = Some [event1].
Proof.
  split; [|vm_compute; reflexivity]. apply (bus_never_panics busWorld). apply busWorld_reachable.
Defined.

End witnesses.
