(* ===== verification/Anonymize.v ===== *)
(** * Removing an identity from JSON documents

    [src/internal/store/account.go]: what account deletion does to the documents other
    people keep.  Objects that belong to the account lose their personal members and are
    marked, identifiers are removed from text, and everything that carries the shared
    history (ids, amounts, structure) stays.

    Documents are decoded values; [member_map] is the Go map of an object.  Each member of
    an object is rewritten on its own, so the iteration order of the map does not matter.

    [AccountText] is what this code takes from the packages regexp, unicode, utf8,
    strconv and time. *)

From Stdlib Require Import ZArith Lia Ascii.
From S2P Require Import Prelude.
From S2P Require Import Runtime.
From S2P Require Import Domain.
From S2P Require Import Projection.

Class AccountText `{GoRuntime} := {
  (** [regexp.Compile("(?i)" + QuoteMeta(needle))], then [FindAllStringIndex(value, -1)]:
      successive matches that do not overlap; [None] when the pattern does not compile *)
  FindAllFold : string → string → option (list (nat * nat));
  (** [utf8.DecodeRuneInString], [utf8.DecodeLastRuneInString] *)
  DecodeRune : string → Z;
  DecodeLastRune : string → Z;
  IsLetter : Z → bool;
  IsNumber : Z → bool;
  (** the literal [json.Marshal] writes for the float64 of a literal *)
  float64_literal : Z → Z → Z * Z;
  (** [time.Time.MarshalJSON] *)
  time_text : Z → string;

  float64_literal_value m e :
    float64_of (float64_literal m e).1 (float64_literal m e).2 = float64_of m e;
}.

Record AccountIdentity := mkAccountIdentity {
  AccountIdentity_UserID : UUID; AccountIdentity_Email : string; AccountIdentity_Phone : string;
  AccountIdentity_DisplayName : string; AccountIdentity_Username : string }.

Definition DeletedUserDisplayName : string := "Deleted user".

(** ** Objects as maps *)

Definition member_map {V} (members : list (string * V)) : gmap string V :=
  list_to_map (reverse members).

Lemma member_map_to_list {V} (m : gmap string V) : member_map (map_to_list m) = m.
Proof.
  unfold member_map. rewrite <-(list_to_map_to_list m) at 2. apply list_to_map_proper.
  - rewrite fmap_reverse, reverse_Permutation. apply NoDup_fst_map_to_list.
  - apply reverse_Permutation.
Qed.

Lemma member_map_sorted (m : gmap string JSON) : member_map (merge_sort key_le (map_to_list m)) = m.
Proof.
  rewrite <-(member_map_to_list m) at 2. unfold member_map. apply list_to_map_proper.
  - rewrite fmap_reverse, reverse_Permutation, merge_sort_Permutation. apply NoDup_fst_map_to_list.
  - by rewrite !reverse_Permutation, merge_sort_Permutation.
Qed.

Lemma member_map_map {V W} (f : string → V → W) (members : list (string * V)) :
  member_map (List.map (λ kv : string * V, let (k, v) := kv in (k, f k v)) members) =
  map_imap (λ k v, Some (f k v)) (member_map members).
Proof.
  unfold member_map.
  change (List.map ?g members) with (g <$> members). rewrite <-fmap_reverse.
  generalize (reverse members). intros l. apply map_eq. intros k. rewrite map_lookup_imap.
  induction l as [|[k' v'] l IH]; cbn; [by rewrite !lookup_empty|].
  destruct (decide (k' = k)) as [->|Hne]; [by rewrite !lookup_insert_eq|].
  by rewrite !lookup_insert_ne.
Qed.

(** ** Keys *)

Definition isIdentityContainerJSONKey (key : string) : bool :=
  bool_decide (key ∈ ["payload"; "metadata"; "result"; "choreresult"; "feedresult"]).

Definition isIdentityProseJSONKey (key : string) : bool := bool_decide (key = "description").

Definition isNameJSONKey (key : string) : bool :=
  bool_decide (key ∈ ["name"; "displayname"; "membername"; "memberdisplayname"; "payername";
    "payerdisplayname"; "creatorname"; "creatordisplayname"; "createdbyname";
    "createdbydisplayname"; "actorname"; "actordisplayname"; "ownername"; "ownerdisplayname"]).

Definition isAccountIdentityNameKey (key : string) (owned : bool) : bool :=
  if bool_decide (key = "name") then owned else isNameJSONKey key.

Definition isIdentifierJSONKey (key : string) : bool :=
  bool_decide (key ∈ ["email"; "contactemail"; "phone"; "phonenumber"; "contactphone";
    "username"; "handle"]).

Definition isPersonalJSONKey (key : string) : bool :=
  isIdentifierJSONKey key
  || bool_decide (key ∈ ["avatar"; "avatarurl"; "bio"; "photo"; "photourl"; "profileimage";
       "profileimagedata"; "profileimageurl"]).

Definition isOwnerJSONKey (key : string) : bool :=
  bool_decide (key ∈ ["backenduserid"; "userid"; "useruuid"; "owneruserid"; "createdbyuserid";
    "createdby"; "creatorid"; "actorid"]).

Section anonymize.
Context `{AccountText}.
Implicit Types (identity : AccountIdentity) (text needle key : string).

Definition identifiers identity : list string :=
  [AccountIdentity_Email identity; AccountIdentity_Phone identity; AccountIdentity_Username identity].

(** ** Text *)

Definition wordRune (r : Z) : bool := (r =? 95)%Z || IsLetter r || IsNumber r.

Definition identityTextBoundaryBefore (value : string) (index : nat) : bool :=
  bool_decide (index = 0) || negb (wordRune (DecodeLastRune (String.substring 0 index value))).

Definition identityTextBoundaryAfter (value : string) (index : nat) : bool :=
  bool_decide (index = String.length value)
  || negb (wordRune (DecodeRune (String.substring index (String.length value - index) value))).

Definition bounded (value : string) (m : nat * nat) : bool :=
  identityTextBoundaryBefore value m.1 && identityTextBoundaryAfter value m.2.

Definition containsBoundedIdentity (value : string) (identifier : string) : bool :=
  let identifier := TrimSpace identifier in
  if bool_decide (identifier = "") then false
  else match FindAllFold identifier value with
       | None => false
       | Some matches => existsb (bounded value) matches
       end.

(** The loop over the matches: the text written so far, the cursor, and whether anything
    was replaced. *)
Fixpoint replaceMatches (value : string) (matches : list (nat * nat)) (redacted : string) (cursor : nat)
    (changed : bool) : string * nat * bool :=
  match matches with
  | [] => (redacted, cursor, changed)
  | m :: matches =>
    if negb (identityTextBoundaryBefore value m.1) || negb (identityTextBoundaryAfter value m.2)
    then replaceMatches value matches redacted cursor changed
    else replaceMatches value matches
           (redacted +:+ String.substring cursor (m.1 - cursor) value +:+ DeletedUserDisplayName)
           m.2 true
  end.

(** One needle of the loop of [redactAccountIdentityText]. *)
Definition redactNeedle (value : string) needle : string * bool :=
  let needle := TrimSpace needle in
  if bool_decide (needle = "") || EqualFold needle DeletedUserDisplayName then (value, false)
  else match FindAllFold needle value with
       | None => (value, false)
       | Some matches =>
         let '(redacted, cursor, needleChanged) := replaceMatches value matches "" 0 false in
         if needleChanged : bool
         then (redacted +:+ String.substring cursor (String.length value - cursor) value, true)
         else (value, false)
       end.

(** [sort.SliceStable] by decreasing length. *)
Fixpoint insertByLength needle (sorted : list string) : list string :=
  match sorted with
  | [] => [needle]
  | x :: rest =>
    if (String.length x <? String.length needle)%nat then needle :: sorted
    else x :: insertByLength needle rest
  end.
Definition sortByLength (needles : list string) : list string :=
  foldl (λ sorted needle, insertByLength needle sorted) [] needles.

Definition redactAccountIdentityText (value : string) identity (includeDisplayName : bool) : string * bool :=
  let needles := identifiers identity
                 ++ (if includeDisplayName then [AccountIdentity_DisplayName identity] else []) in
  foldl (λ '(value, changed) needle,
           let '(value', c) := redactNeedle value needle in (value', changed || c))
    (value, false) (sortByLength needles).

(** ** Values *)

Definition matchesIdentity (value : string) identity : bool :=
  existsb (λ identifier, negb (bool_decide (identifier = ""))
                         && EqualFold (TrimSpace value) (TrimSpace identifier))
    (identifiers identity).

Definition objectContainsIdentity (object : gmap string JSON) identity : bool :=
  existsb (λ '(key, item),
    match item with
    | JStr text => isIdentifierJSONKey (normalizeJSONKey key) && matchesIdentity text identity
    | _ => false
    end) (range object).

Definition objectBelongsToAccount (object : gmap string JSON) (userID : UUID) : bool :=
  existsb (λ '(key, item),
    isOwnerJSONKey (normalizeJSONKey key)
    && match item with JStr text => EqualFold text (uuid_String userID) | _ => false end)
    (range object).

Definition owned_ identity (object : gmap string JSON) : bool :=
  objectBelongsToAccount object (AccountIdentity_UserID identity) || objectContainsIdentity object identity.

Fixpoint jsonValueReferencesIdentity identity (value : JSON) : bool :=
  match value with
  | JArr items => existsb (jsonValueReferencesIdentity identity) items
  | JObj members =>
    owned_ identity (member_map members)
    || existsb (λ '(_, b), b)
         (range (member_map (List.map (λ kv : string * JSON,
            let (k, v) := kv in (k, jsonValueReferencesIdentity identity v)) members)))
  | JStr text =>
    negb (bool_decide (AccountIdentity_UserID identity = uuid_Nil))
      && containsBoundedIdentity text (uuid_String (AccountIdentity_UserID identity))
    || existsb (containsBoundedIdentity text) (identifiers identity)
  | _ => false
  end.

(** The body of the loop over an object for one member: its new value, [None] when it is
    deleted, and whether it changed.  [sub] is the result of the recursive call. *)
Definition anonymizeMember identity (owned authorized : bool) key (item : JSON)
    (sub : JSON * bool) : option JSON * bool :=
  let normalized := normalizeJSONKey key in
  if owned && isPersonalJSONKey normalized then (None, true)
  else match item with
  | JStr text =>
    if (owned || authorized) && isAccountIdentityNameKey normalized owned
       && negb (bool_decide (AccountIdentity_DisplayName identity = ""))
       && EqualFold (TrimSpace text) (TrimSpace (AccountIdentity_DisplayName identity))
    then (Some (JStr DeletedUserDisplayName), true)
    else if isIdentifierJSONKey normalized && matchesIdentity text identity then (None, true)
    else
      let '(redacted, strongChanged) := redactAccountIdentityText text identity false in
      let '(redacted, strongChanged) :=
        if (owned || authorized) && isIdentityProseJSONKey normalized
        then let '(redacted, nameChanged) := redactAccountIdentityText redacted identity true in
             (redacted, strongChanged || nameChanged)
        else (redacted, strongChanged) in
      if strongChanged : bool then (Some (JStr redacted), true) else (Some item, false)
  | _ => (Some sub.1, sub.2)
  end.

(** [typed["isDeleted"] = true] unless it is already. *)
Definition markDeleted (object : gmap string JSON) : gmap string JSON * bool :=
  match object !! "isDeleted" with
  | Some (JBool true) => (object, false)
  | _ => (<["isDeleted" := JBool true]> object, true)
  end.

Definition childAuthorized (owned authorized : bool) key : bool :=
  (owned || authorized) && isIdentityContainerJSONKey (normalizeJSONKey key).

Fixpoint anonymizeJSONValue identity (authorized : bool) (value : JSON) : JSON * bool :=
  match value with
  | JArr items =>
    let results := List.map (λ item,
      match item with
      | JStr text =>
        let '(redacted, textChanged) := redactAccountIdentityText text identity false in
        if textChanged : bool then (JStr redacted, true) else (item, false)
      | _ => anonymizeJSONValue identity false item
      end) items in
    (JArr (results.*1), existsb snd results)
  | JObj members =>
    let object := member_map members in
    let owned := owned_ identity object in
    let results := map_imap (λ key r, Some (anonymizeMember identity owned authorized key r.1 r.2))
      (member_map (List.map (λ kv : string * JSON, let (key, item) := kv in
         (key, (item, anonymizeJSONValue identity (childAuthorized owned authorized key) item)))
         members)) in
    let changed := existsb (λ kr, kr.2.2) (range results) in
    let object := omap fst results in
    let '(object, marked) := if owned : bool then markDeleted object else (object, false) in
    (JObj (map_to_list object), changed || marked)
  | _ => (value, false)
  end.

(** [json.Marshal] of a decoded value: sorted keys, numbers in their float64 form. *)
Fixpoint marshal_any (value : JSON) : JSON :=
  match value with
  | JNum m e => let '(m, e) := float64_literal m e in JNum m e
  | JArr items => JArr (List.map marshal_any items)
  | JObj members =>
    JObj (merge_sort key_le (map_to_list (member_map
      (List.map (λ kv : string * JSON, let (k, v) := kv in (k, marshal_any v)) members))))
  | _ => value
  end.

Definition anonymizeAccountJSON (raw : RawMessage) identity (authorized : bool) : res (RawMessage * bool) :=
  if raw_absent raw then Ok (raw, false)
  else match raw with
  | Raw (JStr text) =>
    let '(redacted, changed) := redactAccountIdentityText text identity false in
    if changed : bool then Ok (Raw (JStr redacted), true) else Ok (raw, false)
  | Raw value =>
    let '(value, changed) := anonymizeJSONValue identity authorized value in
    if changed : bool then Ok (Raw (marshal_any value), true) else Ok (raw, false)
  | _ => Err (ErrOther "invalid JSON")
  end.

Definition AnonymizeAccountJSON raw identity := anonymizeAccountJSON raw identity false.
Definition AnonymizeAccountJSONWithAuthority raw identity := anonymizeAccountJSON raw identity true.

Definition AccountJSONReferencesIdentity (raw : RawMessage) identity : res bool :=
  if raw_absent raw then Ok false
  else match raw with
  | Raw value => Ok (jsonValueReferencesIdentity identity value)
  | _ => Err (ErrOther "invalid JSON")
  end.

(** ** Where things are in a document *)

Inductive PathStep := AtKey (key : string) | AtIndex (n : nat).

Fixpoint json_at (path : list PathStep) (value : JSON) : option JSON :=
  match path, value with
  | [], _ => Some value
  | AtKey key :: path, JObj members => member_map members !! key ≫= json_at path
  | AtIndex n :: path, JArr items => items !! n ≫= json_at path
  | _, _ => None
  end.

(** A path that goes through no personal member and not into the deletion mark. *)
Definition plain_path : list PathStep → Prop :=
  Forall (λ st, match st with
                | AtKey key => isPersonalJSONKey (normalizeJSONKey key) = false ∧ key ≠ "isDeleted"
                | AtIndex _ => True
                end).

Definition is_text (value : JSON) : bool := match value with JStr _ => true | _ => false end.

Lemma existsb_range_false {V} (f : string * V → bool) (m : gmap string V) key v :
  existsb f (range m) = false → m !! key = Some v → f (key, v) = false.
Proof.
  intros He Hk. apply not_true_is_false. intros Hf. apply not_true_iff_false in He. apply He.
  apply existsb_exists. exists (key, v). split; [by apply list_elem_of_In, elem_of_range|done].
Qed.

Lemma existsb_range_true {V} (f : string * V → bool) (m : gmap string V) :
  existsb f (range m) = true → ∃ key v, m !! key = Some v ∧ f (key, v) = true.
Proof.
  intros ([key v] & Hin & Hf)%existsb_exists. exists key, v. split; [|done].
  by apply elem_of_range, list_elem_of_In.
Qed.

(** The results for the members of an object. *)
Definition memberResults identity (owned authorized : bool) (members : list (string * JSON)) :
    gmap string (option JSON * bool) :=
  map_imap (λ key item,
    Some (anonymizeMember identity owned authorized key item
            (anonymizeJSONValue identity (childAuthorized owned authorized key) item)))
    (member_map members).

Lemma anonymize_object identity authorized members :
  let owned := owned_ identity (member_map members) in
  let results := memberResults identity owned authorized members in
  anonymizeJSONValue identity authorized (JObj members) =
  let '(object, marked) := if owned then markDeleted (omap fst results) else (omap fst results, false) in
  (JObj (map_to_list object), existsb (λ kr, kr.2.2) (range results) || marked).
Proof.
  intros owned results. cbn [anonymizeJSONValue]. fold owned.
  set (r := map_imap _ _). assert (r = results) as ->; [|done].
  unfold r, results, memberResults. apply map_eq. intros key. rewrite !map_lookup_imap.
  rewrite (member_map_map (λ key item,
    (item, anonymizeJSONValue identity (childAuthorized owned authorized key) item))).
  rewrite map_lookup_imap. by destruct (member_map members !! key).
Qed.

Lemma markDeleted_other object key : key ≠ "isDeleted" → (markDeleted object).1 !! key = object !! key.
Proof. intros Hne. unfold markDeleted. repeat case_match; cbn; by rewrite ?lookup_insert_ne. Qed.

Lemma markDeleted_marked object : (markDeleted object).1 !! "isDeleted" = Some (JBool true).
Proof. unfold markDeleted. repeat case_match; cbn; by rewrite ?lookup_insert_eq. Qed.

Lemma lookup_results identity owned authorized members key item :
  member_map members !! key = Some item →
  memberResults identity owned authorized members !! key =
  Some (anonymizeMember identity owned authorized key item
          (anonymizeJSONValue identity (childAuthorized owned authorized key) item)).
Proof. intros Hk. unfold memberResults. by rewrite map_lookup_imap, Hk. Qed.

(** One level down, on what is not text. *)
Lemma anonymize_key identity authorized members key item :
  member_map members !! key = Some item → is_text item = false →
  isPersonalJSONKey (normalizeJSONKey key) = false → key ≠ "isDeleted" →
  ∃ authorized' members',
    (anonymizeJSONValue identity authorized (JObj members)).1 = JObj members' ∧
    member_map members' !! key = Some (anonymizeJSONValue identity authorized' item).1 ∧
    ((anonymizeJSONValue identity authorized (JObj members)).2 = false →
     (anonymizeJSONValue identity authorized' item).2 = false).
Proof.
  intros Hk Ht Hp Hne. rewrite anonymize_object. set (owned := owned_ _ _).
  set (results := memberResults identity owned authorized members).
  exists (childAuthorized owned authorized key).
  set (sub := anonymizeJSONValue identity (childAuthorized owned authorized key) item).
  assert (results !! key = Some (Some sub.1, sub.2)) as Hr.
  { unfold results. rewrite (lookup_results _ _ _ _ _ item) by done. unfold anonymizeMember.
    rewrite Hp, andb_false_r. by destruct item. }
  assert (omap fst results !! key = Some sub.1) as Ho by by rewrite lookup_omap, Hr.
  assert (existsb (λ kr : string * (option JSON * bool), kr.2.2) (range results) = false → sub.2 = false) as Hc.
  { intros He. by apply (existsb_range_false _ _ _ _ He Hr). }
  destruct owned.
  - pose proof (markDeleted_other (omap fst results) key Hne) as Hm.
    destruct (markDeleted (omap fst results)) as [object marked]. cbn in *. eexists. split_and!; [done| |].
    + by rewrite member_map_to_list, Hm.
    + intros [He _]%orb_false_iff. auto.
  - cbn. eexists. split_and!; [done|by rewrite member_map_to_list|]. intros [He _]%orb_false_iff. auto.
Qed.

Lemma anonymize_index identity authorized items n item :
  items !! n = Some item → is_text item = false →
  ∃ items',
    (anonymizeJSONValue identity authorized (JArr items)).1 = JArr items' ∧
    items' !! n = Some (anonymizeJSONValue identity false item).1 ∧
    ((anonymizeJSONValue identity authorized (JArr items)).2 = false →
     (anonymizeJSONValue identity false item).2 = false).
Proof.
  intros Hn Ht. cbn [anonymizeJSONValue fst snd]. set (f := λ item : JSON, _).
  assert (f item = anonymizeJSONValue identity false item) as Hf by by destruct item.
  exists ((List.map f items).*1). split_and!; [done| |].
  - rewrite list_lookup_fmap. change (List.map f items) with (f <$> items).
    by rewrite list_lookup_fmap, Hn, <-Hf.
  - intros He. apply not_true_is_false. intros Hs. apply not_true_iff_false in He. apply He.
    apply existsb_exists. exists (f item). rewrite Hf. split; [|done]. rewrite <-Hf.
    apply in_map, list_elem_of_In. by eapply list_elem_of_lookup_2.
Qed.

Lemma anonymize_at identity path authorized (value w : JSON) :
  plain_path path → json_at path value = Some w → is_text w = false →
  ∃ authorized',
    json_at path (anonymizeJSONValue identity authorized value).1 =
      Some (anonymizeJSONValue identity authorized' w).1 ∧
    ((anonymizeJSONValue identity authorized value).2 = false →
     (anonymizeJSONValue identity authorized' w).2 = false).
Proof.
  intros Hp. revert authorized value. induction Hp as [|st path Hst Hp IH]; intros authorized value Hat Ht.
  { cbn in *. simplify_eq. by exists authorized. }
  assert (∀ v, json_at path v = Some w → is_text v = false) as Hnt.
  { intros v Hv. destruct v; try done. destruct path as [|[] ?]; cbn in Hv; by simplify_eq. }
  destruct st as [key|n]; destruct value as [| | | |items|members]; try done; cbn [json_at] in Hat.
  - destruct (member_map members !! key) as [item|] eqn:Hk; [|done]. cbn in Hat.
    destruct (anonymize_key identity authorized members key item Hk (Hnt _ Hat) (proj1 Hst) (proj2 Hst))
      as (authorized' & members' & H1 & H2 & H3).
    destruct (IH authorized' item Hat Ht) as (authorized'' & H4 & H5). exists authorized''.
    rewrite H1. cbn [json_at]. rewrite H2. cbn. auto.
  - destruct (items !! n) as [item|] eqn:Hn; [|done]. cbn in Hat.
    destruct (anonymize_index identity authorized items n item Hn (Hnt _ Hat)) as (items' & H1 & H2 & H3).
    destruct (IH false item Hat Ht) as (authorized'' & H4 & H5). exists authorized''.
    rewrite H1. cbn [json_at]. rewrite H2. cbn. auto.
Qed.

Lemma marshal_members members :
  ∃ members', marshal_any (JObj members) = JObj members' ∧
    member_map members' = marshal_any <$> member_map members.
Proof.
  eexists. split; [reflexivity|]. rewrite member_map_sorted, (member_map_map (λ _, marshal_any)).
  apply map_eq. intros k. rewrite map_lookup_imap, lookup_fmap. by destruct (member_map members !! k).
Qed.

Lemma marshal_at path (value w : JSON) :
  json_at path value = Some w → json_at path (marshal_any value) = Some (marshal_any w).
Proof.
  revert value. induction path as [|st path IH]; intros value Hat; [cbn in *; by simplify_eq|].
  destruct st as [key|n]; destruct value as [| | | |items|members]; try done; cbn [json_at] in Hat.
  - destruct (marshal_members members) as (members' & -> & Hm). cbn [json_at]. rewrite Hm, lookup_fmap.
    destruct (member_map members !! key); [|done]. cbn in *. auto.
  - cbn [marshal_any json_at]. change (List.map marshal_any items) with (marshal_any <$> items).
    rewrite list_lookup_fmap. destruct (items !! n); [|done]. cbn in *. auto.
Qed.

(** The two outcomes of the sanitizer on a document. *)
Lemma anonymize_document (value : JSON) identity authorized raw' changed :
  is_text value = false → anonymizeAccountJSON (Raw value) identity authorized = Ok (raw', changed) →
  let result := anonymizeJSONValue identity authorized value in
  changed = false ∧ raw' = Raw value ∧ result.2 = false ∨
  changed = true ∧ raw' = Raw (marshal_any result.1) ∧ result.2 = true.
Proof.
  intros Ht. unfold anonymizeAccountJSON.
  destruct value; try done; cbn; repeat case_match; simplify_eq/=; naive_solver.
Qed.

(** Account deletion keeps the shared history: whatever is sanitized, with or
    without authority, every number, boolean and null of the document that is not inside a
    personal member (contact data, avatar, biography) is found at the same place of the
    sanitized document with the same value. *)
Theorem anonymized_ledger_survives (value : JSON) identity authorized raw' changed path (leaf : JSON) :
  anonymizeAccountJSON (Raw value) identity authorized = Ok (raw', changed) →
  plain_path path → json_at path value = Some leaf →
  match leaf with JNull | JBool _ | JNum _ _ => True | _ => False end →
  ∃ value' leaf', raw' = Raw value' ∧ json_at path value' = Some leaf' ∧ canonical leaf' = canonical leaf.
Proof.
  intros Ha Hp Hat Hl. assert (is_text leaf = false) as Ht by by destruct leaf.
  assert (is_text value = false) as Htv.
  { destruct value; try done. destruct path as [|[] ?]; cbn in Hat; by simplify_eq. }
  destruct (anonymize_document _ _ _ _ _ Htv Ha) as [(-> & -> & _)|(-> & -> & _)]; [by eauto|].
  destruct (anonymize_at identity path authorized value leaf Hp Hat Ht) as (authorized' & H1 & _).
  apply marshal_at in H1. eexists _, _. split_and!; [done|exact H1|].
  destruct leaf as [| |m e| | |]; try done. cbn. pose proof (float64_literal_value m e) as Hv.
  destruct (float64_literal m e). cbn in *. by rewrite Hv.
Qed.

Lemma markDeleted_idle object :
  (markDeleted object).2 = false → object !! "isDeleted" = Some (JBool true).
Proof. unfold markDeleted. by repeat case_match. Qed.

(** A boolean in the result was in the object. *)
Lemma results_isDeleted identity owned authorized members key b :
  omap fst (memberResults identity owned authorized members) !! key = Some (JBool b) →
  member_map members !! key = Some (JBool b).
Proof.
  unfold memberResults. rewrite lookup_omap, map_lookup_imap.
  destruct (member_map members !! key) as [item|]; [|done]. cbn. unfold anonymizeMember.
  destruct (owned && _); [done|]. destruct item as [| | | |items|members']; cbn [fst]; intros Hi; try done.
  - repeat case_match; simplify_eq/=.
  - rewrite anonymize_object in Hi. by repeat case_match.
Qed.

(** An object of the account, one level: nothing personal is left and it is marked. *)
Lemma anonymize_owned identity authorized members :
  owned_ identity (member_map members) = true →
  ∃ members', (anonymizeJSONValue identity authorized (JObj members)).1 = JObj members' ∧
    member_map members' !! "isDeleted" = Some (JBool true) ∧
    (∀ key, isPersonalJSONKey (normalizeJSONKey key) = true → key ≠ "isDeleted" →
       member_map members' !! key = None) ∧
    ((anonymizeJSONValue identity authorized (JObj members)).2 = false →
     member_map members !! "isDeleted" = Some (JBool true) ∧
     ∀ key item, member_map members !! key = Some item →
       isPersonalJSONKey (normalizeJSONKey key) = false).
Proof.
  intros Ho. rewrite anonymize_object, Ho. set (results := memberResults _ _ _ _).
  pose proof (markDeleted_marked (omap fst results)) as Hm.
  pose proof (markDeleted_other (omap fst results)) as Hother.
  pose proof (markDeleted_idle (omap fst results)) as Hidle.
  destruct (markDeleted (omap fst results)) as [object marked]. cbn in *. eexists. split_and!; [done| | |].
  - by rewrite member_map_to_list.
  - intros key Hp Hne. rewrite member_map_to_list, Hother, lookup_omap by done.
    destruct (member_map members !! key) as [item|] eqn:Hk.
    + unfold results. rewrite (lookup_results _ _ _ _ _ item) by done. unfold anonymizeMember. by rewrite Hp.
    + unfold results, memberResults. by rewrite map_lookup_imap, Hk.
  - intros [He Hmark]%orb_false_iff. split; [by apply (results_isDeleted identity true authorized), Hidle|].
    intros key item Hk. apply not_true_is_false. intros Hp.
    assert (results !! key = Some (None, true)) as Hr.
    { unfold results. rewrite (lookup_results _ _ _ _ _ item) by done. unfold anonymizeMember. by rewrite Hp. }
    by pose proof (existsb_range_false _ _ _ _ He Hr).
Qed.

(** Account deletion removes what is personal: in the sanitized document every
    object that belonged to the account (it names the user as its owner, or carries one of
    the user's identifiers), at any depth outside personal members, has no contact data,
    avatar or biography left and carries "isDeleted": true. *)
Theorem anonymized_objects_scrubbed (value : JSON) identity authorized raw' changed path members :
  anonymizeAccountJSON (Raw value) identity authorized = Ok (raw', changed) →
  plain_path path → json_at path value = Some (JObj members) →
  owned_ identity (member_map members) = true →
  ∃ value' members', raw' = Raw value' ∧ json_at path value' = Some (JObj members') ∧
    member_map members' !! "isDeleted" = Some (JBool true) ∧
    ∀ key, isPersonalJSONKey (normalizeJSONKey key) = true → key ≠ "isDeleted" →
      member_map members' !! key = None.
Proof.
  intros Ha Hp Hat Ho.
  assert (is_text value = false) as Htv.
  { destruct value; try done. destruct path as [|[] ?]; cbn in Hat; by simplify_eq. }
  destruct (anonymize_at identity path authorized value _ Hp Hat eq_refl) as (authorized' & H1 & H2).
  destruct (anonymize_owned identity authorized' members Ho) as (members' & H3 & H4 & H5 & H6).
  destruct (anonymize_document _ _ _ _ _ Htv Ha) as [(-> & -> & Hc)|(-> & -> & _)].
  - exists value, members. destruct (H6 (H2 Hc)) as [Hm Hnone]. split_and!; [done|done|done|].
    intros key Hk _. destruct (member_map members !! key) as [item|] eqn:Hi; [|done].
    by rewrite (Hnone _ _ Hi) in Hk.
  - rewrite H3 in H1. apply marshal_at in H1.
    destruct (marshal_members members') as (members'' & Hm & Hmm). rewrite Hm in H1.
    eexists _, members''. split_and!; [done|exact H1|by rewrite Hmm, lookup_fmap, H4|].
    intros key Hk Hne. by rewrite Hmm, lookup_fmap, H5.
Qed.

(** ** Other people's documents are left alone *)

Lemma replaceMatches_changed value matches redacted cursor changed redacted' cursor' :
  replaceMatches value matches redacted cursor changed = (redacted', cursor', true) →
  changed = true ∨ existsb (bounded value) matches = true.
Proof.
  revert redacted cursor changed. induction matches as [|m matches IH]; intros redacted cursor changed; cbn.
  { intros [= _ _ ->]. by left. }
  unfold bounded at 1. destruct (identityTextBoundaryBefore value m.1), (identityTextBoundaryAfter value m.2);
    cbn; intros Hr; [by right|by apply IH in Hr..].
Qed.

Lemma redactNeedle_changed value needle :
  (redactNeedle value needle).2 = true → containsBoundedIdentity value needle = true.
Proof.
  unfold redactNeedle, containsBoundedIdentity. case_bool_decide; cbn; [done|].
  destruct (EqualFold _ _); [done|]. destruct (FindAllFold _ _) as [matches|]; [|done].
  destruct (replaceMatches _ _ _ _ _) as [[redacted cursor] []] eqn:Hr; [|done]. intros _.
  by apply replaceMatches_changed in Hr as [|].
Qed.

Lemma redactNeedle_same value needle :
  (redactNeedle value needle).2 = false → (redactNeedle value needle).1 = value.
Proof. unfold redactNeedle. by repeat case_match. Qed.

Lemma elem_of_sortByLength needle needles : needle ∈ sortByLength needles ↔ needle ∈ needles.
Proof.
  assert (∀ x sorted, needle ∈ insertByLength x sorted ↔ needle = x ∨ needle ∈ sorted) as Hins.
  { intros x sorted. induction sorted as [|y sorted IH]; cbn; [set_solver|].
    case_match; [set_solver|]. rewrite elem_of_cons, IH. set_solver. }
  unfold sortByLength. assert (∀ sorted, needle ∈ foldl (λ sorted needle, insertByLength needle sorted) sorted needles
    ↔ needle ∈ sorted ∨ needle ∈ needles) as Hf; [|rewrite Hf; set_solver].
  induction needles as [|x needles IH]; intros sorted; cbn; [set_solver|]. rewrite IH, Hins. set_solver.
Qed.

Lemma redact_changed value identity includeDisplayName :
  (redactAccountIdentityText value identity includeDisplayName).2 = true →
  ∃ needle, needle ∈ identifiers identity ++
      (if includeDisplayName then [AccountIdentity_DisplayName identity] else []) ∧
    containsBoundedIdentity value needle = true.
Proof.
  unfold redactAccountIdentityText. set (needles := _ ++ _). intros Hr.
  assert (∃ needle, needle ∈ sortByLength needles ∧ containsBoundedIdentity value needle = true)
    as (needle & Hin & Hc); [|exists needle; by rewrite <-elem_of_sortByLength].
  revert Hr. induction (sortByLength needles) as [|needle l IH]; cbn; [done|].
  destruct (redactNeedle value needle) as [value' c] eqn:Hn. cbn.
  pose proof (redactNeedle_changed value needle) as Hc. pose proof (redactNeedle_same value needle) as Hs.
  rewrite Hn in Hc, Hs. cbn in *. destruct c.
  - intros _. exists needle. split; [left|auto].
  - rewrite Hs by done. intros (n & Hin & Hn')%IH. exists n. split; [by right|done].
Qed.

Lemma redact_references text identity :
  (redactAccountIdentityText text identity false).2 = true →
  jsonValueReferencesIdentity identity (JStr text) = true.
Proof.
  intros (needle & Hin & Hc)%redact_changed. cbn [jsonValueReferencesIdentity]. rewrite app_nil_r in Hin.
  apply orb_true_iff. right. apply existsb_exists. exists needle. by rewrite <-list_elem_of_In.
Qed.

Lemma references_member identity members key item :
  member_map members !! key = Some item → jsonValueReferencesIdentity identity item = true →
  jsonValueReferencesIdentity identity (JObj members) = true.
Proof.
  intros Hk Hr. cbn [jsonValueReferencesIdentity]. apply orb_true_iff. right.
  apply existsb_exists. exists (key, true). split; [|done]. apply list_elem_of_In, elem_of_range.
  rewrite (member_map_map (λ _, jsonValueReferencesIdentity identity)), map_lookup_imap, Hk. cbn. by rewrite Hr.
Qed.

(** Structural induction through arrays and objects. *)
Lemma JSON_induction (P : JSON → Prop) :
  P JNull → (∀ b, P (JBool b)) → (∀ m e, P (JNum m e)) → (∀ s, P (JStr s)) →
  (∀ items, (∀ item, item ∈ items → P item) → P (JArr items)) →
  (∀ members, (∀ key item, (key, item) ∈ members → P item) → P (JObj members)) →
  ∀ value, P value.
Proof.
  intros Hnull Hbool Hnum Hstr Harr Hobj. fix IH 1. intros [|b|m e|s|items|members].
  - exact Hnull.
  - apply Hbool.
  - apply Hnum.
  - apply Hstr.
  - apply Harr. induction items as [|item items IHl]; intros x Hx; [exfalso; exact (not_elem_of_nil _ Hx)|].
    apply elem_of_cons in Hx as [->|Hx]; [apply IH|by apply IHl].
  - apply Hobj. induction members as [|[key item] members IHl]; intros k x Hx; [exfalso; exact (not_elem_of_nil _ Hx)|].
    apply elem_of_cons in Hx as [Heq|Hx]; [|by apply (IHl k)].
    injection Heq as -> ->. apply IH.
Qed.

Lemma elem_of_member_map (members : list (string * JSON)) key item :
  member_map members !! key = Some item → (key, item) ∈ members.
Proof. intros Hk%elem_of_list_to_map_2. by rewrite elem_of_reverse in Hk. Qed.

(** A member that changes in an object that is not the account's refers to the account. *)
Lemma anonymizeMember_references identity members key item sub :
  owned_ identity (member_map members) = false → member_map members !! key = Some item →
  (is_text item = false → sub.2 = true → jsonValueReferencesIdentity identity item = true) →
  (anonymizeMember identity false false key item sub).2 = true →
  jsonValueReferencesIdentity identity item = true.
Proof.
  intros Ho Hk Hsub. unfold anonymizeMember. cbn [andb orb].
  destruct item as [| | |text| |]; try (by apply Hsub).
  destruct (isIdentifierJSONKey _ && _) eqn:Hid.
  - intros _. unfold owned_ in Ho. apply orb_false_iff in Ho as [_ Ho]. unfold objectContainsIdentity in Ho.
    pose proof (existsb_range_false _ _ _ _ Ho Hk) as Hf. cbn beta iota in Hf. congruence.
  - destruct (redactAccountIdentityText text identity false) as [redacted c] eqn:Hr. destruct c; [|done].
    intros _. apply redact_references. by rewrite Hr.
Qed.

Lemma anonymize_changed_references identity (value : JSON) :
  (anonymizeJSONValue identity false value).2 = true → jsonValueReferencesIdentity identity value = true.
Proof.
  induction value as [| | | |items IH|members IH] using JSON_induction; try done.
  - cbn [anonymizeJSONValue snd]. intros (r & Hin & Hr)%existsb_exists.
    apply in_map_iff in Hin as (item & <- & Hin%list_elem_of_In). cbn [jsonValueReferencesIdentity].
    apply existsb_exists. exists item. split; [by apply list_elem_of_In|].
    destruct item as [| | |text| |]; try by apply IH.
    apply redact_references. by destruct (redactAccountIdentityText text identity false) as [? []].
  - rewrite anonymize_object. destruct (owned_ identity (member_map members)) eqn:Ho.
    + intros _. cbn [jsonValueReferencesIdentity]. by rewrite Ho.
    + cbn [snd]. rewrite orb_false_r. intros (key & r & Hr & Hc)%existsb_range_true.
      unfold memberResults in Hr. rewrite map_lookup_imap in Hr.
      destruct (member_map members !! key) as [item|] eqn:Hk; [|done]. cbn in Hr. injection Hr as <-.
      apply (references_member identity members key item Hk). cbn in Hc.
      eapply anonymizeMember_references; [done|done| |exact Hc]. intros _. unfold childAuthorized. cbn.
      apply IH with key. by apply elem_of_member_map.
Qed.

(** Without authority the sanitizer only touches documents that refer to the
    account: if it changes a document, then the document names the user's id as an owner,
    carries one of the user's identifiers in an identifier member, or has the id or an
    identifier as a bounded word in some text. *)
Theorem anonymize_only_references raw identity raw' :
  AnonymizeAccountJSON raw identity = Ok (raw', true) →
  AccountJSONReferencesIdentity raw identity = Ok true.
Proof.
  unfold AnonymizeAccountJSON, anonymizeAccountJSON, AccountJSONReferencesIdentity.
  destruct (raw_absent raw); [done|]. destruct raw as [|text|value]; try done.
  destruct (is_text value) eqn:Ht.
  - destruct value as [| | |text| |]; try done. destruct (redactAccountIdentityText text identity false) as [r []] eqn:Hr; [|done].
    intros _. by rewrite redact_references by by rewrite Hr.
  - pose proof (anonymize_changed_references identity value) as Hc.
    destruct (anonymizeJSONValue identity false value) as [v []] eqn:Ha; [|by destruct value].
    intros _. by rewrite Hc.
Qed.
End anonymize.

(** ** A concrete instance: ASCII text *)
Module ReferenceText.

Fixpoint fold_prefix (needle l : list ascii) : bool :=
  match needle, l with
  | [], _ => true
  | c :: needle, d :: l =>
    Ascii.eqb (Reference.lower_ascii c) (Reference.lower_ascii d) && fold_prefix needle l
  | _ :: _, [] => false
  end.

(** Leftmost matches that do not overlap; the fuel is the length of the text. *)
Fixpoint find_all (fuel : nat) (needle l : list ascii) (pos : nat) : list (nat * nat) :=
  match fuel, l with
  | S fuel, _ :: rest =>
    if fold_prefix needle l
    then (pos, pos + length needle) :: find_all fuel needle (drop (length needle) l) (pos + length needle)
    else find_all fuel needle rest (S pos)
  | _, _ => []
  end.

Definition find (needle value : string) : option (list (nat * nat)) :=
  Some (find_all (String.length value) (String.list_ascii_of_string needle)
          (String.list_ascii_of_string value) 0).

Definition rune (c : ascii) : Z := Z.of_N (N_of_ascii c).
Definition runeError : Z := 65533.

Definition first_rune (value : string) : Z :=
  match value with String c _ => rune c | EmptyString => runeError end.
Definition last_rune (value : string) : Z :=
  from_option rune runeError (last (String.list_ascii_of_string value)).

Definition letter (r : Z) : bool :=
  (65 <=? r)%Z && (r <=? 90)%Z || (97 <=? r)%Z && (r <=? 122)%Z.
Definition number (r : Z) : bool := (48 <=? r)%Z && (r <=? 57)%Z.

#[export] Instance text : @AccountText Reference.runtime := {|
  FindAllFold := find;
  DecodeRune := first_rune;
  DecodeLastRune := last_rune;
  IsLetter := letter;
  IsNumber := number;
  float64_literal := λ m e, (m, e);
  time_text := pretty;
  float64_literal_value := λ m e, eq_refl;
|}.
End ReferenceText.

Section witnesses.
#[local] Existing Instance Reference.runtime.
#[local] Existing Instance ReferenceText.text.

Definition someone : AccountIdentity :=
  mkAccountIdentity (uuid_of_N 1) "ann@example.com" "+15550100" "Ann" "jo.jo".

(** An expense of the account inside a list, with its contact data and a note. *)
Definition expense : list (string * JSON) :=
  [("createdBy", JStr (uuid_String (uuid_of_N 1))); ("email", JStr "Ann@example.com");
   ("amount", JNum 1250 (-2)); ("note", JStr "paid by jo.jo")].
Definition ledger : JSON := JObj [("items", JArr [JNull; JObj expense])].
Definition expensePath : list PathStep := [AtKey "items"; AtIndex 1].

Definition sanitized : RawMessage :=
  match AnonymizeAccountJSON (Raw ledger) someone with Ok (raw, _) => raw | Err _ => RawNil end.

Lemma ledger_sanitized : anonymizeAccountJSON (Raw ledger) someone false = Ok (sanitized, true).
Proof. vm_compute. reflexivity. Qed.

Lemma expensePath_plain : plain_path expensePath.
Proof. repeat constructor; try done; vm_compute; reflexivity. Qed.

Lemma anonymized_ledger_survives_witness :
  ∃ value' leaf', sanitized = Raw value' ∧
    json_at (expensePath ++ [AtKey "amount"]) value' = Some leaf' ∧
    canonical leaf' = canonical (JNum 1250 (-2)).
Proof.
  apply (anonymized_ledger_survives ledger someone false sanitized true).
  - apply ledger_sanitized.
  - apply Forall_app. split; [apply expensePath_plain|].
    apply Forall_singleton. split; [vm_compute; reflexivity|done].
  - vm_compute. reflexivity.
  - exact I.
Defined.

Lemma anonymized_objects_scrubbed_witness :
  ∃ value' members', sanitized = Raw value' ∧ json_at expensePath value' = Some (JObj members') ∧
    member_map members' !! "isDeleted" = Some (JBool true) ∧
    ∀ key, isPersonalJSONKey (normalizeJSONKey key) = true → key ≠ "isDeleted" →
      member_map members' !! key = None.
Proof.
  apply (anonymized_objects_scrubbed ledger someone false sanitized true expensePath expense).
  - apply ledger_sanitized.
  - apply expensePath_plain.
  - vm_compute. reflexivity.
  - vm_compute. reflexivity.
Defined.

Lemma anonymize_only_references_witness :
  AccountJSONReferencesIdentity (Raw ledger) someone = Ok true.
Proof. apply (anonymize_only_references (Raw ledger) someone sanitized). apply ledger_sanitized. Defined.

(** The redaction misses an identifier that overlaps an unbounded match.  The
    text "bjo.jo.jo" ends in the user name "jo.jo" as a word of its own (it starts after a
    dot and runs to the end), but the search for matches that do not overlap finds the
    occurrence inside "bjo.jo" first, rejects it because a letter precedes it, and goes on
    behind it: the text stays as it is, and the document does not count as a reference to
    the account. *)
Theorem redaction_misses_overlap :
  let value := "bjo.jo.jo" in
  String.substring 4 5 value = AccountIdentity_Username someone ∧
  identityTextBoundaryBefore value 4 = true ∧ identityTextBoundaryAfter value 9 = true ∧
  redactAccountIdentityText value someone false = (value, false) ∧
  AnonymizeAccountJSON (Raw (JStr value)) someone = Ok (Raw (JStr value), false) ∧
  AccountJSONReferencesIdentity (Raw (JStr value)) someone = Ok false.
Proof. vm_compute. repeat split. Qed.
End witnesses.
