(* ===== verification/Erasure.v ===== *)
(** * Account erasure

    [ExecuteAccountDeletionIntent] and [deleteAccountLocked] of
    [src/internal/store/memory/memory.go] (lines 431-861), and the reading of outbox
    payloads of [src/internal/store/account.go] (lines 24-120).

    The whole erasure is one critical section.  It runs through every table of the store;
    a loop that decides for each row on its own whether to keep, change or delete it is
    [sift] of the table.  The conversations come first, in the order of their ids, and
    this loop can fail; the error path leaves the store as it is at that moment. *)

From Stdlib Require Import ZArith Lia Ascii.
From S2P Require Import Prelude.
From S2P Require Import Runtime.
From S2P Require Import Domain.
From S2P Require Import StoreState.
From S2P Require Import Accounts.
From S2P Require Import Projection.
From S2P Require Import Conversations.
From S2P Require Import Membership.
From S2P Require Import Media.
From S2P Require Import Anonymize.

(** [for key, row := range table]: [f] gives the row that stays. *)
Definition sift `{Countable K} {V} (f : K → V → option V) (m : gmap K V) : gmap K V :=
  map_imap f m.

Lemma lookup_sift `{Countable K} {V} (f : K → V → option V) (m : gmap K V) k :
  sift f m !! k = m !! k ≫= f k.
Proof. apply map_lookup_imap. Qed.

(** Deleting the rows that satisfy [f]. *)
Definition purge `{Countable K} {V} (f : K → V → bool) : gmap K V → gmap K V :=
  sift (λ k v, if f k v then None else Some v).

Lemma lookup_purge `{Countable K} {V} (f : K → V → bool) (m : gmap K V) k v :
  purge f m !! k = Some v ↔ m !! k = Some v ∧ f k v = false.
Proof.
  unfold purge. rewrite lookup_sift. destruct (m !! k) as [w|]; cbn; [|naive_solver].
  destruct (f k w) eqn:Hf; naive_solver congruence.
Qed.

(** ** Outbox payloads *)

Definition AccountSanitizableOutboxTopic (topic : string) : bool :=
  bool_decide (topic ∈ ["conversation.created"; "conversation.updated"; "entity.updated"; "entity.deleted"]).

Definition AccountErasureOutboxTopic (topic : string) : bool :=
  AccountSanitizableOutboxTopic topic || bool_decide (topic = "receipt.updated")
  || bool_decide (topic = "conversation.member_added") || bool_decide (topic = "conversation.member_removed").

Record AccountOutboxPayload := mkAccountOutboxPayload {
  AccountOutboxPayload_ConversationID : UUID; AccountOutboxPayload_UserID : UUID;
  AccountOutboxPayload_ActorID : UUID; AccountOutboxPayload_EntityKind : string;
  AccountOutboxPayload_EntityID : UUID }.

Section payloads.
Context `{AccountText}.

(** [json.Marshal] of the structs of the payloads; a document that is not JSON makes it
    fail, and the payload of the event is empty then. *)
Definition optional (key : string) (text : string) : list (string * JSON) :=
  if bool_decide (text = "") then [] else [(key, JStr text)].

Definition conversation_json (c : Conversation) : option JSON :=
  let metadata := match Conversation_Metadata c with
                  | Raw v => Some [("metadata", v)]
                  | metadata => if raw_length_zero metadata then Some [] else None
                  end in
  members ← metadata;
  Some (JObj ([("id", JStr (uuid_String (Conversation_ID c))); ("kind", JStr (Conversation_Kind c))]
    ++ optional "title" (Conversation_Title c) ++ optional "avatar_url" (Conversation_AvatarURL c)
    ++ members
    ++ [("created_by", JStr (uuid_String (Conversation_CreatedBy c)));
        ("last_seq", JNum (Conversation_LastSeq c) 0);
        ("created_at", JStr (time_text (Conversation_CreatedAt c)));
        ("updated_at", JStr (time_text (Conversation_UpdatedAt c)))])).

Definition entity_json (e : Entity) : option JSON :=
  match Entity_Payload e with
  | RawInvalid _ => None
  | payload =>
    Some (JObj ([("conversation_id", JStr (uuid_String (Entity_ConversationID e)));
                 ("kind", JStr (Entity_Kind e)); ("id", JStr (uuid_String (Entity_ID e)));
                 ("version", JNum (Entity_Version e) 0);
                 ("payload", match payload with Raw v => v | _ => JNull end);
                 ("created_by", JStr (uuid_String (Entity_CreatedBy e)));
                 ("created_at", JStr (time_text (Entity_CreatedAt e)));
                 ("updated_at", JStr (time_text (Entity_UpdatedAt e)))]
      ++ match Entity_DeletedAt e with Some t => [("deleted_at", JStr (time_text t))] | None => [] end))
  end.

(** The document of an event; only conversations and entities are searched. *)
Definition payload_raw (payload : Payload) : RawMessage :=
  match payload with
  | PConversation c => from_option Raw RawNil (conversation_json c)
  | PEntity e => from_option Raw RawNil (entity_json e)
  | _ => RawNil
  end.

(** Strict decoding of a payload into the struct of its topic.  A payload of another
    struct has a field this struct does not know and is refused, except that the two
    membership events have the same fields. *)
Definition DecodeAccountOutboxPayload (topic : string) (aggregateID : UUID) (payload : Payload) :
    res AccountOutboxPayload :=
  if bool_decide (aggregateID = uuid_Nil) then Err ErrInvalid
  else if bool_decide (topic ∈ ["conversation.created"; "conversation.updated"]) then
    match payload with
    | PConversation c =>
      if bool_decide (conversation_json c = None)
         || negb (bool_decide (Conversation_ID c = aggregateID))
         || bool_decide (Conversation_CreatedBy c = uuid_Nil)
         || bool_decide (TrimSpace (Conversation_Kind c) = "")
      then Err ErrInvalid
      else Ok (mkAccountOutboxPayload aggregateID uuid_Nil uuid_Nil "" uuid_Nil)
    | _ => Err ErrInvalid
    end
  else if bool_decide (topic ∈ ["entity.updated"; "entity.deleted"]) then
    match payload with
    | PEntity e =>
      if bool_decide (entity_json e = None)
         || negb (bool_decide (Entity_ConversationID e = aggregateID))
         || bool_decide (Entity_ID e = uuid_Nil) || bool_decide (Entity_CreatedBy e = uuid_Nil)
         || (Entity_Version e <? 1)%Z || bool_decide (TrimSpace (Entity_Kind e) = "")
      then Err ErrInvalid
      else Ok (mkAccountOutboxPayload aggregateID uuid_Nil uuid_Nil (Entity_Kind e) (Entity_ID e))
    | _ => Err ErrInvalid
    end
  else if bool_decide (topic = "receipt.updated") then
    match payload with
    | PReceipt r =>
      if negb (bool_decide (Receipt_ConversationID r = aggregateID))
         || bool_decide (Receipt_UserID r = uuid_Nil)
         || (Receipt_DeliveredSeq r <? 0)%Z || (Receipt_ReadSeq r <? 0)%Z
      then Err ErrInvalid
      else Ok (mkAccountOutboxPayload aggregateID (Receipt_UserID r) uuid_Nil "" uuid_Nil)
    | _ => Err ErrInvalid
    end
  else if bool_decide (topic ∈ ["conversation.member_added"; "conversation.member_removed"]) then
    let decoded (cid actor user : UUID) :=
      if negb (bool_decide (cid = aggregateID)) || bool_decide (actor = uuid_Nil) || bool_decide (user = uuid_Nil)
      then Err ErrInvalid
      else Ok (mkAccountOutboxPayload aggregateID user actor "" uuid_Nil) in
    match payload with
    | PMemberAdded a =>
      decoded (ConversationMemberAdded_ConversationID a) (ConversationMemberAdded_ActorID a)
        (ConversationMemberAdded_UserID a)
    | PMemberRemoved r =>
      decoded (ConversationMemberRemoved_ConversationID r) (ConversationMemberRemoved_ActorID r)
        (ConversationMemberRemoved_UserID r)
    | _ => Err ErrInvalid
    end
  else Err ErrInvalid.
End payloads.

(** ** Conversations *)

Definition zeroConversationMember : ConversationMember :=
  mkConversationMember uuid_Nil uuid_Nil "" 0 None "" "" "" "" "".

Section erasure.
Context `{AccountText}.
Implicit Types (s : Store) (userID cid : UUID) (identity : AccountIdentity) (now : Z)
  (members : gmap UUID ConversationMember).

(** [x.String() < y.String()] *)
Definition uuid_text_lt (x y : UUID) : bool :=
  bool_decide (uuid_text_le x y) && negb (bool_decide (uuid_String x = uuid_String y)).

(** The body of the loop of [oldestMember]. *)
Definition olderOf (excluded : UUID) (result : ConversationMember) (row : UUID * ConversationMember) :
    ConversationMember :=
  let '(id, member) := row in
  if bool_decide (id = excluded) then result
  else if bool_decide (ConversationMember_UserID result = uuid_Nil)
          || Before (ConversationMember_JoinedAt member) (ConversationMember_JoinedAt result)
          || (ConversationMember_JoinedAt member =? ConversationMember_JoinedAt result)%Z
             && uuid_text_lt id (ConversationMember_UserID result)
  then member else result.

Definition oldestMember members (excluded : UUID) : ConversationMember :=
  foldl (olderOf excluded) zeroConversationMember (range members).

Definition conversationAuthorityMember members (excluded : UUID) : ConversationMember :=
  match List.filter (λ row : UUID * ConversationMember,
          negb (bool_decide (row.1 = excluded)) && bool_decide (ConversationMember_Role row.2 = "owner"))
          (range members) with
  | row :: _ => row.2
  | [] => oldestMember members excluded
  end.

(** The conversations the user is or was a member of. *)
Definition accountConversationScopeLocked s userID : list UUID :=
  let active := List.filter (λ row : UUID * gmap UUID ConversationMember,
    bool_decide (is_Some (row.2 !! userID))) (range (Store_members s)) in
  let former := List.filter (λ row : UUID * gmap UUID ConversationMemberTombstone,
    bool_decide (is_Some (row.2 !! userID))) (range (Store_memberTombstones s)) in
  let seen : gmap UUID unit := list_to_map ((λ id, (id, tt)) <$> (active.*1 ++ former.*1)) in
  merge_sort uuid_text_le (range seen).*1.

(** [len(members) == 0 || (activeMember && len(members) == 1)] *)
Definition lastMember members userID : bool :=
  bool_decide (size members = 0)
  || bool_decide (is_Some (members !! userID)) && bool_decide (size members = 1).

(** [entity.CreatedBy != userID && !referencesIdentity] decides whether an entity is
    looked at; the result is its new payload when it changes. *)
Definition entityErased identity userID (entity : Entity) : res (option RawMessage) :=
  match AccountJSONReferencesIdentity (Entity_Payload entity) identity with
  | Err e => Err e
  | Ok references =>
    if negb (bool_decide (Entity_CreatedBy entity = userID)) && negb references then Ok None
    else match AnonymizeAccountJSONWithAuthority (Entity_Payload entity) identity with
         | Err e => Err e
         | Ok (payload, changed) => Ok (if changed : bool then Some payload else None)
         end
  end.

(** [validateAccountDeletionJSONLocked] *)
Fixpoint firstError {A} (check : A → option Error) (l : list A) : option Error :=
  match l with
  | [] => None
  | x :: l => match check x with Some e => Some e | None => firstError check l end
  end.

Definition err_of {A} (r : res A) : option Error := match r with Err e => Some e | Ok _ => None end.

Definition validateConversation s userID identity cid : option Error :=
  let members := inner (Store_members s) cid in
  if bool_decide (size members = 0)
     || bool_decide (is_Some (members !! userID)) && (size members <? 2)%nat
  then None
  else
    match err_of (AnonymizeAccountJSON (Conversation_Metadata (conversation_or_zero s cid)) identity) with
    | Some e => Some e
    | None =>
      firstError (λ row : string * Entity,
        if bool_decide (Entity_ConversationID row.2 = cid)
        then err_of (entityErased identity userID row.2) else None) (range (Store_entities s))
    end.

Definition validateAccountDeletionJSONLocked s userID identity : option Error :=
  firstError (validateConversation s userID identity) (accountConversationScopeLocked s userID).

(** The loop over the entities of one shared conversation. *)
Fixpoint eraseEntities identity userID cid now (rows : list (string * Entity)) s
    (updated : list Entity) : Store * list Entity * option Error :=
  match rows with
  | [] => (s, updated, None)
  | (key, entity) :: rows =>
    if negb (bool_decide (Entity_ConversationID entity = cid))
    then eraseEntities identity userID cid now rows s updated
    else
      match entityErased identity userID entity with
      | Err e => (s, updated, Some e)
      | Ok None => eraseEntities identity userID cid now rows s updated
      | Ok (Some payload) =>
        let entity := entity <| Entity_Payload := payload |>
                             <| Entity_Version ::= (λ v, int64_wrap (v + 1)) |>
                             <| Entity_UpdatedAt := now |> in
        eraseEntities identity userID cid now rows
          (s <| Store_entities ::= <[key := entity]> |>) (updated ++ [entity])
      end
  end.

(** What the loop over the conversations has gathered. *)
Record Progress := mkProgress {
  Progress_deleted : gset UUID; Progress_shared : gset UUID; Progress_updated : list Entity }.

Definition dropConversation s cid : Store :=
  s <| Store_conversations ::= delete cid |> <| Store_members ::= delete cid |>
    <| Store_memberLocalIDs ::= delete cid |> <| Store_memberTombstones ::= delete cid |>
    <| Store_invites ::= delete cid |> <| Store_messages ::= delete cid |>.

(** The row and the members of a shared conversation once the user has left it; the
    oldest remaining member takes over what the user owned. *)
Definition handOver s userID now cid members (metadata : RawMessage) : Store :=
  let successor := oldestMember members userID in
  let conversation := conversation_or_zero s cid in
  let conversation :=
    if bool_decide (Conversation_CreatedBy conversation = userID)
    then conversation <| Conversation_CreatedBy :=
           ConversationMember_UserID (conversationAuthorityMember members userID) |>
    else conversation in
  let conversation := conversation <| Conversation_Metadata := metadata |> <| Conversation_UpdatedAt := now |> in
  match members !! userID with
  | None => s <| Store_conversations ::= <[cid := conversation]> |>
  | Some member =>
    let '(conversation, members) :=
      if bool_decide (ConversationMember_Role member = "owner")
      then (conversation <| Conversation_CreatedBy := ConversationMember_UserID successor |>,
            <[ConversationMember_UserID successor := successor <| ConversationMember_Role := "owner" |>]> members)
      else (conversation, members) in
    let localID := default uuid_Nil (inner (Store_memberLocalIDs s) cid !! userID) in
    let localID := if bool_decide (localID = uuid_Nil) then userID else localID in
    s <| Store_conversations ::= <[cid := conversation]> |>
      <| Store_members ::= <[cid := delete userID members]> |>
      <| Store_memberTombstones ::= (λ t,
           <[cid := <[userID := mkConversationMemberTombstone userID localID]> (inner t cid)]> t) |>
  end.

Definition eraseConversation userID identity now s (p : Progress) cid : Store * Progress * option Error :=
  match Store_members s !! cid with
  | None => (s, p, None)
  | Some members =>
    if lastMember members userID
    then (dropConversation s cid,
          mkProgress ({[cid]} ∪ Progress_deleted p) (Progress_shared p) (Progress_updated p), None)
    else
      let p := mkProgress (Progress_deleted p) ({[cid]} ∪ Progress_shared p) (Progress_updated p) in
      match AnonymizeAccountJSON (Conversation_Metadata (conversation_or_zero s cid)) identity with
      | Err e => (s, p, Some e)
      | Ok (metadata, _) =>
        let s := handOver s userID now cid members metadata in
        let s := (projectConversationMembersLocked s cid).1 in
        let s := s <| Store_receipts ::= delete (uuidPairKey cid userID) |> in
        let '(s, updated, err) :=
          eraseEntities identity userID cid now (range (Store_entities s)) s (Progress_updated p) in
        (s, mkProgress (Progress_deleted p) (Progress_shared p) updated, err)
      end
  end.

Fixpoint eraseConversations userID identity now (cids : list UUID) s (p : Progress) :
    Store * Progress * option Error :=
  match cids with
  | [] => (s, p, None)
  | cid :: cids =>
    match eraseConversation userID identity now s p cid with
    | (s, p, Some e) => (s, p, Some e)
    | (s, p, None) => eraseConversations userID identity now cids s p
    end
  end.

(** ** The other tables *)

(** An operation result is a replay cache: it is sanitized, or dropped when that fails. *)
Definition rotationErased (p : Progress) identity (operation : memoryChoreRotation) :
    option memoryChoreRotation :=
  if bool_decide (memoryChoreRotation_ConversationID operation ∈ Progress_deleted p) then None
  else if negb (bool_decide (memoryChoreRotation_ConversationID operation ∈ Progress_shared p))
  then Some operation
  else
    let result := memoryChoreRotation_Result operation in
    let chore := RotateChoreResult_Chore result in
    let feedItem := RotateChoreResult_FeedItem result in
    match AnonymizeAccountJSON (Entity_Payload chore) identity,
          AnonymizeAccountJSON (Entity_Payload feedItem) identity with
    | Ok (chorePayload, _), Ok (feedPayload, _) =>
      Some (mkmemoryChoreRotation (memoryChoreRotation_ConversationID operation)
        (memoryChoreRotation_ActorID operation) (memoryChoreRotation_ChoreID operation)
        (memoryChoreRotation_RequestHash operation)
        (mkRotateChoreResult (RotateChoreResult_OperationID result)
           (chore <| Entity_Payload := chorePayload |>) (feedItem <| Entity_Payload := feedPayload |>))
        (memoryChoreRotation_ExpiresAt operation))
    | _, _ => None
    end.

(** [conversationDeleted || ownedProfile || ownedPending] *)
Definition mediaErased (p : Progress) userID (object : MediaObject) : bool :=
  bool_decide (MediaObject_ConversationID object ∈ Progress_deleted p)
  || bool_decide (MediaObject_Scope object = MediaScopeProfile) && bool_decide (MediaObject_OwnerID object = userID)
  || bool_decide (MediaObject_Scope object = MediaScopeConversation)
     && bool_decide (MediaObject_OwnerID object = userID) && bool_decide (MediaObject_Status object = "pending").

Definition erasedMedia s (p : Progress) userID : list MediaObject :=
  List.filter (mediaErased p userID) (range (Store_media s)).*2.

Definition pending (object : MediaObject) : bool := bool_decide (MediaObject_Status object = "pending").

(** Phone invitations of one conversation; the conversation's entry goes with the last. *)
Definition invitesErased userID (phone : string) (phones : gmap string UUID) : option (gmap string UUID) :=
  let phones := purge (λ invited invitedBy, bool_decide (invitedBy = userID) || bool_decide (invited = phone)) phones in
  if bool_decide (size phones = 0) then None else Some phones.

Definition inviteLinkErased (p : Progress) userID now (invite : ConversationInvite) : option ConversationInvite :=
  if bool_decide (ConversationInvite_ConversationID invite ∈ Progress_deleted p) then None
  else if bool_decide (ConversationInvite_CreatedBy invite = userID)
          && bool_decide (ConversationInvite_RevokedAt invite = None)
  then Some (invite <| ConversationInvite_RevokedAt := Some now |>)
  else Some invite.

Definition removedInviteLinks s (p : Progress) : list UUID :=
  ConversationInvite_ID <$> List.filter (λ invite,
    bool_decide (ConversationInvite_ConversationID invite ∈ Progress_deleted p)) (range (Store_inviteLinks s)).*2.

(** A mail goes with the challenge it belongs to. *)
Definition mailErased s userID (delivery : MailDelivery) : bool :=
  match Store_passwordResets s !! MailDelivery_ChallengeID delivery with
  | Some challenge => bool_decide (PasswordResetChallenge_UserID challenge = userID)
  | None => false
  end.

Definition deviceErased userID (device : Device) : Device :=
  if bool_decide (Device_UserID device = userID)
  then device <| Device_Name := "Deleted device" |> <| Device_PushToken := "" |>
              <| Device_IdentityKey := "" |> <| Device_SignedPreKey := RawNil |>
  else device.

Definition deletedDeviceIDs s userID : list UUID :=
  (List.filter (λ row : UUID * Device, bool_decide (Device_UserID row.2 = userID)) (range (Store_devices s))).*1.

Definition erasedUser now (user : User) : User :=
  user <| User_Email := "" |> <| User_Phone := "" |> <| User_DisplayName := DeletedUserDisplayName |>
       <| User_AvatarURL := "" |> <| User_Profile := deleted_profile |> <| User_PasswordHash := "" |>
       <| User_UpdatedAt := now |>.

(** The loops over the tables up to the user row, in the order of the code. *)
Definition eraseTables s (p : Progress) userID (user : User) identity now : Store :=
  let inDeleted (cid : UUID) := bool_decide (cid ∈ Progress_deleted p) in
  let devices := deletedDeviceIDs s userID in
  s <| Store_clientMessages ::= purge (λ _ message, inDeleted (Message_ConversationID message)) |>
    <| Store_receipts ::= purge (λ _ receipt,
         bool_decide (Receipt_UserID receipt = userID) || inDeleted (Receipt_ConversationID receipt)) |>
    <| Store_entities ::= purge (λ _ entity, inDeleted (Entity_ConversationID entity)) |>
    <| Store_choreRotations ::= sift (λ _, rotationErased p identity) |>
    <| Store_media ::= purge (λ _, mediaErased p userID) |>
    <| Store_mediaUploadCapabilities ::= purge (λ id _,
         from_option (mediaErased p userID) false (Store_media s !! id)) |>
    <| Store_invites ::= sift (λ _, invitesErased userID (User_Phone user)) |>
    <| Store_inviteLinks ::= sift (λ _, inviteLinkErased p userID now) |>
    <| Store_inviteLinkKeys ::= delete_all (removedInviteLinks s p) |>
    <| Store_externalUsers ::= purge (λ _ linked, bool_decide (linked = userID)) |>
    <| Store_ageAssurances ::= delete userID |>
    <| Store_mailDeliveries ::= purge (λ _, mailErased s userID) |>
    <| Store_passwordResets ::= purge (λ _ challenge,
         bool_decide (PasswordResetChallenge_UserID challenge = userID)) |>
    <| Store_sessions ::= purge (λ _ session, bool_decide (Session_UserID session = userID)) |>
    <| Store_preKeys ::= delete_all devices |>
    <| Store_devices ::= sift (λ _ device, Some (deviceErased userID device)) |>
    <| Store_emailToUser ::= delete (normalizeEmail (User_Email user)) |>
    <| Store_phoneToUser ::= delete (User_Phone user) |>
    <| Store_usernameToUser ::= delete (profileUsername (User_Profile user)) |>
    <| Store_users ::= <[userID := erasedUser now user]> |>.

(** ** Outbox and push deliveries *)

Definition entityRef (cid : UUID) (kind : string) (id : UUID) : string :=
  uuid_String cid +:+ String (Ascii.ascii_of_nat 0) kind +:+ String (Ascii.ascii_of_nat 0) (uuid_String id).

(** Whether the loop over the outbox keeps an event. *)
Definition eventKept (p : Progress) userID identity (event : OutboxEvent) : bool :=
  let aggregateID := OutboxEvent_AggregateID event in
  let topic := OutboxEvent_Topic event in
  let plain := bool_decide (topic ∈ ["receipt.updated"; "conversation.member_added"; "conversation.member_removed"]) in
  if bool_decide (aggregateID ∈ Progress_deleted p) then false
  else if bool_decide (aggregateID ∈ Progress_shared p) && AccountErasureOutboxTopic topic then
    match DecodeAccountOutboxPayload topic aggregateID (OutboxEvent_Payload event) with
    | Err _ => false
    | Ok typed =>
      if plain && (bool_decide (AccountOutboxPayload_UserID typed = userID)
                   || bool_decide (AccountOutboxPayload_ActorID typed = userID))
      then false
      else if plain then true
      else
        let raw := payload_raw (OutboxEvent_Payload event) in
        match AccountJSONReferencesIdentity raw identity with
        | Err _ => false
        | Ok authorized =>
          let affected := bool_decide (entityRef (AccountOutboxPayload_ConversationID typed)
              (AccountOutboxPayload_EntityKind typed) (AccountOutboxPayload_EntityID typed)
            ∈ ((λ e, entityRef (Entity_ConversationID e) (Entity_Kind e) (Entity_ID e)) <$> Progress_updated p)) in
          let authorized := if bool_decide (topic ∈ ["entity.updated"; "entity.deleted"])
                            then authorized || affected else authorized in
          if negb authorized then true
          else match AnonymizeAccountJSONWithAuthority raw identity with
               | Ok (_, false) => true
               | _ => false
               end
        end
    end
  else true.

Definition eraseOutbox s (p : Progress) userID identity (devices : list UUID) : Store :=
  let removed := OutboxEvent_ID <$> List.filter (λ e, negb (eventKept p userID identity e)) (Store_outbox s) in
  let gone (delivery : PushDelivery) :=
    bool_decide (PushDelivery_OutboxEventID delivery ∈ removed)
    || bool_decide (PushDelivery_DeviceID delivery ∈ devices) in
  let keys := (λ d, pushDeliveryKey (PushDelivery_OutboxEventID d) (PushDelivery_DeviceID d))
                <$> List.filter gone (range (Store_pushDeliveries s)).*2 in
  s <| Store_outbox ::= List.filter (eventKept p userID identity) |>
    <| Store_pushDeliveries ::= purge (λ _, gone) |>
    <| Store_pushDeliveryByEventDevice ::= delete_all keys |>.

Fixpoint appendUpdated s (updated : list Entity) (clock : Clock) : Store :=
  match updated with
  | [] => s
  | entity :: updated =>
    appendUpdated (appendOutbox s "entity.updated" (Entity_ConversationID entity) (PEntity entity) clock)
      updated (later 2 clock)
  end.

(** [if len(keys) > 0 { sort; appendMediaDeletesAt }] *)
Definition appendSorted s userID (keys : list string) (notBefore : Z) (clock : Clock) : Store :=
  if bool_decide (keys = []) then s
  else appendMediaDeletesAt s userID (merge_sort String.le keys) notBefore clock.

Definition deleteAccountLocked s userID (clock : Clock) : Store * option Error :=
  match live_user s userID with
  | None => (s, Some ErrNotFound)
  | Some user =>
    let identity := mkAccountIdentity userID (User_Email user) (User_Phone user) (User_DisplayName user)
                      (profileUsername (User_Profile user)) in
    match validateAccountDeletionJSONLocked s userID identity with
    | Some e => (s, Some e)
    | None =>
      let now := clock 0%nat in
      match eraseConversations userID identity now (accountConversationScopeLocked s userID) s
              (mkProgress ∅ ∅ []) with
      | (s, _, Some e) => (s, Some e)
      | (s, p, None) =>
        let objects := erasedMedia s p userID in
        let deferred := List.filter pending objects in
        let immediate := List.filter (λ object, negb (pending object)) objects in
        let mediaDeleteNotBefore := latestNotBefore 0 deferred (later 1 clock) in
        let clock := later (1 + length deferred) clock in
        let devices := deletedDeviceIDs s userID in
        let s := eraseTables s p userID user identity now in
        let s := eraseOutbox s p userID identity devices in
        let s := appendUpdated s (Progress_updated p) clock in
        let clock := later (2 * length (Progress_updated p)) clock in
        let s := appendSorted s userID (MediaObject_ObjectKey <$> immediate) now clock in
        let s := appendSorted s userID (MediaObject_ObjectKey <$> deferred) mediaDeleteNotBefore
                   (later (length immediate * 2) clock) in
        (s, None)
      end
    end
  end.

(** [fence] is the callback that ends the realtime sessions of the user. *)
Definition ExecuteAccountDeletionIntent s (requestID : UUID) (tokenHash : string)
    (fence : UUID → option Error) (clock : Clock) : Store * option Error :=
  if bool_decide (requestID = uuid_Nil) || negb (bool_decide (strlen tokenHash = 32%Z))
  then (s, Some ErrNotFound)
  else
    match Store_accountDeletionIntents s !! requestID with
    | None => (s, Some ErrNotFound)
    | Some intent =>
      if negb (bool_decide (AccountDeletionIntent_TokenHash intent = tokenHash)) then (s, Some ErrNotFound)
      else if bool_decide (AccountDeletionIntent_State intent = AccountDeletionCompleted) then (s, None)
      else if negb (bool_decide (AccountDeletionIntent_State intent = AccountDeletionPending))
      then (s, Some ErrNotFound)
      else
        let userID := AccountDeletionIntent_UserID intent in
        match fence userID with
        | Some e => (s, Some e)
        | None =>
          let '(s, err) := deleteAccountLocked s userID (later 1 clock) in
          match err with
          | None | Some ErrNotFound =>
            (s <| Store_accountDeletionIntents ::=
                 <[requestID := intent <| AccountDeletionIntent_State := AccountDeletionCompleted |>
                                       <| AccountDeletionIntent_CompletedAt := Some (clock 0%nat) |>]> |>,
             None)
          | Some e => (s, Some e)
          end
        end
    end.

(** ** What the loop over the conversations touches *)

(** Only the eight tables of conversations change. *)
Definition only_conversations s s' : Prop :=
  s' = s <| Store_conversations := Store_conversations s' |> <| Store_members := Store_members s' |>
         <| Store_memberLocalIDs := Store_memberLocalIDs s' |>
         <| Store_memberTombstones := Store_memberTombstones s' |>
         <| Store_invites := Store_invites s' |> <| Store_messages := Store_messages s' |>
         <| Store_receipts := Store_receipts s' |> <| Store_entities := Store_entities s' |>.

Lemma only_conversations_refl s : only_conversations s s.
Proof. by destruct s. Qed.

Lemma only_conversations_trans s s' s'' :
  only_conversations s s' → only_conversations s' s'' → only_conversations s s''.
Proof. unfold only_conversations. intros H1 H2. rewrite H1 in H2. exact H2. Qed.

Lemma receipts_only s f : only_conversations s (s <| Store_receipts ::= f |>).
Proof. by destruct s. Qed.

(** The rows of the other conversations stay. *)
Definition others_kept s s' cid : Prop :=
  ∀ i, i ≠ cid →
    Store_members s' !! i = Store_members s !! i ∧
    Store_conversations s' !! i = Store_conversations s !! i ∧
    (∀ key e, Entity_ConversationID e = i →
       Store_entities s' !! key = Some e ↔ Store_entities s !! key = Some e).

Lemma others_kept_trans s s' s'' cid :
  others_kept s s' cid → others_kept s' s'' cid → others_kept s s'' cid.
Proof.
  intros H1 H2 i Hi. destruct (H1 i Hi) as (A1 & A2 & A3). destruct (H2 i Hi) as (B1 & B2 & B3).
  split_and!; [congruence..|]. intros key e He. by rewrite B3, A3.
Qed.

Lemma project_only s cid : only_conversations s (projectConversationMembersLocked s cid).1.
Proof.
  unfold projectConversationMembersLocked, ensureConversationMemberLocalIDsLocked,
    commitConversationMemberLocalIDsLocked.
  repeat case_match; simplify_eq;
    match goal with |- only_conversations ?x _ => by destruct x end.
Qed.

Lemma project_tables s cid :
  let s' := (projectConversationMembersLocked s cid).1 in
  Store_members s' = Store_members s ∧ Store_entities s' = Store_entities s ∧
  Store_receipts s' = Store_receipts s ∧ Store_memberTombstones s' = Store_memberTombstones s ∧
  (∀ i, i ≠ cid → Store_conversations s' !! i = Store_conversations s !! i).
Proof.
  unfold projectConversationMembersLocked, ensureConversationMemberLocalIDsLocked,
    commitConversationMemberLocalIDsLocked.
  repeat case_match; simplify_eq/=; split_and!; try done.
  intros i Hi. by rewrite lookup_insert_ne.
Qed.

Lemma handOver_only s userID now cid members metadata :
  only_conversations s (handOver s userID now cid members metadata).
Proof. unfold handOver. repeat case_match; simplify_eq;
    match goal with |- only_conversations ?x _ => by destruct x end. Qed.

Lemma handOver_kept s userID now cid members metadata :
  others_kept s (handOver s userID now cid members metadata) cid.
Proof.
  intros i Hi. unfold handOver. repeat case_match; simplify_eq/=; split_and!; try done;
    by rewrite lookup_insert_ne.
Qed.

Lemma eraseEntities_only identity userID cid now rows s updated :
  only_conversations s (eraseEntities identity userID cid now rows s updated).1.1 ∧
  Store_members (eraseEntities identity userID cid now rows s updated).1.1 = Store_members s ∧
  Store_conversations (eraseEntities identity userID cid now rows s updated).1.1 = Store_conversations s ∧
  Store_receipts (eraseEntities identity userID cid now rows s updated).1.1 = Store_receipts s ∧
  Store_memberTombstones (eraseEntities identity userID cid now rows s updated).1.1 = Store_memberTombstones s.
Proof.
  revert s updated. induction rows as [|[key entity] rows IH]; intros s updated; cbn.
  { split_and!; try done. apply only_conversations_refl. }
  destruct (negb _); [apply IH|]. destruct (entityErased _ _ _) as [[payload|]|e]; cbn.
  - destruct (IH (s <| Store_entities ::= <[key := entity <| Entity_Payload := payload |>
       <| Entity_Version ::= (λ v, int64_wrap (v + 1)) |> <| Entity_UpdatedAt := now |>]> |>)
       (updated ++ [entity <| Entity_Payload := payload |>
       <| Entity_Version ::= (λ v, int64_wrap (v + 1)) |> <| Entity_UpdatedAt := now |>])) as (A & B & C & D & E).
    split_and!; [|done..]. eapply only_conversations_trans; [|exact A]. by destruct s.
  - apply IH.
  - split_and!; try done. apply only_conversations_refl.
Qed.

(** The rows of the loop are the rows of the table. *)
Lemma eraseEntities_kept identity userID cid now rows s updated :
  NoDup rows.*1 → (∀ key e, (key, e) ∈ rows → Store_entities s !! key = Some e) →
  ∀ key e, Entity_ConversationID e ≠ cid →
    Store_entities (eraseEntities identity userID cid now rows s updated).1.1 !! key = Some e ↔
    Store_entities s !! key = Some e.
Proof.
  revert s updated. induction rows as [|[key0 entity] rows IH]; intros s updated Hnd Hrows key e He; [done|].
  apply NoDup_cons in Hnd as [Hn Hnd].
  assert (∀ key e, (key, e) ∈ rows → Store_entities s !! key = Some e) as Hrows'.
  { intros k x Hx. apply Hrows. by right. }
  cbn. case_bool_decide as Hcid; cbn; [|by apply IH].
  destruct (entityErased _ _ _) as [[payload|]|err]; cbn; [|by apply IH|done].
  rewrite IH; [|done| |done].
  - cbn. destruct (decide (key0 = key)) as [->|Hne]; [|by rewrite lookup_insert_ne].
    rewrite lookup_insert_eq. rewrite (Hrows key entity) by left.
    split; intros [= <-]; [by destruct He|done].
  - intros k x Hx. cbn. rewrite lookup_insert_ne; [by apply Hrows'|]. intros ->.
    apply Hn. apply list_elem_of_fmap. by exists (k, x).
Qed.

Lemma eraseConversation_frame userID identity now s p cid :
  let s' := (eraseConversation userID identity now s p cid).1.1 in
  only_conversations s s' ∧ others_kept s s' cid.
Proof.
  unfold eraseConversation. destruct (Store_members s !! cid) as [members|]; cbn.
  2: { split; [apply only_conversations_refl|done]. }
  destruct (lastMember members userID); cbn.
  { split; [by destruct s|]. intros i Hi. cbn. rewrite !lookup_delete_ne by done. done. }
  destruct (AnonymizeAccountJSON _ _) as [[metadata c]|e]; cbn.
  2: { split; [apply only_conversations_refl|done]. }
  set (s1 := handOver s userID now cid members metadata).
  set (s2 := (projectConversationMembersLocked s1 cid).1).
  set (s3 := s2 <| Store_receipts ::= delete (uuidPairKey cid userID) |>).
  match goal with |- context [eraseEntities ?a ?b ?c ?d ?rows ?st ?u] =>
    destruct (eraseEntities_only a b c d rows st u) as (H1 & H2 & H3 & _);
    pose proof (eraseEntities_kept a b c d rows st u (NoDup_fst_range _) (λ key e, proj1 (elem_of_range _ _ _))) as H4;
    destruct (eraseEntities a b c d rows st u) as [[s4 updated] err] end.
  cbn in H1, H2, H3, H4. cbn.
  destruct (project_tables s1 cid) as (P1 & P2 & P3 & _ & P4). split.
  - eapply only_conversations_trans; [apply (handOver_only s userID now cid members metadata)|].
    eapply only_conversations_trans; [apply (project_only s1 cid)|].
    eapply only_conversations_trans; [apply receipts_only|exact H1].
  - apply (others_kept_trans s s1); [apply handOver_kept|]. intros i Hi. rewrite H2, H3. cbn.
    split_and!; [by rewrite <-P1|by apply P4|]. intros key e Hk. rewrite H4 by congruence. cbn. by rewrite <-P2.
Qed.

(** ** A failure leaves no trace *)

(** The loop over the entities and the sanitizer of the metadata cannot fail. *)
Definition conversation_valid s userID identity cid : Prop :=
  ∀ members, Store_members s !! cid = Some members → lastMember members userID = false →
    is_ok (AnonymizeAccountJSON (Conversation_Metadata (conversation_or_zero s cid)) identity) = true ∧
    ∀ key e, Store_entities s !! key = Some e → Entity_ConversationID e = cid →
      is_ok (entityErased identity userID e) = true.

Lemma firstError_none {A} (check : A → option Error) l x :
  firstError check l = None → x ∈ l → check x = None.
Proof.
  induction l as [|y l IH]; [by intros _ ?%not_elem_of_nil|]. cbn. destruct (check y) eqn:Hy; [done|].
  intros Hn [->|Hx]%elem_of_cons; auto.
Qed.

Lemma err_of_none {A} (r : res A) : err_of r = None → is_ok r = true.
Proof. by destruct r. Qed.

Lemma firstError_some {A} (check : A → option Error) l e :
  firstError check l = Some e → ∃ x, check x = Some e.
Proof. induction l as [|x l IH]; [done|]. cbn. destruct (check x) eqn:Hx; [intros [= <-]; eauto|auto]. Qed.

(** The sanitizer fails with a decoding error only. *)
Lemma anonymize_error raw identity authorized : err_of (anonymizeAccountJSON raw identity authorized) ≠ Some ErrNotFound.
Proof. unfold anonymizeAccountJSON. by repeat case_match. Qed.

Lemma validate_other_error s userID identity :
  validateAccountDeletionJSONLocked s userID identity ≠ Some ErrNotFound.
Proof.
  intros (cid & Hc)%firstError_some. unfold validateConversation in Hc. case_match; [done|].
  destruct (err_of (AnonymizeAccountJSON _ _)) eqn:Ha.
  { simplify_eq. by apply anonymize_error in Ha. }
  apply firstError_some in Hc as ([key e] & He). cbn in He. case_match; [|done].
  unfold entityErased in He. destruct (AccountJSONReferencesIdentity _ _) eqn:Hr; cbn in He.
  - case_match; [done|].
    pose proof (anonymize_error (Entity_Payload e) identity true) as Hn.
    unfold AnonymizeAccountJSONWithAuthority in He. by destruct (anonymizeAccountJSON _ _ _) as [[? []]|].
  - unfold AccountJSONReferencesIdentity in Hr. repeat case_match; by simplify_eq.
Qed.

Lemma validate_valid s userID identity cid :
  validateConversation s userID identity cid = None → conversation_valid s userID identity cid.
Proof.
  unfold validateConversation, conversation_valid, inner. intros Hv members Hm Hl. rewrite Hm in Hv. cbn in Hv.
  assert (bool_decide (size members = 0) || bool_decide (is_Some (members !! userID)) && (size members <=? 1)%nat = false)
    as Hg.
  { unfold lastMember in Hl. apply orb_false_iff in Hl as [Hz H1]. rewrite Hz. cbn.
    apply bool_decide_eq_false in Hz. destruct (bool_decide (is_Some _)); [|done]. cbn [andb] in *.
    apply bool_decide_eq_false in H1. apply Nat.leb_gt. lia. }
  rewrite Hg in Hv. destruct (err_of (AnonymizeAccountJSON _ _)) eqn:Ha; [done|]. split; [by apply err_of_none|].
  intros key e Hk He. pose proof (firstError_none _ _ (key, e) Hv) as Hc. cbn in Hc.
  rewrite bool_decide_true in Hc by done. apply err_of_none, Hc. by apply elem_of_range.
Qed.

Lemma valid_kept s s' userID identity cid i :
  others_kept s s' cid → i ≠ cid → conversation_valid s userID identity i → conversation_valid s' userID identity i.
Proof.
  intros Hk Hi Hv members Hm Hl. destruct (Hk i Hi) as (H1 & H2 & H3). rewrite H1 in Hm.
  destruct (Hv members Hm Hl) as [V1 V2]. split.
  - unfold conversation_or_zero in *. by rewrite H2.
  - intros key e He Hc. apply (V2 key); [|done]. by apply H3.
Qed.

Lemma eraseEntities_ok identity userID cid now rows s updated :
  (∀ key e, (key, e) ∈ rows → Entity_ConversationID e = cid → is_ok (entityErased identity userID e) = true) →
  (eraseEntities identity userID cid now rows s updated).2 = None.
Proof.
  revert s updated. induction rows as [|[key entity] rows IH]; intros s updated Hok; [done|]. cbn.
  assert (∀ key e, (key, e) ∈ rows → Entity_ConversationID e = cid → is_ok (entityErased identity userID e) = true)
    as Hok' by (intros k e Hin; apply (Hok k); by right).
  case_bool_decide as Hc; cbn; [|by apply IH].
  pose proof (Hok key entity ltac:(left) Hc) as Hx. destruct (entityErased _ _ _) as [[|]|]; [by apply IH..|done].
Qed.

Lemma eraseConversation_ok userID identity now s p cid :
  conversation_valid s userID identity cid → (eraseConversation userID identity now s p cid).2 = None.
Proof.
  intros Hv. unfold eraseConversation. destruct (Store_members s !! cid) as [members|] eqn:Hm; [|done].
  destruct (lastMember members userID) eqn:Hl; [done|]. destruct (Hv members Hm Hl) as [H1 H2].
  destruct (AnonymizeAccountJSON _ _) as [[metadata c]|e]; [|done].
  set (s1 := handOver s userID now cid members metadata).
  set (s2 := (projectConversationMembersLocked s1 cid).1).
  set (s3 := s2 <| Store_receipts ::= delete (uuidPairKey cid userID) |>).
  assert (Store_entities s3 = Store_entities s) as Hents.
  { destruct (project_tables s1 cid) as (_ & P2 & _). unfold s3. cbn. unfold s2. rewrite P2.
    unfold s1, handOver. by repeat case_match. }
  match goal with |- context [eraseEntities ?a ?b ?c ?d ?rows ?st ?u] =>
    pose proof (eraseEntities_ok a b c d rows st u) as Hok;
    destruct (eraseEntities a b c d rows st u) as [[s4 updated] err] end.
  cbn in *. apply Hok. intros key e Hin%elem_of_range. rewrite Hents in Hin. by apply (H2 key).
Qed.

Lemma eraseConversations_ok userID identity now cids s p :
  NoDup cids → (∀ cid, cid ∈ cids → conversation_valid s userID identity cid) →
  (eraseConversations userID identity now cids s p).2 = None.
Proof.
  revert s p. induction cids as [|cid cids IH]; intros s p Hnd Hv; [done|]. cbn.
  apply NoDup_cons in Hnd as [Hn Hnd].
  pose proof (eraseConversation_ok userID identity now s p cid (Hv cid ltac:(left))) as Hok.
  destruct (eraseConversation_frame userID identity now s p cid) as [_ Hkept].
  destruct (eraseConversation userID identity now s p cid) as [[s1 p1] err]. cbn in *. subst err.
  apply IH; [done|]. intros i Hi. apply (valid_kept s s1 _ _ cid); [done| |apply Hv; by right].
  intros ->. done.
Qed.

Lemma scope_NoDup s userID : NoDup (accountConversationScopeLocked s userID).
Proof. unfold accountConversationScopeLocked. rewrite merge_sort_Permutation. apply NoDup_fst_range. Qed.

Lemma validated_loop_ok s userID identity now p :
  validateAccountDeletionJSONLocked s userID identity = None →
  (eraseConversations userID identity now (accountConversationScopeLocked s userID) s p).2 = None.
Proof.
  intros Hv. apply eraseConversations_ok; [apply scope_NoDup|]. intros cid Hcid.
  apply validate_valid. by apply (firstError_none _ _ _ Hv).
Qed.

Lemma deleteAccountLocked_atomic s userID clock s' e : deleteAccountLocked s userID clock = (s', Some e) → s' = s.
Proof.
  unfold deleteAccountLocked. destruct (live_user s userID) as [user|]; [|by intros [= <- _]].
  set (identity := mkAccountIdentity _ _ _ _ _).
  destruct (validateAccountDeletionJSONLocked s userID identity) eqn:Hv; [by intros [= <- _]|].
  pose proof (validated_loop_ok s userID identity (clock 0) (mkProgress ∅ ∅ []) Hv) as Hok.
  destruct (eraseConversations _ _ _ _ _ _) as [[s1 p] err]. cbn in Hok. by subst err.
Qed.

(** A live account is found. *)
Lemma deleteAccountLocked_found s userID clock user :
  live_user s userID = Some user → (deleteAccountLocked s userID clock).2 ≠ Some ErrNotFound.
Proof.
  intros Hl. unfold deleteAccountLocked. rewrite Hl. set (identity := mkAccountIdentity _ _ _ _ _).
  destruct (validateAccountDeletionJSONLocked s userID identity) as [e|] eqn:Hv.
  - cbn. intros [= ->]. by apply (validate_other_error s userID identity).
  - pose proof (validated_loop_ok s userID identity (clock 0) (mkProgress ∅ ∅ []) Hv) as Hok.
    destruct (eraseConversations _ _ _ _ _ _) as [[s1 p] err]. cbn in Hok. by subst err.
Qed.

(** C25. A deletion that fails leaves no trace: whenever executing a deletion
    intent returns an error (a wrong token, a callback that fails, a document that cannot be
    sanitized), the store is exactly as before.  The loop over the conversations writes as
    it goes and has error paths of its own; they are never taken, because every document it
    meets was checked before the first write and no conversation changes the documents of
    another. *)
Theorem failed_deletion_changes_nothing s requestID tokenHash fence clock s' e :
  ExecuteAccountDeletionIntent s requestID tokenHash fence clock = (s', Some e) → s' = s.
Proof.
  unfold ExecuteAccountDeletionIntent. intros He.
  repeat (case_match; simplify_eq/=; try done).
  all: by eapply deleteAccountLocked_atomic.
Qed.

(** ** Leaving the conversations *)

Lemma olderOf_member excluded l result members :
  (∀ id m, (id, m) ∈ l → members !! id = Some m) →
  (∃ id m, (id, m) ∈ l ∧ id ≠ excluded) ∧ ConversationMember_UserID result = uuid_Nil ∨
    (∃ id, id ≠ excluded ∧ members !! id = Some result) →
  ∃ id, id ≠ excluded ∧ members !! id = Some (foldl (olderOf excluded) result l).
Proof.
  revert result. induction l as [|[id m] l IH]; intros result Hl Hr; cbn.
  { destruct Hr as [[(id & m & Hin & _) _]|?]; [by apply not_elem_of_nil in Hin|done]. }
  apply IH; [intros; apply Hl; by right|]. unfold olderOf. case_bool_decide as Hid.
  - destruct Hr as [[(i & x & Hin & Hne) Hnil]|?]; [left|by right].
    apply elem_of_cons in Hin as [[= -> ->]|Hin]; [done|]. eauto.
  - assert (members !! id = Some m) as Hm by (apply Hl; left).
    destruct Hr as [[_ Hnil]|Hr]; [rewrite (bool_decide_true _ Hnil); cbn; eauto|].
    destruct (_ || _ : bool); eauto.
Qed.

Lemma oldestMember_spec members excluded :
  (∃ id, id ≠ excluded ∧ is_Some (members !! id)) →
  ∃ id, id ≠ excluded ∧ members !! id = Some (oldestMember members excluded).
Proof.
  intros (id & Hne & m & Hm). apply olderOf_member; [by intros i x Hx%elem_of_range|].
  left. split; [|done]. exists id, m. split; [by apply elem_of_range|done].
Qed.

(** Somebody else is there when the user is not the last member. *)
Lemma another_member members userID :
  lastMember members userID = false → is_Some (members !! userID) →
  ∃ id, id ≠ userID ∧ is_Some (members !! id).
Proof.
  unfold lastMember. intros [Hz Ho]%orb_false_iff Hu. rewrite bool_decide_true in Ho by done. cbn [andb] in Ho. bool_prop.
  destruct Hu as [m Hm]. destruct (map_choose (delete userID members)) as (id & x & Hx).
  - intros He%(f_equal size). rewrite map_size_delete_Some in He by eauto. rewrite map_size_empty in He.
    lia.
  - apply lookup_delete_Some in Hx as [Hne Hx]. eauto.
Qed.

(** The members that stay. *)
Definition leftMembers members userID : gmap UUID ConversationMember :=
  match members !! userID with
  | None => members
  | Some member =>
    let successor := oldestMember members userID in
    delete userID
      (if bool_decide (ConversationMember_Role member = "owner")
       then <[ConversationMember_UserID successor := successor <| ConversationMember_Role := "owner" |>]> members
       else members)
  end.

Lemma leftMembers_gone members userID : leftMembers members userID !! userID = None.
Proof. unfold leftMembers. destruct (members !! userID) eqn:Hm; [by rewrite lookup_delete_eq|done]. Qed.

(** Nobody else leaves, and nobody joins. *)
Lemma leftMembers_others cid members userID v :
  rows_ok cid members → lastMember members userID = false → v ≠ userID →
  is_Some (leftMembers members userID !! v) ↔ is_Some (members !! v).
Proof.
  intros Hr Hl Hv. unfold leftMembers. destruct (members !! userID) as [member|] eqn:Hm; [|done].
  rewrite lookup_delete_ne by done. case_bool_decide; [|done].
  destruct (oldestMember_spec members userID) as (id & Hid & Hs).
  { apply another_member; [done|by eexists]. }
  destruct (Hr _ _ Hs) as [_ Hu]. rewrite Hu. destruct (decide (id = v)) as [->|Hne].
  - rewrite lookup_insert_eq. split; eauto.
  - by rewrite lookup_insert_ne.
Qed.

Lemma handOver_members s userID now cid members metadata :
  Store_members s !! cid = Some members →
  Store_members (handOver s userID now cid members metadata) !! cid = Some (leftMembers members userID).
Proof.
  intros Hm. unfold handOver, leftMembers. destruct (members !! userID); [|done].
  case_bool_decide; cbn; by rewrite lookup_insert_eq.
Qed.

(** One conversation of the loop. *)
Lemma eraseConversation_members userID identity now s p cid members s' p' :
  Store_members s !! cid = Some members →
  eraseConversation userID identity now s p cid = (s', p', None) →
  lastMember members userID = true ∧ s' = dropConversation s cid ∧
    Progress_deleted p' = {[cid]} ∪ Progress_deleted p ∨
  lastMember members userID = false ∧ Store_members s' !! cid = Some (leftMembers members userID) ∧
    Progress_deleted p' = Progress_deleted p.
Proof.
  intros Hm. unfold eraseConversation. rewrite Hm. destruct (lastMember members userID).
  { intros [= <- <-]. by left. }
  destruct (AnonymizeAccountJSON _ _) as [[metadata c]|e]; [|done].
  set (s1 := handOver s userID now cid members metadata).
  match goal with |- context [eraseEntities ?a ?b ?c ?d ?rows ?st ?u] =>
    destruct (eraseEntities_only a b c d rows st u) as (_ & H2 & _);
    destruct (eraseEntities a b c d rows st u) as [[s4 updated] err] end.
  intros [= <- <- ->]. right. split_and!; [done| |done]. cbn in H2. rewrite H2.
  destruct (project_tables s1 cid) as (-> & _). by apply handOver_members.
Qed.

Lemma leftMembers_ok cid members userID :
  rows_ok cid members → lastMember members userID = false → rows_ok cid (leftMembers members userID).
Proof.
  intros Hr Hl u m. unfold leftMembers. destruct (members !! userID) as [member|] eqn:Hm; [|apply Hr].
  intros [_ Hx]%lookup_delete_Some. revert Hx. case_bool_decide; [|apply Hr].
  intros [[<- <-]|[_ Hx]]%lookup_insert_Some; [|by apply Hr]. cbn.
  destruct (oldestMember_spec members userID) as (id & _ & Hs).
  { apply another_member; [done|by eexists]. }
  by destruct (Hr _ _ Hs).
Qed.

Lemma leftMembers_size members userID :
  (∀ cid, rows_ok cid members → lastMember members userID = false →
    size (leftMembers members userID) ≤ size members).
Proof.
  intros cid Hr Hl. unfold leftMembers. destruct (members !! userID) as [member|] eqn:Hm; [|done].
  case_bool_decide.
  - destruct (oldestMember_spec members userID) as (id & Hid & Hs).
    { apply another_member; [done|by eexists]. }
    destruct (Hr _ _ Hs) as [_ ->].
    rewrite map_size_delete_Some by (rewrite lookup_insert_ne by done; by eexists).
    rewrite map_size_insert_Some by by eexists. lia.
  - rewrite map_size_delete_Some by by eexists. lia.
Qed.

(** The row [handOver] writes. *)
Lemma handOver_conversation s userID now cid members metadata c :
  Store_conversations s !! cid = Some c → owner_ok (Conversation_CreatedBy c) members →
  rows_ok cid members → lastMember members userID = false →
  ∃ c', Store_conversations (handOver s userID now cid members metadata) = <[cid := c']> (Store_conversations s) ∧
    Conversation_ID c' = Conversation_ID c ∧ owner_ok (Conversation_CreatedBy c') (leftMembers members userID).
Proof.
  intros Hc [Hmem Hown] Hr Hl. unfold handOver, leftMembers, conversation_or_zero. rewrite Hc. cbn [default].
  destruct (members !! userID) as [member|] eqn:Hm.
  - case_bool_decide as Hrole.
    + destruct (oldestMember_spec members userID) as (id & Hid & Hs).
      { apply another_member; [done|by eexists]. }
      destruct (Hr _ _ Hs) as [_ Hu]. eexists. split_and!; [reflexivity|by case_bool_decide|]. cbn.
      rewrite Hu. split.
      * rewrite lookup_delete_ne, lookup_insert_eq by done. eauto.
      * intros u m [Hne Hx]%lookup_delete_Some. apply lookup_insert_Some in Hx as [[<- <-]|[Hne' Hx]]; [done|].
        rewrite (Hown u m Hx). apply (Hown userID member Hm) in Hrole as ->. naive_solver.
    + assert (Conversation_CreatedBy c ≠ userID) as Hcb.
      { intros He. apply Hrole, (Hown userID member Hm). done. }
      rewrite (bool_decide_false _ Hcb). eexists. split_and!; [reflexivity|done|]. cbn. split.
      * by rewrite lookup_delete_ne.
      * intros u m [_ Hx]%lookup_delete_Some. by apply Hown.
  - assert (Conversation_CreatedBy c ≠ userID) as Hcb.
    { intros <-. rewrite Hm in Hmem. by destruct Hmem. }
    rewrite (bool_decide_false _ Hcb). eexists. split_and!; [reflexivity|done|done].
Qed.

Lemma handOver_other_tables s userID now cid members metadata :
  Store_members s !! cid = Some members →
  Store_members (handOver s userID now cid members metadata) =
    <[cid := leftMembers members userID]> (Store_members s).
Proof.
  intros Hm. unfold handOver, leftMembers. destruct (members !! userID); [by case_bool_decide|].
  cbn. by rewrite insert_id.
Qed.

Lemma eraseConversation_conv_inv userID identity now s p cid s' p' :
  conv_inv s → eraseConversation userID identity now s p cid = (s', p', None) → conv_inv s'.
Proof.
  intros Hs. unfold eraseConversation. destruct (Store_members s !! cid) as [members|] eqn:Hm.
  2: { by intros [= <- <-]. }
  destruct (lastMember members userID) eqn:Hl.
  { intros [= <- <-]. destruct Hs as [Hdom Hid Hrows Hown Hsize]. split; cbn.
    - intros i. destruct (decide (i = cid)) as [->|]; [by rewrite !lookup_delete_eq|].
      rewrite !lookup_delete_ne by done. apply Hdom.
    - intros i c [_ ?]%lookup_delete_Some. eauto.
    - intros i ms [_ ?]%lookup_delete_Some. eauto.
    - intros i c ms [_ ?]%lookup_delete_Some [_ ?]%lookup_delete_Some. eauto.
    - intros i ms [_ ?]%lookup_delete_Some. eauto. }
  destruct (AnonymizeAccountJSON _ _) as [[metadata c0]|e]; [|done].
  set (s1 := handOver s userID now cid members metadata).
  match goal with |- context [eraseEntities ?a ?b ?c ?d ?rows ?st ?u] =>
    destruct (eraseEntities_only a b c d rows st u) as (_ & H2 & H3 & _);
    destruct (eraseEntities a b c d rows st u) as [[s4 updated] err] end.
  intros [= <- <- ->]. cbn in H2, H3. apply (conv_inv_frame (projectConversationMembersLocked s1 cid).1); [done..|].
  assert (conv_inv s1) as Hs1.
  { pose proof (proj2 (ci_dom s Hs cid)) as [c Hc]; [by eexists|].
    pose proof (ci_rows s Hs cid members Hm) as Hr.
    destruct (handOver_conversation s userID now cid members metadata c Hc (ci_owner s Hs _ _ _ Hc Hm) Hr Hl)
      as (c' & Hc' & Hid & Ho).
    apply (conv_inv_put s s1 cid c' (leftMembers members userID)); [done|done|by apply handOver_other_tables| | |done|].
    - rewrite Hid. by apply (ci_id s Hs).
    - by apply leftMembers_ok.
    - etrans; [by apply (leftMembers_size members userID cid)|by apply (ci_size s Hs cid)]. }
  destruct (projectConversationMembersLocked_tables s1 cid) as [Hm3 [Hc3|(c2 & c3 & Hc2 & Hid & Hcb & Hc3)]].
  - by apply (conv_inv_frame s1).
  - by eapply (conv_inv_row s1 _ cid c2).
Qed.

(** The whole loop. *)
Lemma eraseConversations_spec userID identity now cids s p s' p' :
  NoDup cids → eraseConversations userID identity now cids s p = (s', p', None) →
  only_conversations s s' ∧
  (conv_inv s → conv_inv s') ∧
  (∀ i, i ∉ cids → Store_members s' !! i = Store_members s !! i) ∧
  (∀ i members, i ∈ cids → Store_members s' !! i = Some members → members !! userID = None) ∧
  (∀ i, i ∈ Progress_deleted p' → i ∈ Progress_deleted p ∨
     i ∈ cids ∧ ∃ members, Store_members s !! i = Some members ∧ lastMember members userID = true) ∧
  (∀ i members v, conv_inv s → Store_members s !! i = Some members → v ≠ userID → is_Some (members !! v) →
     ∃ members', Store_members s' !! i = Some members' ∧ is_Some (members' !! v)).
Proof.
  revert s p. induction cids as [|cid cids IH]; intros s p Hnd; cbn.
  { intros [= <- <-]. split_and!; [apply only_conversations_refl|done|done|by intros i ms ?%not_elem_of_nil|auto|eauto]. }
  apply NoDup_cons in Hnd as [Hn Hnd].
  destruct (eraseConversation userID identity now s p cid) as [[s1 p1] [e|]] eqn:He; [done|].
  pose proof (eraseConversation_frame userID identity now s p cid) as [Ho Hk]. rewrite He in Ho, Hk. cbn in Ho, Hk.
  pose proof (λ members Hm, eraseConversation_members userID identity now s p cid members s1 p1 Hm He) as Hcase.
  intros (A1 & A2 & A3 & A4 & A5 & A6)%(IH s1 p1); [|done].
  assert (Store_members s !! cid = None → s1 = s ∧ p1 = p) as Hnone.
  { intros Hm. unfold eraseConversation in He. rewrite Hm in He. by simplify_eq. }
  split_and!.
  - by eapply only_conversations_trans.
  - intros Hi. by eapply A2, eraseConversation_conv_inv.
  - intros i [Hi1 Hi2]%not_elem_of_cons. rewrite A3 by done. by apply Hk.
  - intros i members [->|Hi]%elem_of_cons; [|by apply A4]. rewrite A3 by done. intros Hm1.
    destruct (Store_members s !! cid) as [ms|] eqn:Hm.
    + destruct (Hcase ms eq_refl) as [(_ & -> & _)|(_ & H1 & _)].
      * cbn in Hm1. by rewrite lookup_delete_eq in Hm1.
      * rewrite H1 in Hm1. injection Hm1 as <-. apply leftMembers_gone.
    + destruct (Hnone eq_refl) as [-> _]. congruence.
  - intros i [Hi|(Hi & ms & Hms & Hl)]%A5.
    + destruct (Store_members s !! cid) as [ms|] eqn:Hm.
      * destruct (Hcase ms eq_refl) as [(Hl & _ & Hd)|(_ & _ & Hd)]; rewrite Hd in Hi; [|by left].
        apply elem_of_union in Hi as [->%elem_of_singleton|Hi]; [right; split; [left|eauto]|by left].
      * destruct (Hnone eq_refl) as [_ ->]. by left.
    + right. split; [by right|]. exists ms. split; [|done]. rewrite <-Hms. symmetry. apply Hk. intros ->. done.
  - intros i members v Hi Hm Hv Hx. assert (conv_inv s1) as Hi1 by by eapply eraseConversation_conv_inv.
    destruct (decide (i = cid)) as [->|Hne].
    + destruct (Hcase members Hm) as [(Hl & _)|(Hl & H1 & _)].
      * exfalso. unfold lastMember in Hl. destruct Hx as [x Hx]. apply orb_true_iff in Hl as [Hz|Hz].
        { apply bool_decide_eq_true, map_size_empty_inv in Hz. subst. by rewrite lookup_empty in Hx. }
        apply andb_true_iff in Hz as [[y Hy]%bool_decide_eq_true Hz%bool_decide_eq_true].
        assert (delete userID members = ∅) as Hempty.
        { apply map_size_empty_inv. rewrite map_size_delete_Some by by eexists. lia. }
        assert (delete userID members !! v = Some x) as Hdel by by rewrite lookup_delete_ne.
        by rewrite Hempty, lookup_empty in Hdel.
      * apply (A6 cid (leftMembers members userID) v Hi1 H1 Hv).
        apply (leftMembers_others cid); [by apply (ci_rows s Hi)|done..].
    + apply (A6 i members v Hi1); [|done|done]. rewrite <-Hm. by apply Hk.
Qed.

(** ** The shape of a deletion that succeeds *)

Lemma appendUpdated_grows s updated clock : ∃ evs, outbox_grows s (appendUpdated s updated clock) evs.
Proof.
  revert s clock. induction updated as [|entity updated IH]; intros s clock; cbn.
  { exists []. apply outbox_grows_refl. }
  edestruct IH as [evs Hg]. eexists. eapply outbox_grows_trans; [apply appendOutboxAt_grows|exact Hg].
Qed.

Lemma appendSorted_grows s userID keys notBefore clock :
  ∃ evs, outbox_grows s (appendSorted s userID keys notBefore clock) evs.
Proof.
  unfold appendSorted. case_bool_decide; [exists []; apply outbox_grows_refl|].
  edestruct appendMediaDeletesAt_grows as (evs & _ & Hg & _). by exists evs.
Qed.

Definition identityOf userID (user : User) : AccountIdentity :=
  mkAccountIdentity userID (User_Email user) (User_Phone user) (User_DisplayName user)
    (profileUsername (User_Profile user)).

(** The loop over the conversations, the tables, the outbox, and appends. *)
Lemma deleteAccountLocked_shape s userID clock s' :
  deleteAccountLocked s userID clock = (s', None) →
  ∃ user s1 p evs,
    live_user s userID = Some user ∧
    eraseConversations userID (identityOf userID user) (clock 0) (accountConversationScopeLocked s userID) s
      (mkProgress ∅ ∅ []) = (s1, p, None) ∧
    outbox_grows
      (eraseOutbox (eraseTables s1 p userID user (identityOf userID user) (clock 0)) p userID
         (identityOf userID user) (deletedDeviceIDs s1 userID)) s' evs.
Proof.
  unfold deleteAccountLocked. destruct (live_user s userID) as [user|]; [|done].
  fold (identityOf userID user). destruct (validateAccountDeletionJSONLocked _ _ _); [done|].
  destruct (eraseConversations _ _ _ _ _ _) as [[s1 p] [e|]] eqn:He; [done|]. intros [= <-].
  match goal with |- context [appendSorted (appendSorted (appendUpdated ?s2 ?u ?c) ?a ?b ?d ?e) ?f ?g ?h ?i] =>
    destruct (appendUpdated_grows s2 u c) as [e1 G1];
    destruct (appendSorted_grows (appendUpdated s2 u c) a b d e) as [e2 G2];
    destruct (appendSorted_grows (appendSorted (appendUpdated s2 u c) a b d e) f g h i) as [e3 G3] end.
  exists user, s1, p, (e1 ++ e2 ++ e3). split_and!; [done|done|].
  by eapply outbox_grows_trans, outbox_grows_trans.
Qed.

Lemma elem_of_scope s userID cid :
  cid ∈ accountConversationScopeLocked s userID ↔
  (∃ members, Store_members s !! cid = Some members ∧ is_Some (members !! userID)) ∨
  (∃ tombstones, Store_memberTombstones s !! cid = Some tombstones ∧ is_Some (tombstones !! userID)).
Proof.
  unfold accountConversationScopeLocked. set (l := _ ++ _).
  assert (cid ∈ l ↔ cid ∈ merge_sort uuid_text_le (range (list_to_map ((λ id, (id, tt)) <$> l) : gmap UUID unit)).*1)
    as <-.
  { rewrite merge_sort_Permutation. rewrite list_elem_of_fmap. split.
    - intros Hin. exists (cid, tt). split; [done|]. apply elem_of_range.
      assert (is_Some ((list_to_map ((λ id, (id, tt)) <$> l) : gmap UUID unit) !! cid)) as [[] Hs]; [|done].
      apply not_eq_None_Some. rewrite <-not_elem_of_list_to_map. intros Hn. apply Hn.
      rewrite <-list_fmap_compose. apply list_elem_of_fmap. by exists cid.
    - intros ([? []] & -> & Hin%elem_of_range%elem_of_list_to_map_2).
      apply list_elem_of_fmap in Hin as (x & [= ->] & Hx). done. }
  unfold l. rewrite elem_of_app, !list_elem_of_fmap. split.
  - intros [([i x] & -> & [Hx Hb]%elem_of_bool_filter)|([i x] & -> & [Hx Hb]%elem_of_bool_filter)];
      apply elem_of_range in Hx; apply bool_decide_eq_true in Hb; eauto.
  - intros [(x & Hx & Hb)|(x & Hx & Hb)]; [left|right]; exists (cid, x); (split; [done|]);
      apply elem_of_bool_filter; (split; [by apply elem_of_range|by apply bool_decide_eq_true]).
Qed.
End erasure.

Section witnesses.
#[local] Existing Instance Reference.runtime.
#[local] Existing Instance ReferenceText.text.

(** Two members share a conversation whose metadata is not JSON. *)
Definition leaver : UUID := uuid_of_N 1.
Definition tokenHash : string := "0123456789abcdef0123456789abcdef".
Definition requestID : UUID := uuid_of_N 77.
Definition leave_clock : Clock := λ i, Z.of_nat (S i).

Definition row (cid id : UUID) (role : string) (joined : Z) : ConversationMember :=
  mkConversationMember cid id role joined None "" "" "" "" "".

Definition shared_store (metadata : RawMessage) : Store :=
  let cid := uuid_of_N 9 in
  New <| Store_users ::= <[leaver := mkUser leaver "ann@example.com" "" "Ann" "" RawNil "hash" 1 1]> |>
      <| Store_conversations ::= <[cid := mkConversation cid "group" "" "" metadata leaver 0 1 1]> |>
      <| Store_members ::= <[cid := <[uuid_of_N 2 := row cid (uuid_of_N 2) "member" 2]>
                                      (<[leaver := row cid leaver "owner" 1]> ∅)]> |>
      <| Store_accountDeletionIntents ::= <[requestID :=
           mkAccountDeletionIntent requestID leaver tokenHash AccountDeletionPending 1 None]> |>.

Definition broken_store : Store := shared_store (RawInvalid "{").
Definition broken_run : Store * option Error :=
  ExecuteAccountDeletionIntent broken_store requestID tokenHash (λ _, None) leave_clock.

Lemma failed_deletion_changes_nothing_witness :
  broken_run.2 = Some (ErrOther "invalid JSON") ∧ broken_run.1 = broken_store.
Proof.
  assert (broken_run.2 = Some (ErrOther "invalid JSON")) as He by (vm_compute; reflexivity).
  split; [exact He|].
  apply (failed_deletion_changes_nothing broken_store requestID tokenHash (λ _, None) leave_clock
           broken_run.1 (ErrOther "invalid JSON")).
  apply pair_run. exact He.
Defined.
End witnesses.
