(* ===== verification/ErasureEffects.v ===== *)
(** * What account erasure achieves

    The effects of a deletion that succeeds ([Erasure.v]): the specification [Erased] of
    what is gone, the invariant of the conversations, what other people keep, and the
    deletion of the media. *)

From Stdlib Require Import ZArith Lia.
From S2P Require Import Prelude.
From S2P Require Import Runtime.
From S2P Require Import Domain.
From S2P Require Import StoreState.
From S2P Require Import Accounts.
From S2P Require Import Conversations.
From S2P Require Import Membership.
From S2P Require Import Media.
From S2P Require Import MediaLifecycle.
From S2P Require Import Anonymize.
From S2P Require Import Erasure.

Section effects.
Context `{AccountText}.
Implicit Types (s : Store) (userID : UUID) (user : User) (clock : Clock).

(** What a deleted account leaves behind: a blank row that marks the deletion, device
    rows without names, tokens and keys, and nothing else that leads to the user.  [s] is
    the store before the deletion, which knows whose challenge a mail belonged to. *)
Record Erased s s' userID : Prop := {
  er_user : ∃ u, Store_users s' !! userID = Some u ∧ profile_deleted (User_Profile u) = true ∧
    User_Email u = "" ∧ User_Phone u = "" ∧ User_DisplayName u = DeletedUserDisplayName ∧
    User_AvatarURL u = "" ∧ User_PasswordHash u = "";
  er_email key : key ≠ "" → Store_emailToUser s' !! key ≠ Some userID;
  er_phone key : key ≠ "" → Store_phoneToUser s' !! key ≠ Some userID;
  er_username key : key ≠ "" → Store_usernameToUser s' !! key ≠ Some userID;
  er_external key : Store_externalUsers s' !! key ≠ Some userID;
  er_age : Store_ageAssurances s' !! userID = None;
  er_resets id c : Store_passwordResets s' !! id = Some c → PasswordResetChallenge_UserID c ≠ userID;
  er_mail id d c : Store_mailDeliveries s' !! id = Some d →
    Store_passwordResets s !! MailDelivery_ChallengeID d = Some c → PasswordResetChallenge_UserID c ≠ userID;
  er_sessions id x : Store_sessions s' !! id = Some x → Session_UserID x ≠ userID;
  er_devices id d : Store_devices s' !! id = Some d → Device_UserID d = userID →
    Device_Name d = "Deleted device" ∧ Device_PushToken d = "" ∧ Device_IdentityKey d = "" ∧
    Device_SignedPreKey d = RawNil ∧ Store_preKeys s' !! id = None;
  er_push id d device : Store_pushDeliveries s' !! id = Some d →
    Store_devices s' !! PushDelivery_DeviceID d = Some device → Device_UserID device ≠ userID;
  er_members cid members : Store_members s' !! cid = Some members → members !! userID = None;
  er_receipts key r : Store_receipts s' !! key = Some r → Receipt_UserID r ≠ userID;
  er_invites cid phones phone : Store_invites s' !! cid = Some phones → phones !! phone ≠ Some userID;
  er_links key invite : Store_inviteLinks s' !! key = Some invite →
    ConversationInvite_CreatedBy invite = userID → is_Some (ConversationInvite_RevokedAt invite);
  er_media id v : Store_media s' !! id = Some v → MediaObject_OwnerID v = userID →
    MediaObject_Scope v ≠ MediaScopeProfile ∧
    (MediaObject_Scope v = MediaScopeConversation → MediaObject_Status v ≠ "pending") }.

(** Emails are stored in their normalized form. *)
Definition emails_normal s : Prop :=
  ∀ id u, Store_users s !! id = Some u → normalizeEmail (User_Email u) = User_Email u.

Lemma normalizeEmail_idem email : normalizeEmail (normalizeEmail email) = normalizeEmail email.
Proof. unfold normalizeEmail. by rewrite TrimSpace_ToLower, ToLower_idem. Qed.

(** Writing one row keeps emails normalized; the account operations do nothing else. *)
Lemma emails_normal_put s s' id u :
  emails_normal s → Store_users s' = <[id := u]> (Store_users s) →
  normalizeEmail (User_Email u) = User_Email u → emails_normal s'.
Proof.
  intros Hs Hu He i x. rewrite Hu. intros [[_ <-]|[_ Hx]]%lookup_insert_Some; [done|by apply (Hs i)].
Qed.

Lemma mergeProfile_users s id u patch existing now :
  ∃ u', Store_users (mergeProfile s id u patch existing now).1 = <[id := u']> (Store_users s) ∧
    User_Email u' = User_Email u.
Proof. unfold mergeProfile. eexists. split; [reflexivity|]. by repeat case_match. Qed.

Lemma emails_normal_step s op : emails_normal s → emails_normal (account_step s op).
Proof.
  intros Hs. destruct op; cbn [account_step].
  - unfold CreateUser, insertUser. repeat case_match; simplify_eq/=; try done;
      (eapply emails_normal_put; [exact Hs|reflexivity|apply normalizeEmail_idem]).
  - unfold UpdateUserProfile. destruct (live_user s id) as [u|] eqn:Hl; [|done].
    apply live_user_some in Hl as [Hu _]. pose proof (Hs _ _ Hu) as He.
    assert (∀ s1 patch existing, Store_users s1 = Store_users s →
      emails_normal (mergeProfile s1 id u patch existing (clock 0)).1) as Hmerge.
    { intros s1 patch existing Hs1. destruct (mergeProfile_users s1 id u patch existing (clock 0)) as (u' & Hu' & He').
      rewrite Hs1 in Hu'. eapply emails_normal_put; [exact Hs|exact Hu'|]. by rewrite He'. }
    repeat case_match; try done; [|by apply Hmerge]. apply Hmerge. unfold moveUsername. by repeat case_match.
  - unfold UpdateUserPhone. destruct (live_user s id) as [u|] eqn:Hl; [|done].
    apply live_user_some in Hl as [Hu _]. repeat case_match; try done;
      (eapply emails_normal_put; [exact Hs|reflexivity|exact (Hs _ _ Hu)]).
  - unfold LinkExternalIdentity. by repeat case_match.
  - unfold UpsertAgeAssurance. by repeat case_match.
  - unfold PutAccountDeletionIntent. by repeat case_match.
Qed.

Lemma emails_normal_reachable s : account_reachable s → emails_normal s.
Proof. induction 1; [done|by apply emails_normal_step]. Qed.

(** An index entry of the user is the one that is deleted. *)
Lemma index_erased (users : gmap UUID User) (attr : User → string) index userID u key :
  index_of users attr index → users !! userID = Some u → key ≠ "" →
  delete (attr u) index !! key ≠ Some userID.
Proof.
  intros Hi Hu Hk Hx. apply lookup_delete_Some in Hx as [Hne Hx].
  apply Hi in Hx as (v & Hv & Ha); [|done]. simplify_eq.
Qed.

(** ** Media *)

(** The key of [v] is in a fresh deletion event. *)
Definition scheduled s v : Prop :=
  ∃ ev, ev ∈ Store_outbox s ∧ OutboxEvent_Topic ev = "media.delete" ∧ fresh_event ev ∧
    MediaObject_ObjectKey v ∈ event_keys ev.

Lemma queued_scheduled s v : queued s v → scheduled s v.
Proof. intros (ev & H1 & H2 & H3 & H4 & _). by exists ev. Qed.

Lemma scheduled_grows s s' evs v : outbox_grows s s' evs → scheduled s v → scheduled s' v.
Proof. intros [n ->] (ev & Hin & Hrest). exists ev. split; [|done]. apply elem_of_app. by left. Qed.

Lemma queued_sorted s userID keys notBefore clock v :
  MediaObject_ObjectKey v ∈ keys → (MediaObject_UploadValidUntil v + MediaDeleteGrace ≤ notBefore)%Z →
  queued (appendSorted s userID keys notBefore clock) v.
Proof.
  intros Hk Hle. unfold appendSorted. rewrite bool_decide_false by (intros ->; by apply not_elem_of_nil in Hk).
  apply queued_append; [|done]. by rewrite merge_sort_Permutation.
Qed.

Lemma scheduled_sorted s userID keys notBefore clock v :
  MediaObject_ObjectKey v ∈ keys → scheduled (appendSorted s userID keys notBefore clock) v.
Proof.
  intros Hk. unfold appendSorted. rewrite bool_decide_false by (intros ->; by apply not_elem_of_nil in Hk).
  destruct (appendMediaDeletesAt_grows s userID (merge_sort String.le keys) notBefore clock)
    as (evs & all & [n ->] & Hev & _ & Hall).
  destruct (elem_of_event_keys _ _ _ _ (MediaObject_ObjectKey v) Hev) as (ev & Hin & Ht & Hf & Hke & _).
  { apply Hall. exists (MediaObject_ObjectKey v). split; [by rewrite merge_sort_Permutation|apply elem_of_expand_key]. }
  exists ev. split_and!; [apply elem_of_app; by right|done..].
Qed.

Section deletion.
Context s userID clock s' (Hdel : deleteAccountLocked s userID clock = (s', None)).

(** The user of the rows of a device does not change. *)
Lemma deviceErased_user device : Device_UserID (deviceErased userID device) = Device_UserID device.
Proof. unfold deviceErased. by case_bool_decide. Qed.

Lemma elem_of_deletedDeviceIDs s1 id :
  id ∈ deletedDeviceIDs s1 userID ↔ ∃ d, Store_devices s1 !! id = Some d ∧ Device_UserID d = userID.
Proof.
  unfold deletedDeviceIDs. rewrite list_elem_of_fmap. split.
  - intros ([i d] & -> & [Hd Hb]%elem_of_bool_filter). apply elem_of_range in Hd. bool_prop. eauto.
  - intros (d & Hd & Hu). exists (id, d). split; [done|]. apply elem_of_bool_filter.
    split; [by apply elem_of_range|by apply bool_decide_eq_true].
Qed.

Lemma deletion_erases : account_inv s → emails_normal s → Erased s s' userID.
Proof.
  intros Ha Hn. destruct (deleteAccountLocked_shape _ _ _ _ Hdel) as (user & s1 & p & evs & Hl & Hloop & [n ->]).
  destruct (eraseConversations_spec _ _ _ _ _ _ _ _ (scope_NoDup s userID) Hloop) as (Ho & _ & Hout & Hin & _).
  pose proof Ho as Hs1. unfold only_conversations in Hs1.
  apply live_user_some in Hl as [Hu _].
  split; cbn.
  - eexists. rewrite lookup_insert_eq. split_and!; done.
  - intros key Hk. rewrite Hs1. cbn. rewrite (Hn _ _ Hu). by apply (index_erased (Store_users s) User_Email _ _ user), Hk; [apply ai_email|].
  - intros key Hk. rewrite Hs1. cbn. by apply (index_erased (Store_users s) User_Phone _ _ user), Hk; [apply ai_phone|].
  - intros key Hk. rewrite Hs1. cbn. by apply (index_erased (Store_users s) user_username _ _ user), Hk; [apply ai_username|].
  - intros key [_ Hb]%lookup_purge. by bool_prop.
  - apply lookup_delete_eq.
  - intros id c [_ Hb]%lookup_purge. by bool_prop.
  - intros id d c [_ Hb]%lookup_purge Hc. unfold mailErased in Hb. rewrite Hs1 in Hb. cbn in Hb. rewrite Hc in Hb. by bool_prop.
  - intros id x [_ Hb]%lookup_purge. by bool_prop.
  - intros id d. rewrite lookup_sift. destruct (Store_devices s1 !! id) as [d0|] eqn:Hd; [|done]. cbn.
    intros [= <-]. rewrite deviceErased_user. intros Hd0. unfold deviceErased. rewrite bool_decide_true by done.
    split_and!; [done..|]. rewrite lookup_delete_all, decide_True; [done|]. apply elem_of_deletedDeviceIDs. eauto.
  - intros id d device [_ Hb]%lookup_purge. rewrite lookup_sift.
    destruct (Store_devices s1 !! PushDelivery_DeviceID d) as [d0|] eqn:Hd; [|done]. cbn. intros [= <-].
    rewrite deviceErased_user. intros Hd0. apply orb_false_iff in Hb as [_ Hb]. bool_prop. apply Hb.
    apply elem_of_deletedDeviceIDs. eauto.
  - intros cid members Hm. destruct (decide (cid ∈ accountConversationScopeLocked s userID)) as [Hc|Hc].
    + by apply (Hin cid).
    + rewrite (Hout cid Hc) in Hm. destruct (members !! userID) eqn:Hmu; [|done].
      destruct Hc. apply elem_of_scope. left. by exists members.
  - intros key r [_ Hb]%lookup_purge. apply orb_false_iff in Hb as [Hb _]. by bool_prop.
  - intros cid phones phone. rewrite lookup_sift. destruct (Store_invites s1 !! cid) as [ph|]; [|done]. cbn.
    unfold invitesErased. case_bool_decide; [done|]. intros [= <-] [_ Hb]%lookup_purge.
    apply orb_false_iff in Hb as [Hb _]. by bool_prop.
  - intros key invite. rewrite lookup_sift. destruct (Store_inviteLinks s1 !! key) as [i|]; [|done]. cbn.
    unfold inviteLinkErased. case_bool_decide; [done|]. destruct (_ && _) eqn:Hb; intros [= <-] Hc; [by eexists|].
    rewrite bool_decide_true in Hb by done. cbn in Hb. bool_prop. by apply not_eq_None_Some.
  - intros id v [_ Hb]%lookup_purge Hown. unfold mediaErased in Hb. rewrite !orb_false_iff in Hb.
    destruct Hb as [[_ H1] H2]. rewrite (bool_decide_true (_ = userID)) in H1, H2 by done.
    rewrite andb_true_r in H1, H2. split; [by bool_prop|]. intros Hsc Hst.
    by rewrite (bool_decide_true _ Hsc), (bool_decide_true _ Hst) in H2.
Qed.

(** Conversations keep exactly one owner, who is a member. *)
Lemma deletion_conv_inv : conv_inv s → conv_inv s'.
Proof.
  intros Hi. destruct (deleteAccountLocked_shape _ _ _ _ Hdel) as (user & s1 & p & evs & _ & Hloop & [n ->]).
  destruct (eraseConversations_spec _ _ _ _ _ _ _ _ (scope_NoDup s userID) Hloop) as (_ & Hc & _).
  by apply (conv_inv_frame s1), Hc.
Qed.

(** What is not the user's stays. *)
Lemma deletion_spares v :
  conv_inv s → v ≠ userID →
  Store_users s' !! v = Store_users s !! v ∧
  (∀ id x, Session_UserID x = v → Store_sessions s' !! id = Some x ↔ Store_sessions s !! id = Some x) ∧
  (∀ id d, Device_UserID d = v → Store_devices s' !! id = Some d ↔ Store_devices s !! id = Some d) ∧
  (∀ id c, PasswordResetChallenge_UserID c = v →
     Store_passwordResets s' !! id = Some c ↔ Store_passwordResets s !! id = Some c) ∧
  (∀ key, Store_externalUsers s' !! key = Some v ↔ Store_externalUsers s !! key = Some v) ∧
  (∀ cid members, Store_members s !! cid = Some members → is_Some (members !! v) →
     ∃ members', Store_members s' !! cid = Some members' ∧ is_Some (members' !! v)).
Proof.
  intros Hi Hv. destruct (deleteAccountLocked_shape _ _ _ _ Hdel) as (user & s1 & p & evs & _ & Hloop & [n ->]).
  destruct (eraseConversations_spec _ _ _ _ _ _ _ _ (scope_NoDup s userID) Hloop) as (Ho & _ & _ & _ & _ & Hkept).
  pose proof Ho as Hs1. unfold only_conversations in Hs1. split_and!; cbn.
  - rewrite lookup_insert_ne by done. by rewrite Hs1.
  - intros id x <-. rewrite lookup_purge, Hs1. cbn. rewrite bool_decide_false by done. naive_solver.
  - intros id d Hd. rewrite lookup_sift, Hs1. cbn. destruct (Store_devices s !! id) as [d0|]; [|done]. cbn.
    unfold deviceErased. case_bool_decide; [|done].
    split; intros [= <-]; cbn in Hd; congruence.
  - intros id c <-. rewrite lookup_purge, Hs1. cbn. rewrite bool_decide_false by done. naive_solver.
  - intros key. rewrite lookup_purge, Hs1. cbn. rewrite bool_decide_false by done. naive_solver.
  - intros cid members Hm Hx. by apply (Hkept cid members v).
Qed.
(** A media object that goes is scheduled for deletion. *)
Lemma deletion_media id v :
  Store_media s !! id = Some v → Store_media s' !! id = None →
  scheduled s' v ∧ (MediaObject_Status v = "pending" → queued s' v).
Proof.
  intros Hv Hgone. destruct (deleteAccountLocked_shape _ _ _ _ Hdel) as (user & s1 & p & evs & Hl & Hloop & [n Hs']).
  destruct (eraseConversations_spec _ _ _ _ _ _ _ _ (scope_NoDup s userID) Hloop) as (Ho & _).
  unfold only_conversations in Ho.
  assert (Store_media s1 = Store_media s) as Hm by by rewrite Ho.
  assert (v ∈ erasedMedia s1 p userID) as Hin.
  { apply elem_of_bool_filter. rewrite Hm. split.
    - apply list_elem_of_fmap. exists (id, v). split; [done|]. by apply elem_of_range.
    - rewrite Hs' in Hgone. cbn in Hgone. apply not_false_is_true. intros Hf.
      assert (Some v = None) as [=]. rewrite <-Hgone. symmetry. apply lookup_purge. by rewrite Hm. }
  pose proof Hdel as Hd. unfold deleteAccountLocked in Hd. rewrite Hl in Hd. fold (identityOf userID user) in Hd.
  destruct (validateAccountDeletionJSONLocked _ _ _); [done|]. rewrite Hloop in Hd. cbv zeta in Hd. revert Hd.
  set (deferred := List.filter pending (erasedMedia s1 p userID)).
  set (immediate := List.filter (λ object, negb (pending object)) (erasedMedia s1 p userID)).
  intros [= <-]. destruct (pending v) eqn:Hp.
  - assert (v ∈ deferred) as Hd by by apply elem_of_bool_filter.
    match goal with |- scheduled ?x v ∧ _ => assert (queued x v) as Hq end.
    { apply queued_sorted; [by apply list_elem_of_fmap_2|]. by apply latestNotBefore_bounds. }
    split; [by apply queued_scheduled|done].
  - assert (v ∈ immediate) as Hd by (apply elem_of_bool_filter; by rewrite Hp).
    split; [|unfold pending in Hp; by bool_prop].
    match goal with |- scheduled (appendSorted ?x ?a ?b ?c ?d) v =>
      destruct (appendSorted_grows x a b c d) as [evs3 Hg]; apply (scheduled_grows x _ evs3 v Hg) end.
    apply scheduled_sorted. by apply list_elem_of_fmap_2.
Qed.
End deletion.

Lemma conv_inv_intents s f : conv_inv s → conv_inv (s <| Store_accountDeletionIntents ::= f |>).
Proof. by apply conv_inv_frame. Qed.

(** ** Executing an intent *)

(** An intent that was waiting for a live account. *)
Definition pending_intent s (requestID : UUID) (tokenHash : string) (intent : AccountDeletionIntent) : Prop :=
  Store_accountDeletionIntents s !! requestID = Some intent ∧
  AccountDeletionIntent_TokenHash intent = tokenHash ∧
  AccountDeletionIntent_State intent = AccountDeletionPending ∧
  is_Some (live_user s (AccountDeletionIntent_UserID intent)).

Lemma execute_shape s requestID tokenHash fence clock s' intent :
  pending_intent s requestID tokenHash intent →
  ExecuteAccountDeletionIntent s requestID tokenHash fence clock = (s', None) →
  requestID ≠ uuid_Nil ∧ strlen tokenHash = 32%Z ∧
  ∃ s1, deleteAccountLocked s (AccountDeletionIntent_UserID intent) (later 1 clock) = (s1, None) ∧
    s' = s1 <| Store_accountDeletionIntents ::=
           <[requestID := intent <| AccountDeletionIntent_State := AccountDeletionCompleted |>
                                 <| AccountDeletionIntent_CompletedAt := Some (clock 0%nat) |>]> |>.
Proof.
  intros (Hint & Hhash & Hstate & [user Hl]). unfold ExecuteAccountDeletionIntent.
  destruct (bool_decide _ || _) eqn:Hg; [done|]. bool_prop. rewrite Hint, (bool_decide_true _ Hhash), Hstate. cbn.
  destruct (fence _); [done|].
  destruct (deleteAccountLocked s (AccountDeletionIntent_UserID intent) (later 1 clock)) as [s1 err] eqn:Hd.
  assert (err ≠ Some ErrNotFound) as Hne.
  { intros ->. pose proof (deleteAccountLocked_found s _ (later 1 clock) user Hl) as Hf.
    by rewrite Hd in Hf. }
  destruct err as [[]|]; try done. intros [= <-]. eauto.
Qed.

(** C24. Executing a pending deletion intent erases the account.  When it returns
    without an error, everything [Erased] lists is gone (profile, indexes, external
    identities, age data, reset challenges and their mail, sessions, device keys, push
    deliveries, memberships, receipts, invitations, unfinished and profile media), the
    intent is marked completed, and executing it again, whatever the callback does, succeeds
    and changes nothing. *)
Theorem account_erased s requestID tokenHash fence clock s' intent :
  account_inv s → emails_normal s → pending_intent s requestID tokenHash intent →
  ExecuteAccountDeletionIntent s requestID tokenHash fence clock = (s', None) →
  Erased s s' (AccountDeletionIntent_UserID intent) ∧
  ∀ fence' clock', ExecuteAccountDeletionIntent s' requestID tokenHash fence' clock' = (s', None).
Proof.
  intros Ha Hn Hp He. destruct (execute_shape _ _ _ _ _ _ _ Hp He) as (Hreq & Hlen & s1 & Hd & ->). split.
  - destruct (deletion_erases _ _ _ _ Hd Ha Hn). by split.
  - intros fence' clock'. unfold ExecuteAccountDeletionIntent.
    rewrite (bool_decide_false _ Hreq), (bool_decide_true _ Hlen). cbn. rewrite lookup_insert_eq. cbn.
    destruct Hp as (_ & Hhash & _). by rewrite (bool_decide_true _ Hhash).
Qed.


(** Deleting an account orphans no stored object: every media object the
    deletion removes has its key in a fresh deletion event of the outbox, and the event of an
    upload that was still pending waits until the upload link and the grace period are over. *)
Theorem erasure_orphans_no_media s requestID tokenHash fence clock s' intent id v :
  pending_intent s requestID tokenHash intent →
  ExecuteAccountDeletionIntent s requestID tokenHash fence clock = (s', None) →
  Store_media s !! id = Some v → Store_media s' !! id = None →
  scheduled s' v ∧ (MediaObject_Status v = "pending" → queued s' v).
Proof.
  intros Hp He Hv Hg. destruct (execute_shape _ _ _ _ _ _ _ Hp He) as (_ & _ & s1 & Hd & ->).
  destruct (deletion_media _ _ _ _ Hd id v Hv Hg) as [H1 H2]. split; [exact H1|exact H2].
Qed.
End effects.

Section witnesses.
#[local] Existing Instance Reference.runtime.
#[local] Existing Instance ReferenceText.text.

(** The account of [Accounts.v] with a pending intent. *)
Definition leaving_op : AccountOp :=
  OpPutAccountDeletionIntent (mkAccountDeletionIntent requestID (uuid_of_N 1) tokenHash "" 0 None) leave_clock.
Definition leaving_store : Store := account_step sample_accounts leaving_op.
Definition leaving_run : Store * option Error :=
  ExecuteAccountDeletionIntent leaving_store requestID tokenHash (λ _, None) leave_clock.

Lemma leaving_reachable : account_reachable leaving_store.
Proof. apply reach_step; [apply sample_accounts_reachable|exact I]. Qed.

Lemma leaving_pending :
  pending_intent leaving_store requestID tokenHash
    (mkAccountDeletionIntent requestID (uuid_of_N 1) tokenHash AccountDeletionPending 1 None).
Proof.
  split_and!; [|done|done|].
  - unfold leaving_store. cbn [account_step leaving_op]. unfold PutAccountDeletionIntent.
    destruct (live_user sample_accounts (uuid_of_N 1)) as [u|] eqn:Hl.
    + assert (Store_accountDeletionIntents sample_accounts !! requestID = None) as Hn by (vm_compute; reflexivity).
      cbn [AccountDeletionIntent_UserID AccountDeletionIntent_RequestID AccountDeletionIntent_TokenHash].
      rewrite Hl, Hn. destruct (bool_decide _ || _ || _) eqn:Hg; [vm_compute in Hg; discriminate|].
      apply lookup_insert_eq.
    + exfalso. assert (bool_decide (is_Some (live_user sample_accounts (uuid_of_N 1))) = true) as Hb
        by (vm_compute; reflexivity).
      rewrite Hl in Hb. by vm_compute in Hb.
  - apply (bool_decide_unpack (is_Some _)). vm_compute. exact I.
Qed.

Lemma account_erased_witness :
  ∃ u, Store_users leaving_run.1 !! uuid_of_N 1 = Some u ∧ User_Email u = "" ∧
       UserByEmail leaving_run.1 "ada@example.com" = Err ErrNotFound.
Proof.
  assert (leaving_run.2 = None) as He by (vm_compute; reflexivity).
  destruct (account_erased leaving_store requestID tokenHash (λ _, None) leave_clock leaving_run.1 _
              (account_reachable_inv _ leaving_reachable) (emails_normal_reachable _ leaving_reachable)
              leaving_pending (pair_run leaving_run None He)) as [[(u & Hu & _ & Hemail & _) _ _ _ _ _ _ _ _ _ _ _ _ _ _ _] _].
  exists u. split; [exact Hu|]. split; [exact Hemail|]. vm_compute. reflexivity.
Defined.

(** The owner of the group of [Membership.v] leaves. *)
Definition bob_intent : AccountDeletionIntent :=
  mkAccountDeletionIntent requestID bob tokenHash AccountDeletionPending 1 None.
Definition group_leaving : Store :=
  group_store <| Store_accountDeletionIntents ::= <[requestID := bob_intent]> |>.
Definition group_run : Store * option Error :=
  ExecuteAccountDeletionIntent group_leaving requestID tokenHash (λ _, None) leave_clock.

Lemma group_leaving_pending : pending_intent group_leaving requestID tokenHash bob_intent.
Proof.
  split_and!; [apply lookup_insert_eq|done|done|]. apply (bool_decide_unpack (is_Some _)). vm_compute. exact I.
Qed.


(** A profile picture whose upload is still open. *)
Definition picture : MediaObject :=
  mkMediaObject (uuid_of_N 5) leaver uuid_Nil MediaScopeProfile "profile/key" "image/png" 10 "" "pending"
    (Some 100%Z) 100 None None 1 1.
Definition picture_intent : AccountDeletionIntent :=
  mkAccountDeletionIntent requestID leaver tokenHash AccountDeletionPending 1 None.
Definition picture_store : Store :=
  (shared_store (Raw (JObj []))) <| Store_media ::= <[uuid_of_N 5 := picture]> |>.
Definition picture_run : Store * option Error :=
  ExecuteAccountDeletionIntent picture_store requestID tokenHash (λ _, None) leave_clock.

Lemma erasure_orphans_no_media_witness : scheduled picture_run.1 picture ∧ queued picture_run.1 picture.
Proof.
  assert (picture_run.2 = None) as He by (vm_compute; reflexivity).
  destruct (erasure_orphans_no_media picture_store requestID tokenHash (λ _, None) leave_clock picture_run.1
    picture_intent (uuid_of_N 5) picture) as [H1 H2].
  - split_and!; [apply lookup_insert_eq|done|done|]. apply (bool_decide_unpack (is_Some _)). vm_compute. exact I.
  - exact (pair_run picture_run None He).
  - apply lookup_insert_eq.
  - vm_compute. reflexivity.
  - exact (conj H1 (H2 eq_refl)).
Defined.
End witnesses.
