(* ===== verification/PushProviders.v ===== *)
(** * Push providers

    [src/internal/push/push.go] and [platform.go]: how the APNs and FCM clients are
    combined, and how their errors are classified.  Here a client is
    the function that gives its answer to a request; the two clients are in [PushClients]. *)

From Stdlib Require Import ZArith Lia.
From S2P Require Import Prelude.

(** The errors the classification tells apart: the two provider errors, a [net.Error] with
    its [Timeout()] (an expired context is one, and times out), a cancelled context, and
    anything else. *)
Inductive SendError :=
  | FCMError (StatusCode : Z) (Code : string) (RetryAfter : Z)
  | DeliveryError (StatusCode : Z) (Reason : string)
  | NetError (timeout : bool)
  | ContextError
  | OtherError.

Record Request := mkRequest {
  Request_deviceToken : string; Request_title : string; Request_body : string;
  Request_data : gmap string string; Request_notificationID : string }.

(** [nil], [Disabled], a client, [*EnvironmentFallback], [*Platforms]. *)
Inductive Service :=
  | NoService
  | Disabled
  | Client (send : Request → option SendError)
  | EnvironmentFallback (Primary Fallback : Service)
  | Platforms (IOS Android : Service).

Implicit Types (service : Service) (request : Request) (err : SendError).

Fixpoint IsDisabled service : bool :=
  match service with
  | NoService | Disabled => true
  | EnvironmentFallback primary fallback => IsDisabled primary && IsDisabled fallback
  | Platforms ios android => IsDisabled ios && IsDisabled android
  | Client _ => false
  end.

Definition ForPlatform service (platform : string) : Service :=
  match service with
  | Platforms ios android =>
    if bool_decide (platform = "ios") then ios
    else if bool_decide (platform = "android") then android else Disabled
  | _ => if bool_decide (platform = "ios") then service else Disabled
  end.

Definition EnabledPlatforms service : list string :=
  List.filter (λ platform, negb (IsDisabled (ForPlatform service platform))) ["ios"; "android"].

(** ** Errors *)

Definition invalidReason (reason : string) : bool :=
  bool_decide (reason ∈ ["BadDeviceToken"; "DeviceTokenNotForTopic"; "Unregistered"]).

Definition IsInvalidToken (err : option SendError) : bool :=
  match err with
  | Some (FCMError code reason _) => (code =? 404)%Z && bool_decide (reason = "UNREGISTERED")
  | Some (DeliveryError code reason) => (code =? 410)%Z || invalidReason reason
  | _ => false
  end.

Definition transient (code : Z) : bool := (code =? 429)%Z || (500 <=? code)%Z.

Definition IsRetryable (err : option SendError) : bool :=
  match err with
  | None => false
  | Some e =>
    if IsInvalidToken err then false
    else match e with
         | FCMError code _ _ | DeliveryError code _ => transient code
         | _ => true
         end
  end.

Definition statusClass (code : Z) : string :=
  if (code =? 429)%Z then "throttled" else if (500 <=? code)%Z then "provider_5xx" else "provider_4xx".

Definition ErrorClass (err : option SendError) : string :=
  match err with
  | None => "none"
  | Some e =>
    if IsInvalidToken err then "invalid_token"
    else match e with
         | FCMError code _ _ | DeliveryError code _ => statusClass code
         | NetError true => "timeout"
         | ContextError => "context"
         | NetError false | OtherError => "network"
         end
  end.

Definition MinimumRetryDelay (err : option SendError) : Z :=
  match err with Some (FCMError _ _ retryAfter) => retryAfter | _ => 0%Z end.

(** ** Sending

    A call on [nil] would crash; it is never made ([IsDisabled] is checked before), and the
    model answers [OtherError]. *)
Fixpoint Send service request : option SendError :=
  match service with
  | NoService => Some OtherError
  | Disabled => None
  | Client send => send request
  | EnvironmentFallback primary fallback =>
    match Send primary request with
    | None => None
    | Some primaryErr =>
      if negb (IsInvalidToken (Some primaryErr)) then Some primaryErr
      else match fallback with
           | NoService => Some primaryErr
           | _ =>
             match Send fallback request with
             | None => None
             | Some fallbackErr =>
               if IsInvalidToken (Some fallbackErr) then Some (DeliveryError 410 "Unregistered")
               else Some fallbackErr
             end
           end
    end
  | Platforms ios _ => if IsDisabled ios then Some OtherError else Send ios request
  end.

(** ** What the classification guarantees *)

(** An invalid token is never retried and a retried delivery keeps its token. *)
Lemma retryable_valid err : IsRetryable (Some err) = true → IsInvalidToken (Some err) = false.
Proof. unfold IsRetryable. by destruct (IsInvalidToken _). Qed.

Lemma IsInvalidToken_answer {A} fallback (x y : A) :
  fallback ≠ NoService → match fallback with NoService => x | _ => y end = y.
Proof. by destruct fallback. Qed.

(** With two environments a token is reported invalid only when both rejected it. *)
Lemma fallback_invalid primary fallback request e :
  Send (EnvironmentFallback primary fallback) request = Some e → IsInvalidToken (Some e) = true →
  fallback ≠ NoService →
  IsInvalidToken (Send primary request) = true ∧ IsInvalidToken (Send fallback request) = true.
Proof.
  cbn [Send]. destruct (Send primary request) as [pe|]; [|done].
  destruct (IsInvalidToken (Some pe)) eqn:Hp; cbn [negb]; [|congruence].
  intros Hs Hi Hf. rewrite (IsInvalidToken_answer _ _ _ Hf) in Hs.
  destruct (Send fallback request) as [fe|]; [|done].
  destruct (IsInvalidToken (Some fe)) eqn:Hfe; [done|congruence].
Qed.
