(* ===== verification/PushClients.v ===== *)
(** * The clients of the push providers

    [src/internal/push/apns.go] and [fcm.go]: what they send to Apple and to Google, when they send
    it again, and how they read the answers.  The exchanges of net/http, the signatures of
    golang-jwt and the token source of golang.org/x/oauth2 are parameters; an answer carries what
    the fields the client looks at decode to. *)

From Stdlib Require Import ZArith Lia Ascii.
From S2P Require Import Prelude.
From S2P Require Import Runtime.
From S2P Require Import GoText.
From S2P Require Import Domain.
From S2P Require Import PushProviders.

(** ** Requests and answers *)

Record HTTPRequest := mkHTTPRequest {
  HTTP_URL : string; HTTP_Headers : list (string * string); HTTP_Body : JSON }.

(** The errors of an exchange, and of a context. *)
Inductive TransportError := TransportTimeout | TransportFailure | TransportContext.
Definition transportError (e : TransportError) : SendError :=
  match e with
  | TransportTimeout => NetError true | TransportFailure => NetError false | TransportContext => ContextError
  end.

Definition by_name (p q : string * JSON) : Prop := String.le p.1 q.1.
#[export] Instance by_name_dec : RelDecision by_name := λ p q, decide (String.le p.1 q.1).

(** [json.Marshal] of a map: the members in the order of their names. *)
Definition marshalMap (m : gmap string JSON) : JSON := JObj (merge_sort by_name (map_to_list m)).

(** [json.Marshal] of a map of strings. *)
Definition marshalStrings (m : gmap string string) : JSON := marshalMap (JStr <$> m).

(** ** APNs *)

Definition notificationRetention : Z := 24 * Hour.
Definition tokenLifetime : Z := 50 * Minute.
(** [250 * time.Millisecond] *)
Definition retryDelayUnit : Z := 250000000.

Definition aps (title body : string) : JSON :=
  JObj [("alert", JObj [("title", JStr title); ("body", JStr body)]); ("sound", JStr "default"); ("badge", JNum 1 0)].

(** The custom data is at the top level; a member [aps] of it is dropped. *)
Definition EncodePayload (title body : string) (data : gmap string string) : JSON :=
  marshalMap (<["aps" := aps title body]> (JStr <$> data)).

(** An answer: its status, and the field [reason] of its body. *)
Record APNSResponse := mkAPNSResponse { APNSResponse_StatusCode : Z; APNSResponse_Reason : string }.

Record APNS := mkAPNS { APNS_team : string; APNS_key : string; APNS_bundle : string; APNS_endpoint : string }.

(** The fields under [mu]; the empty token is no token. *)
Record TokenCache := mkTokenCache { cachedToken : string; tokenExpiry : Z }.

(** [parseKey] answers whether the file holds an ECDSA key in PEM, or what is wrong with it. *)
Definition NewAPNS (ReadFile : string → option string) (parseKey : string → option string)
    (teamID keyID bundleID privateKeyFile environment : string) : APNS + string :=
  match ReadFile privateKeyFile with
  | None => inr "read APNs private key"
  | Some keyData =>
    match parseKey keyData with
    | Some message => inr message
    | None =>
      inl (mkAPNS teamID keyID bundleID
        (if bool_decide (environment = "sandbox") then "https://api.sandbox.push.apple.com"
         else "https://api.push.apple.com"))
    end
  end.

(** [t.Unix()] *)
Definition Unix (t : Z) : Z := (t / Second - 62135596800)%Z.

Section apns.
Context `{GoRuntime} (a : APNS).
(** [SignedString keyID teamID issuedAt]; [Do n] and [time n] are the exchange and the clock of the
    [n]-th attempt, [waits n] the wait before it: an error is that of the context.  [others n] is
    what other goroutines have done to the token before it. *)
Context (SignedString : string → string → Z → option string) (validURL : string → bool).
Context (Do : nat → HTTPRequest → APNSResponse + TransportError) (time : nat → Z) (waits : nat → option TransportError).
Context (others : nat → TokenCache → TokenCache).

Definition providerToken (now : Z) (c : TokenCache) : TokenCache * option string :=
  if negb (bool_decide (cachedToken c = "")) && Before now (tokenExpiry c) then (c, Some (cachedToken c)) else
  match SignedString (APNS_key a) (APNS_team a) (Unix now) with
  | None => (c, None)
  | Some signed => (mkTokenCache signed (now + tokenLifetime), Some signed)
  end.

Definition apnsRequest (token deviceToken : string) (payload : JSON) (notificationID : string) (now : Z)
    : HTTPRequest :=
  mkHTTPRequest (APNS_endpoint a +:+ "/3/device/" +:+ TrimSpace deviceToken)
    [("authorization", "bearer " +:+ token); ("apns-topic", APNS_bundle a); ("apns-push-type", "alert");
     ("apns-priority", "10"); ("apns-expiration", pretty (Unix (now + notificationRetention)));
     ("apns-id", notificationID); ("apns-collapse-id", notificationID)] payload.

(** An attempt: the request it sent, if it got that far, and its result. *)
Definition Attempt : Type := option HTTPRequest * option SendError.

Definition sendOnce (n : nat) (deviceToken : string) (payload : JSON) (notificationID : string)
    (c : TokenCache) : TokenCache * Attempt :=
  let '(c, token) := providerToken (time n) (others n c) in
  match token with
  | None => (c, (None, Some OtherError))
  | Some token =>
    let request := apnsRequest token deviceToken payload notificationID (time n) in
    if negb (validURL (HTTP_URL request)) then (c, (None, Some OtherError)) else
    (c, (Some request,
         match Do n request with
         | inr e => Some (transportError e)
         | inl response =>
           if (APNSResponse_StatusCode response =? 200)%Z then None
           else Some (DeliveryError (APNSResponse_StatusCode response) (APNSResponse_Reason response))
         end))
  end.

(** The delay before attempt [n]. *)
Definition attemptDelay (n : nat) : Z := (Z.of_nat n * Z.of_nat n * retryDelayUnit)%Z.

(** The attempts, the token afterwards and the result. *)
Fixpoint sendAttempts (remaining n : nat) (deviceToken : string) (payload : JSON) (notificationID : string)
    (c : TokenCache) (lastErr : option SendError) : list Attempt * TokenCache * option SendError :=
  match remaining with
  | O => ([], c, lastErr)
  | S remaining =>
    match (if (0 <? n)%nat then waits n else None) with
    | Some e => ([], c, Some (transportError e))
    | None =>
      let '(c, attempt) := sendOnce n deviceToken payload notificationID c in
      if negb (IsRetryable attempt.2) then ([attempt], c, attempt.2)
      else
        let '(more, c, err) := sendAttempts remaining (S n) deviceToken payload notificationID c attempt.2 in
        (attempt :: more, c, err)
    end
  end.

Definition APNS_Send (request : Request) (c : TokenCache) : list Attempt * TokenCache * option SendError :=
  sendAttempts 3 0 (Request_deviceToken request)
    (EncodePayload (Request_title request) (Request_body request) (Request_data request))
    (Request_notificationID request) c None.
End apns.

(** ** FCM *)

Record FCMDetail := mkFCMDetail { FCMDetail_Type : string; FCMDetail_Code : string }.

(** An answer: its status, the length of what was read of its body (at most 65537 bytes), the two
    ways the body may decode, and the header [Retry-After]. *)
Record FCMResponse := mkFCMResponse {
  FCMResponse_StatusCode : Z; FCMResponse_Length : Z; FCMResponse_Name : option string;
  FCMResponse_Details : option (list FCMDetail); FCMResponse_RetryAfter : string }.

Record FCM := mkFCM { FCM_endpoint : string; FCM_packageName : string }.

Definition lowerLetter (n : N) : bool := (97 <=? n)%N && (n <=? 122)%N.

(** The pattern [^[a-z][a-z0-9-]{4,28}[a-z0-9]$]. *)
Definition validProject (projectID : string) : bool :=
  match bytes_of projectID with
  | c :: rest =>
    lowerLetter (N_of_ascii c) && (5 <=? length rest)%nat && (length rest <=? 29)%nat
    && forallb (λ c, lowerLetter (N_of_ascii c) || digit (N_of_ascii c) || bool_decide (c = "-"%char)) rest
    && match last rest with
       | Some c => lowerLetter (N_of_ascii c) || digit (N_of_ascii c)
       | None => false
       end
  | [] => false
  end.

(** The file of the credentials: whether it is regular, its size and permissions, and what can be
    read of it. *)
Record CredentialsFile := mkCredentialsFile {
  Credentials_Regular : bool; Credentials_Size : Z; Credentials_Perm : Z; Credentials_Read : option string }.

Record ServiceAccount := mkServiceAccount {
  Account_Type : string; Account_ProjectID : string; Account_TokenURI : string }.

(** [account] decodes the file; [JWTConfig] answers the e-mail address and the bits of the RSA key,
    if there is one, of the credentials. *)
Definition NewFCM (Open : string → option CredentialsFile) (account : string → option ServiceAccount)
    (JWTConfig : string → option (string * bool * option Z))
    (projectID credentialsFile packageName : string) : FCM + string :=
  if negb (validProject projectID) || bool_decide (packageName = "")
  then inr "invalid FCM project or Android package configuration" else
  match Open credentialsFile with
  | None => inr "FCM credentials file is unavailable"
  | Some file =>
    if negb (Credentials_Regular file) || (65536 <? Credentials_Size file)%Z
       || negb (Z.land (Credentials_Perm file) 7 =? 0)%Z
    then inr "FCM credentials must be a bounded, non-public regular file" else
    match Credentials_Read file with
    | None => inr "cannot read FCM credentials"
    | Some raw =>
      if (65536 <? strlen raw)%Z then inr "cannot read FCM credentials" else
      match account raw with
      | None => inr "FCM credentials do not match the configured project or trusted OAuth endpoint"
      | Some identified =>
        if negb (bool_decide (Account_Type identified = "service_account"))
           || negb (bool_decide (Account_ProjectID identified = projectID))
           || negb (bool_decide (Account_TokenURI identified = "https://oauth2.googleapis.com/token"))
        then inr "FCM credentials do not match the configured project or trusted OAuth endpoint" else
        match JWTConfig raw with
        | None => inr "invalid FCM service account credentials"
        | Some (email, hasKey, bits) =>
          if bool_decide (email = "") || negb hasKey then inr "invalid FCM service account credentials" else
          match bits with
          | None => inr "FCM requires a valid RSA service account key of at least 2048 bits"
          | Some bits =>
            if (bits <? 2048)%Z then inr "FCM requires a valid RSA service account key of at least 2048 bits"
            else inl (mkFCM ("https://fcm.googleapis.com/v1/projects/" +:+ projectID +:+ "/messages:send") packageName)
          end
        end
      end
    end
  end.

Definition fcmErrorType : string := "type.googleapis.com/google.firebase.fcm.v1.FcmError".

Definition knownCode (code : string) : bool :=
  bool_decide (code ∈ ["UNREGISTERED"; "SENDER_ID_MISMATCH"; "INVALID_ARGUMENT"; "QUOTA_EXCEEDED";
                       "UNAVAILABLE"; "INTERNAL"; "THIRD_PARTY_AUTH_ERROR"]).

(** The last detail of the type with a known code. *)
Definition rejectionCode (details : list FCMDetail) : string :=
  foldl (λ code detail,
    if bool_decide (FCMDetail_Type detail = fcmErrorType) && knownCode (FCMDetail_Code detail)
    then FCMDetail_Code detail else code) "UNKNOWN" details.

(** [time.Until(t)]: the difference saturates. *)
Definition Until (t now : Z) : Z := Z.max (- 2 ^ 63) (Z.min (2 ^ 63 - 1) (t - now)).

Section fcm.
Context `{GoRuntime} (f : FCM).
Context (json_Marshal : JSON → option string) (http_ParseTime : string → option Z).
(** [SetAuthHeader] of the token, or an error of the token source; [Do] also answers the errors of
    reading the body. *)
Context (ctxErr : option TransportError) (Token : option (string * string)).
Context (Do : HTTPRequest → FCMResponse + TransportError) (now : Z).

Definition fcmPayload (request : Request) : JSON :=
  marshalMap {["message" := marshalMap (list_to_map
    [("token", JStr (Request_deviceToken request));
     ("notification", marshalStrings
        {["title" := Request_title request; "body" := Request_body request]});
     ("data", marshalStrings (Request_data request));
     ("android", marshalMap (list_to_map
        [("priority", JStr "HIGH"); ("ttl", JStr "86400s");
         ("restricted_package_name", JStr (FCM_packageName f));
         ("notification", marshalStrings {["tag" := Request_notificationID request]})]))])]}.

Definition retryAfter (header : string) (status : Z) : Z :=
  let delay :=
    match ParseInt header with
    | Some seconds =>
      if (0 <? seconds)%Z && (seconds <=? 86400)%Z then (seconds * Second)%Z
      else match http_ParseTime header with Some until => Until until now | None => 0%Z end
    | None => match http_ParseTime header with Some until => Until until now | None => 0%Z end
    end in
  let delay := if (status =? 429)%Z && (delay <? Minute)%Z then Minute else delay in
  let delay := if (24 * Hour <? delay)%Z then (24 * Hour)%Z else delay in
  if (delay <? 0)%Z then 0%Z else delay.

Definition readAnswer (response : FCMResponse) : option SendError :=
  if (FCMResponse_StatusCode response =? 200)%Z then
    if (65536 <? FCMResponse_Length response)%Z || bool_decide (default "" (FCMResponse_Name response) = "")
    then Some OtherError else None
  else
    let code := if (FCMResponse_Length response <=? 65536)%Z
                then match FCMResponse_Details response with Some details => rejectionCode details | None => "UNKNOWN" end
                else "UNKNOWN" in
    Some (FCMError (FCMResponse_StatusCode response) code
            (retryAfter (FCMResponse_RetryAfter response) (FCMResponse_StatusCode response))).

(** The request that is sent, if any, and the result. *)
Definition FCM_Send (request : Request) : option HTTPRequest * option SendError :=
  match json_Marshal (fcmPayload request) with
  | None => (None, Some (FCMError 400 "INVALID_ARGUMENT" 0))
  | Some payload =>
    if (4096 <? strlen payload)%Z then (None, Some (FCMError 400 "INVALID_ARGUMENT" 0)) else
    match ctxErr with
    | Some e => (None, Some (transportError e))
    | None =>
      match Token with
      | None => (None, Some OtherError)
      | Some authorization =>
        let http := mkHTTPRequest (FCM_endpoint f) [authorization; ("Content-Type", "application/json")]
                      (fcmPayload request) in
        (Some http, match Do http with inr e => Some (transportError e) | inl response => readAnswer response end)
      end
    end
  end.
End fcm.

(** ** The payload *)

Lemma marshalMap_members m : ∃ members, marshalMap m = JObj members ∧ members ≡ₚ map_to_list m.
Proof. eexists. split; [reflexivity|]. apply merge_sort_Permutation. Qed.

(** The alert is the one that was asked for, whatever the data; every other datum is a member. *)
Lemma payload_members title body data : ∃ members,
  EncodePayload title body data = JObj members ∧
  ∀ name v, (name, v) ∈ members ↔
    (name = "aps" ∧ v = aps title body) ∨ (name ≠ "aps" ∧ ∃ s, data !! name = Some s ∧ v = JStr s).
Proof.
  destruct (marshalMap_members (<["aps" := aps title body]> (JStr <$> data))) as (members & Hm & Hp).
  exists members. split; [done|]. intros name v. rewrite Hp, elem_of_map_to_list, lookup_insert_Some, lookup_fmap, fmap_Some.
  naive_solver.
Qed.

(** ** APNs: attempts *)
Section apns_facts.
Context `{GoRuntime} (a : APNS) (SignedString : string → string → Z → option string) (validURL : string → bool).
Context (Do : nat → HTTPRequest → APNSResponse + TransportError) (time : nat → Z) (waits : nat → option TransportError).
Context (others : nat → TokenCache → TokenCache).
Implicit Types (c : TokenCache).

(** [token] has been signed for a time less than 50 minutes before [now]. *)
Definition fresh_token (now : Z) (token : string) : Prop :=
  ∃ t, SignedString (APNS_key a) (APNS_team a) (Unix t) = Some token ∧ (now < t + tokenLifetime)%Z.

Definition cache_sound c : Prop :=
  cachedToken c ≠ "" → ∃ t, SignedString (APNS_key a) (APNS_team a) (Unix t) = Some (cachedToken c) ∧
    tokenExpiry c = (t + tokenLifetime)%Z.

Lemma providerToken_fresh now c c' token :
  cache_sound c → providerToken a SignedString now c = (c', token) →
  cache_sound c' ∧ ∀ x, token = Some x → fresh_token now x.
Proof using.
  intros Hc. unfold providerToken. destruct (negb _ && _) eqn:Hb.
  - intros [= <- <-]. split; [done|]. intros x [= <-]. apply andb_true_iff in Hb as [Hne Hlt]. bool_prop.
    destruct (Hc Hne) as (t & Hs & He). exists t. split; [done|]. unfold Before in Hlt. lia.
  - destruct (SignedString _ _ _) as [signed|] eqn:Hs; intros [= <- <-]; [|by split].
    split; [by intros _; exists now|]. intros x [= <-]. exists now. split; [done|]. unfold tokenLifetime, Minute, Second. lia.
Qed.

Context (Hothers : ∀ n c, cache_sound c → cache_sound (others n c)).
Context (deviceToken : string) (payload : JSON) (notificationID : string).

(** What attempt [n] may be. *)
Definition proper (n : nat) (attempt : Attempt) : Prop :=
  ∀ request, attempt.1 = Some request →
    ∃ token, fresh_token (time n) token ∧ request = apnsRequest a token deviceToken payload notificationID (time n) ∧
      attempt.2 = match Do n request with
                  | inr e => Some (transportError e)
                  | inl response => if (APNSResponse_StatusCode response =? 200)%Z then None
                                    else Some (DeliveryError (APNSResponse_StatusCode response) (APNSResponse_Reason response))
                  end.

Abbreviation once := (sendOnce a SignedString validURL Do time others).
Abbreviation attempts := (sendAttempts a SignedString validURL Do time waits others).

Lemma sendOnce_proper n c c' attempt :
  cache_sound c → once n deviceToken payload notificationID c = (c', attempt) →
  cache_sound c' ∧ proper n attempt ∧ (attempt.1 = None → attempt.2 = Some OtherError).
Proof using Hothers.
  intros Hc. unfold sendOnce. destruct (providerToken _ _ _ _) as [c1 token] eqn:Ht.
  destruct (providerToken_fresh _ _ _ _ (Hothers n c Hc) Ht) as [Hc1 Hfresh].
  destruct token as [token|]; [|by intros [= <- <-]].
  destruct (negb (validURL _)); intros [= <- <-]; [done|].
  split; [done|]. split; [|done]. intros request [= <-]. exists token. split; [by apply Hfresh|done].
Qed.

(** How a run of attempts ends: with the last attempt, final or the last of them all; or with the
    context while it waits for the next one, after attempts that were all to be repeated. *)
Inductive ended (remaining n : nat) (lastErr : option SendError) (l : list Attempt) (err : option SendError) : Prop :=
  | EndedNone : l = [] → remaining = 0 → err = lastErr → ended remaining n lastErr l err
  | EndedLast attempt : last l = Some attempt → err = attempt.2 →
      (IsRetryable err = true → length l = remaining) → ended remaining n lastErr l err
  | EndedContext e : err = Some (transportError e) → waits (n + length l) = Some e → 0 < n + length l →
      Forall (λ x, IsRetryable x.2 = true) l → ended remaining n lastErr l err.

Lemma ended_cons remaining n lastErr attempt more err :
  IsRetryable attempt.2 = true → ended remaining (S n) attempt.2 more err →
  ended (S remaining) n lastErr (attempt :: more) err.
Proof using.
  intros Hr [-> -> ->|x Hl -> Hx|e -> Hw Hn Hf].
  - by apply (EndedLast _ _ _ _ _ attempt).
  - apply (EndedLast _ _ _ _ _ x); [|done|].
    + destruct more; [done|exact Hl].
    + intros Hret. simpl. by rewrite Hx.
  - apply (EndedContext _ _ _ _ _ e); [done| |simpl; lia|by constructor]. simpl. by rewrite Nat.add_succ_r.
Qed.

Lemma sendAttempts_spec remaining n c lastErr l c' err :
  cache_sound c → attempts remaining n deviceToken payload notificationID c lastErr = (l, c', err) →
  length l ≤ remaining ∧ cache_sound c' ∧ ended remaining n lastErr l err ∧
  ∀ i attempt, l !! i = Some attempt → proper (n + i) attempt ∧ (S i < length l → IsRetryable attempt.2 = true).
Proof using Hothers.
  revert n c lastErr l c' err. induction remaining as [|remaining IH]; intros n c lastErr l c' err Hc; simpl.
  { intros [= <- <- <-]. split_and!; [simpl; lia|done|by apply EndedNone|].
    intros i x Hi. by rewrite lookup_nil in Hi. }
  destruct (if (0 <? n)%nat then waits n else None) as [e|] eqn:Hw.
  { intros [= <- <- <-]. split_and!; [simpl; lia|done| |intros i x Hi; by rewrite lookup_nil in Hi].
    destruct n; [done|]. apply (EndedContext _ _ _ _ _ e); [done|by rewrite Nat.add_0_r|simpl; lia|constructor]. }
  destruct (once n _ _ _ c) as [c1 attempt] eqn:Ho.
  destruct (sendOnce_proper _ _ _ _ Hc Ho) as (Hc1 & Hp & _).
  destruct (IsRetryable attempt.2) eqn:Hr; cbn [negb].
  2: { intros [= <- <- <-]. split_and!; [simpl; lia|done|by apply (EndedLast _ _ _ _ _ attempt); [| |rewrite Hr]|].
       intros [|i] x Hi; [|done]. injection Hi as <-. rewrite Nat.add_0_r. split; [done|simpl; lia]. }
  destruct (attempts remaining (S n) _ _ _ c1 attempt.2) as [[more c2] err'] eqn:Hm. intros [= <- <- <-].
  destruct (IH _ _ _ _ _ _ Hc1 Hm) as (Hlen & Hc2 & Hend & Hall).
  split_and!; [simpl; lia|done|by apply ended_cons|].
  intros [|i] x Hi; simpl in Hi.
  - injection Hi as <-. by rewrite Nat.add_0_r.
  - rewrite Nat.add_succ_r. destruct (Hall i x Hi) as [Hx Hret]. split; [done|]. simpl. intros ?. apply Hret. lia.
Qed.
End apns_facts.

(** A push to Apple is tried at most three times, and again only after an error that is worth
    it; the result is that of the last attempt, or the end of the context while waiting.  Every
    request that is sent carries the same notification under the same identifier, with the
    alert asked for and no data in its place, to the endpoint of the client, under a provider
    token signed less than 50 minutes before — whatever other goroutines do to the token
    meanwhile. *)
Theorem apns_attempts_bounded `{GoRuntime} a SignedString validURL Do time waits others request c l c' err :
  (∀ n c, cache_sound a SignedString c → cache_sound a SignedString (others n c)) →
  cache_sound a SignedString c →
  APNS_Send a SignedString validURL Do time waits others request c = (l, c', err) →
  let payload := EncodePayload (Request_title request) (Request_body request) (Request_data request) in
  length l ≤ 3 ∧ cache_sound a SignedString c' ∧ ended waits 3 0 None l err ∧
  ∀ i attempt, l !! i = Some attempt →
    proper a SignedString Do time (Request_deviceToken request) payload (Request_notificationID request) i attempt ∧
    (S i < length l → IsRetryable attempt.2 = true).
Proof. intros Ho Hc Hs. by apply (sendAttempts_spec _ _ _ _ _ _ _ Ho _ _ _ _ 0 _ _ _ _ _ Hc Hs). Qed.

(** ** FCM: answers *)
Section fcm_facts.
Context `{GoRuntime} (f : FCM) (json_Marshal : JSON → option string) (http_ParseTime : string → option Z).
Context (ctxErr : option TransportError) (Token : option (string * string)).
Context (Do : HTTPRequest → FCMResponse + TransportError) (now : Z).

Lemma retryAfter_range header status :
  (0 ≤ retryAfter http_ParseTime now header status ≤ 24 * Hour)%Z ∧
  (status = 429 → Minute ≤ retryAfter http_ParseTime now header status)%Z.
Proof using.
  unfold retryAfter. set (delay := match ParseInt header with Some _ => _ | None => _ end). clearbody delay.
  unfold Hour, Minute, Second. split; [|intros ->]; repeat case_match; bool_prop; lia.
Qed.

Lemma rejectionCode_known details :
  rejectionCode details = "UNKNOWN" ∨
  ∃ detail, detail ∈ details ∧ FCMDetail_Type detail = fcmErrorType ∧ FCMDetail_Code detail = rejectionCode details.
Proof using.
  unfold rejectionCode. induction details as [|x details IH] using rev_ind; [by left|].
  rewrite foldl_app. simpl. destruct (_ && _) eqn:Hb.
  - apply andb_true_iff in Hb as [Ht _]. bool_prop. right. exists x. set_solver.
  - destruct IH as [IH|(d & ? & ? & ?)]; [by left|right]. exists d. set_solver.
Qed.

(** What the answers of FCM mean.  A push counts as sent only if its request was answered 200
    with the name of a message.  The wait that an error asks for is between 0 and 24 hours, and at
    least a minute when the service throttles.  And the token of a device is called invalid only
    by a 404 with a detail [UNREGISTERED] of FCM itself. *)
Theorem fcm_answers_sound request sent err :
  FCM_Send f json_Marshal http_ParseTime ctxErr Token Do now request = (sent, err) →
  (err = None → ∃ r response name, sent = Some r ∧ HTTP_Body r = fcmPayload f request ∧ Do r = inl response ∧
     FCMResponse_StatusCode response = 200%Z ∧ FCMResponse_Name response = Some name ∧ name ≠ "") ∧
  (0 ≤ MinimumRetryDelay err ≤ 24 * Hour)%Z ∧
  (∀ code wait, err = Some (FCMError 429 code wait) → (Minute ≤ wait)%Z) ∧
  (IsInvalidToken err = true →
   ∃ r response details detail, sent = Some r ∧ Do r = inl response ∧
     FCMResponse_StatusCode response = 404%Z ∧ FCMResponse_Details response = Some details ∧
     detail ∈ details ∧ FCMDetail_Type detail = fcmErrorType ∧ FCMDetail_Code detail = "UNREGISTERED").
Proof using.
  unfold FCM_Send. destruct (json_Marshal _) as [payload|]; [destruct (_ <? _)%Z|].
  1,3: intros [= <- <-]; split_and!; [done|done|unfold Hour, Minute, Second; done|done|by vm_compute].
  destruct ctxErr as [e|]; [intros [= <- <-]; destruct e; by split_and!|].
  destruct Token as [authorization|]; [|intros [= <- <-]; by split_and!].
  set (r := mkHTTPRequest _ _ _). intros [= <- <-].
  destruct (Do r) as [response|e] eqn:Hdo; [|destruct e; by split_and!].
  unfold readAnswer. destruct (FCMResponse_StatusCode response =? 200)%Z eqn:Hok.
  - destruct (_ || _) eqn:Hb; [by split_and!|]. apply orb_false_iff in Hb as [_ Hb]. bool_prop.
    split_and!; try done. intros _. destruct (FCMResponse_Name response) as [name|] eqn:Hn; [|done].
    by exists r, response, name.
  - destruct (retryAfter_range (FCMResponse_RetryAfter response) (FCMResponse_StatusCode response)) as [Hrange Hthrottle].
    split_and!; [done|by apply Hrange..| |].
    + intros code wait [= Hs _ <-]. by apply Hthrottle.
    + cbn [IsInvalidToken]. intros [Hs Hcode]%andb_true_iff. bool_prop.
      destruct (_ <=? _)%Z; [|done]. destruct (FCMResponse_Details response) as [details|] eqn:Hd; [|done].
      destruct (rejectionCode_known details) as [Hun|(detail & Hin & Ht & Hc)]; [congruence|].
      exists r, response, details, detail. split_and!; [done|done|lia|done|done|done|congruence].
Qed.
End fcm_facts.

(** ** Witnesses *)
Section witnesses.
#[local] Existing Instance Reference.runtime.

Definition appleClient : APNS := mkAPNS "TEAM" "KEY" "app.clixor" "https://api.push.apple.com".
Definition signAt (key team : string) (issued : Z) : option string := Some (team +:+ "." +:+ pretty issued).
Definition somePush : Request := mkRequest "device" "Clixor" "News" {["aps" := "x"; "type" := "activity"]} "n1".

(** Apple is busy once and takes the push the second time. *)
Definition busyOnce (n : nat) (_ : HTTPRequest) : APNSResponse + TransportError :=
  inl (mkAPNSResponse (if (n =? 0)%nat then 503 else 200) "").
Definition busyRun : list Attempt * TokenCache * option SendError :=
  APNS_Send appleClient signAt (λ _, true) busyOnce (λ n, (Z.of_nat n * Second)%Z) (λ _, None)
    (λ _ c, c) somePush (mkTokenCache "" 0).

Lemma apns_attempts_bounded_witness :
  length busyRun.1.1 = 2 ∧ busyRun.2 = None ∧ cache_sound appleClient signAt busyRun.1.2.
Proof.
  split; [vm_compute; reflexivity|]. split; [vm_compute; reflexivity|].
  refine (proj1 (proj2 (apns_attempts_bounded appleClient signAt (λ _, true) busyOnce
    (λ n, (Z.of_nat n * Second)%Z) (λ _, None) (λ _ c, c) somePush (mkTokenCache "" 0)
    busyRun.1.1 busyRun.1.2 busyRun.2 _ _ _))).
  - intros _ c Hc. exact Hc.
  - intros Hne. exfalso. apply Hne. reflexivity.
  - vm_compute. reflexivity.
Defined.

Definition googleClient : FCM := mkFCM "https://fcm" "app.clixor".
Definition throttled (_ : HTTPRequest) : FCMResponse + TransportError :=
  inl (mkFCMResponse 429 0 None (Some [mkFCMDetail fcmErrorType "QUOTA_EXCEEDED"]) "5").
Definition throttledRun : option HTTPRequest * option SendError :=
  FCM_Send googleClient (λ _, Some "{}") (λ _, None) None (Some ("Authorization", "Bearer t")) throttled 0 somePush.

Lemma fcm_answers_sound_witness :
  throttledRun.2 = Some (FCMError 429 "QUOTA_EXCEEDED" Minute) ∧ (Minute ≤ Minute)%Z.
Proof.
  assert (Herr : throttledRun.2 = Some (FCMError 429 "QUOTA_EXCEEDED" Minute)) by (vm_compute; reflexivity).
  split; [exact Herr|].
  exact (proj1 (proj2 (proj2 (fcm_answers_sound googleClient (λ _, Some "{}") (λ _, None) None
    (Some ("Authorization", "Bearer t")) throttled 0 somePush throttledRun.1 throttledRun.2
    ltac:(vm_compute; reflexivity)))) "QUOTA_EXCEEDED" Minute Herr).
Defined.
End witnesses.
