(* ===== verification/Relay.v ===== *)
(** * The outbox relay

    [src/internal/outbox/relay.go]: the worker that turns outbox events into realtime
    events, push rows and object deletions, and sends the push rows.

    The relay runs beside the rest of the server, so its code is a thread ([Threads]):
    before each of its accesses everybody else may have changed the store
    ([Env_others]), and the calls whose order matters are recorded.  Messages for
    the log and the metrics are left out. *)

From Stdlib Require Import ZArith Lia Ascii.
From S2P Require Import Prelude.
From S2P Require Import Runtime.
From S2P Require Import GoText.
From S2P Require Import Domain.
From S2P Require Import Compliance.
From S2P Require Import StoreState.
From S2P Require Import Accounts.
From S2P Require Import Resets.
From S2P Require Import Conversations.
From S2P Require Import Messages.
From S2P Require Import Outbox.
From S2P Require Import Push.
From S2P Require Import Bus.
From S2P Require Import PushProviders.
From S2P Require Import Threads.

Record PushRetryPolicy := mkPushRetryPolicy {
  BatchSize : Z; WorkerConcurrency : Z; MaxAttempts : Z; BaseDelay : Z; MaxDelay : Z;
  DeliveredRetention : Z; DeadLetterRetention : Z }.

Definition genericPushTitle : string := "Clixor".
Definition genericPushBody : string := "You have new activity. Open the app to view it.".
Definition genericPushKind : string := "activity".
Definition retentionInterval : Z := Hour.
Definition retentionCatchUpInterval : Z := Minute.
Definition retentionRunBudget : Z := 5 * Second.
Definition retentionMaxBatches : nat := 100.

Definition DefaultPushRetryPolicy : PushRetryPolicy :=
  mkPushRetryPolicy 100 16 8 (2 * Second) (15 * Minute) (24 * Hour) (30 * 24 * Hour).

Definition between (low x high : Z) : bool := (low <=? x)%Z && (x <=? high)%Z.

(** The policies the configuration check lets through. *)
Definition policy_valid (p : PushRetryPolicy) : bool :=
  between 1 (BatchSize p) 1000 && between 1 (WorkerConcurrency p) 100
  && between 1 (MaxAttempts p) 20 && between 100000000 (BaseDelay p) (5 * Minute)
  && between (BaseDelay p) (MaxDelay p) (24 * Hour)
  && between Hour (DeliveredRetention p) (30 * 24 * Hour)
  && between (24 * Hour) (DeadLetterRetention p) (365 * 24 * Hour).

(** The calls of the relay on its collaborators. *)
Inductive Call :=
  | CallPublish (recipients : list UUID) (event : RealtimeEvent) (err : option Error)
  | CallDelete (objectKey : string) (err : option Error)
  | CallSend (platform : string) (request : Request) (err : option SendError)
  | CallMark (id : Z)
  | CallRelease (id availableAt : Z)
  | CallFinish (id : Z) (result : string) (nextAttemptAt : Z) (errorClass : string)
  | CallInvalidate (id : Z).

(** What the relay does not control.  [n] counts its accesses: [Env_others n] is what the
    others did to the store before the [n]-th one. *)
Record Env := mkEnv {
  Env_others : nat → Store → Store;
  Env_time : nat → Clock;
  Env_newID : nat → nat → UUID;
  Env_ctxErr : nat → option Error;
  Env_publish : nat → list UUID → RealtimeEvent → option Error;
  Env_delete : nat → string → option Error;
  Env_push : Service;
  Env_policy : PushRetryPolicy;
  (** [strconv.ParseFloat(_, 64)] and [fmt.Sprintf("%.2f", _)], on the bits of a float64 *)
  Env_parseFloat : string → option Z;
  Env_formatFloat : Z → string }.

Abbreviation Local := (Threads.Local Call).
Abbreviation M := (Threads.M Call).

Section relay.
Context `{GoRuntime} (env : Env).
Implicit Types (item : OutboxEvent) (delivery : PushDelivery) (recipients : list UUID).

(** ** Accesses *)

(** One critical section of the store. *)
Definition critical {A} (f : Clock → Store → Store * A) : M A :=
  λ s l, let n := Local_step l in
  let '(s, x) := f (Env_time env n) (Env_others env n s) in (s, tick l, x).

Definition read {A} (f : Store → A) : M A := critical (λ _ s, (s, f s)).

Definition now : M Z := λ s l, (s, tick l, Env_time env (Local_step l) 0).

Definition ctxErr : M (option Error) := λ s l, (s, tick l, Env_ctxErr env (Local_step l)).

Definition Publish recipients (event : RealtimeEvent) : M (option Error) :=
  λ s l, let n := Local_step l in
  let err := Env_publish env n recipients event in
  (_ ← call (CallPublish recipients event err); mret err) (Env_others env n s) (tick l).

Definition Delete (objectKey : string) : M (option Error) :=
  λ s l, let n := Local_step l in
  let err := Env_delete env n objectKey in
  (_ ← call (CallDelete objectKey err); mret err) (Env_others env n s) (tick l).

Definition SendTo (provider : Service) (platform : string) (request : Request) :
    M (option SendError) :=
  λ s l, let err := Send provider request in
  (_ ← call (CallSend platform request err); mret err) (Env_others env (Local_step l) s) (tick l).

Definition mark (id : Z) : M (res unit) :=
  _ ← call (CallMark id); critical (λ clock s, MarkOutboxPublished s [id] clock).

Definition finish (id : Z) (leaseToken : UUID) (result : string) (nextAttemptAt : Z)
    (errorClass : string) : M unit :=
  _ ← call (CallFinish id result nextAttemptAt errorClass);
  _ ← critical (λ clock s, FinishPushDelivery s id leaseToken result nextAttemptAt errorClass clock);
  mret tt.

(** ** Translation *)

(** [t.UnixNano()] of a time counted from the year 1. *)
Definition unixToInternal : Z := 62135596800 * Second.
Definition UnixNano (t : Z) : Z := int64_wrap (t - unixToInternal).

(** The payload decodes to the structure of its topic. *)
Definition realtimeEvent item : option RealtimeEvent :=
  let topic := OutboxEvent_Topic item in
  let event id cid seq := Some (mkRealtimeEvent id topic (Some cid) seq (OutboxEvent_Payload item)
                                  (OutboxEvent_CreatedAt item)) in
  match OutboxEvent_Payload item with
  | PMessage m =>
    if bool_decide (topic = "message.created")
    then event (uuid_String (Message_ID m)) (Message_ConversationID m) (Message_Seq m) else None
  | PReceipt r =>
    if bool_decide (topic = "receipt.updated")
    then event ("receipt:" +:+ uuid_String (Receipt_ConversationID r) +:+ ":"
                +:+ uuid_String (Receipt_UserID r) +:+ ":" +:+ pretty (Receipt_DeliveredSeq r)
                +:+ ":" +:+ pretty (Receipt_ReadSeq r))
               (Receipt_ConversationID r) (Z.max (Receipt_DeliveredSeq r) (Receipt_ReadSeq r))
    else None
  | PEntity e =>
    if bool_decide (topic = "entity.updated") || bool_decide (topic = "entity.deleted")
    then event (topic +:+ ":" +:+ uuid_String (Entity_ID e) +:+ ":" +:+ pretty (Entity_Version e))
               (Entity_ConversationID e) (Entity_Version e)
    else None
  | PConversation c =>
    if bool_decide (topic = "conversation.created")
    then event (uuid_String (Conversation_ID c)) (Conversation_ID c) 0%Z
    else if bool_decide (topic = "conversation.updated")
    then event ("conversation-updated:" +:+ uuid_String (Conversation_ID c) +:+ ":"
                +:+ pretty (UnixNano (Conversation_UpdatedAt c))) (Conversation_ID c) 0%Z
    else None
  | PMemberAdded a =>
    if bool_decide (topic = "conversation.member_added")
    then event ("member-added:" +:+ uuid_String (ConversationMemberAdded_ConversationID a) +:+ ":"
                +:+ uuid_String (ConversationMemberAdded_UserID a) +:+ ":" +:+ pretty (OutboxEvent_ID item))
               (ConversationMemberAdded_ConversationID a) 0%Z
    else None
  | PMemberRemoved r =>
    if bool_decide (topic = "conversation.member_removed")
    then event ("member-removed:" +:+ uuid_String (ConversationMemberRemoved_ConversationID r) +:+ ":"
                +:+ uuid_String (ConversationMemberRemoved_UserID r) +:+ ":" +:+ pretty (OutboxEvent_ID item))
               (ConversationMemberRemoved_ConversationID r) 0%Z
    else None
  | PMediaDelete _ => None
  end.

Definition translate item : M (option (RealtimeEvent * list UUID)) :=
  match realtimeEvent item with
  | None => mret None
  | Some event =>
    recipients ← read (λ s, ConversationMemberIDs s (OutboxEvent_AggregateID item));
    match recipients with
    | Ok recipients => mret (Some (event, recipients))
    | Err _ => mret None
    end
  end.

(** ** Notifications *)

Record activityNotification := mkactivityNotification {
  activityNotification_actorID : UUID; activityNotification_conversationID : UUID;
  activityNotification_entityID : UUID; activityNotification_kind : string;
  activityNotification_title : string; activityNotification_body : string;
  activityNotification_onlyRecipients : list UUID }.

(** Bytes that begin a code point; every string here comes out of a JSON document and is
    valid UTF-8. *)
Definition rune_start (c : ascii) : bool :=
  negb ((128 <=? N_of_ascii c)%N && (N_of_ascii c <? 192)%N).

Fixpoint rune_count (s : string) : nat :=
  match s with
  | EmptyString => 0
  | String c s => (if rune_start c then 1 else 0) + rune_count s
  end.

Fixpoint take_runes (n : nat) (s : string) : string :=
  match s with
  | EmptyString => EmptyString
  | String c s =>
    if rune_start c then match n with O => EmptyString | S n => String c (take_runes n s) end
    else String c (take_runes n s)
  end.

Definition clip (value : string) (limit : nat) : string :=
  if bool_decide (rune_count value ≤ limit) then value
  else take_runes (limit - 1) value +:+ "…".

Definition decodedObject (raw : RawMessage) : gmap string JSON := default ∅ (mjoin (unmarshal_map raw)).

Fixpoint firstString (object : gmap string JSON) (keys : list string) : string :=
  match keys with
  | [] => ""
  | key :: keys =>
    match object !! key with
    | Some (JStr value) =>
      if negb (bool_decide (TrimSpace value = "")) then clip (TrimSpace value) 100
      else firstString object keys
    | _ => firstString object keys
    end
  end.

Definition isSubscription (conversation : Conversation) : bool :=
  EqualFold (firstString (decodedObject (Conversation_Metadata conversation)) ["type"]) "subscriptions".

Definition isInitialSubscriptionCharge (conversation : Conversation) (payload : gmap string JSON) : bool :=
  let description := ToLower (firstString payload ["description"]) in
  if bool_decide (description = "") then false
  else
    let groupName := ToLower (TrimSpace (Conversation_Title conversation)) in
    if negb (bool_decide (groupName = "")) && negb (HasPrefix description groupName) then false
    else Contains description "subscription" || Contains description "membership".

Fixpoint conversationFor_loop (conversationID : UUID) (candidates : list UUID) (seen : gset UUID) :
    M (res Conversation) :=
  match candidates with
  | [] => mret (Err ErrNotFound)
  | candidate :: candidates =>
    if bool_decide (candidate = uuid_Nil) || bool_decide (candidate ∈ seen)
    then conversationFor_loop conversationID candidates seen
    else
      conversation ← read (λ s, Conversation_ s conversationID candidate);
      match conversation with
      | Ok conversation => mret (Ok conversation)
      | Err ErrNotFound | Err ErrForbidden =>
        conversationFor_loop conversationID candidates ({[ candidate ]} ∪ seen)
      | Err err => mret (Err err)
      end
  end.

Definition conversationFor (conversationID actorID : UUID) recipients : M (res Conversation) :=
  conversationFor_loop conversationID (actorID :: recipients) ∅.

(** The common shape of the cases: no notification when the conversation is gone. *)
Definition withConversation (conversationID actorID : UUID) recipients
    (f : Conversation → M (option activityNotification)) : M (res (option activityNotification)) :=
  conversation ← conversationFor conversationID actorID recipients;
  match conversation with
  | Ok conversation => notification ← f conversation; mret (Ok notification)
  | Err ErrNotFound | Err ErrForbidden => mret (Ok None)
  | Err err => mret (Err err)
  end.

Definition displayName (userID : UUID) : M string :=
  user ← read (λ s, UserByID s userID);
  mret (match user with
        | Ok user => if bool_decide (TrimSpace (User_DisplayName user) = "") then "Someone"
                     else clip (TrimSpace (User_DisplayName user)) 80
        | Err _ => "Someone"
        end).

Definition conversationTitle (conversation : Conversation) : string :=
  let title := TrimSpace (Conversation_Title conversation) in
  if negb (bool_decide (title = "")) then clip title 100 else "Clixor".

Definition formattedAmount (value : option JSON) : string :=
  let amount := match value with
                | Some (JNum m e) => Some (float64_of m e)
                | Some (JStr text) => Env_parseFloat env (TrimSpace text)
                | _ => None
                end in
  match amount with Some amount => "$" +:+ Env_formatFloat env amount | None => "" end.

Definition subscriptionNotification (conversation : Conversation) (actorID entityID : UUID)
    (actor : string) : activityNotification :=
  let groupName := TrimSpace (Conversation_Title conversation) in
  let groupName := if bool_decide (groupName = "") then "a subscription" else groupName in
  mkactivityNotification actorID (Conversation_ID conversation) entityID "subscription" "Subscription"
    (clip (actor +:+ " added " +:+ groupName) 180) [].

Definition orElse (text other : string) : string := if bool_decide (text = "") then other else text.
Definition withAmount (body amount : string) : string :=
  if bool_decide (amount = "") then body else body +:+ " (" +:+ amount +:+ ")".

Definition entityBody (entity : Entity) (actor : string) : string :=
  let payload := decodedObject (Entity_Payload entity) in
  let amount := formattedAmount (payload !! "amount") in
  if bool_decide (Entity_Kind entity = "expense") then
    withAmount (actor +:+ " added "
                +:+ orElse (firstString payload ["description"; "title"; "name"]) "an expense") amount
  else if bool_decide (Entity_Kind entity = "settlement")
  then withAmount (actor +:+ " recorded a settlement") amount
  else actor +:+ " created a task: " +:+ orElse (firstString payload ["title"; "name"]) "a task".

(** The first expense of a new subscription group is announced with the group. *)
Definition initialCharge (entity : Entity) (conversation : Conversation) : bool :=
  let age := (Entity_CreatedAt entity - Conversation_CreatedAt conversation)%Z in
  bool_decide (Entity_Kind entity = "expense") && isSubscription conversation
  && (0 <=? age)%Z && (age <? 10 * Minute)%Z
  && isInitialSubscriptionCharge conversation (decodedObject (Entity_Payload entity)).

Definition notifiedKind (kind : string) : bool :=
  bool_decide (kind = "expense") || bool_decide (kind = "task") || bool_decide (kind = "settlement").

Definition notificationFor item recipients : M (res (option activityNotification)) :=
  let topic := OutboxEvent_Topic item in
  match OutboxEvent_Payload item with
  | PMessage m =>
    if negb (bool_decide (topic = "message.created")) then mret (Ok None)
    else
      withConversation (Message_ConversationID m) (Message_SenderID m) recipients (λ c,
        sender ← displayName (Message_SenderID m);
        mret (Some (mkactivityNotification (Message_SenderID m) (Message_ConversationID m)
                      (Message_ID m) "message" (conversationTitle c)
                      (clip (sender +:+ " sent a message") 180) [])))
  | PEntity e =>
    if negb (bool_decide (topic = "entity.updated")) || negb (Entity_Version e =? 1)%Z
       || negb (notifiedKind (Entity_Kind e)) then mret (Ok None)
    else
      withConversation (Entity_ConversationID e) (Entity_CreatedBy e) recipients (λ c,
        if initialCharge e c then mret None
        else
          actor ← displayName (Entity_CreatedBy e);
          mret (Some (mkactivityNotification (Entity_CreatedBy e) (Entity_ConversationID e)
                        (Entity_ID e) (Entity_Kind e) (conversationTitle c)
                        (clip (entityBody e actor) 180) [])))
  | PConversation c =>
    if negb (bool_decide (topic = "conversation.created"))
       || negb (bool_decide (Conversation_Kind c = "group")) then mret (Ok None)
    else if negb (isSubscription c) then
      mret (Ok (Some (mkactivityNotification (Conversation_CreatedBy c) (Conversation_ID c)
                        (Conversation_ID c) "membership" "" "" [])))
    else
      actor ← displayName (Conversation_CreatedBy c);
      mret (Ok (Some (subscriptionNotification c (Conversation_CreatedBy c) (Conversation_ID c) actor)))
  | PMemberAdded a =>
    if negb (bool_decide (topic = "conversation.member_added")) then mret (Ok None)
    else
      let actorID := ConversationMemberAdded_ActorID a in
      withConversation (ConversationMemberAdded_ConversationID a) actorID recipients (λ c,
        actor ← displayName actorID;
        if isSubscription c
        then mret (Some (subscriptionNotification c actorID (Conversation_ID c) actor))
        else
          let groupName := conversationTitle c in
          mret (Some (mkactivityNotification actorID (Conversation_ID c) (Conversation_ID c)
                        "membership" groupName (clip (actor +:+ " added you to " +:+ groupName) 180)
                        [ConversationMemberAdded_UserID a])))
  | PMemberRemoved r =>
    if negb (bool_decide (topic = "conversation.member_removed")) then mret (Ok None)
    else
      let actorID := ConversationMemberRemoved_ActorID r in
      let userID := ConversationMemberRemoved_UserID r in
      withConversation (ConversationMemberRemoved_ConversationID r) actorID recipients (λ c,
        let groupName := conversationTitle c in
        leaver ← displayName userID;
        body ← (if negb (bool_decide (actorID = userID))
                then actor ← displayName actorID;
                     mret (actor +:+ " removed " +:+ leaver +:+ " from " +:+ groupName)
                else mret (leaver +:+ " left " +:+ groupName));
        mret (Some (mkactivityNotification actorID (Conversation_ID c) (Conversation_ID c)
                      "member_left" groupName (clip body 180) [])))
  | PReceipt _ | PMediaDelete _ => mret (Ok None)
  end.

(** [uuid.NameSpaceOID] *)
Definition NameSpaceOID : UUID := uuid_of_N 0x6ba7b8129dad11d180b400c04fd430c8.

Definition notificationID item (notification : activityNotification) : string :=
  let topic := OutboxEvent_Topic item in
  if bool_decide (topic = "conversation.member_added") || bool_decide (topic = "conversation.member_removed")
  then uuid_String (uuid_NewSHA1 NameSpaceOID ("clixor-push:" +:+ pretty (OutboxEvent_ID item)))
  else uuid_String (activityNotification_entityID notification).

Definition orGenericKind (kind : string) : string :=
  if bool_decide (TrimSpace kind = "") then genericPushKind else TrimSpace kind.

Definition notified (notification : activityNotification) recipients : list UUID :=
  let allowed := activityNotification_onlyRecipients notification in
  List.filter (λ userID,
    negb (bool_decide (userID = activityNotification_actorID notification))
    && (bool_decide (allowed = []) || bool_decide (userID ∈ allowed))) recipients.

(** The row handed to the store: the fields not set are zero. *)
Definition pushRow item (notification : activityNotification) : PushDelivery :=
  mkPushDelivery 0 (OutboxEvent_ID item) uuid_Nil uuid_Nil "" "" genericPushTitle genericPushBody
    (orGenericKind (activityNotification_kind notification))
    (activityNotification_conversationID notification) (activityNotification_entityID notification)
    (notificationID item notification) "" 0 0 uuid_Nil 0 0 None None "".

Definition enqueuePush item recipients : M (option Error) :=
  notification ← notificationFor item recipients;
  match notification with
  | Err err => mret (Some err)
  | Ok None => mret None
  | Ok (Some notification) =>
    inserted ← critical (λ clock s,
      EnqueuePushDeliveries s (pushRow item notification) (notified notification recipients) clock);
    mret (match inserted with Ok _ => None | Err err => Some err end)
  end.

(** ** Realtime events and object deletions *)

Definition releaseOutbox item (delay : Z) : M unit :=
  t ← now;
  let availableAt := (t + Z.max delay Second)%Z in
  _ ← call (CallRelease (OutboxEvent_ID item) availableAt);
  _ ← critical (λ _ s, ReleaseOutboxEvent s (OutboxEvent_ID item) availableAt);
  mret tt.

Definition errRealtimeTranslate : Error := ErrOther "realtime outbox translation failed".

Definition deliverLeased : Store → Local → OutboxEvent → Store * Local * option Error :=
  λ s l leased,
  (t ← translate leased;
   match t with
   | None => mret (Some errRealtimeTranslate)
   | Some (event, recipients) => Publish recipients event
   end) s l.

Definition DeliverRealtime item : M (option Error) :=
  λ s l, let n := Local_step l in
  DeliverRealtimeOutbox (Env_others env n s) (tick l) (OutboxEvent_ID item) (OutboxEvent_Attempts item)
    (λ i, Env_ctxErr env (n + i)) (Some deliverLeased).

Definition flushItem item : M unit :=
  let id := OutboxEvent_ID item in
  t ← translate item;
  match t with
  | None => releaseOutbox item Second
  | Some (_, pushRecipients) =>
    queued ← enqueuePush item pushRecipients;
    match queued with
    | Some _ => releaseOutbox item Second
    | None =>
      delivered ← DeliverRealtime item;
      match delivered with
      | Some ErrNotFound | Some ErrConflict => mret tt
      | Some _ => releaseOutbox item Second
      | None => _ ← mark id; mret tt
      end
    end
  end.

Definition flush : M unit :=
  batch ← critical (λ clock s, LockRealtimeOutboxBatch s 100 clock);
  match batch with
  | Err _ => mret tt
  | Ok batch => forEach flushItem batch
  end.

Fixpoint mediaDeleteRetryDelay_loop (attempts : nat) (delay : Z) : Z :=
  match attempts with
  | O => delay
  | S attempts =>
    if negb (delay <? 15 * Minute)%Z then delay
    else if (Z.quot (15 * Minute) 2 <=? delay)%Z then (15 * Minute)%Z
    else mediaDeleteRetryDelay_loop attempts (int64_wrap (delay * 2))
  end.

(** The loop runs for [attempt] from 1 below [item.Attempts]. *)
Definition mediaDeleteRetryDelay item : Z :=
  Z.min (mediaDeleteRetryDelay_loop (Z.to_nat (OutboxEvent_Attempts item - 1)) Second) (15 * Minute).

Inductive MediaError := errMediaDeleteNotDue | MediaDeleteInvalid | MediaDeleteFailed (err : Error).

(** The workers delete every key, in any order; which of several errors is returned is
    not specified, and only [errMediaDeleteNotDue] is told apart. *)
Fixpoint deleteObjects (objectKeys : list string) : M (option MediaError) :=
  match objectKeys with
  | [] => mret None
  | objectKey :: objectKeys =>
    err ← Delete objectKey;
    others ← deleteObjects objectKeys;
    mret (match err with Some err => Some (MediaDeleteFailed err) | None => others end)
  end.

Definition deleteMedia item : M (option MediaError) :=
  match OutboxEvent_Payload item with
  | PMediaDelete payload =>
    let keys := MediaDeletePayload_ObjectKeys payload in
    if bool_decide (length keys = 0) || negb (bool_decide (length keys ≤ MediaDeleteBatchSize))
    then mret (Some MediaDeleteInvalid)
    else
      t ← now;
      if match MediaDeletePayload_NotBefore payload with
         | Some notBefore => After notBefore t
         | None => false
         end
      then mret (Some errMediaDeleteNotDue)
      else if existsb (λ k, bool_decide (TrimSpace k = "")) keys then mret (Some MediaDeleteInvalid)
      else deleteObjects keys
  | _ => mret (Some MediaDeleteInvalid)
  end.

Definition flushMediaItem item : M unit :=
  err ← deleteMedia item;
  match err with
  | Some errMediaDeleteNotDue => releaseOutbox item Second
  | Some _ => releaseOutbox item (mediaDeleteRetryDelay item)
  | None =>
    marked ← mark (OutboxEvent_ID item);
    match marked with
    | Err _ => releaseOutbox item Second
    | Ok _ => mret tt
    end
  end.

Definition flushMediaDeletes : M unit :=
  batch ← critical (λ clock s, LockMediaDeleteOutboxBatch s 1 clock);
  match batch with
  | Err _ => mret tt
  | Ok batch => forEach flushMediaItem batch
  end.

(** ** Push rows *)

Definition pushClientData delivery : gmap string string :=
  if negb (bool_decide (PushDelivery_Platform delivery = "ios"))
     || bool_decide (PushDelivery_UserID delivery = uuid_Nil)
  then {[ "type" := genericPushKind ]}
  else
    let data : gmap string string :=
      <["accountId" := uuid_String (PushDelivery_UserID delivery)]>
        {[ "type" := orGenericKind (PushDelivery_Kind delivery) ]} in
    let data := if bool_decide (PushDelivery_ConversationID delivery = uuid_Nil) then data
                else <["groupId" := uuid_String (PushDelivery_ConversationID delivery)]> data in
    if bool_decide (PushDelivery_EntityID delivery = uuid_Nil) then data
    else <["entityId" := uuid_String (PushDelivery_EntityID delivery)]> data.

Fixpoint retryDelay_loop (maxDelay : Z) (attempts : nat) (delay : Z) : Z :=
  match attempts with
  | O => delay
  | S attempts =>
    if negb (delay <? maxDelay)%Z then delay
    else if (Z.quot maxDelay 2 <? delay)%Z then maxDelay
    else retryDelay_loop maxDelay attempts (int64_wrap (delay * 2))
  end.

Definition jitterSeed delivery : Z :=
  uint64_wrap (uint64_wrap (uint64_wrap (PushDelivery_ID delivery) * 1103515245)
               + uint64_wrap (uint64_wrap (PushDelivery_Attempts delivery) * 12345)).

Definition retryDelay delivery : Z :=
  let p := Env_policy env in
  let delay := Z.min (retryDelay_loop (MaxDelay p) (Z.to_nat (PushDelivery_Attempts delivery - 1))
                        (BaseDelay p)) (MaxDelay p) in
  if (delay <=? 0)%Z then 0%Z
  else int64_wrap (Z.quot delay 2 + Z.quot (int64_wrap (jitterSeed delivery mod 501 * delay)) 1000).

(** The variables captured by the callback are the leased row and the provider's answer. *)
Definition sendLeased : Callback (Local * (PushDelivery * option SendError)) :=
  λ s '(l, (_, sendErr)) leased,
  if bool_decide (TrimSpace (PushDelivery_PushToken leased) = "") then (s, (l, (leased, sendErr)), None)
  else
    let provider := ForPlatform (Env_push env) (PushDelivery_Platform leased) in
    if IsDisabled provider then (s, (l, (leased, sendErr)), Some ErrConflict)
    else
      let '(s, l, sendErr) :=
        SendTo provider (PushDelivery_Platform leased)
          (mkRequest (PushDelivery_PushToken leased) genericPushTitle genericPushBody
             (pushClientData leased) (PushDelivery_NotificationID leased)) s l in
      (s, (l, (leased, sendErr)), None).

Definition DeliverPushLease delivery : M (option Error * (PushDelivery * option SendError)) :=
  λ s l, let n := Local_step l in
  let '(s, (l, captured), err) :=
    WithPushDeliveryLease (Env_others env n s) (mkLocal (n + 3) (Local_calls l), (delivery, None))
      (PushDelivery_ID delivery) (PushDelivery_LeaseToken delivery) (Env_ctxErr env n)
      (λ i, Env_others env (n + 1 + i)) (Some sendLeased) in
  (s, l, (err, captured)).

Definition settlePush delivery (sendErr : option SendError) : M unit :=
  let settle := finish (PushDelivery_ID delivery) (PushDelivery_LeaseToken delivery) in
  if bool_decide (TrimSpace (PushDelivery_PushToken delivery) = "")
  then settle PushDeliveryCanceled 0%Z "token_missing"
  else
    match sendErr with
    | None => settle PushDeliveryDelivered 0%Z ""
    | Some _ =>
      if IsInvalidToken sendErr then
        _ ← call (CallInvalidate (PushDelivery_ID delivery));
        _ ← critical (λ clock s,
          InvalidatePushDelivery s (PushDelivery_ID delivery) (PushDelivery_LeaseToken delivery)
            (PushDelivery_UserID delivery) (PushDelivery_DeviceID delivery)
            (PushDelivery_PushToken delivery) clock);
        mret tt
      else
        cancelled ← ctxErr;
        match cancelled with
        | Some _ => t ← now; settle PushDeliveryPending t "shutdown"
        | None =>
          if negb (IsRetryable sendErr)
             || (MaxAttempts (Env_policy env) <=? PushDelivery_Attempts delivery)%Z
          then settle PushDeliveryDeadLetter 0%Z (ErrorClass sendErr)
          else
            t ← now;
            settle PushDeliveryPending (t + Z.max (retryDelay delivery) (MinimumRetryDelay sendErr))%Z
              (ErrorClass sendErr)
        end
    end.

Definition deliverPush delivery : M unit :=
  '(err, (delivery, sendErr)) ← DeliverPushLease delivery;
  match err with
  | Some _ =>
    cancelled ← ctxErr;
    match cancelled with
    | Some _ =>
      t ← now;
      finish (PushDelivery_ID delivery) (PushDelivery_LeaseToken delivery) PushDeliveryPending t "shutdown"
    | None => mret tt
    end
  | None => settlePush delivery sendErr
  end.

(** The deliveries of a batch run concurrently: each one sees the others among the
    accesses of [Env_others]; here they are taken in the order of the batch. *)
Definition flushPush : M unit :=
  let p := Env_policy env in
  if IsDisabled (Env_push env) then mret tt
  else
    let limit := Z.max (Z.min (BatchSize p) (WorkerConcurrency p)) 1 in
    batch ← (λ s l, critical (λ clock s,
      LockPushDeliveryBatch s limit (EnabledPlatforms (Env_push env))
        (Env_newID env (Local_step l)) clock) s l);
    match batch with
    | Err _ => mret tt
    | Ok batch => forEach deliverPush batch
    end.

(** ** Retention *)

(** One draining loop: the rows deleted and whether more may be left, or an error.
    [prune] is the bounded deletion. *)
Fixpoint drain (batches : nat) (started : Z) (prune : Clock → Store → Store * res Z) (total : Z) :
    M (Z * bool * option Error) :=
  match batches with
  | O => mret (total, true, None)
  | S batches =>
    cancelled ← ctxErr;
    t ← now;
    if bool_decide (is_Some cancelled) || (retentionRunBudget <=? t - started)%Z
    then
      cancelled ← ctxErr; mret (total, true, cancelled)
    else
      deleted ← critical prune;
      match deleted with
      | Err err => mret (total, true, Some err)
      | Ok deleted =>
        let total := int64_wrap (total + deleted) in
        if (deleted <? MaxRetentionPruneBatchSize)%Z then mret (total, false, None)
        else drain batches started prune total
      end
  end.

Definition drainPushRetention (now started : Z) : M (Z * bool * option Error) :=
  let p := Env_policy env in
  drain retentionMaxBatches started (λ _ s,
    PrunePushDeliveries s (now - DeliveredRetention p) (now - DeadLetterRetention p)
      MaxRetentionPruneBatchSize) 0.

Definition drainOutboxRetention (before started : Z) : M (Z * bool * option Error) :=
  drain retentionMaxBatches started (λ _ s,
    PrunePublishedOutbox s before MaxRetentionPruneBatchSize) 0.

Definition scheduleRetention (now : Z) (catchUp : bool) : Z :=
  let interval := if catchUp then retentionCatchUpInterval else retentionInterval in
  (now - (retentionInterval - interval))%Z.

(** The new value of [lastPrune]. *)
Definition pruneRetention (lastPrune : Z) : M Z :=
  let p := Env_policy env in
  t ← now;
  if (t - lastPrune <? retentionInterval)%Z then mret lastPrune
  else
    started ← now;
    '(_, pushBacklog, err) ← drainPushRetention t started;
    if bool_decide (is_Some err) || pushBacklog then mret (scheduleRetention t pushBacklog)
    else
      let outboxRetention := Z.max (DeliveredRetention p) (DeadLetterRetention p) in
      '(_, outboxBacklog, err) ← drainOutboxRetention (t - outboxRetention) started;
      mret (scheduleRetention t (outboxBacklog || bool_decide (is_Some err))).
End relay.
