(* ===== verification/RelayPushFacts.v ===== *)
(** * What the relay guarantees about push rows

    About the push half of [Relay]: the verdict on each sent row, what notifications and
    provider requests reveal and to whom, and the rows that no verdict ever reaches. *)

From Stdlib Require Import ZArith Lia.
From S2P Require Import Prelude.
From S2P Require Import Runtime.
From S2P Require Import Domain.
From S2P Require Import Compliance.
From S2P Require Import StoreState.
From S2P Require Import Accounts.
From S2P Require Import Devices.
From S2P Require Import Resets.
From S2P Require Import Conversations.
From S2P Require Import Messages.
From S2P Require Import Outbox.
From S2P Require Import Push.
From S2P Require Import Bus.
From S2P Require Import PushProviders.
From S2P Require Import Threads.
From S2P Require Import Relay.
From S2P Require Import RelayFacts.

Section push.
Context `{GoRuntime} (env : Env) (Hquiet : quiet env) (Hsteady : steady env).
Implicit Types (s : Store) (row delivery leased : PushDelivery) (device : Device).

(** [delivery] is the lease of the pending row [row] to this relay. *)
Record row_lease s delivery row device : Prop := {
  lr_row : Store_pushDeliveries s !! PushDelivery_ID delivery = Some row;
  lr_id : PushDelivery_ID row = PushDelivery_ID delivery;
  lr_pos : (1 ≤ PushDelivery_ID delivery)%Z;
  lr_pending : PushDelivery_Status row = PushDeliveryPending;
  lr_token : PushDelivery_LeaseToken row = PushDelivery_LeaseToken delivery;
  lr_token_set : PushDelivery_LeaseToken delivery ≠ uuid_Nil;
  lr_inactive : Store_activePushDeliveries s !! PushDelivery_ID delivery = None;
  lr_device : Store_devices s !! PushDelivery_DeviceID row = Some device;
}.

(** The row announces a message of somebody its reader has blocked, or the reverse. *)
Definition blocked_row s row device : Prop :=
  PushDelivery_Kind row = "message" ∧ pushSender s (resolveDevice s row) ≠ uuid_Nil ∧
  Blocked (Store_compliance s) (Device_UserID device) (pushSender s (resolveDevice s row)) = true.

#[local] Instance blocked_row_dec s row device : Decision (blocked_row s row device).
Proof. unfold blocked_row. apply _. Defined.

Lemma resolveDevice_eq s row device :
  Store_devices s !! PushDelivery_DeviceID row = Some device →
  resolveDevice s row = row <| PushDelivery_UserID := Device_UserID device |>
    <| PushDelivery_PushToken := Device_PushToken device |>
    <| PushDelivery_Platform := Device_Platform device |>.
Proof. intros Hd. unfold resolveDevice. by rewrite Hd. Qed.

Definition in_delivery s delivery : Store :=
  s <| Store_activePushDeliveries ::=
         <[PushDelivery_ID delivery := PushDelivery_LeaseToken delivery]> |>.

Lemma set_active_same s f :
  f (Store_activePushDeliveries s) = Store_activePushDeliveries s →
  s <| Store_activePushDeliveries ::= f |> = s.
Proof.
  intros Hf. transitivity (s <| Store_activePushDeliveries ::= λ _, f (Store_activePushDeliveries s) |>);
    [by destruct s|]. rewrite Hf. by destruct s.
Qed.

Lemma end_in_delivery s delivery row device :
  row_lease s delivery row device →
  endPushDelivery (in_delivery s delivery) (PushDelivery_ID delivery) (PushDelivery_LeaseToken delivery) = s.
Proof.
  intros Hl. unfold endPushDelivery. cbn. rewrite lookup_insert_eq, bool_decide_true by done.
  transitivity (s <| Store_activePushDeliveries ::= λ m, delete (PushDelivery_ID delivery)
    (<[PushDelivery_ID delivery := PushDelivery_LeaseToken delivery]> m) |>); [by destruct s|].
  apply set_active_same, delete_insert_id, Hl.
Qed.

Lemma begin_leased_row s delivery row device :
  row_lease s delivery row device →
  beginPushDelivery s (PushDelivery_ID delivery) (PushDelivery_LeaseToken delivery)
  = (in_delivery s delivery, Ok (resolveDevice s row)).
Proof.
  intros [Hrow Hid Hpos Hpend Htok Hset Ha Hdev]. unfold beginPushDelivery, pendingPush.
  by rewrite Hrow, Hpend, Htok, !bool_decide_true, Ha, Hdev by done.
Qed.

(** The callback runs exactly when no block stands between reader and sender. *)
Lemma lease_runs {L : Type} s (l : L) delivery row device others deliver :
  row_lease s delivery row device → (∀ i s, others i s = s) →
  let s1 := in_delivery s delivery in
  WithPushDeliveryLease s l (PushDelivery_ID delivery) (PushDelivery_LeaseToken delivery) None
    others (Some deliver)
  = if decide (blocked_row s row device) then (s, l, Some ErrNotFound)
    else let '(s2, l2, err) := deliver s1 l (resolveDevice s row) in
         (endPushDelivery s2 (PushDelivery_ID delivery) (PushDelivery_LeaseToken delivery), l2, err).
Proof.
  intros Hl Ho s1. unfold WithPushDeliveryLease.
  pose proof (lr_pos _ _ _ _ Hl). pose proof (lr_token_set _ _ _ _ Hl).
  destruct (_ <? 1)%Z eqn:?; bool_prop; [lia|]. rewrite bool_decide_false by done. cbn [orb].
  rewrite (begin_leased_row _ _ _ _ Hl), Ho. fold s1. unfold guardedDeliver. rewrite !Ho.
  set (leased := resolveDevice s row).
  assert (PushDelivery_Kind leased = PushDelivery_Kind row ∧
    PushDelivery_UserID leased = Device_UserID device) as [Hk Hu]
    by (unfold leased; by rewrite (resolveDevice_eq _ _ _ (lr_device _ _ _ _ Hl))).
  change (pushSender s1 leased) with (pushSender s leased).
  change (Store_compliance s1) with (Store_compliance s). rewrite Hk, Hu.
  unfold DeliverIfAllowed.
  destruct (decide (blocked_row s row device)) as [(Hm & Hs & Hb)|Hn].
  - fold leased in Hs, Hb. rewrite bool_decide_true, bool_decide_false, Hb by done. cbn [negb].
    destruct (deliver s1 l leased) as [[??] ?]. unfold s1. by rewrite (end_in_delivery _ _ _ _ Hl).
  - case_bool_decide as Hmsg; [|done]. case_bool_decide as Hsender; [done|]. cbn [negb].
    destruct (Blocked _ _ _) eqn:Hb; [by destruct Hn|].
    by destruct (deliver s1 l leased) as [[??] [?|]].
Qed.

(** ** Verdicts *)

(** What the worker makes of a provider's answer. *)
Definition verdict leased (answer : option SendError) : string :=
  if bool_decide (TrimSpace (PushDelivery_PushToken leased) = "") then PushDeliveryCanceled
  else
    match answer with
    | None => PushDeliveryDelivered
    | Some _ =>
      if IsInvalidToken answer then PushDeliveryInvalidToken
      else if IsRetryable answer && (PushDelivery_Attempts leased <? MaxAttempts (Env_policy env))%Z
      then PushDeliveryPending else PushDeliveryDeadLetter
    end.

(** The request made for a leased row and its answer. *)
Definition requestFor leased : Request :=
  mkRequest (PushDelivery_PushToken leased) genericPushTitle genericPushBody
    (pushClientData leased) (PushDelivery_NotificationID leased).
Definition answerFor leased : option SendError :=
  Send (ForPlatform (Env_push env) (PushDelivery_Platform leased)) (requestFor leased).

Definition blank_token leased : bool :=
  bool_decide (TrimSpace (PushDelivery_PushToken leased) = "").

Lemma SendTo_eq provider platform request s l :
  SendTo env provider platform request s l
  = (s, mkLocal (S (Local_step l)) (Local_calls l ++ [CallSend platform request (Send provider request)]),
     Send provider request).
Proof. unfold SendTo. by rewrite Hquiet. Qed.

Lemma from_DeliverPushLease s delivery row device :
  row_lease s delivery row device → ¬ blocked_row s row device →
  IsDisabled (ForPlatform (Env_push env) (Device_Platform device)) = false →
  let leased := resolveDevice s row in
  from s (DeliverPushLease env delivery) (λ s' c r, s' = s ∧
    c = (if blank_token leased then []
         else [CallSend (PushDelivery_Platform leased) (requestFor leased) (answerFor leased)]) ∧
    r = (None, (leased, if blank_token leased then None else answerFor leased))).
Proof.
  intros Hl Hb Hprov leased l s' l' r. unfold DeliverPushLease. rewrite Hquiet, Hsteady.
  rewrite (lease_runs _ _ _ row device) by (done || intros; apply Hquiet).
  rewrite decide_False by done. fold leased. unfold sendLeased. fold (blank_token leased).
  assert (PushDelivery_Platform leased = Device_Platform device) as Hplat
    by (unfold leased; by rewrite (resolveDevice_eq _ _ _ (lr_device _ _ _ _ Hl))).
  destruct (blank_token leased).
  - rewrite (end_in_delivery _ _ _ _ Hl). intros [= <- <- <-]. exists []. by rewrite app_nil_r.
  - rewrite Hplat, Hprov. rewrite SendTo_eq, (end_in_delivery _ _ _ _ Hl).
    intros [= <- <- <-]. unfold answerFor, requestFor. rewrite Hplat. by eexists.
Qed.

(** The row after its verdict: closed, with the status of the verdict, and for a retry not
    due before the back-off (and what the provider asked for) has passed; a token the
    provider called invalid is removed from the device. *)
Record settled_row s delivery row leased (answer : option SendError) s' row' : Prop := {
  sr_rows : Store_pushDeliveries s' = <[PushDelivery_ID delivery := row']> (Store_pushDeliveries s);
  sr_status : PushDelivery_Status row' = verdict leased answer;
  sr_token : PushDelivery_LeaseToken row' = uuid_Nil;
  sr_locked : PushDelivery_LockedUntil row' = 0%Z;
  sr_attempts : PushDelivery_Attempts row' = PushDelivery_Attempts row;
  sr_retry : verdict leased answer = PushDeliveryPending →
    ∃ n, (Env_time env n 0%nat + Z.max (retryDelay env leased) (MinimumRetryDelay answer)
          ≤ PushDelivery_NextAttemptAt row')%Z;
  sr_device : Store_devices s' =
    if bool_decide (verdict leased answer = PushDeliveryInvalidToken)
    then alter (λ d, d <| Device_PushToken := "" |>) (PushDelivery_DeviceID row) (Store_devices s)
    else Store_devices s;
  sr_active : Store_activePushDeliveries s' = Store_activePushDeliveries s;
}.

Lemma from_finish s delivery row device leased answer next errorClass :
  (∀ n i, 0 < Env_time env n i)%Z →
  row_lease s delivery row device →
  verdict leased answer ≠ PushDeliveryInvalidToken →
  (verdict leased answer = PushDeliveryPending → ∃ n,
     next = Env_time env n 0%nat + Z.max (retryDelay env leased) (MinimumRetryDelay answer))%Z →
  from s (finish env (PushDelivery_ID delivery) (PushDelivery_LeaseToken delivery)
            (verdict leased answer) next errorClass)
    (λ s' _ _, ∃ row', settled_row s delivery row leased answer s' row').
Proof.
  intros Hclock Hl Hinv Hnext.
  eapply from_bind; [apply from_call|]. intros s1 c [] [-> ->].
  eapply from_bind; [by apply from_critical|]. intros s2 c r (-> & n & Heq). apply from_ret.
  revert Heq. unfold FinishPushDelivery, pendingPush.
  rewrite (lr_row _ _ _ _ Hl), (lr_pending _ _ _ _ Hl), (lr_token _ _ _ _ Hl).
  rewrite !bool_decide_true by done. cbn [negb orb].
  unfold applyPushResult. specialize (Hclock n 0%nat).
  assert (verdict leased answer = PushDeliveryPending ∨ verdict leased answer = PushDeliveryDelivered ∨
    verdict leased answer = PushDeliveryCanceled ∨ verdict leased answer = PushDeliveryDeadLetter) as Hv.
  { revert Hinv. unfold verdict. repeat case_match; auto; done. }
  destruct Hv as [Hv|[Hv|[Hv|Hv]]]; rewrite Hv; intros [= -> _]; eexists;
    (split; [reflexivity|rewrite Hv; cbn; by rewrite ?(lr_pending _ _ _ _ Hl)|done|done|done| |by rewrite Hv|done]); rewrite Hv; try done.
  intros _. destruct (Hnext Hv) as (m & ->). exists m. cbn. destruct (IsZero _) eqn:Hz; bool_prop; lia.
Qed.

Lemma from_invalidate s delivery row device leased answer :
  row_lease s delivery row device → leased = resolveDevice s row →
  verdict leased answer = PushDeliveryInvalidToken →
  from s (critical env (λ clock s,
      InvalidatePushDelivery s (PushDelivery_ID leased) (PushDelivery_LeaseToken leased)
        (PushDelivery_UserID leased) (PushDelivery_DeviceID leased) (PushDelivery_PushToken leased) clock))
    (λ s' c _, c = [] ∧ ∃ row', settled_row s delivery row leased answer s' row').
Proof.
  intros Hl -> Hv. eapply from_weaken; [by apply from_critical|]. intros s' c r (-> & n & Heq).
  split; [done|]. revert Heq. rewrite (resolveDevice_eq _ _ _ (lr_device _ _ _ _ Hl)) in *.
  set (leased := row <| PushDelivery_UserID := _ |> <| _ := _ |> <| _ := _ |>) in *.
  change (PushDelivery_ID leased) with (PushDelivery_ID row).
  change (PushDelivery_LeaseToken leased) with (PushDelivery_LeaseToken row).
  change (PushDelivery_DeviceID leased) with (PushDelivery_DeviceID row).
  change (PushDelivery_UserID leased) with (Device_UserID device).
  change (PushDelivery_PushToken leased) with (Device_PushToken device).
  unfold InvalidatePushDelivery, pendingPush.
  rewrite (lr_id _ _ _ _ Hl), (lr_row _ _ _ _ Hl), (lr_pending _ _ _ _ Hl), (lr_device _ _ _ _ Hl).
  rewrite !bool_decide_true by done. cbn [negb orb]. intros [= -> _]. eexists.
  split; [reflexivity|by rewrite Hv|done|done|done|by rewrite Hv| |done].
  rewrite bool_decide_true by done. cbn. apply map_eq. intros i.
  destruct (decide (PushDelivery_DeviceID row = i)) as [<-|Hne].
  - by rewrite lookup_insert_eq, lookup_alter_eq, (lr_device _ _ _ _ Hl).
  - by rewrite lookup_insert_ne, lookup_alter_ne by done.
Qed.

Lemma leased_ids s delivery row device :
  row_lease s delivery row device →
  PushDelivery_ID (resolveDevice s row) = PushDelivery_ID delivery ∧
  PushDelivery_LeaseToken (resolveDevice s row) = PushDelivery_LeaseToken delivery ∧
  PushDelivery_Attempts (resolveDevice s row) = PushDelivery_Attempts row.
Proof.
  intros Hl. rewrite (resolveDevice_eq _ _ _ (lr_device _ _ _ _ Hl)). cbn.
  by rewrite (lr_id _ _ _ _ Hl), (lr_token _ _ _ _ Hl).
Qed.

Lemma from_settlePush s delivery row device leased answer :
  (∀ n i, 0 < Env_time env n i)%Z →
  row_lease s delivery row device → leased = resolveDevice s row →
  from s (settlePush env leased answer)
    (λ s' _ _, ∃ row', settled_row s delivery row leased answer s' row').
Proof.
  intros Hclock Hl Hleased. destruct (leased_ids _ _ _ _ Hl) as (Hid & Htok & Hatt).
  rewrite <- Hleased in Hid, Htok, Hatt. unfold settlePush.
  assert (∀ v next class, verdict leased answer = v → v ≠ PushDeliveryInvalidToken →
    (v = PushDeliveryPending → ∃ n,
       next = Env_time env n 0%nat + Z.max (retryDelay env leased) (MinimumRetryDelay answer))%Z →
    from s (finish env (PushDelivery_ID leased) (PushDelivery_LeaseToken leased) v next class)
      (λ s' _ _, ∃ row', settled_row s delivery row leased answer s' row')) as Hfin.
  { intros v next class <- Hv Hp. rewrite Hid, Htok. by eapply from_finish. }
  unfold verdict in Hfin at 1.
  destruct (bool_decide _) eqn:Hblank; [by apply Hfin|].
  destruct answer as [e|] eqn:Ha; [|by apply Hfin].
  destruct (IsInvalidToken (Some e)) eqn:Hi.
  { eapply from_bind; [apply from_call|]. intros s1 c [] [-> ->].
    eapply from_bind; [eapply from_invalidate; [done..|]|].
    - unfold verdict. by rewrite Hblank, Hi.
    - intros s2 c r [-> Hs]. by apply from_ret. }
  eapply from_look; [by apply from_ctxErr|]. intros ? ->.
  assert ((PushDelivery_Attempts leased <? MaxAttempts (Env_policy env))%Z
    = negb (MaxAttempts (Env_policy env) <=? PushDelivery_Attempts leased)%Z) as Hlt
    by (by rewrite Z.ltb_antisym). rewrite Hlt in Hfin.
  destruct (IsRetryable (Some e)), (_ <=? _)%Z; cbn [negb andb orb] in *; try (by apply Hfin).
  eapply from_look; [by apply from_now|]. intros t (n & ->). apply Hfin; [done..|]. intros _. by exists n.
Qed.

(** Settling sends nothing. *)
Definition no_send (c : list Call) : Prop := ∀ platform request err, CallSend platform request err ∉ c.

Lemma no_send_nil : no_send [].
Proof. intros ???. apply not_elem_of_nil. Qed.

Lemma emits_finish id leaseToken result next errorClass :
  emits (finish env id leaseToken result next errorClass) (λ c _, no_send c).
Proof.
  eapply emits_bind; [apply emits_call|]. intros c [] ->.
  eapply emits_silent; [apply emits_critical|]. intros r _. apply emits_ret.
  by intros ??? ?%list_elem_of_singleton.
Qed.

Lemma emits_settlePush leased answer : emits (settlePush env leased answer) (λ c _, no_send c).
Proof.
  unfold settlePush. destruct (bool_decide _); [apply emits_finish|].
  destruct answer as [e|]; [|apply emits_finish]. destruct (IsInvalidToken _).
  { eapply emits_bind; [apply emits_call|]. intros c [] ->.
    eapply emits_silent; [apply emits_critical|]. intros r _. apply emits_ret.
    by intros ??? ?%list_elem_of_singleton. }
  eapply emits_silent; [apply emits_ctxErr|]. intros [?|] _.
  - eapply emits_silent; [apply emits_now|]. intros t _. apply emits_finish.
  - destruct (_ || _); [apply emits_finish|].
    eapply emits_silent; [apply emits_now|]. intros t _. apply emits_finish.
Qed.

(** When nobody interferes and nothing is cancelled, one call of
    [deliverPush] on a leased row that no block stops sends it at most once, to the
    device's current token, and closes the row with the verdict on the provider's answer:
    delivered; cancelled without a token; invalid, and the token removed from the device;
    dead once it is not retryable or has had all its attempts; otherwise pending again and
    not due before the back-off and the provider's own delay.  The lease is given back in
    every case and the other rows are untouched. *)
Theorem push_settled s l delivery row device :
  (∀ n i, 0 < Env_time env n i)%Z →
  row_lease s delivery row device → ¬ blocked_row s row device →
  IsDisabled (ForPlatform (Env_push env) (Device_Platform device)) = false →
  let leased := resolveDevice s row in
  let answer := if blank_token leased then None else answerFor leased in
  ∃ calls row',
    Local_calls (deliverPush env delivery s l).1.2 = Local_calls l ++ calls ∧
    (∀ platform request err, CallSend platform request err ∈ calls →
       request = requestFor leased ∧ Request_deviceToken request = Device_PushToken device) ∧
    settled_row s delivery row leased answer (deliverPush env delivery s l).1.1 row'.
Proof.
  intros Hclock Hl Hb Hprov leased answer.
  assert (from s (deliverPush env delivery) (λ s' c _,
    (∀ platform request err, CallSend platform request err ∈ c →
       request = requestFor leased ∧ Request_deviceToken request = Device_PushToken device) ∧
    ∃ row', settled_row s delivery row leased answer s' row')) as Hrun.
  { eapply from_bind; [by eapply from_DeliverPushLease|]. intros s1 c r (-> & -> & ->).
    eapply from_weaken; [apply from_and; [by eapply from_settlePush|apply emits_settlePush]|].
    intros s' c x [Hs Hno]. split; [|done]. intros platform request err [Hin|Hin]%elem_of_app;
      [|by apply Hno in Hin]. fold leased in Hin.
    destruct (blank_token leased); [by apply not_elem_of_nil in Hin|].
    apply list_elem_of_singleton in Hin as [= _ -> _]. split; [done|]. unfold leased.
    by rewrite (resolveDevice_eq _ _ _ (lr_device _ _ _ _ Hl)). }
  destruct (deliverPush env delivery s l) as [[s' l'] x] eqn:Hr.
  destruct (Hrun _ _ _ _ Hr) as (calls & Hc & Hsend & row' & Hrow). by exists calls, row'.
Qed.

(** A row between two people one of whom has blocked the other gets no verdict: the
    worker treats the refusal of the store as the absence of the row.  The store is left
    as it was, so the row stays pending and is due again when its lease ends, however
    many attempts it has had. *)
Lemma blocked_row_never_settles s l delivery row device :
  row_lease s delivery row device → blocked_row s row device →
  let '(s', l', _) := deliverPush env delivery s l in
  s' = s ∧ Local_calls l' = Local_calls l ∧
  ∀ now, (PushDelivery_LockedUntil row ≤ now)%Z → (PushDelivery_NextAttemptAt row ≤ now)%Z →
    pushDue s' now (PushDelivery_ID delivery) row = true.
Proof.
  intros Hl Hb. unfold deliverPush, mbind, M_bind, DeliverPushLease. rewrite Hquiet, Hsteady.
  rewrite (lease_runs _ _ _ row device) by (done || intros; apply Hquiet).
  rewrite decide_True by done. cbn. rewrite Hsteady. cbn. split_and!; [done..|].
  intros now Hlock Hnext. unfold pushDue, pendingPush.
  rewrite (lr_pending _ _ _ _ Hl), (lr_inactive _ _ _ _ Hl), !bool_decide_true by done.
  rewrite (proj2 (After_false _ _) Hnext), (proj2 (After_false _ _) Hlock). by rewrite orb_true_r.
Qed.

End push.

(** ** Who learns what *)
Section privacy.
Context `{GoRuntime} (env : Env) (Hquiet : quiet env).
Implicit Types (s : Store) (d : PushDelivery).

Lemma elem_of_notified n recipients u :
  u ∈ notified n recipients → u ∈ recipients ∧ u ≠ activityNotification_actorID n.
Proof. unfold notified. intros [Hu Hf]%elem_of_bool_filter. by bool_prop. Qed.

Lemma pushClientData_dom d :
  dom (pushClientData d) ⊆ {["type"; "accountId"; "groupId"; "entityId"]}.
Proof.
  unfold pushClientData. destruct (_ || _); [set_solver|].
  repeat case_bool_decide; rewrite ?dom_insert_L, ?dom_singleton_L; set_solver.
Qed.

(** The rows queued for an event carry only the generic text
    and go to usable devices of current recipients, never to a device of the person who
    acted; what a provider is told of a row is that text, identifiers of the account, the
    conversation and the entity, and outside iOS not even these. *)
Theorem notifications_private s l item recipients d :
  push_inv s → push_room s →
  (∀ i, Store_pushDeliveries (enqueuePush env item recipients s l).1.1 !! i = Some d →
   Store_pushDeliveries s !! i = None →
   PushDelivery_Title d = genericPushTitle ∧ PushDelivery_Body d = genericPushBody ∧
   PushDelivery_OutboxEventID d = OutboxEvent_ID item ∧
   ∃ device, Store_devices s !! PushDelivery_DeviceID d = Some device ∧
     Device_PushToken device ≠ "" ∧ Device_UserID device ∈ recipients ∧
     actor item ≠ Some (Device_UserID device)) ∧
  Request_title (requestFor d) = genericPushTitle ∧ Request_body (requestFor d) = genericPushBody ∧
  dom (Request_data (requestFor d)) ⊆ {["type"; "accountId"; "groupId"; "entityId"]} ∧
  (PushDelivery_Platform d ≠ "ios" → Request_data (requestFor d) = {[ "type" := genericPushKind ]}).
Proof.
  intros Hinv Hroom. split_and!; [|done|done|apply pushClientData_dom|].
  2: { intros Hp. cbn. unfold pushClientData. by rewrite (bool_decide_false _ Hp). }
  intros i Hd Hnew. destruct (enqueuePush env item recipients s l) as [[s' l'] x] eqn:Hr. cbn in Hd.
  destruct (from_enqueuePush env Hquiet s item recipients _ _ _ _ Hr) as (c & _ & _ & _ & Hs).
  destruct Hs as [->|(n & clock & Hactor & ->)]; [congruence|].
  destruct (EnqueuePushDeliveries _ _ _ _) as [s1 [k|err]] eqn:Heq; cbn in Hd.
  2: { unfold EnqueuePushDeliveries in Heq. destruct (pushInvalid _); [|by destruct (foldl _ _ _)].
       simplify_eq. }
  destruct (enqueue_ok _ _ _ _ _ _ Hinv Hroom Heq) as [_ _ _ _ _ Hn _ _].
  destruct (Hn i d Hd) as [?|(dev & device & Hin & Hel & -> & _)]; [congruence|].
  split_and!; [done..|]. exists device. apply elem_of_range in Hin. split; [done|].
  unfold pushEligible, pushRecipients in Hel. bool_prop. split; [done|].
  match goal with Hu : Device_UserID device ∈ _ |- _ =>
    apply elem_of_list_to_set, elem_of_bool_filter in Hu as [Hu _];
    apply elem_of_notified in Hu as [? ?] end.
  split; [done|congruence].
Qed.
End privacy.

(** ** Concrete runs *)
Section witnesses.
#[local] Existing Instance Reference.runtime.

Definition handset : Device :=
  mkDevice (uuid_of_N 2) (uuid_of_N 1) "phone" "ios" "abcd" "" RawNil 1 1.
Definition sent_row : PushDelivery :=
  mkPushDelivery 4 7 (uuid_of_N 2) uuid_Nil "" "" genericPushTitle genericPushBody "task" (uuid_of_N 5)
    (uuid_of_N 6) "n-7" "pending" 1 1 (uuid_of_N 40) (3 * Minute) 1 None None "".
Definition sending_store : Store :=
  New <| Store_pushDeliveries := {[ 4%Z := sent_row ]} |>
      <| Store_devices := {[ uuid_of_N 2 := handset ]} |>.

Lemma sending_lease : row_lease sending_store sent_row sent_row handset.
Proof.
  split; [apply lookup_singleton_eq|done|done|done|done| |apply lookup_empty|apply lookup_singleton_eq].
  intros Heq. apply (f_equal (λ u : UUID, uuid_String u)) in Heq. vm_compute in Heq. discriminate Heq.
Qed.

Lemma push_settled_witness :
  ∃ row', Store_pushDeliveries (deliverPush sample_env sent_row sending_store (mkLocal 0 [])).1.1
            !! 4%Z = Some row' ∧ PushDelivery_Status row' = "delivered".
Proof.
  destruct (push_settled sample_env sample_quiet sample_steady sending_store (mkLocal 0 [])
    sent_row sent_row handset sample_clock sending_lease) as (calls & row' & _ & _ & Hs).
  - intros [Hk _]. discriminate Hk.
  - reflexivity.
  - exists row'. rewrite (sr_rows _ _ _ _ _ _ _ _ Hs), (sr_status _ _ _ _ _ _ _ _ Hs).
    split; [apply lookup_insert_eq|]. unfold verdict, resolveDevice.
    change (Store_devices sending_store !! PushDelivery_DeviceID sent_row)
      with (({[ uuid_of_N 2 := handset ]} : gmap UUID Device) !! uuid_of_N 2).
    by rewrite lookup_singleton_eq.
Defined.

Definition room_store : Store :=
  phone_store
    <| Store_devices ::= <[uuid_of_N 3 := mkDevice (uuid_of_N 3) (uuid_of_N 8) "tablet" "android"
                             "efgh" "" RawNil 1 1]> |>
    <| Store_members := {[ uuid_of_N 5 := {[ uuid_of_N 8 := reader ]} ]} |>
    <| Store_conversations := {[ uuid_of_N 5 := zeroConversation ]} |>.
Lemma room_store_inv : push_inv room_store.
Proof. by apply (push_inv_frame phone_store); [..|apply phone_store_inv]. Qed.
Lemma room_store_room : push_room room_store.
Proof. vm_compute. reflexivity. Qed.
Definition notified_store : Store :=
  (enqueuePush sample_env greeting_event [uuid_of_N 1; uuid_of_N 8] room_store (mkLocal 0 [])).1.1.

(** The message of user 1 is announced to the device of user 8 and to no device of user 1. *)
Example notified_devices :
  (λ d, uuid_String (PushDelivery_DeviceID d)) <$> (range (Store_pushDeliveries notified_store)).*2
  = [uuid_String (uuid_of_N 3)].
Proof. vm_compute. reflexivity. Qed.

Lemma notifications_private_witness :
  PushDelivery_Body <$> Store_pushDeliveries notified_store !! 1%Z = Some genericPushBody.
Proof.
  assert (match Store_pushDeliveries notified_store !! 1%Z with Some _ => true | None => false end = true)
    as Hsome by (vm_compute; reflexivity).
  destruct (Store_pushDeliveries notified_store !! 1%Z) as [d|] eqn:Hd; [|discriminate Hsome].
  destruct (notifications_private sample_env sample_quiet room_store (mkLocal 0 []) greeting_event
    [uuid_of_N 1; uuid_of_N 8] d room_store_inv room_store_room) as [Hrows _].
  destruct (Hrows 1%Z Hd (lookup_empty 1%Z)) as (_ & Hbody & _). exact (f_equal Some Hbody).
Defined.
End witnesses.
