(* ===== verification/MailQueue.v ===== *)
(** * The encrypted mail queue

    [src/internal/mail/queue.go]: a queued mail keeps its recipient and its code only
    inside a ciphertext that is bound to the row by additional authenticated data.

    [MailLibrary] lists what is taken from the packages crypto/cipher (one AEAD under the
    key of the queue), net/mail and encoding/json, with the documented facts the proofs
    use.  That a ciphertext made for one additional data does not open under another one
    is a cryptographic assumption and not such a fact; the theorem that needs it says so. *)

From Stdlib Require Import ZArith NArith Lia Ascii.
From S2P Require Import Prelude.
From S2P Require Import Runtime.
From S2P Require Import GoText.
From S2P Require Import Domain.
From S2P Require Import StoreState.
From S2P Require Import Resets.

Record queuePayload := mkqueuePayload {
  queuePayload_Version : Z; queuePayload_Purpose : string; queuePayload_Recipient : string;
  queuePayload_Code : string; queuePayload_TTLSeconds : Z }.
Definition eta_queuePayload (r : queuePayload) : queuePayload :=
  mkqueuePayload (queuePayload_Version r) (queuePayload_Purpose r) (queuePayload_Recipient r)
    (queuePayload_Code r) (queuePayload_TTLSeconds r).
#[export] Instance set_queuePayload_Recipient : Setter queuePayload_Recipient :=
  ltac:(field_setter eta_queuePayload queuePayload_Recipient).

(** Texts that JSON carries unchanged. *)
Definition payload_text `{GoRuntime} (p : queuePayload) : Prop :=
  ValidUTF8 (queuePayload_Purpose p) = true ∧ ValidUTF8 (queuePayload_Recipient p) = true ∧
  ValidUTF8 (queuePayload_Code p) = true.

Class MailLibrary `{GoRuntime} := {
  (** the [Address] of [mail.ParseAddress] *)
  ParseAddress : string → option string;
  (** [json.Marshal] and [json.Unmarshal] on [queuePayload] *)
  payload_json : queuePayload → string;
  payload_of_json : string → option queuePayload;
  (** the AEAD: nonce, text, additional data *)
  NonceSize : nat;
  aead_Seal : string → string → string → string;
  aead_Open : string → string → string → option string;

  payload_of_json_json p : payload_text p → payload_of_json (payload_json p) = Some p;
  aead_Open_Seal nonce text aad :
    String.length nonce = NonceSize → aead_Open nonce (aead_Seal nonce text aad) aad = Some text;
  aead_Open_sealed nonce ciphertext aad text :
    aead_Open nonce ciphertext aad = Some text → ciphertext = aead_Seal nonce text aad;
  aead_Seal_tag nonce text aad : 0 < String.length (aead_Seal nonce text aad);
}.

(** The bytes of an identifier. *)
Fixpoint be_bytes (k : nat) (n : N) : list ascii :=
  match k with
  | O => []
  | S k => be_bytes k (n / 256) ++ [ascii_of_N (n mod 256)]
  end.
Definition uuid_bytes (u : UUID) : string := String.string_of_list_ascii (be_bytes 16 (`u)).

Section queue.
Context `{MailLibrary}.
Implicit Types (code value purpose recipient nonce : string) (challengeID deliveryID : UUID).

Definition mailQueuePayloadVersion : Z := 1.
Definition mailQueueAADPrefix : string := "clixor:mail-queue:v1".

Definition decimal_digit (c : ascii) : bool := let n := N_of_ascii c in (48 <=? n)%N && (n <=? 57)%N.

Definition validResetCode code : bool :=
  (6 <=? strlen code)%Z && (strlen code <=? 16)%Z && forallb decimal_digit (String.list_ascii_of_string code).

Definition validMailPurpose purpose : bool :=
  bool_decide (purpose = MailDeliveryPasswordReset) || bool_decide (purpose = MailDeliveryPasswordChanged).

Definition validMailbox value : bool :=
  let bytes := String.list_ascii_of_string value in
  negb (bool_decide (value = ""))
  && forallb (λ c, negb (bool_decide (c = "013"%char)) && negb (bool_decide (c = "010"%char))) bytes
  && bool_decide (length (List.filter (λ c, bool_decide (c = "@"%char)) bytes) = 1).

Definition mailQueueAAD deliveryID challengeID purpose : string :=
  mailQueueAADPrefix +:+ String "000" (uuid_bytes deliveryID +:+ uuid_bytes challengeID +:+ purpose).

(** [deliveryID], [nonce] and [now] are the results of [uuid.New], of [rand.Read] and of
    the clock. *)
Definition seal challengeID (payload : queuePayload) deliveryID nonce (now : Z) : res MailDelivery :=
  match ParseAddress (TrimSpace (queuePayload_Recipient payload)) with
  | Some address =>
    if negb (validMailbox address) then Err (ErrOther "invalid mail queue recipient")
    else
      let payload := payload <| queuePayload_Recipient := address |> in
      let purpose := queuePayload_Purpose payload in
      let ciphertext := nonce +:+ aead_Seal nonce (payload_json payload)
                                    (mailQueueAAD deliveryID challengeID purpose) in
      Ok (mkMailDelivery deliveryID challengeID purpose ciphertext MailDeliveryPending 0 now uuid_Nil 0
            now None None None "")
  | None => Err (ErrOther "invalid mail queue recipient")
  end.

Definition SealPasswordReset challengeID recipient code (ttl : Z) deliveryID nonce (now : Z) :
    res MailDelivery :=
  if bool_decide (challengeID = uuid_Nil) || negb (validResetCode code) || (ttl <? Minute)%Z
     || (Hour <? ttl)%Z
  then Err (ErrOther "invalid password reset mail payload")
  else seal challengeID (mkqueuePayload mailQueuePayloadVersion MailDeliveryPasswordReset recipient
                           code (Z.quot ttl Second)) deliveryID nonce now.

Definition SealPasswordChanged challengeID recipient deliveryID nonce (now : Z) : res MailDelivery :=
  if bool_decide (challengeID = uuid_Nil) then Err (ErrOther "invalid password changed mail payload")
  else seal challengeID (mkqueuePayload mailQueuePayloadVersion MailDeliveryPasswordChanged recipient
                           "" 0) deliveryID nonce now.

(** The checks of [open] on a decoded payload. *)
Definition payload_for purpose (payload : queuePayload) : option queuePayload :=
  match ParseAddress (TrimSpace (queuePayload_Recipient payload)) with
  | Some address =>
    if negb (validMailbox address)
       || negb (queuePayload_Version payload =? mailQueuePayloadVersion)%Z
       || negb (bool_decide (queuePayload_Purpose payload = purpose)) then None
    else
      let payload := payload <| queuePayload_Recipient := address |> in
      if bool_decide (queuePayload_Purpose payload = MailDeliveryPasswordReset) then
        if negb (validResetCode (queuePayload_Code payload)) || (queuePayload_TTLSeconds payload <? 60)%Z
           || (3600 <? queuePayload_TTLSeconds payload)%Z then None else Some payload
      else if bool_decide (queuePayload_Purpose payload = MailDeliveryPasswordChanged) then
        if negb (bool_decide (queuePayload_Code payload = ""))
           || negb (queuePayload_TTLSeconds payload =? 0)%Z then None else Some payload
      else None
  | None => None
  end.

(** [open]; its errors are not told apart. *)
Definition open_ (delivery : MailDelivery) : option queuePayload :=
  let ciphertext := MailDelivery_Ciphertext delivery in
  let size := String.length ciphertext in
  if bool_decide (MailDelivery_ID delivery = uuid_Nil)
     || bool_decide (MailDelivery_ChallengeID delivery = uuid_Nil)
     || negb (validMailPurpose (MailDelivery_Purpose delivery)) || (size <=? NonceSize)
  then None
  else
    let aad := mailQueueAAD (MailDelivery_ID delivery) (MailDelivery_ChallengeID delivery)
                 (MailDelivery_Purpose delivery) in
    plaintext ← aead_Open (String.substring 0 NonceSize ciphertext)
                  (String.substring NonceSize (size - NonceSize) ciphertext) aad;
    payload ← payload_of_json plaintext;
    payload_for (MailDelivery_Purpose delivery) payload.
End queue.

(** ** The additional data names the row *)

Lemma length_be_bytes k n : length (be_bytes k n) = k.
Proof. revert n. induction k as [|k IH]; intros n; simpl; [done|]. rewrite length_app, IH. simpl. lia. Qed.

Lemma be_bytes_inj k n m :
  (n < 256 ^ N.of_nat k)%N → (m < 256 ^ N.of_nat k)%N → be_bytes k n = be_bytes k m → n = m.
Proof.
  revert n m. induction k as [|k IH]; intros n m Hn Hm; cbn [be_bytes]; [cbn in *; lia|].
  rewrite Nat2N.inj_succ, N.pow_succ_r' in Hn, Hm.
  intros [Hinit Hlast]%app_inj_tail.
  apply IH in Hinit; [|apply N.Div0.div_lt_upper_bound; lia..].
  apply (f_equal N_of_ascii) in Hlast.
  rewrite !N_ascii_embedding in Hlast by (apply N.mod_lt; lia).
  rewrite (N.div_mod n 256), (N.div_mod m 256) by lia. congruence.
Qed.

Lemma uuid_bytes_length u : String.length (uuid_bytes u) = 16.
Proof.
  unfold uuid_bytes. rewrite <- (length_be_bytes 16 (`u)) at 2.
  generalize (be_bytes 16 (`u)) as l. induction l; simpl; auto.
Qed.

Lemma uuid_bytes_inj u v : uuid_bytes u = uuid_bytes v → u = v.
Proof.
  unfold uuid_bytes. intros Heq. apply (f_equal String.list_ascii_of_string) in Heq.
  rewrite !String.list_ascii_of_string_of_list_ascii in Heq.
  apply be_bytes_inj in Heq.
  - destruct u as [n Hn], v as [m Hm]. cbn in Heq. subst m. f_equal. apply proof_irrel.
  - by apply N.ltb_lt, Is_true_eq_true, (proj2_sig u).
  - by apply N.ltb_lt, Is_true_eq_true, (proj2_sig v).
Qed.

Lemma String_inj c s t : String c s = String c t → s = t.
Proof. congruence. Qed.

Lemma mailQueueAAD_inj d c p d' c' p' :
  mailQueueAAD d c p = mailQueueAAD d' c' p' → d = d' ∧ c = c' ∧ p = p'.
Proof.
  unfold mailQueueAAD. intros Heq. apply string_app_inj_prefix in Heq as [_ Heq]; [|done].
  apply String_inj in Heq.
  apply string_app_inj_prefix in Heq as [Hd Heq]; [|by rewrite !uuid_bytes_length].
  apply string_app_inj_prefix in Heq as [Hc ->]; [|by rewrite !uuid_bytes_length].
  by apply uuid_bytes_inj in Hd as ->, Hc as ->.
Qed.

Lemma substring_prefix a b : String.substring 0 (String.length a) (a +:+ b) = a.
Proof. induction a as [|x a IH]; simpl; [by destruct b|]. by rewrite IH. Qed.

Lemma substring_suffix a b :
  String.substring (String.length a) (String.length (a +:+ b) - String.length a) (a +:+ b) = b.
Proof.
  rewrite string_length_app. replace (_ - _) with (String.length b) by lia.
  induction a as [|x a IH]; simpl; [apply substring_full|apply IH].
Qed.

Section roundtrip.
Context `{MailLibrary}.
Implicit Types (code purpose recipient nonce : string) (challengeID deliveryID : UUID).

(** An address in the form [ParseAddress] gives, which it parses to itself. *)
Definition canonical_address recipient : Prop :=
  ParseAddress (TrimSpace recipient) = Some recipient ∧ validMailbox recipient = true ∧
  ValidUTF8 recipient = true.

Lemma digits_valid code : validResetCode code = true → ValidUTF8 code = true.
Proof.
  unfold validResetCode. intros [_ Hd]%andb_true_iff. apply ValidUTF8_graph.
  unfold ascii_graph. rewrite forallb_forall in *. intros c Hc. specialize (Hd c Hc).
  unfold decimal_digit in Hd. unfold graph_char. bool_prop.
  repeat match goal with Hx : (_ <=? _)%N = true |- _ => apply N.leb_le in Hx end.
  apply andb_true_iff. split; [apply N.leb_le|apply N.ltb_lt]; lia.
Qed.

(** Opening what was sealed runs the checks of [open] on the sealed payload. *)
Lemma open_sealed challengeID payload deliveryID nonce now d :
  seal challengeID payload deliveryID nonce now = Ok d →
  canonical_address (queuePayload_Recipient payload) → payload_text payload →
  String.length nonce = NonceSize → deliveryID ≠ uuid_Nil → challengeID ≠ uuid_Nil →
  validMailPurpose (queuePayload_Purpose payload) = true →
  open_ d = payload_for (queuePayload_Purpose payload) payload.
Proof.
  intros Hseal (Hparse & Hbox & _) Htext Hnonce Hd Hc Hpurpose. unfold seal in Hseal.
  rewrite Hparse, Hbox in Hseal. cbn [negb] in Hseal.
  assert (payload <| queuePayload_Recipient := queuePayload_Recipient payload |> = payload) as Hsame
    by (by destruct payload).
  rewrite Hsame in Hseal. injection Hseal as <-. unfold open_. cbn.
  rewrite !bool_decide_false, Hpurpose by done. cbn [negb orb].
  set (sealed := aead_Seal _ _ _).
  destruct (_ <=? _) eqn:Hsize.
  { apply Nat.leb_le in Hsize. pose proof (aead_Seal_tag nonce (payload_json payload)
      (mailQueueAAD deliveryID challengeID (queuePayload_Purpose payload))) as Htag. fold sealed in Htag.
    rewrite string_length_app, Hnonce in Hsize. lia. }
  rewrite <- Hnonce, substring_prefix, substring_suffix. unfold sealed.
  rewrite aead_Open_Seal by done. cbn. by rewrite payload_of_json_json.
Qed.

(** A ciphertext does not open under other additional data. *)
Definition aead_binds : Prop :=
  ∀ nonce text aad text' aad', aead_Seal nonce text aad = aead_Seal nonce text' aad' → aad = aad'.

Lemma open_other challengeID payload deliveryID nonce now d d' :
  aead_binds → seal challengeID payload deliveryID nonce now = Ok d →
  String.length nonce = NonceSize → MailDelivery_Ciphertext d' = MailDelivery_Ciphertext d →
  is_Some (open_ d') →
  MailDelivery_ID d' = deliveryID ∧ MailDelivery_ChallengeID d' = challengeID ∧
  MailDelivery_Purpose d' = queuePayload_Purpose payload.
Proof.
  intros Hbinds Hseal Hnonce Hct [p Hopen]. unfold seal in Hseal. op_cases Hseal.
  unfold open_ in Hopen. rewrite Hct in Hopen. cbn in Hopen. op_cases Hopen.
  rewrite <- Hnonce, substring_prefix, substring_suffix in Hopen.
  destruct (aead_Open _ _ _) as [text|] eqn:Ho; [|done]. apply aead_Open_sealed, Hbinds in Ho.
  by apply mailQueueAAD_inj in Ho as (-> & -> & ->).
Qed.

(** What the two sealing functions put into a row. *)
Inductive sealed_as challengeID recipient deliveryID nonce (now : Z) :
    MailDelivery → queuePayload → Prop :=
  | sealed_reset code ttl d :
      SealPasswordReset challengeID recipient code ttl deliveryID nonce now = Ok d →
      sealed_as challengeID recipient deliveryID nonce now d
        (mkqueuePayload mailQueuePayloadVersion MailDeliveryPasswordReset recipient code (ttl / Second))
  | sealed_changed d :
      SealPasswordChanged challengeID recipient deliveryID nonce now = Ok d →
      sealed_as challengeID recipient deliveryID nonce now d
        (mkqueuePayload mailQueuePayloadVersion MailDeliveryPasswordChanged recipient "" 0).

Lemma sealed_as_seal challengeID recipient deliveryID nonce now d payload :
  sealed_as challengeID recipient deliveryID nonce now d payload → canonical_address recipient →
  seal challengeID payload deliveryID nonce now = Ok d ∧ challengeID ≠ uuid_Nil ∧
  payload_text payload ∧ validMailPurpose (queuePayload_Purpose payload) = true ∧
  payload_for (queuePayload_Purpose payload) payload = Some payload.
Proof.
  intros Hs (Hparse & Hbox & Hutf). destruct Hs as [code ttl d Hs|d Hs].
  - unfold SealPasswordReset in Hs. destruct (_ || _) eqn:Hg; [done|]. bool_prop.
    rewrite Z.quot_div_nonneg in Hs by (unfold Minute, Second in *; lia).
    split_and!; [done..| |done|].
    { split_and!; [by apply ValidUTF8_graph|done|by apply digits_valid]. }
    unfold payload_for. cbn. rewrite Hparse, Hbox. cbn. match goal with Hc : validResetCode code = true |- _ => rewrite Hc end.
    destruct (_ || _) eqn:Ht; [|done]. exfalso. cbn [negb orb] in Ht.
    apply orb_true_iff in Ht. unfold Hour, Minute, Second in *.
    destruct Ht as [Ht|Ht]; bool_prop; Z.to_euclidean_division_equations; lia.
  - unfold SealPasswordChanged in Hs. destruct (bool_decide _) eqn:Hg; [done|]. bool_prop.
    split_and!; [done..| |done|].
    { split_and!; [by apply ValidUTF8_graph|done|by apply ValidUTF8_graph]. }
    unfold payload_for. cbn. by rewrite Hparse, Hbox.
Qed.

(** C30. What is sealed for a canonical address opens to the same
    recipient, code and lifetime in whole seconds; and if the cipher binds its
    additional data, a ciphertext moved into another row, another challenge or another
    purpose does not open. *)
Theorem mail_queue_roundtrip challengeID recipient deliveryID nonce now d payload :
  sealed_as challengeID recipient deliveryID nonce now d payload → canonical_address recipient →
  String.length nonce = NonceSize → deliveryID ≠ uuid_Nil →
  open_ d = Some payload ∧
  (aead_binds → ∀ d', MailDelivery_Ciphertext d' = MailDelivery_Ciphertext d → is_Some (open_ d') →
   MailDelivery_ID d' = deliveryID ∧ MailDelivery_ChallengeID d' = challengeID ∧
   MailDelivery_Purpose d' = MailDelivery_Purpose d).
Proof.
  intros Hs Haddr Hnonce Hd.
  destruct (sealed_as_seal _ _ _ _ _ _ _ Hs Haddr) as (Hseal & Hc & Htext & Hp & Hfor).
  assert (queuePayload_Recipient payload = recipient) as Hr by (by destruct Hs).
  split.
  - by rewrite (open_sealed _ _ _ _ _ _ Hseal) by (done || by rewrite Hr).
  - intros Hbinds d' Hct Hopen. destruct (open_other _ _ _ _ _ _ _ Hbinds Hseal Hnonce Hct Hopen) as (-> & -> & ->).
    split_and!; [done..|]. unfold seal in Hseal. by op_cases Hseal.
Qed.
End roundtrip.

(** ** A concrete library *)
Module ReferenceMail.

#[local] Instance queuePayload_eq_dec : EqDecision queuePayload.
Proof. solve_decision. Defined.
#[local] Instance queuePayload_countable : Countable queuePayload :=
  inj_countable'
    (λ p, (queuePayload_Version p, queuePayload_Purpose p, queuePayload_Recipient p,
           queuePayload_Code p, queuePayload_TTLSeconds p))
    (λ '(v, p, r, c, t), mkqueuePayload v p r c t) (λ '(mkqueuePayload _ _ _ _ _), eq_refl).

Definition json (p : queuePayload) : string := bits (encode p).
Definition of_json (s : string) : option queuePayload := decode (of_bits s).
Definition toy_seal (nonce text aad : string) : string := String "#" (bits (encode (text, aad))).
Definition unseal (nonce ciphertext aad : string) : option string :=
  match ciphertext with
  | String _ c =>
    match decode (of_bits c) : option (string * string) with
    | Some (text, aad') =>
      if bool_decide (aad' = aad) && bool_decide (ciphertext = toy_seal nonce text aad)
      then Some text else None
    | None => None
    end
  | "" => None
  end.

Lemma json_decodes p : of_json (json p) = Some p.
Proof. unfold of_json, json. by rewrite of_bits_bits, decode_encode. Qed.
Lemma unseal_toy nonce text aad : unseal nonce (toy_seal nonce text aad) aad = Some text.
Proof. unfold unseal, toy_seal. by rewrite of_bits_bits, decode_encode, !bool_decide_true. Qed.
Lemma unseal_only nonce c aad text : unseal nonce c aad = Some text → c = toy_seal nonce text aad.
Proof.
  unfold unseal. destruct c as [|x c]; [done|]. destruct (decode _) as [[t a]|]; [|done].
  destruct (_ && _) eqn:Hg; [|done]. bool_prop. congruence.
Qed.

#[local] Existing Instance Reference.runtime.
Program Definition library : MailLibrary := {|
  ParseAddress s := if bool_decide (s = "") then None else Some s;
  payload_json := json; payload_of_json := of_json; NonceSize := 12;
  aead_Seal := toy_seal; aead_Open := unseal;
  payload_of_json_json p _ := json_decodes p;
  aead_Open_Seal n t a _ := unseal_toy n t a;
  aead_Open_sealed := unseal_only |}.
Next Obligation. intros. simpl. lia. Qed.

Lemma binds : @aead_binds _ library.
Proof.
  intros n t a t' a' Heq. cbn in Heq. unfold toy_seal in Heq. apply String_inj in Heq.
  apply (f_equal of_bits) in Heq. rewrite !of_bits_bits in Heq. apply (inj encode) in Heq. congruence.
Qed.
End ReferenceMail.

(** ** Concrete runs *)
Section witnesses.
#[local] Existing Instance Reference.runtime.
#[local] Existing Instance ReferenceMail.library.

Definition reset_payload : queuePayload :=
  mkqueuePayload 1 "password_reset" "ada@example.com" "123456" 600.

Definition repurposed (d : MailDelivery) : MailDelivery :=
  mkMailDelivery (MailDelivery_ID d) (MailDelivery_ChallengeID d) MailDeliveryPasswordChanged
    (MailDelivery_Ciphertext d) "pending" 0 1 uuid_Nil 0 1 None None None "".

Lemma mail_queue_roundtrip_witness :
  match SealPasswordReset (uuid_of_N 4) "ada@example.com" "123456" (10 * Minute) (uuid_of_N 5)
          "twelve bytes" 7 with
  | Ok d => open_ d = Some reset_payload ∧
      open_ (repurposed d) = None
  | Err _ => False
  end.
Proof.
  destruct (SealPasswordReset _ _ _ _ _ _ _) as [d|e] eqn:Hs.
  2: { apply (f_equal (λ r : res MailDelivery, match r with Ok _ => true | Err _ => false end)) in Hs.
       vm_compute in Hs. discriminate Hs. }
  destruct (mail_queue_roundtrip (uuid_of_N 4) "ada@example.com" (uuid_of_N 5) "twelve bytes" 7 d reset_payload)
    as [Hopen Hother].
  - exact (sealed_reset _ _ _ _ _ _ _ _ Hs).
  - split; [vm_compute; reflexivity|split; vm_compute; reflexivity].
  - reflexivity.
  - apply (bool_decide_unpack _). vm_compute. exact I.
  - split; [exact Hopen|].
    destruct (open_ (repurposed d)) as [p|] eqn:Hp; [|reflexivity].
    destruct (Hother ReferenceMail.binds (repurposed d))
      as (_ & _ & Hpurpose); [reflexivity|rewrite Hp; by eexists|].
    exfalso. change (MailDeliveryPasswordChanged = MailDelivery_Purpose d) in Hpurpose.
    apply (f_equal (λ r : res MailDelivery, match r with Ok d => MailDelivery_Purpose d | Err _ => "" end)) in Hs.
    rewrite <- Hpurpose in Hs. vm_compute in Hs. discriminate Hs.
Defined.
End witnesses.
