(* ===== verification/MailWorker.v ===== *)
(** * The mail worker

    [src/internal/mail/worker.go]: claims rows of the mail queue, opens and sends them
    under their lease, and records the outcome.  As for the relay, [others n] is what
    everybody else does to the store before the [n]-th access of a call, and the loops
    over a batch take its rows one after the other.  Logs and metrics are left out. *)

From Stdlib Require Import ZArith NArith Lia.
From S2P Require Import Prelude.
From S2P Require Import Runtime.
From S2P Require Import Domain.
From S2P Require Import StoreState.
From S2P Require Import Resets.
From S2P Require Import Relay.
From S2P Require Import RelayFacts.
From S2P Require Import MailQueue.

Record DeliveryPolicy := mkDeliveryPolicy {
  Mail_BatchSize : Z; Mail_WorkerConcurrency : Z; Mail_MaxAttempts : Z; Mail_BaseDelay : Z;
  Mail_MaxDelay : Z; Mail_DeliveredRetention : Z; Mail_DeadLetterRetention : Z }.

Definition DefaultDeliveryPolicy : DeliveryPolicy :=
  mkDeliveryPolicy 50 4 8 (5 * Second) (30 * Minute) (24 * Hour) (30 * 24 * Hour).

(** The policies the configuration check lets through. *)
Definition mail_policy_valid (p : DeliveryPolicy) : bool :=
  between 1 (Mail_BatchSize p) 1000 && between 1 (Mail_WorkerConcurrency p) 50
  && between 1 (Mail_MaxAttempts p) 20 && between 100000000 (Mail_BaseDelay p) (5 * Minute)
  && between (Mail_BaseDelay p) (Mail_MaxDelay p) (24 * Hour)
  && between Hour (Mail_DeliveredRetention p) (30 * 24 * Hour)
  && between (24 * Hour) (Mail_DeadLetterRetention p) (365 * 24 * Hour).

(** The errors of a mail server connection that the worker tells apart. *)
Inductive TransportError :=
  | ContextEnded
  | CertificateRefused
  | ProtocolError (code : Z)
  | NetworkError
  | OtherTransportError.

(** What a delivery under a lease fails with. *)
Inductive DeliverError :=
  | StoreError (err : Error)
  | errMailPayloadInvalid
  | errMailPurposeInvalid
  | SendFailed (err : TransportError).

(** An error of the store is none of the transport errors. *)
Definition classifyDeliveryError (err : DeliverError) : string * bool :=
  match err with
  | SendFailed ContextEnded => ("timeout", true)
  | SendFailed CertificateRefused => ("tls_identity", false)
  | SendFailed (ProtocolError code) =>
    if (400 <=? code)%Z && (code <? 500)%Z then ("smtp_temporary", true) else ("smtp_rejected", false)
  | SendFailed NetworkError => ("network", true)
  | _ => ("transport", true)
  end.

Record MailEnv := mkMailEnv {
  Mail_others : nat → Store → Store;
  Mail_time : nat → Clock;
  Mail_newToken : UUID;
  Mail_ctxErr : nat → option Error;
  SendPasswordReset : string → string → Z → option TransportError;
  SendPasswordChanged : string → option TransportError;
  Mail_policy : DeliveryPolicy }.

Section worker.
Context `{MailLibrary} (env : MailEnv).
Implicit Types (s : Store) (delivery leased row : MailDelivery).

(** The callback; it captures whether it ran and the row it was given. *)
Definition sendMail (captured : bool * MailDelivery) leased : bool * MailDelivery * option DeliverError :=
  ((true, leased),
   match open_ leased with
   | None => Some errMailPayloadInvalid
   | Some payload =>
     if bool_decide (queuePayload_Purpose payload = MailDeliveryPasswordReset)
     then SendFailed <$> SendPasswordReset env (queuePayload_Recipient payload) (queuePayload_Code payload)
                           (int64_wrap (queuePayload_TTLSeconds payload * Second))
     else if bool_decide (queuePayload_Purpose payload = MailDeliveryPasswordChanged)
     then SendFailed <$> SendPasswordChanged env (queuePayload_Recipient payload)
     else Some errMailPurposeInvalid
   end).

Definition mailJitterSeed delivery : Z :=
  uint64_wrap (Z.of_N (proj1_sig (MailDelivery_ID delivery)) / 2 ^ 64
               + uint64_wrap (uint64_wrap (MailDelivery_Attempts delivery) * 1103515245)).

Definition mailRetryDelay delivery : Z :=
  let p := Mail_policy env in
  let delay := Z.min (retryDelay_loop (Mail_MaxDelay p) (Z.to_nat (MailDelivery_Attempts delivery - 1))
                        (Mail_BaseDelay p)) (Mail_MaxDelay p) in
  if (delay <=? 0)%Z then 0%Z
  else int64_wrap (Z.quot delay 2 + Z.quot (int64_wrap (mailJitterSeed delivery mod 501 * delay)) 1000).

(** One call of [deliver]; the accesses are the lease (0) and the result (1, with the
    reading of the clock for the next attempt before it). *)
Definition deliver s delivery : Store :=
  let s := Mail_others env 0 s in
  let '(invoked, delivery, err) :=
    WithMailDeliveryLease StoreError s (false, delivery) (MailDelivery_ID delivery)
      (MailDelivery_LeaseToken delivery) (Mail_ctxErr env 0) (Some sendMail) in
  let now := Mail_time env 0 0 in
  let s := Mail_others env 1 s in
  let finish result next errorClass :=
    (FinishMailDelivery s (MailDelivery_ID delivery) (MailDelivery_LeaseToken delivery) result next
       errorClass (Mail_time env 1)).1 in
  match err with
  | None => finish MailDeliveryDelivered 0%Z ""
  | Some errMailPayloadInvalid => finish MailDeliveryDeadLetter 0%Z "payload_invalid"
  | Some errMailPurposeInvalid => finish MailDeliveryDeadLetter 0%Z "purpose_invalid"
  | Some err =>
    if negb invoked && match err with StoreError ErrNotFound | StoreError ErrConflict => true | _ => false end
    then s
    else
      match Mail_ctxErr env 1 with
      | Some _ => finish MailDeliveryPending now "shutdown"
      | None =>
        let '(errorClass, retryable) := classifyDeliveryError err in
        if negb retryable || (Mail_MaxAttempts (Mail_policy env) <=? MailDelivery_Attempts delivery)%Z
        then finish MailDeliveryDeadLetter 0%Z errorClass
        else finish MailDeliveryPending (now + mailRetryDelay delivery)%Z errorClass
      end
  end.

(** The store and the new value of [lastPrune]. *)
Definition pruneMailRetention s (lastPrune now : Z) : Store * Z :=
  let p := Mail_policy env in
  if (now - lastPrune <? Hour)%Z then (s, lastPrune)
  else
    ((PruneMailDeliveries s (now - Mail_DeliveredRetention p) (now - Mail_DeadLetterRetention p)
        (now - Mail_DeliveredRetention p) MaxRetentionPruneBatchSize).1, now).
End worker.

(** The rows of the batch are delivered concurrently; [envs i] is what the [i]-th call of
    [deliver] sees. *)
Definition flushMail `{MailLibrary} (env : MailEnv) (envs : nat → MailEnv) (s : Store) : Store :=
  let p := Mail_policy env in
  let limit := Z.max (Z.min (Mail_BatchSize p) (Mail_WorkerConcurrency p)) 1 in
  match LockMailDeliveryBatch s limit (Mail_newToken env) (Mail_time env 0) with
  | (s, Err _) => s
  | (s, Ok batch) => (foldl (λ '(s, i) delivery, (deliver (envs i) s delivery, S i)) (s, 0%nat) batch).1
  end.

(** ** One processed row *)
Section settled.
Context `{MailLibrary} (env : MailEnv).
Implicit Types (s : Store) (delivery leased row : MailDelivery).

(** [delivery] is the lease of the pending row [row] to this worker. *)
Record mail_lease s delivery row : Prop := {
  ml_row : Store_mailDeliveries s !! MailDelivery_ID delivery = Some row;
  ml_id : MailDelivery_ID row = MailDelivery_ID delivery;
  ml_id_set : MailDelivery_ID delivery ≠ uuid_Nil;
  ml_pending : pendingMail row = true;
  ml_token : MailDelivery_LeaseToken row = MailDelivery_LeaseToken delivery;
  ml_token_set : MailDelivery_LeaseToken delivery ≠ uuid_Nil;
}.

Definition mail_answer row : option DeliverError := (sendMail env (false, row) row).2.

Definition mail_verdict row : string :=
  match mail_answer row with
  | None => MailDeliveryDelivered
  | Some errMailPayloadInvalid | Some errMailPurposeInvalid => MailDeliveryDeadLetter
  | Some err =>
    if (classifyDeliveryError err).2 && (MailDelivery_Attempts row <? Mail_MaxAttempts (Mail_policy env))%Z
    then MailDeliveryPending else MailDeliveryDeadLetter
  end.

(** The row after its verdict; a password reset whose mail is given up is closed. *)
Record settled_mail s delivery row s' row' : Prop := {
  sm_rows : Store_mailDeliveries s' = <[MailDelivery_ID delivery := row']> (Store_mailDeliveries s);
  sm_status : MailDelivery_Status row' = mail_verdict row;
  sm_token : MailDelivery_LeaseToken row' = uuid_Nil;
  sm_locked : MailDelivery_LockedUntil row' = 0%Z;
  sm_attempts : MailDelivery_Attempts row' = MailDelivery_Attempts row;
  sm_retry : mail_verdict row = MailDeliveryPending →
    (Mail_time env 0 0%nat + mailRetryDelay env row ≤ MailDelivery_NextAttemptAt row')%Z;
  sm_challenge : mail_verdict row = MailDeliveryDeadLetter →
    MailDelivery_Purpose row = MailDeliveryPasswordReset →
    ∀ c, Store_passwordResets s' !! MailDelivery_ChallengeID row = Some c →
      PasswordResetChallenge_ConsumedAt c ≠ None;
}.

Definition worker_class (errorClass : string) : Prop :=
  errorClass = "" ∨ ascii_graph errorClass = true ∧ (strlen errorClass ≤ 64)%Z ∧
    forallb error_class_char (String.list_ascii_of_string errorClass) = true.

Lemma worker_class_valid errorClass : worker_class errorClass → validMailErrorClass errorClass = true.
Proof.
  unfold validMailErrorClass. intros [->|(Hg & Hl & Hc)].
  - by rewrite TrimSpace_empty, bool_decide_true.
  - rewrite TrimSpace_graph, bool_decide_true, Hc by done.
    destruct (64 <? strlen errorClass)%Z eqn:?; bool_prop; [lia|done].
Qed.

Lemma classify_class err : worker_class (classifyDeliveryError err).1.
Proof.
  right. destruct err as [e| | |[| |code| |]]; try by split_and!; [reflexivity|vm_compute|].
  cbn. destruct (_ && _); by split_and!; [reflexivity|vm_compute|].
Qed.

Lemma finish_settles s delivery row next errorClass :
  (0 < Mail_time env 1 0%nat)%Z → mail_lease s delivery row → worker_class errorClass →
  mail_verdict row ∈ [MailDeliveryDelivered; MailDeliveryPending; MailDeliveryDeadLetter] →
  (mail_verdict row = MailDeliveryPending → next = Mail_time env 0 0%nat + mailRetryDelay env row)%Z →
  (0 ≤ next)%Z →
  ∃ row', settled_mail s delivery row
    (FinishMailDelivery s (MailDelivery_ID row) (MailDelivery_LeaseToken row) (mail_verdict row) next
       errorClass (Mail_time env 1)).1 row'.
Proof.
  intros Hclock Hl Hclass Hv Hnext Hpos. unfold FinishMailDelivery.
  assert (mailResult (mail_verdict row) = true) as ->.
  { set_unfold in Hv. by destruct Hv as [-> | [-> | [-> | []]]]. }
  rewrite (worker_class_valid _ Hclass), (ml_id _ _ _ Hl), (ml_row _ _ _ Hl).
  rewrite !(bool_decide_false (_ = uuid_Nil)) by (rewrite ?(ml_token _ _ _ Hl); apply Hl).
  rewrite (ml_pending _ _ _ Hl), bool_decide_true by done. cbn [negb orb].
  set_unfold in Hv. destruct Hv as [Hv|[Hv|[Hv|[]]]]; rewrite Hv;
    rewrite ?bool_decide_true by done; rewrite ?bool_decide_false by done; cbn [fst].
  - eexists. split; [reflexivity|by rewrite Hv|done..|by rewrite Hv|by rewrite Hv].
  - eexists. split; [reflexivity|by rewrite Hv|done..| |by rewrite Hv]. intros _. cbn.
    rewrite <- Hnext by done. destruct (IsZero next) eqn:Hz; bool_prop; lia.
  - rewrite (bool_decide_true (MailDeliveryDeadLetter = MailDeliveryDeadLetter)) by done. cbn [fst].
    eexists. split; [cbn; repeat case_match; reflexivity|by rewrite Hv|done..|by rewrite Hv|].
    intros _ Hp c. cbn. rewrite bool_decide_true by exact Hp.
    destruct (Store_passwordResets s !! _) as [c'|] eqn:Hc; [|by cbn; rewrite Hc].
    case_bool_decide as Hopen; cbn; [|by rewrite Hc; intros [= <-]].
    rewrite lookup_insert_eq. by intros [= <-].
Qed.

Lemma finish_case s delivery row v next errorClass :
  (0 < Mail_time env 1 0%nat)%Z → mail_lease s delivery row → worker_class errorClass →
  mail_verdict row = v → v ∈ [MailDeliveryDelivered; MailDeliveryPending; MailDeliveryDeadLetter] →
  (v = MailDeliveryPending → next = Mail_time env 0 0%nat + mailRetryDelay env row)%Z → (0 ≤ next)%Z →
  ∃ row', settled_mail s delivery row
    (FinishMailDelivery s (MailDelivery_ID row) (MailDelivery_LeaseToken row) v next
       errorClass (Mail_time env 1)).1 row'.
Proof. intros Hclock Hl Hclass <-. by apply finish_settles. Qed.

(** When nobody interferes and nothing is cancelled, the worker gives
    every leased row of the mail queue its verdict and returns the lease: delivered;
    given up when the payload does not open, the error is permanent or the attempts are
    used up, and then a password reset is closed with it; otherwise pending again, not
    before the back-off, which under an accepted configuration lies between half of and
    the whole capped exponential.  The other rows are untouched. *)
Theorem mail_settled s delivery row :
  (∀ n s, Mail_others env n s = s) → (∀ n, Mail_ctxErr env n = None) →
  (∀ n i, 0 < Mail_time env n i)%Z → mail_policy_valid (Mail_policy env) = true →
  mail_lease s delivery row →
  let cap := backoff (Mail_BaseDelay (Mail_policy env)) (Mail_MaxDelay (Mail_policy env))
               (MailDelivery_Attempts row) in
  (0 < cap / 2 ≤ mailRetryDelay env row)%Z ∧ (mailRetryDelay env row ≤ cap)%Z ∧
  ∃ row', settled_mail s delivery row (deliver env s delivery) row'.
Proof.
  intros Hothers Hctx Hclock Hpolicy Hl cap. unfold mail_policy_valid, between in Hpolicy. bool_prop.
  set (p := Mail_policy env) in *.
  destruct (capped_backoff (Mail_BaseDelay p) (Mail_MaxDelay p) (MailDelivery_Attempts row)) as [Hloop Hcap];
    [dlia..|]. fold cap in Hloop, Hcap.
  destruct (jitter_bounds cap (mailJitterSeed row)) as [Hlow Hhigh]; [dlia|].
  assert (mailRetryDelay env row = int64_wrap (Z.quot cap 2 + Z.quot (int64_wrap (mailJitterSeed row mod 501 * cap)) 1000))
    as Hdelay by (unfold mailRetryDelay; fold p; rewrite Hloop; destruct (cap <=? 0)%Z eqn:?; bool_prop; [dlia|done]).
  rewrite <- Hdelay in Hlow, Hhigh. split; [dlia|]. split; [done|].
  unfold deliver. rewrite !Hothers, !Hctx. unfold WithMailDeliveryLease.
  rewrite !bool_decide_false, (ml_row _ _ _ Hl), (ml_pending _ _ _ Hl), (ml_token _ _ _ Hl) by apply Hl.
  rewrite bool_decide_true by done. cbn [negb orb].
  assert (∀ v next class, worker_class class → mail_verdict row = v →
    v ∈ [MailDeliveryDelivered; MailDeliveryPending; MailDeliveryDeadLetter] →
    (v = MailDeliveryPending → next = Mail_time env 0 0%nat + mailRetryDelay env row)%Z → (0 ≤ next)%Z →
    ∃ row', settled_mail s delivery row
      (FinishMailDelivery s (MailDelivery_ID row) (MailDelivery_LeaseToken row) v next class
         (Mail_time env 1)).1 row') as Hfin
    by (intros v next class Hc Hv; apply finish_case; [apply Hclock|done..]).
  change (sendMail env (false, delivery) row) with ((true, row), mail_answer row).
  unfold mail_verdict in Hfin at 1. fold p in Hfin.
  assert (worker_class "" ∧ worker_class "payload_invalid" ∧ worker_class "purpose_invalid")
    as (Hc0 & Hc1 & Hc2) by (split_and!; [by left|right..]; by split_and!; [reflexivity|vm_compute|]).
  specialize (Hclock 0%nat 0%nat). assert (0 ≤ Mail_time env 0 0%nat + mailRetryDelay env row)%Z by dlia.
  destruct (mail_answer row) as [err|]; [|apply Hfin; set_solver].
  assert (match err with errMailPayloadInvalid | errMailPurposeInvalid => False | _ => True end →
    ∃ row', settled_mail s delivery row
      (let '(errorClass, retryable) := classifyDeliveryError err in
       if negb retryable || (Mail_MaxAttempts p <=? MailDelivery_Attempts row)%Z
       then (FinishMailDelivery s (MailDelivery_ID row) (MailDelivery_LeaseToken row)
               MailDeliveryDeadLetter 0 errorClass (Mail_time env 1)).1
       else (FinishMailDelivery s (MailDelivery_ID row) (MailDelivery_LeaseToken row)
               MailDeliveryPending (Mail_time env 0 0%nat + mailRetryDelay env row) errorClass
               (Mail_time env 1)).1) row') as Hcases.
  { intros Herr. pose proof (classify_class err) as Hclass.
    rewrite Z.ltb_antisym in Hfin. destruct (classifyDeliveryError err) as [class retryable] eqn:Hcl.
    destruct err; try done; cbv beta iota in Hfin;
      destruct retryable, (_ <=? _)%Z; cbn in *; apply Hfin; set_solver. }
  destruct err as [err| | |err]; cbn [negb andb]; try (by apply Hfin; set_solver); by apply Hcases.
Qed.
End settled.

(** ** Concrete runs *)
Section witnesses.
#[local] Existing Instance Reference.runtime.
#[local] Existing Instance ReferenceMail.library.

Definition quiet_mail : MailEnv :=
  mkMailEnv (λ _ s, s) (λ n i, (Z.of_nat (S n) * Second + Z.of_nat i)%Z) (uuid_of_N 30) (λ _, None)
    (λ _ _ _, Some NetworkError) (λ _, None) DefaultDeliveryPolicy.

(** A row whose ciphertext does not open. *)
Definition broken_row : MailDelivery :=
  mkMailDelivery (uuid_of_N 5) (uuid_of_N 4) "password_reset" "a ciphertext of at least 29 bytes" "pending"
    1 1 (uuid_of_N 30) Minute 1 None None None "".
Definition mail_store : Store := New <| Store_mailDeliveries := {[ uuid_of_N 5 := broken_row ]} |>.

Lemma broken_lease : mail_lease mail_store broken_row broken_row.
Proof.
  split; [apply lookup_singleton_eq|reflexivity| |reflexivity|reflexivity|];
    intros Heq; apply (f_equal (λ u : UUID, uuid_String u)) in Heq; vm_compute in Heq; discriminate Heq.
Qed.

Lemma quiet_mail_clock n i : (0 < Mail_time quiet_mail n i)%Z.
Proof. unfold quiet_mail, Second. cbn [Mail_time]. lia. Qed.

Lemma mail_settled_witness :
  ∃ row', Store_mailDeliveries (deliver quiet_mail mail_store broken_row) !! uuid_of_N 5 = Some row' ∧
    MailDelivery_Status row' = "dead_letter".
Proof.
  destruct (mail_settled quiet_mail mail_store broken_row broken_row) as (_ & _ & row' & Hs).
  - reflexivity.
  - reflexivity.
  - exact quiet_mail_clock.
  - vm_compute. reflexivity.
  - exact broken_lease.
  - exists row'. rewrite (sm_rows _ _ _ _ _ _ Hs), (sm_status _ _ _ _ _ _ Hs).
    split; [apply lookup_insert_eq|vm_compute; reflexivity].
Defined.
End witnesses.
