(* ===== verification/Cleanup.v ===== *)
(** * Clean-up workers

    The rounds of [src/internal/media/cleanup.go], which turns expired upload reservations into
    deletions of objects, and of [src/internal/chores/cleanup.go], which prunes the records of
    chore rotations.  Both run beside the rest of the server: [others n] is what the others do to
    the store before the [n]-th access of a round.  The tickers, the log and the metrics are left
    out. *)

From Stdlib Require Import ZArith Lia.
From S2P Require Import Prelude.
From S2P Require Import Runtime.
From S2P Require Import Domain.
From S2P Require Import StoreState.
From S2P Require Import Conversations.
From S2P Require Import Entities.
From S2P Require Import Media.
From S2P Require Import MediaLifecycle.

Section cleanup.
Context `{GoRuntime} (others : nat → Store → Store) (time : nat → Clock).

(** The loop, with fuel: [None] when it runs out.  [n] counts its accesses. *)
Fixpoint cleanupPending_loop (fuel n : nat) (cutoff batchSize total : Z) (s : Store) : option (Store * Z) :=
  match fuel with
  | O => None
  | S fuel =>
    match ExpirePendingMedia (others n s) cutoff batchSize (time n) with
    | (s, Err _) => Some (s, total)
    | (s, Ok expired) =>
      if (expired =? 0)%Z then Some (s, total) else
      let total := int64_wrap (total + expired) in
      if (expired <? batchSize)%Z then Some (s, total)
      else cleanupPending_loop fuel (S n) cutoff batchSize total s
    end
  end.

Definition cleanupPendingAt (fuel : nat) (cutoff batchSize : Z) (s : Store) : option (Store * Z) :=
  cleanupPending_loop fuel 0 cutoff batchSize 0 s.

(** [cutoff] is the clock of the caller. *)
Definition pruneRotationOperations (cutoff batchSize : Z) (s : Store) : Store * Z :=
  match PruneChoreRotationOperations (others 0 s) cutoff batchSize (time 0) with
  | (s, Ok deleted) => (s, deleted)
  | (s, Err _) => (s, 0%Z)
  end.
End cleanup.

(** ** Reservations that are due *)
Section due.
Context `{GoRuntime}.
Implicit Types (s : Store) (cutoff : Z).

Definition due cutoff s : gmap UUID MediaObject :=
  filter (λ kv, expirable cutoff kv = true) (Store_media s).

Lemma lookup_due cutoff s id m :
  due cutoff s !! id = Some m ↔ Store_media s !! id = Some m ∧ expirable cutoff (id, m) = true.
Proof. apply map_lookup_filter_Some. Qed.

Lemma length_due cutoff s :
  length (List.filter (expirable cutoff) (range (Store_media s))) = size (due cutoff s).
Proof.
  assert (List.filter (expirable cutoff) (range (Store_media s)) ≡ₚ map_to_list (due cutoff s)) as ->;
    [|apply length_map_to_list].
  apply NoDup_Permutation; [eapply sublist_NoDup; [apply NoDup_range|apply sublist_bool_filter]|apply NoDup_map_to_list|].
  intros [id m]. by rewrite elem_of_bool_filter, elem_of_range, elem_of_map_to_list, lookup_due.
Qed.

(** One batch takes as many of the due reservations as fit into it. *)
Lemma expire_batch cutoff limit clock s s' r :
  (1 ≤ limit ≤ Z.of_nat MediaDeleteBatchSize)%Z → ExpirePendingMedia s cutoff limit clock = (s', r) →
  ∃ k, r = Ok (Z.of_nat k) ∧ k = Z.to_nat limit `min` size (due cutoff s) ∧
    size (due cutoff s) = k + size (due cutoff s').
Proof.
  intros Hlimit. unfold ExpirePendingMedia.
  destruct (_ || _) eqn:Hb; [apply orb_true_iff in Hb as [?|?]; bool_prop; lia|clear Hb].
  set (objects := take _ _). fold (drop_all s objects cutoff). cbv zeta.
  assert (Hlen : length objects = Z.to_nat limit `min` size (due cutoff s)).
  { unfold objects. by rewrite length_take, merge_sort_Permutation, length_due. }
  assert (Hobj : ∀ kv, kv ∈ objects → due cutoff s !! kv.1 = Some kv.2).
  { intros [i o] Hin. apply elem_of_take in Hin as (j & Hin & _). apply list_elem_of_lookup_2 in Hin.
    rewrite merge_sort_Permutation, elem_of_bool_filter, elem_of_range in Hin. by apply lookup_due. }
  assert (Hnd : NoDup objects.*1).
  { unfold objects. rewrite fmap_take. eapply sublist_NoDup; [|apply sublist_take].
    rewrite merge_sort_Permutation. apply NoDup_fmap_filter, NoDup_fst_range. }
  set (s1 := match MediaObject_ObjectKey <$> objects.*2 with [] => drop_all s objects cutoff | _ => _ end).
  assert (Hs1 : Store_media s1 = Store_media (drop_all s objects cutoff)).
  { unfold s1. destruct (MediaObject_ObjectKey <$> objects.*2); [done|apply appendMediaDeletesAt_media]. }
  intros [= <- <-]. exists (length objects). rewrite !length_fmap. split; [done|]. split; [done|].
  assert (Hsplit : due cutoff s = list_to_map objects ∪ due cutoff s1).
  { apply map_eq. intros id. destruct (drop_all_media s objects cutoff id Hnd) as [Hin Hout].
    destruct (decide (id ∈ objects.*1)) as [Hid|Hid].
    - apply list_elem_of_fmap in Hid as ([i m] & -> & Hm). rewrite (Hobj _ Hm). symmetry.
      apply lookup_union_Some_l. by apply elem_of_list_to_map.
    - rewrite lookup_union_r by (by apply not_elem_of_list_to_map). unfold due.
      apply option_eq. intros m. rewrite !map_lookup_filter_Some, Hs1, Hout by done. done. }
  assert (Hdisj : list_to_map objects ##ₘ due cutoff s1).
  { apply map_disjoint_spec. intros id m m' Hm (Hm' & He)%lookup_due.
    apply elem_of_list_to_map in Hm; [|done]. destruct (drop_all_media s objects cutoff id Hnd) as [Hin _].
    rewrite Hs1, (Hin _ Hm) in Hm'. by injection Hm' as <-. }
  rewrite Hsplit at 1. rewrite map_size_disj_union by done. f_equal.
  by rewrite <- length_map_to_list, map_to_list_to_map.
Qed.
End due.

(** ** Rounds *)
Section rounds.
Context `{GoRuntime} (others : nat → Store → Store) (time : nat → Clock) (cutoff batchSize : Z).
Context (Hbatch : (1 ≤ batchSize ≤ Z.of_nat MediaDeleteBatchSize)%Z).
Context (Hothers : ∀ n s, size (due cutoff (others n s)) ≤ size (due cutoff s)).
Implicit Types (s : Store) (fuel n : nat).

Lemma loop_exhausts fuel n total s :
  size (due cutoff s) < fuel → (0 ≤ total)%Z → (total + Z.of_nat (size (due cutoff s)) < 2 ^ 63)%Z →
  ∃ s' total', cleanupPending_loop others time fuel n cutoff batchSize total s = Some (s', total') ∧
    due cutoff s' = ∅ ∧ (total ≤ total' ≤ total + Z.of_nat (size (due cutoff s)))%Z ∧
    ((∀ m s, others m s = s) → total' = (total + Z.of_nat (size (due cutoff s)))%Z).
Proof using Hbatch Hothers.
  revert n total s. induction fuel as [|fuel IH]; intros n total s Hfuel Htotal Hmax; [lia|]. simpl.
  pose proof (Hothers n s) as Hle.
  assert (Hsame : (∀ m s, others m s = s) → size (due cutoff (others n s)) = size (due cutoff s))
    by (by intros ->).
  destruct (ExpirePendingMedia (others n s) cutoff batchSize (time n)) as [s1 r] eqn:He.
  apply expire_batch in He as (k & -> & Hk & Hsize); [|done].
  assert (Hwrap : int64_wrap (total + Z.of_nat k) = (total + Z.of_nat k)%Z) by (apply int64_wrap_small; lia).
  destruct (Z.eqb_spec (Z.of_nat k) 0) as [Hz|Hz].
  { exists s1, total. split; [done|]. split; [apply map_size_empty_inv; lia|]. split; [lia|].
    intros Hs%Hsame. lia. }
  rewrite Hwrap. destruct (Z.ltb_spec (Z.of_nat k) batchSize) as [Hlt|Hge].
  { exists s1, (total + Z.of_nat k)%Z. split; [done|]. split; [apply map_size_empty_inv; lia|]. split; [lia|].
    intros Hs%Hsame. lia. }
  destruct (IH (S n) (total + Z.of_nat k)%Z s1) as (s' & total' & -> & Hdue & Hrange & Hexact); [lia..|].
  exists s', total'. split; [done|]. split; [done|]. split; [lia|].
  intros Hid. rewrite (Hexact Hid). specialize (Hsame Hid). lia.
Qed.

(** C37. A round of the media clean-up ends and leaves nothing behind.  Whatever the others do
    between its batches — provided they do not make reservations that were due at its cut-off, as
    nobody reserves for the past —, the loop ends within one batch more than there are due
    reservations, none is due then, and the count it reports is at most the number that was due,
    and exactly that number if nobody interfered. *)
Theorem pending_cleanup_exhausts fuel s :
  size (due cutoff s) < fuel → (Z.of_nat (size (due cutoff s)) < 2 ^ 63)%Z →
  ∃ s' total, cleanupPendingAt others time fuel cutoff batchSize s = Some (s', total) ∧
    due cutoff s' = ∅ ∧ (0 ≤ total ≤ Z.of_nat (size (due cutoff s)))%Z ∧
    ((∀ n s, others n s = s) → total = Z.of_nat (size (due cutoff s))).
Proof using Hbatch Hothers.
  intros Hfuel Hmax. destruct (loop_exhausts fuel 0 0 s) as (s' & total & Hl & Hd & Hr & Hx); [done|lia|lia|].
  exists s', total. split; [done|]. split; [done|]. split; [lia|]. intros Hid. rewrite (Hx Hid). lia.
Qed.
End rounds.

(** ** Witnesses *)
Section witnesses.
#[local] Existing Instance Reference.runtime.

Definition reservation (n : N) (status : string) (expires : Z) : MediaObject :=
  mkMediaObject (uuid_of_N n) (uuid_of_N 1) uuid_Nil "" ("users/k" +:+ pretty n) "image/png" 10 ""
    status (Some expires) 0 None None 0 0.

(** Two reservations are due at 100; one is not, and one has been completed. *)
Definition reserved : Store := New <| Store_media := list_to_map
  (map (λ m, (MediaObject_ID m, m))
    [reservation 2 "pending" 50; reservation 3 "pending" 100; reservation 4 "pending" 101;
     reservation 5 "ready" 10]) |>.

Lemma pending_cleanup_exhausts_witness :
  size (due 100 reserved) = 2 ∧
  ∃ s' total, cleanupPendingAt (λ _ s, s) (λ _ _, 0%Z) 3 100 1 reserved = Some (s', total) ∧
    due 100 s' = ∅ ∧ (0 ≤ total ≤ Z.of_nat (size (due 100 reserved)))%Z ∧
    ((∀ (n : nat) (s : Store), s = s) → total = Z.of_nat (size (due 100 reserved))).
Proof.
  assert (Hsize : size (due 100 reserved) = 2) by (vm_compute; reflexivity). split; [exact Hsize|].
  apply (pending_cleanup_exhausts (λ _ s, s) (λ _ _, 0%Z) 100 1).
  - split; [lia|vm_compute; discriminate].
  - intros _ s. apply le_n.
  - rewrite Hsize. apply le_n.
  - rewrite Hsize. reflexivity.
Defined.
End witnesses.
