(* ===== verification/AuthTokens.v ===== *)
(** * Access tokens, refresh tokens and password hashes

    The pure part of [src/internal/auth/tokens.go] and [src/internal/auth/password.go]:
    the claims of an access token, the two halves of a refresh token, the encoded form
    of an Argon2 hash.  The calls on the store follow in [HttpAuth].

    [TokenLibrary] is what the package takes from golang-jwt, from crypto/sha256, from
    golang.org/x/crypto/argon2 and from fmt. *)

From Stdlib Require Import ZArith Lia Ascii.
From S2P Require Import Prelude.
From S2P Require Import Runtime.
From S2P Require Import GoText.
From S2P Require Import Domain.

(** The claims of a token; a [*jwt.NumericDate] is an optional time. *)
Record Claims := mkClaims {
  Claims_DeviceID : string; Claims_SessionID : string; Claims_Issuer : string;
  Claims_Subject : string; Claims_Audience : list string; Claims_IssuedAt : option Z;
  Claims_NotBefore : option Z; Claims_ExpiresAt : option Z; Claims_ID : string }.

Record TokenPair := mkTokenPair {
  TokenPair_AccessToken : string; TokenPair_RefreshToken : string; TokenPair_TokenType : string;
  TokenPair_ExpiresAt : Z }.

Record TokenManager := mkTokenManager {
  TokenManager_issuer : string; TokenManager_secret : string; TokenManager_accessTTL : Z;
  TokenManager_refreshTTL : Z }.

(** [jwt.NewNumericDate] cuts to whole seconds, so that the dates survive their encoding. *)
Definition whole_dates (c : Claims) : Prop :=
  Forall (λ d, from_option (λ t, (Second | t)%Z) True d)
    [Claims_IssuedAt c; Claims_NotBefore c; Claims_ExpiresAt c].

(** crypto/hmac with SHA-256. *)
Class HMAC := { hmac_sha256 : string → string → string }.

(** What the parser checks with [WithIssuer], [WithAudience] and [WithExpirationRequired];
    an empty issuer is not checked. *)
Definition claims_valid (issuer audience : string) (now : Z) (c : Claims) : Prop :=
  (issuer = "" ∨ Claims_Issuer c = issuer) ∧ audience ∈ Claims_Audience c ∧
  (∃ t, Claims_ExpiresAt c = Some t ∧ (now < t)%Z) ∧
  (∀ t, Claims_NotBefore c = Some t → (t ≤ now)%Z).

Class TokenLibrary := {
  NewNumericDate : Z → Z;
  (** the [alg] header of a token, and its claims when its signature verifies under a key *)
  token_alg : string → option string;
  token_verify : string → string → string → option Claims;
  SignedString : string → Claims → string → option string;
  ParseWithClaims : string → (string → option string) → string → string → Z → option Claims;
  sha256 : string → string;
  (** argon2.IDKey with its salt, iterations, memory, parallelism and key length *)
  IDKey : string → string → Z → Z → Z → Z → string;
  (** [fmt.Sscanf(_, "m=%d,t=%d,p=%d")] into two uint32 and a uint8 *)
  Sscanf_argon : string → option (Z * Z * Z);

  NewNumericDate_whole t : (Second | NewNumericDate t)%Z;
  NewNumericDate_trunc t : (NewNumericDate t ≤ t < NewNumericDate t + Second)%Z;
  SignedString_verifies alg c key token :
    SignedString alg c key = Some token → whole_dates c →
    token_alg token = Some alg ∧ token_verify alg key token = Some c;
  ParseWithClaims_spec token keyfunc issuer audience now c :
    ParseWithClaims token keyfunc issuer audience now = Some c ↔
    ∃ alg key, token_alg token = Some alg ∧ keyfunc alg = Some key ∧
      token_verify alg key token = Some c ∧ claims_valid issuer audience now c;
  sha256_length s : String.length (sha256 s) = 32;
  IDKey_length password salt t m p n :
    (0 ≤ n)%Z → Z.of_nat (String.length (IDKey password salt t m p n)) = n;
  Sscanf_argon_printed m t p :
    (0 ≤ m < 2 ^ 32)%Z → (0 ≤ t < 2 ^ 32)%Z → (0 ≤ p < 2 ^ 8)%Z →
    Sscanf_argon ("m=" +:+ pretty m +:+ ",t=" +:+ pretty t +:+ ",p=" +:+ pretty p) = Some (m, t, p);
}.

Section tokens.
Context `{GoRuntime, TokenLibrary}.
Implicit Types (m : TokenManager) (now : Z).

(** ** Access tokens *)

Definition audience : string := "clustr-ios".
Definition HS256 : string := "HS256".

Definition accessClaims m (userID deviceID sessionID tokenID : UUID) now : Claims :=
  mkClaims (uuid_String deviceID) (uuid_String sessionID) (TokenManager_issuer m)
    (uuid_String userID) [audience] (Some (NewNumericDate now))
    (Some (NewNumericDate (now - 5 * Second)))
    (Some (NewNumericDate (now + TokenManager_accessTTL m))) (uuid_String tokenID).

(** [pair]; [tokenID] is its [uuid.NewString]. *)
Definition pair_ m (userID deviceID sessionID : UUID) (refreshSecret : string) now (tokenID : UUID) :
    res TokenPair :=
  match SignedString HS256 (accessClaims m userID deviceID sessionID tokenID now) (TokenManager_secret m) with
  | None => Err (ErrOther "sign access token")
  | Some access =>
    Ok (mkTokenPair access (uuid_String sessionID +:+ "." +:+ refreshSecret) "Bearer"
          (now + TokenManager_accessTTL m))
  end.

(** The key function refuses every algorithm but the one the server signs with. *)
Definition keyfunc m (alg : string) : option string :=
  if negb (bool_decide (alg = HS256)) then None else Some (TokenManager_secret m).

Definition ParseAccess m (tokenString : string) now : res Claims :=
  match ParseWithClaims tokenString (keyfunc m) (TokenManager_issuer m) audience now with
  | Some claims => Ok claims
  | None => Err ErrUnauthenticated
  end.

(** ** Refresh tokens *)

Definition parseRefreshToken (value : string) : res (UUID * string) :=
  match cut "." value with
  | Some (first, secret) =>
    if (strlen secret <? 40)%Z then Err ErrUnauthenticated
    else match uuid_Parse first with Some id => Ok (id, secret) | None => Err ErrUnauthenticated end
  | None => Err ErrUnauthenticated
  end.

Definition refreshHash (secret : string) : string := sha256 secret.

(** [randomToken] of the bytes the system gave, or its failure. *)
Definition randomToken (value : option string) : res string :=
  match value with
  | Some value => Ok (EncodeToString RawURLEncoding value)
  | None => Err (ErrOther "random token")
  end.

(** ** Password hashes *)

Definition argonMemory : Z := 64 * 1024.
Definition argonIterations : Z := 3.
Definition argonParallelism : Z := 2.
Definition argonKeyLength : Z := 32.

(** [salt] is what the system gave for [argonSaltLength] random bytes. *)
Definition HashPassword (password : string) (salt : option string) : res string :=
  if (strlen password <? 10)%Z || (256 <? strlen password)%Z
  then Err (ErrOther "password must contain between 10 and 256 characters")
  else
    match salt with
    | None => Err (ErrOther "generate password salt")
    | Some salt =>
      let hash := IDKey password salt argonIterations argonMemory argonParallelism argonKeyLength in
      Ok ("$argon2id$v=19$" +:+ ("m=" +:+ pretty argonMemory +:+ ",t=" +:+ pretty argonIterations
          +:+ ",p=" +:+ pretty argonParallelism) +:+ "$" +:+ EncodeToString RawStdEncoding salt
          +:+ "$" +:+ EncodeToString RawStdEncoding hash)
    end.

Definition VerifyPassword (encoded password : string) : bool :=
  match Split "$" encoded with
  | [_; scheme; version; params; salt; expected] =>
    if negb (bool_decide (scheme = "argon2id")) || negb (bool_decide (version = "v=19")) then false
    else
      match Sscanf_argon params with
      | None => false
      | Some (memory, iterations, parallelism) =>
        if (256 * 1024 <? memory)%Z || (10 <? iterations)%Z || (8 <? parallelism)%Z then false
        else
          match DecodeString RawStdEncoding salt with
          | None => false
          | Some salt =>
            match DecodeString RawStdEncoding expected with
            | None => false
            | Some expected =>
              if (strlen expected =? 0)%Z then false
              else bool_decide (IDKey password salt iterations memory parallelism (strlen expected) = expected)
            end
          end
      end
  | _ => false
  end.

(** ** Facts *)

Lemma uuid_text_free b u : uuid_char b = false → occurs b (uuid_String u) = false.
Proof.
  intros Hb. apply bool_decide_eq_false. intros Hin%list_elem_of_In.
  pose proof (uuid_String_chars u) as Hc. rewrite forallb_forall in Hc. by rewrite Hc in Hb.
Qed.

Lemma access_claims_whole m userID deviceID sessionID tokenID now :
  whole_dates (accessClaims m userID deviceID sessionID tokenID now).
Proof. repeat constructor; apply NewNumericDate_whole. Qed.

(** The times at which a token issued at [now] is good. *)
Definition token_lives m (now at_ : Z) : Prop :=
  (NewNumericDate (now - 5 * Second) ≤ at_ < NewNumericDate (now + TokenManager_accessTTL m))%Z.

Lemma parse_issued m userID deviceID sessionID secret now tokenID pair at_ c :
  pair_ m userID deviceID sessionID secret now tokenID = Ok pair →
  ParseAccess m (TokenPair_AccessToken pair) at_ = Ok c ↔
  token_lives m now at_ ∧ c = accessClaims m userID deviceID sessionID tokenID now.
Proof.
  unfold pair_. intros Hp. destruct (SignedString _ _ _) as [token|] eqn:Hs; [|done].
  apply (inj Ok) in Hp as <-. cbn.
  destruct (SignedString_verifies _ _ _ _ Hs (access_claims_whole _ _ _ _ _ _)) as [Halg Hver].
  unfold ParseAccess.
  assert (∀ c, ParseWithClaims token (keyfunc m) (TokenManager_issuer m) audience at_ = Some c ↔
    token_lives m now at_ ∧ c = accessClaims m userID deviceID sessionID tokenID now) as Hspec.
  { intros c'. rewrite ParseWithClaims_spec. split.
    - intros (alg & key & Ha & Hk & Hv & Hvalid). simplify_eq. unfold keyfunc in Hk.
      rewrite bool_decide_true in Hk by done. simplify_eq/=. split; [|done].
      destruct Hvalid as (_ & _ & (t & [= <-] & Ht) & Hnb). specialize (Hnb _ eq_refl). by split.
    - intros [[Hnb Hexp] ->]. exists HS256, (TokenManager_secret m).
      split_and!; [done| |done|].
      + unfold keyfunc. by rewrite bool_decide_true.
      + split_and!; [by right|by left|by eexists|]. by intros t [= <-]. }
  specialize (Hspec c). destruct (ParseWithClaims _ _ _ _ _) as [c'|]; split.
  - intros [= ->]. by apply Hspec.
  - intros Hc. apply Hspec in Hc. by simplify_eq.
  - done.
  - intros Hc. by apply Hspec in Hc.
Qed.

Lemma parse_refresh m userID deviceID sessionID secret now tokenID pair :
  (40 ≤ strlen secret)%Z →
  pair_ m userID deviceID sessionID secret now tokenID = Ok pair →
  parseRefreshToken (TokenPair_RefreshToken pair) = Ok (sessionID, secret).
Proof.
  unfold pair_. intros Hlen Hp. destruct (SignedString _ _ _) as [token|] eqn:Hs; [|done].
  apply (inj Ok) in Hp as <-. cbn [TokenPair_RefreshToken]. unfold parseRefreshToken.
  change ("." +:+ secret) with (String "." secret). rewrite cut_app by by apply uuid_text_free.
  replace (strlen secret <? 40)%Z with false by (symmetry; by apply Z.ltb_ge).
  by rewrite uuid_Parse_String.
Qed.

Lemma random_token_length value token :
  randomToken (Some value) = Ok token → String.length value = 48 → strlen token = 64%Z.
Proof.
  intros [= <-] Hl. unfold strlen. rewrite EncodeToString_length, Hl; done.
Qed.

Lemma hash_verifies password salt hash attempt :
  HashPassword password (Some salt) = Ok hash →
  (10 ≤ strlen password ≤ 256)%Z ∧
  (VerifyPassword hash attempt = true ↔
   IDKey attempt salt argonIterations argonMemory argonParallelism argonKeyLength
   = IDKey password salt argonIterations argonMemory argonParallelism argonKeyLength) ∧
  VerifyPassword hash password = true.
Proof.
  unfold HashPassword. intros Hh. destruct (_ || _) eqn:Hlen; [done|]. bool_prop. split; [lia|].
  apply (inj Ok) in Hh. set (key := IDKey password _ _ _ _ _) in *.
  set (params := "m=" +:+ _) in Hh. set (s64 := EncodeToString _ salt) in Hh.
  set (k64 := EncodeToString _ key) in Hh.
  assert (Split "$" hash = [""; "argon2id"; "v=19"; params; s64; k64]) as Hsplit.
  { subst hash. change ("$" +:+ s64 +:+ "$" +:+ k64) with (String "$" (s64 +:+ String "$" k64)).
    change ("$argon2id$v=19$" +:+ params +:+ String "$" (s64 +:+ String "$" k64))
      with (String "$" ("argon2id" +:+ String "$" ("v=19" +:+ String "$"
              (params +:+ String "$" (s64 +:+ String "$" k64))))).
    assert (occurs "$" s64 = false ∧ occurs "$" k64 = false) as [Hs Hk]
      by (split; by apply EncodeToString_free).
    rewrite <- (Split_single "$" k64 Hk), <- (Split_app "$" s64 k64 Hs).
    rewrite <- (Split_app "$" params) by by vm_compute.
    by rewrite <- (Split_app "$" "v=19"), <- (Split_app "$" "argon2id") by done. }
  assert (∀ attempt, VerifyPassword hash attempt = bool_decide
    (IDKey attempt salt argonIterations argonMemory argonParallelism argonKeyLength = key)) as Hv.
  { intros a. unfold VerifyPassword. rewrite Hsplit. cbn [bool_decide].
    rewrite !bool_decide_true by done. cbn [negb orb]. unfold params.
    rewrite Sscanf_argon_printed by done. unfold s64, k64. rewrite !DecodeString_EncodeToString.
    assert (strlen key = argonKeyLength) as -> by by apply IDKey_length. done. }
  rewrite !Hv, bool_decide_eq_true. split; [done|by rewrite bool_decide_true].
Qed.

(** A stored password hash verifies exactly the passwords whose
    Argon2 key under the stored salt is the stored key; in particular the password it was made
    from.  Passwords shorter than 10 or longer than 256 bytes have no hash. *)
Theorem password_verifies password salt hash attempt :
  HashPassword password (Some salt) = Ok hash →
  (10 ≤ strlen password ≤ 256)%Z ∧
  (VerifyPassword hash attempt = true ↔
   IDKey attempt salt argonIterations argonMemory argonParallelism argonKeyLength
   = IDKey password salt argonIterations argonMemory argonParallelism argonKeyLength) ∧
  VerifyPassword hash password = true.
Proof. apply hash_verifies. Qed.

(** The tokens of a pair read back as they were issued: from the time
    the access token becomes valid until its expiry it parses to exactly the claims it was
    issued with, outside that interval it does not parse at all, and the refresh token parses to its session
    and its secret. *)
Theorem tokens_roundtrip m userID deviceID sessionID random secret now tokenID pair at_ c :
  randomToken (Some random) = Ok secret → String.length random = 48 →
  pair_ m userID deviceID sessionID secret now tokenID = Ok pair →
  (ParseAccess m (TokenPair_AccessToken pair) at_ = Ok c ↔
   token_lives m now at_ ∧ c = accessClaims m userID deviceID sessionID tokenID now) ∧
  (token_lives m now at_ → ∃ c, ParseAccess m (TokenPair_AccessToken pair) at_ = Ok c ∧
     uuid_Parse (Claims_Subject c) = Some userID ∧ uuid_Parse (Claims_DeviceID c) = Some deviceID ∧
     uuid_Parse (Claims_SessionID c) = Some sessionID) ∧
  ((0 ≤ TokenManager_accessTTL m - Second)%Z → token_lives m now now) ∧
  parseRefreshToken (TokenPair_RefreshToken pair) = Ok (sessionID, secret).
Proof.
  intros Hr Hl Hp. split_and!.
  - by eapply parse_issued.
  - intros Hlive. exists (accessClaims m userID deviceID sessionID tokenID now).
    split; [by apply (parse_issued _ _ _ _ _ _ _ _ _ _ Hp)|]. cbn. by rewrite !uuid_Parse_String.
  - intros Httl. unfold token_lives. pose proof (NewNumericDate_trunc (now - 5 * Second)).
    pose proof (NewNumericDate_trunc (now + TokenManager_accessTTL m)). unfold Second in *. lia.
  - eapply parse_refresh; [|done]. rewrite (random_token_length _ _ Hr Hl). done.
Qed.
End tokens.

(** ** A concrete library *)
Module ReferenceTokens.

(** A token is the text of the list of its parts. *)
Definition date_text (d : option Z) : string := bits (encode d).
Definition text_date (s : string) : option Z := default None (decode (of_bits s)).

Definition signed (alg : string) (c : Claims) (key : string) : string :=
  bits (encode (alg :: key :: Claims_DeviceID c :: Claims_SessionID c :: Claims_Issuer c :: Claims_Subject c
    :: Claims_ID c :: date_text (Claims_IssuedAt c) :: date_text (Claims_NotBefore c)
    :: date_text (Claims_ExpiresAt c) :: Claims_Audience c)).

Definition unsign (token : string) : option (string * Claims * string) :=
  match decode (of_bits token) : option (list string) with
  | Some (alg :: key :: d :: s :: i :: u :: t :: ia :: nb :: e :: a) =>
    Some (alg, mkClaims d s i u a (text_date ia) (text_date nb) (text_date e) t, key)
  | _ => None
  end.

Lemma text_date_text d : text_date (date_text d) = d.
Proof. unfold text_date, date_text. by rewrite of_bits_bits, decode_encode. Qed.

Definition verify (alg key token : string) : option Claims :=
  match unsign token with
  | Some (alg', c, key') => if bool_decide (alg' = alg ∧ key' = key) then Some c else None
  | None => None
  end.

Definition valid (issuer audience : string) (now : Z) (c : Claims) : bool :=
  bool_decide (issuer = "" ∨ Claims_Issuer c = issuer) && bool_decide (audience ∈ Claims_Audience c)
  && match Claims_ExpiresAt c with Some t => (now <? t)%Z | None => false end
  && match Claims_NotBefore c with Some t => (t <=? now)%Z | None => true end.

Lemma valid_spec issuer audience now c :
  valid issuer audience now c = true ↔ claims_valid issuer audience now c.
Proof.
  unfold valid, claims_valid. rewrite !andb_true_iff, !bool_decide_eq_true.
  assert (match Claims_ExpiresAt c with Some t => (now <? t)%Z | None => false end = true
    ↔ ∃ t, Claims_ExpiresAt c = Some t ∧ (now < t)%Z) as ->.
  { destruct (Claims_ExpiresAt c); rewrite ?Z.ltb_lt; naive_solver. }
  assert (match Claims_NotBefore c with Some t => (t <=? now)%Z | None => true end = true
    ↔ ∀ t, Claims_NotBefore c = Some t → (t ≤ now)%Z) as ->.
  { destruct (Claims_NotBefore c); rewrite ?Z.leb_le; naive_solver. }
  tauto.
Qed.

Definition parse (token : string) (keyfunc : string → option string) (issuer audience : string) (now : Z) :
    option Claims :=
  match unsign token with
  | Some (alg, _, _) =>
    match keyfunc alg with
    | Some key =>
      match verify alg key token with
      | Some c => if valid issuer audience now c then Some c else None
      | None => None
      end
    | None => None
    end
  | None => None
  end.

(** [n] bytes made of a text. *)
Definition fill (n : nat) (s : string) : string := of_bytes (take n (bytes_of s ++ replicate n "."%char)).

Lemma fill_length n s : String.length (fill n s) = n.
Proof.
  unfold fill. assert (∀ l, String.length (of_bytes l) = length l) as -> by (induction l; simpl; auto).
  rewrite length_take, length_app, length_replicate. lia.
Qed.

Definition scan (s : string) : option (Z * Z * Z) :=
  '(m, s) ← cut "," (TrimPrefix s "m="); '(t, s) ← cut "," (TrimPrefix s "t=");
  m ← ParseInt m; t ← ParseInt t; p ← ParseInt (TrimPrefix s "p="); Some (m, t, p).

Lemma pretty_free b n : (0 ≤ n)%Z → digit (N_of_ascii b) = false → occurs b (pretty n) = false.
Proof.
  intros Hn Hb. destruct (pretty_digits n Hn) as (d & -> & _ & Hd & _). apply bool_decide_eq_false.
  rewrite String.list_ascii_of_string_of_list_ascii. intros Hin%list_elem_of_In.
  rewrite forallb_forall in Hd. by rewrite Hd in Hb.
Qed.

Lemma scan_printed m t p :
  (0 ≤ m < 2 ^ 32)%Z → (0 ≤ t < 2 ^ 32)%Z → (0 ≤ p < 2 ^ 8)%Z →
  scan ("m=" +:+ pretty m +:+ ",t=" +:+ pretty t +:+ ",p=" +:+ pretty p) = Some (m, t, p).
Proof.
  intros Hm Ht Hp. unfold scan. rewrite TrimPrefix_app.
  change (",t=" +:+ pretty t +:+ ",p=" +:+ pretty p) with (String "," ("t=" +:+ pretty t +:+ ",p=" +:+ pretty p)).
  rewrite cut_app by (apply pretty_free; [lia|done]). cbn [mbind option_bind]. rewrite TrimPrefix_app.
  change (",p=" +:+ pretty p) with (String "," ("p=" +:+ pretty p)).
  rewrite cut_app by (apply pretty_free; [lia|done]). cbn [mbind option_bind].
  rewrite TrimPrefix_app, !ParseInt_pretty by lia. done.
Qed.

Lemma unsign_signed alg c key : unsign (signed alg c key) = Some (alg, c, key).
Proof. unfold unsign, signed. rewrite of_bits_bits, decode_encode, !text_date_text. by destruct c. Qed.

Program Definition library : TokenLibrary := {|
  NewNumericDate t := t / Second * Second;
  token_alg t := (λ x : string * Claims * string, x.1.1) <$> unsign t;
  token_verify := verify;
  SignedString alg c key := Some (signed alg c key);
  ParseWithClaims := parse;
  sha256 s := fill 32 s;
  IDKey password salt t m p n := fill (Z.to_nat n) (password +:+ salt);
  Sscanf_argon := scan;
  sha256_length s := fill_length 32 s;
  Sscanf_argon_printed := scan_printed |}%Z.
Next Obligation. intros t. simpl. by exists (t / Second)%Z. Qed.
Next Obligation.
  intros t. simpl. pose proof (Z.div_mod t Second ltac:(done)).
  pose proof (Z.mod_pos_bound t Second ltac:(done)). lia.
Qed.
Next Obligation.
  intros alg c key token [= <-] _. cbn. unfold verify. rewrite unsign_signed. simpl.
  by rewrite bool_decide_true.
Qed.
Next Obligation.
  intros token kf issuer audience now c. cbn. unfold parse, verify.
  destruct (unsign token) as [[[alg c'] key]|]; simpl; [|naive_solver]. split.
  - destruct (kf alg) as [key'|] eqn:Hk; [|done]. case_bool_decide as Hd; [|done].
    destruct (valid _ _ _ _) eqn:Hv; [|done]. intros [= <-]. exists alg, key'.
    rewrite bool_decide_true by done. by apply valid_spec in Hv.
  - intros (alg' & key' & Ha & Hk & Hc & Hvalid%valid_spec). injection Ha as <-. rewrite Hk, Hc.
    by rewrite Hvalid.
Qed.
Next Obligation. intros. cbn. rewrite fill_length. lia. Qed.
End ReferenceTokens.

(** ** Concrete runs *)
Section witnesses.
#[local] Existing Instance Reference.runtime.
#[local] Existing Instance ReferenceTokens.library.

Definition sample_manager : TokenManager :=
  mkTokenManager "clustr-api" "0123456789abcdef0123456789abcdef" (15 * Minute) (720 * Hour).
Definition random48 : string := "abcdefghijklmnopqrstuvwxyzabcdefghijklmnopqrstuv".
Definition sample_secret : string := EncodeToString RawURLEncoding random48.
Definition sample_pair : res TokenPair :=
  pair_ sample_manager (uuid_of_N 1) (uuid_of_N 2) (uuid_of_N 3) sample_secret (100 * Hour) (uuid_of_N 4).

Lemma tokens_roundtrip_witness :
  match sample_pair with
  | Ok issued => parseRefreshToken (TokenPair_RefreshToken issued) = Ok (uuid_of_N 3, sample_secret) ∧
      ∃ c, ParseAccess sample_manager (TokenPair_AccessToken issued) (100 * Hour + Minute) = Ok c
  | Err _ => False
  end.
Proof.
  destruct sample_pair as [issued|e] eqn:Hp; [|vm_compute in Hp; discriminate Hp].
  destruct (tokens_roundtrip sample_manager (uuid_of_N 1) (uuid_of_N 2) (uuid_of_N 3) random48 sample_secret
    (100 * Hour) (uuid_of_N 4) issued (100 * Hour + Minute)
    (accessClaims sample_manager (uuid_of_N 1) (uuid_of_N 2) (uuid_of_N 3) (uuid_of_N 4) (100 * Hour)))
    as (_ & Hlive & _ & Hrefresh); [reflexivity|reflexivity|exact Hp|].
  split; [exact Hrefresh|]. destruct Hlive as (c & Hc & _); [|exists c; exact Hc].
  split; vm_compute; [intros [=]|reflexivity].
Defined.

Definition sample_hash : res string := HashPassword "correct horse" (Some "0123456789abcdef").

Lemma password_verifies_witness :
  match sample_hash with
  | Ok hash => VerifyPassword hash "correct horse" = true ∧ VerifyPassword hash "battery staple" = false
  | Err _ => False
  end.
Proof.
  destruct sample_hash as [hash|e] eqn:Hh; [|vm_compute in Hh; discriminate Hh].
  destruct (password_verifies "correct horse" "0123456789abcdef" hash "battery staple" Hh)
    as (_ & Hother & Hself).
  split; [exact Hself|]. destruct (VerifyPassword hash "battery staple"); [|reflexivity].
  destruct Hother as [Hother _]. specialize (Hother eq_refl). vm_compute in Hother. discriminate Hother.
Defined.
End witnesses.
