(* ===== verification/NatsBus.v ===== *)
(** * The NATS event bus

    [src/internal/events/nats.go]: the bus of a deployment of several replicas.  A replica keeps
    the owners of its realtime sessions in memory and says that it is there with a lease in a
    key-value bucket of the NATS server; a fence of the sessions of a user puts a marker into
    another bucket, asks every replica with a lease to fence its owners and waits for all of them.

    The replicas and the two buckets are a transition system with one clock: the clocks of the
    replicas and of the server agree.  A step is one critical section of a replica, one access to
    a bucket with the assignments it leads to, or one local action; a thread between two of them has a [NatsPC].  Entries of a bucket
    disappear at some moment after their time to live, requests and answers may be lost, delayed
    or repeated, and the threads of a replica may be stalled for any time.  The JSON documents are
    decoded values.  The connection to the server ([NewNATS], [openKV], [Ping]) is left out. *)

From Stdlib Require Import ZArith Lia Ascii.
From S2P Require Import Prelude.
From S2P Require Import Runtime.
From S2P Require Import GoText.
From S2P Require Import Domain.
From S2P Require Import Bus.

Definition realtimeOwnerTTL : Z := 15 * Second.
Definition realtimeOwnerAdmission : Z := 3 * Second.
Definition natsFenceTTL : Z := 2 * Minute.

(** The documents of the buckets and of the answers. *)
Record ownerLease := mkownerLease { Lease_ReplicaID : string; Lease_Generation : string }.
Record fenceCommand := mkfenceCommand {
  Command_RequestID : string; Command_UserID : UUID; Command_SessionID : option UUID }.
Record fenceAck := mkfenceAck { Ack_RequestID : string; Ack_ReplicaID : string; Ack_Generation : string }.
#[export] Instance fenceAck_eq_dec : EqDecision fenceAck.
Proof. solve_decision. Defined.

(** [nats.KeyValueEntry] of a put, without its key. *)
Record KVEntry (V : Type) := mkKVEntry { Entry_Value : V; Entry_Created : Z }.
Arguments mkKVEntry {V} _ _.
Arguments Entry_Value {V} _.
Arguments Entry_Created {V} _.

(** The two identifiers a process gives itself. *)
Record Replica := mkReplica { Replica_ID : UUID; Replica_Generation : UUID }.
#[export] Instance Replica_eq_dec : EqDecision Replica.
Proof. solve_decision. Defined.
#[export] Instance Replica_countable : Countable Replica.
Proof.
  refine (inj_countable' (λ r, (Replica_ID r, Replica_Generation r)) (λ p, mkReplica p.1 p.2) _). by intros [].
Defined.

Section names.
Context `{GoRuntime}.
Implicit Types (r : Replica) (u : UUID).

Definition leaseOf r : ownerLease := mkownerLease (uuid_String (Replica_ID r)) (uuid_String (Replica_Generation r)).
Definition leaseKey (lease : ownerLease) : string :=
  "r." +:+ Lease_ReplicaID lease +:+ ".g." +:+ Lease_Generation lease.
Definition replicaLeaseKey r : string := leaseKey (leaseOf r).

Definition fencePrefix u : string := "f." +:+ uuid_String u +:+ ".".

(** The key of the marker [FenceSessions] installs. *)
Definition markerKey u (sessionID : option UUID) (requestID : string) : string :=
  let scope := match sessionID with None => "a" | Some s => "s." +:+ uuid_String s end in
  fencePrefix u +:+ scope +:+ ".t." +:+ requestID.

(** [entriesWithPrefix]: the entries there at one moment. *)
Definition entriesWithPrefix {V} (kv : gmap string (KVEntry V)) (prefix : string) : list (string * KVEntry V) :=
  List.filter (λ e, HasPrefix e.1 prefix) (range kv).

(** [None] when the entry is not a lease of the present. *)
Definition parseOwnerLease (key : string) (entry : KVEntry ownerLease) (now : Z) : option ownerLease :=
  let lease := Entry_Value entry in
  if negb (After (Entry_Created entry + realtimeOwnerTTL) now) || bool_decide (Lease_ReplicaID lease = "")
     || bool_decide (Lease_Generation lease = "")
  then None else if bool_decide (key = leaseKey lease) then Some lease else None.

(** Whether the marker fences all sessions, the one it fences otherwise, and whether it is one. *)
Definition parseFenceKey (key : string) u : bool * UUID * bool :=
  let value := TrimPrefix key (fencePrefix u) in
  if bool_decide (value = key) then (false, uuid_Nil, false) else
  if HasPrefix value "a.t." then (true, uuid_Nil, negb (bool_decide (TrimPrefix value "a.t." = ""))) else
  if negb (HasPrefix value "s.") then (false, uuid_Nil, false) else
  match Split "." value with
  | [_; session; t; requestID] =>
    if negb (bool_decide (t = "t")) || bool_decide (requestID = "") then (false, uuid_Nil, false) else
    match uuid_Parse session with
    | Some id => (false, id, negb (bool_decide (id = uuid_Nil)))
    | None => (false, uuid_Nil, false)
    end
  | _ => (false, uuid_Nil, false)
  end.

Definition fenceCommandMatchesKey (command : fenceCommand) (all : bool) (sessionID : UUID) : bool :=
  if all then bool_decide (Command_SessionID command = None)
  else bool_decide (Command_SessionID command = Some sessionID).

Definition validFenceAck (ack : fenceAck) (requestID replicaID gen : string) : bool :=
  bool_decide (Ack_RequestID ack = requestID) && bool_decide (Ack_ReplicaID ack = replicaID)
  && bool_decide (Ack_Generation ack = gen).

(** The loop of [RegisterSessionOwner] over one marker: whether it is refused, and whether it
    fences the session. *)
Definition markerBad u (e : string * KVEntry fenceCommand) : bool :=
  let '(all, fencedSession, valid) := parseFenceKey e.1 u in
  let command := Entry_Value e.2 in
  negb valid || bool_decide (Command_RequestID command = "") || negb (bool_decide (Command_UserID command = u))
  || negb (fenceCommandMatchesKey command all fencedSession).

Definition markerFences u (sessionID : UUID) (e : string * KVEntry fenceCommand) : bool :=
  let '(all, fencedSession, _) := parseFenceKey e.1 u in all || bool_decide (fencedSession = sessionID).

(** The users of an event, each once; [seen] by the lower case of their text. *)
Fixpoint uniqueUsers_from (seen : gset string) (users : list UUID) : list UUID :=
  match users with
  | [] => []
  | userID :: users =>
    let key := ToLower (uuid_String userID) in
    if bool_decide (key ∈ seen) then uniqueUsers_from seen users
    else userID :: uniqueUsers_from ({[key]} ∪ seen) users
  end.
Definition uniqueUsers (users : list UUID) : list UUID := uniqueUsers_from ∅ users.

(** The messages of [Publish]: the subject for each user. *)
Definition eventSubject u : string := "users." +:+ uuid_String u +:+ ".events".
Definition publishSubjects (users : list UUID) : list string := map eventSubject (uniqueUsers users).

(** The callback of a subscription: an event that does not fit into the channel is dropped. *)
Definition receiveEvent (ch : list RealtimeEvent) (event : option RealtimeEvent) : list RealtimeEvent :=
  match event with
  | Some event => if (length ch <? channelCapacity)%nat then ch ++ [event] else ch
  | None => ch
  end.
End names.

(** ** The cluster *)

(** [natsOwner_fenced]: its callback has been called.  Ghosts: [natsOwner_returned], the call that
    registered it has returned it; [natsOwner_released], its holder has called [Close]. *)
Record natsSessionOwner := mknatsSessionOwner {
  natsOwner_bus : Replica; natsOwner_userID : UUID; natsOwner_sessionID : UUID;
  natsOwner_validUntil : Z; natsOwner_fenced : bool; natsOwner_returned : bool; natsOwner_released : bool }.
Definition eta_natsSessionOwner (o : natsSessionOwner) : natsSessionOwner :=
  mknatsSessionOwner (natsOwner_bus o) (natsOwner_userID o) (natsOwner_sessionID o)
    (natsOwner_validUntil o) (natsOwner_fenced o) (natsOwner_returned o) (natsOwner_released o).
#[export] Instance set_natsOwner_validUntil : Setter natsOwner_validUntil :=
  ltac:(field_setter eta_natsSessionOwner natsOwner_validUntil).
#[export] Instance set_natsOwner_fenced : Setter natsOwner_fenced :=
  ltac:(field_setter eta_natsSessionOwner natsOwner_fenced).
#[export] Instance set_natsOwner_returned : Setter natsOwner_returned :=
  ltac:(field_setter eta_natsSessionOwner natsOwner_returned).
#[export] Instance set_natsOwner_released : Setter natsOwner_released :=
  ltac:(field_setter eta_natsSessionOwner natsOwner_released).

(** What the mutex of a bus guards, and whether [closed] is. *)
Record NATSBUS := mkNATSBUS { NATSBUS_owners : gmap UUID (gmap pointer unit); NATSBUS_closed : bool }.

(** A call of [FenceSessions] and its ticket, under the identifier it gives itself: it lists the
    leases, waits for the answers of [rest], and ends without an error ([FenceHeld]) or with one
    ([FenceFailed]); the ticket is released.  [Fence_targets]: the leases it has sent requests to. *)
Inductive FencePhase :=
  | FenceListing | FenceWaiting (rest : list ownerLease) | FenceHeld | FenceFailed | FenceReleased.
Record Fence := mkFence {
  Fence_userID : UUID; Fence_sessionID : option UUID; Fence_targets : list ownerLease; Fence_phase : FencePhase }.

(** Threads of a replica. *)
Inductive NatsPC :=
  (** [RegisterSessionOwner] before its look at the lease, and before its look at the markers *)
  | RegisterVerify (o : pointer)
  | RegisterScan (o : pointer)
  (** [Close] of an owner, before it is taken out of the map *)
  | OwnerClosing (o : pointer)
  (** [handleFenceCommand]: the owners it has collected *)
  | Handling (r : Replica) (requestID : UUID) (rest : list pointer)
  (** [refreshOwners]: the lease has been put; it has been read again; one of them failed; the
      owners collected then *)
  | RefreshVerify (r : Replica)
  | RefreshMark (r : Replica) (created : Z)
  | RefreshFailed (r : Replica)
  | RefreshFailing (rest : list pointer)
  (** [Close] of the bus, before the lease is deleted *)
  | BusLeaving (r : Replica).

Record Cluster := mkCluster {
  Cluster_now : Z;
  Cluster_leases : gmap string (KVEntry ownerLease);
  Cluster_markers : gmap string (KVEntry fenceCommand);
  Cluster_buses : gmap Replica NATSBUS;
  Cluster_owners : gmap pointer natsSessionOwner;
  Cluster_fences : gmap UUID Fence;
  Cluster_acks : list fenceAck;
  Cluster_threads : gmap nat NatsPC }.
Definition eta_Cluster (w : Cluster) : Cluster :=
  mkCluster (Cluster_now w) (Cluster_leases w) (Cluster_markers w) (Cluster_buses w) (Cluster_owners w)
    (Cluster_fences w) (Cluster_acks w) (Cluster_threads w).
#[export] Instance set_Cluster_now : Setter Cluster_now := ltac:(field_setter eta_Cluster Cluster_now).
#[export] Instance set_Cluster_leases : Setter Cluster_leases := ltac:(field_setter eta_Cluster Cluster_leases).
#[export] Instance set_Cluster_markers : Setter Cluster_markers := ltac:(field_setter eta_Cluster Cluster_markers).
#[export] Instance set_Cluster_buses : Setter Cluster_buses := ltac:(field_setter eta_Cluster Cluster_buses).
#[export] Instance set_Cluster_owners : Setter Cluster_owners := ltac:(field_setter eta_Cluster Cluster_owners).
#[export] Instance set_Cluster_fences : Setter Cluster_fences := ltac:(field_setter eta_Cluster Cluster_fences).
#[export] Instance set_Cluster_acks : Setter Cluster_acks := ltac:(field_setter eta_Cluster Cluster_acks).
#[export] Instance set_Cluster_threads : Setter Cluster_threads := ltac:(field_setter eta_Cluster Cluster_threads).

Definition newCluster (now : Z) : Cluster := mkCluster now ∅ ∅ ∅ ∅ ∅ [] ∅.

(** What may happen.  [ok] is whether an access to the server succeeds; [lost] that a put took
    effect although its answer was lost. *)
Inductive ClusterLabel :=
  | StartBus (r : Replica)
  | RegisterSessionOwner (t : nat) (r : Replica) (o : pointer) (userID sessionID : UUID)
  | CloseOwner (t : nat) (o : pointer)
  | FenceSessions (requestID userID : UUID) (sessionID : option UUID)
  | FenceList (requestID : UUID) (ok : bool)
  | FenceAnswer (requestID : UUID) (ok : bool)
  | ReleaseTicket (requestID : UUID) (ok : bool)
  | Deliver (t : nat) (r : Replica) (requestID : UUID)
  | RefreshPut (t : nat) (r : Replica) (ok lost : bool)
  | CloseBus (t : nat) (r : Replica)
  | Proceed (t : nat) (ok : bool)
  | Tick (elapsed : Z)
  | ExpireLease (key : string)
  | ExpireMarker (key : string).

Section cluster.
Context `{GoRuntime}.
Implicit Types (w : Cluster) (r : Replica) (o : pointer) (t : nat) (bus : NATSBUS).

Definition busOf w r : NATSBUS := default (mkNATSBUS ∅ true) (Cluster_buses w !! r).
Definition putBus w r bus : Cluster := w <| Cluster_buses := <[r := bus]> (Cluster_buses w) |>.
Definition setOwner w o (f : natsSessionOwner → natsSessionOwner) : Cluster :=
  w <| Cluster_owners := alter f o (Cluster_owners w) |>.
Definition threadGoto w t (pc : NatsPC) : Cluster := w <| Cluster_threads := <[t := pc]> (Cluster_threads w) |>.
Definition threadLeave w t : Cluster := w <| Cluster_threads := delete t (Cluster_threads w) |>.
Definition free w t : bool := bool_decide (Cluster_threads w !! t = None).

(** [owner.fence(_)]. *)
Definition fence (owner : natsSessionOwner) : natsSessionOwner := owner <| natsOwner_fenced := true |>.
(** [owner.validUntil.Store(0); owner.fence(nil)]. *)
Definition withdraw (owner : natsSessionOwner) : natsSessionOwner :=
  fence (owner <| natsOwner_validUntil := 0%Z |>).

(** The owners of a user, and all owners, in the map of a bus. *)
Definition ownersOf bus (userID : UUID) : list pointer := (range (nested (NATSBUS_owners bus) userID)).*1.
Definition allOwners bus : list pointer :=
  range (NATSBUS_owners bus) ≫= λ '(_, owners), (range owners).*1.

Definition putOwner bus (userID : UUID) o : NATSBUS :=
  mkNATSBUS (<[userID := <[o := tt]> (nested (NATSBUS_owners bus) userID)]> (NATSBUS_owners bus)) (NATSBUS_closed bus).

Definition dropOwner bus (userID : UUID) o : NATSBUS :=
  let owners := match NATSBUS_owners bus !! userID with
                | Some owners => <[userID := delete o owners]> (NATSBUS_owners bus)
                | None => NATSBUS_owners bus
                end in
  mkNATSBUS (if bool_decide (nested owners userID = ∅) then delete userID owners else owners) (NATSBUS_closed bus).

(** [verifyReplicaLease], with the check of the admission window that follows it: the creation of
    the current lease. *)
Definition admissibleLease w r (ok : bool) : option Z :=
  if negb ok then None else
  match Cluster_leases w !! replicaLeaseKey r with
  | None => None
  | Some entry =>
    match parseOwnerLease (replicaLeaseKey r) entry (Cluster_now w) with
    | None => None
    | Some lease =>
      if negb (bool_decide (Lease_ReplicaID lease = uuid_String (Replica_ID r)))
         || negb (bool_decide (Lease_Generation lease = uuid_String (Replica_Generation r)))
         || negb (After (Entry_Created entry + realtimeOwnerAdmission) (Cluster_now w))
      then None else Some (Entry_Created entry)
    end
  end.

(** The failing ends of [RegisterSessionOwner]: fence, then [Close]. *)
Definition refuseOwner w t o : Cluster :=
  threadGoto (setOwner w o (λ owner, withdraw owner <| natsOwner_released := true |>)) t (OwnerClosing o).

Definition putLease w r : Cluster :=
  w <| Cluster_leases := <[replicaLeaseKey r := mkKVEntry (leaseOf r) (Cluster_now w)]> (Cluster_leases w) |>.

(** [RegisterSessionOwner] from the owner in the map to its admission. *)
Definition verifyOwner w t (ok : bool) o : option Cluster :=
  match Cluster_owners w !! o with
  | Some owner =>
    Some (match admissibleLease w (natsOwner_bus owner) ok with
          | Some created =>
            threadGoto (setOwner w o (λ owner, owner <| natsOwner_validUntil := (created + realtimeOwnerAdmission)%Z |>))
              t (RegisterScan o)
          | None => refuseOwner w t o
          end)
  | None => None
  end.

(** The rest of it: the markers. *)
Definition scanMarkers w t (ok : bool) o : option Cluster :=
  match Cluster_owners w !! o with
  | Some owner =>
    let u := natsOwner_userID owner in
    let markers := entriesWithPrefix (Cluster_markers w) (fencePrefix u) in
    if negb ok || existsb (markerBad u) markers then Some (refuseOwner w t o) else
    let fenced := existsb (markerFences u (natsOwner_sessionID owner)) markers in
    Some (threadLeave (setOwner w o (λ owner, (if fenced then fence owner else owner) <| natsOwner_returned := true |>)) t)
  | None => None
  end.

(** The critical section of [Close] of an owner. *)
Definition removeOwner w t o : option Cluster :=
  match Cluster_owners w !! o with
  | Some owner =>
    let r := natsOwner_bus owner in
    Some (threadLeave (putBus w r (dropOwner (busOf w r) (natsOwner_userID owner) o)) t)
  | None => None
  end.

(** [handleFenceCommand] after it has collected the owners. *)
Definition fenceCollected w t r (requestID : UUID) (rest : list pointer) : option Cluster :=
  match rest with
  | o :: rest =>
    match Cluster_owners w !! o, Cluster_fences w !! requestID with
    | Some owner, Some f =>
      let w := if covers (Fence_sessionID f) (natsOwner_sessionID owner) then setOwner w o fence else w in
      Some (threadGoto w t (Handling r requestID rest))
    | _, _ => None
    end
  | [] =>
    let ack := mkfenceAck (uuid_String requestID) (uuid_String (Replica_ID r)) (uuid_String (Replica_Generation r)) in
    Some (threadLeave (w <| Cluster_acks ::= cons ack |>) t)
  end.

Definition markOwnersAdmissible w r (refreshedAt : Z) : Cluster :=
  foldr (λ o w, setOwner w o (λ owner, owner <| natsOwner_validUntil := (refreshedAt + realtimeOwnerAdmission)%Z |>))
    w (allOwners (busOf w r)).

(** A round of [refreshOwners] that has failed, after it has collected the owners. *)
Definition fenceFailed w t (rest : list pointer) : Cluster :=
  match rest with
  | o :: rest => threadGoto (setOwner w o withdraw) t (RefreshFailing rest)
  | [] => threadLeave w t
  end.

(** The next step of a thread. *)
Definition threadStep w t (ok : bool) (pc : NatsPC) : option Cluster :=
  match pc with
  | RegisterVerify o => verifyOwner w t ok o
  | RegisterScan o => scanMarkers w t ok o
  | OwnerClosing o => removeOwner w t o
  | Handling r requestID rest => fenceCollected w t r requestID rest
  | RefreshVerify r =>
    Some (threadGoto w t (match admissibleLease w r ok with
                          | Some created => RefreshMark r created
                          | None => RefreshFailed r
                          end))
  | RefreshMark r created => Some (threadLeave (markOwnersAdmissible w r created) t)
  | RefreshFailed r => Some (threadGoto w t (RefreshFailing (allOwners (busOf w r))))
  | RefreshFailing rest => Some (fenceFailed w t rest)
  | BusLeaving r =>
    Some (threadLeave (w <| Cluster_leases := delete (replicaLeaseKey r) (Cluster_leases w) |>) t)
  end.

(** The end of [FenceSessions] before its requests: the targets, each once, or an error. *)
Fixpoint collectTargets (now : Z) (entries : list (string * KVEntry ownerLease)) (seen : gset string)
    : option (list ownerLease) :=
  match entries with
  | [] => Some []
  | (key, entry) :: entries =>
    lease ← parseOwnerLease key entry now;
    let name := Lease_ReplicaID lease +:+ "." +:+ Lease_Generation lease in
    if bool_decide (name ∈ seen) then collectTargets now entries seen
    else targets ← collectTargets now entries ({[name]} ∪ seen); Some (lease :: targets)
  end.

Definition setFence w (requestID : UUID) (f : Fence) : Cluster :=
  w <| Cluster_fences := <[requestID := f]> (Cluster_fences w) |>.
Definition setPhase w (requestID : UUID) (f : Fence) (phase : FencePhase) : Cluster :=
  setFence w requestID (mkFence (Fence_userID f) (Fence_sessionID f) (Fence_targets f) phase).

(** With no answers to wait for the fence holds. *)
Definition waiting (rest : list ownerLease) : FencePhase :=
  match rest with [] => FenceHeld | _ => FenceWaiting rest end.

Definition fenceStep w (requestID : UUID) (f : Fence) (ok : bool) : option Cluster :=
  match Fence_phase f with
  | FenceListing =>
    match (if ok then collectTargets (Cluster_now w) (entriesWithPrefix (Cluster_leases w) "r.") ∅ else None) with
    | Some targets => Some (setFence w requestID (mkFence (Fence_userID f) (Fence_sessionID f) targets (waiting targets)))
    | None => Some (setPhase w requestID f FenceFailed)
    end
  | FenceWaiting (target :: rest) =>
    if negb ok then Some (setPhase w requestID f FenceFailed)
    else if existsb (λ ack, validFenceAck ack (uuid_String requestID) (Lease_ReplicaID target) (Lease_Generation target))
              (Cluster_acks w)
    then Some (setPhase w requestID f (waiting rest)) else None
  | _ => None
  end.

(** [NewNATS] from the publication of the lease on. *)
Definition startBus w r : option Cluster :=
  match Cluster_buses w !! r with
  | None => Some (putLease (putBus w r (mkNATSBUS ∅ false)) r)
  | Some _ => None
  end.

(** [RegisterSessionOwner] up to the end of its critical section. *)
Definition insertOwner w t r o (userID sessionID : UUID) : option Cluster :=
  match Cluster_buses w !! r, Cluster_owners w !! o with
  | Some bus, None =>
    if free w t && negb (bool_decide (userID = uuid_Nil)) && negb (bool_decide (sessionID = uuid_Nil))
    then
      let owner := mknatsSessionOwner r userID sessionID 0 false false false in
      let w := w <| Cluster_owners := <[o := owner]> (Cluster_owners w) |> in
      Some (threadGoto (putBus w r (putOwner bus userID o)) t (RegisterVerify o))
    else None
  | _, _ => None
  end.

(** [Close] of an owner, once. *)
Definition closeOwner w t o : option Cluster :=
  match Cluster_owners w !! o with
  | Some owner =>
    if free w t && natsOwner_returned owner && negb (natsOwner_released owner)
    then Some (threadGoto (setOwner w o (λ owner,
           owner <| natsOwner_validUntil := 0%Z |> <| natsOwner_released := true |>)) t (OwnerClosing o))
    else None
  | None => None
  end.

(** [FenceSessions] up to its marker. *)
Definition installMarker w (requestID userID : UUID) (sessionID : option UUID) : option Cluster :=
  match Cluster_fences w !! requestID with
  | Some _ => None
  | None =>
    if bool_decide (userID = uuid_Nil) || bool_decide (sessionID = Some uuid_Nil) then None else
    let request := uuid_String requestID in
    let command := mkfenceCommand request userID sessionID in
    let w := w <| Cluster_markers := <[markerKey userID sessionID request :=
                                         mkKVEntry command (Cluster_now w)]> (Cluster_markers w) |> in
    Some (setFence w requestID (mkFence userID sessionID [] FenceListing))
  end.

(** [Release] of a ticket. *)
Definition releaseTicket w (requestID : UUID) (ok : bool) : option Cluster :=
  match Cluster_fences w !! requestID with
  | Some f =>
    match Fence_phase f with
    | FenceHeld | FenceFailed =>
      let key := markerKey (Fence_userID f) (Fence_sessionID f) (uuid_String requestID) in
      let w := w <| Cluster_markers := delete key (Cluster_markers w) |> in
      Some (if ok then setPhase w requestID f FenceReleased else w)
    | _ => None
    end
  | None => None
  end.

(** A request under the subject of the replica, and [handleFenceCommand] up to the end of its
    critical section. *)
Definition receiveCommand w t r (requestID : UUID) : option Cluster :=
  match Cluster_buses w !! r, Cluster_fences w !! requestID with
  | Some bus, Some f =>
    if free w t && existsb (λ target, bool_decide (leaseKey target = replicaLeaseKey r)) (Fence_targets f)
    then Some (threadGoto w t (Handling r requestID (ownersOf bus (Fence_userID f)))) else None
  | _, _ => None
  end.

(** A round of [refreshOwners] up to the put of the lease. *)
Definition refreshPut w t r (ok lost : bool) : option Cluster :=
  match Cluster_buses w !! r with
  | Some _ =>
    if negb (free w t) then None else
    let w := if ok || lost then putLease w r else w in
    Some (threadGoto w t (if ok then RefreshVerify r else RefreshFailed r))
  | None => None
  end.

(** [Close] of a bus up to the end of its critical section. *)
Definition closeBus w t r : option Cluster :=
  match Cluster_buses w !! r with
  | Some bus =>
    if free w t && negb (NATSBUS_closed bus)
    then Some (threadGoto (putBus (foldr (λ o w, setOwner w o withdraw) w (allOwners bus)) r (mkNATSBUS ∅ true))
                 t (BusLeaving r))
    else None
  | None => None
  end.

Definition clusterStep w (label : ClusterLabel) : option Cluster :=
  match label with
  | StartBus r => startBus w r
  | RegisterSessionOwner t r o userID sessionID => insertOwner w t r o userID sessionID
  | CloseOwner t o => closeOwner w t o
  | FenceSessions requestID userID sessionID => installMarker w requestID userID sessionID
  | FenceList requestID ok | FenceAnswer requestID ok =>
    match Cluster_fences w !! requestID with
    | Some f => fenceStep w requestID f ok
    | None => None
    end
  | ReleaseTicket requestID ok => releaseTicket w requestID ok
  | Deliver t r requestID => receiveCommand w t r requestID
  | RefreshPut t r ok lost => refreshPut w t r ok lost
  | CloseBus t r => closeBus w t r
  | Proceed t ok =>
    match Cluster_threads w !! t with Some pc => threadStep w t ok pc | None => None end
  | Tick elapsed => if (0 <=? elapsed)%Z then Some (w <| Cluster_now ::= Z.add elapsed |>) else None
  | ExpireLease key =>
    match Cluster_leases w !! key with
    | Some entry =>
      if (Entry_Created entry + realtimeOwnerTTL <=? Cluster_now w)%Z
      then Some (w <| Cluster_leases := delete key (Cluster_leases w) |>) else None
    | None => None
    end
  | ExpireMarker key =>
    match Cluster_markers w !! key with
    | Some entry =>
      if (Entry_Created entry + natsFenceTTL <=? Cluster_now w)%Z
      then Some (w <| Cluster_markers := delete key (Cluster_markers w) |>) else None
    | None => None
    end
  end.

(** [Valid] of an owner. *)
Definition natsValid w o : bool :=
  match Cluster_owners w !! o with
  | Some owner => (Cluster_now w <? natsOwner_validUntil owner)%Z
  | None => false
  end.

Fixpoint clusterRun w (trace : list ClusterLabel) : option Cluster :=
  match trace with
  | [] => Some w
  | label :: trace => w ← clusterStep w label; clusterRun w trace
  end.
End cluster.
