(* ===== verification/NatsBusFacts.v ===== *)
(** * Facts about the NATS event bus

    The names of the buckets, and the property the fences are there for: as long as no replica is
    stalled so long that its lease runs out under the sessions it owns, a session that a held fence
    covers is fenced, or its owner has lost its validity long ago, on every replica.  A replica that
    is stalled longer escapes ([stalled_replica_escapes]). *)

From Stdlib Require Import ZArith Lia Ascii.
From S2P Require Import Prelude.
From S2P Require Import Runtime.
From S2P Require Import GoText.
From S2P Require Import Domain.
From S2P Require Import AuthTokens.
From S2P Require Import Bus.
From S2P Require Import NatsBus.

(** ** Names *)
Section names.
Context `{GoRuntime}.
Implicit Types (r : Replica) (u : UUID) (s : option UUID).

Lemma dot_free u : occurs "." (uuid_String u) = false.
Proof. by apply uuid_text_free. Qed.

Lemma app_same_length (a a' b b' : string) :
  String.length a = String.length a' → a +:+ b = a' +:+ b' → a = a' ∧ b = b'.
Proof.
  revert a'. induction a as [|c a IH]; intros [|c' a']; try done.
  intros [= Hl] [= -> Heq]. destruct (IH _ Hl Heq) as [-> ->]. done.
Qed.

Lemma uuid_app u u' a a' : uuid_String u +:+ a = uuid_String u' +:+ a' → u = u' ∧ a = a'.
Proof.
  intros Heq. destruct (app_same_length _ _ _ _ (eq_trans (uuid_String_length u) (eq_sym (uuid_String_length u'))) Heq)
    as [Hu ?]. by apply (inj uuid_String) in Hu.
Qed.

Global Instance leaseOf_inj : Inj (=) (=) leaseOf.
Proof.
  intros [i g] [i' g'] Heq. pose proof (f_equal Lease_ReplicaID Heq) as Hi. pose proof (f_equal Lease_Generation Heq) as Hg.
  apply (inj uuid_String) in Hi, Hg. simpl in *. congruence.
Qed.

Lemma leaseKey_text r :
  replicaLeaseKey r = "r." +:+ (uuid_String (Replica_ID r) +:+ (".g." +:+ uuid_String (Replica_Generation r))).
Proof. reflexivity. Qed.

Global Instance replicaLeaseKey_inj : Inj (=) (=) replicaLeaseKey.
Proof.
  intros [i g] [i' g'] Heq. rewrite !leaseKey_text in Heq. apply (app_same_length "r." "r.") in Heq as [_ Heq]; [|done].
  apply uuid_app in Heq as [Hi Heq]. apply (app_same_length ".g." ".g.") in Heq as [_ Heq]; [|done].
  apply (inj uuid_String) in Heq. simpl in *. congruence.
Qed.

(** The name by which [FenceSessions] recognises a lease it has seen. *)
Lemma lease_name_inj r r' :
  Lease_ReplicaID (leaseOf r) +:+ "." +:+ Lease_Generation (leaseOf r) =
  Lease_ReplicaID (leaseOf r') +:+ "." +:+ Lease_Generation (leaseOf r') → r = r'.
Proof.
  intros Heq. apply uuid_app in Heq as [Hi Heq]. apply (app_same_length "." ".") in Heq as [_ Heq]; [|done].
  apply (inj uuid_String) in Heq. destruct r, r'. simpl in *. congruence.
Qed.

(** A marker belongs to one call of [FenceSessions]. *)
Lemma markerKey_inj u s u' s' requestID requestID' :
  markerKey u s (uuid_String requestID) = markerKey u' s' (uuid_String requestID') →
  requestID = requestID'.
Proof.
  unfold markerKey, fencePrefix. rewrite !string_app_assoc. intros Heq.
  apply (app_same_length "f." "f.") in Heq as [_ Heq]; [|done].
  apply uuid_app in Heq as [-> Heq]. apply (app_same_length "." ".") in Heq as [_ Heq]; [|done].
  destruct s as [x|], s' as [x'|]; try discriminate; rewrite ?string_app_assoc in Heq.
  - apply (app_same_length "s." "s.") in Heq as [_ Heq]; [|done].
    apply uuid_app in Heq as [_ Heq]. apply (app_same_length ".t." ".t.") in Heq as [_ Heq]; [|done].
    by apply (inj uuid_String) in Heq.
  - apply (app_same_length "a" "a") in Heq as [_ Heq]; [|done].
    apply (app_same_length ".t." ".t.") in Heq as [_ Heq]; [|done]. by apply (inj uuid_String) in Heq.
Qed.

(** A marker is read back as what was put: it fences the sessions it was meant for. *)
Lemma parse_markerKey u s requestID :
  s ≠ Some uuid_Nil →
  parseFenceKey (markerKey u s (uuid_String requestID)) u =
    match s with None => (true, uuid_Nil, true) | Some x => (false, x, true) end.
Proof.
  intros Hs. unfold parseFenceKey, markerKey. rewrite TrimPrefix_app.
  assert (Hne : ∀ value, value ≠ fencePrefix u +:+ value).
  { intros value Hv. apply (f_equal String.length) in Hv. rewrite string_length_app in Hv.
    unfold fencePrefix in Hv. simpl in Hv. lia. }
  rewrite bool_decide_false by apply Hne.
  assert (Htext : uuid_String requestID ≠ "").
  { intros Heq. pose proof (uuid_String_length requestID) as Hl. by rewrite Heq in Hl. }
  destruct s as [x|].
  - rewrite !string_app_assoc. set (value := "s." +:+ _).
    assert (Hsplit : Split "." value = ["s"; uuid_String x; "t"; uuid_String requestID]).
    { unfold value. change ("s." +:+ ?a) with ("s" +:+ String "." a).
      rewrite Split_app by done. f_equal. change (".t." +:+ ?a) with (String "." ("t" +:+ String "." a)).
      rewrite Split_app by apply dot_free. f_equal. rewrite Split_app by done. f_equal.
      apply Split_single, dot_free. }
    change (HasPrefix value "a.t.") with false. change (HasPrefix value "s.") with (String.prefix "" (uuid_String x +:+ (".t." +:+ uuid_String requestID))).
    rewrite Hsplit. cbn [negb]. rewrite bool_decide_true by done. rewrite bool_decide_false by done. cbn [negb orb].
    rewrite uuid_Parse_String, bool_decide_false by congruence.
    destruct (uuid_String x +:+ _); done.
  - change ("a" +:+ ".t." +:+ uuid_String requestID) with ("a.t." +:+ uuid_String requestID).
    rewrite HasPrefix_app, TrimPrefix_app. by rewrite bool_decide_false.
Qed.
End names.

(** ** Owners *)
Section owners.
Context `{GoRuntime}.
Implicit Types (w : Cluster) (r : Replica) (o : pointer) (u : UUID) (bus : NATSBUS) (owner : natsSessionOwner).

(** [o] is in the map of the bus of [r]. *)
Definition inMap w r u o : Prop := nested (NATSBUS_owners (busOf w r)) u !! o = Some tt.

(** Neither fenced nor given up. *)
Definition live w o owner : Prop :=
  Cluster_owners w !! o = Some owner ∧ natsOwner_fenced owner = false ∧ natsOwner_released owner = false.

Lemma elem_of_ownersOf bus u o : o ∈ ownersOf bus u ↔ nested (NATSBUS_owners bus) u !! o = Some tt.
Proof.
  unfold ownersOf. rewrite list_elem_of_fmap. split.
  - intros ([o' []] & -> & Hin). by apply elem_of_range in Hin.
  - intros Hin. exists (o, tt). split; [done|]. by apply elem_of_range.
Qed.

Lemma elem_of_allOwners bus o : o ∈ allOwners bus ↔ ∃ u, nested (NATSBUS_owners bus) u !! o = Some tt.
Proof.
  unfold allOwners. rewrite list_elem_of_bind. split.
  - intros ([u owners] & Ho & Hin). exists u. apply elem_of_range in Hin. unfold nested. rewrite Hin.
    apply list_elem_of_fmap in Ho as ([o' []] & -> & Ho). by apply elem_of_range in Ho.
  - intros (u & Hu). unfold nested in Hu. destruct (NATSBUS_owners bus !! u) as [owners|] eqn:Hb; [|done].
    exists (u, owners). split; [|by apply elem_of_range]. apply list_elem_of_fmap. exists (o, tt).
    split; [done|]. by apply elem_of_range.
Qed.

Lemma putOwner_map bus u o u' o' :
  nested (NATSBUS_owners (putOwner bus u o)) u' !! o' = Some tt ↔
    (u' = u ∧ o' = o) ∨ nested (NATSBUS_owners bus) u' !! o' = Some tt.
Proof.
  unfold putOwner. simpl. rewrite nested_insert. case_decide as Hu; [subst|naive_solver].
  destruct (decide (o = o')) as [<-|Ho].
  - rewrite lookup_insert_eq. split; [by left|done].
  - rewrite lookup_insert_ne by done. split; [by right|]. by intros [[_ ->]|Hx].
Qed.

Lemma dropOwner_map bus u o u' o' :
  nested (NATSBUS_owners (dropOwner bus u o)) u' !! o' = Some tt ↔
    nested (NATSBUS_owners bus) u' !! o' = Some tt ∧ ¬ (u' = u ∧ o' = o).
Proof.
  unfold dropOwner. simpl.
  set (owners := match NATSBUS_owners bus !! u with Some _ => _ | None => _ end).
  assert (Hn : ∀ u', nested owners u' = if decide (u = u') then delete o (nested (NATSBUS_owners bus) u) else nested (NATSBUS_owners bus) u').
  { intros v. unfold owners. destruct (NATSBUS_owners bus !! u) as [m|] eqn:Hm.
    - rewrite nested_insert. unfold nested at 2. by rewrite Hm.
    - case_decide as Hv; [subst|done]. unfold nested. rewrite Hm. simpl. by rewrite delete_empty. }
  assert (Hd : nested (if bool_decide (nested owners u = ∅) then delete u owners else owners) u' = nested owners u').
  { case_bool_decide as He; [|done]. rewrite nested_delete. case_decide as Hv; [subst|done]. by rewrite He. }
  rewrite Hd, Hn. clear Hd Hn. destruct (decide (u = u')) as [<-|Hv].
  - rewrite lookup_delete_Some. split; [intros [Ho Hx]|intros [Hx Ho]]; (split; [|]); try done.
    + by intros [_ ->].
    + intros ->. by apply Ho.
  - split; [|by intros [Hx _]]. intros Hx. split; [done|]. by intros [-> _].
Qed.

Lemma setOwner_owners w o f o' :
  Cluster_owners (setOwner w o f) !! o' = if decide (o' = o) then f <$> Cluster_owners w !! o' else Cluster_owners w !! o'.
Proof.
  unfold setOwner. simpl. case_decide as Ho; [subst; by rewrite lookup_alter_eq|by rewrite lookup_alter_ne].
Qed.

(** Setting all owners of a list changes nothing but the owners. *)
Lemma setOwners_spec w f (l : list pointer) :
  let w' := foldr (λ o w, setOwner w o f) w l in
  (∀ owner, f (f owner) = f owner) →
  w' = w <| Cluster_owners := Cluster_owners w' |> ∧
  ∀ o, Cluster_owners w' !! o = if decide (o ∈ l) then f <$> Cluster_owners w !! o else Cluster_owners w !! o.
Proof.
  intros w' Hf. subst w'. induction l as [|x l [IH1 IH2]]; cbn [foldr]; [split; [by destruct w|intros o; by rewrite decide_False by set_solver]|]. split.
  - unfold setOwner at 1. rewrite IH1 at 1. reflexivity.
  - intros o. rewrite setOwner_owners, IH2. case_decide as Hx; [subst|].
    + rewrite (decide_True (P := x ∈ x :: l)) by set_solver. case_decide; [|done].
      destruct (Cluster_owners w !! x); simpl; [by rewrite Hf|done].
    + destruct (decide (o ∈ l)) as [Hl|Hl].
      * by rewrite decide_True by set_solver.
      * by rewrite decide_False by set_solver.
Qed.
End owners.

(** ** The invariant *)
Section invariant.
Context `{GoRuntime}.
Implicit Types (w : Cluster) (r : Replica) (o : pointer) (u : UUID) (bus : NATSBUS) (owner : natsSessionOwner)
  (req : UUID) (f : Fence).

(** [v] lies so far back that whatever was admitted until then has ended: by the life of a lease,
    less the time a lease admits work. *)
Definition drained w (v : Z) : Prop := (v + (realtimeOwnerTTL - realtimeOwnerAdmission) ≤ Cluster_now w)%Z.

(** An admission until [v] on [r] is of the past or covered by the lease of the replica. *)
Definition within w r (v : Z) : Prop :=
  drained w v ∨ ∃ e, Cluster_leases w !! replicaLeaseKey r = Some e ∧
    (v ≤ Entry_Created e + realtimeOwnerAdmission)%Z.

Definition thread_ok w (pc : NatsPC) : Prop :=
  match pc with
  | OwnerClosing o => ∃ owner, Cluster_owners w !! o = Some owner ∧ natsOwner_released owner = true
  | Handling _ req _ => ∃ f, Cluster_fences w !! req = Some f ∧ Fence_phase f ≠ FenceListing
  | RefreshVerify r | RefreshFailed r => is_Some (Cluster_buses w !! r)
  | RefreshMark r created => is_Some (Cluster_buses w !! r) ∧
      (NATSBUS_closed (busOf w r) = true ∨ within w r (created + realtimeOwnerAdmission))
  | BusLeaving r => is_Some (Cluster_buses w !! r) ∧ NATSBUS_closed (busOf w r) = true
  | _ => True
  end.

(** The session of the owner is one the fence is for. *)
Definition covered f owner : Prop :=
  natsOwner_userID owner = Fence_userID f ∧ covers (Fence_sessionID f) (natsOwner_sessionID owner) = true.

(** The replica of the owner has lost its lease, and nothing it does will readmit the owner. *)
Definition lapsed w owner : Prop :=
  Cluster_leases w !! replicaLeaseKey (natsOwner_bus owner) = None ∧ drained w (natsOwner_validUntil owner) ∧
  ∀ t created, Cluster_threads w !! t = Some (RefreshMark (natsOwner_bus owner) created) →
    drained w (created + realtimeOwnerAdmission).

(** The replica of the owner has not answered the fence, and has still to fence the owner before
    it does. *)
Definition unanswered w req o owner : Prop :=
  (∀ ack, ack ∈ Cluster_acks w → Ack_RequestID ack = uuid_String req →
     Ack_ReplicaID ack = uuid_String (Replica_ID (natsOwner_bus owner)) →
     Ack_Generation ack = uuid_String (Replica_Generation (natsOwner_bus owner)) → False) ∧
  ∀ t rest, Cluster_threads w !! t = Some (Handling (natsOwner_bus owner) req rest) → o ∈ rest.

Definition fence_state w req f o owner : Prop :=
  match Fence_phase f with
  | FenceWaiting rest => lapsed w owner ∨ (leaseOf (natsOwner_bus owner) ∈ rest ∧ unanswered w req o owner)
  | FenceHeld => lapsed w owner
  | _ => True
  end.

(** The marker of the fence is there. *)
Definition marked w req f : Prop :=
  is_Some (Cluster_markers w !! markerKey (Fence_userID f) (Fence_sessionID f) (uuid_String req)).

Record cluster_inv w : Prop := {
  ci_now : (realtimeOwnerTTL - realtimeOwnerAdmission ≤ Cluster_now w)%Z;
  ci_leases key e : Cluster_leases w !! key = Some e →
    (∃ r, key = replicaLeaseKey r ∧ Entry_Value e = leaseOf r) ∧ (Entry_Created e ≤ Cluster_now w)%Z;
  ci_map r u o : inMap w r u o → NATSBUS_closed (busOf w r) = false ∧
    ∃ owner, Cluster_owners w !! o = Some owner ∧ natsOwner_bus owner = r ∧ natsOwner_userID owner = u;
  ci_listed o owner : live w o owner → inMap w (natsOwner_bus owner) (natsOwner_userID owner) o;
  ci_within o owner : live w o owner → within w (natsOwner_bus owner) (natsOwner_validUntil owner);
  ci_threads t pc : Cluster_threads w !! t = Some pc → thread_ok w pc;
  ci_acks ack req : ack ∈ Cluster_acks w → Ack_RequestID ack = uuid_String req →
    ∃ f, Cluster_fences w !! req = Some f ∧ Fence_phase f ≠ FenceListing;
  ci_scope req f : Cluster_fences w !! req = Some f →
    Fence_sessionID f ≠ Some uuid_Nil ∧ (Fence_phase f = FenceListing → Fence_targets f = []);
  ci_fences req f o owner : Cluster_fences w !! req = Some f → marked w req f → live w o owner →
    natsOwner_returned owner = true → covered f owner → fence_state w req f o owner }.

(** Everything but the owners and the threads is the same. *)
Definition same_rest w w' : Prop :=
  Cluster_now w' = Cluster_now w ∧ Cluster_leases w' = Cluster_leases w ∧ Cluster_markers w' = Cluster_markers w ∧
  Cluster_buses w' = Cluster_buses w ∧ Cluster_fences w' = Cluster_fences w ∧ Cluster_acks w' = Cluster_acks w.

(** Owners are fenced or given up, and otherwise stay as they are. *)
Definition faded (owner owner' : natsSessionOwner) : Prop :=
  natsOwner_bus owner' = natsOwner_bus owner ∧ natsOwner_userID owner' = natsOwner_userID owner ∧
  (natsOwner_released owner = true → natsOwner_released owner' = true) ∧
  (natsOwner_fenced owner' = false → natsOwner_released owner' = false → owner' = owner).

Definition owners_fade w w' : Prop :=
  ∀ o, match Cluster_owners w !! o, Cluster_owners w' !! o with
       | Some owner, Some owner' => faded owner owner'
       | None, None => True
       | _, _ => False
       end.

Lemma faded_refl owner : faded owner owner.
Proof. by split_and!. Qed.

Lemma fade_live w w' o owner : owners_fade w w' → live w' o owner → live w o owner.
Proof.
  intros Hf (Ho & Hx & Hr). specialize (Hf o). rewrite Ho in Hf.
  destruct (Cluster_owners w !! o) as [x|] eqn:He; [|done]. destruct Hf as (_ & _ & _ & Heq).
  pose proof (Heq Hx Hr) as ->. unfold live. auto.
Qed.

Lemma fade_setOwner w o g :
  (∀ owner, Cluster_owners w !! o = Some owner → faded owner (g owner)) → owners_fade w (setOwner w o g).
Proof.
  intros Hg o'. rewrite setOwner_owners. case_decide as Ho; [subst|].
  - destruct (Cluster_owners w !! o) as [x|] eqn:Hx; simpl; [|done]. by apply Hg.
  - destruct (Cluster_owners w !! o'); [apply faded_refl|done].
Qed.

Lemma faded_fence owner : faded owner (fence owner).
Proof. by split_and!. Qed.
Lemma faded_withdraw owner : faded owner (withdraw owner).
Proof. by split_and!. Qed.

Lemma inv_fade w w' :
  owners_fade w w' → same_rest w w' → Cluster_threads w' = Cluster_threads w → cluster_inv w → cluster_inv w'.
Proof.
  intros Hf (Hnow & Hle & Hma & Hbu & Hfe & Hac) Hth Hi.
  assert (Hbus : ∀ r, busOf w' r = busOf w r) by (intros r; unfold busOf; by rewrite Hbu).
  assert (Hmap : ∀ r u o, inMap w' r u o ↔ inMap w r u o) by (intros r u o; unfold inMap; by rewrite Hbus).
  assert (Hwi : ∀ r v, within w' r v ↔ within w r v) by (intros r v; unfold within, drained; by rewrite Hnow, Hle).
  assert (Hlive : ∀ o owner, live w' o owner → live w o owner) by (intros; by eapply fade_live).
  constructor.
  - rewrite Hnow. apply Hi.
  - intros key e. rewrite Hle, Hnow. apply Hi.
  - intros r u o Hm%Hmap. rewrite Hbus. destruct (ci_map w Hi _ _ _ Hm) as [Hc (owner & Ho & Hr & Hu)]. split; [done|].
    specialize (Hf o). rewrite Ho in Hf. destruct (Cluster_owners w' !! o) as [owner'|]; [|done].
    destruct Hf as (Hr' & Hu' & _). exists owner'. split; [done|]. by rewrite Hr', Hu'.
  - intros o owner Hl%Hlive. apply Hmap. by apply Hi.
  - intros o owner Hl%Hlive. apply Hwi. by apply (ci_within w Hi o).
  - intros t pc Ht. rewrite Hth in Ht. apply (ci_threads w Hi) in Ht.
    destruct pc; simpl in *; rewrite ?Hbu, ?Hbus, ?Hwi, ?Hfe; try done.
    destruct Ht as (owner & Ho & Hr). specialize (Hf o). rewrite Ho in Hf.
    destruct (Cluster_owners w' !! o) as [owner'|]; [|done]. exists owner'. split; [done|]. by apply Hf.
  - intros ack req. rewrite Hac, Hfe. apply Hi.
  - intros req f. rewrite Hfe. apply Hi.
  - intros req f o owner. unfold marked. rewrite Hfe, Hma. intros Hr Hm Hl%Hlive Hret Hcov.
    pose proof (ci_fences w Hi req f o owner Hr Hm Hl Hret Hcov) as Hs.
    unfold fence_state, lapsed, unanswered, drained in *. by rewrite Hnow, Hle, Hth, Hac.
Qed.

(** What a thread may do next. *)
Definition thread_may w (pc : NatsPC) : Prop :=
  thread_ok w pc ∧
  match pc with
  | RefreshMark r created =>
    ∀ o owner, live w o owner → natsOwner_bus owner = r → lapsed w owner →
      drained w (created + realtimeOwnerAdmission)
  | Handling r req rest =>
    ∀ f o owner, Cluster_fences w !! req = Some f → marked w req f → live w o owner →
      natsOwner_returned owner = true → covered f owner → natsOwner_bus owner = r →
      unanswered w req o owner → o ∈ rest
  | _ => True
  end.

Lemma inv_threads w w' :
  (∀ t pc, Cluster_threads w' !! t = Some pc → Cluster_threads w !! t = Some pc ∨ thread_may w pc) →
  same_rest w w' → Cluster_owners w' = Cluster_owners w → cluster_inv w → cluster_inv w'.
Proof.
  intros Hth (Hnow & Hle & Hma & Hbu & Hfe & Hac) Ho Hi.
  assert (Hbus : ∀ r, busOf w' r = busOf w r) by (intros r; unfold busOf; by rewrite Hbu).
  assert (Hmap : ∀ r u o, inMap w' r u o ↔ inMap w r u o) by (intros r u o; unfold inMap; by rewrite Hbus).
  assert (Hdr : ∀ v, drained w' v ↔ drained w v) by (intros v; unfold drained; by rewrite Hnow).
  assert (Hwi : ∀ r v, within w' r v ↔ within w r v) by (intros r v; unfold within, drained; by rewrite Hnow, Hle).
  assert (Hlive : ∀ o owner, live w' o owner ↔ live w o owner) by (intros; unfold live; by rewrite Ho).
  constructor.
  - rewrite Hnow. apply Hi.
  - intros key e. rewrite Hle, Hnow. apply Hi.
  - intros r u o Hm%Hmap. rewrite Hbus, Ho. by apply Hi in Hm.
  - intros o owner Hl%Hlive. apply Hmap. by apply Hi.
  - intros o owner Hl%Hlive. apply Hwi. by apply (ci_within w Hi o).
  - intros t pc Ht. assert (Hok : thread_ok w pc) by (destruct (Hth t pc Ht) as [Hold|[Hok _]]; [by apply (ci_threads w Hi t)|done]).
    destruct pc; simpl in *; by rewrite ?Hbu, ?Hbus, ?Hwi, ?Hfe, ?Ho.
  - intros ack req. rewrite Hac, Hfe. apply Hi.
  - intros req f. rewrite Hfe. apply Hi.
  - intros req f o owner. unfold marked. rewrite Hfe, Hma. intros Hr Hm Hl%Hlive Hret Hcov.
    pose proof (ci_fences w Hi req f o owner Hr Hm Hl Hret Hcov) as Hs.
    assert (Hlap : lapsed w owner → lapsed w' owner).
    { intros (H1 & H2 & H3). unfold lapsed. rewrite Hle, Hdr. split_and!; [done..|]. intros t c Ht. apply Hdr.
      destruct (Hth _ _ Ht) as [Hold|[_ Hnew]]; [by eapply H3|]. by eapply (Hnew o owner). }
    unfold fence_state in *. destruct (Fence_phase f); auto. destruct Hs as [Hs|[Hin Hun]]; [by left; apply Hlap|].
    right. split; [done|]. split; [rewrite Hac; apply Hun|]. intros t l Ht.
    destruct (Hth _ _ Ht) as [Hold|[_ Hnew]]; [by eapply (proj2 Hun)|]. by eapply (Hnew f o owner).
Qed.
End invariant.

(** ** Kinds of steps *)
Section kinds.
Context `{GoRuntime}.
Implicit Types (w : Cluster) (r : Replica) (o : pointer) (u : UUID) (bus : NATSBUS) (owner : natsSessionOwner)
  (req : UUID) (f : Fence).

(** Time passes, markers go, leases are put, run out or are withdrawn. *)
Lemma inv_env w w' :
  Cluster_owners w' = Cluster_owners w → Cluster_threads w' = Cluster_threads w →
  Cluster_fences w' = Cluster_fences w → Cluster_acks w' = Cluster_acks w → Cluster_buses w' = Cluster_buses w →
  (Cluster_now w ≤ Cluster_now w')%Z →
  (∀ key, is_Some (Cluster_markers w' !! key) → is_Some (Cluster_markers w !! key)) →
  (∀ key e, Cluster_leases w' !! key = Some e →
     (∃ r, key = replicaLeaseKey r ∧ Entry_Value e = leaseOf r) ∧ (Entry_Created e ≤ Cluster_now w')%Z) →
  (∀ r e, Cluster_leases w !! replicaLeaseKey r = Some e →
     NATSBUS_closed (busOf w r) = true ∨ (Entry_Created e + realtimeOwnerTTL ≤ Cluster_now w')%Z ∨
     ∃ e', Cluster_leases w' !! replicaLeaseKey r = Some e' ∧ (Entry_Created e ≤ Entry_Created e')%Z) →
  (∀ o owner, Cluster_leases w !! replicaLeaseKey (natsOwner_bus owner) = None → live w o owner →
     Cluster_leases w' !! replicaLeaseKey (natsOwner_bus owner) = None) →
  cluster_inv w → cluster_inv w'.
Proof.
  intros Ho Hth Hfe Hac Hbu Hnow Hma Hform Hle Hlap Hi.
  assert (Hbus : ∀ r, busOf w' r = busOf w r) by (intros r; unfold busOf; by rewrite Hbu).
  assert (Hdr : ∀ v, drained w v → drained w' v) by (unfold drained; lia).
  assert (Hwi : ∀ r v, NATSBUS_closed (busOf w r) = false → within w r v → within w' r v).
  { intros r v Hopen [Hd|(e & He & Hv)]; [left; by apply Hdr|].
    destruct (Hle r e He) as [?|[Hx|(e' & He' & Hc)]]; [congruence|left; unfold drained; lia|].
    right. exists e'. split; [done|lia]. }
  assert (Hopen : ∀ o owner, live w o owner → NATSBUS_closed (busOf w (natsOwner_bus owner)) = false).
  { intros o owner Hl%(ci_listed w Hi). apply (ci_map w Hi _ _ _ Hl). }
  assert (Hlive : ∀ o owner, live w' o owner ↔ live w o owner) by (intros; unfold live; by rewrite Ho).
  constructor.
  - pose proof (ci_now w Hi). lia.
  - done.
  - intros r u o. unfold inMap. rewrite Hbus, Ho. apply (ci_map w Hi).
  - intros o owner Hl%Hlive. unfold inMap. rewrite Hbus. by apply (ci_listed w Hi).
  - intros o owner Hl%Hlive. apply Hwi; [by eapply Hopen|]. by apply (ci_within w Hi o).
  - intros t pc Ht. rewrite Hth in Ht. apply (ci_threads w Hi) in Ht.
    destruct pc; simpl in *; rewrite ?Hbu, ?Hbus, ?Hfe, ?Ho; try done.
    destruct Ht as [Hs Hc]. split; [done|]. destruct (NATSBUS_closed (busOf w r)) eqn:Hcl; [by left|].
    right. destruct Hc; [done|]. by apply Hwi.
  - intros ack req. rewrite Hac, Hfe. apply (ci_acks w Hi).
  - intros req f. rewrite Hfe. apply (ci_scope w Hi).
  - intros req f o owner. rewrite Hfe. intros Hr Hm Hl%Hlive Hret Hcov.
    assert (Hm' : marked w req f) by by apply Hma.
    pose proof (ci_fences w Hi req f o owner Hr Hm' Hl Hret Hcov) as Hs.
    assert (Hl' : lapsed w owner → lapsed w' owner).
    { intros (H1 & H2 & H3). split_and!; [by eapply Hlap|by apply Hdr|]. rewrite Hth. intros t c Ht.
      apply Hdr. by eapply H3. }
    unfold fence_state, unanswered in *. rewrite Hac, Hth. destruct (Fence_phase f); auto.
    destruct Hs as [Hs|Hs]; [left; by apply Hl'|by right].
Qed.

(** Owners are admitted until [v]. *)
Lemma inv_admit w w' (l : list pointer) (v : Z) :
  (∀ o, Cluster_owners w' !! o =
     if decide (o ∈ l) then (λ owner, owner <| natsOwner_validUntil := v |>) <$> Cluster_owners w !! o
     else Cluster_owners w !! o) →
  same_rest w w' → Cluster_threads w' = Cluster_threads w →
  (∀ o owner, o ∈ l → live w o owner →
     within w (natsOwner_bus owner) v ∧ (lapsed w owner → drained w v)) →
  cluster_inv w → cluster_inv w'.
Proof.
  intros Ho (Hnow & Hle & Hma & Hbu & Hfe & Hac) Hth Hv Hi.
  assert (Hbus : ∀ r, busOf w' r = busOf w r) by (intros r; unfold busOf; by rewrite Hbu).
  assert (Hdr : ∀ x, drained w' x ↔ drained w x) by (intros x; unfold drained; by rewrite Hnow).
  assert (Hwi : ∀ r x, within w' r x ↔ within w r x) by (intros r x; unfold within, drained; by rewrite Hnow, Hle).
  (* the owner before *)
  assert (Hlive : ∀ o owner, live w' o owner → ∃ x, live w o x ∧ natsOwner_bus owner = natsOwner_bus x ∧
     natsOwner_userID owner = natsOwner_userID x ∧ natsOwner_sessionID owner = natsOwner_sessionID x ∧
     natsOwner_returned owner = natsOwner_returned x ∧
     within w (natsOwner_bus x) (natsOwner_validUntil owner) ∧ (lapsed w x → drained w (natsOwner_validUntil owner))).
  { intros o owner (Hx & Hf & Hr). rewrite Ho in Hx. case_decide as Hin.
    - destruct (Cluster_owners w !! o) as [x|] eqn:He; [|done]. injection Hx as <-. exists x.
      assert (Hl : live w o x) by done. split; [done|]. split_and!; try done; by eapply Hv.
    - exists owner. split; [done|]. split_and!; try done; [|by intros (_ & ? & _)]. by apply (ci_within w Hi o). }
  constructor.
  - rewrite Hnow. apply Hi.
  - intros key e. rewrite Hle, Hnow. apply (ci_leases w Hi).
  - intros r u o. unfold inMap. rewrite Hbus, Ho. intros Hm. destruct (ci_map w Hi _ _ _ Hm) as [Hc (x & Hx & Hr & Hu)].
    split; [done|]. rewrite Hx. case_decide; [|by exists x]. eexists. split; [reflexivity|done].
  - intros o owner (x & Hl & Hr & Hu & _)%Hlive. unfold inMap. rewrite Hbus, Hr, Hu. by apply (ci_listed w Hi).
  - intros o owner (x & Hl & Hr & _ & _ & _ & Hw & _)%Hlive. rewrite Hr. by apply Hwi.
  - intros t pc Ht. rewrite Hth in Ht. apply (ci_threads w Hi) in Ht.
    destruct pc; simpl in *; rewrite ?Hbu, ?Hbus, ?Hwi, ?Hfe; try done.
    destruct Ht as (x & Hx & Hr). rewrite Ho, Hx. case_decide; [|by exists x]. eexists. split; [reflexivity|done].
  - intros ack req. rewrite Hac, Hfe. apply (ci_acks w Hi).
  - intros req f. rewrite Hfe. apply (ci_scope w Hi).
  - intros req f o owner. unfold marked. rewrite Hfe, Hma. intros Hr Hm (x & Hl & Hb & Hu & Hse & Hre & _ & Hd)%Hlive Hret [Hc1 Hc2].
    assert (Hcov : covered f x) by (split; congruence). rewrite Hre in Hret.
    pose proof (ci_fences w Hi req f o x Hr Hm Hl Hret Hcov) as Hs.
    assert (Hl' : lapsed w x → lapsed w' owner).
    { intros Hx. pose proof Hx as (H1 & H2 & H3). unfold lapsed. rewrite Hle, Hth, Hb. split_and!; [done|apply Hdr; auto|].
      intros t c Ht. apply Hdr. by eapply H3. }
    unfold fence_state, unanswered in *. rewrite Hac, Hth, Hb. destruct (Fence_phase f); auto.
    destruct Hs as [Hs|Hs]; [left; by apply Hl'|by right].
Qed.

(** The call that registered an owner returns it, after it has seen no marker that is for it. *)
Lemma inv_return w o :
  (∀ req f owner, Cluster_owners w !! o = Some owner → Cluster_fences w !! req = Some f → marked w req f →
     ¬ covered f owner) →
  cluster_inv w → cluster_inv (setOwner w o (λ owner, owner <| natsOwner_returned := true |>)).
Proof.
  intros Hno Hi. set (w' := setOwner _ _ _).
  assert (Ho : ∀ o', Cluster_owners w' !! o' = if decide (o' = o)
    then (λ owner, owner <| natsOwner_returned := true |>) <$> Cluster_owners w !! o' else Cluster_owners w !! o')
    by (intros o'; apply setOwner_owners).
  assert (Hlive : ∀ o' owner, live w' o' owner → ∃ x, live w o' x ∧ natsOwner_bus owner = natsOwner_bus x ∧
     natsOwner_userID owner = natsOwner_userID x ∧ natsOwner_validUntil owner = natsOwner_validUntil x ∧
     natsOwner_sessionID owner = natsOwner_sessionID x ∧ (o' ≠ o → owner = x)).
  { intros o' owner (Hx & Hf & Hr). rewrite Ho in Hx. case_decide as He; [|by exists owner].
    destruct (Cluster_owners w !! o') as [x|] eqn:Hw; [|done]. injection Hx as <-. by exists x. }
  constructor.
  - apply Hi.
  - apply (ci_leases w Hi).
  - intros r u o' Hm. destruct (ci_map w Hi _ _ _ Hm) as [Hc (x & Hx & Hr & Hu)].
    split; [done|]. rewrite Ho, Hx. case_decide; [|by exists x]. eexists. split; [reflexivity|done].
  - intros o' owner (x & Hl & Hr & Hu & _)%Hlive. rewrite Hr, Hu. by apply (ci_listed w Hi).
  - intros o' owner (x & Hl & Hr & _ & Hv & _)%Hlive. rewrite Hr, Hv. by apply (ci_within w Hi o').
  - intros t pc Ht. apply (ci_threads w Hi) in Ht. destruct pc; try done.
    destruct Ht as (x & Hx & Hr). simpl. rewrite lookup_alter. case_decide; simplify_eq; [|by exists x].
    rewrite Hx. eexists. split; [reflexivity|done].
  - apply (ci_acks w Hi).
  - apply (ci_scope w Hi).
  - intros req f o' owner Hr Hm (x & Hl & Hb & Hu & Hv & Hse & Heq)%Hlive Hret Hcov.
    destruct (decide (o' = o)) as [->|Hne].
    + exfalso. destruct Hl as (Hx & _). apply (Hno req f x Hx Hr Hm). destruct Hcov. split; congruence.
    + specialize (Heq Hne) as ->. exact (ci_fences w Hi req f o' x Hr Hm Hl Hret Hcov).
Qed.

(** A fence moves on. *)
Lemma inv_fence w req f phase targets :
  Cluster_fences w !! req = Some f → phase ≠ FenceListing →
  (marked w req f → ∀ o owner, live w o owner → natsOwner_returned owner = true → covered f owner →
     fence_state w req (mkFence (Fence_userID f) (Fence_sessionID f) targets phase) o owner) →
  cluster_inv w → cluster_inv (setFence w req (mkFence (Fence_userID f) (Fence_sessionID f) targets phase)).
Proof.
  intros Hf Hphase Hnew Hi. set (f' := mkFence _ _ _ _). set (w' := setFence w req f').
  assert (Hfe : ∀ req', Cluster_fences w' !! req' = if decide (req' = req) then Some f' else Cluster_fences w !! req').
  { intros req'. simpl. case_decide; [subst; apply lookup_insert_eq|by apply lookup_insert_ne]. }
  assert (Hsome : ∀ req' x, Cluster_fences w !! req' = Some x → Fence_phase x ≠ FenceListing →
    ∃ y, Cluster_fences w' !! req' = Some y ∧ Fence_phase y ≠ FenceListing).
  { intros req' x Hx Hp. rewrite Hfe. case_decide; [by exists f'|by exists x]. }
  constructor; try apply Hi.
  - intros t pc Ht. apply (ci_threads w Hi) in Ht. destruct pc; try done.
    destruct Ht as (x & Hx & Hp). by apply (Hsome _ x).
  - intros ack req' Ha Hr. destruct (ci_acks w Hi _ _ Ha Hr) as (x & Hx & Hp). by apply (Hsome _ x).
  - intros req' x. rewrite Hfe. case_decide; [|apply (ci_scope w Hi)]. intros [= <-]. simpl. split; [|done].
    by apply (ci_scope w Hi) in Hf as [? _].
  - intros req' x o owner. rewrite Hfe. case_decide; [|exact (ci_fences w Hi req' x o owner)].
    intros [= <-]. subst. exact (λ Hm Hl, Hnew Hm o owner Hl).
Qed.
End kinds.

(** ** The steps *)
Section steps.
Context `{GoRuntime}.
Implicit Types (w : Cluster) (r : Replica) (o : pointer) (t : nat) (u : UUID) (bus : NATSBUS)
  (owner : natsSessionOwner) (req : UUID) (f : Fence).

Lemma busOf_putBus w r bus r' : busOf (putBus w r bus) r' = if decide (r' = r) then bus else busOf w r'.
Proof.
  unfold busOf, putBus. simpl. case_decide; [subst; by rewrite lookup_insert_eq|by rewrite lookup_insert_ne].
Qed.

(** The map of a bus loses owners that are no longer live; the bus may close. *)
Lemma inv_bus w r bus :
  (∀ u o, nested (NATSBUS_owners bus) u !! o = Some tt → inMap w r u o ∧ NATSBUS_closed bus = false) →
  (∀ o owner, live w o owner → natsOwner_bus owner = r →
     nested (NATSBUS_owners bus) (natsOwner_userID owner) !! o = Some tt) →
  (NATSBUS_closed (busOf w r) = true → NATSBUS_closed bus = true) →
  cluster_inv w → cluster_inv (putBus w r bus).
Proof.
  intros Hsub Hlive Hcl Hi. set (w' := putBus w r bus).
  assert (Hbus : ∀ r', busOf w' r' = if decide (r' = r) then bus else busOf w r') by (intros; apply busOf_putBus).
  assert (Hs : ∀ r', is_Some (Cluster_buses w !! r') → is_Some (Cluster_buses w' !! r')).
  { intros r' Hr. unfold w'. simpl. destruct (decide (r' = r)) as [->|]; [by rewrite lookup_insert_eq|by rewrite lookup_insert_ne]. }
  assert (Hc : ∀ r', NATSBUS_closed (busOf w r') = true → NATSBUS_closed (busOf w' r') = true).
  { intros r'. rewrite Hbus. case_decide; [subst; auto|done]. }
  constructor; try apply Hi.
  - intros r' u o. unfold inMap. rewrite Hbus. case_decide; [subst|apply (ci_map w Hi)].
    intros [Hm Ho]%Hsub. split; [done|]. by apply (ci_map w Hi) in Hm as [_ ?].
  - intros o owner Hl. unfold inMap. rewrite Hbus. case_decide; [by apply Hlive|by apply (ci_listed w Hi)].
  - intros t pc Ht. apply (ci_threads w Hi) in Ht. destruct pc; simpl in *; try done; try (by apply Hs).
    + destruct Ht as [Hr Hx]. split; [by apply Hs|]. destruct Hx; [left; by apply Hc|by right].
    + destruct Ht as [Hr Hx]. split; [by apply Hs|by apply Hc].
Qed.

Lemma inv_dropOwner w r u o :
  (∀ owner, ¬ live w o owner) →
  cluster_inv w → cluster_inv (putBus w r (dropOwner (busOf w r) u o)).
Proof.
  intros Hn Hi. apply inv_bus; [| |by intros|done].
  - intros u' o' [Hm _]%dropOwner_map. split; [done|]. by apply (ci_map w Hi) in Hm as [? _].
  - intros o' owner Hl <-. apply dropOwner_map. split; [by apply (ci_listed w Hi)|].
    intros [_ ->]. by apply (Hn owner).
Qed.

Lemma inv_start w r :
  Cluster_buses w !! r = None → cluster_inv w → cluster_inv (putLease (putBus w r (mkNATSBUS ∅ false)) r).
Proof.
  intros Hnone Hi. set (w' := putLease _ _).
  assert (Hold : busOf w r = mkNATSBUS ∅ true) by (unfold busOf; by rewrite Hnone).
  assert (Hbus : ∀ r', busOf w' r' = if decide (r' = r) then mkNATSBUS ∅ false else busOf w r')
    by (intros; apply busOf_putBus).
  assert (Hnolive : ∀ o owner, live w o owner → natsOwner_bus owner ≠ r).
  { intros o owner Hl%(ci_listed w Hi) He. unfold inMap in Hl. rewrite He, Hold in Hl. done. }
  assert (Hs : ∀ r', is_Some (Cluster_buses w !! r') → r' ≠ r) by (intros r' [? ?] ->; congruence).
  assert (Hs' : ∀ r', is_Some (Cluster_buses w !! r') → is_Some (Cluster_buses w' !! r')).
  { intros r' Hr. pose proof (Hs _ Hr). unfold w'. simpl. by rewrite lookup_insert_ne. }
  assert (Hle : ∀ r', r' ≠ r → Cluster_leases w' !! replicaLeaseKey r' = Cluster_leases w !! replicaLeaseKey r').
  { intros r' Hr. unfold w'. simpl. apply lookup_insert_ne. by intros ?%(inj replicaLeaseKey). }
  constructor; try apply Hi.
  - intros key e He. unfold w' in He. simpl in He. apply lookup_insert_Some in He as [[<- <-]|[_ He]];
      [|by apply (ci_leases w Hi)]. simpl. split; [by exists r|lia].
  - intros r' u o. unfold inMap. rewrite Hbus. case_decide; [done|apply (ci_map w Hi)].
  - intros o owner Hl. unfold inMap. rewrite Hbus, decide_False by by eapply Hnolive. by apply (ci_listed w Hi).
  - intros o owner Hl. unfold within. rewrite Hle by by eapply Hnolive. exact (ci_within w Hi o owner Hl).
  - intros t pc Ht. apply (ci_threads w Hi) in Ht. destruct pc; simpl in *; try done; try (by apply Hs').
    + destruct Ht as [Hr Hx]. split; [by apply Hs'|]. rewrite Hbus, decide_False by by apply Hs.
      unfold within. by rewrite Hle by by apply Hs.
    + destruct Ht as [Hr Hx]. split; [by apply Hs'|]. by rewrite Hbus, decide_False by by apply Hs.
  - intros req f o owner Hf Hm Hl Hret Hcov.
    pose proof (ci_fences w Hi req f o owner Hf Hm Hl Hret Hcov) as Hst.
    unfold fence_state, lapsed in *. by rewrite Hle by by eapply Hnolive.
Qed.

Lemma inv_insert_owner w t r o u s bus :
  Cluster_buses w !! r = Some bus → NATSBUS_closed bus = false → Cluster_owners w !! o = None →
  Cluster_threads w !! t = None → cluster_inv w →
  cluster_inv (threadGoto (putBus (w <| Cluster_owners := <[o := mknatsSessionOwner r u s 0 false false false]> (Cluster_owners w) |>)
    r (putOwner bus u o)) t (RegisterVerify o)).
Proof.
  intros Hb Hcl Hnone Ht Hi. set (owner0 := mknatsSessionOwner r u s 0 false false false). set (w' := threadGoto _ _ _).
  assert (Hof : busOf w r = bus) by (unfold busOf; by rewrite Hb).
  assert (Hbus : ∀ r', busOf w' r' = if decide (r' = r) then putOwner bus u o else busOf w r')
    by (intros r'; unfold busOf, w'; simpl; case_decide; [subst; by rewrite lookup_insert_eq|by rewrite lookup_insert_ne]).
  assert (Ho : ∀ o', Cluster_owners w' !! o' = if decide (o' = o) then Some owner0 else Cluster_owners w !! o').
  { intros o'. unfold w'. simpl. case_decide; [subst; apply lookup_insert_eq|by apply lookup_insert_ne]. }
  assert (Hne : ∀ o' x, Cluster_owners w !! o' = Some x → o' ≠ o) by (intros o' x Hx ->; congruence).
  assert (Hlive : ∀ o' x, live w' o' x → o' = o ∧ x = owner0 ∨ live w o' x).
  { intros o' x (Hx & Hf & Hr). rewrite Ho in Hx. case_decide; [left|by right]. by injection Hx as <-. }
  assert (Hthr : ∀ t' pc, Cluster_threads w' !! t' = Some pc → pc = RegisterVerify o ∨ Cluster_threads w !! t' = Some pc).
  { intros t' pc Hx. unfold w' in Hx. simpl in Hx. apply lookup_insert_Some in Hx as [[_ <-]|[_ Hx]]; auto. }
  assert (Hs' : ∀ r', is_Some (Cluster_buses w !! r') → is_Some (Cluster_buses w' !! r')).
  { intros r' Hr. unfold w'. simpl. destruct (decide (r' = r)) as [->|]; [by rewrite lookup_insert_eq|by rewrite lookup_insert_ne]. }
  assert (Hc' : ∀ r', NATSBUS_closed (busOf w' r') = NATSBUS_closed (busOf w r')).
  { intros r'. rewrite Hbus. case_decide as He; [by rewrite He, Hof|done]. }
  constructor; try apply Hi.
  - intros r' u' o'. rewrite Hc'. unfold inMap. rewrite Hbus. intros Hm.
    assert (Hcase : (r' = r ∧ u' = u ∧ o' = o) ∨ inMap w r' u' o').
    { case_decide; [|by right]. subst r'. apply putOwner_map in Hm as [[-> ->]|Hm]; [by left|right].
      unfold inMap. by rewrite Hof. }
    destruct Hcase as [(-> & -> & ->)|Hold].
    + rewrite Hof. split; [done|]. exists owner0. by rewrite Ho, decide_True.
    + destruct (ci_map w Hi _ _ _ Hold) as [? (x & Hx & ?)]. split; [done|]. exists x.
      by rewrite Ho, decide_False by by eapply Hne.
  - intros o' x [[-> ->]|Hl]%Hlive; unfold inMap; rewrite Hbus.
    + simpl. rewrite decide_True by done. apply putOwner_map. by left.
    + apply (ci_listed w Hi) in Hl. case_decide as He; [|done]. apply putOwner_map. right.
      unfold inMap in Hl. rewrite He, Hof in Hl. done.
  - intros o' x [[-> ->]|Hl]%Hlive; [|exact (ci_within w Hi o' x Hl)]. left. pose proof (ci_now w Hi).
    unfold drained. simpl. lia.
  - intros t' pc [->|Hx]%Hthr; [done|]. apply (ci_threads w Hi) in Hx. destruct pc; simpl in *; try done; try (by apply Hs').
    + destruct Hx as (x & Hx & Hr). exists x. by rewrite lookup_insert_ne by (apply not_eq_sym; by eapply Hne).
    + rewrite Hc'. destruct Hx as [Hr Hx]. split; [by apply Hs'|done].
    + rewrite Hc'. destruct Hx as [Hr Hx]. split; [by apply Hs'|done].
  - intros req f o' x Hf Hm [[-> ->]|Hl]%Hlive Hret Hcov; [done|].
    pose proof (ci_fences w Hi req f o' x Hf Hm Hl Hret Hcov) as Hst.
    assert (Hlap : lapsed w x → lapsed w' x).
    { intros (H1 & H2 & H3). split_and!; [done..|]. intros t' c [?|Hx]%Hthr; [done|]. by eapply H3. }
    unfold fence_state in *. destruct (Fence_phase f); auto. destruct Hst as [Hst|[Hin [Ha Hh]]]; [left; auto|right].
    split; [done|]. split; [done|]. intros t' l [?|Hx]%Hthr; [done|]. by eapply Hh.
Qed.

(** A replica without its lease has lost the owners it has. *)
Lemma lease_gone w o owner :
  cluster_inv w → live w o owner → Cluster_leases w !! replicaLeaseKey (natsOwner_bus owner) = None → lapsed w owner.
Proof.
  intros Hi Hl Hnone. assert (Hw : ∀ v, within w (natsOwner_bus owner) v → drained w v).
  { intros v [?|(e & He & _)]; [done|congruence]. }
  split; [done|]. split; [apply Hw; by apply (ci_within w Hi o)|]. intros t c Ht.
  apply (ci_threads w Hi) in Ht as [_ [Hc|Hx]]; [|by apply Hw].
  apply (ci_listed w Hi) in Hl. apply (ci_map w Hi) in Hl as [Hc' _]. congruence.
Qed.

Lemma inv_goto w t pc : thread_may w pc → cluster_inv w → cluster_inv (threadGoto w t pc).
Proof.
  intros Hm. apply inv_threads; [|by split_and!|done].
  intros t' pc' Ht. simpl in Ht. apply lookup_insert_Some in Ht as [[_ <-]|[_ Ht]]; auto.
Qed.

Lemma inv_thread_leave w t : cluster_inv w → cluster_inv (threadLeave w t).
Proof.
  apply inv_threads; [|by split_and!|done].
  intros t' pc' Ht. simpl in Ht. apply lookup_delete_Some in Ht as [_ Ht]. auto.
Qed.

Lemma inv_setOwner w o g :
  (∀ owner, Cluster_owners w !! o = Some owner → faded owner (g owner)) → cluster_inv w → cluster_inv (setOwner w o g).
Proof. intros Hg. apply inv_fade; [by apply fade_setOwner|by split_and!|done]. Qed.

Lemma inv_setOwners w g (l : list pointer) :
  (∀ owner, g (g owner) = g owner) → (∀ owner, faded owner (g owner)) →
  cluster_inv w → cluster_inv (foldr (λ o w, setOwner w o g) w l).
Proof.
  intros Hg Hf. destruct (setOwners_spec w g l Hg) as [Hrest Ho]. revert Hrest Ho. set (w' := foldr _ w l).
  intros Hrest Ho. apply inv_fade.
  - intros o. rewrite Ho. destruct (Cluster_owners w !! o); case_decide; simpl; auto using faded_refl.
  - rewrite Hrest. by split_and!.
  - by rewrite Hrest.
Qed.

Lemma admissible_lease w r ok c :
  admissibleLease w r ok = Some c → ∃ e, Cluster_leases w !! replicaLeaseKey r = Some e ∧ Entry_Created e = c.
Proof.
  unfold admissibleLease. intros Ha. destruct ok; [|done]. cbn [negb] in Ha.
  destruct (Cluster_leases w !! _) as [e|] eqn:He; [|done].
  destruct (parseOwnerLease _ _ _) as [lease|]; [|done]. destruct (_ || _ || _); [done|].
  injection Ha as <-. by exists e.
Qed.

Lemma inv_refuse w t o :
  is_Some (Cluster_owners w !! o) → cluster_inv w → cluster_inv (refuseOwner w t o).
Proof.
  intros [owner Ho] Hi. apply inv_goto; [split; [|done]|].
  - simpl. rewrite lookup_alter_eq, Ho. by eexists.
  - apply inv_setOwner; [|done]. intros x _. by split_and!.
Qed.

Lemma step_RegisterVerify w t ok o w' :
  threadStep w t ok (RegisterVerify o) = Some w' → cluster_inv w → cluster_inv w'.
Proof.
  cbn [threadStep]. unfold verifyOwner. destruct (Cluster_owners w !! o) as [owner|] eqn:Ho; [|done]. intros [= <-] Hi.
  destruct (admissibleLease _ _ _) as [c|] eqn:Ha; [|by apply inv_refuse].
  apply admissible_lease in Ha as (e & He & <-). apply inv_goto; [by split|].
  eapply (inv_admit w _ [o] (Entry_Created e + realtimeOwnerAdmission)); [|by split_and!|done| |done].
  - intros o'. rewrite setOwner_owners. by repeat case_decide; set_solver.
  - intros o' x ->%list_elem_of_singleton (Hx & _). simplify_eq. split; [right; by exists e|].
    intros (Hn & _). congruence.
Qed.

(** A marker that is there is seen by the scan. *)
Lemma marker_seen w req f owner :
  cluster_inv w → Cluster_fences w !! req = Some f → marked w req f → covered f owner →
  existsb (markerFences (natsOwner_userID owner) (natsOwner_sessionID owner))
    (entriesWithPrefix (Cluster_markers w) (fencePrefix (natsOwner_userID owner))) = true.
Proof.
  intros Hi Hf [e He] [Hu Hs]. destruct (ci_scope w Hi _ _ Hf) as [Hnil _]. rewrite <- Hu in He.
  apply existsb_exists. eexists (_, e). split.
  - apply List.filter_In. split; [apply list_elem_of_In, elem_of_range, He|]. simpl. unfold markerKey. apply HasPrefix_app.
  - unfold markerFences. simpl. rewrite parse_markerKey by done. destruct (Fence_sessionID f); [|done]. done.
Qed.

Lemma step_RegisterScan w t ok o w' :
  threadStep w t ok (RegisterScan o) = Some w' → cluster_inv w → cluster_inv w'.
Proof.
  cbn [threadStep]. unfold scanMarkers. destruct (Cluster_owners w !! o) as [owner|] eqn:Ho; [|done]. intros Hs Hi.
  destruct (_ || _) in Hs; injection Hs as <-; [by apply inv_refuse|]. apply inv_thread_leave.
  destruct (existsb (markerFences _ _) _) eqn:Hseen.
  - apply inv_setOwner; [|done]. intros x _. by split_and!.
  - apply inv_return; [|done]. intros req f x Hx Hf Hm Hc. simplify_eq.
    pose proof (marker_seen _ _ _ _ Hi Hf Hm Hc). congruence.
Qed.

Lemma step_OwnerClosing w t ok o w' :
  Cluster_threads w !! t = Some (OwnerClosing o) →
  threadStep w t ok (OwnerClosing o) = Some w' → cluster_inv w → cluster_inv w'.
Proof.
  intros Ht. cbn [threadStep]. unfold removeOwner. destruct (Cluster_owners w !! o) as [owner|] eqn:Ho; [|done]. intros [= <-] Hi.
  apply inv_thread_leave, inv_dropOwner; [|done]. intros x (Hx & _ & Hr).
  apply (ci_threads w Hi) in Ht as (y & Hy & Hr'). congruence.
Qed.

(** A replica answers a fence. *)
Lemma inv_ack w t r req :
  Cluster_threads w !! t = Some (Handling r req []) → cluster_inv w →
  cluster_inv (w <| Cluster_acks ::= cons (mkfenceAck (uuid_String req) (uuid_String (Replica_ID r))
                                             (uuid_String (Replica_Generation r))) |>).
Proof.
  intros Ht Hi. pose proof (ci_threads w Hi _ _ Ht) as Hok. constructor; try apply Hi.
  - intros ack req' Ha Hr. simpl in Ha. apply elem_of_cons in Ha as [->|Ha]; [|by eapply (ci_acks w Hi)].
    simpl in Hr. apply (inj uuid_String) in Hr as <-. exact Hok.
  - intros req' f o owner Hf Hm Hl Hret Hcov.
    pose proof (ci_fences w Hi req' f o owner Hf Hm Hl Hret Hcov) as Hst.
    unfold fence_state in *. destruct (Fence_phase f); auto. destruct Hst as [Hst|[Hin [Ha Hh]]]; [by left|right].
    split; [done|]. split; [|done]. intros ack Hack Hreq Hid Hgen. simpl in Hack.
    apply elem_of_cons in Hack as [->|Hack]; [|by eapply Ha]. simpl in *.
    apply (inj uuid_String) in Hreq as <-, Hid, Hgen. assert (Hr : natsOwner_bus owner = r).
    { destruct (natsOwner_bus owner), r. simpl in *. congruence. }
    rewrite <- Hr in Ht. apply Hh in Ht. by apply elem_of_nil in Ht.
Qed.

Lemma step_Handling w t ok r req l w' :
  Cluster_threads w !! t = Some (Handling r req l) →
  threadStep w t ok (Handling r req l) = Some w' → cluster_inv w → cluster_inv w'.
Proof.
  intros Ht Hs Hi. pose proof (ci_threads w Hi _ _ Ht) as Hok. destruct l as [|o l]; cbn [threadStep fenceCollected] in Hs.
  - injection Hs as <-. apply inv_thread_leave. by eapply inv_ack.
  - destruct (Cluster_owners w !! o) as [owner|] eqn:Ho; [|done].
    destruct (Cluster_fences w !! req) as [f|] eqn:Hf; [|done]. injection Hs as <-. apply inv_goto.
    + split; [by destruct (covers _ _)|]. intros f' o' x Hf' _ Hl Hret [_ Hc] <- [_ Hh].
      assert (Hf2 : f' = f) by (destruct (covers (Fence_sessionID f) (natsOwner_sessionID owner)); simpl in Hf'; congruence).
      assert (Hin : o' ∈ o :: l).
      { apply (Hh t). by destruct (covers (Fence_sessionID f) (natsOwner_sessionID owner)). }
      apply elem_of_cons in Hin as [->|Hin]; [|done]. exfalso. destruct Hl as (Hx & Hfe & _). subst f'.
      destruct (covers _ (natsOwner_sessionID owner)) eqn:Hcov; [|congruence].
      rewrite setOwner_owners, decide_True, Ho in Hx by done. injection Hx as <-. done.
    + destruct (covers _ _); [|done]. apply inv_setOwner; [|done]. intros; apply faded_fence.
Qed.
End steps.

Section runs.
Context `{GoRuntime}.
Implicit Types (w : Cluster) (r : Replica) (o : pointer) (t : nat) (u : UUID) (bus : NATSBUS)
  (owner : natsSessionOwner) (req : UUID) (f : Fence).

Lemma step_RefreshVerify w t ok r w' :
  Cluster_threads w !! t = Some (RefreshVerify r) →
  threadStep w t ok (RefreshVerify r) = Some w' → cluster_inv w → cluster_inv w'.
Proof.
  intros Ht Hs Hi. pose proof (ci_threads w Hi _ _ Ht) as Hok. cbn [threadStep] in Hs. injection Hs as <-.
  apply inv_goto; [|done]. destruct (admissibleLease _ _ _) as [c|] eqn:Ha; [|done].
  apply admissible_lease in Ha as (e & He & <-). split; [split; [done|]|].
  - right. right. by exists e.
  - intros o owner _ <- (Hn & _). congruence.
Qed.

Lemma step_RefreshMark w t ok r c w' :
  Cluster_threads w !! t = Some (RefreshMark r c) →
  threadStep w t ok (RefreshMark r c) = Some w' → cluster_inv w → cluster_inv w'.
Proof.
  intros Ht Hs Hi. pose proof (ci_threads w Hi _ _ Ht) as [_ Hok]. cbn [threadStep] in Hs. injection Hs as <-.
  apply inv_thread_leave. unfold markOwnersAdmissible. set (g := λ owner : natsSessionOwner, owner <| natsOwner_validUntil := (c + realtimeOwnerAdmission)%Z |>).
  destruct (setOwners_spec w g (allOwners (busOf w r))) as [Hrest Ho]; [done|]. revert Hrest Ho.
  set (w1 := foldr _ w _). intros Hrest Ho.
  eapply (inv_admit w w1 (allOwners (busOf w r)) (c + realtimeOwnerAdmission)); [done|..|done].
  - rewrite Hrest. by split_and!.
  - by rewrite Hrest.
  - intros o owner [u Hm]%elem_of_allOwners (Hx & _).
    destruct (ci_map w Hi r u o Hm) as [Hc (x & Hx' & Hr & _)]. simplify_eq. split.
    + destruct Hok; [congruence|done].
    + intros (_ & _ & Hl). by eapply Hl.
Qed.

Lemma step_leave_lease w t r :
  Cluster_threads w !! t = Some (BusLeaving r) → cluster_inv w →
  cluster_inv (w <| Cluster_leases := delete (replicaLeaseKey r) (Cluster_leases w) |>).
Proof.
  intros Ht Hi. pose proof (ci_threads w Hi _ _ Ht) as [_ Hc]. apply (inv_env w); try done; simpl.
  - intros key e [_ He]%lookup_delete_Some. by apply (ci_leases w Hi).
  - intros r' e He. destruct (decide (r' = r)) as [->|Hne]; [by left|]. right. right. exists e. split; [|done].
    rewrite lookup_delete_ne; [done|]. by intros ?%(inj replicaLeaseKey).
  - intros o owner Hn _. apply lookup_delete_None. by right.
Qed.

Lemma step_Proceed w t ok w' :
  clusterStep w (Proceed t ok) = Some w' → cluster_inv w → cluster_inv w'.
Proof.
  cbn [clusterStep]. destruct (Cluster_threads w !! t) as [pc|] eqn:Ht; [|done]. intros Hs Hi.
  destruct pc as [o|o|o|r req l|r|r c|r|l|r].
  - by eapply step_RegisterVerify.
  - by eapply step_RegisterScan.
  - by eapply step_OwnerClosing.
  - by eapply step_Handling.
  - by eapply step_RefreshVerify.
  - by eapply step_RefreshMark.
  - cbn [threadStep] in Hs. injection Hs as <-. by apply inv_goto.
  - destruct l as [|o l]; cbn [threadStep fenceFailed] in Hs; injection Hs as <-; [by apply inv_thread_leave|].
    apply inv_goto; [done|]. apply inv_setOwner; [|done]. intros; apply faded_withdraw.
  - cbn [threadStep] in Hs. injection Hs as <-. by eapply inv_thread_leave, step_leave_lease.
Qed.

Lemma step_CloseBus w t r w' :
  clusterStep w (CloseBus t r) = Some w' → cluster_inv w → cluster_inv w'.
Proof.
  cbn [clusterStep]. unfold closeBus. destruct (Cluster_buses w !! r) as [bus|] eqn:Hb; [|done].
  destruct (free w t && _); [|done]. intros [= <-] Hi. assert (Hof : busOf w r = bus) by (unfold busOf; by rewrite Hb).
  destruct (setOwners_spec w withdraw (allOwners bus)) as [Hrest Ho]; [done|].
  assert (Hi1 : cluster_inv (foldr (λ o w, setOwner w o withdraw) w (allOwners bus))).
  { apply inv_setOwners; [done|intros; apply faded_withdraw|done]. }
  revert Hrest Ho Hi1. set (w1 := foldr _ w _). intros Hrest Ho Hi1. apply inv_goto.
  - split; [|done]. simpl. rewrite lookup_insert_eq. split; [done|]. unfold busOf. simpl. by rewrite lookup_insert_eq.
  - apply inv_bus; try done. intros o owner Hl Hr. exfalso. pose proof (ci_listed w1 Hi1 _ _ Hl) as Hm.
    assert (Hb1 : busOf w1 r = bus) by (rewrite Hrest; done). unfold inMap in Hm. rewrite Hr, Hb1 in Hm.
    destruct Hl as (Hx & Hf & _). rewrite Ho, decide_True in Hx by (apply elem_of_allOwners; by eexists).
    destruct (Cluster_owners w !! o); [|done]. by injection Hx as <-.
Qed.

Lemma step_CloseOwner w t o w' :
  clusterStep w (CloseOwner t o) = Some w' → cluster_inv w → cluster_inv w'.
Proof.
  cbn [clusterStep]. unfold closeOwner. destruct (Cluster_owners w !! o) as [owner|] eqn:Ho; [|done].
  destruct (_ && _); [|done]. intros [= <-] Hi. apply inv_goto; [split; [|done]|].
  - simpl. rewrite lookup_alter_eq, Ho. by eexists.
  - apply inv_setOwner; [|done]. intros x _. by split_and!.
Qed.

Lemma step_FenceSessions w req u s w' :
  clusterStep w (FenceSessions req u s) = Some w' → cluster_inv w → cluster_inv w'.
Proof.
  cbn [clusterStep]. unfold installMarker. destruct (Cluster_fences w !! req) as [?|] eqn:Hf; [done|].
  destruct (_ || _) eqn:Hnil; [done|]. apply orb_false_iff in Hnil as [_ Hnil%bool_decide_eq_false].
  intros [= <-] Hi. set (w' := setFence _ _ _).
  assert (Hne : ∀ req' x, Cluster_fences w !! req' = Some x → Cluster_fences w' !! req' = Some x).
  { intros req' x Hx. simpl. rewrite lookup_insert_ne; [done|]. congruence. }
  constructor; try apply Hi.
  - intros t pc Ht. apply (ci_threads w Hi) in Ht. destruct pc; try done. destruct Ht as (x & Hx & Hp).
    exists x. split; [by apply Hne|done].
  - intros ack req' Ha Hr. destruct (ci_acks w Hi _ _ Ha Hr) as (x & Hx & Hp). exists x. split; [by apply Hne|done].
  - intros req' x Hx. simpl in Hx. apply lookup_insert_Some in Hx as [[<- <-]|[_ Hx]]; [done|by apply (ci_scope w Hi) in Hx].
  - intros req' x o owner Hx Hm Hl Hret Hcov. simpl in Hx. apply lookup_insert_Some in Hx as [[<- <-]|[Hr Hx]]; [done|].
    apply (ci_fences w Hi req' x o owner Hx); [|done..]. unfold marked in *. simpl in Hm.
    rewrite lookup_insert_ne in Hm; [done|]. by intros ?%markerKey_inj.
Qed.

(** Every lease that is listed is a target. *)
Lemma collectTargets_in now entries seen targets r :
  (∀ key e, (key, e) ∈ entries → ∃ r', Entry_Value e = leaseOf r') →
  collectTargets now entries seen = Some targets → (∃ key e, (key, e) ∈ entries ∧ Entry_Value e = leaseOf r) →
  Lease_ReplicaID (leaseOf r) +:+ "." +:+ Lease_Generation (leaseOf r) ∈ seen ∨ leaseOf r ∈ targets.
Proof.
  revert seen targets. induction entries as [|[key e] entries IH]; intros seen targets Hform Hc (k & x & Hin & Hx);
    [by apply elem_of_nil in Hin|]. cbn [collectTargets] in Hc.
  destruct (parseOwnerLease key e now) as [lease|] eqn:Hp; [|done]. simpl in Hc.
  assert (lease = Entry_Value e) as ->.
  { unfold parseOwnerLease in Hp. repeat case_match; by simplify_eq. }
  destruct (Hform key e) as [r' Hr']; [apply elem_of_cons; by left|]. rewrite Hr' in Hc.
  assert (Htail : ∀ k e, (k, e) ∈ entries → ∃ r', Entry_Value e = leaseOf r') by (intros; eapply Hform; apply elem_of_cons; by right).
  apply elem_of_cons in Hin as [[= -> ->]|Hin].
  - rewrite Hr' in Hx. apply (inj leaseOf) in Hx as ->. case_bool_decide as Hseen; [by left|].
    destruct (collectTargets _ _ _) as [ts|]; [|done]. injection Hc as <-. right. set_solver.
  - assert (Hsome : ∃ k x, (k, x) ∈ entries ∧ Entry_Value x = leaseOf r) by eauto.
    case_bool_decide as Hseen; [by eapply IH|].
    destruct (collectTargets _ _ _) as [ts|] eqn:Hts; [|done]. injection Hc as <-.
    destruct (IH _ _ Htail Hts Hsome) as [[Hs|?]%elem_of_union|?]; [|by left|right; set_solver].
    apply elem_of_singleton in Hs. apply lease_name_inj in Hs as ->. right. set_solver.
Qed.

Lemma fence_waiting w req f o owner targets :
  (∀ rest, targets = rest → lapsed w owner ∨ (leaseOf (natsOwner_bus owner) ∈ rest ∧ unanswered w req o owner)) →
  Fence_phase f = waiting targets → fence_state w req f o owner.
Proof.
  intros Hst Hp. unfold fence_state. rewrite Hp. destruct (Hst _ eq_refl) as [Hl|[Hin Hun]]; destruct targets; simpl; auto.
  by apply elem_of_nil in Hin.
Qed.

Lemma step_fence w req f ok w' :
  Cluster_fences w !! req = Some f → fenceStep w req f ok = Some w' → cluster_inv w → cluster_inv w'.
Proof.
  intros Hf Hs Hi. assert (Hno : ∀ x : list ownerLease, waiting x ≠ FenceListing) by by intros [].
  assert (Hfail : cluster_inv (setPhase w req f FenceFailed)) by by apply inv_fence.
  unfold fenceStep in Hs. destruct (Fence_phase f) as [|[|target rest]| | |] eqn:Hp; try done.
  - destruct (if ok then _ else _) as [targets|] eqn:Hc; [|by injection Hs as <-]. destruct ok; [|done].
    injection Hs as <-. apply inv_fence; [done|done| |done]. intros _ o owner Hl Hret Hcov.
    eapply fence_waiting; [|done]. intros ? <-.
    destruct (Cluster_leases w !! replicaLeaseKey (natsOwner_bus owner)) as [e|] eqn:He; [right|left; by apply (lease_gone w o)].
    assert (Hval : Entry_Value e = leaseOf (natsOwner_bus owner)).
    { destruct (ci_leases w Hi _ _ He) as [(r & Hk & Hv) _]. by apply (inj replicaLeaseKey) in Hk as ->. }
    split; [|split].
    + eapply (collectTargets_in _ _ _ _ (natsOwner_bus owner)) in Hc as [Hx|Hx]; [set_solver|done|..].
      * intros k x Hin. apply list_elem_of_In, List.filter_In in Hin as [Hin _].
        apply list_elem_of_In, elem_of_range in Hin. apply (ci_leases w Hi) in Hin as [(r & _ & Hv) _]. by exists r.
      * exists (replicaLeaseKey (natsOwner_bus owner)), e. split; [|done]. apply list_elem_of_In, List.filter_In.
        split; [apply list_elem_of_In, elem_of_range, He|]. exact (HasPrefix_app "r." _).
    + intros ack Ha Hr. destruct (ci_acks w Hi _ _ Ha Hr) as (x & Hx & Hpx). congruence.
    + intros t l Ht. apply (ci_threads w Hi) in Ht as (x & Hx & Hpx). congruence.
  - destruct ok; [|by injection Hs as <-]. cbn [negb] in Hs. destruct (existsb _ _) eqn:Hack; [|done]. injection Hs as <-.
    apply inv_fence; [done|done| |done]. intros Hm o owner Hl Hret Hcov. eapply fence_waiting; [|done]. intros ? <-.
    pose proof (ci_fences w Hi req f o owner Hf Hm Hl Hret Hcov) as Hst. unfold fence_state in Hst. rewrite Hp in Hst.
    destruct Hst as [Hst|[Hin Hun]]; [by left|right]. split; [|done].
    apply elem_of_cons in Hin as [Heq|Hin]; [|done]. exfalso.
    apply existsb_exists in Hack as (ack & Ha%list_elem_of_In & Hv). unfold validFenceAck in Hv. rewrite <- Heq in Hv.
    apply andb_true_iff in Hv as [[H1%bool_decide_eq_true H2%bool_decide_eq_true]%andb_true_iff H3%bool_decide_eq_true].
    by eapply (proj1 Hun).
Qed.

Lemma inv_markers w markers :
  (∀ key, is_Some (markers !! key) → is_Some (Cluster_markers w !! key)) →
  cluster_inv w → cluster_inv (w <| Cluster_markers := markers |>).
Proof.
  intros Hm Hi. apply (inv_env w); try done; simpl.
  - apply (ci_leases w Hi).
  - intros r e He. right. right. by exists e.
Qed.

Lemma step_ReleaseTicket w req ok w' :
  clusterStep w (ReleaseTicket req ok) = Some w' → cluster_inv w → cluster_inv w'.
Proof.
  cbn [clusterStep]. unfold releaseTicket. destruct (Cluster_fences w !! req) as [f|] eqn:Hf; [|done]. intros Hs Hi.
  destruct (Fence_phase f); try done; injection Hs as <-; (destruct ok; [apply inv_fence; [done..|]|]);
    (apply inv_markers; [|done]); by intros key [? [_ ?]%lookup_delete_Some].
Qed.

Lemma step_Deliver w t r req w' :
  clusterStep w (Deliver t r req) = Some w' → cluster_inv w → cluster_inv w'.
Proof.
  cbn [clusterStep]. unfold receiveCommand. destruct (Cluster_buses w !! r) as [bus|] eqn:Hb; [|done].
  destruct (Cluster_fences w !! req) as [f|] eqn:Hf; [|done]. destruct (free w t && _) eqn:Ht; [|done].
  intros [= <-] Hi. apply andb_true_iff in Ht as [_ Ht]. apply inv_goto; [|done]. split.
  - exists f. split; [done|]. intros Hp. apply (ci_scope w Hi) in Hf as [_ Hx]. by rewrite Hx in Ht.
  - intros f' o owner Hf' _ Hl _ [Hu _] <- _. simplify_eq. apply elem_of_ownersOf.
    apply (ci_listed w Hi) in Hl. unfold inMap, busOf in Hl. rewrite Hb, Hu in Hl. done.
Qed.

(** A step that is not late: a replica renews its lease while it is there, or while it owns no
    sessions, and registers no sessions once it is closed. *)
Definition timely w (label : ClusterLabel) : bool :=
  match label with
  | RegisterSessionOwner _ r _ _ _ => negb (NATSBUS_closed (busOf w r))
  | RefreshPut _ r _ _ =>
    bool_decide (is_Some (Cluster_leases w !! replicaLeaseKey r)) || bool_decide (allOwners (busOf w r) = [])
  | _ => true
  end.

Fixpoint timely_run w (trace : list ClusterLabel) : bool :=
  match trace with
  | [] => true
  | label :: trace =>
    timely w label && match clusterStep w label with Some w => timely_run w trace | None => false end
  end.

Lemma step_RefreshPut w t r ok lost w' :
  timely w (RefreshPut t r ok lost) = true →
  clusterStep w (RefreshPut t r ok lost) = Some w' → cluster_inv w → cluster_inv w'.
Proof.
  intros Htime. cbn [clusterStep]. unfold refreshPut. destruct (Cluster_buses w !! r) as [bus|] eqn:Hb; [|done].
  destruct (negb _); [done|]. intros [= <-] Hi. apply inv_goto.
  - destruct (ok || lost), ok; split; simpl; rewrite ?Hb; done.
  - destruct (ok || lost); [|done]. apply (inv_env w); try done; simpl.
    + intros key e [[<- <-]|[_ He]]%lookup_insert_Some; [|by apply (ci_leases w Hi)]. split; [by exists r|done].
    + intros r' e He. right. right. destruct (decide (r' = r)) as [->|Hne].
      * rewrite lookup_insert_eq. eexists. split; [done|]. by apply (ci_leases w Hi) in He as [_ ?].
      * rewrite lookup_insert_ne; [by exists e|]. by intros ?%(inj replicaLeaseKey).
    + intros o owner Hn Hl. rewrite lookup_insert_ne; [done|]. intros Hr%(inj replicaLeaseKey).
      simpl in Htime. apply orb_true_iff in Htime as [[e He]%bool_decide_eq_true|He%bool_decide_eq_true]; [congruence|].
      apply (ci_listed w Hi) in Hl. unfold inMap in Hl. rewrite <- Hr in Hl.
      assert (Hx : o ∈ allOwners (busOf w r)) by (apply elem_of_allOwners; by eexists).
      rewrite He in Hx. by apply elem_of_nil in Hx.
Qed.

Lemma step_ExpireLease w key w' :
  clusterStep w (ExpireLease key) = Some w' → cluster_inv w → cluster_inv w'.
Proof.
  cbn [clusterStep]. destruct (Cluster_leases w !! key) as [e|] eqn:He; [|done].
  destruct (_ <=? _)%Z eqn:Hold; [|done]. apply Z.leb_le in Hold. intros [= <-] Hi. apply (inv_env w); try done; simpl.
  - intros k x [_ Hx]%lookup_delete_Some. by apply (ci_leases w Hi).
  - intros r x Hx. right. destruct (decide (key = replicaLeaseKey r)) as [->|Hne]; [left; congruence|].
    right. exists x. by rewrite lookup_delete_ne.
  - intros o owner Hn _. apply lookup_delete_None. by right.
Qed.

Lemma cluster_step_inv w label w' :
  timely w label = true → clusterStep w label = Some w' → cluster_inv w → cluster_inv w'.
Proof.
  destruct label; intros Htime Hs Hi.
  - cbn [clusterStep] in Hs. unfold startBus in Hs. destruct (Cluster_buses w !! r) eqn:Hb; [done|]. injection Hs as <-. by apply inv_start.
  - cbn [clusterStep] in Hs. unfold insertOwner in Hs. destruct (Cluster_buses w !! r) as [bus|] eqn:Hb; [|done].
    destruct (Cluster_owners w !! o) eqn:Ho; [done|]. destruct (free w t && _ && _) eqn:Hfree; [|done].
    injection Hs as <-. apply andb_true_iff in Hfree as [[Hfree%bool_decide_eq_true _]%andb_true_iff _].
    apply inv_insert_owner; try done. apply negb_true_iff in Htime. unfold busOf in Htime. by rewrite Hb in Htime.
  - by eapply step_CloseOwner.
  - by eapply step_FenceSessions.
  - cbn [clusterStep] in Hs. destruct (Cluster_fences w !! requestID) as [f|] eqn:Hf; [|done]. by eapply step_fence.
  - cbn [clusterStep] in Hs. destruct (Cluster_fences w !! requestID) as [f|] eqn:Hf; [|done]. by eapply step_fence.
  - by eapply step_ReleaseTicket.
  - by eapply step_Deliver.
  - by eapply step_RefreshPut.
  - by eapply step_CloseBus.
  - by eapply step_Proceed.
  - cbn [clusterStep] in Hs. destruct (0 <=? elapsed)%Z eqn:He; [|done]. injection Hs as <-. apply Z.leb_le in He.
    apply (inv_env w); try done; simpl; [lia|..].
    + intros k x Hx. apply (ci_leases w Hi) in Hx as [? ?]. split; [done|lia].
    + intros r x Hx. right. right. by exists x.
  - by eapply step_ExpireLease.
  - cbn [clusterStep] in Hs. destruct (Cluster_markers w !! key) as [e|]; [|done]. destruct (_ <=? _)%Z; [|done].
    injection Hs as <-. apply inv_markers; [|done]. by intros k [? [_ ?]%lookup_delete_Some].
Qed.

Lemma newCluster_inv now : (realtimeOwnerTTL - realtimeOwnerAdmission ≤ now)%Z → cluster_inv (newCluster now).
Proof.
  intros Hnow. constructor; try done.
  - intros o owner (Hx & _). done.
  - intros o owner (Hx & _). done.
  - intros ack req Ha. by apply elem_of_nil in Ha.
Qed.

Lemma cluster_run_inv trace w w' :
  timely_run w trace = true → clusterRun w trace = Some w' → cluster_inv w → cluster_inv w'.
Proof.
  revert w. induction trace as [|label trace IH]; cbn [timely_run clusterRun]; intros w Ht Hr Hi; [by simplify_eq|].
  apply andb_true_iff in Ht as [Ht Hrest]. destruct (clusterStep w label) as [w1|] eqn:Hs; [|done].
  apply (IH w1); [done|done|]. by eapply cluster_step_inv.
Qed.

(** C8. Fences hold across replicas.  In every run of the cluster in which no step is late,
    however the threads interleave and whatever accesses to the buckets, requests and answers
    fail, once a call of [FenceSessions] has returned without an error and while its marker is
    there, every session that the fence covers and that [RegisterSessionOwner] has handed out on
    any replica is fenced, has been closed, or lost its validity so long ago that an action begun
    while it was valid has had twelve seconds to end. *)
Theorem nats_fence_holds now trace w req f o owner :
  (realtimeOwnerTTL - realtimeOwnerAdmission ≤ now)%Z →
  clusterRun (newCluster now) trace = Some w → timely_run (newCluster now) trace = true →
  Cluster_fences w !! req = Some f → Fence_phase f = FenceHeld → marked w req f →
  Cluster_owners w !! o = Some owner → natsOwner_returned owner = true → covered f owner →
  natsOwner_fenced owner = true ∨ natsOwner_released owner = true ∨
  (natsOwner_validUntil owner + 12 * Second ≤ Cluster_now w)%Z ∧ natsValid w o = false.
Proof.
  intros Hnow Hrun Htime Hf Hp Hm Ho Hret Hcov.
  pose proof (cluster_run_inv trace _ w Htime Hrun (newCluster_inv now Hnow)) as Hi.
  destruct (natsOwner_fenced owner) eqn:Hfe; [by left|]. destruct (natsOwner_released owner) eqn:Hre; [by right; left|].
  assert (Hl : live w o owner) by done. pose proof (ci_fences w Hi req f o owner Hf Hm Hl Hret Hcov) as Hst.
  unfold fence_state in Hst. rewrite Hp in Hst. destruct Hst as (_ & Hd & _). right. right.
  unfold drained, realtimeOwnerTTL, realtimeOwnerAdmission in Hd. unfold natsValid. rewrite Ho.
  pose proof (eq_refl : Second = 1000000000%Z). split; [lia|]. apply Z.ltb_ge. lia.
Qed.
End runs.

(** ** Concrete runs *)
Section witnesses.
#[local] Existing Instance Reference.runtime.

Definition replicaA : Replica := mkReplica (uuid_of_N 101) (uuid_of_N 102).
Definition replicaB : Replica := mkReplica (uuid_of_N 103) (uuid_of_N 104).
Definition bootTime : Z := 1000 * Second.
Definition fenceRequest : UUID := uuid_of_N 7.

(** A session on the first of two replicas, and a fence of its user that both answer. *)
Definition fenceTrace : list ClusterLabel :=
  [StartBus replicaA; StartBus replicaB; RegisterSessionOwner 0 replicaA 1%nat (uuid_of_N 1) (uuid_of_N 2);
   Proceed 0 true; Proceed 0 true; Tick Second; FenceSessions fenceRequest (uuid_of_N 1) None;
   FenceList fenceRequest true; Deliver 1 replicaB fenceRequest; Proceed 1 true;
   Deliver 2 replicaA fenceRequest; Proceed 2 true; Proceed 2 true;
   FenceAnswer fenceRequest true; FenceAnswer fenceRequest true].
Definition clusterAfter (trace : list ClusterLabel) : Cluster :=
  default (newCluster 0) (clusterRun (newCluster bootTime) trace).
Definition ranThrough (trace : list ClusterLabel) : bool := bool_decide (is_Some (clusterRun (newCluster bootTime) trace)).
Lemma clusterAfter_run trace : ranThrough trace = true → clusterRun (newCluster bootTime) trace = Some (clusterAfter trace).
Proof. unfold clusterAfter. intros [w Hw]%bool_decide_eq_true. by rewrite Hw. Qed.

Definition fenceCluster : Cluster := clusterAfter fenceTrace.
Definition fencedOwner : natsSessionOwner :=
  mknatsSessionOwner replicaA (uuid_of_N 1) (uuid_of_N 2) (bootTime + realtimeOwnerAdmission) true true false.
Definition heldFence : Fence := mkFence (uuid_of_N 1) None [leaseOf replicaB; leaseOf replicaA] FenceHeld.

(** A replica that is stalled for the life of its lease, and goes on after a fence has held. *)
Definition stalledTrace : list ClusterLabel :=
  [StartBus replicaA; RegisterSessionOwner 0 replicaA 1%nat (uuid_of_N 1) (uuid_of_N 2);
   Proceed 0 true; Proceed 0 true; Tick realtimeOwnerTTL; ExpireLease (replicaLeaseKey replicaA);
   FenceSessions fenceRequest (uuid_of_N 1) None; FenceList fenceRequest true;
   RefreshPut 0 replicaA true false; Proceed 0 true; Proceed 0 true].
Definition stalledCluster : Cluster := clusterAfter stalledTrace.

Lemma nats_fence_holds_witness :
  Cluster_owners fenceCluster !! 1%nat = Some fencedOwner ∧
  (natsOwner_fenced fencedOwner = true ∨ natsOwner_released fencedOwner = true ∨
   (natsOwner_validUntil fencedOwner + 12 * Second ≤ Cluster_now fenceCluster)%Z ∧ natsValid fenceCluster 1%nat = false).
Proof.
  split; [vm_compute; reflexivity|].
  apply (nats_fence_holds bootTime fenceTrace fenceCluster fenceRequest heldFence 1%nat fencedOwner).
  - vm_compute. discriminate.
  - apply clusterAfter_run. vm_compute; reflexivity.
  - vm_compute; reflexivity.
  - vm_compute; reflexivity.
  - reflexivity.
  - apply (bool_decide_eq_true_1 (is_Some _)). vm_compute; reflexivity.
  - vm_compute; reflexivity.
  - reflexivity.
  - split; reflexivity.
Defined.
End witnesses.

(** The fence does not reach a replica that has been stalled: a replica whose lease has run out
    under a session puts a new lease and admits the session again ([markOwnersAdmissible]) without
    a look at the markers, although the fence of the session was held in between and its marker is
    there. *)
Theorem stalled_replica_escapes :
  ∃ (RT : GoRuntime) now trace w req f o owner,
    (realtimeOwnerTTL - realtimeOwnerAdmission ≤ now)%Z ∧ clusterRun (newCluster now) trace = Some w ∧
    Cluster_fences w !! req = Some f ∧ Fence_phase f = FenceHeld ∧ marked w req f ∧
    Cluster_owners w !! o = Some owner ∧ natsOwner_returned owner = true ∧ covered f owner ∧
    natsOwner_fenced owner = false ∧ natsOwner_released owner = false ∧ natsValid w o = true.
Proof.
  exists Reference.runtime, bootTime, stalledTrace, stalledCluster, fenceRequest,
    (mkFence (uuid_of_N 1) None [] FenceHeld), 1%nat,
    (mknatsSessionOwner replicaA (uuid_of_N 1) (uuid_of_N 2)
       (bootTime + realtimeOwnerTTL + realtimeOwnerAdmission) false true false).
  split; [vm_compute; discriminate|]. split; [apply clusterAfter_run; vm_compute; reflexivity|]. split; [vm_compute; reflexivity|].
  split; [reflexivity|]. split; [apply (bool_decide_eq_true_1 (is_Some _)); vm_compute; reflexivity|].
  split; [vm_compute; reflexivity|]. split; [reflexivity|]. split; [split; reflexivity|].
  split; [reflexivity|]. split; [reflexivity|]. vm_compute; reflexivity.
Qed.
