(* ===== verification/Verification.v ===== *)
(** * Phone verification: the interface

    [src/internal/verification/verification.go]: the errors a verifier returns and the two
    services without a provider.  The one-time codes are in [OTP]. *)

From Stdlib Require Import ZArith Lia.
From S2P Require Import Prelude.
From S2P Require Import Runtime.
From S2P Require Import Domain.

Inductive VerificationError :=
  | VerifierUnavailable
  | ErrInvalidCode
  | ErrExpiredCode
  | ErrRateLimited
  | ErrLocked
  | RetryError (kind : VerificationError) (RetryAfter : Z)
  | VerifierFailure (message : string).

(** [errors.Is] with one of the errors of the package: a [RetryError] unwraps to its kind. *)
Fixpoint is_error (target e : VerificationError) : bool :=
  match target, e with
  | VerifierUnavailable, VerifierUnavailable | ErrInvalidCode, ErrInvalidCode
  | ErrExpiredCode, ErrExpiredCode | ErrRateLimited, ErrRateLimited | ErrLocked, ErrLocked => true
  | _, RetryError kind _ => is_error target kind
  | _, _ => false
  end.

(** A service in its environment; [None] is the nil error and [n] counts the accesses of the
    request that calls it. *)
Record VerificationService := mkVerificationService {
  Service_Send : nat → string → option VerificationError;
  Service_Check : nat → string → string → option VerificationError }.

Definition Unavailable : VerificationService :=
  mkVerificationService (λ _ _, Some VerifierUnavailable) (λ _ _ _, Some VerifierUnavailable).

Definition Development (code : string) : VerificationService :=
  mkVerificationService (λ _ _, None)
    (λ _ _ given, if bool_decide (given = code) then None else Some ErrInvalidCode).
