(* ===== verification/Redis.v ===== *)
(** * The Redis server the one-time codes use

    What [src/internal/verification] takes from Redis, as an interface: the commands its Lua
    scripts call, with their documented effect.  A data set is seen through [entry]: the value
    a key has at a time and the time it expires, in milliseconds.  The commands that read are
    documented functions of that entry; the commands that write are operations of the interface
    with laws.  A script runs alone, at one reading of the clock, and an error in the middle
    leaves what was written before it.

    [ReferenceRedis] is an instance that keeps the entries in a map. *)

From Stdlib Require Import ZArith Lia Ascii.
From S2P Require Import Prelude.
From S2P Require Import Runtime.
From S2P Require Import GoText.

Inductive RedisValue :=
  | RedisString (s : string)
  | RedisHash (fields : gmap string string).

Definition Entry : Type := option (RedisValue * option Z).

(** What is left of an entry at a later time. *)
Definition fade (now : Z) (e : Entry) : Entry :=
  match e with
  | Some (_, Some expiry) => if (expiry <=? now)%Z then None else e
  | _ => e
  end.

(** [HSET] of several fields: the last one wins. *)
Definition setFields (fields : list (string * string)) (h : gmap string string) : gmap string string :=
  foldl (λ h f, <[f.1 := f.2]> h) h fields.

(** [tonumber] is of Lua, where numbers are floating point. *)
Class RedisServer := {
  Redis : Type;
  entry : Redis → Z → string → Entry;
  INCR : Redis → Z → string → Redis * option Z;
  PEXPIRE : Redis → Z → string → Z → Redis;
  HSET : Redis → Z → string → list (string * string) → Redis * bool;
  HINCRBY : Redis → Z → string → string → Z → Redis * option Z;
  SET_PX : Redis → Z → string → string → Z → Redis;
  DEL : Redis → Z → list string → Redis;
  tonumber : string → option Z;

  entry_unexpired db now key v e : entry db now key = Some (v, Some e) → (now < e)%Z;
  entry_later db now now' key :
    (now ≤ now')%Z → entry db now' key = fade now' (entry db now key);
  INCR_new db now key key' :
    entry db now key = None →
    (INCR db now key).2 = Some 1%Z ∧
    entry (INCR db now key).1 now key' =
      if decide (key' = key) then Some (RedisString "1", None) else entry db now key';
  INCR_old db now key key' n e :
    entry db now key = Some (RedisString (pretty n), e) → (0 ≤ n < 2 ^ 53)%Z →
    (INCR db now key).2 = Some (n + 1)%Z ∧
    entry (INCR db now key).1 now key' =
      if decide (key' = key) then Some (RedisString (pretty (n + 1)%Z), e) else entry db now key';
  PEXPIRE_law db now key key' ms :
    (0 < ms)%Z →
    entry (PEXPIRE db now key ms) now key' =
      if decide (key' = key) then (λ x, (x.1, Some (now + ms)%Z)) <$> entry db now key
      else entry db now key';
  HSET_new db now key key' fields :
    entry db now key = None →
    (HSET db now key fields).2 = true ∧
    entry (HSET db now key fields).1 now key' =
      if decide (key' = key) then Some (RedisHash (setFields fields ∅), None) else entry db now key';
  HSET_old db now key key' fields h e :
    entry db now key = Some (RedisHash h, e) →
    (HSET db now key fields).2 = true ∧
    entry (HSET db now key fields).1 now key' =
      if decide (key' = key) then Some (RedisHash (setFields fields h), e) else entry db now key';
  HINCRBY_old db now key key' field by_ n h e :
    entry db now key = Some (RedisHash h, e) → h !! field = Some (pretty n) →
    (0 ≤ n < 2 ^ 53)%Z → (0 ≤ by_ < 2 ^ 53)%Z →
    (HINCRBY db now key field by_).2 = Some (n + by_)%Z ∧
    entry (HINCRBY db now key field by_).1 now key' =
      if decide (key' = key) then Some (RedisHash (<[field := pretty (n + by_)%Z]> h), e)
      else entry db now key';
  SET_PX_law db now key key' value ms :
    (0 < ms)%Z →
    entry (SET_PX db now key value ms) now key' =
      if decide (key' = key) then Some (RedisString value, Some (now + ms)%Z) else entry db now key';
  DEL_law db now keys key' :
    entry (DEL db now keys) now key' = if decide (key' ∈ keys) then None else entry db now key';
  tonumber_pretty n : (0 ≤ n < 2 ^ 53)%Z → tonumber (pretty n) = Some n }.

Section reads.
Context `{RedisServer} (db : Redis) (now : Z).

Definition EXISTS (key : string) : bool := bool_decide (is_Some (entry db now key)).

Definition PTTL (key : string) : Z :=
  match entry db now key with
  | None => -2
  | Some (_, None) => -1
  | Some (_, Some e) => e - now
  end%Z.

(** The outer [None] is the error of a key that holds something else. *)
Definition GET (key : string) : option (option string) :=
  match entry db now key with
  | None => Some None
  | Some (RedisString s, _) => Some (Some s)
  | Some (RedisHash _, _) => None
  end.

Definition HGET (key field : string) : option (option string) :=
  match entry db now key with
  | None => Some None
  | Some (RedisHash h, _) => Some (h !! field)
  | Some (RedisString _, _) => None
  end.
End reads.

(** ** Scripts *)

Section scripts.
Context `{RedisServer}.

(** A script at one reading of the clock; [None] is an error. *)
Definition Script (A : Type) : Type := Z → Redis → Redis * option A.

#[export] Instance Script_ret : MRet Script := λ A x now db, (db, Some x).
#[export] Instance Script_bind : MBind Script := λ A B f m now db,
  let '(db, x) := m now db in
  match x with Some x => f x now db | None => (db, None) end.

Definition read {A} (f : Redis → Z → A) : Script A := λ now db, (db, Some (f db now)).
Definition tryRead {A} (f : Redis → Z → option A) : Script A := λ now db, (db, f db now).
Definition write (f : Redis → Z → Redis) : Script unit := λ now db, (f db now, Some tt).
Definition tryWrite {A} (f : Redis → Z → Redis * option A) : Script A := λ now db, f db now.
(** [HSET]: an error if the key holds a string *)
Definition writeFields (key : string) (fields : list (string * string)) : Script unit :=
  λ now db, let '(db, ok) := HSET db now key fields in (db, if ok then Some tt else None).
End scripts.

(** The values of a reply as the client decodes them. *)
Inductive RedisReply := ReplyInt (n : Z) | ReplyString (s : string) | ReplyNil.

(** ** A server that keeps its entries in a map *)
Module ReferenceRedis.

#[local] Abbreviation data := (gmap string (RedisValue * option Z)).

Definition view (db : data) (now : Z) (key : string) : Entry := fade now (db !! key).

Definition put (db : data) (key : string) (e : Entry) : data := partial_alter (λ _, e) key db.

(** [INCR] of a value: what it becomes. *)
Definition counted (s : string) : option Z :=
  match ParseInt s with
  | Some n => if (n + 1 <? 2 ^ 63)%Z then Some (n + 1)%Z else None
  | None => None
  end.

Definition incr (db : data) (now : Z) (key : string) : data * option Z :=
  match view db now key with
  | None => (put db key (Some (RedisString "1", None)), Some 1%Z)
  | Some (RedisString s, e) =>
    match counted s with
    | Some n => (put db key (Some (RedisString (pretty n), e)), Some n)
    | None => (db, None)
    end
  | Some (RedisHash _, _) => (db, None)
  end.

Definition pexpire (db : data) (now : Z) (key : string) (ms : Z) : data :=
  put db key ((λ x, (x.1, Some (now + ms)%Z)) <$> view db now key).

Definition hset (db : data) (now : Z) (key : string) (fields : list (string * string)) : data * bool :=
  match view db now key with
  | None => (put db key (Some (RedisHash (setFields fields ∅), None)), true)
  | Some (RedisHash h, e) => (put db key (Some (RedisHash (setFields fields h), e)), true)
  | Some (RedisString _, _) => (db, false)
  end.

Definition hincrby (db : data) (now : Z) (key field : string) (by_ : Z) : data * option Z :=
  match view db now key with
  | Some (RedisHash h, e) =>
    match ParseInt (default "0" (h !! field)) with
    | Some n => (put db key (Some (RedisHash (<[field := pretty (n + by_)%Z]> h), e)), Some (n + by_)%Z)
    | None => (db, None)
    end
  | None => (put db key (Some (RedisHash {[field := pretty by_]}, None)), Some by_)
  | Some (RedisString _, _) => (db, None)
  end.

Definition set_px (db : data) (now : Z) (key value : string) (ms : Z) : data :=
  put db key (Some (RedisString value, Some (now + ms)%Z)).

Definition del (db : data) (now : Z) (keys : list string) : data := foldr delete db keys.

Lemma view_put db now key key' e :
  (∀ v x, e = Some (v, Some x) → (now < x)%Z) →
  view (put db key e) now key' = if decide (key' = key) then e else view db now key'.
Proof.
  intros He. unfold view, put. destruct (decide (key' = key)) as [->|Hne].
  - rewrite lookup_partial_alter_eq. destruct e as [[v [x|]]|]; cbn; [|done..].
    destruct (Z.leb_spec x now); [|done]. specialize (He v x eq_refl). lia.
  - by rewrite lookup_partial_alter_ne.
Qed.

Lemma view_unexpired db now key v e : view db now key = Some (v, Some e) → (now < e)%Z.
Proof.
  unfold view, fade. destruct (db !! key) as [[v' [x|]]|]; [|done..].
  destruct (Z.leb_spec x now); [done|]. intros [= -> ->]. done.
Qed.

Lemma view_del db now keys key' :
  view (del db now keys) now key' = if decide (key' ∈ keys) then None else view db now key'.
Proof.
  unfold view, del. induction keys as [|key keys IH]; cbn [foldr].
  - by rewrite decide_False by set_solver.
  - destruct (decide (key' = key)) as [->|Hne].
    + rewrite lookup_delete_eq, decide_True by set_solver. done.
    + rewrite lookup_delete_ne by done. rewrite IH. repeat case_decide; set_solver.
Qed.

#[global] Instance server : RedisServer.
Proof.
  refine {| Redis := data; entry := view; INCR := incr; PEXPIRE := pexpire; HSET := hset;
            HINCRBY := hincrby; SET_PX := set_px; DEL := del; tonumber := ParseInt |}.
  - apply view_unexpired.
  - intros db now now' key Hle. unfold view, fade. destruct (db !! key) as [[v [x|]]|]; [|done..].
    destruct (Z.leb_spec x now), (Z.leb_spec x now'); try done; lia.
  - intros db now key key' Hk. unfold incr. rewrite Hk. split; [done|]. by apply view_put.
  - intros db now key key' n e Hk Hn. unfold incr, counted. rewrite Hk, ParseInt_pretty by lia.
    rewrite (proj2 (Z.ltb_lt _ _)) by lia. split; [done|]. apply view_put.
    intros v x [= _ ->]. by eapply view_unexpired.
  - intros db now key key' ms Hms. apply view_put. intros v x Hx.
    destruct (view db now key) as [[v' e]|]; [|done]. cbn in Hx. injection Hx as _ <-. lia.
  - intros db now key key' fields Hk. unfold hset. rewrite Hk. split; [done|]. by apply view_put.
  - intros db now key key' fields h e Hk. unfold hset. rewrite Hk. split; [done|]. apply view_put.
    intros v x [= _ ->]. by eapply view_unexpired.
  - intros db now key key' field by_ n h e Hk Hf Hn Hb. unfold hincrby. rewrite Hk, Hf. cbn [from_option]. unfold id.
    rewrite ParseInt_pretty by lia. split; [done|]. apply view_put.
    intros v x [= _ ->]. by eapply view_unexpired.
  - intros db now key key' value ms Hms. apply view_put. intros v x [= _ <-]. lia.
  - intros. apply view_del.
  - intros n Hn. apply ParseInt_pretty. lia.
Defined.
End ReferenceRedis.
