(* ===== verification/OTP.v ===== *)
(** * One-time codes by SMS

    [src/internal/verification/otp.go] and the webhook of [telnyx_webhook.go]: the scripts that
    issue, roll back and check a code inside Redis, and the service around them.

    A script is a [Script] of [Redis]; its [KEYS] and [ARGV] are its arguments.  Durations go to
    it in milliseconds.  [Send] and [Check] run in an environment: before each script others
    have changed the data set, and a run may fail with or without the script having run.
    [OTPFacts] shows what the scripts promise under any interleaving. *)

From Stdlib Require Import ZArith Lia Ascii.
From S2P Require Import Prelude.
From S2P Require Import Runtime.
From S2P Require Import GoText.
From S2P Require Import AuthTokens.
From S2P Require Import Verification.
From S2P Require Import Redis.

(** ** Policy *)

Record OTPPolicy := mkOTPPolicy {
  OTPPolicy_CodeLength : Z; OTPPolicy_ChallengeTTL : Z; OTPPolicy_ResendCooldown : Z;
  OTPPolicy_LockoutTTL : Z; OTPPolicy_MaxAttempts : Z; OTPPolicy_PhoneSendHourly : Z;
  OTPPolicy_PhoneSendDaily : Z; OTPPolicy_GlobalSendMinute : Z; OTPPolicy_GlobalSendDaily : Z;
  OTPPolicy_AllowedPrefixes : list string }.

Definition DefaultPolicy : OTPPolicy :=
  mkOTPPolicy 6 (10 * Minute) Minute (15 * Minute) 5 5 10 60 10000 [].

(** [len(prefix) < 2 || prefix[0] != '+'] and the loop over the rest *)
Definition validPrefix (p : string) : bool :=
  (2 <=? strlen p)%Z &&
  match p with String c rest => bool_decide (c = "+"%char) && every_byte digit rest | "" => false end.

(** [None] is the nil error. *)
Definition Policy_Validate (p : OTPPolicy) : option string :=
  (if (OTPPolicy_CodeLength p <? 6) || (8 <? OTPPolicy_CodeLength p)
  then Some "OTP code length must be between 6 and 8"
  else if (OTPPolicy_ChallengeTTL p <? 2 * Minute) || (30 * Minute <? OTPPolicy_ChallengeTTL p)
  then Some "OTP challenge TTL must be between 2m and 30m"
  else if (OTPPolicy_ResendCooldown p <? 30 * Second) ||
          (OTPPolicy_ChallengeTTL p <=? OTPPolicy_ResendCooldown p)
  then Some "OTP resend cooldown must be at least 30s and less than the challenge TTL"
  else if (OTPPolicy_LockoutTTL p <? Minute) || (24 * Hour <? OTPPolicy_LockoutTTL p)
  then Some "OTP lockout TTL must be between 1m and 24h"
  else if (OTPPolicy_MaxAttempts p <? 3) || (10 <? OTPPolicy_MaxAttempts p)
  then Some "OTP max attempts must be between 3 and 10"
  else if (OTPPolicy_PhoneSendHourly p <? 1) ||
          (OTPPolicy_PhoneSendDaily p <? OTPPolicy_PhoneSendHourly p) ||
          (OTPPolicy_GlobalSendMinute p <? 1) ||
          (OTPPolicy_GlobalSendDaily p <? OTPPolicy_GlobalSendMinute p)
  then Some "OTP send limits are inconsistent"
  else if negb (forallb validPrefix (OTPPolicy_AllowedPrefixes p))
  then Some "invalid OTP destination prefix"
  else None)%Z.

(** [time.Millisecond] in nanoseconds *)
Definition Millisecond : Z := 1000000.

(** [d.Milliseconds()] *)
Definition Milliseconds (d : Z) : Z := (d ÷ Millisecond)%Z.

(** ** The service *)

Record OTP := mkOTP {
  OTP_secret : string; OTP_policy : OTPPolicy; OTP_prefix : string; OTP_webhookPublicKey : string }.

Record otpKeys := mkotpKeys {
  keys_challenge : string; keys_cooldown : string; keys_lockout : string; keys_phoneHour : string;
  keys_phoneDay : string; keys_globalMinute : string; keys_globalDay : string }.

(** The counters of sends: [KEYS[4]] to [KEYS[7]]. *)
Definition counters (k : otpKeys) : list string :=
  [keys_phoneHour k; keys_phoneDay k; keys_globalMinute k; keys_globalDay k].

(** The lengths of their windows in milliseconds. *)
Definition windows : list Z := [3600000; 86400000; 60000; 86400000]%Z.

Section digests.
Context `{HMAC}.

Definition digestWith (secret value : string) : string := hex_EncodeToString (hmac_sha256 secret value).
Definition digest (o : OTP) (value : string) : string := digestWith (OTP_secret o) value.

Definition codeDigest (o : OTP) (phone code : string) : string :=
  digest o ("code:" +:+ phone +:+ ":" +:+ code).

Definition destinationID (o : OTP) (phone : string) : string := digest o ("destination:" +:+ phone).

Definition keys (o : OTP) (destinationID : string) : otpKeys :=
  mkotpKeys (OTP_prefix o +:+ "challenge:" +:+ destinationID)
    (OTP_prefix o +:+ "cooldown:" +:+ destinationID) (OTP_prefix o +:+ "lockout:" +:+ destinationID)
    (OTP_prefix o +:+ "send:phone:hour:" +:+ destinationID)
    (OTP_prefix o +:+ "send:phone:day:" +:+ destinationID)
    (OTP_prefix o +:+ "send:global:minute") (OTP_prefix o +:+ "send:global:day").

(** [decodeWebhookPublicKey]: the empty key disables the webhook. *)
Definition decodeWebhookPublicKey `{GoRuntime} (encoded : string) : option string :=
  let encoded := TrimSpace encoded in
  if bool_decide (encoded = "") then Some "" else
  let decoded := match DecodeString StdEncoding encoded with
                 | Some d => Some d
                 | None => DecodeString RawStdEncoding encoded
                 end in
  match decoded with
  | Some d => if (strlen d =? 32)%Z then Some d else None
  | None => None
  end.

(** [connected]: the outcome of parsing the URL, of the TLS configuration and of the first
    [Ping]. *)
Definition NewOTP `{GoRuntime} (connected : option string) (sender : bool) (secret : string)
    (policy : OTPPolicy) (webhookPublicKey : string) : OTP + VerificationError :=
  if negb sender || (strlen secret <? 32)%Z then inr VerifierUnavailable else
  match Policy_Validate policy with
  | Some message => inr (VerifierFailure message)
  | None =>
    match connected with
    | Some message => inr (VerifierFailure message)
    | None =>
      match decodeWebhookPublicKey webhookPublicKey with
      | None => inr (VerifierFailure "Telnyx webhook public key must be a base64-encoded Ed25519 key")
      | Some publicKey =>
        inl (mkOTP secret policy
               ("clustr:otp:{" +:+ String.substring 0 16 (digestWith secret "namespace") +:+ "}:")
               publicKey)
      end
    end
  end.
End digests.

Definition destinationAllowed (o : OTP) (phone : string) : bool :=
  match OTPPolicy_AllowedPrefixes (OTP_policy o) with
  | [] => true
  | prefixes => existsb (HasPrefix phone) prefixes
  end.

Definition numericCode (code : string) (length : Z) : bool :=
  (strlen code =? length)%Z && every_byte digit code.

(** [draw i] is the i-th [rand.Int] below ten. *)
Fixpoint randomDigits (draw : nat → option Z) (i n : nat) : option (list ascii) :=
  match n with
  | 0 => Some []
  | S n =>
    d ← draw i; rest ← randomDigits draw (S i) n; Some (ascii_of_N (Z.to_N (48 + d)) :: rest)
  end.

Definition randomNumericCode (draw : nat → option Z) (length : Z) : option string :=
  of_bytes <$> randomDigits draw 0 (Z.to_nat length).

(** ** Replies *)

(** A reply is an array or something else; the result is the flag, the reason, and how long to
    wait. *)
Definition parseScriptResult (value : option (list RedisReply)) : (bool * string * Z) + string :=
  match value with
  | Some [ReplyInt status; ReplyString reason; retry] =>
    let result retryMilliseconds :=
      let retryMilliseconds := if (retryMilliseconds <? 0)%Z then 0%Z else retryMilliseconds in
      inl ((status =? 1)%Z, reason, int64_wrap (retryMilliseconds * Millisecond)) in
    match retry with
    | ReplyInt n => result n
    | ReplyString raw =>
      match ParseInt raw with Some n => result n | None => inr "invalid syntax" end
    | ReplyNil => inr "unexpected OTP retry value"
    end
  | Some [ReplyInt _; _; _] => inr "unexpected OTP script reason"
  | Some [_; _; _] => inr "unexpected OTP script status"
  | _ => inr "unexpected OTP script response"
  end.

(** ** The scripts *)

Section scripts.
Context `{RedisServer}.

Definition answer (status : Z) (reason : string) (retry : Z) : list RedisReply :=
  [ReplyInt status; ReplyString reason; ReplyInt retry].

(** [remaining] *)
Definition remaining (key : string) : Script Z :=
  ttl ← read (λ db now, PTTL db now key); mret (if ttl <? 0 then 0 else ttl)%Z.

(** [tonumber(redis.call('GET', key) or '0')]; comparing nil with a number is an error. *)
Definition currentCount (key : string) : Script Z :=
  value ← tryRead (λ db now, GET db now key); tryRead (λ _ _, tonumber (default "0" value)).

(** The first counter that has reached its limit. *)
Fixpoint exhausted (counters : list string) (limits : list Z) : Script (option string) :=
  match counters, limits with
  | key :: counters, limit :: limits =>
    current ← currentCount key;
    if (limit <=? current)%Z then mret (Some key) else exhausted counters limits
  | _, _ => mret None
  end.

Fixpoint countSends (counters : list string) (windows : list Z) : Script unit :=
  match counters, windows with
  | key :: counters, window :: windows =>
    count ← tryWrite (λ db now, INCR db now key);
    _ ← (if (count =? 1)%Z then write (λ db now, PEXPIRE db now key window) else mret tt);
    countSends counters windows
  | _, _ => mret tt
  end.

Definition issueChallengeScript (k : otpKeys) (challengeID codeHash : string)
    (challengeTTL resendCooldown : Z) (limits : list Z) : Script (list RedisReply) :=
  locked ← read (λ db now, EXISTS db now (keys_lockout k));
  if (locked : bool) then ttl ← remaining (keys_lockout k); mret (answer 0 "locked" ttl) else
  cooling ← read (λ db now, EXISTS db now (keys_cooldown k));
  if (cooling : bool) then ttl ← remaining (keys_cooldown k); mret (answer 0 "cooldown" ttl) else
  over ← exhausted (counters k) limits;
  match over with
  | Some key => ttl ← remaining key; mret (answer 0 "budget" ttl)
  | None =>
    _ ← countSends (counters k) windows;
    _ ← writeFields (keys_challenge k)
          [("challenge_id", challengeID); ("code_hash", codeHash); ("attempts", "0")];
    _ ← write (λ db now, PEXPIRE db now (keys_challenge k) challengeTTL);
    _ ← write (λ db now, SET_PX db now (keys_cooldown k) challengeID resendCooldown);
    mret (answer 1 "reserved" 0)
  end.

Definition rollbackChallengeScript (k : otpKeys) (challengeID : string) : Script RedisReply :=
  current ← tryRead (λ db now, HGET db now (keys_challenge k) "challenge_id");
  _ ← (if bool_decide (current = Some challengeID)
       then write (λ db now, DEL db now [keys_challenge k]) else mret tt);
  cooling ← tryRead (λ db now, GET db now (keys_cooldown k));
  _ ← (if bool_decide (cooling = Some challengeID)
       then write (λ db now, DEL db now [keys_cooldown k]) else mret tt);
  mret (ReplyInt 1).

Definition attachMessageScript (challenge delivery challengeID messageID : string) (retention : Z)
    : Script RedisReply :=
  current ← tryRead (λ db now, HGET db now challenge "challenge_id");
  if bool_decide (current ≠ Some challengeID) then mret (ReplyInt 0) else
  _ ← writeFields challenge [("message_id", messageID)];
  _ ← writeFields delivery [("status", "queued")];
  _ ← write (λ db now, PEXPIRE db now delivery retention);
  mret (ReplyInt 1).

Definition verifyChallengeScript (challenge cooldown lockout codeHash : string)
    (maxAttempts lockoutTTL : Z) : Script (list RedisReply) :=
  locked ← read (λ db now, EXISTS db now lockout);
  if (locked : bool) then ttl ← remaining lockout; mret (answer 0 "locked" ttl) else
  present ← read (λ db now, EXISTS db now challenge);
  if negb present then mret (answer 0 "expired" 0) else
  expected ← tryRead (λ db now, HGET db now challenge "code_hash");
  if bool_decide (expected = Some codeHash)
  then _ ← write (λ db now, DEL db now [challenge; cooldown]); mret (answer 1 "approved" 0) else
  attempts ← tryWrite (λ db now, HINCRBY db now challenge "attempts" 1);
  if (maxAttempts <=? attempts)%Z
  then _ ← write (λ db now, DEL db now [challenge; cooldown]);
       _ ← write (λ db now, SET_PX db now lockout "1" lockoutTTL);
       mret (answer 0 "locked" lockoutTTL)
  else mret (answer 0 "invalid" 0).

Definition recordDeliveryScript (dedupe delivery eventID status : string) (retention : Z)
    : Script RedisReply :=
  seen ← read (λ db now, EXISTS db now dedupe);
  if (seen : bool) then mret (ReplyInt 0) else
  _ ← write (λ db now, SET_PX db now dedupe eventID retention);
  _ ← writeFields delivery [("status", status); ("event_id", eventID)];
  _ ← write (λ db now, PEXPIRE db now delivery retention);
  mret (ReplyInt 1).
End scripts.

(** ** The operations *)

(** What a call does not control; its runs of scripts are numbered. *)
Record OTPEnv `{RedisServer} := mkOTPEnv {
  OTPEnv_others : nat → Redis → Redis;
  OTPEnv_now : nat → Z;
  (** a failing run: whether the script has run all the same, and the error *)
  OTPEnv_fault : nat → option (bool * string);
  OTPEnv_draw : nat → option Z;
  OTPEnv_token : option string;
  OTPEnv_SendCode : string → string → Z → string + VerificationError }.

Section service.
Context `{GoRuntime, HMAC, RedisServer}.

(** The scripts with the keys and the policy of the service. *)
Definition issue (o : OTP) (destinationID challengeID codeHash : string) : Script (list RedisReply) :=
  let p := OTP_policy o in
  issueChallengeScript (keys o destinationID) challengeID codeHash
    (Milliseconds (OTPPolicy_ChallengeTTL p)) (Milliseconds (OTPPolicy_ResendCooldown p))
    [OTPPolicy_PhoneSendHourly p; OTPPolicy_PhoneSendDaily p; OTPPolicy_GlobalSendMinute p;
     OTPPolicy_GlobalSendDaily p].

Definition rollback (o : OTP) (destinationID challengeID : string) : Script RedisReply :=
  rollbackChallengeScript (keys o destinationID) challengeID.

Definition deliveryKey (o : OTP) (messageID : string) : string :=
  OTP_prefix o +:+ "delivery:" +:+ messageID.

Definition attach (o : OTP) (destinationID challengeID messageID : string) : Script RedisReply :=
  attachMessageScript (keys_challenge (keys o destinationID)) (deliveryKey o messageID)
    challengeID messageID (Milliseconds (24 * Hour)).

Definition verify (o : OTP) (destinationID codeHash : string) : Script (list RedisReply) :=
  let k := keys o destinationID in
  verifyChallengeScript (keys_challenge k) (keys_cooldown k) (keys_lockout k) codeHash
    (OTPPolicy_MaxAttempts (OTP_policy o)) (Milliseconds (OTPPolicy_LockoutTTL (OTP_policy o))).

Definition recordDelivery (o : OTP) (eventID messageID status : string) : Script RedisReply :=
  recordDeliveryScript (OTP_prefix o +:+ "webhook:event:" +:+ eventID) (deliveryKey o messageID)
    eventID status (Milliseconds (24 * Hour)).

(** [script.Run(...).Result()] *)
Definition runScript {A} (env : OTPEnv) (n : nat) (script : Script A) (db : Redis)
    : Redis * (A + VerificationError) :=
  let before := OTPEnv_others env n db in
  match OTPEnv_fault env n with
  | Some (ran, message) =>
    (if (ran : bool) then (script (OTPEnv_now env n) before).1 else before, inr (VerifierFailure message))
  | None =>
    match script (OTPEnv_now env n) before with
    | (db, Some reply) => (db, inl reply)
    | (db, None) => (db, inr (VerifierFailure "ERR"))
    end
  end.

Definition Send (o : OTP) (env : OTPEnv) (phone : string) (db : Redis)
    : Redis * option VerificationError :=
  if negb (destinationAllowed o phone) then (db, Some VerifierUnavailable) else
  match randomNumericCode (OTPEnv_draw env) (OTPPolicy_CodeLength (OTP_policy o)) with
  | None => (db, Some (VerifierFailure "generate verification code"))
  | Some code =>
    match OTPEnv_token env with
    | None => (db, Some (VerifierFailure "generate verification challenge"))
    | Some random =>
      let challengeID := hex_EncodeToString random in
      let destination := destinationID o phone in
      match runScript env 0 (issue o destination challengeID (codeDigest o phone code)) db with
      | (db, inr err) => (db, Some err)
      | (db, inl reply) =>
        match parseScriptResult (Some reply) with
        | inr message => (db, Some (VerifierFailure message))
        | inl (allowed, reason, retryAfter) =>
          if negb allowed
          then (db, Some (RetryError (if bool_decide (reason = "locked") then ErrLocked else ErrRateLimited)
                                     retryAfter))
          else
            match OTPEnv_SendCode env phone code (OTPPolicy_ChallengeTTL (OTP_policy o)) with
            | inr err => ((runScript env 1 (rollback o destination challengeID) db).1, Some err)
            | inl messageID =>
              ((runScript env 1 (attach o destination challengeID messageID) db).1, None)
            end
        end
      end
    end
  end.

Definition Check (o : OTP) (env : OTPEnv) (phone code : string) (db : Redis)
    : Redis * option VerificationError :=
  if negb (destinationAllowed o phone) ||
     negb (numericCode code (OTPPolicy_CodeLength (OTP_policy o)))
  then (db, Some ErrInvalidCode)
  else
    match runScript env 0 (verify o (destinationID o phone) (codeDigest o phone code)) db with
    | (db, inr err) => (db, Some err)
    | (db, inl reply) =>
      match parseScriptResult (Some reply) with
      | inr message => (db, Some (VerifierFailure message))
      | inl (allowed, reason, retryAfter) =>
        (db, if allowed then None
             else if bool_decide (reason = "expired") then Some ErrExpiredCode
             else if bool_decide (reason = "locked") then Some (RetryError ErrLocked retryAfter)
             else Some ErrInvalidCode)
      end
    end.

(** ** The webhook *)

(** The decoded body: [None] when it does not decode. *)
Record DeliveryEvent := mkDeliveryEvent {
  DeliveryEvent_ID : string; DeliveryEvent_EventType : string; DeliveryEvent_PayloadID : string;
  DeliveryEvent_Direction : string; DeliveryEvent_Tags : list string; DeliveryEvent_To : list string }.

Definition webhookReplayWindow : Z := 5 * Minute.

(** [time.Unix(seconds, 0)]: the count of seconds wraps. *)
Definition time_Unix (seconds : Z) : Z := (int64_wrap (seconds + 62135596800) * Second)%Z.

Definition validDeliveryStatus (status : string) : bool :=
  bool_decide (status ∈ ["queued"; "sent"; "delivered"; "delivery_failed"; "delivery_unconfirmed"]).

Inductive WebhookError := ErrInvalidWebhook | WebhookFailure (err : VerificationError).

(** [ed25519_Verify] is of crypto/ed25519, [decoded] what encoding/json makes of the body; [now]
    is the clock of the service. *)
Definition HandleWebhook (ed25519_Verify : string → string → string → bool) (o : OTP) (env : OTPEnv)
    (now : Z) (signatureHeader timestampHeader body : string) (decoded : option DeliveryEvent)
    (db : Redis) : Redis * option WebhookError :=
  if negb (strlen (OTP_webhookPublicKey o) =? 32)%Z then (db, Some (WebhookFailure VerifierUnavailable)) else
  match ParseInt (TrimSpace timestampHeader) with
  | None => (db, Some ErrInvalidWebhook)
  | Some timestamp =>
    let eventTime := time_Unix timestamp in
    if Before eventTime (now - webhookReplayWindow) || After eventTime (now + webhookReplayWindow)
    then (db, Some ErrInvalidWebhook) else
    match DecodeString StdEncoding (TrimSpace signatureHeader) with
    | None => (db, Some ErrInvalidWebhook)
    | Some signature =>
      if negb (ed25519_Verify (OTP_webhookPublicKey o) (timestampHeader +:+ "|" +:+ body) signature)
      then (db, Some ErrInvalidWebhook) else
      match decoded with
      | None => (db, Some ErrInvalidWebhook)
      | Some event =>
        if bool_decide (DeliveryEvent_ID event = "") then (db, Some ErrInvalidWebhook) else
        if bool_decide (DeliveryEvent_EventType event ≠ "message.sent") &&
           bool_decide (DeliveryEvent_EventType event ≠ "message.finalized") then (db, None) else
        if bool_decide (DeliveryEvent_PayloadID event = "") ||
           bool_decide (DeliveryEvent_Direction event ≠ "outbound") ||
           negb (bool_decide ("clustr-otp" ∈ DeliveryEvent_Tags event)) then (db, None) else
        let status := match DeliveryEvent_To event with status :: _ => status | [] => "sent" end in
        let status := if validDeliveryStatus status then status else "unknown" in
        match runScript env 0 (recordDelivery o (DeliveryEvent_ID event) (DeliveryEvent_PayloadID event) status) db with
        | (db, inr err) => (db, Some (WebhookFailure err))
        | (db, inl _) => (db, None)
        end
      end
    end
  end.
End service.
