(* ===== verification/OTPFacts.v ===== *)
(** * What the one-time codes promise

    [OTPSpec] is what the service keeps, without Redis: for every destination a challenge, a
    cooldown, a lockout and the counters of its sends, and the counters of all sends.  [simulated]
    shows that every script answers what the specification answers and leaves a data set that
    represents the state after it, at every later time.  The properties of runs, in which the
    scripts of many calls interleave, are proved on the specification. *)

From Stdlib Require Import ZArith Lia Ascii.
From S2P Require Import Prelude.
From S2P Require Import Runtime.
From S2P Require Import GoText.
From S2P Require Import AuthTokens.
From S2P Require Import Verification.
From S2P Require Import Redis.
From S2P Require Import OTP.

(** ** The specification *)

Record Challenge := mkChallenge {
  Challenge_ID : string; Challenge_CodeHash : string; Challenge_Attempts : Z; Challenge_ExpiresAt : Z }.

(** How many sends, and when the count starts again. *)
Definition Counter : Type := option (Z * Z).

Record Destination := mkDestination {
  Destination_Challenge : option Challenge; Destination_Cooldown : option (string * Z);
  Destination_Lockout : option Z; Destination_Hour : Counter; Destination_Day : Counter }.

(** [OTPSpec_Events]: until when a webhook event counts as seen. *)
Record OTPSpec := mkOTPSpec {
  OTPSpec_Destination : string → Destination; OTPSpec_Minute : Counter; OTPSpec_Daily : Counter;
  OTPSpec_Events : string → option Z }.

Definition emptySpec : OTPSpec :=
  mkOTPSpec (λ _, mkDestination None None None None None) None None (λ _, None).

(** What is left at a later time. *)
Definition unexpired {A} (expiry : A → Z) (now : Z) (x : option A) : option A :=
  match x with Some a => if (expiry a <=? now)%Z then None else Some a | None => None end.

Definition fadeDestination (now : Z) (D : Destination) : Destination :=
  mkDestination (unexpired Challenge_ExpiresAt now (Destination_Challenge D))
    (unexpired snd now (Destination_Cooldown D)) (unexpired id now (Destination_Lockout D))
    (unexpired snd now (Destination_Hour D)) (unexpired snd now (Destination_Day D)).

Definition fadeSpec (now : Z) (S : OTPSpec) : OTPSpec :=
  mkOTPSpec (λ d, fadeDestination now (OTPSpec_Destination S d)) (unexpired snd now (OTPSpec_Minute S))
    (unexpired snd now (OTPSpec_Daily S)) (λ e, unexpired id now (OTPSpec_Events S e)).

Definition putDestination (S : OTPSpec) (d : string) (D : Destination) : OTPSpec :=
  mkOTPSpec (λ d', if decide (d' = d) then D else OTPSpec_Destination S d') (OTPSpec_Minute S)
    (OTPSpec_Daily S) (OTPSpec_Events S).

(** The limits of a policy, in the order of [counters]. *)
Definition limits (p : OTPPolicy) : list Z :=
  [OTPPolicy_PhoneSendHourly p; OTPPolicy_PhoneSendDaily p; OTPPolicy_GlobalSendMinute p;
   OTPPolicy_GlobalSendDaily p].

Definition sends (S : OTPSpec) (d : string) : list Counter :=
  let D := OTPSpec_Destination S d in
  [Destination_Hour D; Destination_Day D; OTPSpec_Minute S; OTPSpec_Daily S].

(** When the first counter at its limit starts again. *)
Fixpoint overLimit (counts : list Counter) (limits : list Z) : option Z :=
  match counts, limits with
  | Some (n, e) :: counts, limit :: limits =>
    if (limit <=? n)%Z then Some e else overLimit counts limits
  | None :: counts, _ :: limits => overLimit counts limits
  | _, _ => None
  end.

Definition countOne (now window : Z) (c : Counter) : Counter :=
  match c with Some (n, e) => Some (n + 1, e)%Z | None => Some (1, now + window)%Z end.

Inductive OTPCall :=
  | Issue (destination challengeID codeHash : string)
  | Rollback (destination challengeID : string)
  | Attach (destination challengeID messageID : string)
  | Verify (destination codeHash : string)
  | Deliver (eventID messageID status : string).

Section spec.
Context (p : OTPPolicy).
Implicit Types (S : OTPSpec) (d : string) (now : Z).

Definition specIssue (d challengeID codeHash : string) now S : OTPSpec * list RedisReply :=
  let D := OTPSpec_Destination S d in
  match Destination_Lockout D, Destination_Cooldown D, overLimit (sends S d) (limits p) with
  | Some e, _, _ => (S, answer 0 "locked" (e - now))
  | None, Some (_, e), _ => (S, answer 0 "cooldown" (e - now))
  | None, None, Some e => (S, answer 0 "budget" (e - now))
  | None, None, None =>
    (putDestination
       (mkOTPSpec (OTPSpec_Destination S) (countOne now 60000 (OTPSpec_Minute S))
          (countOne now 86400000 (OTPSpec_Daily S)) (OTPSpec_Events S)) d
       (mkDestination
          (Some (mkChallenge challengeID codeHash 0 (now + Milliseconds (OTPPolicy_ChallengeTTL p))))
          (Some (challengeID, now + Milliseconds (OTPPolicy_ResendCooldown p))%Z) None
          (countOne now 3600000 (Destination_Hour D)) (countOne now 86400000 (Destination_Day D))),
     answer 1 "reserved" 0)
  end.

Definition specRollback (d challengeID : string) S : OTPSpec :=
  let D := OTPSpec_Destination S d in
  putDestination S d
    (mkDestination
       (match Destination_Challenge D with
        | Some c => if decide (Challenge_ID c = challengeID) then None else Some c
        | None => None
        end)
       (match Destination_Cooldown D with
        | Some (id, e) => if decide (id = challengeID) then None else Some (id, e)
        | None => None
        end)
       (Destination_Lockout D) (Destination_Hour D) (Destination_Day D)).

Definition specAttach (d challengeID : string) S : list RedisReply :=
  match Destination_Challenge (OTPSpec_Destination S d) with
  | Some c => if decide (Challenge_ID c = challengeID) then [ReplyInt 1] else [ReplyInt 0]
  | None => [ReplyInt 0]
  end.

Definition specVerify (d codeHash : string) now S : OTPSpec * list RedisReply :=
  let D := OTPSpec_Destination S d in
  let settled lockout := putDestination S d
    (mkDestination None None lockout (Destination_Hour D) (Destination_Day D)) in
  match Destination_Lockout D, Destination_Challenge D with
  | Some e, _ => (S, answer 0 "locked" (e - now))
  | None, None => (S, answer 0 "expired" 0)
  | None, Some c =>
    if decide (Challenge_CodeHash c = codeHash) then (settled None, answer 1 "approved" 0)
    else if (OTPPolicy_MaxAttempts p <=? Challenge_Attempts c + 1)%Z
    then (settled (Some (now + Milliseconds (OTPPolicy_LockoutTTL p))%Z),
          answer 0 "locked" (Milliseconds (OTPPolicy_LockoutTTL p)))
    else (putDestination S d
            (mkDestination (Some (mkChallenge (Challenge_ID c) (Challenge_CodeHash c)
                                    (Challenge_Attempts c + 1) (Challenge_ExpiresAt c)))
               (Destination_Cooldown D) None (Destination_Hour D) (Destination_Day D)),
          answer 0 "invalid" 0)
  end.

Definition specDeliver (eventID : string) now S : OTPSpec * list RedisReply :=
  match OTPSpec_Events S eventID with
  | Some _ => (S, [ReplyInt 0])
  | None =>
    (mkOTPSpec (OTPSpec_Destination S) (OTPSpec_Minute S) (OTPSpec_Daily S)
       (λ e, if decide (e = eventID) then Some (now + Milliseconds (24 * Hour))%Z else OTPSpec_Events S e),
     [ReplyInt 1])
  end.

Definition specCall (call : OTPCall) now S : OTPSpec * list RedisReply :=
  match call with
  | Issue d challengeID codeHash => specIssue d challengeID codeHash now S
  | Rollback d challengeID => (specRollback d challengeID S, [ReplyInt 1])
  | Attach d challengeID _ => (S, specAttach d challengeID S)
  | Verify d codeHash => specVerify d codeHash now S
  | Deliver eventID _ _ => specDeliver eventID now S
  end.
End spec.

(** A run of the specification. *)
Fixpoint specRun (p : OTPPolicy) (trace : list (Z * OTPCall)) (S : OTPSpec) : OTPSpec * list (list RedisReply) :=
  match trace with
  | [] => (S, [])
  | (now, call) :: trace =>
    let '(next, r) := specCall p call now (fadeSpec now S) in
    let '(last, rs) := specRun p trace next in (last, r :: rs)
  end.

(** ** The keys do not collide *)

Inductive OTPKey :=
  | KeyChallenge (d : string) | KeyCooldown (d : string) | KeyLockout (d : string)
  | KeyHour (d : string) | KeyDay (d : string) | KeyMinute | KeyDaily
  | KeyDelivery (m : string) | KeyEvent (e : string).
#[export] Instance OTPKey_eq_dec : EqDecision OTPKey.
Proof. solve_decision. Defined.

Definition keySuffix (k : OTPKey) : string :=
  match k with
  | KeyChallenge d => "challenge:" +:+ d
  | KeyCooldown d => "cooldown:" +:+ d
  | KeyLockout d => "lockout:" +:+ d
  | KeyHour d => "send:phone:hour:" +:+ d
  | KeyDay d => "send:phone:day:" +:+ d
  | KeyMinute => "send:global:minute"
  | KeyDaily => "send:global:day"
  | KeyDelivery m => "delivery:" +:+ m
  | KeyEvent e => "webhook:event:" +:+ e
  end.

Lemma keySuffix_inj k k' : keySuffix k = keySuffix k' → k = k'.
Proof. by destruct k, k'; cbn; intros Heq; simplify_eq. Qed.

Definition keyText (o : OTP) (k : OTPKey) : string := OTP_prefix o +:+ keySuffix k.

#[export] Instance keyText_inj o : Inj (=) (=) (keyText o).
Proof. intros k k' Hk. apply keySuffix_inj. by apply string_app_inj_prefix in Hk as [_ ?]. Qed.

(** ** Data sets that represent a state *)

Definition counted (c : Counter) (limit : Z) (x : Entry) : Prop :=
  x = (λ y, (RedisString (pretty y.1), Some y.2)) <$> c ∧
  ∀ n e, c = Some (n, e) → (1 ≤ n ≤ limit)%Z.

Definition challenged (maxAttempts : Z) (c : option Challenge) (x : Entry) : Prop :=
  match c with
  | None => x = None
  | Some c => ∃ h, x = Some (RedisHash h, Some (Challenge_ExpiresAt c)) ∧
      h !! "challenge_id" = Some (Challenge_ID c) ∧ h !! "code_hash" = Some (Challenge_CodeHash c) ∧
      h !! "attempts" = Some (pretty (Challenge_Attempts c)) ∧ (0 ≤ Challenge_Attempts c < maxAttempts)%Z
  end.

Definition represents (p : OTPPolicy) (S : OTPSpec) (k : OTPKey) (x : Entry) : Prop :=
  match k with
  | KeyChallenge d =>
    challenged (OTPPolicy_MaxAttempts p) (Destination_Challenge (OTPSpec_Destination S d)) x
  | KeyCooldown d =>
    x = (λ y, (RedisString y.1, Some y.2)) <$> Destination_Cooldown (OTPSpec_Destination S d)
  | KeyLockout d =>
    x = (λ e, (RedisString "1", Some e)) <$> Destination_Lockout (OTPSpec_Destination S d)
  | KeyHour d => counted (Destination_Hour (OTPSpec_Destination S d)) (OTPPolicy_PhoneSendHourly p) x
  | KeyDay d => counted (Destination_Day (OTPSpec_Destination S d)) (OTPPolicy_PhoneSendDaily p) x
  | KeyMinute => counted (OTPSpec_Minute S) (OTPPolicy_GlobalSendMinute p) x
  | KeyDaily => counted (OTPSpec_Daily S) (OTPPolicy_GlobalSendDaily p) x
  | KeyDelivery _ => ∀ s e, x ≠ Some (RedisString s, e)
  | KeyEvent id => x = (λ e, (RedisString id, Some e)) <$> OTPSpec_Events S id
  end.

(** Policies that pass [Validate], with limits a Lua number can hold. *)
Definition sound_policy (p : OTPPolicy) : Prop :=
  Policy_Validate p = None ∧ Forall (λ limit, (limit < 2 ^ 53)%Z) (limits p).

Lemma sound_policy_spec p : sound_policy p →
  (0 < Milliseconds (OTPPolicy_ChallengeTTL p) ∧ 0 < Milliseconds (OTPPolicy_ResendCooldown p) ∧
   0 < Milliseconds (OTPPolicy_LockoutTTL p) ∧ 3 ≤ OTPPolicy_MaxAttempts p ≤ 10)%Z ∧
  Forall (λ limit, (1 ≤ limit < 2 ^ 53)%Z) (limits p).
Proof.
  unfold sound_policy, Policy_Validate, Milliseconds, Millisecond, limits. intros [Hv Hl].
  op_cases Hv. repeat apply Forall_cons in Hl as [? Hl]. unfold Minute, Second, Hour in *.
  rewrite !Z.quot_div_nonneg by lia. split.
  - split_and!; try lia; apply Z.div_str_pos; lia.
  - repeat (apply Forall_cons; split; [lia|]). by apply Forall_nil.
Qed.

Section simulation.
Context `{GoRuntime, HMAC, RedisServer} (o : OTP) (Hp : sound_policy (OTP_policy o)).
Implicit Types (db : Redis) (S : OTPSpec) (k : OTPKey) (d : string) (now : Z).

Definition at_ db now k : Entry := entry db now (keyText o k).

Definition holds db now S : Prop := ∀ k, represents (OTP_policy o) S k (at_ db now k).

(** One key was written. *)
Definition wrote db now k (x : Entry) db' : Prop :=
  ∀ k', at_ db' now k' = if decide (k' = k) then x else at_ db now k'.

Lemma keyText_case k k' (x y : Entry) :
  (if decide (keyText o k' = keyText o k) then x else y) = if decide (k' = k) then x else y.
Proof.
  destruct (decide (k' = k)) as [->|Hne]; [by rewrite decide_True|].
  rewrite decide_False; [done|]. by intros ?%(inj _).
Qed.

(** *** Running a script *)

Lemma run_read {A B} (f : Redis → Z → A) (g : A → Script B) now db :
  (read f ≫= g) now db = g (f db now) now db.
Proof. done. Qed.

Lemma run_tryRead {A B} (f : Redis → Z → option A) (g : A → Script B) now db x :
  f db now = Some x → (tryRead f ≫= g) now db = g x now db.
Proof. unfold mbind, Script_bind, tryRead. by intros ->. Qed.

Lemma run_write {B} (f : Redis → Z → Redis) (g : unit → Script B) now db :
  (write f ≫= g) now db = g tt now (f db now).
Proof. done. Qed.

Lemma run_tryWrite {A B} (f : Redis → Z → Redis * option A) (g : A → Script B) now db x :
  (f db now).2 = Some x → (tryWrite f ≫= g) now db = g x now (f db now).1.
Proof. unfold mbind, Script_bind, tryWrite. destruct (f db now). cbn. by intros ->. Qed.

Lemma run_fields {B} key fields (g : unit → Script B) now db :
  (HSET db now key fields).2 = true →
  (writeFields key fields ≫= g) now db = g tt now (HSET db now key fields).1.
Proof. unfold mbind, Script_bind, writeFields. destruct (HSET _ _ _ _). cbn. by intros ->. Qed.

Lemma run_bind {A B} (m : Script A) (f : A → Script B) now db db' x :
  m now db = (db', Some x) → (m ≫= f) now db = f x now db'.
Proof. unfold mbind, Script_bind. by intros ->. Qed.

Lemma run_assoc {A B C} (m : Script A) (f : A → Script B) (g : B → Script C) now db :
  ((m ≫= f) ≫= g) now db = (m ≫= λ x, f x ≫= g) now db.
Proof. unfold mbind, Script_bind. by destruct (m now db) as [db' [x|]]. Qed.

Lemma run_ret {A B} (x : A) (g : A → Script B) now db : (mret x ≫= g) now db = g x now db.
Proof. done. Qed.

(** *** Writing one key *)

Lemma wrote_PEXPIRE db now k ms :
  (0 < ms)%Z → wrote db now k ((λ x, (x.1, Some (now + ms)%Z)) <$> at_ db now k)
                 (PEXPIRE db now (keyText o k) ms).
Proof. intros Hms k'. unfold at_. by rewrite PEXPIRE_law, keyText_case by done. Qed.

Lemma wrote_SET_PX db now k value ms :
  (0 < ms)%Z → wrote db now k (Some (RedisString value, Some (now + ms)%Z))
                 (SET_PX db now (keyText o k) value ms).
Proof. intros Hms k'. unfold at_. by rewrite SET_PX_law, keyText_case by done. Qed.

Lemma wrote_HSET db now k fields h e :
  at_ db now k = Some (RedisHash h, e) →
  (HSET db now (keyText o k) fields).2 = true ∧
  wrote db now k (Some (RedisHash (setFields fields h), e)) (HSET db now (keyText o k) fields).1.
Proof.
  unfold wrote, at_. intros Hk. split; [by eapply (HSET_old db now _ (keyText o k))|].
  intros k'. by rewrite (proj2 (HSET_old _ _ _ _ _ _ _ Hk)), keyText_case.
Qed.

Lemma wrote_HSET_new db now k fields :
  at_ db now k = None →
  (HSET db now (keyText o k) fields).2 = true ∧
  wrote db now k (Some (RedisHash (setFields fields ∅), None)) (HSET db now (keyText o k) fields).1.
Proof.
  unfold wrote, at_. intros Hk. split; [by eapply (HSET_new db now _ (keyText o k))|].
  intros k'. by rewrite (proj2 (HSET_new _ _ _ _ _ Hk)), keyText_case.
Qed.

Lemma at_DEL db now ks k :
  at_ (DEL db now (keyText o <$> ks)) now k = if decide (k ∈ ks) then None else at_ db now k.
Proof.
  unfold at_. rewrite DEL_law. destruct (decide (k ∈ ks)) as [Hin|Hout].
  - rewrite decide_True; [done|]. by apply list_elem_of_fmap_2.
  - rewrite decide_False; [done|]. by intros (k' & ->%(inj _) & ?)%list_elem_of_fmap.
Qed.

(** *** Counters *)

Lemma counted_value now db k c limit :
  counted c limit (at_ db now k) →
  GET db now (keyText o k) = Some ((λ y, pretty y.1) <$> c).
Proof. unfold GET, at_. intros [-> _]. by destruct c as [[n e]|]. Qed.

Lemma run_currentCount {B} now db k c limit (g : Z → Script B) :
  counted c limit (at_ db now k) → (limit < 2 ^ 53)%Z →
  (currentCount (keyText o k) ≫= g) now db = g (from_option fst 0%Z c) now db.
Proof.
  intros Hc Hl. unfold currentCount. rewrite run_assoc.
  rewrite (run_tryRead _ _ _ _ _ (counted_value _ _ _ _ _ Hc)). apply run_tryRead.
  destruct Hc as [_ Hb]. destruct c as [[n e]|]; cbn.
  - apply tonumber_pretty. specialize (Hb n e eq_refl). lia.
  - by apply (tonumber_pretty 0).
Qed.

Lemma run_remaining {B} now db key v e (g : Z → Script B) :
  entry db now key = Some (v, Some e) → (remaining key ≫= g) now db = g (e - now)%Z now db.
Proof.
  intros He. pose proof (entry_unexpired db now key v e He). unfold remaining. rewrite run_assoc, run_read.
  unfold PTTL. rewrite He. rewrite run_ret. destruct (Z.ltb_spec (e - now) 0); [lia|done].
Qed.

Definition row : Type := OTPKey * Counter * Z.

Lemma run_exhausted (rows : list row) now db :
  Forall (λ r : row, counted r.1.2 r.2 (at_ db now r.1.1) ∧ (1 ≤ r.2 < 2 ^ 53)%Z) rows →
  let keys := (λ r : row, keyText o r.1.1) <$> rows in
  match overLimit ((λ r : row, r.1.2) <$> rows) (snd <$> rows) with
  | None => exhausted keys (snd <$> rows) now db = (db, Some None)
  | Some e => ∃ key v, exhausted keys (snd <$> rows) now db = (db, Some (Some key)) ∧
      entry db now key = Some (v, Some e)
  end.
Proof.
  induction 1 as [|[[k c] limit] rows [Hc Hl] _ IH]; [done|]. cbn in Hc, Hl |- *.
  rewrite (run_currentCount _ _ _ _ _ _ Hc) by lia. destruct Hc as [Hx Hb].
  destruct c as [[n e]|]; cbn [from_option fst]; [|by rewrite (proj2 (Z.leb_gt _ _)) by lia].
  destruct (limit <=? n)%Z; [|done]. eexists _, _. split; [done|]. apply Hx.
Qed.

Lemma run_count keys windows now db k c limit window :
  counted c limit (at_ db now k) → (limit < 2 ^ 53)%Z → (0 < window)%Z → (1 ≤ limit)%Z →
  (∀ n e, c = Some (n, e) → n < limit)%Z →
  ∃ db', countSends (keyText o k :: keys) (window :: windows) now db = countSends keys windows now db' ∧
    wrote db now k ((λ y, (RedisString (pretty y.1), Some y.2)) <$> countOne now window c) db' ∧
    ∀ n e, countOne now window c = Some (n, e) → (1 ≤ n ≤ limit)%Z.
Proof.
  intros [Hx Hb] Hl Hw Hone Hroom. cbn [countSends]. destruct c as [[n e]|]; cbn in Hx |- *.
  - specialize (Hb n e eq_refl). specialize (Hroom n e eq_refl).
    pose proof (λ key', INCR_old db now (keyText o k) key' n (Some e) Hx ltac:(lia)) as Hi.
    exists (INCR db now (keyText o k)).1.
    rewrite (run_tryWrite _ _ _ _ (n + 1)%Z) by apply (Hi "").
    rewrite (proj2 (Z.eqb_neq _ _)) by lia. split_and!.
    + done.
    + intros k'. unfold at_. by rewrite (proj2 (Hi _)), keyText_case.
    + intros n' e' [= <- <-]. lia.
  - pose proof (λ key', INCR_new db now (keyText o k) key' Hx) as Hi.
    exists (PEXPIRE (INCR db now (keyText o k)).1 now (keyText o k) window).
    rewrite (run_tryWrite _ _ _ _ 1%Z) by apply (Hi ""). split_and!.
    + done.
    + intros k'. rewrite (wrote_PEXPIRE _ _ _ _ Hw k'). unfold at_. rewrite !(proj2 (Hi _)).
      rewrite !keyText_case. destruct (decide (k' = k)); [|done]. by rewrite decide_True.
    + intros n' e' [= <- <-]. lia.
Qed.

(** No counter has reached its limit. *)
Lemma overLimit_none (rows : list row) :
  overLimit ((λ r : row, r.1.2) <$> rows) (snd <$> rows) = None →
  Forall (λ r : row, ∀ n e, r.1.2 = Some (n, e) → (n < r.2)%Z) rows.
Proof.
  induction rows as [|[[k c] limit] rows IH]; cbn; [by constructor|].
  destruct c as [[n e]|]; [destruct (Z.leb_spec limit n); [done|]|]; intros Hr; constructor; cbn; try by apply IH.
  - intros n' e' [= -> ->]. lia.
  - done.
Qed.

(** The counters of a destination with their limits. *)
Definition rows (S : OTPSpec) (d : string) : list row :=
  let p := OTP_policy o in let D := OTPSpec_Destination S d in
  [(KeyHour d, Destination_Hour D, OTPPolicy_PhoneSendHourly p);
   (KeyDay d, Destination_Day D, OTPPolicy_PhoneSendDaily p);
   (KeyMinute, OTPSpec_Minute S, OTPPolicy_GlobalSendMinute p);
   (KeyDaily, OTPSpec_Daily S, OTPPolicy_GlobalSendDaily p)].

Lemma rows_counted db now S d : holds db now S →
  Forall (λ r : row, counted r.1.2 r.2 (at_ db now r.1.1) ∧ (1 ≤ r.2 < 2 ^ 53)%Z) (rows S d).
Proof.
  intros Hh. destruct (sound_policy_spec _ Hp) as [_ Hl]. unfold limits in Hl.
  repeat match goal with Hl : Forall _ (_ :: _) |- _ => apply Forall_cons in Hl as [? Hl] end.
  repeat (apply Forall_cons; split; [split; [|done]|]); [..|by apply Forall_nil].
  - apply (Hh (KeyHour d)).
  - apply (Hh (KeyDay d)).
  - apply (Hh KeyMinute).
  - apply (Hh KeyDaily).
Qed.

Lemma run_countSends (rs : list (row * Z)) now db :
  NoDup ((λ r : row * Z, r.1.1.1) <$> rs) →
  Forall (λ r : row * Z, counted r.1.1.2 r.1.2 (at_ db now r.1.1.1) ∧ (1 ≤ r.1.2 < 2 ^ 53)%Z ∧
            (0 < r.2)%Z ∧ ∀ n e, r.1.1.2 = Some (n, e) → (n < r.1.2)%Z) rs →
  ∃ db', countSends ((λ r : row * Z, keyText o r.1.1.1) <$> rs) (snd <$> rs) now db = (db', Some tt) ∧
    (∀ k, k ∉ ((λ r : row * Z, r.1.1.1) <$> rs) → at_ db' now k = at_ db now k) ∧
    Forall (λ r : row * Z, counted (countOne now r.2 r.1.1.2) r.1.2 (at_ db' now r.1.1.1)) rs.
Proof.
  revert db. induction rs as [|[[[k c] limit] window] rs IH]; intros db Hnd Hall; [by exists db|].
  apply Forall_cons in Hall as [(Hc & Hl & Hw & Hroom) Hall]. apply NoDup_cons in Hnd as [Hout Hnd].
  cbn in Hc, Hl, Hw, Hroom, Hout.
  destruct (run_count ((λ r : row * Z, keyText o r.1.1.1) <$> rs) (snd <$> rs) now db k c limit window)
    as (db1 & Hrun & Hwr & Hb); [done|lia|done|lia|done|].
  assert (∀ r, r ∈ rs → at_ db1 now r.1.1.1 = at_ db now r.1.1.1) as Hsame.
  { intros r Hr. rewrite Hwr, decide_False; [done|]. intros Heq. apply Hout. rewrite <- Heq.
    by apply (list_elem_of_fmap_2 (λ r : row * Z, r.1.1.1)). }
  destruct (IH db1 Hnd) as (db' & Hrun' & Hrest & Hdone).
  { apply Forall_forall. intros r Hr. rewrite Hsame by done. exact (proj1 (Forall_forall _ _) Hall r Hr). }
  exists db'. cbn [fmap list_fmap fst snd]. rewrite Hrun. split_and!; [done| |constructor; [|done]].
  - intros k' Hk'%not_elem_of_cons. destruct Hk' as [Hne Hk'].
    rewrite Hrest by done. by rewrite Hwr, decide_False.
  - cbn. rewrite Hrest by done. split; [by rewrite Hwr, decide_True|done].
Qed.

(** *** The scripts *)

Lemma EXISTS_at db now k : EXISTS db now (keyText o k) = bool_decide (is_Some (at_ db now k)).
Proof. done. Qed.

Lemma holds_others db db' now S S' (touched : OTPKey → Prop) `{∀ k, Decision (touched k)} :
  holds db now S →
  (∀ k, ¬ touched k → at_ db' now k = at_ db now k) →
  (∀ k x, ¬ touched k → represents (OTP_policy o) S k x → represents (OTP_policy o) S' k x) →
  (∀ k, touched k → represents (OTP_policy o) S' k (at_ db' now k)) →
  holds db' now S'.
Proof.
  intros Hh Hsame Hkeep Hnew k. destruct (decide (touched k)); [eauto|]. rewrite Hsame by done. eauto.
Qed.

(** A destination is locked: both scripts say so. *)
Lemma holds_lockout db now S d : holds db now S →
  at_ db now (KeyLockout d) =
    (λ e, (RedisString "1", Some e)) <$> Destination_Lockout (OTPSpec_Destination S d).
Proof. intros Hh. apply (Hh (KeyLockout d)). Qed.

(** The keys of a destination that a settled or new challenge touches. *)
Definition touches (ks : list OTPKey) (k : OTPKey) : Prop := k ∈ ks.
#[local] Instance touches_dec ks k : Decision (touches ks k).
Proof. unfold touches. apply _. Defined.

Lemma put_keeps S d D k x :
  k ≠ KeyChallenge d → k ≠ KeyCooldown d → k ≠ KeyLockout d → k ≠ KeyHour d → k ≠ KeyDay d →
  represents (OTP_policy o) S k x → represents (OTP_policy o) (putDestination S d D) k x.
Proof. intros. destruct k; cbn; [..|done|done|done|done]; rewrite decide_False by congruence; done. Qed.

(** A new challenge: what is under the key afterwards. *)
Lemma run_reserve db now k challengeID codeHash ttl maxAttempts c (g : unit → Script (list RedisReply)) :
  challenged maxAttempts c (at_ db now k) → (0 < ttl)%Z → (0 < maxAttempts)%Z →
  ∃ db', (writeFields (keyText o k)
            [("challenge_id", challengeID); ("code_hash", codeHash); ("attempts", "0")] ≫= λ _,
          write (λ db now, PEXPIRE db now (keyText o k) ttl) ≫= g) now db = g tt now db' ∧
    (∀ k', k' ≠ k → at_ db' now k' = at_ db now k') ∧
    challenged maxAttempts (Some (mkChallenge challengeID codeHash 0 (now + ttl))) (at_ db' now k).
Proof.
  intros Hc Httl Hmax.
  set (fields := [("challenge_id", challengeID); ("code_hash", codeHash); ("attempts", "0")]).
  assert (∃ h e, (HSET db now (keyText o k) fields).2 = true ∧
            wrote db now k (Some (RedisHash (setFields fields h), e)) (HSET db now (keyText o k) fields).1)
    as (h & e & Hok & Hwr).
  { destruct c as [c|]; [destruct Hc as (h & Hx & _)|].
    - exists h, (Some (Challenge_ExpiresAt c)). by apply wrote_HSET.
    - exists ∅, None. by apply wrote_HSET_new. }
  exists (PEXPIRE (HSET db now (keyText o k) fields).1 now (keyText o k) ttl).
  rewrite run_fields by done. split; [done|]. pose proof (wrote_PEXPIRE (HSET db now (keyText o k) fields).1 now k ttl Httl) as Hp'.
  split.
  - intros k' Hne. rewrite (Hp' k'), decide_False by done. by rewrite (Hwr k'), decide_False.
  - rewrite (Hp' k), decide_True by done. rewrite (Hwr k), decide_True by done. cbn.
    eexists. split; [done|]. rewrite lookup_insert_eq, !lookup_insert_ne by done.
    by rewrite !lookup_insert_eq, lookup_insert_ne, lookup_insert_eq by done.
Qed.

Lemma keys_text d :
  keys o d = mkotpKeys (keyText o (KeyChallenge d)) (keyText o (KeyCooldown d)) (keyText o (KeyLockout d))
    (keyText o (KeyHour d)) (keyText o (KeyDay d)) (keyText o KeyMinute) (keyText o KeyDaily).
Proof. done. Qed.

Lemma run_locked db now k v e (m : Script (list RedisReply)) status reason :
  at_ db now k = Some (v, Some e) →
  (locked ← read (λ db now, EXISTS db now (keyText o k));
   if (locked : bool) then ttl ← remaining (keyText o k); mret (answer status reason ttl) else m) now db =
  (db, Some (answer status reason (e - now))).
Proof.
  intros Hk. rewrite run_read, EXISTS_at, Hk. rewrite bool_decide_eq_true_2 by by eexists.
  by rewrite (run_remaining _ _ _ _ _ _ Hk).
Qed.

Lemma run_unlocked db now k (m m' : Script (list RedisReply)) :
  at_ db now k = None →
  (locked ← read (λ db now, EXISTS db now (keyText o k)); if (locked : bool) then m' else m) now db = m now db.
Proof. intros Hk. rewrite run_read, EXISTS_at, Hk. by rewrite bool_decide_eq_false_2 by by intros []. Qed.

(** What a successful issue writes. *)
Lemma holds_issued db db1 db2 db3 now S d challengeID codeHash :
  let p := OTP_policy o in let D := OTPSpec_Destination S d in
  let ttl := Milliseconds (OTPPolicy_ChallengeTTL p) in
  let cooldown := Milliseconds (OTPPolicy_ResendCooldown p) in
  let rs := zip (rows S d) windows in
  holds db now S → Destination_Lockout D = None →
  (∀ k, k ∉ ((λ r : row * Z, r.1.1.1) <$> rs) → at_ db1 now k = at_ db now k) →
  Forall (λ r : row * Z, counted (countOne now r.2 r.1.1.2) r.1.2 (at_ db1 now r.1.1.1)) rs →
  (∀ k', k' ≠ KeyChallenge d → at_ db2 now k' = at_ db1 now k') →
  challenged (OTPPolicy_MaxAttempts p) (Some (mkChallenge challengeID codeHash 0 (now + ttl)))
    (at_ db2 now (KeyChallenge d)) →
  wrote db2 now (KeyCooldown d) (Some (RedisString challengeID, Some (now + cooldown)%Z)) db3 →
  holds db3 now
    (putDestination
       (mkOTPSpec (OTPSpec_Destination S) (countOne now 60000 (OTPSpec_Minute S))
          (countOne now 86400000 (OTPSpec_Daily S)) (OTPSpec_Events S)) d
       (mkDestination (Some (mkChallenge challengeID codeHash 0 (now + ttl)))
          (Some (challengeID, now + cooldown)%Z) None
          (countOne now 3600000 (Destination_Hour D)) (countOne now 86400000 (Destination_Day D)))).
Proof.
  intros p D ttl cooldown rs Hh HL Hw1 Hcs Hw2 Hch Hw3.
  assert (∀ k, k ≠ KeyChallenge d → k ≠ KeyCooldown d → at_ db3 now k = at_ db1 now k) as Hmost.
  { intros k Hne Hne'. rewrite (Hw3 k), decide_False by done. by apply Hw2. }
  unfold rs, rows, windows in Hcs, Hw1. cbn in Hcs, Hw1.
  apply Forall_cons in Hcs as [Hhour Hcs]. apply Forall_cons in Hcs as [Hday Hcs].
  apply Forall_cons in Hcs as [Hmin Hcs]. apply Forall_cons in Hcs as [Hdaily _]. cbn in Hhour, Hday, Hmin, Hdaily.
  apply (holds_others db db3 now S _ (touches [KeyChallenge d; KeyCooldown d; KeyHour d; KeyDay d;
    KeyMinute; KeyDaily])); [done|..]; unfold touches.
  - intros k Hk. rewrite !not_elem_of_cons in Hk. destruct Hk as (? & ? & ? & ? & ? & ? & _).
    rewrite Hmost by done. apply Hw1. rewrite !not_elem_of_cons. split_and!; [done..|apply not_elem_of_nil].
  - intros k x Hk Hx. rewrite !not_elem_of_cons in Hk. destruct Hk as (? & ? & ? & ? & ? & ? & _).
    destruct k as [d'|d'|d'|d'|d'| | |m|e]; cbn [represents OTPSpec_Destination putDestination OTPSpec_Events] in *;
      try done; try (rewrite decide_False by congruence; done).
    destruct (decide (d' = d)) as [->|]; [|done]. unfold D in HL. by rewrite HL in Hx.
  - intros k Hk. rewrite !elem_of_cons in Hk.
    destruct Hk as [->|[->|[->|[->|[->|[->|[]%not_elem_of_nil]]]]]];
      cbn [represents OTPSpec_Destination putDestination OTPSpec_Minute OTPSpec_Daily];
      try (rewrite (decide_True (P := d = d)) by reflexivity);
      cbn [Destination_Challenge Destination_Cooldown Destination_Hour Destination_Day].
    + rewrite (Hw3 _), decide_False by done. exact Hch.
    + by rewrite (Hw3 _), decide_True.
    + by rewrite Hmost.
    + by rewrite Hmost.
    + by rewrite Hmost.
    + by rewrite Hmost.
Qed.

Lemma simulated_issue db now S d challengeID codeHash :
  let spec := specIssue (OTP_policy o) d challengeID codeHash now S in
  holds db now S →
  ∃ db', issue o d challengeID codeHash now db = (db', Some spec.2) ∧ holds db' now spec.1.
Proof.
  intros spec Hh. pose proof (Hh (KeyLockout d)) as Hlock. pose proof (Hh (KeyCooldown d)) as Hcool.
  pose proof (Hh (KeyChallenge d)) as Hch. pose proof (rows_counted _ _ _ d Hh) as Hrows. cbn in Hlock, Hcool.
  destruct (sound_policy_spec _ Hp) as [(Httl & Hcd & _ & Hmax) _].
  unfold spec, specIssue, issue, issueChallengeScript. cbv zeta. rewrite keys_text. unfold counters.
  cbn [keys_challenge keys_cooldown keys_lockout keys_phoneHour keys_phoneDay keys_globalMinute keys_globalDay].
  destruct (Destination_Lockout (OTPSpec_Destination S d)) as [e|] eqn:HL; cbn in Hlock.
  { exists db. split; [|done]. by apply (run_locked _ _ _ _ _ _ _ _ Hlock). }
  rewrite (run_unlocked _ _ _ _ _ Hlock).
  destruct (Destination_Cooldown (OTPSpec_Destination S d)) as [[id e]|] eqn:HC; cbn in Hcool.
  { exists db. split; [|done]. by apply (run_locked _ _ _ _ _ _ _ _ Hcool). }
  rewrite (run_unlocked _ _ _ _ _ Hcool).
  pose proof (run_exhausted (rows S d) now db Hrows) as Hover.
  cbv zeta in Hover. match type of Hover with context [overLimit ?a ?b] =>
    change (overLimit a b) with (overLimit (sends S d) (limits (OTP_policy o))) in Hover end.
  destruct (overLimit (sends S d) (limits (OTP_policy o))) as [e|] eqn:Hlim.
  { destruct Hover as (key & v & Hrun & Hkey). exists db. split; [|done].
    rewrite (run_bind (exhausted _ _) _ now db db (Some key)) by exact Hrun. by rewrite (run_remaining _ _ _ _ _ _ Hkey). }
  rewrite (run_bind (exhausted _ _) _ now db db None) by exact Hover.
  apply (overLimit_none (rows S d)) in Hlim.
  destruct (run_countSends (zip (rows S d) windows) now db) as (db1 & Hcount & Hsame & Hcounted).
  { cbn. repeat (apply NoDup_cons; split; [set_solver|]). by apply NoDup_nil. }
  { unfold rows in *. cbn in *.
    repeat match goal with Hall : Forall _ (_ :: _) |- _ => apply Forall_cons in Hall as [? Hall] end.
    cbn in *. repeat (apply Forall_cons; split; [cbn; naive_solver lia|]). by apply Forall_nil. }
  rewrite (run_bind (countSends _ _) _ now db db1 tt) by exact Hcount.
  assert (at_ db1 now (KeyChallenge d) = at_ db now (KeyChallenge d)) as Hch1.
  { apply Hsame. cbn. set_solver. }
  cbn [represents] in Hch. rewrite <- Hch1 in Hch.
  match goal with |- context [writeFields _ _ ≫= λ _, write _ ≫= ?g] =>
    destruct (run_reserve db1 now (KeyChallenge d) challengeID codeHash
      (Milliseconds (OTPPolicy_ChallengeTTL (OTP_policy o))) _ _ g Hch) as (db2 & Hres & Hsame2 & Hch2) end;
    [done|lia|].
  rewrite Hres. rewrite run_write. eexists. split; [done|].
  eapply holds_issued; [done|done|done|done|done|done|]. by apply wrote_SET_PX.
Qed.

Lemma wrote_HINCRBY db now k h e n :
  at_ db now k = Some (RedisHash h, e) → h !! "attempts" = Some (pretty n) → (0 ≤ n < 10)%Z →
  (HINCRBY db now (keyText o k) "attempts" 1).2 = Some (n + 1)%Z ∧
  wrote db now k (Some (RedisHash (<["attempts" := pretty (n + 1)%Z]> h), e))
    (HINCRBY db now (keyText o k) "attempts" 1).1.
Proof.
  intros Hk Hf Hn. pose proof (λ key, HINCRBY_old db now (keyText o k) key "attempts" 1 n h e Hk Hf ltac:(lia) ltac:(lia)) as Hi.
  split; [apply (Hi "")|]. intros k'. unfold at_. by rewrite (proj2 (Hi _)), keyText_case.
Qed.

(** A destination that has only its challenge, cooldown and lockout changed. *)
Lemma holds_destination db db' now S d D :
  holds db now S →
  Destination_Hour D = Destination_Hour (OTPSpec_Destination S d) →
  Destination_Day D = Destination_Day (OTPSpec_Destination S d) →
  (∀ k, k ≠ KeyChallenge d → k ≠ KeyCooldown d → k ≠ KeyLockout d → at_ db' now k = at_ db now k) →
  challenged (OTPPolicy_MaxAttempts (OTP_policy o)) (Destination_Challenge D) (at_ db' now (KeyChallenge d)) →
  at_ db' now (KeyCooldown d) = (λ y, (RedisString y.1, Some y.2)) <$> Destination_Cooldown D →
  at_ db' now (KeyLockout d) = (λ e, (RedisString "1", Some e)) <$> Destination_Lockout D →
  holds db' now (putDestination S d D).
Proof.
  intros Hh Hhour Hday Hsame Hch Hcool Hlock k. pose proof (Hh k) as Hk.
  destruct k as [d'|d'|d'|d'|d'| | |m|e]; cbn [represents OTPSpec_Destination putDestination OTPSpec_Minute
    OTPSpec_Daily OTPSpec_Events] in *; try (by rewrite Hsame);
    destruct (decide (d' = d)) as [->|Hne]; try done; try (rewrite Hsame by congruence; done).
  - rewrite Hhour. by rewrite Hsame.
  - rewrite Hday. by rewrite Hsame.
Qed.

Lemma simulated_verify db now S d codeHash :
  let spec := specVerify (OTP_policy o) d codeHash now S in
  holds db now S →
  ∃ db', verify o d codeHash now db = (db', Some spec.2) ∧ holds db' now spec.1.
Proof.
  intros spec Hh. pose proof (Hh (KeyLockout d)) as Hlock. pose proof (Hh (KeyChallenge d)) as Hch.
  pose proof (Hh (KeyCooldown d)) as Hcool. cbn in Hlock, Hcool. cbn [represents] in Hch.
  destruct (sound_policy_spec _ Hp) as [(_ & _ & Hlt & Hmax) _].
  unfold spec, specVerify, verify, verifyChallengeScript. cbv zeta. rewrite keys_text.
  cbn [keys_challenge keys_cooldown keys_lockout].
  destruct (Destination_Lockout (OTPSpec_Destination S d)) as [e|] eqn:HL; cbn in Hlock.
  { exists db. split; [|done]. by apply (run_locked _ _ _ _ _ _ _ _ Hlock). }
  rewrite (run_unlocked _ _ _ _ _ Hlock), run_read, EXISTS_at.
  destruct (Destination_Challenge (OTPSpec_Destination S d)) as [c|] eqn:HC; cbn [challenged] in Hch.
  2: { exists db. split; [|done]. rewrite Hch. by rewrite bool_decide_eq_false_2 by by intros []. }
  destruct Hch as (h & Hx & Hid & Hcode & Hatt & Hbound). rewrite Hx.
  rewrite bool_decide_eq_true_2 by by eexists. cbn [negb].
  rewrite (run_tryRead _ _ _ _ (Some (Challenge_CodeHash c))) by by unfold HGET, at_ in *; rewrite Hx, Hcode.
  assert (∀ db0, DEL db0 now [keyText o (KeyChallenge d); keyText o (KeyCooldown d)] =
                 DEL db0 now (keyText o <$> [KeyChallenge d; KeyCooldown d])) as Hdel by done.
  destruct (decide (Challenge_CodeHash c = codeHash)) as [->|Hne].
  { rewrite bool_decide_eq_true_2 by done. rewrite run_write, Hdel. eexists. split; [done|].
    apply (holds_destination db); try done.
    - intros k ? ? ?. rewrite at_DEL, decide_False; [done|]. by rewrite !elem_of_cons, elem_of_nil; intros [?|[?|[]]].
    - cbn [Destination_Challenge challenged]. by rewrite at_DEL, decide_True by by left.
    - cbn [Destination_Cooldown]. by rewrite at_DEL, decide_True by by right; left.
    - cbn [Destination_Lockout]. rewrite at_DEL, decide_False; [done|]. by rewrite !elem_of_cons, elem_of_nil; intros [?|[?|[]]]. }
  rewrite bool_decide_eq_false_2 by congruence.
  destruct (wrote_HINCRBY db now (KeyChallenge d) h _ _ Hx Hatt ltac:(lia)) as [Hval Hwr].
  rewrite (run_tryWrite _ _ _ _ _ Hval). set (db1 := (HINCRBY db now (keyText o (KeyChallenge d)) "attempts" 1).1) in *.
  destruct (OTPPolicy_MaxAttempts (OTP_policy o) <=? Challenge_Attempts c + 1)%Z eqn:Hlast.
  - rewrite !run_write, Hdel. eexists. split; [done|].
    pose proof (wrote_SET_PX (DEL db1 now (keyText o <$> [KeyChallenge d; KeyCooldown d])) now (KeyLockout d)
                  "1" _ Hlt) as Hset.
    apply (holds_destination db); try done.
    + intros k ? ? ?. rewrite (Hset k), decide_False by done.
      rewrite at_DEL, decide_False; [by rewrite (Hwr k), decide_False|].
      by rewrite !elem_of_cons, elem_of_nil; intros [?|[?|[]]].
    + cbn [Destination_Challenge challenged]. rewrite (Hset _), decide_False by done.
      by rewrite at_DEL, decide_True by by left.
    + cbn [Destination_Cooldown]. rewrite (Hset _), decide_False by done.
      by rewrite at_DEL, decide_True by by right; left.
    + cbn [Destination_Lockout]. by rewrite (Hset _), decide_True.
  - eexists. split; [done|]. bool_prop. apply (holds_destination db); try done.
    + intros k ? ? ?. by rewrite (Hwr k), decide_False.
    + cbn. rewrite (Hwr _), decide_True by done. eexists. split; [done|].
      rewrite !lookup_insert_ne by done. rewrite lookup_insert_eq. split_and!; [done|done|done|lia|lia].
    + cbn. by rewrite (Hwr _), decide_False.
    + cbn. by rewrite (Hwr _), decide_False.
Qed.

(** [if m == id then del key]: the key is gone if it held the id. *)
Lemma run_drop {A} db now k id (value : option A) (f : A → option string) (current : Redis → Z → option (option string))
    (enc : A → Entry) :
  at_ db now k = from_option enc None value → current db now = Some (value ≫= f) →
  ∃ db', (∀ g : unit → Script RedisReply, (x ← tryRead current;
          (if bool_decide (x = Some id) then write (λ db now, DEL db now [keyText o k]) else mret tt) ≫= g)
         now db = g tt now db') ∧
    (∀ k', k' ≠ k → at_ db' now k' = at_ db now k') ∧
    at_ db' now k = if decide (value ≫= f = Some id) then None else at_ db now k.
Proof.
  intros Hk Hcur. destruct (decide (value ≫= f = Some id)) as [Heq|Hne].
  - exists (DEL db now (keyText o <$> [k])).
    split; [intros g; rewrite (run_tryRead _ _ _ _ _ Hcur); by rewrite bool_decide_eq_true_2 by done|].
    split; [intros k' Hne|]; rewrite at_DEL.
    + rewrite decide_False; [done|]. by rewrite list_elem_of_singleton.
    + by rewrite decide_True by by left.
  - exists db. split; [|done]. intros g. rewrite (run_tryRead _ _ _ _ _ Hcur).
    by rewrite bool_decide_eq_false_2 by done.
Qed.

Lemma simulated_rollback db now S d challengeID :
  holds db now S →
  ∃ db', rollback o d challengeID now db = (db', Some (ReplyInt 1)) ∧ holds db' now (specRollback d challengeID S).
Proof.
  intros Hh. pose proof (Hh (KeyChallenge d)) as Hch. pose proof (Hh (KeyCooldown d)) as Hcool.
  pose proof (Hh (KeyLockout d)) as Hlock. cbn [represents] in Hch, Hcool, Hlock.
  unfold rollback, rollbackChallengeScript. rewrite keys_text. cbn [keys_challenge keys_cooldown].
  set (D := OTPSpec_Destination S d) in *.
  destruct (run_drop db now (KeyChallenge d) challengeID (Destination_Challenge D) (λ c, Some (Challenge_ID c))
    (λ db now, HGET db now (keyText o (KeyChallenge d)) "challenge_id") (λ _, at_ db now (KeyChallenge d)))
    as (db1 & Hrun1 & Hsame1 & Hgone1).
  { destruct (Destination_Challenge D) as [c|]; cbn in *; [|done]. by destruct Hch. }
  { destruct (Destination_Challenge D) as [c|]; cbn [challenged] in Hch; unfold HGET; fold (at_ db now (KeyChallenge d)).
    - destruct Hch as (h & -> & Hid & _). by rewrite Hid.
    - by rewrite Hch. }
  rewrite Hrun1. clear Hrun1.
  destruct (run_drop db1 now (KeyCooldown d) challengeID (Destination_Cooldown D) (λ y, Some y.1)
    (λ db now, GET db now (keyText o (KeyCooldown d))) (λ y, Some (RedisString y.1, Some y.2)))
    as (db2 & Hrun2 & Hsame2 & Hgone2).
  { rewrite Hsame1 by done. rewrite Hcool. by destruct (Destination_Cooldown D). }
  { unfold GET. fold (at_ db1 now (KeyCooldown d)). rewrite Hsame1 by done. rewrite Hcool.
    by destruct (Destination_Cooldown D). }
  rewrite Hrun2. clear Hrun2. exists db2. split; [done|].
  apply (holds_destination db); try done; fold D; cbn [Destination_Challenge Destination_Cooldown Destination_Lockout].
  - intros k ? ? ?. rewrite Hsame2, Hsame1; done.
  - rewrite Hsame2, Hgone1 by done. destruct (Destination_Challenge D) as [c|]; cbn [challenged] in *.
    + cbn. destruct (decide (Some (Challenge_ID c) = Some challengeID)) as [Heq|Hne].
      * rewrite decide_True by congruence. done.
      * rewrite decide_False by congruence. done.
    + by destruct (decide _).
  - rewrite Hgone2, Hsame1 by done. destruct (Destination_Cooldown D) as [[id e]|]; cbn in *.
    + destruct (decide (Some id = Some challengeID)) as [Heq|Hne].
      * by rewrite decide_True by congruence.
      * by rewrite decide_False by congruence.
    + by destruct (decide _).
  - rewrite Hsame2, Hsame1 by done. exact Hlock.
Qed.

(** Hashes of deliveries are only written as hashes. *)
Lemma run_hash db now k fields ms :
  (∀ s e, at_ db now k ≠ Some (RedisString s, e)) → (0 < ms)%Z →
  ∃ db' h e, (∀ g : unit → Script RedisReply, (writeFields (keyText o k) fields ≫= λ _,
            write (λ db now, PEXPIRE db now (keyText o k) ms) ≫= g) now db = g tt now db') ∧
    (∀ k', k' ≠ k → at_ db' now k' = at_ db now k') ∧ at_ db' now k = Some (RedisHash h, e).
Proof.
  intros Hno Hms.
  assert (∃ h e, (HSET db now (keyText o k) fields).2 = true ∧
            wrote db now k (Some (RedisHash h, e)) (HSET db now (keyText o k) fields).1) as (h & e & Hok & Hwr).
  { destruct (at_ db now k) as [[[s|h] e]|] eqn:Hk; [by destruct (Hno s e)| |].
    - destruct (wrote_HSET db now k fields h e Hk). eauto.
    - destruct (wrote_HSET_new db now k fields Hk). eauto. }
  exists (PEXPIRE (HSET db now (keyText o k) fields).1 now (keyText o k) ms), h, (Some (now + ms)%Z).
  split; [intros g; by rewrite run_fields|].
  pose proof (wrote_PEXPIRE (HSET db now (keyText o k) fields).1 now k ms Hms) as Hpx. split.
  - intros k' Hne. rewrite (Hpx k'), decide_False by done. by rewrite (Hwr k'), decide_False.
  - rewrite (Hpx k), decide_True by done. by rewrite (Hwr k), decide_True.
Qed.

Lemma simulated_deliver db now S eventID messageID status :
  let spec := specDeliver eventID now S in
  holds db now S →
  ∃ db' r, recordDelivery o eventID messageID status now db = (db', Some r) ∧ [r] = spec.2 ∧ holds db' now spec.1.
Proof.
  intros spec Hh. pose proof (Hh (KeyEvent eventID)) as Hev. cbn [represents] in Hev.
  unfold spec, specDeliver, recordDelivery, recordDeliveryScript.
  change (OTP_prefix o +:+ "webhook:event:" +:+ eventID) with (keyText o (KeyEvent eventID)).
  change (deliveryKey o messageID) with (keyText o (KeyDelivery messageID)).
  rewrite run_read, EXISTS_at, Hev. destruct (OTPSpec_Events S eventID) as [e|] eqn:He.
  { rewrite bool_decide_eq_true_2 by by eexists. by exists db, (ReplyInt 0). }
  rewrite bool_decide_eq_false_2 by by intros []. rewrite run_write.
  pose proof (wrote_SET_PX db now (KeyEvent eventID) eventID (Milliseconds (24 * Hour)) ltac:(done)) as Hset.
  set (db1 := SET_PX db now (keyText o (KeyEvent eventID)) eventID (Milliseconds (24 * Hour))) in *.
  destruct (run_hash db1 now (KeyDelivery messageID) [("status", status); ("event_id", eventID)]
    (Milliseconds (24 * Hour))) as (db2 & h & e & Hrun & Hsame & Hk); [|done|].
  { rewrite (Hset _), decide_False by done. apply (Hh (KeyDelivery messageID)). }
  rewrite Hrun. clear Hrun. exists db2, (ReplyInt 1). split_and!; [done|done|]. intros k.
  destruct (decide (k = KeyDelivery messageID)) as [->|Hne]; [by rewrite Hk|].
  rewrite Hsame by done. rewrite (Hset k). destruct (decide (k = KeyEvent eventID)) as [->|Hne'].
  - cbn. by rewrite decide_True.
  - pose proof (Hh k) as Hk'. destruct k; try done. cbn in *. by rewrite decide_False by congruence.
Qed.

Lemma simulated_attach db now S d challengeID messageID :
  holds db now S →
  ∃ db' r, attach o d challengeID messageID now db = (db', Some r) ∧ [r] = specAttach d challengeID S ∧
    holds db' now S.
Proof.
  intros Hh. pose proof (Hh (KeyChallenge d)) as Hch. cbn [represents] in Hch.
  unfold attach, attachMessageScript, specAttach. rewrite keys_text. cbn [keys_challenge].
  change (deliveryKey o messageID) with (keyText o (KeyDelivery messageID)).
  set (C := Destination_Challenge (OTPSpec_Destination S d)) in *.
  assert (HGET db now (keyText o (KeyChallenge d)) "challenge_id" = Some (Challenge_ID <$> C)) as Hget.
  { unfold HGET. fold (at_ db now (KeyChallenge d)). destruct C as [c|]; cbn [challenged] in Hch.
    - destruct Hch as (h & -> & Hid & _). by rewrite Hid.
    - by rewrite Hch. }
  rewrite (run_tryRead _ _ _ _ _ Hget).
  destruct C as [c|] eqn:HC; cbn [fmap option_fmap option_map].
  2: { rewrite bool_decide_eq_true_2 by done. by exists db, (ReplyInt 0). }
  destruct (decide (Challenge_ID c = challengeID)) as [Heq|Hne].
  2: { rewrite bool_decide_eq_true_2 by congruence. by exists db, (ReplyInt 0). }
  rewrite bool_decide_eq_false_2 by (intros Hn; apply Hn; congruence). cbn [challenged] in Hch.
  destruct Hch as (h & Hx & Hid & Hcode & Hatt & Hb).
  destruct (wrote_HSET db now (KeyChallenge d) [("message_id", messageID)] h _ Hx) as [Hok Hwr].
  rewrite (run_fields _ _ _ _ _ Hok).
  set (db1 := (HSET db now (keyText o (KeyChallenge d)) [("message_id", messageID)]).1) in *.
  destruct (run_hash db1 now (KeyDelivery messageID) [("status", "queued")] (Milliseconds (24 * Hour)))
    as (db2 & h2 & e2 & Hrun & Hsame & Hk); [|done|].
  { rewrite (Hwr _), decide_False by done. apply (Hh (KeyDelivery messageID)). }
  rewrite Hrun. clear Hrun. exists db2, (ReplyInt 1). split_and!; [done|done|]. intros k.
  destruct (decide (k = KeyDelivery messageID)) as [->|Hne]; [by rewrite Hk|].
  rewrite Hsame by done. rewrite (Hwr k). destruct (decide (k = KeyChallenge d)) as [->|Hne']; [|apply Hh].
  cbn [represents]. fold C. rewrite HC. eexists. split; [done|]. cbn [setFields foldl fst snd].
  by rewrite !lookup_insert_ne by done.
Qed.

(** *** Time passes *)

Lemma fade_counted now now' c limit x :
  counted c limit x → (now ≤ now')%Z → counted (unexpired snd now' c) limit (fade now' x).
Proof.
  intros [-> Hb] _. destruct c as [[n e]|]; cbn; [|done]. destruct (e <=? now')%Z; [done|]. by split.
Qed.

Lemma holds_later db now now' S : holds db now S → (now ≤ now')%Z → holds db now' (fadeSpec now' S).
Proof.
  intros Hh Hle k. pose proof (Hh k) as Hk. unfold at_. rewrite (entry_later db now now') by done.
  fold (at_ db now k). destruct k as [d|d|d|d|d| | |m|e]; cbn [represents fadeSpec fadeDestination
    OTPSpec_Destination OTPSpec_Minute OTPSpec_Daily OTPSpec_Events Destination_Challenge Destination_Cooldown
    Destination_Lockout Destination_Hour Destination_Day] in *; try by eapply fade_counted.
  - destruct (Destination_Challenge _) as [c|]; cbn [challenged unexpired] in *; [|by rewrite Hk].
    destruct Hk as (h & -> & Hk). cbn. destruct (Challenge_ExpiresAt c <=? now')%Z; [done|]. by exists h.
  - rewrite Hk. destruct (Destination_Cooldown _) as [[id e]|]; [|done]. cbn. by destruct (e <=? now')%Z.
  - rewrite Hk. destruct (Destination_Lockout _) as [e|]; [|done]. cbn. by destruct (e <=? now')%Z.
  - intros s e Hf. destruct (at_ db now (KeyDelivery m)) as [[v [x|]]|] eqn:Hat; cbn in Hf; [|by apply (Hk s e)|done].
    destruct (x <=? now')%Z; [done|]. by apply (Hk s e).
  - rewrite Hk. destruct (OTPSpec_Events S e) as [x|]; [|done]. cbn. by destruct (x <=? now')%Z.
Qed.

(** ** Runs *)

(** The script of a call; several calls of the service interleave as any sequence of them. *)
Definition otpCall (call : OTPCall) : Script (list RedisReply) :=
  match call with
  | Issue d challengeID codeHash => issue o d challengeID codeHash
  | Rollback d challengeID => r ← rollback o d challengeID; mret [r]
  | Attach d challengeID messageID => r ← attach o d challengeID messageID; mret [r]
  | Verify d codeHash => verify o d codeHash
  | Deliver eventID messageID status => r ← recordDelivery o eventID messageID status; mret [r]
  end.

Fixpoint otpRun (trace : list (Z * OTPCall)) db : Redis * list (option (list RedisReply)) :=
  match trace with
  | [] => (db, [])
  | (now, call) :: trace =>
    let '(db, r) := otpCall call now db in
    let '(db, rs) := otpRun trace db in (db, r :: rs)
  end.

(** The clock of the server does not run backwards. *)
Fixpoint onward (start : Z) (trace : list (Z * OTPCall)) : Prop :=
  match trace with
  | [] => True
  | (now, _) :: trace => (start ≤ now)%Z ∧ onward now trace
  end.

Lemma simulated db now S call :
  holds db now S →
  ∃ db', otpCall call now db = (db', Some (specCall (OTP_policy o) call now S).2) ∧
    holds db' now (specCall (OTP_policy o) call now S).1.
Proof.
  intros Hh. destruct call as [d id hash|d id|d id m|d hash|e m status]; cbn [otpCall specCall].
  - by apply simulated_issue.
  - destruct (simulated_rollback _ _ _ d id Hh) as (db' & Hrun & ?). exists db'.
    by rewrite (run_bind _ _ _ _ _ _ Hrun).
  - destruct (simulated_attach _ _ _ d id m Hh) as (db' & r & Hrun & Hr & ?). exists db'.
    rewrite (run_bind _ _ _ _ _ _ Hrun). cbn [snd fst]. by rewrite <- Hr.
  - by apply simulated_verify.
  - destruct (simulated_deliver _ _ _ e m status Hh) as (db' & r & Hrun & Hr & ?). exists db'.
    rewrite (run_bind _ _ _ _ _ _ Hrun). cbn [snd fst]. by rewrite <- Hr.
Qed.

Lemma simulated_run trace start db S :
  holds db start S → onward start trace →
  (otpRun trace db).2 = Some <$> (specRun (OTP_policy o) trace S).2 ∧
  ∃ last, holds (otpRun trace db).1 last (specRun (OTP_policy o) trace S).1 ∧
    (last = start ∨ ∃ x, x ∈ trace ∧ last = x.1).
Proof.
  revert start db S. induction trace as [|[now call] trace IH]; intros start db S Hh Hon; cbn; [eauto|].
  destruct Hon as [Hle Hon]. pose proof (holds_later _ _ _ _ Hh Hle) as Hh'.
  destruct (simulated _ _ _ call Hh') as (db' & Hrun & Hh1). rewrite Hrun.
  destruct (specCall (OTP_policy o) call now (fadeSpec now S)) as [S1 r]. cbn in Hh1 |- *.
  destruct (IH now db' S1 Hh1 Hon) as (Hrs & last & Hlast & Hin).
  destruct (otpRun trace db') as [db2 rs], (specRun (OTP_policy o) trace S1) as [S2 rs']. cbn in *. subst rs.
  split; [done|]. exists last. split; [done|]. right. destruct Hin as [->|(x & Hx & ->)].
  - exists (now, call). split; [left|done].
  - exists x. split; [by right|done].
Qed.

Lemma holds_empty db now : (∀ key, entry db now key = None) → holds db now emptySpec.
Proof. intros He k. unfold at_. rewrite He. by destruct k. Qed.
End simulation.
