(* ===== verification/Http.v ===== *)
(** * The HTTP layer: requests, responses and handlers

    The common part of [src/internal/httpapi]: [json.go], [context.go], [client_ip.go] and
    the middleware of [server.go].

    A handler is a thread ([Threads]) that may answer and stop: [H A] ends in a response or
    goes on with a value.  It records what it does: its accesses to the store with the store
    before and after each, the events it publishes, the sessions it fences, the questions
    it asks the rate limiter, the calls on the media service.  Logs and metrics are left out.

    A request carries what the router and the decoder make of its bytes: headers, query
    and path parameters as functions, and for a handler that reads a body the decoded value.

    [replies] is the program logic: whatever the others do to the store between the accesses
    of a handler, its record and its outcome satisfy a postcondition. *)

From Stdlib Require Import ZArith Lia.
From S2P Require Import Prelude.
From S2P Require Import Runtime.
From S2P Require Import GoText.
From S2P Require Import Domain.
From S2P Require Import Compliance.
From S2P Require Import StoreState.
From S2P Require Import AuthTokens.
From S2P Require Import Accounts.
From S2P Require Import Devices.
From S2P Require Import Projection.
From S2P Require Import Conversations.
From S2P Require Import Messages.
From S2P Require Import Entities.
From S2P Require Import Media.
From S2P Require Import Threads.

(** ** Requests *)

Record Identity := mkIdentity {
  Identity_UserID : UUID; Identity_DeviceID : UUID; Identity_SessionID : UUID }.

(** [Request_Context] is the identity the context carries. *)
Record Request := mkRequest {
  Request_Method : string; Request_RemoteAddr : string; Request_ContentLength : Z;
  Request_Header : string → string; Request_Query : string → string;
  Request_URLParam : string → string; Request_Context : option Identity }.

Definition withIdentity (r : Request) (id : Identity) : Request :=
  mkRequest (Request_Method r) (Request_RemoteAddr r) (Request_ContentLength r) (Request_Header r)
    (Request_Query r) (Request_URLParam r) (Some id).

Definition identityFrom (r : Request) : Identity * bool :=
  match Request_Context r with
  | Some id => (id, true)
  | None => (mkIdentity uuid_Nil uuid_Nil uuid_Nil, false)
  end.

(** What decoding a body gives: an error in the first value, something after it, or a value. *)
Inductive Decoded (A : Type) :=
  | BadJSON
  | TrailingJSON
  | Body (value : A).
Arguments BadJSON {A}.
Arguments TrailingJSON {A}.
Arguments Body {A} value.

(** [len] of the bytes of a document, those [json.Marshal] writes for a decoded one. *)
Class WireFormat := {
  raw_length : RawMessage → Z;
  raw_length_zero_spec r : raw_length_zero r = true ↔ raw_length r = 0%Z;
  raw_length_nonneg r : (0 ≤ raw_length r)%Z }.

(** ** The server *)

Record PasswordResetPolicy := mkPasswordResetPolicy {
  PasswordResetPolicy_Enabled : bool; PasswordResetPolicy_HMACSecret : string;
  PasswordResetPolicy_CodeLength : Z; PasswordResetPolicy_TTL : Z;
  PasswordResetPolicy_MaxAttempts : Z }.

Record MediaPolicy := mkMediaPolicy {
  MediaPolicy_ConversationMaxBytes : Z; MediaPolicy_ProfileMaxBytes : Z;
  MediaPolicy_CompletionTimeout : Z; MediaPolicy_VerificationConcurrency : Z;
  MediaPolicy_ReservationLimits : MediaReservationLimits }.

Definition DefaultMediaPolicy : MediaPolicy :=
  mkMediaPolicy (2 ^ 30) (20 * 2 ^ 20) (2 * Minute) 4 DefaultMediaReservationLimits.

(** What [New] makes of the media policy it is given. *)
Definition serverMediaPolicy (p : MediaPolicy) : MediaPolicy :=
  let p :=
    if (MediaPolicy_ConversationMaxBytes p =? 0)%Z then DefaultMediaPolicy
    else if (MediaPolicy_CompletionTimeout p =? 0)%Z
    then mkMediaPolicy (MediaPolicy_ConversationMaxBytes p) (MediaPolicy_ProfileMaxBytes p)
           (MediaPolicy_CompletionTimeout DefaultMediaPolicy) (MediaPolicy_VerificationConcurrency p)
           (MediaPolicy_ReservationLimits p)
    else p in
  if (MediaPolicy_VerificationConcurrency p <? 1)%Z
  then mkMediaPolicy (MediaPolicy_ConversationMaxBytes p) (MediaPolicy_ProfileMaxBytes p)
         (MediaPolicy_CompletionTimeout p) (MediaPolicy_VerificationConcurrency DefaultMediaPolicy)
         (MediaPolicy_ReservationLimits p)
  else p.

(** The configuration a server keeps; of the legal release the policy it publishes. *)
Record Server := mkServer {
  Server_tokens : TokenManager; Server_dummyHash : string; Server_metricsToken : string;
  Server_legalRelease : Policy; Server_passwordReset : PasswordResetPolicy;
  Server_mediaPolicy : MediaPolicy }.

(** ** Responses *)

(** The values the handlers encode into a body. *)
Inductive Content :=
  | NoContent
  | ErrorBody (code message : string)
  | Fields (fields : list (string * string))
  | AuthBody (user : User) (device : Device) (tokens : TokenPair)
  | TokensBody (tokens : TokenPair)
  | UserBody (user : User)
  | UsersBody (users : list PublicUser)
  | DeviceBody (device : Device)
  | DevicesBody (devices : list Device)
  | BundlesBody (bundles : list PreKeyBundle)
  | ConversationBody (conversation : Conversation)
  | ConversationsBody (items : list Conversation) (next : string)
  | MembersBody (members : list ConversationMember)
  | InviteBody (token : string) (invite : ConversationInvite)
  | PreviewBody (preview : ConversationInvitePreview)
  | AcceptedBody (accepted : ConversationInviteAcceptance)
  | MessageBody (message : Message)
  | MessagesBody (items : list Message) (next : string)
  | ReceiptBody (receipt : Receipt)
  | ReceiptsBody (receipts : list Receipt)
  | EntityBody (entity : Entity)
  | EntitiesBody (items : list Entity) (next : string)
  | RotationBody (result : RotateChoreResult)
  | MediaBody (record : MediaObject)
  | UploadBody (record : MediaObject) (method url : string) (headers : list (string * string))
      (expiresAt : option Z)
  | DownloadBody (url : string) (expiresAt : Z)
  | BlocksBody (users : list UUID)
  | OnlineBody (online : bool)
  | ResetStartedBody (challengeID : string) (expiresIn : Z) (message : string)
  | AgePendingBody (minimumAge : Z) (policyVersion : string)
  | AgeBody (assurance : AgeAssurance)
  | PolicyBody (policy : Policy)
  | AcceptanceBody (acceptance : Acceptance)
  | CaseBody (status : CaseStatus).

Record Response := mkResponse {
  Response_Status : Z; Response_RetryAfter : option string; Response_Content : Content }.

Definition writeJSON (status : Z) (content : Content) : Response := mkResponse status None content.

Definition writeError (status : Z) (code message : string) : Response :=
  writeJSON status (ErrorBody code message).

(** [w.WriteHeader(http.StatusNoContent)] *)
Definition noContent : Response := writeJSON 204 NoContent.

Definition retryAfter (seconds : string) (r : Response) : Response :=
  mkResponse (Response_Status r) (Some seconds) (Response_Content r).

Definition writeDomainError (err : Error) : Response :=
  match err with
  | ErrUnauthenticated => writeError 401 "unauthenticated" "Authentication is required."
  | ErrForbidden => writeError 403 "forbidden" "You do not have access to this resource."
  | ErrNotFound => writeError 404 "not_found" "The requested resource was not found."
  | ErrConflict => writeError 409 "conflict" "The request conflicts with the current resource state."
  | ErrInvalid => writeError 422 "invalid_input" "One or more fields are invalid."
  | ErrQuotaExceeded => writeError 429 "media_quota_exceeded"
      "Media upload or storage quota exceeded. Delete existing media or wait for pending uploads to expire."
  | ErrMediaExpired => writeError 410 "upload_expired" "The media upload reservation has expired."
  | ErrInviteRevoked => writeError 410 "invite_revoked" "This invitation has been revoked."
  | ErrInviteExpired => writeError 410 "invite_expired" "This invitation has expired."
  | ErrInviteExhausted => writeError 410 "invite_exhausted" "This invitation has reached its usage limit."
  | ErrOther _ => writeError 500 "internal_error" "An internal error occurred."
  end.

Definition dependencyUnavailable : Response :=
  writeError 503 "dependency_unavailable" "Please try again shortly.".

(** ** Handlers *)

(** An event a handler publishes. *)
Record HttpEvent := mkHttpEvent {
  HttpEvent_ID : string; HttpEvent_Type : string; HttpEvent_ConversationID : UUID;
  HttpEvent_Payload : list (string * UUID); HttpEvent_OccurredAt : Z }.

Inductive Effect :=
  | Access (before after : Store)
  | Published (recipients : list UUID) (event : HttpEvent)
  | RevokedLocally (userID : UUID) (sessionID : option UUID)
  | Fenced (userID : UUID) (sessionID : option UUID) (err : option Error)
  | FenceReleased
  | Limited (key : string) (limit window : Z) (answer : res bool)
  | MediaCalled (name objectKey : string) (result : option string)
  | VerifierCalled (name phone : string) (ok : bool).

Inductive Outcome (A : Type) :=
  | Done (response : Response)
  | Next (value : A).
Arguments Done {A} response.
Arguments Next {A} value.

(** What the handlers do not control; [n] counts the accesses of the request. *)
Record Env := mkEnv {
  Env_others : nat → Store → Store;
  Env_time : nat → Clock;
  Env_newID : nat → UUID;
  Env_random : nat → nat → option string;
  Env_randInt : nat → Z → option Z;
  Env_allow : nat → string → Z → Z → res bool;
  Env_fence : nat → UUID → option UUID → option Error;
  Env_online : nat → UUID → res bool }.

Definition H (A : Type) : Type := M Effect (Outcome A).
Definition Handler : Type := H unit.

#[export] Instance H_ret : MRet H := λ A x s l, (s, l, Next x).
#[export] Instance H_bind : MBind H := λ A B f m s l,
  let '(s, l, o) := m s l in
  match o with Done r => (s, l, Done r) | Next x => f x s l end.

Definition respond {A} (r : Response) : H A := λ s l, (s, l, Done r).

(** [if !ok { write...; return }] *)
Definition require (ok : bool) (r : Response) : H unit := if ok then mret tt else respond r.

Definition record (e : Effect) : H unit := λ s l, (s, mkLocal (Local_step l) (Local_calls l ++ [e]), Next tt).

Definition decodeJSON {A} (body : Decoded A) : H A :=
  match body with
  | BadJSON => respond (writeError 400 "invalid_json" "The request body is not valid JSON.")
  | TrailingJSON => respond (writeError 400 "invalid_json" "The request body must contain one JSON value.")
  | Body value => mret value
  end.

(** [if err != nil { writeDomainError(w, err); return }] *)
Definition orDomainError {A} (r : res A) : H A :=
  match r with Ok x => mret x | Err e => respond (writeDomainError e) end.

(** Every exit of [m] passes through [cleanup]. *)
Definition deferred {A} (cleanup : H unit) (m : H A) : H A :=
  λ s l, let '(s, l, o) := m s l in let '(s, l, _) := cleanup s l in (s, l, o).

Section handlers.
Context `{GoRuntime} (env : Env).

(** One critical section of the store. *)
Definition access {A} (f : Clock → Store → Store * A) : H A :=
  λ s l, let n := Local_step l in
  let before := Env_others env n s in
  let '(after, x) := f (Env_time env n) before in
  (after, mkLocal (S n) (Local_calls l ++ [Access before after]), Next x).

Definition look {A} (f : Store → A) : H A := access (λ _ s, (s, f s)).

(** Parts of the environment that leave the store alone. *)
Definition ask {A} (f : nat → A) : H A := λ s l, (s, tick l, Next (f (Local_step l))).

Definition timeNow : H Z := ask (λ n, Env_time env n 0).
Definition uuidNew : H UUID := ask (Env_newID env).
Definition randRead (size : nat) : H (option string) := ask (λ n, Env_random env n size).

Definition randInt (limit : Z) : H (option Z) := ask (λ n, Env_randInt env n limit).

Definition allow (key : string) (limit window : Z) : H (res bool) :=
  answer ← ask (λ n, Env_allow env n key limit window);
  _ ← record (Limited key limit window answer); mret answer.

Definition publish (recipients : list UUID) (event : HttpEvent) : H unit := record (Published recipients event).

(** [publishSessionRevocation]: local sockets first, then the fence of the bus. *)
Definition publishSessionRevocation (userID : UUID) (sessionID : option UUID) : H (option Error) :=
  _ ← record (RevokedLocally userID sessionID);
  err ← ask (λ n, Env_fence env n userID sessionID);
  _ ← record (Fenced userID sessionID err);
  mret err.

Definition releaseSessionFence : H unit := record FenceReleased.
End handlers.

(** ** The program logic *)

Definition replies {A} (m : H A) (Q : list Effect → Outcome A → Prop) : Prop :=
  emits (m : M Effect (Outcome A)) Q.

Section replies.
Context {A B : Type}.
Implicit Types (m : H A) (c : list Effect) (r : Response).

Lemma replies_weaken m (P Q : list Effect → Outcome A → Prop) :
  replies m P → (∀ c o, P c o → Q c o) → replies m Q.
Proof. apply emits_weaken. Qed.

Lemma replies_ret (x : A) (Q : list Effect → Outcome A → Prop) : Q [] (Next x) → replies (mret x) Q.
Proof. intros HQ s l s' l' o [= <- <- <-]. exists []. by rewrite app_nil_r. Qed.

Lemma replies_respond r (Q : list Effect → Outcome A → Prop) : Q [] (Done r) → replies (respond r) Q.
Proof. intros HQ s l s' l' o [= <- <- <-]. exists []. by rewrite app_nil_r. Qed.

Lemma replies_bind m (f : A → H B) P (Q : list Effect → Outcome B → Prop) :
  replies m P → (∀ c r, P c (Done r) → Q c (Done r)) →
  (∀ c x, P c (Next x) → replies (f x) (λ c' o, Q (c ++ c') o)) → replies (m ≫= f) Q.
Proof.
  intros Hm Hd Hf s l s' l' o. unfold mbind, H_bind. destruct (m s l) as [[s1 l1] o1] eqn:Hr.
  destruct (Hm _ _ _ _ _ Hr) as (c & Hc & HP). destruct o1 as [r|x].
  - intros [= <- <- <-]. eauto.
  - intros Ho. destruct (Hf c x HP _ _ _ _ _ Ho) as (c' & Hc' & HQ). exists (c ++ c').
    split; [|done]. by rewrite Hc', Hc, app_assoc.
Qed.

Lemma replies_ret_bind (x : A) (f : A → H B) Q : replies (f x) Q → replies (mret x ≫= f) Q.
Proof. done. Qed.

Lemma replies_respond_bind r (f : A → H B) (Q : list Effect → Outcome B → Prop) :
  Q [] (Done r) → replies (respond r ≫= f) Q.
Proof. intros HQ s l s' l' o [= <- <- <-]. exists []. by rewrite app_nil_r. Qed.

Lemma replies_assoc {C} (m : H A) (f : A → H B) (g : B → H C) Q :
  replies (m ≫= λ x, f x ≫= g) Q → replies ((m ≫= f) ≫= g) Q.
Proof.
  intros Hm s l s' l' o Ho. apply (Hm s l s' l' o). revert Ho. unfold mbind, H_bind.
  destruct (m s l) as [[s1 l1] [r|x]]; done.
Qed.

Lemma replies_record_bind e (f : unit → H A) (Q : list Effect → Outcome A → Prop) :
  replies (f tt) (λ c o, Q (e :: c) o) → replies (record e ≫= f) Q.
Proof.
  intros Hf s l s' l' o Ho. unfold mbind, H_bind, record in Ho.
  destruct (Hf _ _ _ _ _ Ho) as (c & Hc & HQ). exists (e :: c). split; [|done].
  rewrite Hc. simpl. by rewrite <- app_assoc.
Qed.

Lemma replies_deferred e m (Q : list Effect → Outcome A → Prop) :
  replies m (λ c o, Q (c ++ [e]) o) → replies (deferred (record e) m) Q.
Proof.
  intros Hm s l s' l' o. unfold deferred. destruct (m s l) as [[s1 l1] o1] eqn:Hr.
  destruct (Hm _ _ _ _ _ Hr) as (c & Hc & HQ). unfold record. intros [= <- <- <-].
  exists (c ++ [e]). split; [|done]. simpl. by rewrite Hc, app_assoc.
Qed.
End replies.

Section primitives.
Context `{GoRuntime} (env : Env) {A B : Type}.
Implicit Types (Q : list Effect → Outcome B → Prop).

Lemma replies_access_bind (f : Clock → Store → Store * A) (k : A → H B) Q :
  (∀ n s s' x, f (Env_time env n) s = (s', x) → replies (k x) (λ c o, Q (Access s s' :: c) o)) →
  replies (access env f ≫= k) Q.
Proof.
  intros Hk s l s' l' o. unfold mbind, H_bind, access.
  destruct (f _ _) as [s1 x] eqn:Hf. intros Ho.
  destruct (Hk _ _ _ _ Hf _ _ _ _ _ Ho) as (c & Hc & HQ). eexists (_ :: c). split; [|exact HQ].
  rewrite Hc. simpl. by rewrite <- app_assoc.
Qed.

Lemma replies_look_bind (f : Store → A) (k : A → H B) Q :
  (∀ s, replies (k (f s)) (λ c o, Q (Access s s :: c) o)) → replies (look env f ≫= k) Q.
Proof. intros Hk. apply replies_access_bind. intros n s s' x [= <- <-]. apply Hk. Qed.

Lemma replies_ask_bind (f : nat → A) (k : A → H B) Q :
  (∀ n, replies (k (f n)) Q) → replies (ask f ≫= k) Q.
Proof.
  intros Hk s l s' l' o Ho. unfold mbind, H_bind, ask in Ho.
  destruct (Hk _ _ _ _ _ _ Ho) as (c & Hc & HQ). by exists c.
Qed.

Lemma replies_orDomainError_bind (r : res A) (k : A → H B) Q :
  (∀ e, r = Err e → Q [] (Done (writeDomainError e))) → (∀ x, r = Ok x → replies (k x) Q) →
  replies (orDomainError r ≫= k) Q.
Proof. intros He Hk. destruct r as [x|e]; [by apply Hk|]. apply replies_respond_bind. by apply He. Qed.

Lemma replies_require_bind (ok : bool) r (k : unit → H B) Q :
  (ok = false → Q [] (Done r)) → (ok = true → replies (k tt) Q) →
  replies (require ok r ≫= k) Q.
Proof. intros He Hk. destruct ok; [by apply Hk|]. apply replies_respond_bind. by apply He. Qed.

Lemma replies_decode_bind (body : Decoded A) (k : A → H B) Q :
  (∀ message, Q [] (Done (writeError 400 "invalid_json" message))) →
  (∀ x, body = Body x → replies (k x) Q) → replies (decodeJSON body ≫= k) Q.
Proof. intros He Hk. destruct body; [apply replies_respond_bind, He..|by apply Hk]. Qed.
End primitives.

(** One step through a handler; a side goal for each of its early exits, in the order of the
    code, before the rest. *)
Ltac handler_step :=
  lazymatch goal with
  | |- replies (respond _) _ => apply replies_respond
  | |- replies (mret _) _ => apply replies_ret
  | |- replies ((_ ≫= _) ≫= _) _ => apply replies_assoc
  | |- replies (mret _ ≫= _) _ => apply replies_ret_bind
  | |- replies (respond _ ≫= _) _ => apply replies_respond_bind
  | |- replies (decodeJSON _ ≫= _) _ => apply replies_decode_bind; [intros ?|intros ? ->]
  | |- replies (require _ _ ≫= _) _ => apply replies_require_bind; intros ?
  | |- replies (orDomainError _ ≫= _) _ => apply replies_orDomainError_bind; intros ? ?
  | |- replies (record _ ≫= _) _ => apply replies_record_bind
  | |- replies (publish _ _ ≫= _) _ => apply replies_record_bind
  | |- replies (ask _ ≫= _) _ => apply replies_ask_bind; intros ?
  | |- replies (timeNow _ ≫= _) _ => apply replies_ask_bind; intros ?
  | |- replies (uuidNew _ ≫= _) _ => apply replies_ask_bind; intros ?
  | |- replies (randRead _ _ ≫= _) _ => apply replies_ask_bind; intros ?
  | |- replies (randInt _ _ ≫= _) _ => apply replies_ask_bind; intros ?
  | |- replies (look _ _ ≫= _) _ => apply replies_look_bind; intros ?
  | |- replies (access _ _ ≫= _) _ => apply replies_access_bind; intros ? ? ? ? ?
  end.

(** ** What an answer of a given status says *)

(** The handler answers, and if with this status then [P] holds of its record and its answer. *)
Definition on_status (status : Z) (P : list Effect → Response → Prop) (c : list Effect)
    (o : Outcome unit) : Prop :=
  ∃ r, o = Done r ∧ (Response_Status r = status → P c r).

Lemma on_status_other status P c r : Response_Status r ≠ status → on_status status P c (Done r).
Proof. intros Hr. by exists r. Qed.

Lemma on_status_done status (P : list Effect → Response → Prop) c r : P c r → on_status status P c (Done r).
Proof. intros Hr. by exists r. Qed.

Lemma domain_error_status e : (400 ≤ Response_Status (writeDomainError e))%Z.
Proof. by destruct e. Qed.

Lemma on_status_domain_error status P c e :
  (status < 400)%Z → on_status status P c (Done (writeDomainError e)).
Proof. intros Hs. apply on_status_other. pose proof (domain_error_status e). lia. Qed.

(** The exits of a handler with another status. *)
Ltac refused := first [by apply on_status_domain_error | by apply on_status_other].

(** Through a handler to its exits: [unfold] its parts first. *)
Ltac handler_run :=
  repeat first
    [ handler_step
    | match goal with
      | |- replies (match ?x with _ => _ end) _ => destruct x eqn:?
      | |- replies (match ?x with _ => _ end ≫= _) _ => destruct x eqn:?
      end ].
