(* ===== verification/SessionCache.v ===== *)
(** * Revoked sessions and open sockets

    [src/internal/httpapi/session_events.go]: the cache of revoked sessions of one process, and
    the guards through which the connections of [/v1/realtime] write.

    The goroutines of the connections share the cache and the guards, so the model is a
    transition system like that of [Bus].  A critical section of the cache is one step.  An
    action that [WhileActive] runs holds the mutex of its guard and may take any time: a thread
    that is inside one is [Acting], and who wants the mutex meanwhile is not enabled.
    [Revoke] of the cache collects guards under the lock of the cache and revokes them one by
    one after it; [Register] revokes the guard it is about to return.

    The clock is read before the lock is taken, so readings need not be in the order of
    the critical sections; a reading is an argument of the step. *)

From Stdlib Require Import ZArith Lia.
From S2P Require Import Prelude.
From S2P Require Import Runtime.
From S2P Require Import Http.

Definition guardPointer : Type := nat.

Record sessionRevocationKey := mksessionRevocationKey { key_userID : UUID; key_sessionID : UUID }.
#[export] Instance sessionRevocationKey_eq_dec : EqDecision sessionRevocationKey.
Proof. solve_decision. Defined.
#[export] Instance sessionRevocationKey_countable : Countable sessionRevocationKey.
Proof.
  refine (inj_countable' (λ k, (key_userID k, key_sessionID k))
            (λ p, mksessionRevocationKey p.1 p.2) _). by intros [].
Defined.

(** [guard_revokedCh]: whether the channel has been closed; [guard_leased]: whether a
    validator is set. *)
Record realtimeSessionGuard := mkrealtimeSessionGuard {
  guard_identity : Identity; guard_revoked : bool; guard_revokedCh : bool; guard_leased : bool }.

Definition newRealtimeSessionGuard (id : Identity) : realtimeSessionGuard :=
  mkrealtimeSessionGuard id false false false.

Record sessionRevocationCache := mksessionRevocationCache {
  cache_capacity : Z; cache_retention : Z;
  cache_records : gmap sessionRevocationKey Z;
  cache_guardsByUser : gmap UUID (gmap guardPointer unit);
  cache_failClosedUntil : Z }.

Definition sessionRevocationCacheRetention : Z := 30 * Second.
Definition sessionRevocationCacheCapacity : Z := 65536.

Definition newSessionRevocationCache (capacity retention : Z) : sessionRevocationCache :=
  mksessionRevocationCache (if (capacity <? 1)%Z then 1 else capacity)
    (if (retention <=? 0)%Z then sessionRevocationCacheRetention else retention) ∅ ∅ 0.

(** Where a thread is inside a call. *)
Inductive SocketPC :=
  (** after the lock of the cache (or at the start of [Revoke] of one guard): guards to revoke *)
  | Revoking (rest : list guardPointer)
  (** [Register] after its lock: the guard to revoke before it is returned *)
  | Denying (g : guardPointer)
  (** holds the mutex of the guard and runs the action *)
  | Acting (g : guardPointer).
#[export] Instance SocketPC_eq_dec : EqDecision SocketPC.
Proof. solve_decision. Defined.

(** [Sockets_panicked]: a closed channel has been closed again. *)
Record Sockets := mkSockets {
  Sockets_cache : sessionRevocationCache;
  Sockets_guards : gmap guardPointer realtimeSessionGuard;
  Sockets_threads : gmap nat SocketPC;
  Sockets_panicked : bool }.

Definition eta_Sockets (w : Sockets) : Sockets :=
  mkSockets (Sockets_cache w) (Sockets_guards w) (Sockets_threads w) (Sockets_panicked w).
#[export] Instance set_Sockets_cache : Setter Sockets_cache :=
  ltac:(field_setter eta_Sockets Sockets_cache).
#[export] Instance set_Sockets_guards : Setter Sockets_guards :=
  ltac:(field_setter eta_Sockets Sockets_guards).
#[export] Instance set_Sockets_threads : Setter Sockets_threads :=
  ltac:(field_setter eta_Sockets Sockets_threads).
#[export] Instance set_Sockets_panicked : Setter Sockets_panicked :=
  ltac:(field_setter eta_Sockets Sockets_panicked).

Definition newSockets (capacity retention : Z) : Sockets :=
  mkSockets (newSessionRevocationCache capacity retention) ∅ ∅ false.

Section sockets.
Context `{GoRuntime}.
Implicit Types (w : Sockets) (c : sessionRevocationCache) (g : guardPointer) (t : nat) (u s : UUID).

(** ** The critical sections of the cache *)

Definition recordActiveLocked c (key : sessionRevocationKey) (now : Z) : bool :=
  match cache_records c !! key with Some expiresAt => After expiresAt now | None => false end.

Definition failsClosed c (now : Z) : bool := After (cache_failClosedUntil c) now.

Definition pruneLocked c (now : Z) : sessionRevocationCache :=
  mksessionRevocationCache (cache_capacity c) (cache_retention c)
    (filter (λ row, After row.2 now = true) (cache_records c)) (cache_guardsByUser c)
    (if failsClosed c now then cache_failClosedUntil c else 0%Z).

Definition putGuards c u (guards : gmap guardPointer unit) : sessionRevocationCache :=
  mksessionRevocationCache (cache_capacity c) (cache_retention c) (cache_records c)
    (<[u := guards]> (cache_guardsByUser c)) (cache_failClosedUntil c).

(** The locked part of [Register] and whether it denies. *)
Definition registerLocked c g (id : Identity) (now : Z) : sessionRevocationCache * bool :=
  let c := pruneLocked c now in
  let denied := failsClosed c now ||
    recordActiveLocked c (mksessionRevocationKey (Identity_UserID id) (Identity_SessionID id)) now in
  (putGuards c (Identity_UserID id) (<[g := tt]> (nested (cache_guardsByUser c) (Identity_UserID id))),
   denied).

Definition unregisterLocked c u g : sessionRevocationCache :=
  let guards := delete g (nested (cache_guardsByUser c) u) in
  if bool_decide (guards = ∅)
  then mksessionRevocationCache (cache_capacity c) (cache_retention c) (cache_records c)
         (delete u (cache_guardsByUser c)) (cache_failClosedUntil c)
  else putGuards c u guards.

(** The sessions of the guards, each once. *)
Fixpoint openSessions (sessionOf : guardPointer → UUID) (guards : list guardPointer)
    (seenSessions : gset UUID) : list UUID :=
  match guards with
  | [] => []
  | g :: guards =>
    if decide (sessionOf g ∈ seenSessions) then openSessions sessionOf guards seenSessions
    else sessionOf g :: openSessions sessionOf guards ({[sessionOf g]} ∪ seenSessions)
  end.

(** The loop over the keys; the flag tells that the capacity stopped it. *)
Fixpoint recordKeys (capacity expiresAt : Z) (keys : list sessionRevocationKey)
    (records : gmap sessionRevocationKey Z) : gmap sessionRevocationKey Z * bool :=
  match keys with
  | [] => (records, false)
  | key :: keys =>
    if bool_decide (records !! key = None) && (capacity <=? Z.of_nat (size records))%Z
    then (records, true)
    else recordKeys capacity expiresAt keys (<[key := expiresAt]> records)
  end.

(** [sessionID == nil || guard.identity.SessionID == *sessionID] *)
Definition concerns (sessionID : option UUID) s : bool :=
  match sessionID with None => true | Some x => bool_decide (s = x) end.

(** The locked part of [Revoke]: the cache after it and the guards it will revoke. *)
Definition revokeLocked c (sessionOf : guardPointer → UUID) u (sessionID : option UUID) (now : Z)
    : sessionRevocationCache * list guardPointer :=
  let c := pruneLocked c now in
  let userGuards := (range (nested (cache_guardsByUser c) u)).*1 in
  let keys := match sessionID with
              | Some s => [mksessionRevocationKey u s]
              | None => map (mksessionRevocationKey u) (openSessions sessionOf userGuards ∅)
              end in
  let expiresAt := (now + cache_retention c)%Z in
  let '(records, failClosed) := recordKeys (cache_capacity c) expiresAt keys (cache_records c) in
  (mksessionRevocationCache (cache_capacity c) (cache_retention c) records (cache_guardsByUser c)
     (if failClosed then expiresAt else cache_failClosedUntil c),
   if failClosed then range (cache_guardsByUser c) ≫= λ '(_, guards), (range guards).*1
   else List.filter (λ g, concerns sessionID (sessionOf g)) userGuards).

(** ** Guards *)

Definition sessionOf w g : UUID :=
  match Sockets_guards w !! g with
  | Some guard => Identity_SessionID (guard_identity guard)
  | None => uuid_Nil
  end.

(** Nobody is inside an action of the guard. *)
Definition mayLockGuard w g : bool :=
  bool_decide (map_Forall (λ _ pc, pc ≠ Acting g) (Sockets_threads w)).

(** [Register] has returned the guard: before, nobody else has its address. *)
Definition handedOut w g : bool :=
  bool_decide (map_Forall (λ _ pc, pc ≠ Denying g) (Sockets_threads w)).

Definition putGuard w g (guard : realtimeSessionGuard) : Sockets :=
  w <| Sockets_guards := <[g := guard]> (Sockets_guards w) |>.

(** [if !g.revoked { g.revoked = true; close(g.revokedCh) }] *)
Definition revokeGuard w g : Sockets :=
  match Sockets_guards w !! g with
  | Some guard =>
    if guard_revoked guard then w
    else let w := if guard_revokedCh guard then w <| Sockets_panicked := true |> else w in
         putGuard w g (mkrealtimeSessionGuard (guard_identity guard) true true (guard_leased guard))
  | None => w
  end.

(** ** Steps *)

Inductive SocketLabel :=
  | Register (g : guardPointer) (id : Identity) (now : Z)
  | Unregister (g : guardPointer)
  | Revoke (userID : UUID) (sessionID : option UUID) (now : Z)
  | RevokeGuard (g : guardPointer)
  (** [leaseValid] is what the validator answers, if one is set *)
  | WhileActive (g : guardPointer) (leaseValid : bool)
  | SetLeaseValidator (g : guardPointer)
  (** the next action of a call in progress *)
  | Proceed.

Definition socketGoto w t (pc : SocketPC) : Sockets :=
  w <| Sockets_threads := <[t := pc]> (Sockets_threads w) |>.
Definition socketLeave w t : Sockets := w <| Sockets_threads := delete t (Sockets_threads w) |>.

Definition socketEnter w t (label : SocketLabel) : option Sockets :=
  match label with
  | Register g id now =>
    if bool_decide (Sockets_guards w !! g = None)
    then let '(c, denied) := registerLocked (Sockets_cache w) g id now in
         let w := (putGuard w g (newRealtimeSessionGuard id)) <| Sockets_cache := c |> in
         Some (if denied then socketGoto w t (Denying g) else w)
    else None
  | Unregister g =>
    match Sockets_guards w !! g with
    | Some guard =>
      if handedOut w g
      then Some (w <| Sockets_cache := unregisterLocked (Sockets_cache w)
                                         (Identity_UserID (guard_identity guard)) g |>)
      else None
    | None => None
    end
  | Revoke userID sessionID now =>
    let '(c, guards) := revokeLocked (Sockets_cache w) (sessionOf w) userID sessionID now in
    Some (socketGoto (w <| Sockets_cache := c |>) t (Revoking guards))
  | RevokeGuard g => if handedOut w g then Some (socketGoto w t (Revoking [g])) else None
  | WhileActive g leaseValid =>
    match Sockets_guards w !! g with
    | Some guard =>
      if handedOut w g && mayLockGuard w g
      then if guard_revoked guard || (guard_leased guard && negb leaseValid)
           then Some (revokeGuard w g)
           else Some (socketGoto w t (Acting g))
      else None
    | None => None
    end
  | SetLeaseValidator g =>
    match Sockets_guards w !! g with
    | Some guard =>
      if handedOut w g && mayLockGuard w g
      then Some (putGuard w g (mkrealtimeSessionGuard (guard_identity guard) (guard_revoked guard)
                                 (guard_revokedCh guard) true))
      else None
    | None => None
    end
  | Proceed => None
  end.

Definition socketProceed w t (pc : SocketPC) : option Sockets :=
  match pc with
  | Revoking [] => Some (socketLeave w t)
  | Revoking (g :: rest) =>
    if mayLockGuard w g then Some (socketGoto (revokeGuard w g) t (Revoking rest)) else None
  | Denying g => if mayLockGuard w g then Some (socketLeave (revokeGuard w g) t) else None
  | Acting _ => Some (socketLeave w t)
  end.

Definition socketStep w t (label : SocketLabel) : option Sockets :=
  match Sockets_threads w !! t, label with
  | Some pc, Proceed => socketProceed w t pc
  | Some _, _ => None
  | None, _ => socketEnter w t label
  end.

Fixpoint socketRun w (trace : list (nat * SocketLabel)) : option Sockets :=
  match trace with
  | [] => Some w
  | (t, label) :: trace => socketStep w t label ≫= λ w, socketRun w trace
  end.

(** [applySessionRevocation]: what a control event asks for; [payload] is the decoded
    [session_id] and [all], if the payload decodes. *)
Definition applySessionRevocation (userID : UUID) (payload : option (option UUID * bool)) (now : Z)
    : SocketLabel :=
  match payload with
  | Some (sessionID, all) =>
    if (all && bool_decide (is_Some sessionID)) ||
       (negb all && bool_decide (sessionID = None ∨ sessionID = Some uuid_Nil))
    then Revoke userID None now
    else Revoke userID sessionID now
  | None => Revoke userID None now
  end.

(** The clock a step reads. *)
Definition reading (label : SocketLabel) : option Z :=
  match label with Register _ _ now | Revoke _ _ now => Some now | _ => None end.

(** ** Lemmas on the critical sections *)

Definition registered c u g : Prop := nested (cache_guardsByUser c) u !! g = Some tt.

Lemma recordKeys_spec capacity expiresAt keys records records' full :
  recordKeys capacity expiresAt keys records = (records', full) →
  (∀ key e, records !! key = Some e → records' !! key = Some e ∨ records' !! key = Some expiresAt) ∧
  (full = false → ∀ key, key ∈ keys → records' !! key = Some expiresAt) ∧
  (Z.of_nat (size records) ≤ capacity → Z.of_nat (size records') ≤ capacity)%Z.
Proof.
  revert records. induction keys as [|key keys IH]; intros records; cbn [recordKeys].
  { intros [= <- <-]. split_and!; [by left|by intros _ k ?%not_elem_of_nil|done]. }
  destruct (bool_decide _ && _) eqn:Hfull; [intros [= <- <-]; split_and!; [by left|done|done]|].
  intros (Hold & Hnew & Hsize)%IH.
  assert (∀ k, <[key:=expiresAt]> records !! k = Some expiresAt → records' !! k = Some expiresAt) as Hk.
  { intros k Hk. by destruct (Hold _ _ Hk). }
  split_and!.
  - intros k e He. destruct (decide (key = k)) as [->|Hne]; [right; apply Hk, lookup_insert_eq|].
    apply Hold. by rewrite lookup_insert_ne.
  - intros Hf k [->|Hin]%elem_of_cons; [apply Hk, lookup_insert_eq|by apply Hnew].
  - intros Hle. apply Hsize. destruct (records !! key) eqn:Hr.
    + by rewrite map_size_insert_Some.
    + rewrite map_size_insert_None by done. rewrite bool_decide_eq_true_2 in Hfull by done.
      cbn in Hfull. bool_prop. lia.
Qed.

Lemma pruned_record c now key e :
  cache_records c !! key = Some e → (now < e)%Z → cache_records (pruneLocked c now) !! key = Some e.
Proof. intros He Hlt. apply map_lookup_filter_Some. split; [done|]. by apply After_spec. Qed.

Lemma pruned_size c now : (size (cache_records (pruneLocked c now)) ≤ size (cache_records c))%nat.
Proof. apply map_size_filter. Qed.

Lemma openSessions_spec f guards seen s :
  (s ∈ openSessions f guards seen) ↔ (s ∉ seen) ∧ ∃ g, g ∈ guards ∧ f g = s.
Proof.
  revert seen. induction guards as [|g guards IH]; intros seen; cbn [openSessions].
  { split; [by intros ?%not_elem_of_nil|]. by intros (_ & g & ?%not_elem_of_nil & _). }
  destruct (decide (f g ∈ seen)) as [Hin|Hout].
  - rewrite IH. set_solver.
  - rewrite elem_of_cons, IH. destruct (decide (s = f g)) as [->|Hne]; set_solver.
Qed.

Lemma elem_of_keys {V} (m : gmap guardPointer V) g : g ∈ (range m).*1 ↔ is_Some (m !! g).
Proof.
  rewrite list_elem_of_fmap. split.
  - intros ([g' v] & -> & Hin%elem_of_range). by eexists.
  - intros [v Hv]. exists (g, v). split; [done|]. by apply elem_of_range.
Qed.

Lemma elem_of_registered c u g : g ∈ (range (nested (cache_guardsByUser c) u)).*1 ↔ registered c u g.
Proof. rewrite elem_of_keys. unfold registered. split; [by intros [[] ?]|by eexists]. Qed.

(** The sessions [Revoke] of the cache is about. *)
Definition aimed c (f : guardPointer → UUID) u (sessionID : option UUID) s : Prop :=
  match sessionID with
  | Some x => s = x
  | None => ∃ g, registered c u g ∧ f g = s
  end.

Lemma revokeLocked_spec c f u sessionID now c' guards :
  revokeLocked c f u sessionID now = (c', guards) →
  cache_capacity c' = cache_capacity c ∧ cache_retention c' = cache_retention c ∧
  cache_guardsByUser c' = cache_guardsByUser c ∧
  (Z.of_nat (size (cache_records c)) ≤ cache_capacity c →
   Z.of_nat (size (cache_records c')) ≤ cache_capacity c)%Z ∧
  (∀ key e, cache_records c !! key = Some e → (now < e)%Z →
     cache_records c' !! key = Some e ∨ cache_records c' !! key = Some (now + cache_retention c)%Z) ∧
  ((now < cache_failClosedUntil c)%Z →
     cache_failClosedUntil c' = cache_failClosedUntil c ∨
     cache_failClosedUntil c' = (now + cache_retention c)%Z) ∧
  (∀ s, aimed c f u sessionID s →
     (cache_records c' !! mksessionRevocationKey u s = Some (now + cache_retention c)%Z ∨
      cache_failClosedUntil c' = (now + cache_retention c)%Z) ∧
     ∀ g, registered c u g → f g = s → g ∈ guards).
Proof.
  unfold revokeLocked. cbv zeta.
  change (cache_guardsByUser (pruneLocked c now)) with (cache_guardsByUser c).
  change (cache_retention (pruneLocked c now)) with (cache_retention c).
  change (cache_capacity (pruneLocked c now)) with (cache_capacity c).
  destruct (recordKeys _ _ _ _) as [records full] eqn:Hk.
  apply recordKeys_spec in Hk as (Hold & Hnew & Hsize). intros [= <- <-].
  cbn [cache_capacity cache_retention cache_records cache_guardsByUser cache_failClosedUntil].
  split_and!; [done..| | | |].
  - intros Hle. apply Hsize. pose proof (pruned_size c now). lia.
  - intros key e He Hlt. by apply Hold, pruned_record.
  - intros Hlt. destruct full; [by right|left]. unfold pruneLocked, failsClosed. cbn.
    by rewrite (proj2 (After_spec _ _)).
  - intros s Hs. split.
    + destruct full; [by right|left]. apply Hnew; [done|]. destruct sessionID as [x|]; cbn in Hs.
      * subst. by apply list_elem_of_singleton.
      * apply list_elem_of_fmap. exists s. split; [done|]. apply openSessions_spec.
        split; [set_solver|]. setoid_rewrite elem_of_registered. done.
    + intros g Hg Hf. destruct full.
      * apply list_elem_of_bind. exists (u, nested (cache_guardsByUser c) u). split.
        -- by apply elem_of_keys; eexists.
        -- apply elem_of_range. unfold registered, nested in *.
           destruct (cache_guardsByUser c !! u); [done|]. cbn in Hg. by rewrite lookup_empty in Hg.
      * apply elem_of_bool_filter. split; [by apply elem_of_registered|].
        destruct sessionID as [x|]; cbn in *; [|done]. apply bool_decide_eq_true. congruence.
Qed.

(** ** Invariants *)

Record sockets_inv w : Prop := {
  inv_guards u g : registered (Sockets_cache w) u g →
    ∃ x, Sockets_guards w !! g = Some x ∧ Identity_UserID (guard_identity x) = u;
  inv_channel g x : Sockets_guards w !! g = Some x → guard_revokedCh x = guard_revoked x;
  inv_acting t g : Sockets_threads w !! t = Some (Acting g) →
    ∃ x, Sockets_guards w !! g = Some x ∧ guard_revoked x = false;
  inv_alone t t' g : Sockets_threads w !! t = Some (Acting g) →
    Sockets_threads w !! t' = Some (Acting g) → t' = t;
  inv_denying t g : Sockets_threads w !! t = Some (Denying g) → is_Some (Sockets_guards w !! g);
  inv_handed t t' g : Sockets_threads w !! t = Some (Acting g) →
    Sockets_threads w !! t' ≠ Some (Denying g);
  inv_records : (Z.of_nat (size (cache_records (Sockets_cache w))) ≤ cache_capacity (Sockets_cache w))%Z;
  inv_unpanicked : Sockets_panicked w = false }.

Lemma mayLockGuard_spec w t g :
  mayLockGuard w g = true → Sockets_threads w !! t ≠ Some (Acting g).
Proof. unfold mayLockGuard. intros Hm%bool_decide_eq_true Ht. by apply (Hm _ _ Ht). Qed.

Lemma handedOut_spec w t g : handedOut w g = true → Sockets_threads w !! t ≠ Some (Denying g).
Proof. unfold handedOut. intros Hm%bool_decide_eq_true Ht. by apply (Hm _ _ Ht). Qed.

Lemma newSockets_inv capacity retention : sockets_inv (newSockets capacity retention).
Proof.
  split; cbn; intros *; rewrite ?lookup_empty; try done.
  - rewrite map_size_empty. destruct (Z.ltb_spec capacity 1); lia.
Qed.

(** Changes of the cache that register nobody new. *)
Lemma inv_cache w c' :
  sockets_inv w → (∀ u g, registered c' u g → registered (Sockets_cache w) u g) →
  (Z.of_nat (size (cache_records c')) ≤ cache_capacity c')%Z →
  sockets_inv (w <| Sockets_cache := c' |>).
Proof. intros [] Hr Hs. split; cbn; eauto. Qed.

(** A thread that stops acting, or goes on revoking. *)
Lemma inv_thread w w' t :
  sockets_inv w → Sockets_cache w' = Sockets_cache w → Sockets_guards w' = Sockets_guards w →
  Sockets_panicked w' = Sockets_panicked w →
  (∀ t', t' ≠ t → Sockets_threads w' !! t' = Sockets_threads w !! t') →
  (Sockets_threads w' !! t = None ∨ ∃ rest, Sockets_threads w' !! t = Some (Revoking rest)) →
  sockets_inv w'.
Proof.
  intros [? ? Ha Hal Hd Hh ? ?] Hc Hg Hp Ht Hl.
  assert (∀ t' pc, Sockets_threads w' !! t' = Some pc → (∀ rest, pc ≠ Revoking rest) →
            Sockets_threads w !! t' = Some pc) as Hthread.
  { intros t' pc Hpc Hr. destruct (decide (t' = t)) as [->|Hne]; [|by rewrite <- Ht].
    destruct Hl as [Hl|[rest Hl]]; rewrite Hl in Hpc; [done|]. simplify_eq. by destruct (Hr rest). }
  split; rewrite ?Hc, ?Hg, ?Hp; try done.
  - intros t' g H1%Hthread; [eauto|done].
  - intros t1 t2 g H1%Hthread H2%Hthread; [eauto|done..].
  - intros t' g H1%Hthread; [eauto|done].
  - intros t1 t2 g H1%Hthread; [|done]. intros H2%Hthread; [|done]. by destruct (Hh t1 t2 g).
Qed.

(** Changes of one guard nobody acts with. *)
Lemma inv_guard w g x x' :
  sockets_inv w → Sockets_guards w !! g = Some x → mayLockGuard w g = true →
  guard_identity x' = guard_identity x → guard_revokedCh x' = guard_revoked x' →
  sockets_inv (putGuard w g x').
Proof.
  intros [Hr Hch Ha Hal Hd Hh Hs Hp] Hx Hm Hid Hch'. split; cbn; try done.
  - intros u g' Hg. destruct (Hr u g' Hg) as (y & Hy & Hu). rewrite lookup_insert.
    destruct (decide (g = g')) as [->|Hne]; [|eauto]. simplify_eq. exists x'. by rewrite Hid.
  - intros g' y. rewrite lookup_insert. destruct (decide (g = g')) as [->|Hne]; [|eauto].
    by intros [= <-].
  - intros t g' Ht. rewrite lookup_insert. destruct (decide (g = g')) as [->|Hne]; [|eauto].
    by destruct (mayLockGuard_spec w t g' Hm).
  - intros t g' Ht. rewrite lookup_insert. destruct (decide (g = g')); eauto.
Qed.

Lemma inv_revokeGuard w g : sockets_inv w → mayLockGuard w g = true → sockets_inv (revokeGuard w g).
Proof.
  intros Hi Hm. unfold revokeGuard. destruct (Sockets_guards w !! g) as [x|] eqn:Hx; [|done].
  destruct (guard_revoked x) eqn:Hr; [done|]. rewrite (inv_channel w Hi g x Hx), Hr.
  by apply (inv_guard w g x).
Qed.

Lemma registered_put c u u' g' guards :
  registered (putGuards c u guards) u' g' ↔
  if decide (u = u') then guards !! g' = Some tt else registered c u' g'.
Proof. unfold registered, putGuards. cbn. rewrite nested_insert. by destruct (decide (u = u')). Qed.

Lemma registered_unregister c u g u' g' :
  registered (unregisterLocked c u g) u' g' → registered c u' g' ∧ ¬ (u' = u ∧ g' = g).
Proof.
  unfold unregisterLocked. destruct (bool_decide (delete g _ = ∅)) eqn:He.
  - unfold registered. cbn. rewrite nested_delete. destruct (decide (u = u')) as [->|Hne]; [done|].
    intros Hg. split; [done|]. naive_solver.
  - intros Hg%registered_put. destruct (decide (u = u')) as [->|Hne]; [|naive_solver].
    apply lookup_delete_Some in Hg as [Hne Hg]. split; [done|]. naive_solver.
Qed.

Lemma unregister_rest c u g :
  cache_capacity (unregisterLocked c u g) = cache_capacity c ∧
  cache_retention (unregisterLocked c u g) = cache_retention c ∧
  cache_records (unregisterLocked c u g) = cache_records c ∧
  cache_failClosedUntil (unregisterLocked c u g) = cache_failClosedUntil c.
Proof. unfold unregisterLocked. by destruct (bool_decide _). Qed.

(** A fresh guard, registered or denied. *)
Lemma inv_register w t g id now c' denied :
  sockets_inv w → Sockets_threads w !! t = None → Sockets_guards w !! g = None →
  registerLocked (Sockets_cache w) g id now = (c', denied) →
  let w' := (putGuard w g (newRealtimeSessionGuard id)) <| Sockets_cache := c' |> in
  sockets_inv (if denied then socketGoto w' t (Denying g) else w').
Proof.
  intros [Hr Hch Ha Hal Hd Hh Hs Hp] Ht Hg [= <- <-] w'.
  assert (sockets_inv w') as Hi.
  { split; cbn.
    - intros u g' Hreg%registered_put. rewrite lookup_insert.
      destruct (decide (Identity_UserID id = u)) as [Hu|Hu].
      + revert Hreg. rewrite lookup_insert. destruct (decide (g = g')) as [->|Hne].
        * intros _. by exists (newRealtimeSessionGuard id).
        * intros Hg'. apply Hr. unfold registered. by rewrite <- Hu.
      + destruct (Hr u g' Hreg) as (x & Hx & ?).
        destruct (decide (g = g')) as [->|]; [congruence|eauto].
    - intros g' x. rewrite lookup_insert. destruct (decide (g = g')); [|eauto]. by intros [= <-].
    - intros t' g' Ht'. destruct (Ha t' g' Ht') as (x & Hx & ?). rewrite lookup_insert.
      destruct (decide (g = g')) as [->|]; [congruence|eauto].
    - done.
    - intros t' g' Ht'. rewrite lookup_insert. destruct (decide (g = g')); eauto.
    - done.
    - pose proof (pruned_size (Sockets_cache w) now). unfold pruneLocked in *. cbn in *. lia.
    - done. }
  destruct (_ || _); [|done].
  assert (∀ t' pc, Sockets_threads (socketGoto w' t (Denying g)) !! t' = Some pc → pc ≠ Denying g →
            Sockets_threads w !! t' = Some pc) as Hthread.
  { intros t' pc. cbn. rewrite lookup_insert. destruct (decide (t = t')) as [->|]; [|done].
    by intros [= <-]. }
  assert (∀ t', Sockets_threads w !! t' ≠ Some (Acting g)) as Hidle.
  { intros t' Ht'. destruct (Ha t' g Ht') as (x & Hx & _). congruence. }
  destruct Hi as [Hr' Hch' Ha' Hal' Hd' Hh' Hs' Hp']. split; try done.
  - intros t' g' H1%Hthread; [|done]. by apply (Ha' t' g').
  - intros t1 t2 g' H1%Hthread H2%Hthread; [|done..]. eauto.
  - intros t' g' H1. destruct (decide (g' = g)) as [->|Hne].
    + cbn. rewrite lookup_insert_eq. by eexists.
    + apply Hthread in H1; [|congruence]. by apply (Hd' t' g').
  - intros t1 t2 g' H1%Hthread H2; [|done]. destruct (decide (g' = g)) as [->|Hne].
    + by apply (Hidle t1).
    + apply Hthread in H2; [|congruence]. by apply (Hh t1 t2 g').
Qed.

(** A guard that is entered: it was free and not revoked. *)
Lemma inv_act w t g x :
  sockets_inv w → Sockets_threads w !! t = None → Sockets_guards w !! g = Some x →
  guard_revoked x = false → handedOut w g = true → mayLockGuard w g = true →
  sockets_inv (socketGoto w t (Acting g)).
Proof.
  intros [Hr Hch Ha Hal Hd Hh Hs Hp] Ht Hx Hx' Ho Hm.
  pose proof (λ t', handedOut_spec w t' g Ho) as Ho'. pose proof (λ t', mayLockGuard_spec w t' g Hm) as Hm'.
  split; cbn; try done.
  - intros t' g'. rewrite lookup_insert. destruct (decide (t = t')); [|eauto]. intros [= <-]. eauto.
  - intros t1 t2 g'. rewrite !lookup_insert. repeat case_decide; naive_solver.
  - intros t' g'. rewrite lookup_insert. destruct (decide (t = t')); [done|eauto].
  - intros t1 t2 g'. rewrite !lookup_insert. repeat case_decide; naive_solver.
Qed.

Lemma inv_revoke w t u sessionID now c' guards :
  sockets_inv w →
  revokeLocked (Sockets_cache w) (sessionOf w) u sessionID now = (c', guards) →
  sockets_inv (socketGoto (w <| Sockets_cache := c' |>) t (Revoking guards)).
Proof.
  intros Hi (Hc & _ & Hb & Hs & _)%revokeLocked_spec.
  assert (sockets_inv (w <| Sockets_cache := c' |>)) as Hi'.
  { apply inv_cache; [done| |].
    - intros u' g. unfold registered. by rewrite Hb.
    - rewrite Hc. apply Hs, (inv_records w Hi). }
  apply (inv_thread _ _ t Hi'); try done; cbn.
  - intros t' Hne. by rewrite lookup_insert_ne.
  - rewrite lookup_insert_eq. eauto.
Qed.

Lemma inv_leave_socket w t : sockets_inv w → sockets_inv (socketLeave w t).
Proof.
  intros Hi. apply (inv_thread w _ t Hi); try done; cbn.
  - intros t' Hne. by rewrite lookup_delete_ne.
  - rewrite lookup_delete_eq. by left.
Qed.

Lemma inv_goto_revoking w t rest : sockets_inv w → sockets_inv (socketGoto w t (Revoking rest)).
Proof.
  intros Hi. apply (inv_thread w _ t Hi); try done; cbn.
  - intros t' Hne. by rewrite lookup_insert_ne.
  - rewrite lookup_insert_eq. eauto.
Qed.

Lemma socketStep_inv w t label w' : sockets_inv w → socketStep w t label = Some w' → sockets_inv w'.
Proof.
  intros Hi. unfold socketStep. destruct (Sockets_threads w !! t) as [pc|] eqn:Ht.
  { destruct label; try done. destruct pc as [[|g rest]|g|g]; cbn.
    - intros [= <-]. by apply inv_leave_socket.
    - destruct (mayLockGuard w g) eqn:Hm; [|done]. intros [= <-].
      by apply inv_goto_revoking, inv_revokeGuard.
    - destruct (mayLockGuard w g) eqn:Hm; [|done]. intros [= <-].
      by apply inv_leave_socket, inv_revokeGuard.
    - intros [= <-]. by apply inv_leave_socket. }
  destruct label as [g id now|g|u sessionID now|g|g valid|g|]; cbn [socketEnter]; [| | | | | |done].
  - case_bool_decide; [|done]. destruct (registerLocked _ _ _ _) as [c' denied] eqn:Hreg.
    intros [= <-]. by eapply (inv_register w t g id now).
  - destruct (Sockets_guards w !! g) as [x|]; [|done]. destruct (handedOut w g); [|done]. intros [= <-].
    destruct (unregister_rest (Sockets_cache w) (Identity_UserID (guard_identity x)) g) as (Hc & _ & Hr & _).
    apply inv_cache; [done| |].
    + intros u' g' Hg'. by apply registered_unregister in Hg' as [? _].
    + rewrite Hc, Hr. apply (inv_records w Hi).
  - destruct (revokeLocked _ _ _ _ _) as [c' guards] eqn:Hrev. intros [= <-]. by eapply inv_revoke.
  - destruct (handedOut w g); [|done]. intros [= <-]. by apply inv_goto_revoking.
  - destruct (Sockets_guards w !! g) as [x|] eqn:Hx; [|done].
    destruct (handedOut w g) eqn:Ho, (mayLockGuard w g) eqn:Hm; cbn; try done.
    destruct (guard_revoked x || _) eqn:Hr; intros [= <-]; [by apply inv_revokeGuard|].
    bool_prop. by apply (inv_act w t g x).
  - destruct (Sockets_guards w !! g) as [x|] eqn:Hx; [|done].
    destruct (handedOut w g) eqn:Ho, (mayLockGuard w g) eqn:Hm; cbn; try done.
    intros [= <-]. apply (inv_guard w g x); try done. cbn. apply (inv_channel w Hi g x Hx).
Qed.

(** Invariants of single steps whose labels satisfy a condition hold along runs. *)
Lemma socketRun_ind (P : Sockets → Prop) (L : SocketLabel → Prop) trace w w' :
  (∀ w t label w', P w → L label → socketStep w t label = Some w' → P w') →
  Forall (λ step, L step.2) trace → P w → socketRun w trace = Some w' → P w'.
Proof.
  intros Hstep. revert w. induction trace as [|[t label] trace IH]; intros w HL Hw; cbn.
  { by intros [= <-]. }
  apply Forall_cons in HL as [Hl HL]. destruct (socketStep w t label) as [w1|] eqn:Hs; [|done].
  cbn. apply IH; [done|]. by eapply Hstep.
Qed.

Definition socketsReachable w : Prop :=
  ∃ capacity retention trace, socketRun (newSockets capacity retention) trace = Some w.

Lemma socketsReachable_inv w : socketsReachable w → sockets_inv w.
Proof.
  intros (capacity & retention & trace & Hrun).
  apply (socketRun_ind sockets_inv (λ _, True) _ _ w) in Hrun; [done| | |apply newSockets_inv].
  - intros w1 t label w2 Hi _ Hs. by eapply socketStep_inv.
  - by apply Forall_true.
Qed.

(** ** A revocation reaches every socket

    [t] is the thread that revokes the session [s] of [u]; the fence stands until [until]. *)

Definition fenced c u s (until : Z) : Prop :=
  (∃ e, cache_records c !! mksessionRevocationKey u s = Some e ∧ (until ≤ e)%Z) ∨
  (until ≤ cache_failClosedUntil c)%Z.

Definition denied w g : Prop := ∃ t, Sockets_threads w !! t = Some (Denying g).
Definition beingRevoked w t g : Prop :=
  ∃ rest, Sockets_threads w !! t = Some (Revoking rest) ∧ g ∈ rest.

Record swept t u s (until : Z) w : Prop := {
  swept_fence : fenced (Sockets_cache w) u s until;
  swept_guards g x :
    registered (Sockets_cache w) u g → Sockets_guards w !! g = Some x →
    Identity_SessionID (guard_identity x) = s →
    guard_revoked x = true ∨ denied w g ∨ beingRevoked w t g }.

Lemma fenced_denies c u s until now :
  fenced c u s until → (now < until)%Z →
  failsClosed c now || recordActiveLocked c (mksessionRevocationKey u s) now = true.
Proof.
  intros [(e & He & Hle)|Hle] Hlt.
  - unfold recordActiveLocked. rewrite He, (proj2 (After_spec e now)) by lia. apply orb_true_r.
  - unfold failsClosed. by rewrite (proj2 (After_spec _ now)) by lia.
Qed.

Lemma fenced_pruned c u s until now :
  fenced c u s until → (now < until)%Z → fenced (pruneLocked c now) u s until.
Proof.
  intros [(e & He & Hle)|Hle] Hlt; [left|right].
  - exists e. split; [|done]. apply pruned_record; [done|lia].
  - unfold pruneLocked, failsClosed. cbn. by rewrite (proj2 (After_spec _ now)) by lia.
Qed.

Lemma fenced_revoked c f u s until u' sessionID now c' guards :
  fenced c u s until → (until - cache_retention c ≤ now < until)%Z →
  revokeLocked c f u' sessionID now = (c', guards) → fenced c' u s until.
Proof.
  intros Hf Hnow (_ & _ & _ & _ & Hr & Hc & _)%revokeLocked_spec.
  destruct Hf as [(e & He & Hle)|Hle].
  - left. destruct (Hr _ _ He) as [?|?]; [lia|eauto|]. eexists. split; [done|]. lia.
  - right. destruct Hc as [->| ->]; lia.
Qed.

(** What keeps a sweep: no guard of the session appears undenied, revoked guards stay
    revoked, and a guard leaves the lists of the threads only revoked. *)
Lemma swept_mono t u s until w w' :
  swept t u s until w → fenced (Sockets_cache w') u s until →
  (∀ g x', registered (Sockets_cache w') u g → Sockets_guards w' !! g = Some x' →
     Identity_SessionID (guard_identity x') = s → denied w' g ∨
     registered (Sockets_cache w) u g ∧
     ∃ x, Sockets_guards w !! g = Some x ∧ Identity_SessionID (guard_identity x) = s ∧
       (guard_revoked x = true → guard_revoked x' = true)) →
  (∀ g x', Sockets_guards w' !! g = Some x' → denied w g → guard_revoked x' = true ∨ denied w' g) →
  (∀ g x', Sockets_guards w' !! g = Some x' → beingRevoked w t g →
     guard_revoked x' = true ∨ beingRevoked w' t g) →
  swept t u s until w'.
Proof.
  intros [_ Hg] Hf Hold Hden Hrev. split; [done|]. intros g x' Hreg Hx' Hs.
  destruct (Hold g x' Hreg Hx' Hs) as [?|(Hreg0 & x & Hx & Hs0 & Hmono)]; [by right; left|].
  destruct (Hg g x Hreg0 Hx Hs0) as [?|[?|?]]; [by left; apply Hmono| |].
  - destruct (Hden g x' Hx'); eauto.
  - destruct (Hrev g x' Hx'); eauto.
Qed.

Lemma revokeGuard_spec w g g' x' :
  Sockets_guards (revokeGuard w g) !! g' = Some x' →
  (∃ x, Sockets_guards w !! g' = Some x ∧ guard_identity x' = guard_identity x ∧
     (guard_revoked x = true → guard_revoked x' = true)) ∧ (g' = g → guard_revoked x' = true).
Proof.
  unfold revokeGuard. destruct (Sockets_guards w !! g) as [x|] eqn:Hx.
  2: { intros Hg. split; [eauto|]. intros ->. congruence. }
  destruct (guard_revoked x) eqn:Hr.
  { intros Hg. split; [eauto|]. intros ->. congruence. }
  intros Hg. assert (<[g := mkrealtimeSessionGuard (guard_identity x) true true (guard_leased x)]>
                       (Sockets_guards w) !! g' = Some x') as Hins by by destruct (guard_revokedCh x).
  rewrite lookup_insert in Hins. destruct (decide (g = g')) as [<-|Hne].
  - injection Hins as <-. eauto.
  - split; [eauto|congruence].
Qed.

Lemma revokeGuard_rest w g :
  Sockets_cache (revokeGuard w g) = Sockets_cache w ∧
  Sockets_threads (revokeGuard w g) = Sockets_threads w.
Proof. unfold revokeGuard. repeat case_match; done. Qed.

(** A thread inside a call goes on. *)
Lemma swept_proceed t u s until w t1 pc w' :
  swept t u s until w → Sockets_threads w !! t1 = Some pc → socketProceed w t1 pc = Some w' →
  swept t u s until w'.
Proof.
  intros Hsw Ht1 Hstep.
  assert (∀ w0, Sockets_cache w' = Sockets_cache w0 → Sockets_guards w' = Sockets_guards w0 →
    (∀ g x', Sockets_guards w0 !! g = Some x' → ∃ x, Sockets_guards w !! g = Some x ∧
       guard_identity x' = guard_identity x ∧ (guard_revoked x = true → guard_revoked x' = true)) →
    Sockets_cache w0 = Sockets_cache w →
    (∀ t', t' ≠ t1 → Sockets_threads w' !! t' = Sockets_threads w !! t') →
    (∀ g x', Sockets_guards w0 !! g = Some x' → pc = Denying g → guard_revoked x' = true) →
    (∀ g x' rest, Sockets_guards w0 !! g = Some x' → pc = Revoking rest → g ∈ rest →
       guard_revoked x' = true ∨ beingRevoked w' t1 g) →
    swept t u s until w') as Hmono.
  { intros w0 Hc Hg Hg0 Hc0 Ht Hd Hr. apply (swept_mono t u s until w); [done| | | |]; rewrite ?Hc, ?Hg, ?Hc0.
    - apply Hsw.
    - intros g x' Hreg Hx' Hs. right. destruct (Hg0 g x' Hx') as (x & Hx & Hid & ?).
      split; [done|]. exists x. by rewrite <- Hid.
    - intros g x' Hx' [t' Ht']. destruct (decide (t' = t1)) as [->|Hne].
      + left. apply (Hd g); [done|congruence].
      + right. exists t'. by rewrite Ht.
    - intros g x' Hx' (rest & Hrest & Hin). destruct (decide (t = t1)) as [->|Hne].
      + apply (Hr g x' rest); [done|congruence|done].
      + right. exists rest. by rewrite Ht. }
  assert (∀ t', t' ≠ t1 → ∀ w0 pc', Sockets_threads w0 = Sockets_threads w →
            Sockets_threads (socketGoto w0 t1 pc') !! t' = Sockets_threads w !! t' ∧
            Sockets_threads (socketLeave w0 t1) !! t' = Sockets_threads w !! t') as Hother.
  { intros t' Hne w0 pc' Hw0. cbn. by rewrite lookup_insert_ne, lookup_delete_ne, Hw0. }
  assert (∀ g, Sockets_cache (revokeGuard w g) = Sockets_cache w ∧
               Sockets_threads (revokeGuard w g) = Sockets_threads w) as Hrest.
  { intros g. apply revokeGuard_rest. }
  destruct pc as [[|g rest]|g|g]; cbn in Hstep.
  - injection Hstep as <-. apply (Hmono w); try done; [eauto| |].
    + intros t' Hne. by apply (Hother t' Hne w (Acting 0)).
    + intros g x' r _ [= <-] ?%not_elem_of_nil. done.
  - destruct (mayLockGuard w g); [|done]. injection Hstep as <-. destruct (Hrest g) as [Hc Ht].
    apply (Hmono (revokeGuard w g)); try done.
    + intros g' x' Hx'. by apply revokeGuard_spec in Hx' as [? _].
    + intros t' Hne. by apply Hother.
    + intros g' x' r Hx' [= <-] [->|Hin]%elem_of_cons; [left; by apply revokeGuard_spec in Hx' as [_ ?]; eauto|].
      right. exists rest. split; [|done]. cbn. by rewrite lookup_insert_eq.
  - destruct (mayLockGuard w g); [|done]. injection Hstep as <-. destruct (Hrest g) as [Hc Ht].
    apply (Hmono (revokeGuard w g)); try done.
    + intros g' x' Hx'. by apply revokeGuard_spec in Hx' as [? _].
    + intros t' Hne. by apply (Hother t' Hne _ (Acting 0)).
    + intros g' x' Hx' [= <-]. apply revokeGuard_spec in Hx' as [_ Hr]. by apply Hr.
  - injection Hstep as <-. apply (Hmono w); try done; [eauto|].
    intros t' Hne. by apply (Hother t' Hne w (Acting 0)).
Qed.

(** A new guard of the session is denied. *)
Lemma swept_register t u s until w t1 g id now c' deny :
  sockets_inv w → swept t u s until w → Sockets_threads w !! t1 = None →
  Sockets_guards w !! g = None → (now < until)%Z →
  registerLocked (Sockets_cache w) g id now = (c', deny) →
  let w' := (putGuard w g (newRealtimeSessionGuard id)) <| Sockets_cache := c' |> in
  swept t u s until (if deny then socketGoto w' t1 (Denying g) else w').
Proof.
  intros Hi Hsw Ht1 Hg Hnow [= <- Hdeny] w'.
  assert (fenced (Sockets_cache w') u s until) as Hf.
  { apply (fenced_pruned _ _ _ _ now (swept_fence _ _ _ _ _ Hsw) Hnow). }
  assert (∀ t' pc, Sockets_threads w !! t' = Some pc →
            Sockets_threads (if deny then socketGoto w' t1 (Denying g) else w') !! t' = Some pc) as Hthreads.
  { intros t' pc Hpc. destruct deny; [|done]. cbn. rewrite lookup_insert_ne; [done|]. congruence. }
  assert (Sockets_cache (if deny then socketGoto w' t1 (Denying g) else w') = Sockets_cache w') as Hc
    by by destruct deny.
  assert (Sockets_guards (if deny then socketGoto w' t1 (Denying g) else w') = Sockets_guards w') as Hgs
    by by destruct deny.
  apply (swept_mono t u s until w); [done|by rewrite Hc| | |]; rewrite ?Hc, ?Hgs.
  - intros g' x' Hreg%registered_put. cbn. rewrite lookup_insert. destruct (decide (g = g')) as [<-|Hne].
    + intros [= <-] Hs. left. destruct (decide (Identity_UserID id = u)) as [Hu|Hu].
      * pose proof (fenced_denies _ _ _ _ now Hf Hnow) as Hd. cbn in Hs. subst.
        unfold w' in Hd. cbn in Hd. exists t1. unfold failsClosed, recordActiveLocked in *.
        cbn in *. rewrite Hd. cbn. by rewrite lookup_insert_eq.
      * destruct (inv_guards w Hi u g Hreg) as (x & Hx & _). congruence.
    + intros Hx' Hs. right. split; [|eauto]. destruct (decide (Identity_UserID id = u)) as [Hu|Hu]; [|done].
      rewrite lookup_insert_ne in Hreg by done. unfold registered. by rewrite <- Hu.
  - intros g' x' _ [t' Ht']. right. exists t'. by apply Hthreads.
  - intros g' x' _ (rest & Hrest & Hin). right. exists rest. split; [by apply Hthreads|done].
Qed.

(** A thread that was outside moves: the guards keep their identity and stay revoked. *)
Lemma swept_outside t u s until w w' t1 :
  swept t u s until w → Sockets_threads w !! t1 = None → fenced (Sockets_cache w') u s until →
  (∀ g, registered (Sockets_cache w') u g → registered (Sockets_cache w) u g) →
  (∀ g x', Sockets_guards w' !! g = Some x' → ∃ x, Sockets_guards w !! g = Some x ∧
     guard_identity x' = guard_identity x ∧ (guard_revoked x = true → guard_revoked x' = true)) →
  (∀ t', t' ≠ t1 → Sockets_threads w' !! t' = Sockets_threads w !! t') →
  swept t u s until w'.
Proof.
  intros Hsw Ht1 Hf Hr Hg Ht.
  assert (∀ t' pc, Sockets_threads w !! t' = Some pc → Sockets_threads w' !! t' = Some pc) as Hpc.
  { intros t' pc Hpc. rewrite Ht; [done|congruence]. }
  apply (swept_mono t u s until w); [done..| | |].
  - intros g x' Hreg Hx' Hs. right. destruct (Hg g x' Hx') as (x & Hx & Hid & ?).
    split; [eauto|]. exists x. by rewrite <- Hid.
  - intros g x' _ [t' Ht']. right. exists t'. eauto.
  - intros g x' _ (rest & Hrest & Hin). right. exists rest. eauto.
Qed.

Definition steady (retention until : Z) (label : SocketLabel) : Prop :=
  ∀ now, reading label = Some now → (until - retention ≤ now < until)%Z.

Lemma swept_step t u s until w t1 label w' :
  sockets_inv w → swept t u s until w → steady (cache_retention (Sockets_cache w)) until label →
  socketStep w t1 label = Some w' → swept t u s until w'.
Proof.
  intros Hi Hsw Hst. unfold socketStep. destruct (Sockets_threads w !! t1) as [pc|] eqn:Ht1.
  { destruct label; try done. intros Hstep. by eapply swept_proceed. }
  pose proof (swept_fence _ _ _ _ _ Hsw) as Hf.
  assert (∀ x g, Sockets_guards w !! g = Some x → ∃ x0, Sockets_guards w !! g = Some x0 ∧
            guard_identity x = guard_identity x0 ∧ (guard_revoked x0 = true → guard_revoked x = true)) as Hsame
    by eauto.
  destruct label as [g id now|g|u1 sessionID now|g|g valid|g|]; cbn [socketEnter]; [| | | | | |done].
  - case_bool_decide; [|done]. destruct (registerLocked _ _ _ _) as [c' deny] eqn:Hreg. intros [= <-].
    eapply (swept_register t u s until w t1 g id now); [done..|by apply (Hst now)|done].
  - destruct (Sockets_guards w !! g) as [x|]; [|done]. destruct (handedOut w g); [|done]. intros [= <-].
    destruct (unregister_rest (Sockets_cache w) (Identity_UserID (guard_identity x)) g) as (_ & _ & Hr & Hu).
    apply (swept_outside t u s until w _ t1); try done; [| |eauto].
    + unfold fenced. cbn. by rewrite Hr, Hu.
    + intros g' Hg'. by apply registered_unregister in Hg' as [? _].
  - destruct (revokeLocked _ _ _ _ _) as [c' guards] eqn:Hrev. intros [= <-].
    apply (swept_outside t u s until w _ t1); try done; [| |eauto|].
    + eapply fenced_revoked; [done|by apply (Hst now)|done].
    + apply revokeLocked_spec in Hrev as (_ & _ & Hb & _). intros g. unfold registered. cbn. by rewrite Hb.
    + intros t' Hne. cbn. by rewrite lookup_insert_ne.
  - destruct (handedOut w g); [|done]. intros [= <-]. apply (swept_outside t u s until w _ t1); try done; [eauto|].
    intros t' Hne. cbn. by rewrite lookup_insert_ne.
  - destruct (Sockets_guards w !! g) as [x|] eqn:Hx; [|done]. destruct (_ && _); [|done].
    destruct (_ || _); intros [= <-].
    + destruct (revokeGuard_rest w g) as [Hc Ht]. apply (swept_outside t u s until w _ t1); rewrite ?Hc, ?Ht; try done.
      intros g' x' Hx'. by apply revokeGuard_spec in Hx' as [? _].
    + apply (swept_outside t u s until w _ t1); try done; [eauto|]. intros t' Hne. cbn. by rewrite lookup_insert_ne.
  - destruct (Sockets_guards w !! g) as [x|] eqn:Hx; [|done]. destruct (_ && _); [|done]. intros [= <-].
    apply (swept_outside t u s until w _ t1); try done. intros g' x'. cbn. rewrite lookup_insert.
    destruct (decide (g = g')) as [<-|Hne]; [|eauto]. intros [= <-]. eauto.
Qed.

Lemma socketStep_retention w t label w' :
  socketStep w t label = Some w' →
  cache_retention (Sockets_cache w') = cache_retention (Sockets_cache w).
Proof.
  unfold socketStep. destruct (Sockets_threads w !! t) as [pc|].
  - destruct label; try done. destruct pc as [[|g rest]|g|g]; cbn; repeat case_match; try done;
      intros [= <-]; cbn; try by rewrite (proj1 (revokeGuard_rest w g)). all: done.
  - destruct label as [g id now|g|u sessionID now|g|g valid|g|]; cbn [socketEnter]; [| | | | | |done].
    + case_bool_decide; [|done]. destruct (registerLocked _ _ _ _) as [c' deny] eqn:Hreg. intros [= <-].
      injection Hreg as <- _. by destruct deny.
    + repeat case_match; try done. intros [= <-]. apply unregister_rest.
    + destruct (revokeLocked _ _ _ _ _) as [c' guards] eqn:Hrev. intros [= <-].
      by apply revokeLocked_spec in Hrev as (_ & ? & _).
    + repeat case_match; try done. by intros [= <-].
    + repeat case_match; try done; intros [= <-]; [|done]. by rewrite (proj1 (revokeGuard_rest w g)).
    + repeat case_match; try done. by intros [= <-].
Qed.

(** The sweep a call of [Revoke] starts lasts through any run whose clock stays in the
    retention. *)
Lemma swept_run w0 t u sessionID now w1 trace w2 s :
  let retention := cache_retention (Sockets_cache w0) in
  sockets_inv w0 → socketStep w0 t (Revoke u sessionID now) = Some w1 → socketRun w1 trace = Some w2 →
  Forall (λ step, steady retention (now + retention) step.2) trace →
  aimed (Sockets_cache w0) (sessionOf w0) u sessionID s →
  sockets_inv w2 ∧ swept t u s (now + retention) w2.
Proof.
  intros retention Hi Hstep Hrun Hclock Haim.
  pose proof (socketStep_inv _ _ _ _ Hi Hstep) as Hi1. pose proof (socketStep_retention _ _ _ _ Hstep) as Hret.
  assert (swept t u s (now + retention) w1) as Hsw.
  { unfold socketStep in Hstep. destruct (Sockets_threads w0 !! t); [done|]. cbn [socketEnter] in Hstep.
    destruct (revokeLocked _ _ _ _ _) as [c' guards] eqn:Hrev. injection Hstep as <-.
    apply revokeLocked_spec in Hrev as (_ & _ & Hb & _ & _ & _ & Hnew). destruct (Hnew s Haim) as [Hf Hg]. split.
    - destruct Hf as [Hf|Hf]; [left|right]; cbn.
      + eexists. by split.
      + rewrite Hf. unfold retention. lia.
    - intros g x Hreg Hx Hs. right. right. exists guards. split; [by cbn; rewrite lookup_insert_eq|].
      apply Hg; [|by unfold sessionOf; cbn in Hx; rewrite Hx].
      revert Hreg. unfold registered. cbn. by rewrite Hb. }
  assert (sockets_inv w2 ∧ swept t u s (now + retention) w2 ∧ cache_retention (Sockets_cache w2) = retention)
    as (? & ? & _); [|done].
  apply (socketRun_ind (λ w, sockets_inv w ∧ swept t u s (now + retention) w ∧
           cache_retention (Sockets_cache w) = retention) (steady retention (now + retention)) trace w1); try done.
  intros w t' label w' (Hi' & Hsw' & Hret') Hl Hs. rewrite (socketStep_retention _ _ _ _ Hs). split_and!; [| |done].
  - by eapply socketStep_inv.
  - eapply swept_step; [done..| |done]. by rewrite Hret'.
Qed.

(** C7. A revocation reaches every socket.  A thread calls [Revoke] for a session of a user, or
    for all of them, which means every session of the user that has a socket then; other
    threads go on registering, writing, revoking in any interleaving, for as long as the clock
    of the calls stays within the retention of the cache.  Once that call has returned, no
    action runs on any registered guard of such a session, and none can start: [WhileActive]
    leaves everything as it is.  This holds for guards registered after the revocation, too,
    and when the cache was full. *)
Theorem revocation_reaches_every_socket w0 t u sessionID now w1 trace w2 s :
  let retention := cache_retention (Sockets_cache w0) in
  socketsReachable w0 → socketStep w0 t (Revoke u sessionID now) = Some w1 →
  socketRun w1 trace = Some w2 →
  Forall (λ step, steady retention (now + retention) step.2) trace →
  aimed (Sockets_cache w0) (sessionOf w0) u sessionID s →
  Sockets_threads w2 !! t = None →
  ∀ g x, registered (Sockets_cache w2) u g → Sockets_guards w2 !! g = Some x →
    Identity_SessionID (guard_identity x) = s →
    (∀ t', Sockets_threads w2 !! t' ≠ Some (Acting g)) ∧
    (∀ t' leaseValid w3, socketStep w2 t' (WhileActive g leaseValid) = Some w3 → w3 = w2).
Proof.
  intros retention Hr%socketsReachable_inv Hstep Hrun Hclock Haim Ht g x Hreg Hx Hs.
  destruct (swept_run _ _ _ _ _ _ _ _ _ Hr Hstep Hrun Hclock Haim) as [Hi Hsw].
  assert (guard_revoked x = true ∨ denied w2 g) as Hend.
  { destruct (swept_guards _ _ _ _ _ Hsw g x Hreg Hx Hs) as [?|[?|(rest & Hrest & _)]]; [by left|by right|congruence]. }
  split.
  - intros t' Hact. destruct Hend as [Hrev|[td Hd]].
    + destruct (inv_acting w2 Hi t' g Hact) as (y & Hy & ?). congruence.
    + by apply (inv_handed w2 Hi t' td g).
  - intros t' valid w3. unfold socketStep. destruct (Sockets_threads w2 !! t'); [done|].
    cbn [socketEnter]. rewrite Hx. destruct (handedOut w2 g) eqn:Ho; [|done].
    destruct Hend as [Hrev|[td Hd]]; [|by destruct (handedOut_spec w2 td g Ho)].
    destruct (mayLockGuard w2 g); [|done]. unfold revokeGuard. rewrite Hrev, Hx, Hrev. by intros [= <-].
Qed.

(** The cache never holds more records than its capacity, no channel is closed twice, and at
    most one action runs on a guard, only on one that is not revoked. *)
Theorem sockets_sound w :
  socketsReachable w →
  (Z.of_nat (size (cache_records (Sockets_cache w))) ≤ cache_capacity (Sockets_cache w))%Z ∧
  Sockets_panicked w = false ∧
  (∀ t g, Sockets_threads w !! t = Some (Acting g) →
     (∃ x, Sockets_guards w !! g = Some x ∧ guard_revoked x = false) ∧
     ∀ t', Sockets_threads w !! t' = Some (Acting g) → t' = t).
Proof.
  intros Hi%socketsReachable_inv. split_and!; [apply Hi..|]. intros t g Ht.
  split; [by apply (inv_acting w Hi t)|]. intros t' Ht'. by apply (inv_alone w Hi t t' g).
Qed.
End sockets.

(** ** Witness: a full cache and a socket that opens meanwhile *)
Section witnesses.
#[local] Existing Instance Reference.runtime.

Definition socketUser : UUID := uuid_of_N 1.
Definition socketID (n : N) : Identity := mkIdentity socketUser (uuid_of_N 50) (uuid_of_N n).

(** A cache for one record, taken by another session; the socket 1 of the session 7 is inside an
    action. *)
Definition crowdedTrace : list (nat * SocketLabel) :=
  [(0, Revoke (uuid_of_N 2) (Some (uuid_of_N 8)) 100%Z); (0, Proceed);
   (1, Register 1 (socketID 7) 110%Z); (1, WhileActive 1 true)].

Definition revokeSeven : SocketLabel := Revoke socketUser (Some (uuid_of_N 7)) 120%Z.

(** The call of thread 0 waits for the action of thread 1; meanwhile thread 2 opens a socket
    of the same session. *)
Definition sweepTrace : list (nat * SocketLabel) :=
  [(2, Register 2 (socketID 7) 125%Z); (1, Proceed); (0, Proceed); (2, Proceed); (0, Proceed)].

Definition crowded : Sockets :=
  default (newSockets 1 1000) (socketRun (newSockets 1 1000) crowdedTrace).
Definition sweeping : Sockets := default crowded (socketStep crowded 0 revokeSeven).
Definition sweptSockets : Sockets := default sweeping (socketRun sweeping sweepTrace).

Lemma some_default {A} (d : A) (o : option A) : (if o is Some _ then true else false) = true → o = Some (default d o).
Proof. by destruct o. Qed.

(** The guard is registered for the session 7, decided by evaluation. *)
Definition isSeven (g : guardPointer) : bool :=
  match Sockets_guards sweptSockets !! g with
  | Some x => bool_decide (nested (cache_guardsByUser (Sockets_cache sweptSockets)) socketUser !! g = Some tt) &&
      bool_decide (Identity_SessionID (guard_identity x) = uuid_of_N 7)
  | None => false
  end.

Lemma seven_of g : isSeven g = true → ∃ x,
  registered (Sockets_cache sweptSockets) socketUser g ∧ Sockets_guards sweptSockets !! g = Some x ∧
  Identity_SessionID (guard_identity x) = uuid_of_N 7.
Proof.
  unfold isSeven. destruct (Sockets_guards sweptSockets !! g) as [x|]; [|done].
  intros [Hreg%bool_decide_eq_true_1 Hs%bool_decide_eq_true_1]%andb_true_iff.
  exists x. split; [exact Hreg|]. split; [reflexivity|exact Hs].
Qed.

Lemma revocation_reaches_every_socket_witness :
  (** the call cannot go on before the action is over *)
  socketStep sweeping 0 Proceed = None ∧
  (** afterwards neither socket writes *)
  (∀ g, g = 1 ∨ g = 2 → (∀ t', Sockets_threads sweptSockets !! t' ≠ Some (Acting g)) ∧
     socketStep sweptSockets 5 (WhileActive g true) = Some sweptSockets).
Proof.
  split; [vm_compute; reflexivity|]. intros g Hg.
  assert (socketsReachable crowded) as Hreach.
  { exists 1%Z, 1000%Z, crowdedTrace. apply some_default. vm_compute. reflexivity. }
  assert (socketStep crowded 0 revokeSeven = Some sweeping) as Hstep.
  { apply some_default. vm_compute. reflexivity. }
  assert (socketRun sweeping sweepTrace = Some sweptSockets) as Hrun.
  { apply some_default. vm_compute. reflexivity. }
  destruct (seven_of g) as (x & Hreg & Hx & Hs); [destruct Hg as [-> | ->]; vm_compute; reflexivity|].
  assert (Forall (λ step, steady (cache_retention (Sockets_cache crowded))
            (120 + cache_retention (Sockets_cache crowded)) step.2) sweepTrace) as Hclock.
  { replace (cache_retention (Sockets_cache crowded)) with 1000%Z by (vm_compute; reflexivity).
    unfold sweepTrace, steady.
    repeat (apply Forall_cons; split; [cbn; intros now Hn; first [discriminate Hn|injection Hn as <-; lia]|]).
    apply Forall_nil_2. }
  assert (Sockets_threads sweptSockets !! 0 = None) as Hdone by (vm_compute; reflexivity).
  destruct (revocation_reaches_every_socket crowded 0 socketUser (Some (uuid_of_N 7)) 120 sweeping
              sweepTrace sweptSockets (uuid_of_N 7) Hreach Hstep Hrun Hclock eq_refl Hdone g x Hreg Hx Hs)
    as [Hidle Hquiet].
  split; [exact Hidle|].
  assert (socketStep sweptSockets 5 (WhileActive g true) =
            Some (default crowded (socketStep sweptSockets 5 (WhileActive g true)))) as Hw.
  { apply some_default. destruct Hg as [-> | ->]; vm_compute; reflexivity. }
  rewrite Hw. f_equal. exact (Hquiet _ _ _ Hw).
Defined.
End witnesses.
