(* ===== verification/Realtime.v ===== *)
(** * The realtime connection

    [src/internal/httpapi/realtime.go]: one connection of [/v1/realtime], from the registration
    of its guard to the deferred calls, as a transition system of its two goroutines — the
    handler with its loop, and the reader — and of everybody else.

    The guard is the one of [SessionCache]: what [WhileActive] runs holds its mutex, so [Fence],
    the revocation by somebody else, waits for it.  An action that only writes to the connection
    is one step with taking the mutex; the typing action, which asks the store and the bus, has a
    step for each.  [DeliverIfAllowed] holds the delivery lock of the compliance repository while
    it writes, so that a block waits too.  The store is the shared one: [Others] is any change of
    it by other requests.

    What encoding/json makes of the payload of an event is part of the event; frames are decoded
    too.  The answers of the lease, the bus, the presence service and the network are part of
    the labels. *)

From Stdlib Require Import ZArith Lia.
From S2P Require Import Prelude.
From S2P Require Import Runtime.
From S2P Require Import Domain.
From S2P Require Import Compliance.
From S2P Require Import StoreState.
From S2P Require Import Devices.
From S2P Require Import Conversations.
From S2P Require Import Http.

(** ** Frames and events *)

Record Frame := mkFrame { Frame_Type : string; Frame_ConversationID : option UUID; Frame_Active : bool }.

(** An event of the subscription: of its payload the sender and user id it decodes to, and the
    session it revokes ([None]: it does not decode or is malformed). *)
Record SocketEvent := mkSocketEvent {
  SocketEvent_ID : string; SocketEvent_Type : string;
  SocketEvent_Actors : option (UUID * UUID);
  SocketEvent_Revokes : option (option UUID) }.

(** [communicationActor] *)
Definition communicationActor (event : SocketEvent) : UUID :=
  match SocketEvent_Actors event with
  | None => uuid_Nil
  | Some (senderID, userID) =>
    if bool_decide (SocketEvent_Type event = "message.created") then senderID
    else if bool_decide (SocketEvent_Type event = "typing.changed") then userID
    else uuid_Nil
  end.

Definition sessionRevokedEventType : string := "session.revoked".

(** [typingFrameDue] with the new value of [*last]; [None] is the zero time. *)
Definition typingInterval : Z := 300000000.
Definition typingFrameDue (now : Z) (last : option Z) : bool * option Z :=
  match last with
  | Some last => if (now - last <? typingInterval)%Z then (false, Some last) else (true, Some now)
  | None => (true, Some now)
  end.

(** ** State *)

(** What the handler releases at its end, in the reverse order. *)
Inductive Held := HeldGuard | HeldOwner | HeldConnection | HeldPresence | HeldSubscription.

(** What the peer, the bus and the other services see of the connection. *)
Inductive Output :=
  | Refused (status : Z)
  | Unavailable
  | Ready
  | Delivered (event : SocketEvent)
  | Pong
  | Ping
  | TypingPublished (recipients : list UUID) (conversation : UUID) (active : bool) (readAt : Z)
  | CloseFrame
  | Released (held : Held).

Inductive ReaderPC :=
  | ReaderNotStarted
  | ReaderTop
  | ReaderReading
  | ReaderPong
  | ReaderCheck (conversation : UUID) (active : bool) (readAt : Z)
  | ReaderChecked (conversation : UUID) (active : bool) (readAt : Z)
  | ReaderPublish (conversation : UUID) (active : bool) (readAt : Z)
  (** inside the action: holds the mutex of the guard *)
  | ReaderListing (conversation : UUID) (active : bool) (readAt : Z)
  | ReaderSending (recipients : list UUID) (conversation : UUID) (active : bool) (readAt : Z)
  | ReaderEnded.

Inductive MainPC :=
  | MainOwner
  | MainFirstCheck
  | MainFirstChecked
  | MainUpgrade
  | MainSubscribe
  | MainHello
  | MainSelect
  | MainCheck
  | MainChecked
  (** about to revoke the guard, and then to close the connection or to go on *)
  | MainFencing (closing : bool)
  | MainHeartbeat
  | MainAllow (event : SocketEvent) (actor : UUID)
  (** [delivery]: whether the delivery lock is held *)
  | MainWrite (event : SocketEvent) (delivery : bool)
  | MainClosing
  | MainEnded.

Record Channel := mkChannel {
  Channel_store : Store;
  Channel_revoked : bool;
  Channel_main : MainPC;
  Channel_reader : ReaderPC;
  Channel_lastTypingEvent : option Z;
  Channel_held : list Held;
  Channel_output : list Output }.

(** After [Register]: [denied] is whether the cache has revoked the guard. *)
Definition newChannel (s : Store) (denied : bool) : Channel :=
  mkChannel s denied MainOwner ReaderNotStarted None [HeldGuard] [].

Definition eta_Channel (w : Channel) : Channel :=
  mkChannel (Channel_store w) (Channel_revoked w) (Channel_main w) (Channel_reader w)
    (Channel_lastTypingEvent w) (Channel_held w) (Channel_output w).
#[export] Instance set_Channel_store : Setter Channel_store := ltac:(field_setter eta_Channel Channel_store).
#[export] Instance set_Channel_revoked : Setter Channel_revoked := ltac:(field_setter eta_Channel Channel_revoked).
#[export] Instance set_Channel_main : Setter Channel_main := ltac:(field_setter eta_Channel Channel_main).
#[export] Instance set_Channel_reader : Setter Channel_reader := ltac:(field_setter eta_Channel Channel_reader).
#[export] Instance set_Channel_lastTypingEvent : Setter Channel_lastTypingEvent :=
  ltac:(field_setter eta_Channel Channel_lastTypingEvent).
#[export] Instance set_Channel_held : Setter Channel_held := ltac:(field_setter eta_Channel Channel_held).
#[export] Instance set_Channel_output : Setter Channel_output := ltac:(field_setter eta_Channel Channel_output).

(** ** Steps *)

(** Of the choices of the [select] those that are ready. *)
Inductive Ready_ :=
  | ContextDone
  | GuardRevoked
  | ReadDone
  | SessionTick
  | HeartbeatTick
  | SubscriptionClosed
  | EventReceived (event : SocketEvent).

Inductive ChannelLabel :=
  (** by everybody else *)
  | Others (s : Store)
  | Fence
  (** by the handler: [ok] is the success of the call it is at, [leaseValid] the answer of the
      validator *)
  | Main (ok leaseValid : bool) (clock : Clock)
  | Select (choice : Ready_)
  (** by the reader *)
  | ReadFrame (frame : Frame) (now : Z)
  | ReadError
  | Reader (ok leaseValid : bool) (clock : Clock).

Section channel.
Context `{GoRuntime} (id : Identity).
Implicit Types (w : Channel).

Definition emit w (out : Output) : Channel := w <| Channel_output ::= λ l, l ++ [out] |>.
Definition goto w (pc : MainPC) : Channel := w <| Channel_main := pc |>.
Definition readerGoto w (pc : ReaderPC) : Channel := w <| Channel_reader := pc |>.
Definition holding w (held : Held) : Channel := w <| Channel_held ::= cons held |>.
Definition revoke w : Channel := w <| Channel_revoked := true |>.

(** The reader is inside the typing action. *)
Definition readerActs w : bool :=
  match Channel_reader w with ReaderListing _ _ _ | ReaderSending _ _ _ _ => true | _ => false end.

(** The delivery lock is held. *)
Definition delivering w : bool := match Channel_main w with MainWrite _ true => true | _ => false end.

(** [guard.WhileActive]: refuses a revoked guard, and revokes one whose lease is not valid. *)
Definition active w (leaseValid : bool) : bool := negb (Channel_revoked w) && leaseValid.

(** The query of [realtimeSessionActive], and what it does to the guard: a failed query revokes
    it, and so does the cache for a session that is not active. *)
Definition sessionActive w (ok : bool) (clock : Clock) : bool :=
  ok && SessionActive (Channel_store w) (Identity_SessionID id) (Identity_UserID id) (Identity_DeviceID id) clock.

(** Ends the handler after a close frame. *)
Definition closeSession w : Channel := goto (emit w CloseFrame) MainClosing.

(** An iteration of the [select]. *)
Definition select w (choice : Ready_) : option Channel :=
  match choice with
  | ContextDone => Some (goto w MainClosing)
  | GuardRevoked => if Channel_revoked w then Some (closeSession w) else None
  | ReadDone => match Channel_reader w with ReaderEnded => Some (goto w MainClosing) | _ => None end
  | SessionTick => Some (goto w MainCheck)
  | HeartbeatTick => Some (goto w MainHeartbeat)
  | SubscriptionClosed => Some (goto w MainClosing)
  | EventReceived event =>
    if bool_decide (SocketEvent_Type event = sessionRevokedEventType)
    then
      (* [applySessionRevocation]: a malformed payload revokes the sessions of the user *)
      Some (if match SocketEvent_Revokes event with
               | Some (Some sessionID) => bool_decide (sessionID = Identity_SessionID id)
               | Some None | None => true
               end
            then goto w (MainFencing false) else w)
    else if bool_decide (SocketEvent_Type event = "message.created")
            || bool_decide (SocketEvent_Type event = "typing.changed")
    then
      let actor := communicationActor event in
      Some (if bool_decide (actor = uuid_Nil) then w else goto w (MainAllow event actor))
    else Some (goto w (MainWrite event false))
  end.

(** A step of the handler that is not at the [select]. *)
Definition main w (ok leaseValid : bool) (clock : Clock) : option Channel :=
  match Channel_main w with
  | MainOwner =>
    Some (if ok then goto (holding w HeldOwner) MainFirstCheck
          else goto (emit (revoke w) (Refused 503)) MainClosing)
  | MainFirstCheck =>
    Some (if sessionActive w ok clock then goto w MainFirstChecked
          else goto (emit (revoke w) (Refused 401)) MainClosing)
  | MainFirstChecked =>
    Some (if Channel_revoked w then goto (emit w (Refused 401)) MainClosing else goto w MainUpgrade)
  | MainUpgrade =>
    (* a failed upgrade has answered the request itself *)
    Some (if ok then goto (holding (holding w HeldConnection) HeldPresence) MainSubscribe
          else goto w MainClosing)
  | MainSubscribe =>
    Some (if ok then goto (holding w HeldSubscription) MainHello else goto (emit w Unavailable) MainClosing)
  | MainHello =>
    Some (if active w leaseValid
          then let w := emit w Ready in
               if ok then readerGoto (goto w MainSelect) ReaderTop else goto w MainClosing
          else goto (revoke w) MainClosing)
  | MainSelect => None
  | MainCheck =>
    Some (if sessionActive w ok clock then goto w MainChecked else goto w (MainFencing true))
  | MainChecked =>
    if readerActs w then None else
    Some (if Channel_revoked w then closeSession w else goto w MainSelect)
  | MainFencing closing =>
    if readerActs w then None else
    Some (let w := revoke w in if closing then closeSession w else goto w MainSelect)
  | MainHeartbeat =>
    if readerActs w then None else
    Some (if active w leaseValid
          then goto (emit w Ping) (if ok then MainSelect else MainClosing)
          else goto (revoke w) MainClosing)
  | MainAllow event actor =>
    Some (if negb ok then goto w MainClosing
          else if Blocked (Store_compliance (Channel_store w)) (Identity_UserID id) actor
          then goto w MainSelect else goto w (MainWrite event true))
  | MainWrite event _ =>
    if readerActs w then None else
    Some (if active w leaseValid
          then goto (emit w (Delivered event)) (if ok then MainSelect else MainClosing)
          else goto (revoke w) MainClosing)
  | MainClosing =>
    match Channel_held w with
    | [] => Some (goto w MainEnded)
    | held :: rest => Some (emit (w <| Channel_held := rest |>) (Released held))
    end
  | MainEnded => None
  end.

(** A frame that was read. *)
Definition readFrame w (frame : Frame) (now : Z) : Channel :=
  if bool_decide (Frame_Type frame = "ping") then readerGoto w ReaderPong
  else match Frame_ConversationID frame with
       | Some conversation =>
         if bool_decide (Frame_Type frame = "typing") then
           let '(due, last) := typingFrameDue now (Channel_lastTypingEvent w) in
           let w := w <| Channel_lastTypingEvent := last |> in
           if due then readerGoto w (ReaderCheck conversation (Frame_Active frame) now)
           else readerGoto w ReaderTop
         else readerGoto w ReaderTop
       | None => readerGoto w ReaderTop
       end.

(** A step of the reader that reads no frame. *)
Definition reader w (ok leaseValid : bool) (clock : Clock) : option Channel :=
  match Channel_reader w with
  | ReaderTop => Some (readerGoto w (if Channel_revoked w then ReaderEnded else ReaderReading))
  | ReaderPong =>
    Some (if active w leaseValid then readerGoto (emit w Pong) ReaderTop
          else readerGoto (revoke w) ReaderTop)
  | ReaderCheck conversation act readAt =>
    Some (if sessionActive w ok clock then readerGoto w (ReaderChecked conversation act readAt)
          else readerGoto (revoke w) ReaderEnded)
  | ReaderChecked conversation act readAt =>
    Some (readerGoto w (if Channel_revoked w then ReaderEnded else ReaderPublish conversation act readAt))
  | ReaderPublish conversation act readAt =>
    Some (if active w leaseValid then readerGoto w (ReaderListing conversation act readAt)
          else readerGoto (revoke w) ReaderEnded)
  | ReaderListing conversation act readAt =>
    Some (match ListConversationMembers (Channel_store w) conversation (Identity_UserID id) with
          | Ok members =>
            if ok then
              let recipients := List.filter (λ u, negb (bool_decide (u = Identity_UserID id)))
                                  (map ConversationMember_UserID members) in
              readerGoto w (ReaderSending recipients conversation act readAt)
            else readerGoto w ReaderTop
          | Err _ => readerGoto w ReaderTop
          end)
  | ReaderSending recipients conversation act readAt =>
    Some (readerGoto (emit w (TypingPublished recipients conversation act readAt)) ReaderTop)
  | _ => None
  end.

Definition channelStep w (label : ChannelLabel) : option Channel :=
  match label with
  | Others s =>
    if delivering w && negb (bool_decide (Memory_blocks (Store_compliance s)
                                          = Memory_blocks (Store_compliance (Channel_store w))))
    then None else Some (w <| Channel_store := s |>)
  | Fence => if readerActs w then None else Some (revoke w)
  | Main ok leaseValid clock => main w ok leaseValid clock
  | Select choice => match Channel_main w with MainSelect => select w choice | _ => None end
  | ReadFrame frame now =>
    match Channel_reader w with ReaderReading => Some (readFrame w frame now) | _ => None end
  | ReadError => match Channel_reader w with ReaderReading => Some (readerGoto w ReaderEnded) | _ => None end
  | Reader ok leaseValid clock => reader w ok leaseValid clock
  end.

Fixpoint channelRun w (trace : list ChannelLabel) : option Channel :=
  match trace with
  | [] => Some w
  | label :: trace => channelStep w label ≫= λ w, channelRun w trace
  end.
End channel.
