(* ===== verification/RealtimeFacts.v ===== *)
(** * Facts about the realtime connection

    Invariants of the transition system of [Realtime], and what follows for the peer: what a
    connection writes and when, how often it passes typing on, and that a revoked one ends. *)

From Stdlib Require Import ZArith Lia.
From S2P Require Import Prelude.
From S2P Require Import Runtime.
From S2P Require Import Domain.
From S2P Require Import Compliance.
From S2P Require Import StoreState.
From S2P Require Import Devices.
From S2P Require Import Conversations.
From S2P Require Import Http.
From S2P Require Import Realtime.

Section facts.
Context `{GoRuntime} (id : Identity).
Implicit Types (w : Channel).

(** ** Invariants *)

(** Before the reader is started. *)
Definition early (pc : MainPC) : bool :=
  match pc with
  | MainOwner | MainFirstCheck | MainFirstChecked | MainUpgrade | MainSubscribe | MainHello => true
  | _ => false
  end.

Definition communicates (event : SocketEvent) : Prop :=
  SocketEvent_Type event = "message.created" ∨ SocketEvent_Type event = "typing.changed".

(** Whose communication the user may receive. *)
Definition admitted (s : Store) (event : SocketEvent) : Prop :=
  SocketEvent_Type event ≠ sessionRevokedEventType ∧
  (communicates event → communicationActor event ≠ uuid_Nil ∧
     Blocked (Store_compliance s) (Identity_UserID id) (communicationActor event) = false).

Record channel_inv w : Prop := {
  ci_early : early (Channel_main w) = true → Channel_reader w = ReaderNotStarted;
  ci_acts : readerActs w = true → Channel_revoked w = false;
  ci_allow : ∀ event actor, Channel_main w = MainAllow event actor →
    actor = communicationActor event ∧ actor ≠ uuid_Nil ∧ SocketEvent_Type event ≠ sessionRevokedEventType;
  ci_write : ∀ event delivery, Channel_main w = MainWrite event delivery →
    SocketEvent_Type event ≠ sessionRevokedEventType ∧
    (communicates event → delivery = true) ∧ (delivery = true → admitted (Channel_store w) event);
  ci_sending : ∀ recipients conversation act readAt,
    Channel_reader w = ReaderSending recipients conversation act readAt → Identity_UserID id ∉ recipients }.

Lemma Blocked_ext m m' a b : Memory_blocks m = Memory_blocks m' → Blocked m a b = Blocked m' a b.
Proof. intros Hb. unfold Blocked, block_entry. by rewrite Hb. Qed.

Lemma channel_inv_new s denied : channel_inv (newChannel s denied).
Proof. by constructor. Qed.

Lemma others_unseen (members : list ConversationMember) user :
  user ∉ List.filter (λ u, negb (bool_decide (u = user))) (map ConversationMember_UserID members).
Proof.
  intros [_ Hne]%list_elem_of_In%filter_In. by rewrite bool_decide_true in Hne.
Qed.

#[local] Opaque sessionActive Blocked ListConversationMembers communicationActor uuid_Nil.

(** Takes the cases of a step apart: what is left has the new state in its place. *)
Ltac step_cases Hstep :=
  cbn in Hstep;
  repeat (match type of Hstep with
          | (if ?b then _ else _) = _ => let Hb := fresh "Hb" in destruct b eqn:Hb
          | match ?x with _ => _ end = _ => let Hx := fresh "Hx" in destruct x eqn:Hx
          | Some (if ?b then _ else _) = _ => let Hb := fresh "Hb" in destruct b eqn:Hb
          | Some (match ?x with _ => _ end) = _ => let Hx := fresh "Hx" in destruct x eqn:Hx
          end; cbn in Hstep; try discriminate Hstep);
  try (injection Hstep as <-).

Ltac inv_done ok := constructor; cbn in *; intros; simplify_eq; try done; try (by destruct ok); try congruence; try (by eauto);
  try (match goal with He : early ?pc = true → _, Hearly : early ?pc = true |- _ => discriminate (He Hearly) end).

Lemma main_inv w ok lease clock w' : channel_inv w → main id w ok lease clock = Some w' → channel_inv w'.
Proof.
  intros [He Ha Hal Hwr Hse] Hstep. destruct w as [s rev pc rd lt held out]. unfold main in Hstep.
  cbn in He, Ha, Hal, Hwr, Hse. destruct pc; try (specialize (He eq_refl); subst rd); step_cases Hstep; inv_done ok.
  destruct (Hal _ _ eq_refl) as (-> & Hn & Hty). split; [done|]. split; [done|]. intros _. split; [done|].
  intros _. by split.
Qed.

Lemma select_inv w choice w' :
  channel_inv w → Channel_main w = MainSelect → select id w choice = Some w' → channel_inv w'.
Proof.
  intros [He Ha Hal Hwr Hse] Hpc Hstep. destruct w as [s rev pc rd lt held out]. unfold select in Hstep.
  cbn in He, Ha, Hal, Hwr, Hse, Hpc. subst pc. destruct choice; step_cases Hstep; inv_done true.
  - bool_prop. split_and!; done.
  - unfold communicates. bool_prop. split; [done|]. split; [|done]. by intros [Ht|Ht].
Qed.

Lemma readFrame_inv w frame now :
  channel_inv w → Channel_reader w = ReaderReading → channel_inv (readFrame w frame now).
Proof.
  intros [He Ha Hal Hwr Hse] Hrd. unfold readFrame, typingFrameDue.
  destruct w as [s rev pc rd lt held out]. cbn in He, Ha, Hal, Hwr, Hse, Hrd |- *. subst rd.
  repeat case_match; simplify_eq; inv_done rev.
Qed.

Lemma reader_inv w ok lease clock w' : channel_inv w → reader id w ok lease clock = Some w' → channel_inv w'.
Proof.
  intros [He Ha Hal Hwr Hse] Hstep. destruct w as [s rev pc rd lt held out]. unfold reader in Hstep.
  cbn in He, Ha, Hal, Hwr, Hse. destruct rd; step_cases Hstep; inv_done rev.
  apply others_unseen.
Qed.

Lemma channel_step_inv w label w' : channel_inv w → channelStep id w label = Some w' → channel_inv w'.
Proof.
  intros Hi Hstep. unfold channelStep in Hstep. destruct label as [s'| |ok lease clock|choice|frame now| |ok lease clock].
  - destruct Hi as [He Ha Hal Hwr Hse]. destruct (delivering w) eqn:Hd.
    + cbn [andb] in Hstep. destruct (bool_decide _) eqn:Hb; [|done]. injection Hstep as <-. bool_prop.
      constructor; try done. cbn. intros event delivery Hpc. destruct (Hwr _ _ Hpc) as (Hty & Hdel & Hadm).
      split_and!; [done|done|]. intros Htrue. destruct (Hadm Htrue) as [_ Hc]. split; [done|]. intros Hcom.
      destruct (Hc Hcom) as [Hn Hbl]. split; [done|]. rewrite <-Hbl. by apply Blocked_ext.
    + injection Hstep as <-. constructor; try done. cbn. intros event delivery Hpc.
      destruct (Hwr _ _ Hpc) as (Hty & Hdel & Hadm). split_and!; [done|done|]. intros ->.
      unfold delivering in Hd. by rewrite Hpc in Hd.
  - destruct (readerActs w) eqn:Hr; [done|]. injection Hstep as <-. destruct Hi as [He Ha Hal Hwr Hse].
    constructor; try done. intros Hact. unfold revoke in Hact. unfold readerActs in *. cbn in Hact.
    by rewrite Hact in Hr.
  - by eapply main_inv.
  - destruct (Channel_main w) eqn:Hpc; try done. by eapply select_inv.
  - destruct (Channel_reader w) eqn:Hrd; try done. injection Hstep as <-. by apply readFrame_inv.
  - destruct (Channel_reader w) eqn:Hrd; try done. injection Hstep as <-. destruct Hi as [He Ha Hal Hwr Hse].
    constructor; try done. cbn. intros Hearly. by rewrite He in Hrd.
  - by eapply reader_inv.
Qed.

Lemma channel_run_inv trace w w' : channel_inv w → channelRun id w trace = Some w' → channel_inv w'.
Proof.
  revert w. induction trace as [|label trace IH]; intros w Hi; cbn [channelRun]; [by intros [= <-]|].
  destruct (channelStep id w label) as [next|] eqn:Hs; [|done]. cbn. intros Hr.
  apply (IH next); [by eapply channel_step_inv|done].
Qed.

(** The states of a connection of the user. *)
Definition channelReachable w : Prop :=
  ∃ s denied trace, channelRun id (newChannel s denied) trace = Some w.

Lemma channel_reachable_inv w : channelReachable w → channel_inv w.
Proof. intros (s & denied & trace & Hr). eapply channel_run_inv; [apply channel_inv_new|done]. Qed.

(** ** What is written *)

(** What has to hold of the connection when it is written. *)
Definition permitted_output w (out : Output) : Prop :=
  match out with
  | Ready | Ping | Pong => Channel_revoked w = false
  | Delivered event => Channel_revoked w = false ∧ admitted (Channel_store w) event
  | TypingPublished recipients _ _ _ => Channel_revoked w = false ∧ Identity_UserID id ∉ recipients
  | _ => True
  end.

(** A step writes at most one thing, and what it may. *)
Definition writes w w' : Prop :=
  ∃ outs, Channel_output w' = Channel_output w ++ outs ∧ length outs ≤ 1 ∧ Forall (permitted_output w) outs.

Lemma writes_nothing w w' : Channel_output w' = Channel_output w → writes w w'.
Proof. intros Ho. exists []. rewrite Ho, app_nil_r. split; [done|]. split; [simpl; lia|by apply Forall_nil]. Qed.

Lemma writes_one w w' out : Channel_output w' = Channel_output w ++ [out] → permitted_output w out → writes w w'.
Proof. intros Ho Hp. exists [out]. split; [done|]. split; [simpl; lia|]. by apply Forall_cons. Qed.

Lemma active_unrevoked w lease : active w lease = true → Channel_revoked w = false.
Proof. unfold active. by destruct (Channel_revoked w). Qed.

Lemma main_writes w ok lease clock w' : channel_inv w → main id w ok lease clock = Some w' → writes w w'.
Proof.
  intros Hi Hstep. pose proof (ci_write w Hi) as Hwr. destruct w as [s rev pc rd lt held out]. unfold main in Hstep.
  cbn in Hwr. destruct pc; step_cases Hstep;
    first [by apply writes_nothing | by eapply writes_one
          | eapply writes_one; [reflexivity|by eapply active_unrevoked] | idtac].
  eapply writes_one; [reflexivity|]. split; [by eapply active_unrevoked|].
  destruct (Hwr _ _ eq_refl) as (Hty & Hdel & Hadm). split; [done|]. intros Hc. exact (proj2 (Hadm (Hdel Hc)) Hc).
Qed.

Lemma select_writes w choice w' : select id w choice = Some w' → writes w w'.
Proof.
  intros Hstep. destruct w as [s rev pc rd lt held out]. unfold select in Hstep.
  destruct choice; step_cases Hstep; first [by apply writes_nothing | by eapply writes_one].
Qed.

Lemma reader_writes w ok lease clock w' : channel_inv w → reader id w ok lease clock = Some w' → writes w w'.
Proof.
  intros Hi Hstep. pose proof (ci_acts w Hi) as Ha. pose proof (ci_sending w Hi) as Hs.
  destruct w as [s rev pc rd lt held out]. unfold reader in Hstep. cbn in Ha, Hs.
  destruct rd; step_cases Hstep;
    first [by apply writes_nothing | eapply writes_one; [reflexivity|by eapply active_unrevoked] | idtac].
  eapply writes_one; [reflexivity|]. split; [by apply Ha|by eapply Hs].
Qed.

Lemma readFrame_output w frame now : Channel_output (readFrame w frame now) = Channel_output w.
Proof. unfold readFrame. repeat case_match; done. Qed.

Lemma step_writes w label w' : channel_inv w → channelStep id w label = Some w' → writes w w'.
Proof.
  intros Hi Hstep. unfold channelStep in Hstep. destruct label as [s'| |ok lease clock|choice|frame now| |ok lease clock].
  - destruct (_ && _); [done|]. injection Hstep as <-. by apply writes_nothing.
  - destruct (readerActs w); [done|]. injection Hstep as <-. by apply writes_nothing.
  - by eapply main_writes.
  - destruct (Channel_main w); try done. by eapply select_writes.
  - destruct (Channel_reader w); try done. injection Hstep as <-. apply writes_nothing, readFrame_output.
  - destruct (Channel_reader w); try done. injection Hstep as <-. by apply writes_nothing.
  - by eapply reader_writes.
Qed.

(** A revoked guard stays revoked. *)
Lemma step_revoked w label w' : channelStep id w label = Some w' → Channel_revoked w = true → Channel_revoked w' = true.
Proof.
  intros Hstep Hr. destruct w as [s rev pc rd lt held out]. cbn in Hr. subst rev. unfold channelStep in Hstep.
  destruct label as [s'| |ok lease clock|choice|frame now| |ok lease clock].
  - destruct (_ && _); [done|]. by injection Hstep as <-.
  - destruct (readerActs _); [done|]. by injection Hstep as <-.
  - unfold main in Hstep. destruct pc; step_cases Hstep; done.
  - cbn in Hstep. destruct pc; try done. unfold select in Hstep. destruct choice; step_cases Hstep; done.
  - cbn in Hstep. destruct rd; try done. injection Hstep as <-. unfold readFrame. repeat case_match; done.
  - cbn in Hstep. destruct rd; try done. by injection Hstep as <-.
  - unfold reader in Hstep. destruct rd; step_cases Hstep; done.
Qed.

(** What a revoked connection may still write. *)
Definition farewell (out : Output) : Prop :=
  match out with CloseFrame | Released _ | Refused _ | Unavailable => True | _ => False end.

Lemma run_farewell trace w w' :
  channel_inv w → Channel_revoked w = true → channelRun id w trace = Some w' →
  Channel_revoked w' = true ∧ ∃ outs, Channel_output w' = Channel_output w ++ outs ∧ Forall farewell outs.
Proof.
  revert w. induction trace as [|label trace IH]; intros w Hi Hr; cbn [channelRun].
  - intros [= <-]. split; [done|]. exists []. by rewrite app_nil_r.
  - destruct (channelStep id w label) as [next|] eqn:Hs; [|done]. cbn. intros Hrun.
    destruct (step_writes w label next Hi Hs) as (outs & Ho & _ & Hp).
    destruct (IH next) as (Hr' & outs' & Ho' & Hf);
      [by eapply channel_step_inv|by eapply step_revoked|done|].
    split; [done|]. exists (outs ++ outs'). rewrite Ho', Ho, app_assoc. split; [done|].
    apply Forall_app. split; [|done]. eapply Forall_impl; [exact Hp|].
    intros [] Hout; cbn in *; try done; first [congruence | destruct Hout; congruence].
Qed.

(** ** Typing *)

Definition publishedAt (out : Output) : option Z :=
  match out with TypingPublished _ _ _ readAt => Some readAt | _ => None end.

(** When the frames were read whose typing was passed on. *)
Definition typingTimes w : list Z := omap publishedAt (Channel_output w).

Definition inFlight (pc : ReaderPC) : option Z :=
  match pc with
  | ReaderCheck _ _ t | ReaderChecked _ _ t | ReaderPublish _ _ t | ReaderListing _ _ t
  | ReaderSending _ _ _ t => Some t
  | _ => None
  end.

(** Any two are at least the interval apart, in their order. *)
Definition paced (times : list Z) : Prop :=
  ∀ i j a b, i < j → times !! i = Some a → times !! j = Some b → (a + typingInterval ≤ b)%Z.

Record paced_inv w : Prop := {
  pi_paced : paced (typingTimes w);
  pi_past : ∀ p, p ∈ typingTimes w → ∃ last, Channel_lastTypingEvent w = Some last ∧ (p ≤ last)%Z;
  pi_flight : ∀ t, inFlight (Channel_reader w) = Some t →
    Channel_lastTypingEvent w = Some t ∧ ∀ p, p ∈ typingTimes w → (p + typingInterval ≤ t)%Z }.

Lemma paced_snoc times t : paced times → (∀ p, p ∈ times → (p + typingInterval ≤ t)%Z) → paced (times ++ [t]).
Proof.
  intros Hp Ht i j a b Hij Ha Hb. apply lookup_app_Some in Hb as [Hb|[Hle Hb]].
  - apply (Hp i j); [done| |done]. rewrite lookup_app_l in Ha; [done|]. apply lookup_lt_Some in Hb. lia.
  - apply list_lookup_singleton_Some in Hb as [Hj <-]. apply Ht. rewrite lookup_app_l in Ha by lia.
    by apply list_elem_of_lookup_2 in Ha.
Qed.

Lemma typingTimes_snoc w out : typingTimes (emit w out) = typingTimes w ++ omap publishedAt [out].
Proof. exact (omap_app publishedAt (Channel_output w) [out]). Qed.

(** A step that neither reads nor passes on. *)
Lemma paced_inv_same w w' :
  paced_inv w → typingTimes w' = typingTimes w → Channel_lastTypingEvent w' = Channel_lastTypingEvent w →
  (inFlight (Channel_reader w') = inFlight (Channel_reader w) ∨ inFlight (Channel_reader w') = None) → paced_inv w'.
Proof.
  intros [Hp Hpast Hf] Ht Hl Hr. constructor; rewrite ?Ht, ?Hl; [done|done|].
  intros t Hfl. destruct Hr as [Hr|Hr]; rewrite Hr in Hfl; [by apply Hf|done].
Qed.

Ltac same_times :=
  let Hi := fresh in intros Hi; apply (paced_inv_same _ _ Hi);
  [unfold typingTimes; cbn; rewrite ?omap_app; cbn; by rewrite ?app_nil_r|done|first [by left|by right]].

Lemma main_paced w ok lease clock w' : paced_inv w → main id w ok lease clock = Some w' → paced_inv w'.
Proof.
  intros Hi Hstep. revert Hi. destruct w as [s rev pc rd lt held out]. unfold main in Hstep.
  destruct pc; step_cases Hstep; same_times.
Qed.

Lemma select_paced w choice w' : paced_inv w → select id w choice = Some w' → paced_inv w'.
Proof.
  intros Hi Hstep. revert Hi. destruct w as [s rev pc rd lt held out]. unfold select in Hstep.
  destruct choice; step_cases Hstep; same_times.
Qed.

Lemma reader_paced w ok lease clock w' : paced_inv w → reader id w ok lease clock = Some w' → paced_inv w'.
Proof.
  intros Hi Hstep. revert Hi. destruct w as [s rev pc rd lt held out]. unfold reader in Hstep.
  destruct rd as [| | | |conv act t|conv act t|conv act t|conv act t|recipients conv act t|]; step_cases Hstep;
    try same_times; try (by destruct rev; same_times).
  intros [Hp Hpast Hf]. cbn in Hpast, Hf. destruct (Hf t eq_refl) as [Hl Hall].
  assert (Ht : typingTimes (readerGoto (emit (mkChannel s rev pc (ReaderSending recipients conv act t) lt held out)
    (TypingPublished recipients conv act t)) ReaderTop) = typingTimes (mkChannel s rev pc ReaderTop lt held out) ++ [t])
    by exact (typingTimes_snoc _ _).
  constructor; rewrite ?Ht.
  - by apply paced_snoc.
  - intros p [Hin|Hin%list_elem_of_singleton]%elem_of_app; [by apply Hpast|]. exists t. split; [done|lia].
  - done.
Qed.

Lemma readFrame_paced w frame now : paced_inv w → Channel_reader w = ReaderReading → paced_inv (readFrame w frame now).
Proof.
  intros Hi Hrd. unfold readFrame. destruct (bool_decide _); [by apply (paced_inv_same w); [..|right]|].
  destruct (Frame_ConversationID frame) as [conversation|]; [|by apply (paced_inv_same w); [..|right]].
  destruct (bool_decide (Frame_Type frame = "typing")); [|by apply (paced_inv_same w); [..|right]].
  unfold typingFrameDue. destruct Hi as [Hp Hpast Hf]. destruct (Channel_lastTypingEvent w) as [last|] eqn:Hl.
  - destruct (now - last <? typingInterval)%Z eqn:Hd; bool_prop.
    + constructor; cbn; done.
    + assert (Hall : ∀ p, p ∈ typingTimes w → (p + typingInterval ≤ now)%Z).
      { intros p Hin. destruct (Hpast p Hin) as (l & [= <-] & Hle). lia. }
      constructor; cbn; [done| |by intros t [= <-]].
      intros p Hin. exists now. split; [done|]. specialize (Hall p Hin). unfold typingInterval in Hall. lia.
  - assert (Hnone : ∀ p, p ∉ typingTimes w) by (intros p Hin; by destruct (Hpast p Hin) as (l & [=] & _)).
    constructor; cbn; [done|by intros p Hin%Hnone|]. intros t [= <-]. split; [done|]. by intros p Hin%Hnone.
Qed.

Lemma step_paced w label w' : paced_inv w → channelStep id w label = Some w' → paced_inv w'.
Proof.
  intros Hi Hstep. unfold channelStep in Hstep. destruct label as [s'| |ok lease clock|choice|frame now| |ok lease clock].
  - destruct (_ && _); [done|]. injection Hstep as <-. by apply (paced_inv_same w); [..|left].
  - destruct (readerActs w); [done|]. injection Hstep as <-. by apply (paced_inv_same w); [..|left].
  - by eapply main_paced.
  - destruct (Channel_main w); try done. by eapply select_paced.
  - destruct (Channel_reader w) eqn:Hrd; try done. injection Hstep as <-. by apply readFrame_paced.
  - destruct (Channel_reader w); try done. injection Hstep as <-. by apply (paced_inv_same w); [..|right].
  - by eapply reader_paced.
Qed.

Lemma run_paced trace w w' : paced_inv w → channelRun id w trace = Some w' → paced_inv w'.
Proof.
  revert w. induction trace as [|label trace IH]; intros w Hi; cbn [channelRun]; [by intros [= <-]|].
  destruct (channelStep id w label) as [next|] eqn:Hs; [|done]. cbn. intros Hr.
  apply (IH next); [by eapply step_paced|done].
Qed.

(** ** The end *)

Definition byHandler (label : ChannelLabel) : bool :=
  match label with Main _ _ _ | Select _ => true | _ => false end.

(** The handler alone can go from [w] to its end within some number of steps. *)
Definition ends w (n : nat) : Prop :=
  ∃ trace w', length trace ≤ n ∧ forallb byHandler trace = true ∧ channelRun id w trace = Some w' ∧
    Channel_main w' = MainEnded ∧ Channel_held w' = [].

Lemma ends_step w label w' n :
  byHandler label = true → channelStep id w label = Some w' → ends w' n → ends w (S n).
Proof.
  intros Hl Hs (trace & w2 & Hn & Hb & Hr & He). exists (label :: trace), w2. cbn. rewrite Hl, Hs. cbn.
  split; [lia|done].
Qed.

Lemma ends_closing w : Channel_main w = MainClosing → ends w (S (length (Channel_held w))).
Proof.
  destruct w as [s rev pc rd lt held out]. cbn. intros ->. revert out.
  induction held as [|h held IH]; intros out.
  - exists [Main true true (λ _, 0%Z)]. eexists. by repeat split.
  - apply (ends_step _ (Main true true (λ _, 0%Z)) (mkChannel s rev MainClosing rd lt held (out ++ [Released h])));
      [done|done|apply IH].
Qed.

Lemma ends_more w n m : n ≤ m → ends w n → ends w m.
Proof. intros Hle (trace & w' & Hn & Hrest). exists trace, w'. split; [lia|done]. Qed.

#[local] Transparent sessionActive.

Lemma ends_revoked w :
  channel_inv w → Channel_revoked w = true → Channel_main w ≠ MainEnded → ends w (3 + length (Channel_held w)).
Proof.
  intros Hi Hr Hn. assert (Hacts : readerActs w = false).
  { destruct (readerActs w) eqn:Ha; [|done]. by rewrite (ci_acts w Hi Ha) in Hr. }
  clear Hi. destruct w as [s rev pc rd lt held out]. cbn in Hr, Hn, Hacts |- *. subst rev.
  pose (clock := (λ _, 0%Z) : Clock).
  assert (Hclose : ∀ out, ends (mkChannel s true MainClosing rd lt held out) (1 + length held))
    by (intros out'; by apply ends_closing).
  assert (Hselect : ∀ out, ends (mkChannel s true MainSelect rd lt held out) (2 + length held)).
  { intros out'. eapply (ends_step _ (Select GuardRevoked)); [done|reflexivity|apply Hclose]. }
  assert (Hacts' : ∀ pc out, readerActs (mkChannel s true pc rd lt held out) = false) by done.
  assert (Hone : ∀ pc out', main id (mkChannel s true pc rd lt held out) false false clock
                            = Some (mkChannel s true MainClosing rd lt held out') →
                            ends (mkChannel s true pc rd lt held out) (3 + length held)).
  { intros pc' out' Hm. apply ends_more with (2 + length held); [simpl; lia|].
    eapply (ends_step _ (Main false false clock)); [done|exact Hm|apply Hclose]. }
  assert (Hfence : ∀ closing out, ends (mkChannel s true (MainFencing closing) rd lt held out)
                                    (if closing then 2 + length held else 3 + length held)).
  { intros [] out'; (eapply (ends_step _ (Main false false clock));
      [done|cbn [channelStep]; unfold main; cbn; rewrite Hacts'; reflexivity|first [apply Hclose|apply Hselect]]). }
  destruct pc as [| | | | | | | | |closing| | | | |]; try done;
    try (eapply Hone; unfold main; cbn; rewrite ?Hacts'; reflexivity).
  - apply ends_more with (2 + length held); [simpl; lia|]. apply Hselect.
  - apply (ends_step _ (Main false false clock) (mkChannel s true (MainFencing true) rd lt held out)); [done|reflexivity|].
    apply (Hfence true).
  - apply ends_more with (if closing then 2 + length held else 3 + length held); [destruct closing; simpl; lia|].
    apply Hfence.
  - apply ends_more with (1 + length held); [simpl; lia|]. apply Hclose.
Qed.
End facts.
(** ** Properties *)

Section properties.
Context `{GoRuntime} (id : Identity).
Implicit Types (w : Channel).


(** However fast the frames of a connection come in, the typing it passes on was read at
    times that are pairwise at least 300 milliseconds apart, in the order in which it is passed
    on — also if the clock jumps back. *)
Theorem typing_is_paced w : channelReachable id w → paced (typingTimes w).
Proof.
  intros (s & denied & trace & Hr). apply (pi_paced w). eapply run_paced; [|exact Hr].
  constructor; [intros i j a b _ Ha; by destruct i| |done]. intros p Hp. by apply not_elem_of_nil in Hp.
Qed.

(** A connection whose guard is revoked can always end: wherever its handler is, it gets to
    its end on its own — without another event, the peer or the reader — within three steps and
    one for every thing it holds, and has then released all of them. *)
Theorem revoked_connection_ends w :
  channelReachable id w → Channel_revoked w = true → Channel_main w ≠ MainEnded →
  ∃ trace w', length trace ≤ 3 + length (Channel_held w) ∧ forallb byHandler trace = true ∧
    channelRun id w trace = Some w' ∧ Channel_main w' = MainEnded ∧ Channel_held w' = [].
Proof. intros Hi%channel_reachable_inv Hr Hn. by apply (ends_revoked id w). Qed.
End properties.

(** ** Witnesses *)

Section witnesses.
#[local] Existing Instance Reference.runtime.

Definition socketIdentity : Identity := mkIdentity (uuid_of_N 1) (uuid_of_N 2) (uuid_of_N 3).
Definition room : UUID := uuid_of_N 70.
Definition roomMember (u : UUID) : ConversationMember := mkConversationMember room u "member" 1 None "" "" "" "" "".

(** A store with the session of the connection and a conversation of two. *)
Definition socketStore : Store :=
  store4 <| Store_members := {[room := {[uuid_of_N 1 := roomMember (uuid_of_N 1);
                                         uuid_of_N 9 := roomMember (uuid_of_N 9)]}]} |>.

Definition ada : SocketEvent := mkSocketEvent "m1" "message.created" (Some (uuid_of_N 9, uuid_Nil)) None.
Definition opened : list ChannelLabel := replicate 6 (Main true true (λ _, 50%Z)).
Definition typed (now : Z) : list ChannelLabel :=
  [Reader true true (λ _, 50%Z); ReadFrame (mkFrame "typing" (Some room) true) now] ++
  replicate 5 (Reader true true (λ _, 50%Z)).
Definition delivered : list ChannelLabel :=
  Select (EventReceived ada) :: replicate 2 (Main true true (λ _, 50%Z)).

(** The connection after some labels. *)
Definition channelAfter (trace : list ChannelLabel) : Channel :=
  default (newChannel socketStore true) (channelRun socketIdentity (newChannel socketStore false) trace).

Definition runs (trace : list ChannelLabel) : bool :=
  match channelRun socketIdentity (newChannel socketStore false) trace with Some _ => true | None => false end.

Lemma channelAfter_reachable trace : runs trace = true → channelReachable socketIdentity (channelAfter trace).
Proof.
  unfold runs, channelAfter. intros Hr. exists socketStore, false, trace.
  by destruct (channelRun _ _ _).
Qed.

Definition talk : list ChannelLabel := opened ++ typed (5 * Second) ++ typed (6 * Second) ++ delivered.

Lemma talk_runs : runs talk = true.
Proof. vm_compute. reflexivity. Qed.

Lemma typing_is_paced_witness :
  typingTimes (channelAfter talk) = [5 * Second; 6 * Second]%Z ∧ paced (typingTimes (channelAfter talk)).
Proof.
  split; [vm_compute; reflexivity|]. exact (typing_is_paced _ _ (channelAfter_reachable _ talk_runs)).
Defined.

(** The connection while it writes a message, and once it is fenced. *)
Definition writing : list ChannelLabel := opened ++ removelast delivered.


Lemma revoked_connection_ends_witness :
  ∃ trace w', channelRun socketIdentity (channelAfter (writing ++ [Fence])) trace = Some w' ∧
    Channel_main w' = MainEnded ∧ Channel_held w' = [].
Proof.
  assert (Hr : runs (writing ++ [Fence]) = true) by (vm_compute; reflexivity).
  assert (Hrev : Channel_revoked (channelAfter (writing ++ [Fence])) = true) by (vm_compute; reflexivity).
  assert (Hmain : Channel_main (channelAfter (writing ++ [Fence])) ≠ MainEnded) by (vm_compute; discriminate).
  destruct (revoked_connection_ends _ _ (channelAfter_reachable _ Hr) Hrev Hmain) as (trace & w' & _ & _ & Hrun & He & Hh).
  exists trace, w'. exact (conj Hrun (conj He Hh)).
Defined.
End witnesses.
