(* ===== verification/Middleware.v ===== *)
(** * Middleware

    [src/internal/httpapi/client_ip.go] and the middleware of [server.go]: who a request
    comes from, rate limits by address, by identity and by user, the gate of the metrics
    endpoint, and authentication.

    [authenticate] lets a request through only when its bearer token parses and the
    session it names is live in the store at that moment. *)

From Stdlib Require Import ZArith Lia.
From S2P Require Import Prelude.
From S2P Require Import Runtime.
From S2P Require Import GoText.
From S2P Require Import Domain.
From S2P Require Import StoreState.
From S2P Require Import AuthTokens.
From S2P Require Import Devices.
From S2P Require Import Http.

(** Package net/netip. *)
Class NetIP := {
  Addr : Type;
  Prefix : Type;
  ParseAddrPort : string → option Addr;
  ParseAddr : string → option Addr;
  Unmap : Addr → Addr;
  Addr_String : Addr → string;
  Prefix_Contains : Prefix → Addr → bool }.

Section client_ip.
Context `{GoRuntime, NetIP}.

Definition parsePeerIP (remoteAddress : string) : option Addr :=
  match ParseAddrPort remoteAddress with Some a => Some a | None => ParseAddr remoteAddress end.

Definition trustedProxy (address : Addr) (trusted : list Prefix) : bool :=
  existsb (λ p, Prefix_Contains p address) trusted.

Definition clientIPForRateLimit (r : Request) (trusted : list Prefix) : string :=
  match parsePeerIP (Request_RemoteAddr r) with
  | None => Request_RemoteAddr r
  | Some peer =>
    let peer := Unmap peer in
    if trustedProxy peer trusted then
      match ParseAddr (TrimSpace (Request_Header r "CF-Connecting-IP")) with
      | Some forwarded => Addr_String (Unmap forwarded)
      | None => Addr_String peer
      end
    else Addr_String peer
  end.
End client_ip.

Definition Middleware : Type := (Request → Handler) → Request → Handler.

Section middleware.
Context `{GoRuntime, TokenLibrary, NetIP} (env : Env) (server : Server) (trusted : list Prefix).
Implicit Types (next : Request → Handler) (r : Request).

Definition tooMany (seconds : string) : Response :=
  retryAfter seconds (writeError 429 "rate_limited" "Too many requests.").

(** [if err != nil ... else if !allowed ...]: an answer of the limiter, refusing without one. *)
Definition admitted (seconds : string) (answer : res bool) : H unit :=
  match answer with
  | Err _ => respond dependencyUnavailable
  | Ok allowed => require allowed (tooMany seconds)
  end.

Definition rateLimit (namespace : string) (limit window : Z) (failClosed : bool) : Middleware :=
  λ next r,
  let host := clientIPForRateLimit r trusted in
  answer ← allow env (namespace +:+ ":" +:+ host) limit window;
  match answer with
  | Err _ => if failClosed then respond dependencyUnavailable else next r
  | Ok allowed => _ ← require allowed (tooMany "60"); next r
  end.

Definition rateLimitIdentity (namespace : string) (limit window : Z) : Middleware :=
  λ next r,
  let '(id, ok) := identityFrom r in
  _ ← require ok (writeDomainError ErrUnauthenticated);
  answer ← allow env (namespace +:+ ":" +:+ uuid_String (Identity_UserID id) +:+ ":"
                      +:+ uuid_String (Identity_DeviceID id)) limit window;
  _ ← admitted "60" answer; next r.

Definition rateLimitUser (namespace : string) (limit window : Z) : Middleware :=
  λ next r,
  let '(id, ok) := identityFrom r in
  _ ← require ok (writeDomainError ErrUnauthenticated);
  answer ← allow env (namespace +:+ ":" +:+ uuid_String (Identity_UserID id)) limit window;
  _ ← admitted (pretty (Z.max 1 (Z.quot window Second))) answer; next r.

Definition bearer : string := "Bearer ".

(** The text after ["Bearer "]. *)
Definition bearerToken r : string := TrimSpace (TrimPrefix (Request_Header r "Authorization") bearer).

(** The constant-time comparison of [protectMetrics] is equality. *)
Definition protectMetrics : Middleware :=
  λ next r,
  if bool_decide (Server_metricsToken server = "") then next r
  else
    _ ← require (HasPrefix (Request_Header r "Authorization") bearer) (writeDomainError ErrUnauthenticated);
    _ ← require (bool_decide (bearerToken r = Server_metricsToken server)) (writeDomainError ErrUnauthenticated);
    next r.

(** The three identifiers of the claims. *)
Definition claimedIdentity (claims : Claims) : option Identity :=
  userID ← uuid_Parse (Claims_Subject claims);
  deviceID ← uuid_Parse (Claims_DeviceID claims);
  sessionID ← uuid_Parse (Claims_SessionID claims);
  Some (mkIdentity userID deviceID sessionID).

(** The session check of the memory store does not fail. *)
Definition sessionActive (id : Identity) : H bool :=
  access env (λ clock s,
    (s, SessionActive s (Identity_SessionID id) (Identity_UserID id) (Identity_DeviceID id) clock)).

Definition authenticate : Middleware :=
  λ next r,
  _ ← require (HasPrefix (Request_Header r "Authorization") bearer) (writeDomainError ErrUnauthenticated);
  now ← timeNow env;
  claims ← orDomainError (ParseAccess (Server_tokens server) (bearerToken r) now);
  match claimedIdentity claims with
  | None => respond (writeDomainError ErrUnauthenticated)
  | Some id =>
    active ← sessionActive id;
    _ ← require active (writeDomainError ErrUnauthenticated);
    next (withIdentity r id)
  end.

(** ** What the gates guarantee *)

(** A record of questions to the limiter. *)
Definition only_asked (c : list Effect) : Prop :=
  Forall (λ e, match e with Limited _ _ _ _ => True | _ => False end) c.

(** At some moment the token of the request named this session, and the session was live. *)
Definition authorised r (id : Identity) (s : Store) : Prop :=
  ∃ now claims n,
    HasPrefix (Request_Header r "Authorization") bearer = true ∧
    ParseAccess (Server_tokens server) (bearerToken r) now = Ok claims ∧
    claimedIdentity claims = Some id ∧
    SessionActive s (Identity_SessionID id) (Identity_UserID id) (Identity_DeviceID id)
      (Env_time env n) = true.

(** Authentication either refuses with 401, having at most looked at the store, or finds the
    session live in its one access and hands the identity on. *)
Lemma replies_authenticate next r (Q : list Effect → Outcome unit → Prop) :
  (∀ c, Forall (λ e, ∃ s, e = Access s s) c → Q c (Done (writeDomainError ErrUnauthenticated))) →
  (∀ id s, authorised r id s → replies (next (withIdentity r id)) (λ c o, Q (Access s s :: c) o)) →
  replies (authenticate next r) Q.
Proof.
  intros Hno Hyes. unfold authenticate.
  apply replies_require_bind; [intros _; by apply Hno|]. intros Hbearer.
  apply replies_ask_bind. intros n.
  apply replies_orDomainError_bind.
  { intros e He. unfold ParseAccess in He. case_match; [done|]. injection He as <-. by apply Hno. }
  intros claims Hclaims. destruct (claimedIdentity claims) as [id|] eqn:Hid;
    [|by apply replies_respond, Hno].
  apply replies_access_bind. intros k s s' active [= <- <-].
  apply replies_require_bind; [intros _; apply Hno; repeat constructor; by eexists|]. intros Hactive.
  apply Hyes. by exists (Env_time env n 0), claims, k.
Qed.

Lemma replies_rateLimit namespace limit window failClosed next r (Q : list Effect → Outcome unit → Prop) :
  (∀ c, only_asked c → Q c (Done (tooMany "60"))) →
  (∀ c, only_asked c → Q c (Done dependencyUnavailable)) →
  (∀ e, only_asked [e] → replies (next r) (λ c o, Q (e :: c) o)) →
  replies (rateLimit namespace limit window failClosed next r) Q.
Proof.
  intros Hmany Hdown Hnext. unfold rateLimit, allow. apply replies_assoc, replies_ask_bind. intros n.
  apply replies_assoc, replies_record_bind, replies_ret_bind.
  assert (∀ a, only_asked [Limited (namespace +:+ ":" +:+ clientIPForRateLimit r trusted) limit window a])
    by (intros; by repeat constructor).
  destruct (Env_allow _ _ _ _ _) as [allowed|err].
  - apply replies_require_bind; intros _; [by apply Hmany|by apply Hnext].
  - destruct failClosed; [by apply replies_respond, Hdown|by apply Hnext].
Qed.

Lemma replies_limited key seconds limit window next r (Q : list Effect → Outcome unit → Prop) :
  (∀ c, only_asked c → Q c (Done (tooMany seconds))) →
  (∀ c, only_asked c → Q c (Done dependencyUnavailable)) →
  (∀ e, only_asked [e] → replies (next r) (λ c o, Q (e :: c) o)) →
  replies (answer ← allow env key limit window; _ ← admitted seconds answer; next r) Q.
Proof.
  intros Hmany Hdown Hnext. unfold allow. apply replies_assoc, replies_ask_bind. intros n.
  apply replies_assoc, replies_record_bind, replies_ret_bind.
  assert (∀ a, only_asked [Limited key limit window a]) by (intros; by repeat constructor).
  destruct (Env_allow _ _ _ _ _) as [allowed|err].
  - apply replies_require_bind; intros _; [by apply Hmany|by apply Hnext].
  - apply replies_respond_bind. by apply Hdown.
Qed.
End middleware.
