(* ===== verification/HttpAuth.v ===== *)
(** * Signing in and out, the profile, devices and keys

    The store-calling part of [src/internal/auth/tokens.go]; [src/internal/httpapi]:
    [auth_handlers.go], [account_deletion.go], [device_handlers.go] and the acceptance check
    of [compliance.go]. *)

From Stdlib Require Import ZArith Lia Ascii.
From S2P Require Import Prelude.
From S2P Require Import Runtime.
From S2P Require Import GoText.
From S2P Require Import Domain.
From S2P Require Import Compliance.
From S2P Require Import StoreState.
From S2P Require Import AuthTokens.
From S2P Require Import Accounts.
From S2P Require Import Devices.
From S2P Require Import Entities.
From S2P Require Import Media.
From S2P Require Import Anonymize.
From S2P Require Import Erasure.
From S2P Require Import Http.
From S2P Require Import Middleware.

Record credentialsRequest := mkcredentialsRequest {
  credentials_Legal : option Declaration; credentials_Email : string; credentials_Password : string;
  credentials_DisplayName : string; credentials_DeviceID : UUID; credentials_DeviceName : string;
  credentials_Platform : string }.

Record deviceRequest := mkdeviceRequest {
  deviceRequest_Name : string; deviceRequest_Platform : string; deviceRequest_PushToken : string;
  deviceRequest_IdentityKey : string; deviceRequest_SignedPreKey : RawMessage }.

(** ** Validation *)
Section validation.
Context `{GoRuntime, WireFormat}.

Definition validEmail (value : string) : bool :=
  match last_index "@"%char value with
  | None => false
  | Some at_ =>
    (0 <? Z.of_nat at_)%Z && (Z.of_nat at_ <? strlen value - 3)%Z
    && Contains (slice_from value at_) "." && (strlen value <=? 254)%Z
  end.

Definition validDeviceInfo (name platform : string) : bool :=
  (strlen name <=? 100)%Z && (bool_decide (platform = "") || MobilePlatform platform).

Definition validHexColor (value : string) : bool :=
  match value with
  | String c digits =>
    (strlen value =? 7)%Z && bool_decide (c = "#"%char) && bool_decide (is_Some (hex_DecodeString digits))
  | EmptyString => false
  end.

Definition validPushToken (token : string) : bool :=
  if bool_decide (token = "") then true
  else if (512 <? strlen token)%Z || negb (Z.rem (strlen token) 2 =? 0)%Z then false
  else bool_decide (is_Some (hex_DecodeString token)).

Definition validPlatformPushToken (platform token : string) : bool :=
  if bool_decide (platform = "ios") then validPushToken token
  else if negb (bool_decide (platform = "android")) then false
  else if (2048 <? strlen token)%Z then false
  else every_byte (λ n, (33 <=? n)%N && (n <=? 126)%N) token.

(** base64 with padding, or without. *)
Definition decodeBase64 (value : string) : option string :=
  match DecodeString StdEncoding value with
  | Some decoded => Some decoded
  | None => DecodeString RawStdEncoding value
  end.

Definition validEncodedKey (value : string) : bool :=
  if (strlen value <? 20)%Z || (1024 <? strlen value)%Z then false
  else match decodeBase64 value with
       | Some decoded => (16 <=? strlen decoded)%Z && (strlen decoded <=? 512)%Z
       | None => false
       end.

(** A number into a uint32: a literal without fraction in range. *)
Definition decode_uint32 (current : Z) (v : JSON) : option Z :=
  match v with
  | JNum m 0 => if (0 <=? m)%Z && (m <? 2 ^ 32)%Z then Some m else None
  | JNull => Some current
  | _ => None
  end.

Definition validSignedPreKey (value : RawMessage) : bool :=
  if (4096 <? raw_length value)%Z then false
  else
    match members ← raw_struct value;
          _ ← decode_field "key_id" decode_uint32 0%Z members;
          publicKey ← decode_field "public_key" decode_text "" members;
          signature ← decode_field "signature" decode_text "" members;
          Some (publicKey, signature) with
    | Some (publicKey, signature) => validEncodedKey publicKey && validEncodedKey signature
    | None => false
    end.

(** *** Profile patches *)

Definition profileKeys : list string :=
  ["display_name"; "contact_email"; "contact_phone"; "avatar_color"; "username"; "bio";
   "auto_settle_settings"; "profile_image_url"].

Definition protectedKeys : list string := ["id"; "email"; "phone"; "password"; "password_hash"; "avatar_url"].

(** [None] is the false of [optionalString]. *)
Definition optionalString (profile : gmap string JSON) (key : string) (maximum : Z) : option string :=
  match profile !! key with
  | None | Some JNull => Some ""
  | Some (JStr text) => if (strlen text <=? maximum)%Z then Some text else None
  | Some _ => None
  end.

Definition present (profile : gmap string JSON) (key : string) : bool :=
  match profile !! key with None | Some JNull => false | Some _ => true end.

Definition validProfilePatch (profile : gmap string JSON) : bool :=
  if bool_decide (size profile = 0) then false
  else if (32 * 2 ^ 10 <? raw_length (marshal_map profile))%Z then false
  else if negb (forallb (λ key, bool_decide (key ∈ profileKeys)) (range profile).*1) then false
  else
    match optionalString profile "display_name" 100, optionalString profile "contact_email" 254,
          optionalString profile "contact_phone" 32, optionalString profile "avatar_color" 7,
          optionalString profile "username" 31, optionalString profile "bio" 500,
          optionalString profile "profile_image_url" 2048 with
    | Some displayName, Some contactEmail, Some _, Some avatarColor, Some _, Some _, Some _ =>
      negb (present profile "display_name" && bool_decide (TrimSpace displayName = ""))
      && negb (negb (bool_decide (TrimSpace contactEmail = "")) && negb (validEmail (TrimSpace contactEmail)))
      && negb (negb (bool_decide (avatarColor = "")) && negb (validHexColor avatarColor))
      && match profile !! "auto_settle_settings" with
         | None | Some JNull | Some (JObj _) => true
         | Some _ => false
         end
    | _, _, _, _, _, _, _ => false
    end.

(** A username that is given and not blank has 3 to 30 bytes without its [@]. *)
Definition usernameFits (profile : gmap string JSON) : bool :=
  match profile !! "username" with
  | Some (JStr username) =>
    if bool_decide (TrimSpace username = "") then true
    else
      let normalized := ToLower (TrimPrefix (TrimSpace username) "@") in
      (3 <=? strlen normalized)%Z && (strlen normalized <=? 30)%Z
  | _ => true
  end.
End validation.

(** ** Token operations on the store *)
Section tokens.
Context `{GoRuntime, TokenLibrary} (env : Env) (m : TokenManager).

Definition IssueWithDevice (userID : UUID) (expectedPasswordHash : option string) (device : Device) :
    H (res (User * Device * TokenPair)) :=
  sessionID ← uuidNew env;
  random ← randRead env 48;
  match randomToken random with
  | Err e => mret (Err e)
  | Ok refreshSecret =>
    now ← timeNow env;
    let session := mkSession sessionID userID (Device_ID device) (refreshHash refreshSecret) ""
                     (now + TokenManager_refreshTTL m) None now in
    let params := mkSessionIssueParams userID (default "" expectedPasswordHash)
                    (bool_decide (is_Some expectedPasswordHash)) device session in
    issued ← access env (λ clock s, IssueSession s params clock);
    match issued with
    | Err e => mret (Err e)
    | Ok (user, persistedDevice) =>
      tokenID ← uuidNew env;
      match pair_ m userID (Device_ID persistedDevice) sessionID refreshSecret now tokenID with
      | Err e => mret (Err e)
      | Ok tokens => mret (Ok (user, persistedDevice, tokens))
      end
    end
  end.

Definition Refresh (refreshToken : string) : H (res TokenPair) :=
  match parseRefreshToken refreshToken with
  | Err _ => mret (Err ErrUnauthenticated)
  | Ok (sessionID, oldSecret) =>
    random ← randRead env 48;
    match randomToken random with
    | Err e => mret (Err e)
    | Ok newSecret =>
      now ← timeNow env;
      rotated ← access env (λ clock s,
        RotateSession s sessionID (refreshHash oldSecret) (refreshHash newSecret)
          (now + TokenManager_refreshTTL m) clock);
      match rotated with
      | Err _ => mret (Err ErrUnauthenticated)
      | Ok session =>
        tokenID ← uuidNew env;
        mret (pair_ m (Session_UserID session) (Session_DeviceID session) (Session_ID session)
                newSecret now tokenID)
      end
    end
  end.
End tokens.

(** ** Handlers *)
Section handlers.
Context `{GoRuntime, TokenLibrary, WireFormat, !AccountText} (env : Env) (server : Server).
Implicit Types (r : Request).

Definition newAuthDevice (userID deviceID : UUID) (name platform : string) : H Device :=
  deviceID ← (if bool_decide (deviceID = uuid_Nil) then uuidNew env else mret deviceID);
  let platform := if bool_decide (platform = "") then "ios" else platform in
  let name := if bool_decide (name = "")
              then (if bool_decide (platform = "android") then "Android" else "iPhone") else name in
  now ← timeNow env;
  mret (mkDevice deviceID userID name platform "" "" RawNil 0 now).

(** The declaration of a new account against the published policy. *)
Definition registrationAcceptance (d : option Declaration) : H (option Acceptance) :=
  if negb (Policy_Enabled (Server_legalRelease server)) then mret None
  else
    match d with
    | None => respond (writeError 422 "legal_acceptance_required"
        "Review the current terms and eligibility requirements before creating an account.")
    | Some d =>
      id ← uuidNew env;
      now ← timeNow env;
      let a := Declaration_Receipt d id now in
      match Acceptance_Validate a (Server_legalRelease server) with
      | Some _ => respond (writeError 422 "legal_acceptance_required"
          "Confirm eligibility, any required guardian permission, and agreement to the current terms.")
      | None => mret (Some a)
      end
    end.

Definition createUser (p : CreateUserParams) : H (res User) :=
  newID ← uuidNew env; access env (λ clock s, CreateUser s p newID clock).

Definition weakPassword (err : Error) : Response :=
  writeError 422 "weak_password" (match err with ErrOther message => message | _ => "" end).

Definition register (body : Decoded credentialsRequest) : Handler :=
  request ← decodeJSON body;
  acceptance ← registrationAcceptance (credentials_Legal request);
  let email := ToLower (TrimSpace (credentials_Email request)) in
  _ ← require (validEmail email && (strlen (credentials_DisplayName request) <=? 100)%Z
               && validDeviceInfo (credentials_DeviceName request) (credentials_Platform request))
        (writeDomainError ErrInvalid);
  salt ← randRead env 16;
  match HashPassword (credentials_Password request) salt with
  | Err err => respond (weakPassword err)
  | Ok hash =>
    created ← createUser (mkCreateUserParams acceptance email ""
                            (TrimSpace (credentials_DisplayName request)) hash);
    user ← orDomainError created;
    device ← newAuthDevice (User_ID user) uuid_Nil (credentials_DeviceName request) (credentials_Platform request);
    issued ← IssueWithDevice env (Server_tokens server) (User_ID user) None device;
    '(user, device, tokens) ← orDomainError issued;
    respond (writeJSON 201 (AuthBody user device tokens))
  end.

Definition invalidCredentials : Response :=
  writeError 401 "invalid_credentials" "The email or password is incorrect.".

Definition login (body : Decoded credentialsRequest) : Handler :=
  request ← decodeJSON body;
  _ ← require (validDeviceInfo (credentials_DeviceName request) (credentials_Platform request))
        (writeDomainError ErrInvalid);
  let email := ToLower (TrimSpace (credentials_Email request)) in
  let password := credentials_Password request in
  _ ← require (validEmail email && (10 <=? strlen password)%Z && (strlen password <=? 256)%Z) invalidCredentials;
  found ← look env (λ s, UserByEmail s email);
  let hash := match found with Ok user => User_PasswordHash user | Err _ => Server_dummyHash server end in
  let valid := VerifyPassword hash password in
  match found with
  | Err _ => respond invalidCredentials
  | Ok user =>
    _ ← require valid invalidCredentials;
    device ← newAuthDevice (User_ID user) (credentials_DeviceID request) (credentials_DeviceName request)
               (credentials_Platform request);
    issued ← IssueWithDevice env (Server_tokens server) (User_ID user) (Some (User_PasswordHash user)) device;
    match issued with
    | Err ErrUnauthenticated | Err ErrNotFound => respond invalidCredentials
    | Err e => respond (writeDomainError e)
    | Ok (user, device, tokens) => respond (writeJSON 200 (AuthBody user device tokens))
    end
  end.

Definition refresh (body : Decoded string) : Handler :=
  refreshToken ← decodeJSON body;
  refreshed ← Refresh env (Server_tokens server) refreshToken;
  tokens ← orDomainError refreshed;
  respond (writeJSON 200 (TokensBody tokens)).

(** [err != nil && !errors.Is(err, domain.ErrNotFound)] *)
Definition orNotFound (result : res unit) : H unit :=
  match result with
  | Ok _ | Err ErrNotFound => mret tt
  | Err e => respond (writeDomainError e)
  end.

Definition logout r : Handler :=
  let '(id, _) := identityFrom r in
  err ← publishSessionRevocation env (Identity_UserID id) (Some (Identity_SessionID id));
  match err with
  | Some _ => respond dependencyUnavailable
  | None =>
    deferred releaseSessionFence (
      revoked ← access env (λ clock s, RevokeSession s (Identity_SessionID id) (Identity_UserID id) clock);
      _ ← orNotFound revoked;
      cleared ← access env (λ _ s, ClearDevicePushToken s (Identity_UserID id) (Identity_DeviceID id));
      _ ← orNotFound cleared;
      respond noContent)
  end.

Definition me r : Handler :=
  let '(id, _) := identityFrom r in
  found ← look env (λ s, UserByID s (Identity_UserID id));
  user ← orDomainError found;
  respond (writeJSON 200 (UserBody user)).

Definition deleteAccount r : Handler :=
  let '(id, _) := identityFrom r in
  err ← publishSessionRevocation env (Identity_UserID id) None;
  match err with
  | Some _ => respond dependencyUnavailable
  | None =>
    deferred releaseSessionFence (
      err ← access env (λ clock s, deleteAccountLocked s (Identity_UserID id) clock);
      match err with
      | Some e => respond (writeDomainError e)
      | None => respond noContent
      end)
  end.

(** [validLegacyProfileMediaReference]: what the stored profile already says, or ready media
    the account owns. *)
Definition validLegacyProfileMediaReference (userID : UUID) (value : JSON) : H bool :=
  match value with
  | JNull => mret true
  | JStr reference =>
    if (2048 <? strlen reference)%Z then mret false
    else
      current ← look env (λ s, UserByID s userID);
      match current with
      | Err _ => mret false
      | Ok current =>
        let replayed :=
          match unmarshal_map (User_Profile current) with
          | None => false
          | Some existing =>
            match default ∅ existing !! "profile_image_url" with
            | Some (JStr stored) => bool_decide (reference = stored)
            | _ => bool_decide (reference = "")
            end
          end in
        if replayed then mret true
        else
          let reference := TrimSpace reference in
          if HasPrefix reference mediaReferencePrefix then
            match uuid_Parse (TrimPrefix reference mediaReferencePrefix) with
            | None => mret false
            | Some mediaID =>
              record ← look env (λ s, Media_ s mediaID userID);
              match record with
              | Ok record => mret (bool_decide (MediaObject_OwnerID record = userID)
                                   && bool_decide (MediaObject_Status record = "ready"))
              | Err _ => mret false
              end
            end
          else mret false
      end
  | _ => mret false
  end.

(** The body decodes into a map; [null] gives the empty one. *)
Definition updateProfile r (body : Decoded (gmap string JSON)) : Handler :=
  let '(id, _) := identityFrom r in
  profile ← decodeJSON body;
  _ ← require (negb (existsb (λ key, bool_decide (is_Some (profile !! key))) protectedKeys))
        (writeError 422 "protected_field" "Identity fields require a verified account flow.");
  _ ← require (validProfilePatch profile)
        (writeError 422 "invalid_profile" "One or more profile fields are invalid.");
  validReference ←
    match profile !! "profile_image_url" with
    | Some rawReference => validLegacyProfileMediaReference (Identity_UserID id) rawReference
    | None => mret true
    end;
  _ ← require validReference
        (writeError 422 "invalid_profile_media" "The profile image reference is invalid.");
  _ ← require (usernameFits profile)
        (writeError 422 "invalid_username" "Username must be 3–30 characters (letters, numbers, _ or .).");
  updated ← access env (λ clock s, UpdateUserProfile s (Identity_UserID id) (marshal_map profile) clock);
  match updated with
  | Err ErrConflict => respond (writeError 409 "username_taken" "That username is already taken.")
  | Err e => respond (writeDomainError e)
  | Ok user => respond (writeJSON 200 (UserBody user))
  end.

Definition listDevices r : Handler :=
  let '(id, _) := identityFrom r in
  devices ← look env (λ s, ListDevices s (Identity_UserID id));
  respond (writeJSON 200 (DevicesBody devices)).

(** [uuid.Parse(chi.URLParam(r, key))] *)
Definition pathID r (key : string) (err : Response) : H UUID :=
  match uuid_Parse (Request_URLParam r key) with Some id => mret id | None => respond err end.

Definition upsertDevice r (body : Decoded deviceRequest) : Handler :=
  let '(id, _) := identityFrom r in
  deviceID ← pathID r "deviceID" (writeDomainError ErrInvalid);
  _ ← require (bool_decide (deviceID = Identity_DeviceID id)) (writeDomainError ErrForbidden);
  request ← decodeJSON body;
  let pushToken := NormalizePushToken (deviceRequest_Platform request) (deviceRequest_PushToken request) in
  let identityKey := deviceRequest_IdentityKey request in
  let signedPreKey := deviceRequest_SignedPreKey request in
  let hasIdentityKey := negb (bool_decide (identityKey = "")) in
  let hasSignedPreKey := (0 <? raw_length signedPreKey)%Z in
  _ ← require (negb (bool_decide (TrimSpace (deviceRequest_Name request) = ""))
               && MobilePlatform (deviceRequest_Platform request)
               && (strlen (deviceRequest_Name request) <=? 100)%Z
               && validPlatformPushToken (deviceRequest_Platform request) pushToken
               && Bool.eqb hasIdentityKey hasSignedPreKey
               && (negb hasIdentityKey || validEncodedKey identityKey)
               && (negb hasSignedPreKey || validSignedPreKey signedPreKey))
        (writeDomainError ErrInvalid);
  newID ← uuidNew env;
  stored ← access env (λ clock s, UpsertDevice s
    (mkDevice deviceID (Identity_UserID id) (deviceRequest_Name request) (deviceRequest_Platform request)
       pushToken identityKey signedPreKey 0 0) newID clock);
  device ← orDomainError stored;
  respond (writeJSON 200 (DeviceBody device)).

(** *** Pre-keys *)

(** The keys are encoded and their ids differ. *)
Fixpoint validPreKeys (seen : gset Z) (keys : list OneTimePreKey) : bool :=
  match keys with
  | [] => true
  | key :: keys =>
    validEncodedKey (OneTimePreKey_PublicKey key)
    && negb (bool_decide (OneTimePreKey_KeyID key ∈ seen))
    && validPreKeys ({[ OneTimePreKey_KeyID key ]} ∪ seen) keys
  end.

Definition putPreKeys r (body : Decoded (list OneTimePreKey)) : Handler :=
  let '(id, _) := identityFrom r in
  deviceID ← pathID r "deviceID" (writeDomainError ErrInvalid);
  _ ← require (bool_decide (deviceID = Identity_DeviceID id)) (writeDomainError ErrForbidden);
  found ← look env (λ s, Device_ s (Identity_UserID id) deviceID);
  _ ← orDomainError found;
  keys ← decodeJSON body;
  _ ← require ((0 <? Z.of_nat (length keys))%Z && (Z.of_nat (length keys) <=? 1000)%Z) (writeDomainError ErrInvalid);
  _ ← require (validPreKeys ∅ keys) (writeDomainError ErrInvalid);
  stored ← access env (λ _ s, PutOneTimePreKeys s deviceID keys);
  _ ← orDomainError stored;
  respond noContent.

Definition claimPreKey r : Handler :=
  targetUserID ← pathID r "userID" (writeDomainError ErrInvalid);
  claimed ← access env (λ clock s, ClaimPreKeys s targetUserID clock);
  bundles ← orDomainError claimed;
  respond (writeJSON 200 (BundlesBody bundles)).

(** *** Account deletion with a recovery token *)

(** The canonical encoding of 32 bytes, hashed. *)
Definition accountDeletionTokenHash (value : string) : option string :=
  if negb (strlen value =? 43)%Z || occurs "=" value then None
  else
    match DecodeString RawURLEncoding value with
    | None => None
    | Some decoded =>
      if negb (strlen decoded =? 32)%Z || negb (bool_decide (EncodeToString RawURLEncoding decoded = value))
      then None else Some (sha256 value)
    end.

Definition putAccountDeletionIntent r (body : Decoded string) : Handler :=
  let '(id, _) := identityFrom r in
  requestID ← pathID r "requestID" (writeDomainError ErrInvalid);
  _ ← require (negb (bool_decide (requestID = uuid_Nil))) (writeDomainError ErrInvalid);
  recoveryToken ← decodeJSON body;
  match accountDeletionTokenHash recoveryToken with
  | None => respond (writeDomainError ErrInvalid)
  | Some tokenHash =>
    stored ← access env (λ clock s, PutAccountDeletionIntent s
      (mkAccountDeletionIntent requestID (Identity_UserID id) tokenHash "" 0 None) clock);
    _ ← orDomainError stored;
    respond noContent
  end.

(** The fence is called inside the critical section of the store; releasing a fence that was
    never set does nothing. *)
Definition executeAccountDeletionIntent r (body : Decoded string) : Handler :=
  requestID ← pathID r "requestID" (writeDomainError ErrNotFound);
  _ ← require (negb (bool_decide (requestID = uuid_Nil))) (writeDomainError ErrNotFound);
  recoveryToken ← decodeJSON body;
  match accountDeletionTokenHash recoveryToken with
  | None => respond (writeDomainError ErrNotFound)
  | Some tokenHash =>
    fence ← ask (λ n userID, Env_fence env n userID None);
    err ← access env (λ clock s, ExecuteAccountDeletionIntent s requestID tokenHash fence clock);
    deferred releaseSessionFence
      match err with
      | Some ErrNotFound => respond (writeDomainError ErrNotFound)
      | Some _ => respond dependencyUnavailable
      | None => respond noContent
      end
  end.
End handlers.
