(* ===== verification/HttpConversations.v ===== *)
(** * Conversations, messages, invitations and entities over HTTP

    [src/internal/httpapi]: [conversation_handlers.go], [entity_handlers.go],
    [chore_rotation.go], [invite_handlers.go], [presence_handlers.go] and [blocks.go]. *)

From Stdlib Require Import ZArith Lia Ascii.
From S2P Require Import Prelude.
From S2P Require Import Runtime.
From S2P Require Import GoText.
From S2P Require Import Domain.
From S2P Require Import Compliance.
From S2P Require Import StoreState.
From S2P Require Import AuthTokens.
From S2P Require Import Accounts.
From S2P Require Import Devices.
From S2P Require Import Projection.
From S2P Require Import Conversations.
From S2P Require Import Messages.
From S2P Require Import Entities.
From S2P Require Import Http.
From S2P Require Import Middleware.
From S2P Require Import HttpAuth.

(** Package time: times as RFC 3339 texts. *)
Class TimeText := {
  ParseRFC3339Nano : string → option Z;
  FormatRFC3339Nano : Z → string }.

(** The text [json.Marshal] writes for a document. *)
Class JSONText := { marshal_text : JSON → string }.

(** ** Requests *)

Record createConversationRequest := mkcreateConversationRequest {
  createConversation_ID : UUID; createConversation_Kind : string; createConversation_Title : string;
  createConversation_Metadata : RawMessage; createConversation_MemberIDs : list UUID;
  createConversation_MemberPhones : list string }.

Record lookupUsersRequest := mklookupUsersRequest {
  lookupUsers_Phones : list string; lookupUsers_Usernames : list string }.

Record addMemberRequest := mkaddMemberRequest { addMember_UserID : UUID; addMember_Role : string }.

Record createMessageRequest := mkcreateMessageRequest {
  createMessage_ID : UUID; createMessage_ClientMessageID : string; createMessage_ContentType : string;
  createMessage_Ciphertext : string; createMessage_Envelope : RawMessage;
  createMessage_ReplyToID : option UUID }.

Record putReceiptRequest := mkputReceiptRequest {
  putReceipt_DeliveredSeq : Z; putReceipt_ReadSeq : Z }.

Record createInviteRequest := mkcreateInviteRequest {
  createInvite_ExpiresInSeconds : option Z; createInvite_MaxUses : option Z }.

Record rotateChoreRequest := mkrotateChoreRequest {
  rotateChore_OperationID : UUID; rotateChore_ExpectedChoreVersion : Z;
  rotateChore_Chore : RawMessage; rotateChore_FeedItem : RawMessage }.

(** ** Parameters and validation *)
Section validation.
Context `{GoRuntime, WireFormat, TimeText}.

(** [e164Pattern], [^\+[1-9][0-9]{7,14}$]. *)
Definition e164 (phone : string) : bool :=
  match bytes_of phone with
  | plus :: first :: rest =>
    bool_decide (plus = "+"%char)
    && (49 <=? N_of_ascii first)%N && (N_of_ascii first <=? 57)%N
    && bool_decide (7 ≤ length rest ≤ 14) && forallb (λ c, digit (N_of_ascii c)) rest
  | _ => false
  end.

Fixpoint normalizePhones_loop (seen : gset string) (values : list string) : option (list string) :=
  match values with
  | [] => Some []
  | value :: values =>
    let phone := TrimSpace value in
    if negb (e164 phone) then None
    else if bool_decide (phone ∈ seen) then normalizePhones_loop seen values
    else result ← normalizePhones_loop ({[ phone ]} ∪ seen) values; Some (phone :: result)
  end.
Definition normalizePhones (values : list string) : option (list string) := normalizePhones_loop ∅ values.

Fixpoint uniqueIDs_loop (seen : gset UUID) (values : list UUID) : list UUID :=
  match values with
  | [] => []
  | value :: values =>
    if bool_decide (value = uuid_Nil) then uniqueIDs_loop seen values
    else if bool_decide (value ∈ seen) then uniqueIDs_loop seen values
    else value :: uniqueIDs_loop ({[ value ]} ∪ seen) values
  end.
Definition uniqueIDs (values : list UUID) : list UUID := uniqueIDs_loop ∅ values.

Definition parseTime (value : string) : Z := default 0%Z (ParseRFC3339Nano value).

Definition parseLimit (value : string) (fallback maximum : Z) : Z :=
  match ParseInt value with
  | Some parsed =>
    if (parsed <? 1)%Z then fallback else if (maximum <? parsed)%Z then maximum else parsed
  | None => fallback
  end.

Definition allowedContentType (value : string) : bool :=
  bool_decide (value ∈ ["text"; "image"; "video"; "audio"; "file"; "location"]).

Definition allowedEntityKinds : list string :=
  ["profile"; "expense"; "task"; "file"; "chore"; "feed_item"; "recurring_expense"; "settlement";
   "group_meta"; "payment_handles"; "trip_plan"; "trip_itinerary"; "we_were_here"; "check_in"].
Definition validEntityKind (kind : string) : bool := bool_decide (kind ∈ allowedEntityKinds).

Definition requestConversation (r : Request) : H (Identity * UUID) :=
  let '(id, ok) := identityFrom r in
  _ ← require ok (writeDomainError ErrUnauthenticated);
  conversationID ← pathID r "conversationID" (writeDomainError ErrInvalid);
  mret (id, conversationID).

Definition messagePageParams (r : Request) (conversationID userID : UUID) : res ListMessagesParams :=
  let query := Request_Query r in
  let limit := if bool_decide (query "limit" = "") then Some 100%Z
               else limit ← ParseInt (query "limit");
                    if (limit <? 1)%Z || (MaxMessagePageSize <? limit)%Z then None else Some limit in
  let optional key := if bool_decide (query key = "") then Some None else Some <$> ParseInt (query key) in
  match limit, optional "before_seq", optional "after_seq" with
  | Some limit, Some before, Some after =>
    let params := mkListMessagesParams conversationID userID before after limit in
    match ListMessagesParams_Validate params with Some e => Err e | None => Ok params end
  | _, _, _ => Err ErrInvalid
  end.

Definition requiredExpectedVersion (r : Request) : H Z :=
  match ParseInt (Request_Query r "expected_version") with
  | Some version =>
    if (version <? 0)%Z then respond (writeError 422 "expected_version_required"
      "expected_version is required and must match the current entity version; use 0 when creating.")
    else mret version
  | None => respond (writeError 422 "expected_version_required"
      "expected_version is required and must match the current entity version; use 0 when creating.")
  end.
End validation.

(** ** The envelope of an encrypted message *)

Record e2eeRecipient := mke2eeRecipient {
  e2eeRecipient_DeviceID : UUID; e2eeRecipient_KeyID : Z; e2eeRecipient_WrappedKey : string }.

Record e2eeMessageEnvelope := mke2eeMessageEnvelope {
  e2ee_Protocol : string; e2ee_Version : Z; e2ee_SenderIdentityKey : string;
  e2ee_SenderEphemeralKey : string; e2ee_Recipients : list e2eeRecipient; e2ee_Signature : string }.

Section envelope.
Context `{GoRuntime}.

Definition decodeEncodedBytes (value : string) (size : Z) : option string :=
  decoded ← decodeBase64 value;
  if (strlen decoded =? size)%Z then Some decoded else None.

Definition hasEncodedSize (value : string) (size : Z) : bool :=
  bool_decide (is_Some (decodeEncodedBytes value size)).

(** A number into an int. *)
Definition decode_int (current : Z) (v : JSON) : option Z :=
  match v with
  | JNum m 0 => if int64_in m then Some m else None
  | JNull => Some current
  | _ => None
  end.

Definition zeroRecipient : e2eeRecipient := mke2eeRecipient uuid_Nil 0 "".

Definition decode_recipient (current : e2eeRecipient) (v : JSON) : option e2eeRecipient :=
  match v with
  | JNull => Some current
  | JObj members =>
    deviceID ← decode_field "device_id" decode_uuid (e2eeRecipient_DeviceID current) members;
    keyID ← decode_field "key_id" decode_uint32 (e2eeRecipient_KeyID current) members;
    wrappedKey ← decode_field "wrapped_key" decode_text (e2eeRecipient_WrappedKey current) members;
    Some (mke2eeRecipient deviceID keyID wrappedKey)
  | _ => None
  end.

(** An array into a slice: an element is decoded over the one at its index, if any. *)
Definition decode_recipients (current : list e2eeRecipient) (v : JSON) : option (list e2eeRecipient) :=
  match v with
  | JNull => Some []
  | JArr items =>
    mapM (λ '(i, item), decode_recipient (default zeroRecipient (current !! i)) item)
      (zip (seq 0 (length items)) items)
  | _ => None
  end.

Definition decodeEnvelope (value : RawMessage) : option e2eeMessageEnvelope :=
  members ← raw_struct value;
  protocol ← decode_field "protocol" decode_text "" members;
  version ← decode_field "version" decode_int 0%Z members;
  senderIdentityKey ← decode_field "sender_identity_key" decode_text "" members;
  senderEphemeralKey ← decode_field "sender_ephemeral_key" decode_text "" members;
  recipients ← decode_field "recipients" decode_recipients [] members;
  signature ← decode_field "signature" decode_text "" members;
  Some (mke2eeMessageEnvelope protocol version senderIdentityKey senderEphemeralKey recipients signature).

Fixpoint validRecipients (seen : gset UUID) (recipients : list e2eeRecipient) : bool :=
  match recipients with
  | [] => true
  | recipient :: recipients =>
    negb (bool_decide (e2eeRecipient_DeviceID recipient = uuid_Nil)
          || (e2eeRecipient_KeyID recipient =? 0)%Z
          || negb (hasEncodedSize (e2eeRecipient_WrappedKey recipient) 60))
    && negb (bool_decide (e2eeRecipient_DeviceID recipient ∈ seen))
    && validRecipients ({[ e2eeRecipient_DeviceID recipient ]} ∪ seen) recipients
  end.

Definition parseE2EEEnvelope (value : RawMessage) : option e2eeMessageEnvelope :=
  match decodeEnvelope value with
  | None => None
  | Some envelope =>
    if negb (bool_decide (e2ee_Protocol envelope = "clixor-e2ee-v1"))
       || negb (e2ee_Version envelope =? 1)%Z
       || (Z.of_nat (length (e2ee_Recipients envelope)) =? 0)%Z
       || (4096 <? Z.of_nat (length (e2ee_Recipients envelope)))%Z
       || negb (hasEncodedSize (e2ee_SenderIdentityKey envelope) 32)
       || negb (hasEncodedSize (e2ee_SenderEphemeralKey envelope) 32)
       || negb (hasEncodedSize (e2ee_Signature envelope) 64)
    then None
    else if validRecipients ∅ (e2ee_Recipients envelope) then Some envelope else None
  end.

(** One object with the one member ["protocol"], its key compared exactly. *)
Definition validProduction05bTransitionEnvelope (value : RawMessage) : bool :=
  match value with
  | Raw (JObj [(key, JStr protocol)]) =>
    bool_decide (key = "protocol") && bool_decide (protocol = "clustr-transition-v1")
  | _ => false
  end.

Definition hasRecipient (e : e2eeMessageEnvelope) (deviceID : UUID) : bool :=
  existsb (λ recipient, bool_decide (e2eeRecipient_DeviceID recipient = deviceID)) (e2ee_Recipients e).
End envelope.

(** ** Handlers *)
Section handlers.
Context `{GoRuntime, TokenLibrary, WireFormat, TimeText, JSONText} (env : Env).
Implicit Types (r : Request).

(** *** Blocks *)

Definition listBlocks r : Handler :=
  let '(id, _) := identityFrom r in
  items ← look env (λ s, Blocks (Store_compliance s) (Identity_UserID id));
  respond (writeJSON 200 (BlocksBody items)).

Definition setBlock r : Handler :=
  let '(id, _) := identityFrom r in
  target ← pathID r "userID" (writeDomainError ErrInvalid);
  _ ← require (negb (bool_decide (target = Identity_UserID id))) (writeDomainError ErrInvalid);
  let put := bool_decide (Request_Method r = "PUT") in
  _ ← (if put then found ← look env (λ s, UserByID s target); _ ← orDomainError found; mret tt else mret tt);
  result ← access env (λ _ s,
    let '(m, result) := SetBlock (Store_compliance s) (Identity_UserID id) target put in
    (s <| Store_compliance := m |>, result));
  _ ← orDomainError result;
  respond noContent.

Definition communicationAllowed (a b : UUID) : H unit :=
  blocked ← look env (λ s, Blocked (Store_compliance s) a b);
  require (negb blocked) (writeDomainError ErrForbidden).

(** *** Conversations *)

(** Every other member is registered and neither blocks nor is blocked. *)
Fixpoint checkMembers (userID : UUID) (memberIDs : list UUID) : H unit :=
  match memberIDs with
  | [] => mret tt
  | memberID :: memberIDs =>
    if bool_decide (memberID = userID) then checkMembers userID memberIDs
    else
      _ ← communicationAllowed userID memberID;
      found ← look env (λ s, UserByID s memberID);
      _ ← orDomainError found;
      checkMembers userID memberIDs
  end.

Definition createConversation r (body : Decoded createConversationRequest) : Handler :=
  let '(id, _) := identityFrom r in
  request ← decodeJSON body;
  let kind := createConversation_Kind request in
  _ ← require (bool_decide (kind = "direct") || bool_decide (kind = "group")) (writeDomainError ErrInvalid);
  match normalizePhones (createConversation_MemberPhones request) with
  | None => respond (writeDomainError ErrInvalid)
  | Some phones =>
    _ ← require (negb ((1023 <? Z.of_nat (length (createConversation_MemberIDs request) + length phones))%Z
                       || (200 <? strlen (createConversation_Title request))%Z
                       || (256 * 2 ^ 10 <? raw_length (createConversation_Metadata request))%Z))
          (writeDomainError ErrInvalid);
    users ← look env (λ s, UsersByPhones s phones);
    let invitePhones := List.filter (λ phone, negb (bool_decide (phone ∈ User_Phone <$> users))) phones in
    let memberIDs := uniqueIDs (createConversation_MemberIDs request ++ (User_ID <$> users)) in
    let direct := bool_decide (kind = "direct") in
    _ ← require (negb (direct && (negb (bool_decide (length memberIDs = 1))
                                  || negb (bool_decide (length invitePhones = 0)))))
          (writeError 422 "direct_recipient_unavailable" "A direct conversation requires one registered recipient.");
    _ ← require (negb (direct && bool_decide (memberIDs !! 0 = Some (Identity_UserID id))))
          (writeDomainError ErrInvalid);
    _ ← checkMembers (Identity_UserID id) memberIDs;
    newID ← uuidNew env;
    created ← access env (λ clock s, CreateConversation s
      (mkCreateConversationParams (createConversation_ID request) kind
         (TrimSpace (createConversation_Title request)) (createConversation_Metadata request)
         (Identity_UserID id) memberIDs invitePhones) newID clock);
    conversation ← orDomainError created;
    respond (writeJSON 201 (ConversationBody conversation))
  end.

Definition updateConversation r (body : Decoded UpdateConversationParams) : Handler :=
  '(id, conversationID) ← requestConversation r;
  request ← decodeJSON body;
  let title := TrimSpace <$> UpdateConversationParams_Title request in
  let avatarURL := UpdateConversationParams_AvatarURL request in
  let metadata := UpdateConversationParams_Metadata request in
  _ ← require (bool_decide (is_Some title) || bool_decide (is_Some avatarURL) || bool_decide (is_Some metadata))
        (writeDomainError ErrInvalid);
  let exceeds {A} (length : A → Z) (value : option A) (maximum : Z) :=
    match value with Some x => (maximum <? length x)%Z | None => false end in
  _ ← require (negb (exceeds strlen title 200%Z || exceeds strlen avatarURL 2048%Z
                     || exceeds raw_length metadata (256 * 2 ^ 10)%Z))
        (writeDomainError ErrInvalid);
  updated ← access env (λ clock s, UpdateConversation s conversationID (Identity_UserID id)
    (mkUpdateConversationParams title avatarURL metadata) clock);
  conversation ← orDomainError updated;
  respond (writeJSON 200 (ConversationBody conversation)).

(** [recipients, _ := s.store.ConversationMemberIDs(...)] *)
Definition recipientsOf (conversationID : UUID) : H (list UUID) :=
  ids ← look env (λ s, ConversationMemberIDs s conversationID);
  mret (match ids with Ok ids => ids | Err _ => [] end).

Definition publishEvent (type : string) (conversationID : UUID) (payload : list (string * UUID))
    (recipients : list UUID) : H unit :=
  id ← uuidNew env;
  now ← timeNow env;
  publish recipients (mkHttpEvent (uuid_String id) type conversationID payload now).

Definition publishMembershipEvent r (conversationID : UUID) (recipients : list UUID) (eventType : string)
    (subjectID : UUID) : H unit :=
  let '(id, _) := identityFrom r in
  publishEvent eventType conversationID [("actor_id", Identity_UserID id); ("user_id", subjectID)] recipients.

Definition deleteConversation r : Handler :=
  '(id, conversationID) ← requestConversation r;
  recipients ← recipientsOf conversationID;
  deleted ← access env (λ clock s, DeleteConversation s conversationID (Identity_UserID id) clock);
  _ ← orDomainError deleted;
  _ ← publishEvent "conversation.deleted" conversationID [("conversation_id", conversationID)] recipients;
  respond noContent.

Definition getConversation r : Handler :=
  '(id, conversationID) ← requestConversation r;
  found ← look env (λ s, Conversation_ s conversationID (Identity_UserID id));
  conversation ← orDomainError found;
  respond (writeJSON 200 (ConversationBody conversation)).

Definition listConversations r : Handler :=
  let '(id, _) := identityFrom r in
  let before := parseTime (Request_Query r "before") in
  let limit := parseLimit (Request_Query r "limit") 50 100 in
  items ← look env (λ s, ListConversations s (Identity_UserID id) before limit);
  let next := if (Z.of_nat (length items) =? limit)%Z
              then match last items with
                   | Some c => FormatRFC3339Nano (Conversation_UpdatedAt c) | None => "" end
              else "" in
  respond (writeJSON 200 (ConversationsBody items next)).

Definition listMembers r : Handler :=
  '(id, conversationID) ← requestConversation r;
  found ← look env (λ s, ListConversationMembers s conversationID (Identity_UserID id));
  items ← orDomainError found;
  respond (writeJSON 200 (MembersBody items)).

Definition addMember r (body : Decoded addMemberRequest) : Handler :=
  '(id, conversationID) ← requestConversation r;
  request ← decodeJSON body;
  let role := if bool_decide (addMember_Role request = "") then "member" else addMember_Role request in
  let userID := addMember_UserID request in
  _ ← require (bool_decide (role = "member") || bool_decide (role = "admin")) (writeDomainError ErrInvalid);
  found ← look env (λ s, UserByID s userID);
  _ ← orDomainError found;
  _ ← communicationAllowed (Identity_UserID id) userID;
  added ← access env (λ clock s,
    AddConversationMember s conversationID (Identity_UserID id) userID role clock);
  _ ← orDomainError added;
  recipients ← recipientsOf conversationID;
  _ ← publishMembershipEvent r conversationID recipients "member.added" userID;
  respond noContent.

Definition removeConversationMember r (conversationID actorID userID : UUID) : Handler :=
  recipients ← recipientsOf conversationID;
  removed ← access env (λ clock s, RemoveConversationMember s conversationID actorID userID clock);
  _ ← orDomainError removed;
  _ ← publishMembershipEvent r conversationID recipients "member.removed" userID;
  respond noContent.

Definition removeMember r : Handler :=
  '(id, conversationID) ← requestConversation r;
  userID ← pathID r "userID" (writeDomainError ErrInvalid);
  removeConversationMember r conversationID (Identity_UserID id) userID.

Definition removeSelfMember r : Handler :=
  '(id, conversationID) ← requestConversation r;
  removeConversationMember r conversationID (Identity_UserID id) (Identity_UserID id).

(** The body is the user it names. *)
Definition transferOwner r (body : Decoded UUID) : Handler :=
  '(id, conversationID) ← requestConversation r;
  userID ← decodeJSON body;
  _ ← require (negb (bool_decide (userID = uuid_Nil))) (writeDomainError ErrInvalid);
  transferred ← access env (λ clock s,
    TransferConversationOwnership s conversationID (Identity_UserID id) userID clock);
  _ ← orDomainError transferred;
  recipients ← recipientsOf conversationID;
  _ ← publishMembershipEvent r conversationID recipients "owner.transferred" userID;
  respond noContent.

(** *** Finding people *)

Definition appendUser (includePhone : bool) (acc : list PublicUser * gmap UUID nat) (user : User) :
    list PublicUser * gmap UUID nat :=
  let '(users, seen) := acc in
  let public := PublicUserFromUser user includePhone in
  match seen !! User_ID user with
  | Some index =>
    if includePhone
    then (alter (λ u, u <| PublicUser_MatchedPhone := PublicUser_MatchedPhone public |>) index users, seen)
    else (users, seen)
  | None => (users ++ [public], <[User_ID user := length users]> seen)
  end.

Definition lookupUsers (body : Decoded lookupUsersRequest) : Handler :=
  request ← decodeJSON body;
  let phones := lookupUsers_Phones request in
  let usernames := lookupUsers_Usernames request in
  _ ← require (negb (bool_decide (length phones = 0) && bool_decide (length usernames = 0)))
        (writeDomainError ErrInvalid);
  byPhone ← (
    if bool_decide (length phones = 0) then mret []
    else match normalizePhones phones with
         | None => respond (writeDomainError ErrInvalid)
         | Some phones =>
           _ ← require (Z.of_nat (length phones) <=? 1024)%Z (writeDomainError ErrInvalid);
           look env (λ s, UsersByPhones s phones)
         end);
  byUsername ← (
    if bool_decide (length usernames = 0) then mret []
    else
      _ ← require (Z.of_nat (length usernames) <=? 1024)%Z (writeDomainError ErrInvalid);
      look env (λ s, UsersByUsernames s usernames));
  let found := foldl (appendUser false) (foldl (appendUser true) ([], ∅) byPhone) byUsername in
  respond (writeJSON 200 (UsersBody (fst found))).

Definition searchUsers r : Handler :=
  let query := TrimSpace (Request_Query r "q") in
  _ ← require (negb (bool_decide (query = ""))) (writeDomainError ErrInvalid);
  let raw := TrimSpace (Request_Query r "limit") in
  let limit := if bool_decide (raw = "") then 20%Z else default 20%Z (ParseInt raw) in
  users ← look env (λ s, SearchUsersByUsername s query limit);
  respond (writeJSON 200 (UsersBody ((λ user, PublicUserFromUser user false) <$> users))).

Definition getPresence r : Handler :=
  let '(id, _) := identityFrom r in
  targetUserID ← pathID r "userID" (writeDomainError ErrInvalid);
  _ ← (if bool_decide (targetUserID = Identity_UserID id) then mret tt
       else
         shared ← look env (λ s, UsersShareConversation s (Identity_UserID id) targetUserID);
         require shared (writeDomainError ErrForbidden));
  online ← ask (λ n, Env_online env n targetUserID);
  match online with
  | Err _ => respond (writeError 503 "presence_unavailable" "Presence is temporarily unavailable.")
  | Ok online => respond (writeJSON 200 (OnlineBody online))
  end.

(** *** Messages and receipts *)

(** The identity key of the envelope is the one the sending device has registered. *)
Definition checkEnvelope (id : Identity) (envelope : e2eeMessageEnvelope) : H unit :=
  found ← look env (λ s, Device_ s (Identity_UserID id) (Identity_DeviceID id));
  device ← orDomainError found;
  match decodeEncodedBytes (Device_IdentityKey device) 32 with
  | None => respond (writeError 409 "e2ee_device_not_ready"
      "Publish this device's encryption identity before sending messages.")
  | Some registeredIdentity =>
    _ ← require (bool_decide (decodeEncodedBytes (e2ee_SenderIdentityKey envelope) 32 = Some registeredIdentity))
          (writeError 422 "e2ee_identity_mismatch" "The message identity does not match the authenticated device.");
    require (hasRecipient envelope (Identity_DeviceID id))
      (writeError 422 "e2ee_sender_not_recipient" "The sending device must be able to decrypt its sent message.")
  end.

Definition createMessage r (body : Decoded createMessageRequest) : Handler :=
  '(id, conversationID) ← requestConversation r;
  request ← decodeJSON body;
  messageID ← (if bool_decide (createMessage_ID request = uuid_Nil) then uuidNew env
               else mret (createMessage_ID request));
  let value := createMessage_Envelope request in
  let envelope := parseE2EEEnvelope value in
  let clientMessageID := createMessage_ClientMessageID request in
  let ciphertext := createMessage_Ciphertext request in
  _ ← require (negb ((strlen clientMessageID <? 8)%Z || (128 <? strlen clientMessageID)%Z
                     || (strlen ciphertext =? 0)%Z || (2 * 2 ^ 20 <? strlen ciphertext)%Z
                     || (raw_length value =? 0)%Z || (2 ^ 20 <? raw_length value)%Z
                     || negb (allowedContentType (createMessage_ContentType request))
                     || (negb (bool_decide (is_Some envelope))
                         && negb (validProduction05bTransitionEnvelope value))))
        (writeDomainError ErrInvalid);
  _ ← require (bool_decide (is_Some (DecodeString StdEncoding ciphertext)))
        (writeError 422 "invalid_ciphertext" "Ciphertext must be base64 encoded.");
  _ ← match envelope with Some envelope => checkEnvelope id envelope | None => mret tt end;
  newID ← uuidNew env;
  created ← access env (λ clock s, CreateMessage s
    (mkCreateMessageParams messageID clientMessageID conversationID (Identity_UserID id)
       (Identity_DeviceID id) (createMessage_ContentType request) ciphertext value
       (createMessage_ReplyToID request)) newID clock);
  '(message, _) ← orDomainError created;
  respond (writeJSON 201 (MessageBody message)).

Definition listMessages r : Handler :=
  '(id, conversationID) ← requestConversation r;
  params ← orDomainError (messagePageParams r conversationID (Identity_UserID id));
  listed ← look env (λ s, ListMessages s params);
  items ← orDomainError listed;
  let edge := if bool_decide (is_Some (ListMessagesParams_AfterSeq params)) then last items else head items in
  let next := if (Z.of_nat (length items) =? ListMessagesParams_Limit params)%Z
              then match edge with Some m => pretty (Message_Seq m) | None => "" end else "" in
  respond (writeJSON 200 (MessagesBody items next)).

Definition putReceipt r (body : Decoded putReceiptRequest) : Handler :=
  '(id, conversationID) ← requestConversation r;
  request ← decodeJSON body;
  let delivered := putReceipt_DeliveredSeq request in
  let read := putReceipt_ReadSeq request in
  _ ← require (negb ((delivered <? 0)%Z || (read <? 0)%Z || (delivered <? read)%Z)) (writeDomainError ErrInvalid);
  found ← look env (λ s, Conversation_ s conversationID (Identity_UserID id));
  conversation ← orDomainError found;
  _ ← require (delivered <=? Conversation_LastSeq conversation)%Z (writeDomainError ErrInvalid);
  stored ← access env (λ clock s,
    UpsertReceipt s (mkReceipt conversationID (Identity_UserID id) delivered read 0) clock);
  receipt ← orDomainError stored;
  respond (writeJSON 200 (ReceiptBody receipt)).

Definition listReceipts r : Handler :=
  '(id, conversationID) ← requestConversation r;
  listed ← look env (λ s, ListReceipts s conversationID (Identity_UserID id));
  receipts ← orDomainError listed;
  respond (writeJSON 200 (ReceiptsBody receipts)).

(** *** Entities *)

Definition putEntity r (body : Decoded RawMessage) : Handler :=
  '(id, conversationID) ← requestConversation r;
  let kind := Request_URLParam r "kind" in
  entityID ← pathID r "entityID" (writeDomainError ErrInvalid);
  _ ← require (validEntityKind kind) (writeDomainError ErrInvalid);
  payload ← decodeJSON body;
  expectedVersion ← requiredExpectedVersion r;
  stored ← access env (λ clock s, PutEntity s
    (mkEntity conversationID kind entityID 0 payload (Identity_UserID id) 0 0 None)
    (Some expectedVersion) clock);
  entity ← orDomainError stored;
  respond (writeJSON 200 (EntityBody entity)).

Definition listEntities r : Handler :=
  '(id, conversationID) ← requestConversation r;
  let kind := Request_URLParam r "kind" in
  _ ← require (validEntityKind kind) (writeDomainError ErrInvalid);
  let since := parseTime (Request_Query r "since") in
  let limit := parseLimit (Request_Query r "limit") 100 1000 in
  listed ← look env (λ s, ListEntities s conversationID (Identity_UserID id) kind since limit);
  items ← orDomainError listed;
  let next := if (Z.of_nat (length items) =? limit)%Z
              then match last items with
                   | Some e => FormatRFC3339Nano (Entity_UpdatedAt e) | None => "" end
              else "" in
  respond (writeJSON 200 (EntitiesBody items next)).

Definition deleteEntity r : Handler :=
  '(id, conversationID) ← requestConversation r;
  let kind := Request_URLParam r "kind" in
  entityID ← pathID r "entityID" (writeDomainError ErrInvalid);
  _ ← require (validEntityKind kind) (writeDomainError ErrInvalid);
  expectedVersion ← requiredExpectedVersion r;
  deleted ← access env (λ clock s,
    DeleteEntity s conversationID (Identity_UserID id) kind entityID (Some expectedVersion) clock);
  _ ← orDomainError deleted;
  respond noContent.

(** *** Chore rotation *)

Definition writeRotateChoreError (err : Error) : Response :=
  match err with
  | ErrInvalid => writeError 400 "invalid_input" "One or more fields are invalid."
  | _ => writeDomainError err
  end.

(** A field that only has to decode. *)
Definition decode_uuids (current : list UUID) (v : JSON) : option (list UUID) :=
  match v with
  | JNull => Some []
  | JArr items =>
    mapM (λ '(i, item), decode_uuid (default uuid_Nil (current !! i)) item)
      (zip (seq 0 (length items)) items)
  | _ => None
  end.

Definition rotationPayloadBindings (chore feed : RawMessage) (conversationID choreID operationID : UUID) : bool :=
  match members ← raw_struct chore;
        id ← decode_field "id" decode_uuid uuid_Nil members;
        groupID ← decode_field "groupId" decode_uuid uuid_Nil members;
        _ ← decode_field "rotateOrder" decode_uuids [] members;
        _ ← decode_field "assignedTo" decode_uuid_pointer None members;
        Some (id, groupID),
        members ← raw_struct feed;
        id ← decode_field "id" decode_uuid uuid_Nil members;
        groupID ← decode_field "groupId" decode_uuid uuid_Nil members;
        relatedID ← decode_field "relatedId" decode_uuid_pointer None members;
        type ← decode_field "type" decode_text "" members;
        Some (id, groupID, relatedID, type) with
  | Some (choreID', choreGroup), Some (feedID, feedGroup, relatedID, type) =>
    bool_decide (choreID' = choreID) && bool_decide (choreGroup = conversationID)
    && bool_decide (feedID = operationID) && bool_decide (feedGroup = conversationID)
    && bool_decide (relatedID = Some choreID) && bool_decide (type = "note")
  | _, _ => false
  end.

(** [json.Marshal] of a raw message: [null] for a nil one. *)
Definition marshal_raw (raw : RawMessage) : JSON := match raw with Raw v => v | _ => JNull end.

(** [canonical, _ := json.Marshal(req)] *)
Definition marshalRotation (request : rotateChoreRequest) : string :=
  marshal_text (JObj
    [("operation_id", JStr (uuid_String (rotateChore_OperationID request)));
     ("expected_chore_version", JNum (rotateChore_ExpectedChoreVersion request) 0);
     ("chore", marshal_raw (rotateChore_Chore request));
     ("feed_item", marshal_raw (rotateChore_FeedItem request))]).

Definition rotateChore r (body : Decoded rotateChoreRequest) : Handler :=
  '(id, conversationID) ← requestConversation r;
  choreID ← pathID r "choreID" (writeRotateChoreError ErrInvalid);
  request ← decodeJSON body;
  let operationID := rotateChore_OperationID request in
  _ ← require (negb (bool_decide (operationID = uuid_Nil) || (rotateChore_ExpectedChoreVersion request <? 1)%Z
                     || negb (rotationPayloadBindings (rotateChore_Chore request) (rotateChore_FeedItem request)
                                conversationID choreID operationID)))
        (writeRotateChoreError ErrInvalid);
  rotated ← access env (λ clock s, RotateChore s
    (mkRotateChoreParams operationID conversationID choreID (Identity_UserID id)
       (rotateChore_ExpectedChoreVersion request) (rotateChore_Chore request)
       (rotateChore_FeedItem request) (sha256 (marshalRotation request))) clock);
  match rotated with
  | Err e => respond (writeRotateChoreError e)
  | Ok result => respond (writeJSON 200 (RotationBody result))
  end.

(** *** Invitation links *)

Definition conversationInviteTokenPrefix : string := "cinv_".
Definition conversationInviteTokenBytes : nat := 32.
Definition defaultInviteExpiration : Z := 7 * 24 * Hour.
Definition minimumInviteExpiration : Z := 5 * Minute.
Definition maximumInviteExpiration : Z := 30 * 24 * Hour.
Definition defaultConversationInviteMaxUses : Z := 25.
Definition maximumConversationInviteMaxUses : Z := 1000.

Definition generateConversationInviteToken (random : option string) : option string :=
  random ← random; Some (conversationInviteTokenPrefix +:+ EncodeToString RawURLEncoding random).

Definition conversationInviteTokenHash (rawToken : string) : option string :=
  if negb (HasPrefix rawToken conversationInviteTokenPrefix) then None
  else
    let encoded := TrimPrefix rawToken conversationInviteTokenPrefix in
    match DecodeString RawURLEncoding encoded with
    | None => None
    | Some decoded =>
      if negb (bool_decide (String.length decoded = conversationInviteTokenBytes))
         || negb (bool_decide (EncodeToString RawURLEncoding decoded = encoded))
      then None else Some (sha256 rawToken)
    end.

(** [for attempt := 0; attempt < 3; attempt++]; [fuel] counts the attempts left and [err] is
    the conflict of the last one. *)
Fixpoint createInvite_attempts (fuel : nat) (conversationID actorID : UUID) (expiresIn maxUses : Z)
    (err : Error) : H (string * ConversationInvite) :=
  match fuel with
  | O => respond (writeDomainError err)
  | S fuel =>
    random ← randRead env conversationInviteTokenBytes;
    match generateConversationInviteToken random with
    | None => respond (writeError 500 "internal_error" "An internal error occurred.")
    | Some rawToken =>
      now ← timeNow env;
      newID ← uuidNew env;
      created ← access env (λ clock s, CreateConversationInvite s
        (mkCreateConversationInviteParams uuid_Nil conversationID actorID
           (default "" (conversationInviteTokenHash rawToken)) (now + expiresIn) maxUses) newID clock);
      match created with
      | Ok invite => mret (rawToken, invite)
      | Err ErrConflict => createInvite_attempts fuel conversationID actorID expiresIn maxUses ErrConflict
      | Err e => respond (writeDomainError e)
      end
    end
  end.

Definition createConversationInvite r (body : Decoded createInviteRequest) : Handler :=
  '(id, conversationID) ← requestConversation r;
  request ← (if (Request_ContentLength r =? 0)%Z then mret (mkcreateInviteRequest None None)
             else decodeJSON body);
  let expiresInSeconds := createInvite_ExpiresInSeconds request in
  _ ← require (match expiresInSeconds with
               | Some n => negb ((n <? Z.quot minimumInviteExpiration Second)%Z
                                 || (Z.quot maximumInviteExpiration Second <? n)%Z)
               | None => true
               end) (writeDomainError ErrInvalid);
  let expiresIn := match expiresInSeconds with
                   | Some n => (n * Second)%Z | None => defaultInviteExpiration end in
  let maxUses := default defaultConversationInviteMaxUses (createInvite_MaxUses request) in
  _ ← require (negb ((maxUses <? 1)%Z || (maximumConversationInviteMaxUses <? maxUses)%Z))
        (writeDomainError ErrInvalid);
  '(rawToken, invite) ← createInvite_attempts 3 conversationID (Identity_UserID id) expiresIn maxUses ErrConflict;
  respond (writeJSON 201 (InviteBody rawToken invite)).

Definition conversationInviteTokenFromBody (body : Decoded string) : H string :=
  token ← decodeJSON body;
  match conversationInviteTokenHash token with
  | Some tokenHash => mret tokenHash
  | None => respond (writeDomainError ErrNotFound)
  end.

Definition getConversationInvite r (body : Decoded string) : Handler :=
  let '(id, _) := identityFrom r in
  tokenHash ← conversationInviteTokenFromBody body;
  found ← access env (λ clock s, (s, ConversationInvitePreview_ s tokenHash (Identity_UserID id) clock));
  preview ← orDomainError found;
  respond (writeJSON 200 (PreviewBody preview)).

Definition acceptConversationInvite r (body : Decoded string) : Handler :=
  let '(id, _) := identityFrom r in
  tokenHash ← conversationInviteTokenFromBody body;
  result ← access env (λ clock s, AcceptConversationInvite s tokenHash (Identity_UserID id) clock);
  accepted ← orDomainError result;
  _ ← (if ConversationInviteAcceptance_Joined accepted then
         let conversationID := Conversation_ID (ConversationInviteAcceptance_Conversation accepted) in
         recipients ← recipientsOf conversationID;
         publishMembershipEvent r conversationID recipients "member.added" (Identity_UserID id)
       else mret tt);
  respond (writeJSON 200 (AcceptedBody accepted)).

Definition revokeConversationInvite r : Handler :=
  '(id, conversationID) ← requestConversation r;
  inviteID ← pathID r "inviteID" (writeDomainError ErrInvalid);
  revoked ← access env (λ clock s, RevokeConversationInvite s conversationID (Identity_UserID id) inviteID clock);
  _ ← orDomainError revoked;
  respond noContent.
End handlers.
