(* ===== verification/HttpMedia.v ===== *)
(** * Media uploads and downloads over HTTP

    [src/internal/httpapi/media_handlers.go] over the media service of
    [src/internal/media/media.go], whose OCI and S3 implementations are functions of the
    environment.

    [HttpMediaFacts] shows that the handler that completes an upload makes an object ready only
    after the media service has verified and published it. *)

From Stdlib Require Import ZArith Lia Ascii.
From S2P Require Import Prelude.
From S2P Require Import Runtime.
From S2P Require Import GoText.
From S2P Require Import Domain.
From S2P Require Import Compliance.
From S2P Require Import MediaKey.
From S2P Require Import StoreState.
From S2P Require Import AuthTokens.
From S2P Require Import Accounts.
From S2P Require Import Conversations.
From S2P Require Import Media.
From S2P Require Import Http.
From S2P Require Import Middleware.
From S2P Require Import HttpAuth.
From S2P Require Import HttpConversations.

(** ** The media service *)

Inductive MediaError :=
  | ErrUnavailable
  | ErrUploadMissing
  | ErrVerificationMismatch
  | MediaFailure (message : string).

Inductive media_res (A : Type) :=
  | MediaOk (value : A)
  | MediaErr (e : MediaError).
Arguments MediaOk {A} value.
Arguments MediaErr {A} e.

Definition IsDefinitiveVerificationFailure (e : MediaError) : bool :=
  match e with ErrUploadMissing | ErrVerificationMismatch => true | _ => false end.

Record UploadInstructions := mkUploadInstructions {
  UploadInstructions_Method : string; UploadInstructions_URL : option string;
  UploadInstructions_Headers : list (string * string); UploadInstructions_RevocationToken : string }.

(** [n] counts the accesses of the request; [slot] is whether a verification slot became free
    before the request ended. *)
Record MediaService := mkMediaService {
  PrepareUpload : nat → string → string → Z → string → Z → media_res UploadInstructions;
  DownloadURL : nat → string → Z → media_res string;
  FinalizeUpload : nat → string → string → Z → string → string → media_res string;
  MediaService_slot : nat → bool }.

Definition UnavailableMedia : MediaService :=
  mkMediaService (λ _ _ _ _ _ _, MediaErr ErrUnavailable) (λ _ _ _, MediaErr ErrUnavailable)
    (λ _ _ _ _ _ _, MediaErr ErrUnavailable) (λ _, true).

Record mediaUploadRequest := mkmediaUploadRequest {
  mediaUpload_ByteSize : Z; mediaUpload_CiphertextSHA256 : string; mediaUpload_ContentType : string }.

(** ** Validation *)
Section validation.
Context `{GoRuntime}.

Definition validSHA256 (value : string) : bool :=
  match hex_DecodeString value with Some decoded => (strlen decoded =? 32)%Z | None => false end.

Definition contentTypeChar (n : N) : bool :=
  ((97 <=? n) && (n <=? 122) || (48 <=? n) && (n <=? 57)
   || (n =? 47) || (n =? 45) || (n =? 43) || (n =? 46))%N.

Definition normalizedContentType (value fallback : string) : string :=
  let value := match cut ";"%char value with Some (first, _) => first | None => value end in
  let value := ToLower (TrimSpace value) in
  let value := if bool_decide (value = "") then fallback else value in
  if (100 <? strlen value)%Z || negb (Contains value "/") then ""
  else if every_byte contentTypeChar value then value else "".
End validation.

(** ** Handlers *)
Section handlers.
Context `{GoRuntime, TokenLibrary, WireFormat, TimeText} (env : Env) (server : Server) (service : MediaService).
Implicit Types (r : Request) (record : MediaObject).

(** A call of the media service. *)
Definition call_media {A} (name objectKey : string) (show : A → option string) (f : nat → media_res A) :
    H (media_res A) :=
  result ← ask f;
  _ ← Http.record (MediaCalled name objectKey (match result with MediaOk x => show x | MediaErr _ => None end));
  mret result.

Definition internalError (message : string) : Response := writeDomainError (ErrOther message).

(** [_, _ = s.store.RejectPendingMedia(...)] *)
Definition rejectReservation (id ownerID : UUID) : H unit :=
  _ ← access env (λ clock s, RejectPendingMedia s id ownerID clock); mret tt.

Definition writeMediaUpload record : Handler :=
  let reject := rejectReservation (MediaObject_ID record) (MediaObject_OwnerID record) in
  match MediaObject_ExpiresAt record with
  | None => _ ← reject; respond (internalError "media reservation missing expiry")
  | Some expiresAt =>
    now ← timeNow env;
    let expiresIn := (Z.quot (expiresAt - now) Second * Second)%Z in
    if (expiresIn <? Second)%Z then
      _ ← reject; respond (writeError 410 "upload_expired" "The media upload reservation has expired.")
    else
      prepared ← call_media "PrepareUpload" (MediaObject_ObjectKey record) UploadInstructions_URL
        (λ n, PrepareUpload service n (MediaObject_ObjectKey record) (MediaObject_ContentType record)
                (MediaObject_ByteSize record) (MediaObject_CiphertextSHA256 record) expiresIn);
      match prepared with
      | MediaErr ErrUnavailable =>
        _ ← reject;
        respond (writeError 503 "media_unavailable" "Media uploads are unavailable in this environment.")
      | MediaErr _ => _ ← reject; respond (internalError "media")
      | MediaOk upload =>
        match UploadInstructions_URL upload with
        | None => _ ← reject; respond (internalError "media provider returned incomplete upload instructions")
        | Some url =>
          if bool_decide (UploadInstructions_Method upload = "")
             || bool_decide (length (UploadInstructions_Headers upload) = 0)
          then _ ← reject; respond (internalError "media provider returned incomplete upload instructions")
          else
            let token := UploadInstructions_RevocationToken upload in
            _ ← (if bool_decide (token = "") then mret tt
                 else
                   persisted ← access env (λ _ s, PersistMediaUploadCapability s (MediaObject_ID record)
                     (MediaObject_OwnerID record) token);
                   match persisted with
                   | Ok _ => mret tt
                   | Err _ => _ ← reject; respond (writeError 503 "media_unavailable"
                       "Media uploads are temporarily unavailable. Retry with a new upload reservation.")
                   end);
            respond (writeJSON 201 (UploadBody record (UploadInstructions_Method upload) url
              (UploadInstructions_Headers upload) (MediaObject_ExpiresAt record)))
        end
      end
  end.

Definition newMedia (id ownerID conversationID : UUID) (objectKey contentType : string) (byteSize : Z)
    (checksum : string) : MediaObject :=
  mkMediaObject id ownerID conversationID "" objectKey contentType byteSize checksum "" None 0 None None 0 0.

Definition createMediaUpload r (body : Decoded mediaUploadRequest) : Handler :=
  '(id, conversationID) ← requestConversation r;
  found ← look env (λ s, Conversation_ s conversationID (Identity_UserID id));
  _ ← orDomainError found;
  request ← decodeJSON body;
  let policy := Server_mediaPolicy server in
  let byteSize := mediaUpload_ByteSize request in
  _ ← require (negb ((byteSize <? 1)%Z || (MediaPolicy_ConversationMaxBytes policy <? byteSize)%Z
                     || negb (validSHA256 (mediaUpload_CiphertextSHA256 request))))
        (writeDomainError ErrInvalid);
  let contentType := normalizedContentType (mediaUpload_ContentType request) "application/octet-stream" in
  _ ← require (negb (bool_decide (contentType = ""))) (writeDomainError ErrInvalid);
  mediaID ← uuidNew env;
  let objectKey := "conversations/" +:+ uuid_String conversationID +:+ "/" +:+ uuid_String mediaID in
  created ← access env (λ clock s, CreateMedia s
    (newMedia mediaID (Identity_UserID id) conversationID objectKey contentType byteSize
       (ToLower (mediaUpload_CiphertextSHA256 request))) (MediaPolicy_ReservationLimits policy) clock);
  record ← orDomainError created;
  writeMediaUpload record.

Definition createProfileMediaUpload r (body : Decoded mediaUploadRequest) : Handler :=
  let '(id, _) := identityFrom r in
  request ← decodeJSON body;
  let policy := Server_mediaPolicy server in
  let byteSize := mediaUpload_ByteSize request in
  _ ← require (negb ((byteSize <? 1)%Z || (MediaPolicy_ProfileMaxBytes policy <? byteSize)%Z
                     || negb (validSHA256 (mediaUpload_CiphertextSHA256 request))))
        (writeDomainError ErrInvalid);
  let contentType := normalizedContentType (mediaUpload_ContentType request) "image/jpeg" in
  _ ← require (bool_decide (contentType ∈ ["image/jpeg"; "image/png"; "image/heic"; "image/webp"]))
        (writeDomainError ErrInvalid);
  mediaID ← uuidNew env;
  let objectKey := "users/" +:+ uuid_String (Identity_UserID id) +:+ "/avatars/" +:+ uuid_String mediaID in
  created ← access env (λ clock s, CreateProfileMedia s
    (newMedia mediaID (Identity_UserID id) uuid_Nil objectKey contentType byteSize
       (ToLower (mediaUpload_CiphertextSHA256 request))) (MediaPolicy_ReservationLimits policy) clock);
  record ← orDomainError created;
  writeMediaUpload record.

Definition verificationUnavailable : Response :=
  writeError 503 "media_verification_unavailable"
    "Media verification is temporarily unavailable. Retry completion before the upload expires.".
Definition verificationInProgress : Response :=
  retryAfter "2" (writeError 409 "media_verification_in_progress"
    "This media upload is already being verified. Retry shortly.").
Definition uploadExpired : Response :=
  writeError 410 "upload_expired" "The media upload reservation has expired.".

(** The object the lookup finds ready, if it does. *)
Definition latestReady (mediaID userID : UUID) : H (option MediaObject) :=
  latest ← look env (λ s, Media_ s mediaID userID);
  mret match latest with
       | Ok latest => if bool_decide (MediaObject_Status latest = "ready") then Some latest else None
       | Err _ => None
       end.

(** The branch in which the service did not verify the object. *)
Definition verificationFailed (mediaID userID leaseToken : UUID) (e : MediaError) : Handler :=
  if negb (IsDefinitiveVerificationFailure e) then
    _ ← access env (λ clock s, ReleaseMediaVerification s mediaID userID leaseToken clock);
    respond verificationUnavailable
  else
    rejected ← access env (λ clock s, RejectMediaVerification s mediaID userID leaseToken clock);
    let incomplete := respond (writeError 422 "upload_incomplete"
      "The uploaded object does not match its declaration.") in
    match rejected with
    | Ok _ | Err ErrNotFound => incomplete
    | Err ErrConflict =>
      latest ← latestReady mediaID userID;
      match latest with
      | Some latest => respond (writeJSON 200 (MediaBody latest))
      | None => respond verificationInProgress
      end
    | Err e => respond (writeDomainError e)
    end.

(** The branch in which it did. *)
Definition publishVerified (mediaID userID leaseToken : UUID) record (publishedObjectKey : string) : Handler :=
  ready ← access env (λ clock s, MarkMediaReady s mediaID userID leaseToken publishedObjectKey clock);
  match ready with
  | Ok ready => respond (writeJSON 200 (MediaBody ready))
  | Err e =>
    latest ← latestReady mediaID userID;
    match latest with
    | Some latest => respond (writeJSON 200 (MediaBody latest))
    | None =>
      now ← timeNow env;
      if match MediaObject_ExpiresAt record with Some t => negb (After t now) | None => false end then
        _ ← access env (λ clock s, RejectMediaVerification s mediaID userID leaseToken clock);
        respond (writeDomainError ErrMediaExpired)
      else respond (writeDomainError e)
    end
  end.

(** What the handler makes of the claim of the verification lease. *)
Definition claimLease (mediaID userID : UUID) : H MediaObject :=
  leaseToken ← uuidNew env;
  let leaseDuration := (MediaPolicy_CompletionTimeout (Server_mediaPolicy server) + 15 * Second)%Z in
  claimed ← access env (λ clock s, ClaimMediaVerification s mediaID userID leaseDuration leaseToken clock);
  match claimed with
  | Ok record => mret record
  | Err ErrConflict => respond verificationInProgress
  | Err ErrMediaExpired => _ ← rejectReservation mediaID userID; respond uploadExpired
  | Err e => respond (writeDomainError e)
  end.

Definition completeMediaUpload r : Handler :=
  let '(id, _) := identityFrom r in
  let userID := Identity_UserID id in
  mediaID ← pathID r "mediaID" (writeDomainError ErrInvalid);
  found ← look env (λ s, Media_ s mediaID userID);
  record ← orDomainError found;
  _ ← require (bool_decide (MediaObject_OwnerID record = userID)) (writeDomainError ErrForbidden);
  if bool_decide (MediaObject_Status record = "ready") then respond (writeJSON 200 (MediaBody record))
  else
    capability ← look env (λ s, MediaUploadCapability s mediaID userID);
    revocationToken ← orDomainError capability;
    slot ← ask (MediaService_slot service);
    _ ← require slot (writeError 503 "media_verification_unavailable"
          "Media verification capacity is temporarily unavailable. Retry completion before the upload expires.");
    record ← claimLease mediaID userID;
    if bool_decide (MediaObject_Status record = "ready") then respond (writeJSON 200 (MediaBody record))
    else
      match MediaObject_VerificationLeaseToken record with
      | None => respond verificationUnavailable
      | Some leaseToken =>
        finalized ← call_media "FinalizeUpload" (MediaObject_ObjectKey record) Some
          (λ n, FinalizeUpload service n (MediaObject_ObjectKey record) revocationToken
                  (MediaObject_ByteSize record) (MediaObject_CiphertextSHA256 record)
                  (MediaObject_ContentType record));
        match finalized with
        | MediaErr e => verificationFailed mediaID userID leaseToken e
        | MediaOk key =>
          if bool_decide (TrimSpace key = "")
          then verificationFailed mediaID userID leaseToken ErrUnavailable
          else publishVerified mediaID userID leaseToken record key
        end
      end.

Definition deleteMedia r : Handler :=
  let '(id, _) := identityFrom r in
  mediaID ← pathID r "mediaID" (writeDomainError ErrInvalid);
  found ← look env (λ s, Media_ s mediaID (Identity_UserID id));
  record ← orDomainError found;
  _ ← require (bool_decide (MediaObject_OwnerID record = Identity_UserID id)) (writeDomainError ErrForbidden);
  deleted ← access env (λ clock s, DeleteMedia s mediaID (Identity_UserID id) clock);
  _ ← orDomainError deleted;
  respond noContent.

Definition mediaDownload r : Handler :=
  let '(id, _) := identityFrom r in
  mediaID ← pathID r "mediaID" (writeDomainError ErrInvalid);
  found ← look env (λ s, Media_ s mediaID (Identity_UserID id));
  record ← orDomainError found;
  _ ← require (bool_decide (MediaObject_Status record = "ready"))
        (writeError 409 "media_not_ready" "The media object is not ready.");
  link ← call_media "DownloadURL" (MediaObject_ObjectKey record) Some
    (λ n, DownloadURL service n (MediaObject_ObjectKey record) (15 * Minute));
  match link with
  | MediaErr _ => respond (internalError "media")
  | MediaOk url => now ← timeNow env; respond (writeJSON 200 (DownloadBody url (now + 15 * Minute)))
  end.
End handlers.
