(* ===== verification/HttpIdentity.v ===== *)
(** * Other ways to sign in, and the age check

    [src/internal/httpapi]: [phone_handlers.go], [apple_handlers.go] and
    [age_assurance.go].  Sign in with Apple is a function of the environment. *)

From Stdlib Require Import ZArith Lia Ascii.
From S2P Require Import Prelude.
From S2P Require Import Runtime.
From S2P Require Import GoText.
From S2P Require Import GoTime.
From S2P Require Import Domain.
From S2P Require Import Compliance.
From S2P Require Import StoreState.
From S2P Require Import AuthTokens.
From S2P Require Import Accounts.
From S2P Require Import Devices.
From S2P Require Import Conversations.
From S2P Require Import Verification.
From S2P Require Import Http.
From S2P Require Import Middleware.
From S2P Require Import HttpAuth.
From S2P Require Import HttpConversations.

Record phoneAuthRequest := mkphoneAuthRequest {
  phoneAuth_Legal : option Declaration; phoneAuth_Phone : string; phoneAuth_Code : string;
  phoneAuth_DeviceID : UUID; phoneAuth_DeviceName : string; phoneAuth_Platform : string }.

(** [appleauth.Identity] and the verifier's answers. *)
Record AppleIdentity := mkAppleIdentity { AppleIdentity_Subject : string; AppleIdentity_Email : string }.
Inductive AppleAnswer :=
  | AppleUnavailable
  | AppleInvalid
  | AppleVerified (identity : AppleIdentity).

Record appleRequest := mkappleRequest {
  apple_Legal : option Declaration; apple_IdentityToken : string; apple_RawNonce : string;
  apple_DisplayName : string; apple_DeviceID : UUID; apple_DeviceName : string; apple_Platform : string }.

(** ** Phone numbers *)
Section phone.
Context `{GoRuntime, TokenLibrary, WireFormat} (env : Env) (server : Server) (verifier : VerificationService).
Implicit Types (r : Request).

Definition verify_call (name phone : string) (f : nat → option VerificationError) : H (option VerificationError) :=
  err ← ask f;
  _ ← record (VerifierCalled name phone (match err with None => true | Some _ => false end));
  mret err.

(** [RetryAfter] in whole seconds, rounded up, at least one; the sum wraps around in an int64. *)
Definition retrySeconds (after : Z) : Z := Z.max 1 (Z.quot (int64_wrap (after + Second - 1)) Second).

(** The answer to an error of [Send]. *)
Definition sendError (err : VerificationError) : Response :=
  match err with
  | RetryError _ after =>
    retryAfter (pretty (retrySeconds after)) (writeError 429 "verification_rate_limited"
      "Too many verification attempts. Please wait before trying again.")
  | _ =>
    if is_error VerifierUnavailable err
    then writeError 503 "verification_unavailable" "Phone verification is unavailable."
    else writeError 502 "verification_failed" "The verification message could not be sent."
  end.

(** The answer to an error of [Check]. *)
Definition checkError (err : VerificationError) : Response :=
  match err with
  | RetryError _ after =>
    retryAfter (pretty (retrySeconds after)) (writeError 429 "verification_rate_limited"
      "Too many verification attempts. Please wait before trying again.")
  | _ =>
    if is_error ErrInvalidCode err || is_error ErrExpiredCode err
    then writeError 401 "invalid_code" "The verification code is invalid or expired."
    else if is_error VerifierUnavailable err
    then writeError 503 "verification_unavailable" "Phone verification is unavailable."
    else writeError 502 "verification_failed" "Phone verification is temporarily unavailable."
  end.

Definition startPhoneVerification (body : Decoded phoneAuthRequest) : Handler :=
  request ← decodeJSON body;
  let phone := TrimSpace (phoneAuth_Phone request) in
  _ ← require (e164 phone) (writeDomainError ErrInvalid);
  err ← verify_call "Send" phone (λ n, Service_Send verifier n phone);
  match err with
  | Some err => respond (sendError err)
  | None => respond (writeJSON 202 (Fields [("status", "pending")]))
  end.

(** The account of a verified phone number, created when there is none. *)
Definition userForPhone (phone : string) (legal : option Declaration) : H User :=
  found ← look env (λ s, UserByPhone s phone);
  match found with
  | Err ErrNotFound =>
    acceptance ← registrationAcceptance env server legal;
    created ← createUser env (mkCreateUserParams acceptance "" phone "" "");
    match created with
    | Err ErrConflict => found ← look env (λ s, UserByPhone s phone); orDomainError found
    | _ => orDomainError created
    end
  | _ => orDomainError found
  end.

Definition verifyPhone (body : Decoded phoneAuthRequest) : Handler :=
  request ← decodeJSON body;
  let phone := TrimSpace (phoneAuth_Phone request) in
  let code := phoneAuth_Code request in
  _ ← require (e164 phone && negb (strlen code <? 4)%Z && negb (10 <? strlen code)%Z
               && validDeviceInfo (phoneAuth_DeviceName request) (phoneAuth_Platform request))
        (writeDomainError ErrInvalid);
  err ← verify_call "Check" phone (λ n, Service_Check verifier n phone code);
  match err with
  | Some err => respond (checkError err)
  | None =>
    user ← userForPhone phone (phoneAuth_Legal request);
    claimed ← access env (λ clock s, ClaimConversationInvites s (User_ID user) phone clock);
    match claimed with
    | Err _ => respond (writeError 500 "invite_claim_failed"
        "The account was verified, but its pending invitations could not be claimed.")
    | Ok _ =>
      device ← newAuthDevice env (User_ID user) (phoneAuth_DeviceID request) (phoneAuth_DeviceName request)
                 (phoneAuth_Platform request);
      issued ← IssueWithDevice env (Server_tokens server) (User_ID user) None device;
      '(user, device, tokens) ← orDomainError issued;
      respond (writeJSON 200 (AuthBody user device tokens))
    end
  end.

Definition startPhoneLink (body : Decoded phoneAuthRequest) : Handler := startPhoneVerification body.

Definition verifyPhoneLink r (body : Decoded phoneAuthRequest) : Handler :=
  let '(id, ok) := identityFrom r in
  _ ← require ok (writeDomainError ErrUnauthenticated);
  request ← decodeJSON body;
  let phone := TrimSpace (phoneAuth_Phone request) in
  let code := phoneAuth_Code request in
  _ ← require (e164 phone && negb (strlen code <? 4)%Z && negb (10 <? strlen code)%Z)
        (writeDomainError ErrInvalid);
  err ← verify_call "Check" phone (λ n, Service_Check verifier n phone code);
  match err with
  | Some err => respond (checkError err)
  | None =>
    updated ← access env (λ clock s, UpdateUserPhone s (Identity_UserID id) phone clock);
    match updated with
    | Err ErrConflict => respond (writeError 409 "phone_taken"
        "This phone number is already linked to another account.")
    | Err e => respond (writeDomainError e)
    | Ok user =>
      claimed ← access env (λ clock s, ClaimConversationInvites s (Identity_UserID id) phone clock);
      match claimed with
      | Err _ => respond (writeError 500 "invite_claim_failed"
          "The phone number was linked, but its pending invitations could not be claimed.")
      | Ok _ => respond (writeJSON 200 (UserBody user))
      end
    end
  end.
End phone.

(** ** Sign in with Apple *)
Section apple.
Context `{GoRuntime, TokenLibrary, WireFormat} (env : Env) (server : Server).
Context (Verify : nat → string → string → AppleAnswer).

(** [err == NotFound && email != ""], then the account of the e-mail. *)
Definition byEmailIfAbsent (found : res User) (email : string) : H (res User) :=
  match found with
  | Err ErrNotFound =>
    if bool_decide (email = "") then mret found else look env (λ s, UserByEmail s email)
  | _ => mret found
  end.

Definition userForApple (identity : AppleIdentity) (legal : option Declaration) (displayName : string) : H User :=
  let email := AppleIdentity_Email identity in
  found ← look env (λ s, UserByExternalIdentity s "apple" (AppleIdentity_Subject identity));
  found ← byEmailIfAbsent found email;
  match found with
  | Err ErrNotFound =>
    acceptance ← registrationAcceptance env server legal;
    created ← createUser env (mkCreateUserParams acceptance email "" (TrimSpace displayName) "");
    match created with
    | Err ErrConflict =>
      if bool_decide (email = "") then orDomainError created
      else found ← look env (λ s, UserByEmail s email); orDomainError found
    | _ => orDomainError created
    end
  | _ => orDomainError found
  end.

Definition verifyAppleIdentity (body : Decoded appleRequest) : Handler :=
  request ← decodeJSON body;
  let nonce := apple_RawNonce request in
  _ ← require (negb ((16 * 2 ^ 10 <? strlen (apple_IdentityToken request))%Z || (strlen nonce <? 16)%Z
                     || (256 <? strlen nonce)%Z || (100 <? strlen (apple_DisplayName request))%Z
                     || negb (validDeviceInfo (apple_DeviceName request) (apple_Platform request))))
        (writeDomainError ErrInvalid);
  answer ← ask (λ n, Verify n (apple_IdentityToken request) nonce);
  match answer with
  | AppleUnavailable => respond (writeError 503 "apple_auth_unavailable"
      "Sign in with Apple is temporarily unavailable.")
  | AppleInvalid => respond (writeError 401 "invalid_apple_identity" "The Apple identity could not be verified.")
  | AppleVerified identity =>
    user ← userForApple identity (apple_Legal request) (apple_DisplayName request);
    linked ← access env (λ _ s, LinkExternalIdentity s "apple" (AppleIdentity_Subject identity) (User_ID user));
    _ ← orDomainError linked;
    device ← newAuthDevice env (User_ID user) (apple_DeviceID request) (apple_DeviceName request)
               (apple_Platform request);
    issued ← IssueWithDevice env (Server_tokens server) (User_ID user) None device;
    '(user, device, tokens) ← orDomainError issued;
    respond (writeJSON 200 (AuthBody user device tokens))
  end.
End apple.

(** ** Age assurance *)

Record ageAssuranceRequest := mkageAssuranceRequest {
  ageAssurance_Source : string; ageAssurance_LowerBound : option Z; ageAssurance_UpperBound : option Z;
  ageAssurance_Declaration : string; ageAssurance_DateOfBirth : string }.

Definition minimumAccountAge : Z := 18.
Definition adultAgePolicyVersion : string := "adult-v1".
Definition ageAssuranceLifetime : Z := 365 * 24 * Hour.
Definition ageRecheckCooldown : Z := 24 * Hour.

Definition validAppleAgeRange (lower upper : option Z) : bool :=
  match lower, upper with
  | None, None => false
  | _, _ =>
    if match lower with Some l => (l <? 0)%Z || (125 <? l)%Z | None => false end then false
    else if match upper with Some u => (u <? 1)%Z || (126 <? u)%Z | None => false end then false
    else if match lower, upper with Some l, Some u => (u <=? l)%Z | _, _ => false end then false
    else bool_decide (lower = None ∧ upper = Some minimumAccountAge)
         || bool_decide (lower = Some minimumAccountAge ∧ upper = None)
  end.

Definition validAgeDeclaration (value : string) : bool :=
  bool_decide (value ∈ ["not_provided"; "self_declared"; "guardian_declared"; "confirmed";
    "checked_by_other_method"; "guardian_checked_by_other_method"; "government_id_checked";
    "guardian_government_id_checked"; "payment_checked"; "guardian_payment_checked"]).

Section age.
Context `{GoRuntime} (env : Env).
Implicit Types (r : Request).

Definition ageStatus (adult : bool) : string := if adult then "adult" else "underage".

Definition evaluateAgeAssurance (userID : UUID) (request : ageAssuranceRequest) (now : Z) : res AgeAssurance :=
  if bool_decide (userID = uuid_Nil) then Err ErrInvalid
  else
    let source := TrimSpace (ageAssurance_Source request) in
    let declaration := TrimSpace (ageAssurance_Declaration request) in
    let lower := ageAssurance_LowerBound request in
    let upper := ageAssurance_UpperBound request in
    let finish adult :=
      Ok (mkAgeAssurance userID (ageStatus adult) minimumAccountAge source declaration adultAgePolicyVersion now
            (if adult then Some (now + ageAssuranceLifetime)%Z else None)) in
    if bool_decide (source = "apple_declared_age_range") then
      if negb (bool_decide (ageAssurance_DateOfBirth request = "")) || negb (validAppleAgeRange lower upper)
         || negb (validAgeDeclaration declaration)
      then Err ErrInvalid
      else finish (match lower with Some l => (minimumAccountAge <=? l)%Z | None => false end)
    else if bool_decide (source = "self_attested_date_of_birth") then
      if bool_decide (is_Some lower) || bool_decide (is_Some upper)
         || negb (bool_decide (declaration = "self_declared"))
      then Err ErrInvalid
      else
        match ParseDate (ageAssurance_DateOfBirth request) with
        | None => Err ErrInvalid
        | Some birthDate =>
          if After birthDate now || Before birthDate (AddDate now (-125)) then Err ErrInvalid
          else finish (negb (After birthDate (AddDate now (- minimumAccountAge))))
        end
    else Err ErrInvalid.

Definition getAgeAssurance r : Handler :=
  let '(id, _) := identityFrom r in
  found ← look env (λ s, AgeAssurance_ s (Identity_UserID id));
  match found with
  | Err ErrNotFound => respond (writeJSON 200 (AgePendingBody minimumAccountAge adultAgePolicyVersion))
  | Err e => respond (writeDomainError e)
  | Ok assurance => respond (writeJSON 200 (AgeBody assurance))
  end.

Definition putAgeAssurance r (body : Decoded ageAssuranceRequest) : Handler :=
  let '(id, _) := identityFrom r in
  request ← decodeJSON body;
  now ← timeNow env;
  match evaluateAgeAssurance (Identity_UserID id) request now with
  | Err _ => respond (writeError 422 "invalid_age_assurance" "invalid input")
  | Ok assurance =>
    found ← look env (λ s, AgeAssurance_ s (Identity_UserID id));
    _ ← match found with
        | Ok existing =>
          require (negb (bool_decide (AgeAssurance_Status existing = "underage")
                         && bool_decide (AgeAssurance_Status assurance = "adult")
                         && (now - AgeAssurance_CheckedAt existing <? ageRecheckCooldown)%Z))
            (retryAfter "86400" (writeError 429 "age_recheck_cooldown" "Age information cannot be changed yet."))
        | Err ErrNotFound => mret tt
        | Err e => respond (writeDomainError e)
        end;
    stored ← access env (λ _ s, UpsertAgeAssurance s assurance);
    assurance ← orDomainError stored;
    respond (writeJSON 200 (AgeBody assurance))
  end.
End age.
