(* ===== verification/HttpResets.v ===== *)
(** * Password resets over HTTP

    [src/internal/httpapi/password_reset.go].  The delay that keeps every answer of the start
    endpoint above half a second is left out.

    [HttpIdentityFacts] shows that the answer of the start endpoint does not depend on the
    accounts that exist. *)

From Stdlib Require Import ZArith Lia Ascii.
From S2P Require Import Prelude.
From S2P Require Import Runtime.
From S2P Require Import GoText.
From S2P Require Import Domain.
From S2P Require Import StoreState.
From S2P Require Import AuthTokens.
From S2P Require Import Accounts.
From S2P Require Import Resets.
From S2P Require Import MailQueue.
From S2P Require Import Http.
From S2P Require Import Middleware.
From S2P Require Import HttpAuth.

Record passwordResetConfirmRequest := mkpasswordResetConfirmRequest {
  resetConfirm_ChallengeID : string; resetConfirm_Code : string; resetConfirm_NewPassword : string }.

Section codes.
Context `{GoRuntime, HMAC}.

Definition leftPadDigits (value : string) (length : Z) : string :=
  if (length <=? strlen value)%Z then value
  else of_bytes (replicate (Z.to_nat (length - strlen value)) "0"%char) +:+ value.

(** [value] is what [rand.Int] draws below [10 ^ length]. *)
Definition generatePasswordResetCode (value : option Z) (length : Z) : option string :=
  value ← value; Some (leftPadDigits (pretty value) length).

Definition passwordResetCodeHash (secret : string) (challengeID : UUID) (code : string) : string :=
  hmac_sha256 secret (uuid_bytes challengeID +:+ String "000" code).

Definition passwordResetEmailKey (secret email : string) : string :=
  hex_EncodeToString (String.substring 0 16 (hmac_sha256 secret (ToLower (TrimSpace email)))).

Definition validNumericCode (value : string) (length : Z) : bool :=
  let value := TrimSpace value in
  (strlen value =? length)%Z && every_byte digit value.
End codes.

Section handlers.
Context `{GoRuntime, TokenLibrary, WireFormat, HMAC, !MailLibrary} (env : Env) (server : Server).

Definition resetUnavailable : Response :=
  writeError 503 "password_reset_unavailable" "Password reset is temporarily unavailable.".

Definition resetEnabled (policy : PasswordResetPolicy) : bool :=
  PasswordResetPolicy_Enabled policy && (32 <=? strlen (PasswordResetPolicy_HMACSecret policy))%Z.

(** [UserByEmail] and the challenge for a password account; every answer is ignored. *)
Definition recordChallenge (challengeID : UUID) (email code : string) : H unit :=
  let policy := Server_passwordReset server in
  found ← look env (λ s, UserByEmail s email);
  match found with
  | Err _ => mret tt
  | Ok user =>
    if bool_decide (User_PasswordHash user = "") then mret tt
    else
      now ← timeNow env;
      deliveryID ← uuidNew env;
      nonce ← randRead env NonceSize;
      sealedAt ← timeNow env;
      let challenge := mkPasswordResetChallenge challengeID (User_ID user)
        (passwordResetCodeHash (PasswordResetPolicy_HMACSecret policy) challengeID code) 0
        (now + PasswordResetPolicy_TTL policy) None now in
      let build lockedEmail :=
        match nonce with
        | Some nonce => SealPasswordReset challengeID lockedEmail code (PasswordResetPolicy_TTL policy)
                          deliveryID nonce sealedAt
        | None => Err (ErrOther "seal nonce")
        end in
      _ ← access env (λ clock s, CreatePasswordResetChallengeWithMail s challenge (Some build) clock);
      mret tt
  end.

(** The memory store finds an account by e-mail or answers [ErrNotFound]. *)
Definition startPasswordReset (body : Decoded string) : Handler :=
  let policy := Server_passwordReset server in
  _ ← require (resetEnabled policy) resetUnavailable;
  requestEmail ← decodeJSON body;
  let email := ToLower (TrimSpace requestEmail) in
  _ ← require (validEmail email) (writeDomainError ErrInvalid);
  challengeID ← uuidNew env;
  let limitKey := "password-reset-email:"
                  +:+ passwordResetEmailKey (PasswordResetPolicy_HMACSecret policy) email in
  answer ← allow env limitKey 3 Hour;
  match answer with
  | Err _ => respond dependencyUnavailable
  | Ok allowed =>
    _ ← require allowed (retryAfter "3600"
          (writeError 429 "rate_limited" "Too many reset requests. Try again later."));
    drawn ← randInt env (10 ^ PasswordResetPolicy_CodeLength policy);
    match generatePasswordResetCode drawn (PasswordResetPolicy_CodeLength policy) with
    | None => respond dependencyUnavailable
    | Some code =>
      _ ← recordChallenge challengeID email code;
      respond (writeJSON 202 (ResetStartedBody (uuid_String challengeID)
        (Z.quot (PasswordResetPolicy_TTL policy) Second)
        "If this email belongs to a password account, a reset code will be sent."))
    end
  end.

Definition invalidResetCode : Response :=
  writeError 400 "invalid_reset_code" "The reset code is invalid or expired.".

(** The fence is called inside the critical section of the store; releasing one that was never
    set does nothing. *)
Definition confirmPasswordReset (body : Decoded passwordResetConfirmRequest) : Handler :=
  let policy := Server_passwordReset server in
  _ ← require (resetEnabled policy) resetUnavailable;
  request ← decodeJSON body;
  match uuid_Parse (TrimSpace (resetConfirm_ChallengeID request)) with
  | None => respond invalidResetCode
  | Some challengeID =>
    _ ← require (validNumericCode (resetConfirm_Code request) (PasswordResetPolicy_CodeLength policy))
          invalidResetCode;
    salt ← randRead env 16;
    match HashPassword (resetConfirm_NewPassword request) salt with
    | Err err => respond (weakPassword err)
    | Ok newPasswordHash =>
      let codeHash := passwordResetCodeHash (PasswordResetPolicy_HMACSecret policy) challengeID
                        (TrimSpace (resetConfirm_Code request)) in
      deliveryID ← uuidNew env;
      nonce ← randRead env NonceSize;
      sealedAt ← timeNow env;
      let build recipient :=
        match nonce with
        | Some nonce => SealPasswordChanged challengeID recipient deliveryID nonce sealedAt
        | None => Err (ErrOther "seal nonce")
        end in
      fence ← ask (λ n userID, Env_fence env n userID None);
      consumed ← access env (λ clock s, ConsumePasswordResetChallengeWithMailAndFence s challengeID codeHash
        newPasswordHash (PasswordResetPolicy_MaxAttempts policy) (Some build) (Some fence) clock);
      match consumed with
      | Err ErrUnauthenticated | Err ErrNotFound => respond invalidResetCode
      | Err _ => _ ← releaseSessionFence; respond dependencyUnavailable
      | Ok _ => _ ← releaseSessionFence; respond noContent
      end
    end
  end.
End handlers.
