(* ===== verification/HttpCompliance.v ===== *)
(** * Legal releases, acceptances and reports over HTTP

    [Release.Validate] of [src/internal/compliance/model.go] and
    [src/internal/httpapi/compliance.go].  Opening and decoding the release file is left out. *)

From Stdlib Require Import ZArith Lia Ascii.
From S2P Require Import Prelude.
From S2P Require Import Runtime.
From S2P Require Import GoText.
From S2P Require Import Domain.
From S2P Require Import Compliance.
From S2P Require Import StoreState.
From S2P Require Import MailQueue.
From S2P Require Import AuthTokens.
From S2P Require Import Http.
From S2P Require Import Middleware.
From S2P Require Import HttpAuth.
From S2P Require Import HttpConversations.

(** ** Releases *)

Record Release := mkRelease {
  Release_Policy : Policy; Release_Operator : string; Release_State : string;
  Release_ContactEmail : string; Release_Reviewed : bool; Release_MonitoringReady : bool;
  Release_Document : string }.

(** The parts of a [url.URL] the check reads: scheme, host, user, query, path, fragment. *)
Record URL := mkURL {
  URL_Scheme : string; URL_Host : string; URL_User : bool; URL_RawQuery : string; URL_Path : string;
  URL_Fragment : string }.

(** [url.Parse] and [strings.ToUpper]. *)
Class URLLibrary := { url_Parse : string → option URL; ToUpper : string → string }.

Section release.
Context `{GoRuntime, TokenLibrary, !MailLibrary, URLLibrary}.

Definition crlf : string := String "013" (String "010" "").

Definition placeholder (v : string) : bool :=
  let v := ToLower (TrimSpace v) in
  bool_decide (v = "") || ContainsAny v ("[]<>" +:+ crlf) || Contains v "replace"
  || Contains v "placeholder" || Contains v "example.".

Definition placeholderTokens : list string :=
  ["[SUPPORT_"; "[PRIVACY_"; "[SAFETY_"; "[DMCA_"; "[BUSINESS_"; "[OPERATOR_"; "[TRACKING_"; "[Release note:"].

Definition legalURL (path raw : string) : bool :=
  match url_Parse raw with
  | Some u =>
    bool_decide (URL_Scheme u = "https") && bool_decide (URL_Host u = "clixor.atlanteanz.com")
    && negb (URL_User u) && bool_decide (URL_RawQuery u = "") && bool_decide (URL_Path u = path)
    && bool_decide (URL_Fragment u = "")
  | None => false
  end.

(** The error message, or [None]. *)
Definition Release_Validate (r : Release) : option string :=
  let p := Release_Policy r in
  let contact := Release_ContactEmail r in
  let document := Release_Document r in
  if negb (Policy_Enabled p) && negb (Policy_IntakeEnabled p) then None
  else if existsb placeholder [Release_Operator r; Release_State r; contact]
  then Some "legal release requires real operator and contact details"
  else if negb (bool_decide (ParseAddress contact = Some contact)) || ContainsAny contact crlf
  then Some "legal release contact email is invalid"
  else if Policy_IntakeEnabled p && negb (Release_MonitoringReady r)
  then Some "support intake requires monitored operations"
  else if negb (Policy_Enabled p) then None
  else if negb (Release_Reviewed r) || negb (Policy_MinimumAge p =? 13)%Z || placeholder (Policy_Version p)
          || (80 <? strlen (Policy_Version p))%Z
  then Some "legal policy requires reviewed version and minimum age 13"
  else if (strlen document <? 100)%Z || (256 * 2 ^ 10 <? strlen document)%Z
          || Contains (ToUpper document) "DRAFT" || Contains document "[EFFECTIVE_DATE]"
  then Some "legal document is incomplete"
  else if existsb (Contains document) placeholderTokens
  then Some "legal document contains placeholders"
  else if negb (legalURL "/terms" (Policy_TermsURL p)) || negb (legalURL "/privacy" (Policy_PrivacyURL p))
  then Some "legal URL must use the existing public legal hostname"
  else if negb (bool_decide (Policy_DocumentSHA256 p = hex_EncodeToString (sha256 document)))
  then Some "legal document digest does not match"
  else None.
End release.

(** ** Handlers *)

Record acceptLegalPolicyRequest := mkacceptLegalPolicyRequest {
  acceptLegal_Version : string; acceptLegal_DocumentSHA256 : string; acceptLegal_AgeGroup : string;
  acceptLegal_GuardianPermission : bool; acceptLegal_Agreed : bool }.

Record supportCaseRequest := mksupportCaseRequest {
  supportCase_AccessToken : string; supportCase_Submission : Submission }.

Section handlers.
Context `{GoRuntime, TokenLibrary, JSONText} (env : Env) (server : Server).
Implicit Types (r : Request).

(** An operation of the compliance repository of the store. *)
Definition repository {A} (f : Compliance.Memory → Compliance.Memory * A) : H A :=
  access env (λ _ s, let '(m, x) := f (Store_compliance s) in (s <| Store_compliance := m |>, x)).

Definition getLegalPolicy : Handler :=
  let p := Server_legalRelease server in
  let p := if bool_decide (Policy_TermsURL p = "")
           then mkPolicy (Policy_Enabled p) (Policy_Version p) (Policy_DocumentSHA256 p)
                  "https://clixor.atlanteanz.com/terms" "https://clixor.atlanteanz.com/privacy" 13
                  (Policy_IntakeEnabled p)
           else p in
  respond (writeJSON 200 (PolicyBody p)).

Definition policyUnavailable : Response :=
  writeError 503 "legal_policy_unavailable" "The new legal policy is not published yet.".

Definition acceptLegalPolicy r (body : Decoded acceptLegalPolicyRequest) : Handler :=
  let p := Server_legalRelease server in
  _ ← require (Policy_Enabled p) policyUnavailable;
  let '(id, _) := identityFrom r in
  request ← decodeJSON body;
  now ← timeNow env;
  let a := mkAcceptance (Identity_UserID id) (acceptLegal_Version request) (acceptLegal_DocumentSHA256 request)
             (acceptLegal_AgeGroup request) (acceptLegal_GuardianPermission request)
             (acceptLegal_Agreed request) now in
  match Acceptance_Validate a p with
  | Some e => respond (writeDomainError e)
  | None =>
    accepted ← repository (λ m, Accept m a);
    a ← orDomainError accepted;
    respond (writeJSON 200 (AcceptanceBody a))
  end.

Definition getLegalAcceptance r : Handler :=
  let p := Server_legalRelease server in
  _ ← require (Policy_Enabled p) policyUnavailable;
  let '(id, _) := identityFrom r in
  found ← repository (λ m, (m, Acceptance_lookup m (Identity_UserID id) (Policy_Version p)));
  a ← orDomainError found;
  respond (writeJSON 200 (AcceptanceBody a)).

(** [json.Marshal] of a submission. *)
Definition submission_json (s : Submission) : string :=
  marshal_text (JObj
    [("category", JStr (Submission_Category s)); ("contact", JStr (Submission_Contact s));
     ("content_reference", JStr (Submission_ContentReference s)); ("details", JStr (Submission_Details s));
     ("signature", JStr (Submission_Signature s)); ("good_faith", JBool (Submission_GoodFaith s));
     ("authorized", JBool (Submission_Authorized s))]).

Definition submitSupportCase r (body : Decoded supportCaseRequest) : Handler :=
  _ ← require (Policy_IntakeEnabled (Server_legalRelease server)) (writeError 503 "support_intake_unavailable"
        "Online reporting is not available yet. No report has been submitted.");
  request ← decodeJSON body;
  id ← pathID r "caseID" (writeDomainError ErrInvalid);
  now ← timeNow env;
  c ← orDomainError (NewCase sha256 (DecodeString RawURLEncoding) submission_json id
        (supportCase_AccessToken request) (supportCase_Submission request) now);
  submitted ← repository (λ m, Submit m c);
  receipt ← orDomainError submitted;
  respond (writeJSON 200 (CaseBody receipt)).

Definition supportCaseStatus r : Handler :=
  _ ← require (Policy_IntakeEnabled (Server_legalRelease server)) (writeError 503 "support_intake_unavailable"
        "Online reporting is not available yet.");
  id ← pathID r "caseID" (writeDomainError ErrNotFound);
  let token := TrimPrefix (Request_Header r "Authorization") bearer in
  match TokenHash sha256 (DecodeString RawURLEncoding) token with
  | Err _ => respond (writeDomainError ErrNotFound)
  | Ok hash =>
    found ← repository (λ m, (m, Status m id hash));
    status ← orDomainError found;
    respond (writeJSON 200 (CaseBody status))
  end.
End handlers.
