(* ===== verification/HttpReference.v ===== *)
(** * A concrete HTTP server

    Instances of the interfaces the handlers use, and a server with its environment on which
    the theorems about the endpoints are run. *)

From Stdlib Require Import ZArith Lia Ascii.
From S2P Require Import Prelude.
From S2P Require Import Runtime.
From S2P Require Import GoText.
From S2P Require Import Domain.
From S2P Require Import Compliance.
From S2P Require Import StoreState.
From S2P Require Import AuthTokens.
From S2P Require Import Accounts.
From S2P Require Import Media.
From S2P Require Import Threads.
From S2P Require Import Http.
From S2P Require Import Middleware.
From S2P Require Import HttpAuth.
From S2P Require Import HttpConversations.
From S2P Require Import HttpMedia.
From S2P Require Import HttpResets.

Module ReferenceHttp.
#[local] Existing Instance Reference.runtime.
#[local] Existing Instance ReferenceTokens.library.

(** A document is as long as the number of its nodes. *)
Fixpoint nodes (v : JSON) : nat :=
  match v with
  | JArr items => S (list_sum (nodes <$> items))
  | JObj members => S (list_sum ((λ '(_, v), nodes v) <$> members))
  | _ => 1
  end.

Definition length_of (r : RawMessage) : Z :=
  match r with
  | RawNil => 0
  | RawInvalid t => strlen t
  | Raw v => Z.of_nat (nodes v)
  end%Z.

#[refine] Definition wire : WireFormat := {| raw_length := length_of |}.
Proof.
  - intros [|t|v]; simpl; [done|..].
    + rewrite bool_decide_eq_true. unfold strlen. destruct t; simpl; split; [done..|]; lia.
    + assert (nodes v ≠ 0) by (by destruct v). split; [done|]. lia.
  - intros [|t|v]; simpl; [done|unfold strlen; lia|lia].
Defined.

Definition time_text : TimeText :=
  {| ParseRFC3339Nano := λ s, default None (decode (of_bits s));
     FormatRFC3339Nano := λ t, bits (encode (Some t)) |}.
Definition json_text : JSONText := {| marshal_text := λ v, pretty (Z.of_nat (nodes v)) |}.
Definition hmac : HMAC := {| hmac_sha256 := λ key text, sha256 (key +:+ ":" +:+ text) |}.

(** Addresses are their texts. *)
Definition net : NetIP :=
  {| Addr := string; Prefix := string; ParseAddrPort := λ _, None; ParseAddr := Some; Unmap := λ a, a;
     Addr_String := λ a, a; Prefix_Contains := λ p a, bool_decide (p = a) |}.

Definition server : Server :=
  mkServer (mkTokenManager "clustr-api" "0123456789abcdef0123456789abcdef" (15 * Minute) (720 * Hour)) "" ""
    (mkPolicy false "" "" "" "" 18 false)
    (mkPasswordResetPolicy true "0123456789abcdef0123456789abcdef" 6 (15 * Minute) 5) DefaultMediaPolicy.

Definition random (size : nat) : string := of_bytes (replicate size "a"%char).

Lemma length_random size : String.length (random size) = size.
Proof.
  unfold random, of_bytes. induction size as [|size IH]; [done|]. simpl in *. by rewrite IH.
Qed.

(** Ids count up, the limiter admits everyone, and the others change nothing. *)
Definition env : Env :=
  mkEnv (λ _ s, s) (λ n _, 100 * Hour + Z.of_nat n)%Z (λ n, uuid_of_N (N.of_nat n + 1)) (λ _ size, Some (random size))
    (λ _ _, Some 123456%Z) (λ _ _ _ _, Ok true) (λ _ _ _, None) (λ _ _, Ok true).

Definition request (header query param : list (string * string)) (id : option Identity) : Request :=
  let get (l : list (string * string)) name :=
    match List.find (λ p, bool_decide (p.1 = name)) l with Some p => p.2 | None => "" end in
  mkRequest "GET" "203.0.113.7" 0 (get header) (get query) (get param) id.

(** The store after [m], and its answer. *)
Definition run {A} (m : H A) (s : Store) : Store * Outcome A :=
  let '(s, _, o) := m s (mkLocal 0 []) in (s, o).

Definition status {A} (o : Outcome A) : Z := match o with Done r => Response_Status r | Next _ => 0 end.
End ReferenceHttp.
