(* ===== verification/OTPRuns.v ===== *)
(** * Runs of the one-time codes

    What the scripts of [OTP] promise when those of many calls interleave: how often a code can
    be guessed, that the right code is accepted, how many codes are sent.  The runs are those of
    [otpRun]; the proofs are about [specRun], which [simulated_run] relates to it. *)

From Stdlib Require Import ZArith Lia Ascii.
From S2P Require Import Prelude.
From S2P Require Import Runtime.
From S2P Require Import AuthTokens.
From S2P Require Import Verification.
From S2P Require Import HttpReference.
From S2P Require Import Redis.
From S2P Require Import OTP.
From S2P Require Import OTPFacts.

(** The reason in a reply. *)
Definition reason (r : list RedisReply) : string :=
  match r with [_; ReplyString s; _] => s | _ => "" end.

(** The reasons of the replies to some of the calls. *)
Fixpoint reasons (which : OTPCall → bool) (trace : list (Z * OTPCall)) (replies : list (list RedisReply))
    : list string :=
  match trace, replies with
  | (_, call) :: trace, r :: replies =>
    if which call then reason r :: reasons which trace replies else reasons which trace replies
  | _, _ => []
  end.

Definition verifies (d : string) (call : OTPCall) : bool :=
  match call with Verify d' _ => bool_decide (d' = d) | _ => false end.
Definition issues (d : string) (call : OTPCall) : bool :=
  match call with Issue d' _ _ => bool_decide (d' = d) | _ => false end.
Definition issuesAny (call : OTPCall) : bool :=
  match call with Issue _ _ _ => true | _ => false end.

Definition sentFor (which : OTPCall → bool) trace replies : nat :=
  length (List.filter (λ r, bool_decide (r = "reserved")) (reasons which trace replies)).

Section spec.
Context (p : OTPPolicy).
Implicit Types (now start : Z) (d : string) (trace : list (Z * OTPCall)) (state : OTPSpec).

Definition challenge state d : option Challenge := Destination_Challenge (OTPSpec_Destination state d).
Definition lockout state d : option Z := Destination_Lockout (OTPSpec_Destination state d).

Definition guessed (c : Challenge) : Challenge :=
  mkChallenge (Challenge_ID c) (Challenge_CodeHash c) (Challenge_Attempts c + 1) (Challenge_ExpiresAt c).

(** ** The life of a challenge *)

(** What a call does to the challenge of [d], and the reason it gives; [l] is the lockout. *)
Inductive challenge_step d now (l : option Z) : option Challenge → OTPCall → string → option Challenge → Prop :=
  | step_other c call r :
      verifies d call = false → (issues d call = true → r ≠ "reserved") → challenge_step d now l c call r c
  | step_locked_out c h : l ≠ None → challenge_step d now l c (Verify d h) "locked" c
  | step_expired h : challenge_step d now l None (Verify d h) "expired" None
  | step_issued c id h :
      challenge_step d now l c (Issue d id h) "reserved"
        (Some (mkChallenge id h 0 (now + Milliseconds (OTPPolicy_ChallengeTTL p))))
  | step_rolled_back c r : challenge_step d now l (Some c) (Rollback d (Challenge_ID c)) r None
  | step_approved c : challenge_step d now l (Some c) (Verify d (Challenge_CodeHash c)) "approved" None
  | step_invalid c h :
      h ≠ Challenge_CodeHash c → (Challenge_Attempts c + 1 < OTPPolicy_MaxAttempts p)%Z →
      challenge_step d now l (Some c) (Verify d h) "invalid" (Some (guessed c))
  | step_exhausted c h :
      h ≠ Challenge_CodeHash c → (OTPPolicy_MaxAttempts p ≤ Challenge_Attempts c + 1)%Z →
      challenge_step d now l (Some c) (Verify d h) "locked" None.

Lemma putDestination_challenge state d D d' :
  challenge (putDestination state d D) d' =
    if decide (d' = d) then Destination_Challenge D else challenge state d'.
Proof. unfold challenge. cbn. by destruct (decide (d' = d)). Qed.

Lemma specCall_step call now state d :
  challenge_step d now (lockout state d) (challenge state d) call (reason (specCall p call now state).2)
    (challenge (specCall p call now state).1 d).
Proof.
  destruct call as [d' id h|d' id|d' id m|d' h|e m st]; cbn [specCall].
  - unfold specIssue. destruct (Destination_Lockout _); [by constructor|].
    destruct (Destination_Cooldown _) as [[]|]; [by constructor|].
    destruct (overLimit _ _); [by constructor|]. cbn [fst snd]. rewrite putDestination_challenge.
    destruct (decide (d = d')) as [<-|Hne]; [apply step_issued|]. apply step_other; [done|]. cbn.
    by rewrite bool_decide_eq_false_2 by done.
  - cbn [fst snd]. unfold specRollback. rewrite putDestination_challenge.
    destruct (decide (d = d')) as [<-|Hne]; [|by constructor]. cbn [Destination_Challenge].
    fold (challenge state d). destruct (challenge state d) as [c|]; [|by constructor].
    destruct (decide (Challenge_ID c = id)) as [<-|]; [apply step_rolled_back|by constructor].
  - by constructor.
  - unfold specVerify. cbv zeta. destruct (Destination_Lockout (OTPSpec_Destination state d')) as [e|] eqn:Hl.
    { cbn. destruct (decide (d' = d)) as [->|Hne]; [apply step_locked_out; unfold lockout; by rewrite Hl|].
      constructor; [|done]. cbn. by rewrite bool_decide_eq_false_2. }
    destruct (decide (d' = d)) as [->|Hne].
    2: { assert (verifies d (Verify d' h) = false) as Hv by by cbn; rewrite bool_decide_eq_false_2.
         fold (challenge state d'). destruct (challenge state d') as [c|]; [|by constructor].
         destruct (decide (Challenge_CodeHash c = h)); [|destruct (_ <=? _)%Z]; cbn [fst snd];
           rewrite putDestination_challenge, (decide_False (P := d = d')) by done; by constructor. }
    fold (challenge state d). destruct (challenge state d) as [c|] eqn:Hc.
    2: { cbn [fst snd]. rewrite Hc. apply step_expired. }
    destruct (decide (Challenge_CodeHash c = h)) as [<-|Hne].
    { cbn [fst snd]. rewrite putDestination_challenge, decide_True by done. apply step_approved. }
    destruct (Z.leb_spec (OTPPolicy_MaxAttempts p) (Challenge_Attempts c + 1)); cbn [fst snd];
      rewrite putDestination_challenge, decide_True by done; [by apply step_exhausted|by apply step_invalid].
  - unfold specDeliver. destruct (OTPSpec_Events state e); by constructor.
Qed.

Definition replies trace state : list (list RedisReply) := (specRun p trace state).2.

(** The first call and the rest of a run. *)
Lemma replies_cons now call trace state :
  let next := specCall p call now (fadeSpec now state) in
  replies ((now, call) :: trace) state = next.2 :: replies trace next.1.
Proof. unfold replies. cbn. destruct (specCall _ _ _ _) as [next r]. cbn. by destruct (specRun _ _ _). Qed.

Lemma faded_challenge now state d :
  challenge (fadeSpec now state) d = unexpired Challenge_ExpiresAt now (challenge state d).
Proof. done. Qed.

(** ** Few guesses *)

Definition settled_reason (r : string) : Prop := r ∈ ["locked"; "expired"].

Lemma step_closed d now l call r c :
  challenge_step d now l None call r c → (issues d call = true → r ≠ "reserved") →
  c = None ∧ (verifies d call = true → settled_reason r).
Proof.
  intros Hstep Hno. inversion Hstep as [? ? ? Hv|? ? Hl| |? id h| | | |]; subst.
  - split; [done|congruence].
  - split; [done|]. intros _. unfold settled_reason. set_solver.
  - split; [done|]. intros _. unfold settled_reason. set_solver.
  - exfalso. apply Hno; [|done]. cbn. by rewrite bool_decide_eq_true_2.
Qed.

Lemma not_reserved d call r rs :
  "reserved" ∉ (if issues d call then r :: rs else rs) →
  (issues d call = true → r ≠ "reserved") ∧ "reserved" ∉ rs.
Proof. destruct (issues d call); [|done]. intros [? ?]%not_elem_of_cons. split; [by intros _ ->|done]. Qed.

(** Without a challenge, and as long as none is issued, nothing is accepted. *)
Lemma closed_run trace state d :
  challenge state d = None → "reserved" ∉ reasons (issues d) trace (replies trace state) →
  Forall settled_reason (reasons (verifies d) trace (replies trace state)).
Proof.
  revert state. induction trace as [|[now call] trace IH]; intros state Hc Hno; [by constructor|].
  rewrite replies_cons in *. cbn [reasons] in *. apply not_reserved in Hno as [Hr Hno].
  pose proof (specCall_step call now (fadeSpec now state) d) as Hstep.
  rewrite faded_challenge, Hc in Hstep. apply step_closed in Hstep as [Hn Hv]; [|done].
  destruct (verifies d call); [constructor; [by apply Hv|]|]; by apply IH.
Qed.

(** Wrong guesses, then perhaps the answer that settles the challenge, then refusals. *)
Definition guesses (budget : Z) (verdicts : list string) : Prop :=
  ∃ k rest, verdicts = replicate k "invalid" ++ rest ∧ (Z.of_nat k < budget)%Z ∧
    match rest with
    | [] => True
    | r :: rest => r ∈ ["approved"; "locked"; "expired"] ∧ Forall settled_reason rest
    end.

Lemma guesses_settled budget verdicts :
  (0 < budget)%Z → Forall settled_reason verdicts → guesses budget verdicts.
Proof.
  intros Hb Hs. exists 0, verdicts. split_and!; [done|lia|]. destruct Hs as [|r rest Hr Hs]; [done|].
  split; [|done]. unfold settled_reason in Hr. set_solver.
Qed.

Lemma guesses_cons budget verdicts : guesses (budget - 1) verdicts → guesses budget ("invalid" :: verdicts).
Proof. intros (k & rest & -> & Hk & Hr). exists (S k), rest. split_and!; [done|lia|done]. Qed.

Lemma guesses_last budget r verdicts :
  (0 < budget)%Z → r ∈ ["approved"; "locked"; "expired"] → Forall settled_reason verdicts →
  guesses budget (r :: verdicts).
Proof. intros Hb Hr Hs. exists 0, (r :: verdicts). split_and!; [done|lia|done|done]. Qed.

(** ** Lockouts *)

(** A locked destination has no challenge. *)
Definition lock_inv state : Prop := ∀ d, lockout state d ≠ None → challenge state d = None.

Lemma lock_inv_fade now state : lock_inv state → lock_inv (fadeSpec now state).
Proof.
  intros Hi d. rewrite faded_challenge. unfold lockout. cbn. fold (lockout state d).
  destruct (lockout state d) as [e|] eqn:Hl; cbn; [|by intros []].
  destruct (e <=? now)%Z; [by intros []|].
  intros _. by rewrite Hi by by rewrite Hl.
Qed.

Lemma lock_inv_put state d D :
  lock_inv state → (Destination_Lockout D ≠ None → Destination_Challenge D = None) →
  lock_inv (putDestination state d D).
Proof.
  intros Hi HD d'. rewrite putDestination_challenge. unfold lockout. cbn. destruct (decide (d' = d)); [done|].
  apply Hi.
Qed.

Lemma lock_inv_call call now state : lock_inv state → lock_inv (specCall p call now state).1.
Proof.
  intros Hi. destruct call as [d id h|d id|d id m|d h|e m st]; cbn [specCall fst]; [| |done| |].
  - unfold specIssue. repeat case_match; try done. cbn [fst]. apply lock_inv_put; [done|by intros []].
  - unfold specRollback. apply lock_inv_put; [done|]. cbn. intros Hl. specialize (Hi d Hl).
    unfold challenge in Hi. by rewrite Hi.
  - unfold specVerify. cbv zeta. destruct (Destination_Lockout _); [done|].
    destruct (Destination_Challenge _); [|done]. destruct (decide _); [by apply lock_inv_put|].
    destruct (_ <=? _)%Z; (apply lock_inv_put; [done|]); [done|by intros []].
  - unfold specDeliver. by destruct (OTPSpec_Events state e).
Qed.

Lemma guesses_run trace state d :
  (0 < OTPPolicy_MaxAttempts p)%Z → lock_inv state →
  (∀ c, challenge state d = Some c → Challenge_Attempts c < OTPPolicy_MaxAttempts p)%Z →
  "reserved" ∉ reasons (issues d) trace (replies trace state) →
  guesses (OTPPolicy_MaxAttempts p - from_option Challenge_Attempts 0 (challenge state d))%Z
    (reasons (verifies d) trace (replies trace state)).
Proof.
  intros Hmax. revert state. induction trace as [|[now call] trace IH]; intros state Hi Hb Hno.
  { exists 0, []. split_and!; [done| |done]. destruct (challenge state d) as [c|] eqn:Hc; cbn; [|lia].
    specialize (Hb c eq_refl). lia. }
  destruct (challenge state d) as [c|] eqn:Hc.
  2: { apply guesses_settled; [cbn; lia|]. by apply closed_run. }
  specialize (Hb c eq_refl). cbn [from_option].
  rewrite replies_cons in *. cbn [reasons] in *. apply not_reserved in Hno as [Hr Hno].
  pose proof (specCall_step call now (fadeSpec now state) d) as Hstep.
  pose proof (lock_inv_call call now _ (lock_inv_fade now _ Hi)) as Hi'.
  pose proof (lock_inv_fade now _ Hi d) as Hl.
  set (next := specCall p call now (fadeSpec now state)) in *.
  rewrite faded_challenge, Hc in Hstep, Hl. cbn [unexpired] in Hstep, Hl.
  destruct (Challenge_ExpiresAt c <=? now)%Z.
  { apply step_closed in Hstep as [Hn Hv]; [|done]. apply guesses_settled; [lia|].
    assert (Forall settled_reason (reasons (verifies d) trace (replies trace next.1))) by by apply closed_run.
    destruct (verifies d call); [constructor; [by apply Hv|done]|done]. }
  specialize (IH next.1 Hi').
  inversion Hstep as [? ? ? Hv Hq|? ? Hlo|? |? id h| |? Hcall|? h Hne Hlt Hcall Hreason|? h Hne Hlast Hcall]; subst.
  - rewrite Hv. replace (challenge next.1 d) with (Some c) in IH by done. cbn in IH. apply IH; [|done].
    by intros ? [= <-].
  - discriminate (Hl Hlo).
  - exfalso. apply Hr; [|done]. cbn. by rewrite bool_decide_eq_true_2.
  - cbn [verifies]. apply guesses_settled; [lia|]. by apply closed_run.
  - cbn [verifies]. rewrite bool_decide_eq_true_2 by done. apply guesses_last; [lia|set_solver|by apply closed_run].
  - cbn [verifies]. rewrite bool_decide_eq_true_2 by done. apply guesses_cons.
    replace (challenge next.1 d) with (Some (guessed c)) in IH by done. cbn in IH.
    replace (OTPPolicy_MaxAttempts p - Challenge_Attempts c - 1)%Z
      with (OTPPolicy_MaxAttempts p - (Challenge_Attempts c + 1))%Z by lia.
    apply IH; [|done]. intros ? [= <-]. cbn. lia.
  - cbn [verifies]. rewrite bool_decide_eq_true_2 by done. apply guesses_last; [lia|set_solver|by apply closed_run].
Qed.

(** ** The right code *)

(** The calls between the issue of a code and its use: no new code, no rollback of this one, only
    wrong guesses. *)
Definition harmless d id codeHash (call : OTPCall) : Prop :=
  call ≠ Rollback d id ∧ call ≠ Verify d codeHash.

Definition guessCount d trace : Z := Z.of_nat (length (List.filter (λ x, verifies d x.2) trace)).

Lemma challenge_survives trace state d c :
  lock_inv state → challenge state d = Some c →
  Forall (λ x, harmless d (Challenge_ID c) (Challenge_CodeHash c) x.2 ∧ (x.1 < Challenge_ExpiresAt c)%Z) trace →
  "reserved" ∉ reasons (issues d) trace (replies trace state) →
  (Challenge_Attempts c + guessCount d trace < OTPPolicy_MaxAttempts p)%Z →
  lock_inv (specRun p trace state).1 ∧
  ∃ n, challenge (specRun p trace state).1 d =
    Some (mkChallenge (Challenge_ID c) (Challenge_CodeHash c) n (Challenge_ExpiresAt c)).
Proof.
  revert state c. induction trace as [|[now call] trace IH]; intros state c Hi Hc Hall Hno Hcount.
  { split; [done|]. exists (Challenge_Attempts c). cbn. rewrite Hc. by destruct c. }
  apply Forall_cons in Hall as [[[Hroll Hver] Hnow] Hall]. cbn [fst snd] in *.
  rewrite replies_cons in Hno. cbn [reasons] in Hno. apply not_reserved in Hno as [Hr Hno].
  pose proof (specCall_step call now (fadeSpec now state) d) as Hstep.
  pose proof (lock_inv_fade now _ Hi) as Hif. pose proof (lock_inv_call call now _ Hif) as Hi'.
  specialize (Hif d). rewrite faded_challenge, Hc in Hstep, Hif. cbn [unexpired] in Hstep, Hif.
  rewrite (proj2 (Z.leb_gt _ _)) in Hstep, Hif by done.
  cbn [specRun]. destruct (specCall p call now (fadeSpec now state)) as [next r]. cbn [fst snd] in *.
  assert (guessCount d ((now, call) :: trace) =
            guessCount d trace + if verifies d call then 1 else 0)%Z as Hg.
  { unfold guessCount. cbn. destruct (verifies d call); cbn; lia. }
  rewrite Hg in Hcount. assert (0 ≤ guessCount d trace)%Z by (unfold guessCount; lia).
  destruct (specRun p trace next) as [last rs] eqn:Hrun.
  replace last with (specRun p trace next).1 by by rewrite Hrun. cbn [fst].
  inversion Hstep as [? ? ? Hv Hq|? ? Hlo|? |? id h| |? Hcall|? h Hne Hlt Hcall Hreason|? h Hne Hlast Hcall]; subst.
  - rewrite Hv in Hcount. apply IH; try done. lia.
  - discriminate (Hif Hlo).
  - exfalso. apply Hr; [|done]. cbn. by rewrite bool_decide_eq_true_2.
  - done.
  - done.
  - cbn [verifies] in Hcount. rewrite bool_decide_eq_true_2 in Hcount by done.
    apply (IH next (guessed c)); try done. cbn. lia.
  - exfalso. cbn [verifies] in Hcount. rewrite bool_decide_eq_true_2 in Hcount by done. lia.
Qed.

(** ** How many codes are sent *)

Section counter.
Context (get : OTPSpec → Counter) (window limit : Z) (counts : OTPCall → bool).
Hypothesis Hfade : ∀ now state, get (fadeSpec now state) = unexpired snd now (get state).
Hypothesis Hcount : ∀ call now state,
  let next := specCall p call now state in
  if counts call && bool_decide (reason next.2 = "reserved")
  then get next.1 = countOne now window (get state) ∧ ∀ n e, get state = Some (n, e) → (n < limit)%Z
  else get next.1 = get state.

(** How many sends a period that ends at [until] still allows. *)
Definition allowance (until : Z) (c : Counter) : Z :=
  match c with
  | Some (n, e) => if (until <=? e)%Z then limit - n else 2 * limit - n
  | None => limit
  end.

Lemma sent_within trace start state :
  (∀ n e, get state = Some (n, e) → (n ≤ limit)%Z) → (1 ≤ limit)%Z →
  Forall (λ x, (start ≤ x.1 < start + window)%Z) trace →
  (Z.of_nat (sentFor counts trace (replies trace state)) ≤ allowance (start + window) (get state))%Z.
Proof.
  intros Hb Hl Ht. revert state Hb. induction Ht as [|[now call] trace [Hnow Hnow'] _ IH]; intros state Hb.
  { unfold sentFor. cbn. destruct (get state) as [[n e]|]; cbn; [|lia]. specialize (Hb n e eq_refl).
    destruct (_ <=? _)%Z; lia. }
  cbn in Hnow, Hnow'. unfold sentFor. rewrite replies_cons. cbn [reasons].
  pose proof (Hcount call now (fadeSpec now state)) as Hc. cbv zeta in Hc. rewrite Hfade in Hc.
  set (next := specCall p call now (fadeSpec now state)) in *. specialize (IH next.1). unfold sentFor in IH.
  assert (allowance (start + window) (unexpired snd now (get state)) ≤ allowance (start + window) (get state))%Z as Hle.
  { destruct (get state) as [[n e]|]; cbn; [|lia]. specialize (Hb n e eq_refl).
    destruct (Z.leb_spec e now); cbn; [|lia]. destruct (Z.leb_spec (start + window) e); lia. }
  assert (∀ n e, unexpired snd now (get state) = Some (n, e) → (n ≤ limit)%Z) as Hb'.
  { intros n e. destruct (get state) as [[n' e']|]; cbn; [|done]. destruct (e' <=? now)%Z; [done|]. by apply Hb. }
  destruct (counts call) eqn:Hcall; cbn [andb] in Hc.
  2: { etrans; [apply IH|]; rewrite Hc; done. }
  cbn [List.filter]. destruct (bool_decide (reason next.2 = "reserved")) eqn:Hres; cbn [length].
  2: { etrans; [apply IH|]; rewrite Hc; done. }
  destruct Hc as [Hc Hroom]. rewrite Hc in IH.
  assert (∀ n e, countOne now window (unexpired snd now (get state)) = Some (n, e) → (n ≤ limit)%Z) as Hb1.
  { intros n e. destruct (unexpired snd now (get state)) as [[n' e']|]; cbn; intros [= <- <-]; [|done].
    specialize (Hroom n' e' eq_refl). lia. }
  specialize (IH Hb1).
  assert (allowance (start + window) (countOne now window (unexpired snd now (get state))) + 1 ≤
          allowance (start + window) (unexpired snd now (get state)))%Z; [|lia].
  destruct (unexpired snd now (get state)) as [[n e]|]; cbn.
  - destruct (Z.leb_spec (start + window) e); lia.
  - destruct (Z.leb_spec (start + window) (now + window)); lia.
Qed.
End counter.

(** Only an issue that is accepted counts, and only below every limit. *)
Lemma issue_counts d id h now state :
  let next := specIssue p d id h now state in
  if bool_decide (reason next.2 = "reserved")
  then overLimit (sends state d) (limits p) = None ∧
    OTPSpec_Minute next.1 = countOne now 60000 (OTPSpec_Minute state) ∧
    OTPSpec_Daily next.1 = countOne now 86400000 (OTPSpec_Daily state) ∧
    ∀ d', (Destination_Hour (OTPSpec_Destination next.1 d'), Destination_Day (OTPSpec_Destination next.1 d')) =
      let D := OTPSpec_Destination state d' in
      if decide (d' = d)
      then (countOne now 3600000 (Destination_Hour D), countOne now 86400000 (Destination_Day D))
      else (Destination_Hour D, Destination_Day D)
  else next.1 = state.
Proof.
  unfold specIssue. cbv zeta. destruct (Destination_Lockout _); [done|].
  destruct (Destination_Cooldown _) as [[]|]; [done|].
  destruct (overLimit _ _) eqn:Hover; [done|]. cbn [fst snd answer reason]. rewrite bool_decide_eq_true_2 by done.
  split_and!; [done..|]. intros d'. cbn. destruct (decide (d' = d)) as [->|]; done.
Qed.

Lemma other_counts call now state :
  issuesAny call = false →
  let next := specCall p call now state in
  OTPSpec_Minute next.1 = OTPSpec_Minute state ∧ OTPSpec_Daily next.1 = OTPSpec_Daily state ∧
  ∀ d', (Destination_Hour (OTPSpec_Destination next.1 d'), Destination_Day (OTPSpec_Destination next.1 d')) =
    (Destination_Hour (OTPSpec_Destination state d'), Destination_Day (OTPSpec_Destination state d')).
Proof.
  assert (∀ d D, Destination_Hour D = Destination_Hour (OTPSpec_Destination state d) →
    Destination_Day D = Destination_Day (OTPSpec_Destination state d) →
    ∀ d', (Destination_Hour (OTPSpec_Destination (putDestination state d D) d'),
           Destination_Day (OTPSpec_Destination (putDestination state d D) d')) =
          (Destination_Hour (OTPSpec_Destination state d'), Destination_Day (OTPSpec_Destination state d'))) as Hput.
  { intros d D Hh Hd d'. cbn. destruct (decide (d' = d)) as [->|]; [|done]. by rewrite Hh, Hd. }
  intros Hcall. destruct call as [d id h|d id|d id m|d h|e m st]; try done; cbn [specCall fst].
  - split_and!; [done..|]. by apply Hput.
  - unfold specVerify. cbv zeta. destruct (Destination_Lockout _); [done|].
    destruct (Destination_Challenge _); [|done]. destruct (decide _); [|destruct (_ <=? _)%Z];
      (split_and!; [done..|]; by apply Hput).
  - unfold specDeliver. by destruct (OTPSpec_Events state e).
Qed.

(** Below every limit. *)
Lemma overLimit_below d state :
  overLimit (sends state d) (limits p) = None →
  let D := OTPSpec_Destination state d in
  (∀ n e, Destination_Hour D = Some (n, e) → n < OTPPolicy_PhoneSendHourly p)%Z ∧
  (∀ n e, Destination_Day D = Some (n, e) → n < OTPPolicy_PhoneSendDaily p)%Z ∧
  (∀ n e, OTPSpec_Minute state = Some (n, e) → n < OTPPolicy_GlobalSendMinute p)%Z ∧
  (∀ n e, OTPSpec_Daily state = Some (n, e) → n < OTPPolicy_GlobalSendDaily p)%Z.
Proof.
  unfold sends, limits. cbv zeta. cbn [overLimit].
  destruct (Destination_Hour _) as [[]|], (Destination_Day _) as [[]|], (OTPSpec_Minute _) as [[]|],
    (OTPSpec_Daily _) as [[]|]; intros Ho; op_cases Ho; naive_solver lia.
Qed.

(** The conditions of [sent_within], for the counters of a destination and for those of all. *)
Lemma count_destination (get : Destination → Counter) window limit d call now state :
  (∀ D, get D = Destination_Hour D) ∧ window = 3600000%Z ∧ limit = OTPPolicy_PhoneSendHourly p ∨
  (∀ D, get D = Destination_Day D) ∧ window = 86400000%Z ∧ limit = OTPPolicy_PhoneSendDaily p →
  let next := specCall p call now state in
  let count s := get (OTPSpec_Destination s d) in
  if issues d call && bool_decide (reason next.2 = "reserved")
  then count next.1 = countOne now window (count state) ∧ ∀ n e, count state = Some (n, e) → (n < limit)%Z
  else count next.1 = count state.
Proof.
  intros Hget. cbv zeta. destruct (issuesAny call) eqn:Hany.
  - destruct call as [d' id h| | | |]; try done. cbn [specCall issues].
    pose proof (issue_counts d' id h now state) as Hi. cbv zeta in Hi.
    destruct (bool_decide (reason _ = "reserved")); [|rewrite andb_false_r; by rewrite Hi].
    destruct Hi as (Hover & _ & _ & Hd). apply overLimit_below in Hover as (Hh & Hdd & _ & _). specialize (Hd d).
    destruct (decide (d = d')) as [<-|Hne].
    + rewrite bool_decide_eq_true_2 by done. cbn [andb]. injection Hd as H1 H2.
      destruct Hget as [(Hg & -> & ->)|(Hg & -> & ->)]; rewrite !Hg; by split.
    + rewrite bool_decide_eq_false_2 by done. cbn [andb]. injection Hd as H1 H2.
      destruct Hget as [(Hg & _ & _)|(Hg & _ & _)]; by rewrite !Hg.
  - pose proof (other_counts call now state Hany) as (_ & _ & Hd). specialize (Hd d). injection Hd as H1 H2.
    assert (issues d call = false) as -> by by destruct call. cbn [andb].
    destruct Hget as [(Hg & _ & _)|(Hg & _ & _)]; by rewrite !Hg.
Qed.

Lemma count_all (get : OTPSpec → Counter) window limit call now state :
  (∀ s, get s = OTPSpec_Minute s) ∧ window = 60000%Z ∧ limit = OTPPolicy_GlobalSendMinute p ∨
  (∀ s, get s = OTPSpec_Daily s) ∧ window = 86400000%Z ∧ limit = OTPPolicy_GlobalSendDaily p →
  let next := specCall p call now state in
  if issuesAny call && bool_decide (reason next.2 = "reserved")
  then get next.1 = countOne now window (get state) ∧ ∀ n e, get state = Some (n, e) → (n < limit)%Z
  else get next.1 = get state.
Proof.
  intros Hget. cbv zeta. destruct (issuesAny call) eqn:Hany; cbn [andb].
  - destruct call as [d' id h| | | |]; try done. cbn [specCall].
    pose proof (issue_counts d' id h now state) as Hi. cbv zeta in Hi.
    destruct (bool_decide (reason _ = "reserved")); [|by rewrite Hi].
    destruct Hi as (Hover & H1 & H2 & _). apply overLimit_below in Hover as (_ & _ & Hm & Hd).
    destruct Hget as [(Hg & -> & ->)|(Hg & -> & ->)]; rewrite !Hg; by split.
  - pose proof (other_counts call now state Hany) as (H1 & H2 & _).
    destruct Hget as [(Hg & _ & _)|(Hg & _ & _)]; by rewrite !Hg.
Qed.
End spec.

(** ** The service *)

Section service.
Context `{GoRuntime, HMAC, RedisServer} (o : OTP) (Hp : sound_policy (OTP_policy o)).

(** The data sets the scripts lead to from an empty one. *)
Definition serving (db : Redis) (now : Z) : Prop :=
  ∃ start empty before, (∀ key, entry empty start key = None) ∧ onward start before ∧
    Forall (λ x, x.1 ≤ now)%Z before ∧ (start ≤ now)%Z ∧ db = (otpRun o before empty).1.

Lemma onward_app start trace now call :
  onward start (trace ++ [(now, call)]) →
  onward start trace ∧ (∀ x, x ∈ trace → (x.1 ≤ now)%Z) ∧ (start ≤ now)%Z.
Proof.
  revert start. induction trace as [|[t c] trace IH]; intros start; cbn.
  { intros [? _]. split_and!; [done| |done]. by intros x ?%not_elem_of_nil. }
  intros [Hle (Hon & Hall & Hlast)%IH]. split_and!; [done|done| |lia].
  intros x [->|Hx]%elem_of_cons; [done|by apply Hall].
Qed.

Lemma lock_inv_run p trace state : lock_inv state → lock_inv (specRun p trace state).1.
Proof.
  revert state. induction trace as [|[now call] trace IH]; intros state Hi; [done|]. cbn [specRun].
  pose proof (lock_inv_call p call now _ (lock_inv_fade now _ Hi)) as Hi'.
  destruct (specCall p call now (fadeSpec now state)) as [next r]. specialize (IH next Hi').
  by destruct (specRun p trace next).
Qed.

Lemma serving_state db now : serving db now → ∃ state, holds o db now state ∧ lock_inv state.
Proof.
  intros (start & empty & before & He & Hon & Hpast & Hstart & ->).
  destruct (simulated_run o Hp before start empty emptySpec) as (_ & last & Hh & Hlast); [by apply holds_empty|done|].
  exists (fadeSpec now (specRun (OTP_policy o) before emptySpec).1). split.
  - apply (holds_later _ _ last); [done|]. destruct Hlast as [->|(x & Hx & ->)]; [done|].
    exact (proj1 (Forall_forall _ _) Hpast x Hx).
  - apply lock_inv_fade, lock_inv_run. intros d. done.
Qed.

(** The replies of a run; an error of a script has none. *)
Definition repliesOf (trace : list (Z * OTPCall)) (db : Redis) : list (list RedisReply) :=
  default [] <$> (otpRun o trace db).2.

Lemma replies_spec trace start db state :
  holds o db start state → onward start trace → repliesOf trace db = replies (OTP_policy o) trace state.
Proof.
  intros Hh Hon. destruct (simulated_run o Hp trace start db state Hh Hon) as [Hr _].
  unfold repliesOf, replies. rewrite Hr, <- list_fmap_compose. apply list_fmap_id.
Qed.

(** C12. The scripts refine the specification.  From an empty Redis, whatever calls of
    [Send], [Check] and the webhook run their scripts, in whatever order, at times that do not
    run backwards: no script fails, each answers what the specification [OTPSpec] answers
    (per destination a challenge, a cooldown and a lockout with their ends, and counters with
    theirs), and the data set represents the state of the specification afterwards and at every
    later time. *)
Theorem scripts_refine_spec (trace : list (Z * OTPCall)) (start now : Z) (empty : Redis) :
  (∀ key, entry empty start key = None) → onward start trace → (start ≤ now)%Z →
  Forall (λ x, x.1 ≤ now)%Z trace →
  (otpRun o trace empty).2 = Some <$> (specRun (OTP_policy o) trace emptySpec).2 ∧
  holds o (otpRun o trace empty).1 now (fadeSpec now (specRun (OTP_policy o) trace emptySpec).1).
Proof.
  intros He Hon Hstart Hpast.
  destruct (simulated_run o Hp trace start empty emptySpec) as (Hrs & last & Hh & Hlast); [by apply holds_empty|done|].
  split; [done|]. apply (holds_later _ _ last); [done|]. destruct Hlast as [->|(x & Hx & ->)]; [done|].
  exact (proj1 (Forall_forall _ _) Hpast x Hx).
Qed.

(** C13. A code can be guessed few times and used once.  In any run in which no new code is issued
    for a destination, the answers to the guesses for it are: fewer than [MaxAttempts] times
    "invalid"; then possibly one "approved" (or the lockout, or the expiry); and from then on only
    "locked" and "expired", whatever is guessed. *)
Theorem guesses_bounded (d : string) (trace : list (Z * OTPCall)) (start : Z) (db : Redis) :
  serving db start → onward start trace →
  "reserved" ∉ reasons (issues d) trace (repliesOf trace db) →
  guesses (OTPPolicy_MaxAttempts (OTP_policy o)) (reasons (verifies d) trace (repliesOf trace db)).
Proof.
  intros (state & Hh & Hi)%serving_state Hon. rewrite (replies_spec _ _ _ _ Hh Hon). intros Hno.
  destruct (sound_policy_spec _ Hp) as [(_ & _ & _ & Hmax) _]. pose proof (Hh (KeyChallenge d)) as Hc.
  cbn [represents] in Hc. fold (challenge state d) in Hc.
  assert (∀ c, challenge state d = Some c → 0 ≤ Challenge_Attempts c < OTPPolicy_MaxAttempts (OTP_policy o))%Z as Hatt.
  { intros c Hs. rewrite Hs in Hc. by destruct Hc as (h & _ & _ & _ & _ & ?). }
  destruct (guesses_run (OTP_policy o) trace state d) as (k & rest & Heq & Hk & Hrest); [lia|done| |done|].
  { intros c Hs. by apply Hatt. }
  exists k, rest. split_and!; [done| |done]. destruct (challenge state d) as [c|]; cbn in Hk; [|lia].
  specialize (Hatt c eq_refl). lia.
Qed.

(** The right code is accepted.  A code is issued; until it is used other calls run, but none
    that issues another code for the destination, rolls this one back or already uses it, and
    fewer than [MaxAttempts] guesses; then, before the code expires, it is approved. *)
Theorem right_code_approved (d id codeHash : string) (trace : list (Z * OTPCall)) (t now : Z)
    (db db1 : Redis) (r : list RedisReply) :
  let expires := (t + Milliseconds (OTPPolicy_ChallengeTTL (OTP_policy o)))%Z in
  serving db t → otpCall o (Issue d id codeHash) t db = (db1, Some r) → reason r = "reserved" →
  onward t (trace ++ [(now, Verify d codeHash)]) → (now < expires)%Z →
  Forall (λ x, harmless d id codeHash x.2) trace →
  "reserved" ∉ reasons (issues d) trace (repliesOf trace db1) →
  (guessCount d trace < OTPPolicy_MaxAttempts (OTP_policy o))%Z →
  (otpCall o (Verify d codeHash) now (otpRun o trace db1).1).2 = Some (answer 1 "approved" 0).
Proof.
  intros expires (state & Hh & Hi)%serving_state Hissue Hres Hon Hnow Hall Hno Hcount.
  destruct (simulated o Hp db t state (Issue d id codeHash) Hh) as (db1' & Hrun & Hh1). rewrite Hissue in Hrun.
  injection Hrun as <- ->. cbn [specCall] in Hres, Hh1.
  pose proof (specCall_step (OTP_policy o) (Issue d id codeHash) t state d) as Hstep. cbn [specCall] in Hstep.
  pose proof (lock_inv_call (OTP_policy o) (Issue d id codeHash) t state Hi) as Hi1. cbn [specCall] in Hi1.
  set (next := (specIssue (OTP_policy o) d id codeHash t state).1) in *. rewrite Hres in Hstep.
  assert (challenge next d = Some (mkChallenge id codeHash 0 expires)) as Hc.
  { inversion Hstep as [? ? ? _ Hq| | |? ? ? Hc| | | |]; [|done]. exfalso. apply Hq; [|done]. cbn.
    by rewrite bool_decide_eq_true_2. }
  apply onward_app in Hon as (Hon & Hafter & Hfirst).
  assert (Forall (λ x, x.1 < expires)%Z trace) as Htimes.
  { apply Forall_forall. intros x Hx. specialize (Hafter x Hx). lia. }
  rewrite (replies_spec _ _ _ _ Hh1 Hon) in Hno.
  destruct (challenge_survives (OTP_policy o) trace next d _ Hi1 Hc) as (Hil & n & Hl); [|done|done|].
  { apply Forall_and. by split. }
  destruct (simulated_run o Hp trace t db1 next Hh1 Hon) as (_ & last & Hhl & Hlast).
  assert (last ≤ now)%Z as Hle by (destruct Hlast as [->|(x & Hx & ->)]; [lia|by apply (Hafter x)]).
  pose proof (holds_later o _ _ _ _ Hhl Hle) as Hhn.
  destruct (simulated o Hp _ now _ (Verify d codeHash) Hhn) as (db3 & -> & _). cbn [snd specCall].
  pose proof (faded_challenge now (specRun (OTP_policy o) trace next).1 d) as Hf. rewrite Hl in Hf.
  cbn [unexpired Challenge_ExpiresAt] in Hf. rewrite (proj2 (Z.leb_gt _ _)) in Hf by done.
  unfold specVerify. cbv zeta. unfold challenge in Hf. rewrite Hf.
  pose proof (lock_inv_fade now _ Hil d) as Hlock. unfold lockout, challenge in Hlock. rewrite Hf in Hlock.
  destruct (Destination_Lockout _); [by specialize (Hlock ltac:(done))|]. by rewrite decide_True.
Qed.

Definition within (start length : Z) (trace : list (Z * OTPCall)) : Prop :=
  Forall (λ x, (x.1 < start + length)%Z) trace.

Lemma onward_from start trace length :
  onward start trace → within start length trace → Forall (λ x, (start ≤ x.1 < start + length)%Z) trace.
Proof.
  intros Hon Hw. apply Forall_forall. intros x Hx.
  split; [|exact (proj1 (Forall_forall _ _) Hw x Hx)]. clear Hw. revert start Hon.
  induction trace as [|[now call] trace IH]; intros start Hon; [by apply not_elem_of_nil in Hx|].
  destruct Hon as [Hle Hon]. apply elem_of_cons in Hx as [->|Hx]; [done|]. specialize (IH Hx now Hon). lia.
Qed.

Lemma allowance_bound limit until c x :
  counted c limit x → (1 ≤ limit)%Z → (allowance limit until c ≤ 2 * limit)%Z.
Proof.
  intros [_ Hb] Hl. destruct c as [[n e]|]; cbn; [|lia]. specialize (Hb n e eq_refl). destruct (_ <=? _)%Z; lia.
Qed.

(** How many codes are sent.  In any run of the service, the codes it issues for a destination
    within an hour (a day) are at most twice the hourly (daily) limit of the destination, and those
    it issues at all within a minute (a day) at most twice the limits of all: a fixed window counts
    up to its limit, and a period meets at most two windows. *)
Theorem sends_bounded (d : string) (trace : list (Z * OTPCall)) (start : Z) (db : Redis) :
  let p := OTP_policy o in
  let sent which := Z.of_nat (sentFor which trace (repliesOf trace db)) in
  serving db start → onward start trace →
  (within start 3600000 trace → sent (issues d) ≤ 2 * OTPPolicy_PhoneSendHourly p)%Z ∧
  (within start 86400000 trace → sent (issues d) ≤ 2 * OTPPolicy_PhoneSendDaily p)%Z ∧
  (within start 60000 trace → sent issuesAny ≤ 2 * OTPPolicy_GlobalSendMinute p)%Z ∧
  (within start 86400000 trace → sent issuesAny ≤ 2 * OTPPolicy_GlobalSendDaily p)%Z.
Proof.
  intros p sent (state & Hh & Hi)%serving_state Hon. unfold sent. rewrite (replies_spec _ _ _ _ Hh Hon).
  destruct (sound_policy_spec _ Hp) as [_ Hl]. unfold limits in Hl. fold p in Hl.
  repeat match goal with Hall : Forall _ (_ :: _) |- _ => apply Forall_cons in Hall as [? Hall] end.
  pose proof (Hh (KeyHour d)) as Hhour. pose proof (Hh (KeyDay d)) as Hday.
  pose proof (Hh KeyMinute) as Hmin. pose proof (Hh KeyDaily) as Hdaily. cbn [represents] in Hhour, Hday, Hmin, Hdaily.
  split_and!; intros Hw; pose proof (onward_from _ _ _ Hon Hw) as Ht.
  - etrans; [|by eapply allowance_bound; [apply Hhour|lia]].
    apply (sent_within p (λ s, Destination_Hour (OTPSpec_Destination s d))); [done| |apply Hhour|lia|done].
    intros call now s. apply (count_destination p Destination_Hour). by left.
  - etrans; [|by eapply allowance_bound; [apply Hday|lia]].
    apply (sent_within p (λ s, Destination_Day (OTPSpec_Destination s d))); [done| |apply Hday|lia|done].
    intros call now s. apply (count_destination p Destination_Day). by right.
  - etrans; [|by eapply allowance_bound; [apply Hmin|lia]].
    apply (sent_within p OTPSpec_Minute); [done| |apply Hmin|lia|done].
    intros call now s. apply (count_all p OTPSpec_Minute). by left.
  - etrans; [|by eapply allowance_bound; [apply Hdaily|lia]].
    apply (sent_within p OTPSpec_Daily); [done| |apply Hdaily|lia|done].
    intros call now s. apply (count_all p OTPSpec_Daily). by right.
Qed.

(** What [Check] answers when Redis does: by what it finds for the destination. *)
Lemma Check_answers (env : OTPEnv) (phone code : string) (db : Redis) state :
  let d := destinationID o phone in
  let r := (specVerify (OTP_policy o) d (codeDigest o phone code) (OTPEnv_now env 0) state).2 in
  holds o (OTPEnv_others env 0 db) (OTPEnv_now env 0) state → OTPEnv_fault env 0 = None →
  destinationAllowed o phone = true → numericCode code (OTPPolicy_CodeLength (OTP_policy o)) = true →
  (Check o env phone code db).2 =
    if bool_decide (reason r = "approved") then None
    else if bool_decide (reason r = "expired") then Some ErrExpiredCode
    else if bool_decide (reason r = "locked")
    then Some (RetryError ErrLocked
      match r with [_; _; ReplyInt n] => int64_wrap ((if (n <? 0)%Z then 0 else n) * Millisecond) | _ => 0%Z end)
    else Some ErrInvalidCode.
Proof.
  intros d r Hh Hf Hdest Hnum. unfold Check. rewrite Hdest, Hnum. cbn [negb orb]. unfold runScript. rewrite Hf.
  destruct (simulated o Hp _ _ state (Verify d (codeDigest o phone code)) Hh) as (db' & Hrun & _).
  cbn [otpCall specCall] in Hrun. fold d. rewrite Hrun. fold r.
  assert (∃ status why n, r = answer status why n ∧ (why = "approved" ↔ status = 1%Z)) as (status & why & n & Hr & Hs).
  { unfold r, specVerify. cbv zeta. repeat case_match; eexists _, _, _; (split; [reflexivity|]); done. }
  rewrite Hr. cbn [parseScriptResult answer reason fst snd]. destruct (Z.eqb_spec status 1) as [->|Hne].
  - by rewrite (bool_decide_eq_true_2 (why = "approved")) by by apply Hs.
  - by rewrite (bool_decide_eq_false_2 (why = "approved")) by by rewrite Hs.
Qed.
End service.

(** ** Witnesses: one destination, in a Redis that keeps its entries in a map *)
Section witnesses.
#[local] Existing Instance Reference.runtime.
#[local] Existing Instance ReferenceTokens.library.
#[local] Existing Instance ReferenceHttp.hmac.

Definition sample_otp : OTP :=
  mkOTP "0123456789abcdef0123456789abcdef" DefaultPolicy "clustr:otp:{sample}:" "".

Lemma sample_policy_sound : sound_policy (OTP_policy sample_otp).
Proof. split; [done|]. by repeat constructor. Qed.

Definition no_data : Redis := ∅.

(** A code is issued, guessed wrong twice, and used; another use and a second code follow. *)
Definition sampleTrace : list (Z * OTPCall) :=
  [(1000, Issue "d" "c1" "right"); (2000, Attach "d" "c1" "m1"); (3000, Verify "d" "wrong");
   (4000, Verify "d" "worse"); (5000, Verify "d" "right"); (6000, Verify "d" "right");
   (70000, Issue "d" "c2" "next")]%Z.

Lemma scripts_refine_spec_witness :
  reason <$> repliesOf sample_otp sampleTrace no_data =
    ["reserved"; ""; "invalid"; "invalid"; "approved"; "expired"; "reserved"] ∧
  (otpRun sample_otp sampleTrace no_data).2 =
    Some <$> (specRun DefaultPolicy sampleTrace emptySpec).2.
Proof.
  split; [vm_compute; reflexivity|].
  apply (scripts_refine_spec sample_otp sample_policy_sound sampleTrace 0 70000 no_data);
    [done|by repeat constructor|done|by repeat constructor].
Defined.

Lemma empty_serving now : serving sample_otp no_data now.
Proof. exists now, no_data, []. split_and!; [done|done|by constructor|lia|done]. Qed.

(** After the code is issued, five wrong guesses lock the destination. *)
Definition guessing : list (Z * OTPCall) :=
  [(2000, Verify "d" "g1"); (2001, Verify "d" "g2"); (2002, Verify "d" "g3"); (2003, Verify "d" "g4");
   (2004, Verify "d" "g5"); (2005, Verify "d" "right"); (902005, Verify "d" "right")]%Z.

Definition issued_data : Redis := (otpCall sample_otp (Issue "d" "c1" "right") 1000%Z no_data).1.

Lemma issued_serving : serving sample_otp issued_data 2000.
Proof.
  exists 0%Z, no_data, [(1000%Z, Issue "d" "c1" "right")].
  split_and!; [done|by repeat constructor|by repeat constructor|lia|]. cbn [otpRun]. unfold issued_data.
  by destruct (otpCall _ _ _ _).
Qed.

Lemma guesses_bounded_witness :
  reasons (verifies "d") guessing (repliesOf sample_otp guessing issued_data) =
    ["invalid"; "invalid"; "invalid"; "invalid"; "locked"; "locked"; "expired"] ∧
  guesses 5 (reasons (verifies "d") guessing (repliesOf sample_otp guessing issued_data)).
Proof.
  split; [vm_compute; reflexivity|].
  apply (guesses_bounded sample_otp sample_policy_sound "d" guessing 2000); [apply issued_serving| |].
  - cbn. lia.
  - assert (reasons (issues "d") guessing (repliesOf sample_otp guessing issued_data) = []) as ->
      by (vm_compute; reflexivity). apply not_elem_of_nil.
Defined.

(** Two wrong guesses and a call for another destination before the code is used. *)
Definition hesitating : list (Z * OTPCall) :=
  [(2000, Verify "d" "g1"); (2001, Issue "e" "c9" "other"); (2002, Verify "d" "g2")]%Z.

Lemma right_code_approved_witness :
  (otpCall sample_otp (Verify "d" "right") 3000%Z (otpRun sample_otp hesitating issued_data).1).2 =
    Some (answer 1 "approved" 0).
Proof.
  assert (otpCall sample_otp (Issue "d" "c1" "right") 1000%Z no_data =
            (issued_data, Some (answer 1 "reserved" 0))) as Hissue
    by (apply pair_run; vm_compute; reflexivity).
  apply (right_code_approved sample_otp sample_policy_sound "d" "c1" "right" hesitating 1000 3000 no_data
           issued_data (answer 1 "reserved" 0)); [apply empty_serving|exact Hissue|reflexivity| |reflexivity| | |vm_compute; reflexivity].
  - cbn. lia.
  - unfold harmless. by repeat constructor.
  - assert (reasons (issues "d") hesitating (repliesOf sample_otp hesitating issued_data) = []) as ->
      by (vm_compute; reflexivity). apply not_elem_of_nil.
Defined.

(** Six calls within a minute and a half send two codes: the cooldown stops the others. *)
Definition sending : list (Z * OTPCall) :=
  [(0, Issue "d" "c1" "h"); (1000, Issue "d" "c2" "h"); (59999, Issue "d" "c3" "h");
   (60000, Issue "d" "c4" "h"); (60001, Issue "d" "c5" "h"); (90000, Issue "d" "c6" "h")]%Z.

Lemma sends_bounded_witness :
  sentFor (issues "d") sending (repliesOf sample_otp sending no_data) = 2 ∧
  (Z.of_nat (sentFor (issues "d") sending (repliesOf sample_otp sending no_data)) ≤ 10)%Z.
Proof.
  split; [vm_compute; reflexivity|].
  apply (sends_bounded sample_otp sample_policy_sound "d" sending 0 no_data (empty_serving 0)).
  - cbn. lia.
  - by repeat constructor.
Defined.

(** The status of a delivery. *)
Definition deliveryStatus (db : Redis) (now : Z) (messageID : string) : option string :=
  match entry db now (deliveryKey sample_otp messageID) with
  | Some (RedisHash h, _) => h !! "status"
  | _ => None
  end.

(** The provider reports a delivery before [Send] has attached the message to its challenge: the
    attachment sets the status back to "queued", and the repeated report is taken for a
    duplicate. *)
Theorem attach_forgets_delivery :
  let reported := [(1000, Issue "d" "c1" "right"); (2000, Deliver "e1" "m1" "delivered")]%Z in
  let attached := (reported ++ [(2001, Attach "d" "c1" "m1"); (3000, Deliver "e1" "m1" "delivered")])%Z in
  deliveryStatus (otpRun sample_otp reported no_data).1 4000 "m1" = Some "delivered" ∧
  deliveryStatus (otpRun sample_otp attached no_data).1 4000 "m1" = Some "queued".
Proof. split; vm_compute; reflexivity. Qed.
End witnesses.
