(* ===== verification/EnvFile.v ===== *)
(** * The runtime configuration file

    [src/internal/config/envfile.go]: the file of assignments a container gets its settings from,
    and the environment the process has after loading it.

    [os.Lstat], [os.Open] and the range over a map, whose order Go leaves open, are parameters. *)

From Stdlib Require Import ZArith Lia Ascii.
From S2P Require Import Prelude.
From S2P Require Import Runtime.
From S2P Require Import GoText.
From S2P Require Import Middleware.
From S2P Require Import HttpReference.
From S2P Require Import Config.

(** ** The environment of a process *)

Abbreviation Environ := (gmap string string).
Definition Getenv (e : Environ) (key : string) : string := default "" (e !! key).

(** [os.Setenv]: [EINVAL] for a key that is empty or holds an equals sign or a NUL, and for a
    value that holds a NUL. *)
Definition Setenv (e : Environ) (key value : string) : option Environ :=
  if same key "" || occurs "=" key || occurs "000" key || occurs "000" value then None
  else Some (<[key := value]> e).

(** ** Files *)

(** What [os.Lstat] says of a path; the owner is missing if [Sys] is not a [*syscall.Stat_t]. *)
Record FileInfo := mkFileInfo {
  FileInfo_IsRegular : bool; FileInfo_IsSymlink : bool; FileInfo_Size : Z; FileInfo_Perm : Z;
  FileInfo_Owner : option (Z * Z) }.

(** The bytes [Read] yields of an opened file, and whether they end with [io.EOF] instead of
    another error. *)
Record FileBytes := mkFileBytes { FileBytes_Content : string; FileBytes_Complete : bool }.

Definition newline : ascii := "010".
Definition carriageReturn : ascii := "013".
Definition maxRuntimeConfigBytes : Z := 256 * 1024.

(** The limit given to [scanner.Buffer]: a line and the newline that ends it have to fit. *)
Definition scannerBuffer : Z := 16 * 1024.

Definition dropCR (line : string) : string :=
  match rev (bytes_of line) with
  | c :: rest => if bool_decide (c = carriageReturn) then of_bytes (rev rest) else line
  | [] => line
  end.

(** The lines the scanner makes of the text between newlines, and whether it stops at one that
    is too long; nothing follows the last newline of a file that ends with one. *)
Fixpoint scanLines (pieces : list string) : list string * bool :=
  match pieces with
  | [] => ([], true)
  | piece :: pieces =>
    if match pieces with [] => same piece "" | _ => false end then ([], true)
    else if (scannerBuffer <=? strlen piece)%Z then ([], false)
    else let '(lines, complete) := scanLines pieces in (dropCR piece :: lines, complete)
  end.

(** ** Assignments *)

Definition keyStart (n : N) : bool :=
  ((65 <=? n) && (n <=? 90) || (97 <=? n) && (n <=? 122) || (n =? 95))%N.
Definition keyByte (n : N) : bool := keyStart n || digit n.

(** [^[A-Za-z_][A-Za-z0-9_]*$] *)
Definition runtimeConfigKey (key : string) : bool :=
  match key with
  | String c rest => keyStart (N_of_ascii c) && every_byte keyByte rest
  | "" => false
  end.

Definition apiAllowed (key : string) : bool :=
  HasPrefix key "CLUSTER_"
  && (negb (same key "CLUSTER_CONFIG_FILE") && negb (same key "CLUSTER_TRUSTED_PROXY_CIDRS")).

Definition migrationAllowed (key : string) : bool :=
  bool_decide (key ∈ ["CLUSTER_DATABASE_URL"; "CLUSTER_DATABASE_MAX_CONNS";
                      "CLUSTER_DATABASE_MIN_CONNS"; "CLUSTER_TLS_CA_FILE"]).

Section file.
Context (Lstat : string → option FileInfo) (Open : string → option FileBytes).
Context (range : Environ → list (string * string)).

Section allowed.
Context (allowed : string → bool).

(** The body of the loop over the lines. *)
Definition assignLine (line : string) (values : Environ) : Checked Environ :=
  if same line "" || HasPrefix line "#" then mret values else
  _ ← refuse (occurs carriageReturn line || occurs "000" line)
        "runtime configuration contains unsupported bytes";
  match cut "=" line with
  | None => inr "runtime configuration contains a disallowed assignment"
  | Some (key, value) =>
    _ ← refuse (negb (runtimeConfigKey key) || negb (allowed key))
          "runtime configuration contains a disallowed assignment";
    _ ← refuse (bool_decide (is_Some (values !! key))) ("runtime configuration contains duplicate key " +:+ key);
    mret (<[key := value]> values)
  end.

Fixpoint assignLines (lines : list string) (values : Environ) : Checked Environ :=
  match lines with
  | [] => mret values
  | line :: lines => values ← assignLine line values; assignLines lines values
  end.

(** The assignments of an opened file. *)
Definition readAssignments (file : FileBytes) : Checked Environ :=
  let '(lines, complete) := scanLines (Split newline (FileBytes_Content file)) in
  values ← assignLines lines ∅;
  _ ← refuse (negb complete || negb (FileBytes_Complete file)) "runtime configuration cannot be parsed";
  _ ← refuse (bool_decide (values = ∅)) "runtime configuration contains no assignments";
  mret values.

(** The last loop: the variables set before a failure stay set. *)
Fixpoint setAll (e : Environ) (assignments : list (string * string)) : Environ * option string :=
  match assignments with
  | [] => (e, None)
  | (key, value) :: assignments =>
    match Setenv e key value with
    | None => (e, Some ("load runtime configuration key " +:+ key))
    | Some e => setAll e assignments
    end
  end.

(** The checks of the file, before it is opened. *)
Definition checkFile (path : string) : Checked unit :=
  _ ← refuse (same path "") "runtime configuration file path is required";
  match Lstat path with
  | None => inr "runtime configuration file is unavailable"
  | Some info =>
    _ ← refuse (negb (FileInfo_IsRegular info) || FileInfo_IsSymlink info)
          "runtime configuration must be a regular file";
    _ ← refuse (outside 1 (FileInfo_Size info) maxRuntimeConfigBytes) "runtime configuration file size is invalid";
    _ ← refuse (negb (FileInfo_Perm info =? 288)%Z) "runtime configuration file must have mode 0440";
    refuse ((same path "/run/secrets/api.env" || same path "/run/secrets/migrate.env")
            && negb (bool_decide (FileInfo_Owner info = Some (0, 65532)%Z)))
      "runtime configuration file has unsafe ownership"
  end.

Definition loadEnvironmentFile (path : string) (e : Environ) : Environ * option string :=
  match (_ ← checkFile path;
         match Open path with
         | None => inr "runtime configuration file cannot be read"
         | Some file => readAssignments file
         end) with
  | inr message => (e, Some message)
  | inl values => setAll e (range values)
  end.
End allowed.

Definition LoadAPIEnvironmentFile : string → Environ → Environ * option string :=
  loadEnvironmentFile apiAllowed.
Definition LoadMigrationEnvironmentFile : string → Environ → Environ * option string :=
  loadEnvironmentFile migrationAllowed.
End file.

(** ** What a file does to the environment *)

(** The assignments a file may hold. *)
Definition assignable (allowed : string → bool) (key value : string) : Prop :=
  runtimeConfigKey key = true ∧ allowed key = true ∧
  occurs carriageReturn value = false ∧ occurs "000" value = false.

(** What has been checked of a file that is loaded. *)
Definition file_safe (path : string) (info : FileInfo) : Prop :=
  FileInfo_IsRegular info = true ∧ FileInfo_IsSymlink info = false ∧
  (1 ≤ FileInfo_Size info ≤ maxRuntimeConfigBytes)%Z ∧ FileInfo_Perm info = 288%Z ∧
  (path = "/run/secrets/api.env" ∨ path = "/run/secrets/migrate.env" →
   FileInfo_Owner info = Some (0, 65532)%Z).

Lemma occurs_cons b c s : occurs b (String c s) = bool_decide (b = c) || occurs b s.
Proof.
  unfold occurs. cbn [String.list_ascii_of_string].
  destruct (bool_decide (b = c)) eqn:Hb; bool_prop; cbn [orb].
  - subst. apply bool_decide_true. left.
  - apply bool_decide_ext. rewrite elem_of_cons. naive_solver.
Qed.

Lemma occurs_app b s t : occurs b (s +:+ t) = occurs b s || occurs b t.
Proof.
  induction s as [|c s IH]; [done|]. change (String c s +:+ t) with (String c (s +:+ t)).
  rewrite !occurs_cons, IH. by rewrite orb_assoc.
Qed.

(** The bytes of a key are letters, digits and underscores. *)
Lemma key_free b key :
  keyByte (N_of_ascii b) = false → runtimeConfigKey key = true → occurs b key = false.
Proof.
  intros Hb. destruct key as [|c rest]; [done|]. cbn [runtimeConfigKey]. intros [Hc Hrest]%andb_true_iff.
  assert (Hall : every_byte keyByte (String c rest) = true).
  { unfold every_byte in *. cbn [String.list_ascii_of_string forallb]. unfold keyByte at 1. by rewrite Hc, Hrest. }
  unfold occurs. apply bool_decide_eq_false. intros Hin.
  unfold every_byte in Hall. rewrite forallb_forall in Hall.
  specialize (Hall b). rewrite Hb in Hall. apply list_elem_of_In in Hin. naive_solver.
Qed.

Lemma occurs_slice b key value sep :
  occurs b (key +:+ String sep value) = false → occurs b value = false.
Proof. rewrite occurs_app, occurs_cons. intros H. by bool_prop. Qed.

Section facts.
Context (allowed : string → bool).

Lemma assignLine_spec line values values' :
  assignLine allowed line values = inl values' →
  values' = values ∨ ∃ key value, values !! key = None ∧ values' = <[key := value]> values ∧
    assignable allowed key value.
Proof.
  unfold assignLine. destruct (same line "" || _); [intros [= <-]; by left|]. intros Hl. checks Hl.
  destruct (cut "=" line) as [[key value]|] eqn:Hc; [|done]. checks Hl. injection Hl as <-.
  right. exists key, value. apply cut_spec in Hc as [-> _]. bool_prop.
  split; [by apply eq_None_not_Some|]. split; [done|].
  split; [done|]. split; [done|]. split; eapply occurs_slice; eassumption.
Qed.

Lemma assignLines_spec lines values values' :
  assignLines allowed lines values = inl values' →
  map_Forall (assignable allowed) values → map_Forall (assignable allowed) values'.
Proof.
  revert values. induction lines as [|line lines IH]; intros values; cbn [assignLines]; [by intros [= <-]|].
  intros (next & Hl & Hrec)%bind_inl Hv.
  apply (IH _ Hrec). apply assignLine_spec in Hl as [->|(key & value & Hf & -> & Ha)]; [done|].
  by apply map_Forall_insert.
Qed.

Lemma readAssignments_spec file values :
  readAssignments allowed file = inl values → map_Forall (assignable allowed) values ∧ values ≠ ∅.
Proof.
  unfold readAssignments. destruct (scanLines _) as [lines complete]. intros Hl.
  apply bind_inl in Hl as (read & Hread & Hl). checks Hl. injection Hl as <-. bool_prop.
  split; [|done]. eapply assignLines_spec; [done|apply map_Forall_empty].
Qed.

Lemma Setenv_assignable e key value :
  assignable allowed key value → Setenv e key value = Some (<[key := value]> e).
Proof.
  intros (Hk & _ & _ & Hv). unfold Setenv. rewrite Hv, !(key_free _ key) by done.
  unfold same. by rewrite bool_decide_false by (by intros ->).
Qed.

(** Setting well-formed variables does not fail. *)
Lemma setAll_spec assignments e :
  NoDup assignments.*1 → Forall (λ p, assignable allowed p.1 p.2) assignments →
  setAll e assignments = (list_to_map assignments ∪ e, None).
Proof.
  revert e. induction assignments as [|[key value] assignments IH]; intros e; cbn.
  - by rewrite (left_id_L ∅ (∪)).
  - intros [Hn Hd]%NoDup_cons [Ha Hf]%Forall_cons. cbn in Ha, Hn.
    rewrite (Setenv_assignable _ _ _ Ha), (IH _ Hd Hf).
    rewrite <-insert_union_r by by apply not_elem_of_list_to_map. by rewrite insert_union_l.
Qed.
End facts.

Lemma checkFile_spec Lstat path u :
  checkFile Lstat path = inl u → ∃ info, Lstat path = Some info ∧ file_safe path info.
Proof.
  unfold checkFile. intros Hc. checks Hc. destruct (Lstat path) as [info|]; [|done]. checks Hc.
  exists info. split; [done|]. unfold file_safe, outside, same in *. bool_prop.
  split_and!; try done; try lia. intros Hp. apply andb_false_iff in Hc as [Hc|Hc]; bool_prop; naive_solver.
Qed.


(** ** Writing a file *)

Definition assignment (p : string * string) : string := p.1 +:+ String "=" p.2.

(** The text of a file of assignments, a line for each. *)
Definition fileOf (assignments : list (string * string)) : string :=
  fold_right (λ p text, assignment p +:+ String newline text) "" assignments.

(** A value one line can hold. *)
Definition fits (p : string * string) : Prop :=
  occurs newline p.2 = false ∧ (strlen (assignment p) < scannerBuffer)%Z.

Lemma cut_key key value : runtimeConfigKey key = true → cut "=" (assignment (key, value)) = Some (key, value).
Proof. intros Hk. apply cut_app. by apply key_free. Qed.

(** The line of an assignment is neither empty nor a comment. *)
Lemma assignment_kept p :
  runtimeConfigKey p.1 = true → same (assignment p) "" = false ∧ HasPrefix (assignment p) "#" = false.
Proof.
  destruct p as [[|c key] value]; [done|]. intros Hk. split; [done|].
  apply not_true_is_false. intros [t [= -> _]]%HasPrefix_spec. done.
Qed.

Lemma dropCR_free line : occurs carriageReturn line = false → dropCR line = line.
Proof.
  unfold dropCR, occurs. intros Ho%bool_decide_eq_false.
  destruct (rev (bytes_of line)) as [|c rest] eqn:Hr; [done|].
  rewrite bool_decide_false; [done|]. intros ->. apply Ho.
  apply list_elem_of_In, in_rev. rewrite Hr. by left.
Qed.

Section writing.
Context (allowed : string → bool).

Lemma assignment_free b p :
  keyByte (N_of_ascii b) = false → b ≠ "="%char → assignable allowed p.1 p.2 → occurs b p.2 = false →
  occurs b (assignment p) = false.
Proof.
  intros Hb Hne (Hk & _) Hv. unfold assignment.
  rewrite occurs_app, occurs_cons, (key_free _ _ Hb Hk), Hv. by rewrite bool_decide_false.
Qed.

Lemma Split_fileOf assignments :
  Forall (λ p, assignable allowed p.1 p.2 ∧ fits p) assignments →
  Split newline (fileOf assignments) = map assignment assignments ++ [""].
Proof.
  induction 1 as [|p assignments [Ha [Hn _]] _ IH]; [done|].
  cbn [fileOf fold_right map]. fold (fileOf assignments).
  rewrite Split_app by (by apply assignment_free). by rewrite IH.
Qed.

Lemma scanLines_assignments assignments :
  Forall (λ p, assignable allowed p.1 p.2 ∧ fits p) assignments →
  scanLines (map assignment assignments ++ [""]) = (map assignment assignments, true).
Proof.
  induction 1 as [|p assignments [Ha [_ Hl]] _ IH]; [done|]. cbn [map app scanLines].
  destruct (map assignment assignments ++ [""]) as [|piece pieces] eqn:Hp; [by destruct assignments|].
  rewrite (proj2 (Z.leb_gt _ _) Hl), IH. f_equal. f_equal. apply dropCR_free.
  destruct Ha as (? & ? & ? & ?). by apply assignment_free.
Qed.

Lemma assignLine_assignment p values :
  assignable allowed p.1 p.2 → values !! p.1 = None →
  assignLine allowed (assignment p) values = inl (<[p.1 := p.2]> values).
Proof.
  intros Ha Hf. unfold assignLine. destruct (assignment_kept p) as [-> ->]; [apply Ha|].
  destruct p as [key value]. rewrite (cut_key key value) by apply Ha.
  rewrite !(assignment_free _ (key, value)) by (done || apply Ha).
  destruct Ha as (Hk & Hal & _). cbn in Hk, Hal, Hf. rewrite Hk, Hal.
  rewrite (bool_decide_false (is_Some _)) by (rewrite Hf; apply is_Some_None).
  done.
Qed.

Lemma assignLines_assignments assignments values :
  NoDup assignments.*1 → Forall (λ p, assignable allowed p.1 p.2 ∧ values !! p.1 = None) assignments →
  assignLines allowed (map assignment assignments) values = inl (list_to_map assignments ∪ values).
Proof.
  revert values. induction assignments as [|p assignments IH]; intros values.
  - cbn. by rewrite (left_id_L ∅ (∪)).
  - rewrite fmap_cons. intros [Hn Hd]%NoDup_cons [[Ha Hv] Hf]%Forall_cons.
    cbn [map assignLines]. rewrite (assignLine_assignment _ _ Ha Hv). cbn [mbind Checked_bind].
    rewrite IH; [|done|].
    + f_equal. destruct p as [key value]. cbn in *.
      rewrite <-insert_union_r by by apply not_elem_of_list_to_map. by rewrite insert_union_l.
    + rewrite Forall_forall in *. intros q Hq. destruct (Hf q Hq) as [Hqa Hqv]. split; [done|].
      rewrite lookup_insert_ne; [done|]. intros Heq. apply Hn. rewrite Heq. by apply list_elem_of_fmap_2.
Qed.
End writing.

Section loading.
Context (Lstat : string → option FileInfo) (Open : string → option FileBytes).
Context (range : Environ → list (string * string)).
Context (range_spec : ∀ m, range m ≡ₚ map_to_list m).

Lemma setAll_range allowed values e :
  map_Forall (assignable allowed) values → setAll e (range values) = (values ∪ e, None).
Proof.
  intros Hf. assert (Hl : list_to_map (range values) = values).
  { rewrite <-(list_to_map_to_list values) at 2. apply list_to_map_proper; [|done].
    rewrite range_spec. apply NoDup_fst_map_to_list. }
  rewrite (setAll_spec allowed), Hl; [done| |].
  - rewrite range_spec. apply NoDup_fst_map_to_list.
  - rewrite range_spec. apply Forall_forall. intros [key value] Hin%elem_of_map_to_list. by apply Hf.
Qed.

Lemma loadEnvironmentFile_spec allowed path e :
  match loadEnvironmentFile Lstat Open range allowed path e with
  | (e', Some _) => e' = e
  | (e', None) => ∃ info values, Lstat path = Some info ∧ file_safe path info ∧ values ≠ ∅ ∧
      map_Forall (assignable allowed) values ∧ e' = values ∪ e
  end.
Proof.
  unfold loadEnvironmentFile. destruct (mbind _ _) as [values|message] eqn:Hl; [|done].
  apply bind_inl in Hl as (u & (info & Hi & Hs)%checkFile_spec & Hl).
  destruct (Open path) as [file|]; [|done]. apply readAssignments_spec in Hl as [Hf Hn].
  rewrite (setAll_range allowed) by done. naive_solver.
Qed.
End loading.

(** C26. Loading the API's configuration file is all or nothing, in whatever order the map of its
    assignments is walked.  If it fails the environment is as before.  If it succeeds the file is
    regular, of mode 0440 and of at most 256 KiB — and of the expected owner at the two paths of
    the containers —, and the environment has changed by a non-empty set of assignments: to keys
    that begin with [CLUSTER_], and neither to the path of the file itself nor to the trusted
    proxies.  Either way the proxies [Load] trusts are those of the environment the process was
    started in. *)
Theorem api_file_all_or_nothing `{GoRuntime, NetIP, !ConfigLibrary} Lstat Open range path e e' err :
  (∀ m, range m ≡ₚ map_to_list m) →
  LoadAPIEnvironmentFile Lstat Open range path e = (e', err) →
  (∀ fallback, envCIDRs (Getenv e') "CLUSTER_TRUSTED_PROXY_CIDRS" fallback
             = envCIDRs (Getenv e) "CLUSTER_TRUSTED_PROXY_CIDRS" fallback) ∧
  match err with
  | Some _ => e' = e
  | None => ∃ info values, Lstat path = Some info ∧ file_safe path info ∧
      values ≠ ∅ ∧ e' = values ∪ e ∧
      ∀ key value, values !! key = Some value →
        assignable apiAllowed key value ∧ HasPrefix key "CLUSTER_" = true ∧
        key ≠ "CLUSTER_CONFIG_FILE" ∧ key ≠ "CLUSTER_TRUSTED_PROXY_CIDRS"
  end.
Proof.
  intros Hr Hl. pose proof (loadEnvironmentFile_spec Lstat Open range Hr apiAllowed path e) as Hs.
  unfold LoadAPIEnvironmentFile in Hl. rewrite Hl in Hs. destruct err; [by subst|].
  destruct Hs as (info & values & Hi & Hsafe & Hn & Hf & ->). split.
  - intros fallback. unfold envCIDRs, env, Getenv. rewrite lookup_union_r; [done|].
    apply eq_None_not_Some. intros [value Hv]. destruct (Hf _ _ Hv) as (_ & Ha & _). done.
  - exists info, values. split_and!; try done. intros key value Hv.
    assert (Ha : assignable apiAllowed key value) by by apply Hf. split; [done|].
    destruct Ha as (_ & Ha & _). unfold apiAllowed, same in Ha. by bool_prop.
Qed.

(** A file written for a list of assignments is read back as exactly those: whatever the
    values hold — equals signs, blanks, hash signs, bytes above 127 —, if the keys are distinct
    and allowed, no value has a line break or a NUL, and every line is shorter than the buffer of
    the scanner. *)
Theorem written_file_read_back allowed assignments :
  assignments ≠ [] → NoDup assignments.*1 →
  Forall (λ p, assignable allowed p.1 p.2 ∧ fits p) assignments →
  readAssignments allowed (mkFileBytes (fileOf assignments) true) = inl (list_to_map assignments).
Proof.
  intros Hne Hd Hf. unfold readAssignments. cbn [FileBytes_Content FileBytes_Complete].
  rewrite (Split_fileOf allowed), (scanLines_assignments allowed) by done.
  rewrite assignLines_assignments; [|done|].
  - rewrite (right_id_L ∅ (∪)). cbn [mbind Checked_bind negb orb refuse].
    rewrite bool_decide_false; [done|]. destruct assignments as [|[key value] assignments]; [done|].
    apply insert_non_empty.
  - eapply Forall_impl; [exact Hf|]. intros p [Ha _]. split; [done|apply lookup_empty].
Qed.

(** ** Witnesses *)

Section witnesses.
#[local] Existing Instance Reference.runtime.
#[local] Existing Instance ReferenceHttp.net.
#[local] Existing Instance ReferenceConfig.library.

Definition apiFile : list (string * string) :=
  [("CLUSTER_ENV", "production"); ("CLUSTER_DATABASE_URL", "postgres://db/clustr?sslmode=require")].
Definition secretInfo : FileInfo := mkFileInfo true false 84 288 (Some (0, 65532)%Z).
Definition proxied : Environ := {["CLUSTER_TRUSTED_PROXY_CIDRS" := "10.0.0.0/8"]}.
Definition secretFile (path : string) : option FileInfo :=
  if same path "/run/secrets/api.env" then Some secretInfo else None.
Definition secretBytes (_ : string) : option FileBytes := Some (mkFileBytes (fileOf apiFile) true).

Lemma written_file_read_back_witness :
  readAssignments apiAllowed (mkFileBytes (fileOf apiFile) true) = inl (list_to_map apiFile).
Proof.
  apply written_file_read_back; [done| |].
  - apply (proj1 (bool_decide_eq_true _)). vm_compute. reflexivity.
  - repeat constructor; vm_compute; reflexivity.
Defined.

Definition unsafeBytes (_ : string) : option FileBytes :=
  Some (mkFileBytes ("CLUSTER_TRUSTED_PROXY_CIDRS=0.0.0.0/0" +:+ String newline "") true).

(** Once with a file that is loaded, once with one that would change the trusted proxies. *)
Lemma api_file_all_or_nothing_witness :
  (∃ e, LoadAPIEnvironmentFile secretFile secretBytes map_to_list "/run/secrets/api.env" proxied = (e, None) ∧
   Getenv e "CLUSTER_ENV" = "production" ∧
   envCIDRs (Getenv e) "CLUSTER_TRUSTED_PROXY_CIDRS" "" = inl ["10.0.0.0/8"]) ∧
  (LoadAPIEnvironmentFile secretFile unsafeBytes map_to_list "/run/secrets/api.env" proxied).1 = proxied.
Proof.
  split.
  - exists (list_to_map apiFile ∪ proxied).
    assert (Hl : LoadAPIEnvironmentFile secretFile secretBytes map_to_list "/run/secrets/api.env" proxied
                 = (list_to_map apiFile ∪ proxied, None)) by (vm_compute; reflexivity).
    split; [exact Hl|]. split; [vm_compute; reflexivity|].
    destruct (api_file_all_or_nothing _ _ _ _ _ _ _ (λ m, Permutation_refl _) Hl) as [Hp _].
    rewrite Hp. vm_compute. reflexivity.
  - assert (Hl : LoadAPIEnvironmentFile secretFile unsafeBytes map_to_list "/run/secrets/api.env" proxied
                 = (proxied, Some "runtime configuration contains a disallowed assignment"))
      by (vm_compute; reflexivity).
    destruct (api_file_all_or_nothing _ _ _ _ _ _ _ (λ m, Permutation_refl _) Hl) as [_ Hp].
    rewrite Hl. exact Hp.
Defined.
End witnesses.
