(* ===== verification/SMTP.v ===== *)
(** * Mail submission

    [src/internal/mail/smtp.go]: the client that hands the transactional mails to an SMTP
    submission server.

    What [net], [crypto/tls] and [net/smtp] do with the connection is a trace of [Wire] actions;
    the other side is [peer], which decides of each action, given all that happened before,
    whether it succeeds — a reply with the expected code, a certificate that verifies for the
    given name —, so that a cancelled context and an expired deadline are failures too.  The
    commands are those [net/smtp] sends for the calls of the source; those it sends on its own to
    abort a login that was refused are left out, and its hello stands for [EHLO] with the fallback
    to [HELO]. *)

From Stdlib Require Import ZArith Lia Ascii.
From S2P Require Import Prelude.
From S2P Require Import Runtime.
From S2P Require Import GoText.
From S2P Require Import Middleware.
From S2P Require Import HttpReference.
From S2P Require Import Config.

(** ** The client *)

Definition smtpTimeout : Z := 10 * Second.
Definition SMTPTransportStartTLS : string := "starttls".
Definition SMTPTransportImplicitTLS : string := "implicit_tls".

(** [smtp.PlainAuth("", username, password, host)] *)
Record PlainAuth := mkPlainAuth {
  PlainAuth_username : string; PlainAuth_password : string; PlainAuth_host : string }.

(** Of the TLS configuration the name to verify; the roots are those of the host and the file. *)
Record SMTP := mkSMTP {
  SMTP_address : string; SMTP_hostname : string; SMTP_from : MailAddress; SMTP_envelopeFrom : string;
  SMTP_auth : PlainAuth; SMTP_tlsServerName : string; SMTP_transport : string }.

Record SMTPConfig := mkSMTPConfig {
  SMTPConfig_Address : string; SMTPConfig_From : string; SMTPConfig_Username : string;
  SMTPConfig_Password : string; SMTPConfig_ServerName : string; SMTPConfig_CAFile : string;
  SMTPConfig_Transport : string }.

Definition lineBreaks : string := String "013" (String "010" "").

(** [strings.Count(value, "@")] *)
Definition countAt (value : string) : nat := length (Split "@" value) - 1.

Definition validMailbox (value : string) : bool :=
  negb (same value "") && negb (ContainsAny value lineBreaks) && (countAt value =? 1)%nat.

Section smtp.
Context `{GoRuntime, NetIP, !ConfigLibrary}.

(** The copy of [validSMTPHostname] this package has. *)
Definition validDNSHostname (value : string) : bool :=
  negb (same value "" || (253 <? strlen value)%Z || net_ParseIP value ||
        ContainsAny value (controlBytes +:+ "/:@ ")) &&
  forallb validLabel (Split "."%char (TrimSuffixDot value)).

Definition parseSMTPAddress (value : string) : option (string * string) :=
  let address := TrimSpace value in
  match net_SplitHostPort address with
  | Some (host, portText) =>
    match ParseInt portText with
    | Some port =>
      if same (TrimSpace host) "" || outside 1 port 65535
         || negb (net_ParseIP host) && negb (validDNSHostname host)
      then None else Some (address, host)
    | None => None
    end
  | None => None
  end.

(** The sender part of [newSMTP]. *)
Definition parseFrom (from : string) : option MailAddress :=
  match netmail_ParseAddress (TrimSpace from) with
  | Some parsedFrom => if validMailbox (MailAddress_Address parsedFrom) then Some parsedFrom else None
  | None => None
  end.

(** [SystemCertPool]: whether the trust store of the host can be read; [pem]: what a file of
    certificates is good for. *)
Definition NewAuthenticatedSMTP (SystemCertPool : bool) (ReadFile : string → option string)
    (AppendCertsFromPEM : string → bool) (config : SMTPConfig) : Checked SMTP :=
  parsed ← (match parseSMTPAddress (SMTPConfig_Address config) with
            | Some parsed => mret parsed
            | None => inr "invalid SMTP address"
            end);
  let '(address, host) := (parsed : string * string) in
  let username := TrimSpace (SMTPConfig_Username config) in
  _ ← refuse (same username "" || same (SMTPConfig_Password config) ""
              || ContainsAny username controlBytes || Contains (SMTPConfig_Password config) (String "000" ""))
        "authenticated SMTP requires a username and password";
  let transport := TrimSpace (SMTPConfig_Transport config) in
  _ ← refuse (negb (same transport SMTPTransportStartTLS) && negb (same transport SMTPTransportImplicitTLS))
        "SMTP transport must be starttls or implicit_tls";
  let serverName := TrimSpace (SMTPConfig_ServerName config) in
  let serverName := if same serverName "" then host else serverName in
  _ ← refuse (negb (validDNSHostname serverName)) "SMTP TLS server name must be a DNS hostname";
  _ ← refuse (negb SystemCertPool) "load system SMTP trust store";
  let caFile := TrimSpace (SMTPConfig_CAFile config) in
  _ ← (if same caFile "" then mret tt
       else match ReadFile caFile with
            | None => inr "read SMTP CA file"
            | Some pem => refuse (negb (AppendCertsFromPEM pem)) "SMTP CA file did not contain a valid certificate"
            end);
  (* [newSMTP] parses the address a second time *)
  _ ← refuse (negb (bool_decide (is_Some (parseSMTPAddress address)))) "invalid SMTP address";
  match parseFrom (SMTPConfig_From config) with
  | None => inr "invalid SMTP from address"
  | Some from =>
    mret (mkSMTP address serverName from (MailAddress_Address from)
            (mkPlainAuth username (SMTPConfig_Password config) serverName) serverName transport)
  end.
End smtp.

(** ** The connection *)

Inductive Command :=
  | Hello
  | StartTLSCommand
  | AuthPlain (username password : string)
  | MailFrom (address : string)
  | RcptTo (address : string)
  | DataCommand
  | MessageText (text : string)
  | EndOfData
  | QuitCommand
  | NoopCommand.

(** Actions on the connection; [Sent] with whether the bytes go through TLS. *)
Inductive Wire :=
  | Dialed (address : string)
  | DeadlineSet (deadline : Z)
  | Greeted
  | Handshaken (serverName : string)
  | Sent (encrypted : bool) (command : Command)
  | ConnectionClosed.

(** What [smtp.Client] knows: whether it has said hello, and whether its connection is TLS. *)
Record Client := mkClient { Client_didHello : bool; Client_tls : bool }.

Section session.
(** Whether an action succeeds, given those before it; whether the hello of the other side has
    advertised an extension; [time.Now()] at the time of an action. *)
Context (peer : list Wire → Wire → bool) (advertises : list Wire → string → bool).
Context (clock : list Wire → Z).
Context (s : SMTP) (ctxDeadline : option Z).

(** A computation extends the trace and answers a value, or fails with a message. *)
Definition Smtp (A : Type) : Type := list Wire → list Wire * Checked A.
#[local] Instance Smtp_ret : MRet Smtp := λ A x t, (t, inl x).
#[local] Instance Smtp_bind : MBind Smtp := λ A B f m t,
  match m t with (t, inl x) => f x t | (t, inr e) => (t, inr e) end.

Definition fails {A} (message : string) : Smtp A := λ t, (t, inr message).

(** An action that may fail. *)
Definition action (message : string) (w : Wire) : Smtp unit := λ t,
  (t ++ [w], if peer t w then inl tt else inr message).

(** An action whose outcome is not looked at. *)
Definition attempt (m : Smtp unit) : Smtp unit := λ t, (((m t).1), inl tt).

Definition close : Smtp unit := λ t, (t ++ [ConnectionClosed], inl tt).

(** [defer session.close()], and [fail] of [connect] *)
Definition closing {A} (m : Smtp A) : Smtp A := λ t,
  let '(t, r) := m t in ((close t).1, r).
Definition closingOnFailure {A} (m : Smtp A) : Smtp A := λ t,
  match m t with (t, inl x) => (t, inl x) | (t, inr e) => ((close t).1, inr e) end.

(** [c.hello()] *)
Definition hello (message : string) (c : Client) : Smtp Client :=
  if Client_didHello c then mret c
  else _ ← action message (Sent (Client_tls c) Hello); mret (mkClient true (Client_tls c)).

(** [c.Extension(name)]: false if the hello fails, which every later command then answers. *)
Definition Extension (name : string) (c : Client) : Smtp (bool * Client) := λ t,
  match hello "" c t with
  | (t, inl c) => (t, inl (advertises t name, c))
  | (t, inr _) => (t, inl (false, c))
  end.

Definition command (message : string) (c : Client) (cmd : Command) : Smtp Client :=
  c ← hello message c; _ ← action message (Sent (Client_tls c) cmd); mret c.

(** [c.StartTLS(config)]: the handshake is done when the next hello is written. *)
Definition StartTLS (c : Client) : Smtp Client :=
  let message := "start SMTP TLS" in
  c ← command message c StartTLSCommand;
  _ ← action message (Handshaken (SMTP_tlsServerName s));
  _ ← action message (Sent true Hello);
  mret (mkClient true true).

(** [isLocalhost] of [net/smtp] *)
Definition isLocalhost (name : string) : bool := bool_decide (name ∈ ["localhost"; "127.0.0.1"; "::1"]).

(** [c.Auth(auth)] with [PlainAuth]: no password over an unencrypted connection or to another
    name than it is for. *)
Definition Auth (c : Client) : Smtp Client :=
  let auth := SMTP_auth s in let message := "authenticate SMTP submission" in
  c ← hello message c;
  if negb (Client_tls c) && negb (isLocalhost (SMTP_hostname s)) then fails message else
  if negb (same (SMTP_hostname s) (PlainAuth_host auth)) then fails message else
  _ ← action message (Sent (Client_tls c) (AuthPlain (PlainAuth_username auth) (PlainAuth_password auth)));
  mret c.

Definition connectDeadline (now : Z) : Z :=
  let deadline := (now + smtpTimeout)%Z in
  match ctxDeadline with
  | Some requestDeadline => if (requestDeadline <? deadline)%Z then requestDeadline else deadline
  | None => deadline
  end.

Definition connect : Smtp Client :=
  _ ← action "connect SMTP submission" (Dialed (SMTP_address s));
  closingOnFailure (
    _ ← (λ t, action "set SMTP deadline" (DeadlineSet (connectDeadline (clock t))) t);
    let implicit := same (SMTP_transport s) SMTPTransportImplicitTLS in
    _ ← (if implicit then action "open implicit SMTP TLS" (Handshaken (SMTP_tlsServerName s)) else mret tt);
    _ ← action "open SMTP session" Greeted;
    let c := mkClient false implicit in
    c ← (if same (SMTP_transport s) SMTPTransportStartTLS
         then '(supported, c) ← Extension "STARTTLS" c;
              if supported : bool then StartTLS c
              else fails "SMTP submission endpoint does not advertise STARTTLS"
         else mret c);
    '(supported, c) ← Extension "AUTH" c;
    if supported : bool then Auth c else fails "SMTP submission endpoint does not advertise AUTH after TLS").

Definition Ping : Smtp unit :=
  c ← connect;
  closing (c ← command "SMTP NOOP" c NoopCommand;
           _ ← command "SMTP QUIT" c QuitCommand;
           mret tt).

(** ** Messages *)

Context `{GoRuntime, NetIP, !ConfigLibrary}.

(** [address.String()], [time.Now().UTC().Format(time.RFC1123Z)], and the sixteen bytes
    [randomMessageID] reads from [crypto/rand] at a time of the trace, for a message id in
    hexadecimal *)
Context (Address_String : MailAddress → string) (FormatRFC1123Z : Z → string).
Context (rand : list Wire → option string).

Definition CRLF : string := lineBreaks.

(** [strings.Join(parts, "\r\n")] *)
Fixpoint joinLines (parts : list string) : string :=
  match parts with
  | [] => ""
  | [part] => part
  | part :: parts => part +:+ CRLF +:+ joinLines parts
  end.

Definition headers (recipient : MailAddress) (subject messageID : string) (now : Z) : list string :=
  ["Date: " +:+ FormatRFC1123Z now;
   "From: " +:+ Address_String (SMTP_from s);
   "To: " +:+ Address_String recipient;
   "Subject: " +:+ subject;
   "Message-ID: <" +:+ messageID +:+ "@atlanteanz.com>";
   "MIME-Version: 1.0";
   "Content-Type: text/plain; charset=UTF-8";
   "Content-Transfer-Encoding: 8bit";
   "Auto-Submitted: auto-generated";
   "X-Auto-Response-Suppress: All"].

Definition message (recipient : MailAddress) (subject messageID body : string) (now : Z) : string :=
  joinLines (headers recipient subject messageID now ++ [""; body]).

(** [validateLine] of [net/smtp] *)
Definition validateLine (message line : string) : Smtp unit :=
  if ContainsAny line lineBreaks then fails message else mret tt.

(** The part of [send] that names the sender and the recipient and asks to send the mail. *)
Definition envelope (c : Client) (recipient : MailAddress) : Smtp Client :=
  _ ← validateLine "SMTP MAIL FROM" (SMTP_envelopeFrom s);
  c ← command "SMTP MAIL FROM" c (MailFrom (SMTP_envelopeFrom s));
  _ ← validateLine "SMTP RCPT TO" (MailAddress_Address recipient);
  c ← command "SMTP RCPT TO" c (RcptTo (MailAddress_Address recipient));
  command "SMTP DATA" c DataCommand.

(** The part that writes the mail; a failure closes the writer, which ends the data. *)
Definition writeText (c : Client) (recipient : MailAddress) (subject body : string) : Smtp unit := λ t,
  match rand t with
  | None => ((attempt (action "" (Sent (Client_tls c) EndOfData)) t).1, inr "generate message ID")
  | Some value =>
    let text := message recipient subject (hex_EncodeToString value) body (clock t) in
    match action "write SMTP message" (Sent (Client_tls c) (MessageText text)) t with
    | (t, inl _) => (t, inl tt)
    | (t, inr e) => ((attempt (action "" (Sent (Client_tls c) EndOfData)) t).1, inr e)
    end
  end.

Definition send (to subject body : string) : Smtp unit :=
  match netmail_ParseAddress (TrimSpace to) with
  | None => fails "invalid mail recipient"
  | Some recipient =>
    if negb (validMailbox (MailAddress_Address recipient)) then fails "invalid mail recipient" else
    if same subject "" || ContainsAny subject lineBreaks then fails "invalid mail subject" else
    c ← connect;
    closing (
      c ← envelope c recipient;
      _ ← writeText c recipient subject body;
      _ ← action "finish SMTP message" (Sent (Client_tls c) EndOfData);
      attempt (_ ← command "" c QuitCommand; mret tt))
  end.

(** [int(ttl.Round(time.Minute) / time.Minute)], at least 1: half a minute rounds up. *)
Definition roundedMinutes (ttl : Z) : Z :=
  Z.max 1 (if (0 <=? ttl)%Z then (ttl + 30 * Second) / Minute else - ((- ttl + 30 * Second) / Minute))%Z.

Definition resetBody (code : string) (expiresMinutes : Z) : string :=
  "Your Clixor password reset code is: " +:+ code +:+ CRLF +:+ CRLF
  +:+ "This code expires in " +:+ pretty expiresMinutes +:+ " minutes and can be used only once." +:+ CRLF
  +:+ "If you did not request this change, you can ignore this email." +:+ CRLF
  +:+ "Clixor will never ask you to send this code to anyone." +:+ CRLF.

Definition SendPasswordReset (to code : string) (ttl : Z) : Smtp unit :=
  if same code "" || ContainsAny code lineBreaks then fails "invalid reset code" else
  send to "Your Clixor password reset code" (resetBody code (roundedMinutes ttl)).

Definition changedBody : string :=
  "Your Clixor password was changed successfully." +:+ CRLF +:+ CRLF
  +:+ "All existing Clixor sessions were signed out. If you did not make this "
  +:+ "change, contact support immediately." +:+ CRLF.

Definition SendPasswordChanged (to : string) : Smtp unit :=
  send to "Your Clixor password was changed" changedBody.
End session.
