(* ===== verification/SMTPFacts.v ===== *)
(** * Facts about the mail submission

    What the other side of a connection sees of [SMTP], whatever it answers: a small program logic
    for the traces, the protection of the credentials and of the mails, and what the result of a
    submission says about the mail. *)

From Stdlib Require Import ZArith Lia Ascii.
From S2P Require Import Prelude.
From S2P Require Import Runtime.
From S2P Require Import GoText.
From S2P Require Import Middleware.
From S2P Require Import HttpReference.
From S2P Require Import Config.
From S2P Require Import SMTP.

#[local] Existing Instances Smtp_ret Smtp_bind.

(** Commands that carry a secret, a recipient or a mail, or that end the session. *)
Definition private (cmd : Command) : bool :=
  match cmd with Hello | StartTLSCommand => false | _ => true end.

(** Commands that submit a mail. *)
Definition submits (cmd : Command) : bool :=
  match cmd with MailFrom _ | RcptTo _ | DataCommand | MessageText _ | EndOfData => true | _ => false end.

Section traces.
Context (peer : list Wire → Wire → bool) (s : SMTP).
Implicit Types (t : list Wire) (w : Wire) (cmd : Command) (c : Client).

(** The action [w] has succeeded in the course of [t]. *)
Definition succeeded w t : Prop := ∃ before after, t = before ++ w :: after ∧ peer before w = true.

(** The certificate of the server has been verified. *)
Definition verified t : Prop := succeeded (Handshaken (SMTP_tlsServerName s)) t.

Definition loginCommand : Command :=
  AuthPlain (PlainAuth_username (SMTP_auth s)) (PlainAuth_password (SMTP_auth s)).

(** The server has accepted the login. *)
Definition authenticated t : Prop := succeeded (Sent true loginCommand) t.

(** What may be sent after [t]. *)
Definition permitted t (encrypted : bool) cmd : Prop :=
  (private cmd = true → encrypted = true ∧ verified t) ∧
  (submits cmd = true → authenticated t) ∧
  (∀ username password, cmd = AuthPlain username password → cmd = loginCommand).

Definition protected t : Prop :=
  ∀ before encrypted cmd after, t = before ++ Sent encrypted cmd :: after → permitted before encrypted cmd.

Lemma succeeded_snoc w w' t : succeeded w t → succeeded w (t ++ [w']).
Proof. intros (u & v & -> & Hp). exists u, (v ++ [w']). by rewrite <-app_assoc. Qed.

Lemma succeeded_last w t : peer t w = true → succeeded w (t ++ [w]).
Proof. intros Hp. by exists t, []. Qed.

Lemma protected_snoc t w :
  protected t → (∀ encrypted cmd, w = Sent encrypted cmd → permitted t encrypted cmd) →
  protected (t ++ [w]).
Proof.
  intros Ht Hw before encrypted cmd after Heq.
  destruct after as [|w' after _] using rev_ind.
  - apply app_inj_tail in Heq as [-> ->]. by apply Hw.
  - rewrite app_comm_cons, app_assoc in Heq. apply app_inj_tail in Heq as [-> _]. by eapply Ht.
Qed.

(** ** Triples *)

Definition triple {A} (P : list Wire → Prop) (m : Smtp A) (Q : A → list Wire → Prop) : Prop :=
  ∀ t, protected t → P t →
  protected (m t).1 ∧ match (m t).2 with inl x => Q x (m t).1 | inr _ => True end.

(** Facts about a trace that longer traces keep. *)
Definition stable (P : list Wire → Prop) : Prop := ∀ t w, P t → P (t ++ [w]).

Lemma stable_succeeded w : stable (succeeded w).
Proof. intros t w'. apply succeeded_snoc. Qed.

Lemma stable_and P Q : stable P → stable Q → stable (λ t, P t ∧ Q t).
Proof. unfold stable. naive_solver. Qed.

Lemma stable_pure φ : stable (λ _, φ).
Proof. by intros t w. Qed.

Lemma stable_impl φ P : stable P → stable (λ t, φ → P t).
Proof. unfold stable. naive_solver. Qed.

Lemma triple_ret {A} (x : A) (P : list Wire → Prop) Q :
  (∀ t, P t → Q x t) → triple P (mret x) Q.
Proof. intros HQ t Ht HP. split; [done|]. by apply HQ. Qed.

Lemma triple_fails {A} message P (Q : A → list Wire → Prop) : triple P (fails message) Q.
Proof. by intros t Ht HP. Qed.

Lemma triple_bind {A B} (m : Smtp A) (f : A → Smtp B) P Q R :
  triple P m Q → (∀ x, triple (Q x) (f x) R) → triple P (m ≫= f) R.
Proof.
  intros Hm Hf t Ht HP. specialize (Hm t Ht HP). unfold mbind, Smtp_bind.
  destruct (m t) as [t' [x|e]]; cbn in *; destruct Hm as [Ht' HQ]; [|done].
  exact (Hf x t' Ht' HQ).
Qed.

Lemma triple_consequence {A} (m : Smtp A) (P P' : list Wire → Prop) (Q Q' : A → list Wire → Prop) :
  triple P' m Q' → (∀ t, P t → P' t) → (∀ x t, Q' x t → Q x t) → triple P m Q.
Proof.
  intros Hm HP HQ t Ht Hp. destruct (Hm t Ht (HP t Hp)) as [Ht' Hr]. split; [done|].
  destruct (m t).2; naive_solver.
Qed.

Lemma triple_action message w P :
  stable P → (∀ t encrypted cmd, P t → w = Sent encrypted cmd → permitted t encrypted cmd) →
  triple P (action peer message w) (λ _ t, P t ∧ succeeded w t).
Proof.
  intros HS Hw t Ht HP. unfold action. cbn. split; [apply protected_snoc; naive_solver|].
  destruct (peer t w) eqn:Hp; [|done]. split; [by apply HS|by apply succeeded_last].
Qed.

(** A computation that looks at the trace first. *)
Lemma triple_at {A} (f : list Wire → Smtp A) P Q :
  (∀ t, triple P (f t) Q) → triple P (λ t, f t t) Q.
Proof. intros Hf t Ht HP. exact (Hf t t Ht HP). Qed.

(** An action that sends nothing. *)
Lemma triple_silent message w P :
  stable P → (∀ encrypted cmd, w ≠ Sent encrypted cmd) → triple P (action peer message w) (λ _ t, P t ∧ succeeded w t).
Proof. intros HS Hw. apply triple_action; [done|]. intros t encrypted cmd _ Heq. by destruct (Hw encrypted cmd). Qed.

Lemma triple_attempt (m : Smtp unit) P :
  triple P m (λ _, P) → (∀ t, P t → P (m t).1) → triple P (attempt m) (λ _, P).
Proof. intros Hm HP t Ht Hp. split; [by apply Hm|by apply HP]. Qed.

Lemma close_keeps P t : stable P → protected t → P t → protected (close t).1 ∧ P (close t).1.
Proof. intros HS Ht HP. unfold close. cbn. split; [by apply protected_snoc|by apply HS]. Qed.

Lemma triple_closing {A} (m : Smtp A) P (Q : A → list Wire → Prop) :
  (∀ x, stable (Q x)) → triple P m Q → triple P (closing m) Q.
Proof.
  intros HS Hm t Ht HP. specialize (Hm t Ht HP). unfold closing.
  destruct (m t) as [t' r]; cbn in *. destruct Hm as [Ht' Hr].
  split; [by apply protected_snoc|]. destruct r; [by apply HS|done].
Qed.

Lemma triple_closingOnFailure {A} (m : Smtp A) P Q : triple P m Q → triple P (closingOnFailure m) Q.
Proof.
  intros Hm t Ht HP. specialize (Hm t Ht HP). unfold closingOnFailure.
  destruct (m t) as [t' [x|e]]; cbn in *; [done|]. destruct Hm as [Ht' _].
  split; [by apply protected_snoc|done].
Qed.

(** ** The client *)

Lemma permitted_hello t encrypted cmd b : Sent b Hello = Sent encrypted cmd → permitted t encrypted cmd.
Proof. by intros [= <- <-]. Qed.

Lemma triple_hello message c P :
  stable P → triple P (hello peer message c) (λ c' t, P t ∧ Client_tls c' = Client_tls c).
Proof.
  intros HS. unfold hello. destruct (Client_didHello c).
  - by apply triple_ret.
  - eapply triple_bind; [apply triple_action; [done|intros; by eapply permitted_hello]|].
    intros []. apply triple_ret. naive_solver.
Qed.

Lemma triple_Extension advertises name c P :
  stable P → triple P (Extension peer advertises name c) (λ r t, P t ∧ Client_tls r.2 = Client_tls c).
Proof.
  intros HS t Ht HP. unfold Extension.
  destruct (triple_hello "" c P HS t Ht HP) as [Ht' Hr].
  assert (HP' : P (hello peer "" c t).1).
  { unfold hello. destruct (Client_didHello c); [done|]. unfold mbind, Smtp_bind, action. cbn.
    destruct (peer t _); by apply HS. }
  destruct (hello peer "" c t) as [t' [c'|e]]; cbn in *; naive_solver.
Qed.

Lemma triple_command message c cmd P :
  stable P → (∀ t, P t → permitted t (Client_tls c) cmd) →
  triple P (command peer message c cmd)
    (λ c' t, (P t ∧ Client_tls c' = Client_tls c) ∧ succeeded (Sent (Client_tls c) cmd) t).
Proof.
  intros HS Hcmd. unfold command. eapply triple_bind; [by apply triple_hello|]. intros c'. cbn beta.
  eapply triple_bind with (Q := λ _ t, (P t ∧ Client_tls c' = Client_tls c) ∧
                                       succeeded (Sent (Client_tls c') cmd) t).
  - apply (triple_action message _ (λ t, P t ∧ Client_tls c' = Client_tls c)).
    + by apply stable_and, stable_pure.
    + intros t encrypted cmd' [HP Hc] [= <- <-]. rewrite Hc. by apply Hcmd.
  - intros []. apply triple_ret. intros t [[HP Hc] Hs]. by rewrite <-Hc.
Qed.

Definition secured c t : Prop := Client_tls c = true ∧ verified t.
Definition loggedIn c t : Prop := secured c t ∧ authenticated t.

Lemma stable_secured c : stable (secured c).
Proof. apply stable_and; [apply stable_pure|apply stable_succeeded]. Qed.

Lemma stable_loggedIn c : stable (loggedIn c).
Proof. apply stable_and; [apply stable_secured|apply stable_succeeded]. Qed.

Lemma triple_StartTLS c : triple (λ _, True) (StartTLS peer s c) secured.
Proof.
  unfold StartTLS. eapply triple_bind.
  { apply triple_command; [by intros t w|by intros t _]. }
  intros c'. eapply triple_bind.
  { eapply triple_consequence; [by apply (triple_silent _ (Handshaken (SMTP_tlsServerName s)) (λ _, True))|done|].
    intros x t [_ Hv]. exact Hv. }
  intros []. cbn beta. eapply triple_bind.
  { apply triple_action; [apply stable_succeeded|]. intros. by eapply permitted_hello. }
  intros []. apply triple_ret. by intros t [Hv _].
Qed.

Lemma triple_Auth c : triple (secured c) (Auth peer s c) loggedIn.
Proof.
  unfold Auth. eapply triple_bind; [apply triple_hello, stable_secured|]. intros c'. cbn beta.
  destruct (negb _ && _); [apply triple_fails|]. destruct (negb _); [apply triple_fails|].
  eapply triple_bind with (Q := λ _ t, (secured c t ∧ Client_tls c' = Client_tls c) ∧
                                       succeeded (Sent (Client_tls c') loginCommand) t).
  - apply triple_action; [apply stable_and; [apply stable_secured|apply stable_pure]|].
    intros t encrypted cmd [[Htls Hv] Hc] [= <- <-]. rewrite Hc, Htls. split; [by split|by split].
  - intros []. apply triple_ret. intros t [[[Htls Hv] Hc] Ha].
    rewrite Hc, Htls in Ha. rewrite <-Hc in Htls. split; [by split|done].
Qed.

Lemma triple_connect advertises clock ctxDeadline :
  SMTP_transport s = SMTPTransportStartTLS ∨ SMTP_transport s = SMTPTransportImplicitTLS →
  triple (λ _, True) (connect peer advertises clock s ctxDeadline) loggedIn.
Proof.
  intros Htransport. unfold connect. eapply triple_bind; [by apply triple_silent|].
  intros []. cbn beta. apply triple_closingOnFailure.
  apply triple_bind with (Q := λ _ _, True).
  { apply (triple_at (λ t, action peer "set SMTP deadline" (DeadlineSet (connectDeadline ctxDeadline (clock t))))).
    intros t. eapply triple_consequence; [apply (triple_silent _ _ (λ _, True))| |]; done. }
  intros []. cbv zeta.
  apply triple_bind with (Q := λ _ t, SMTP_transport s = SMTPTransportImplicitTLS → verified t).
  { destruct (same _ _) eqn:Hi; unfold same in Hi; bool_prop.
    - eapply triple_consequence; [by apply (triple_silent _ (Handshaken _) (λ _, True))|done|]. naive_solver.
    - by apply triple_ret. }
  intros []. eapply triple_bind.
  { apply triple_action; [apply stable_impl, stable_succeeded|done]. }
  intros []. apply triple_bind with (Q := secured).
  { destruct (same (SMTP_transport s) SMTPTransportStartTLS) eqn:Hs; unfold same in Hs; bool_prop.
    - eapply triple_bind; [apply triple_Extension; apply stable_and; [apply stable_impl|]; apply stable_succeeded|].
      intros [supported c']. destruct supported; [|apply triple_fails].
      eapply triple_consequence; [apply triple_StartTLS|done|done].
    - destruct Htransport as [Ht|Ht]; [done|]. apply triple_ret. intros t [Hv _].
      split; [|by apply Hv]. cbn. unfold same. by apply bool_decide_true. }
  intros c. eapply triple_bind; [apply triple_Extension, stable_secured|].
  intros [supported c']. destruct supported; [|apply triple_fails].
  eapply triple_consequence; [apply triple_Auth| |done].
  intros t [[Htls Hv] Hc]. cbn in Hc. split; [by rewrite Hc|done].
Qed.

Lemma triple_submit message c cmd :
  (∀ username password, cmd ≠ AuthPlain username password) →
  triple (loggedIn c) (command peer message c cmd) loggedIn.
Proof.
  intros Hcmd. eapply triple_consequence; [apply triple_command; [apply stable_loggedIn|]|done|].
  - intros t [[Htls Hv] Ha]. split; [done|]. split; [done|]. intros u p Heq. by destruct (Hcmd u p).
  - intros c' t [[[[Htls Hv] Ha] Hc] _]. split; [|done]. split; [congruence|done].
Qed.

Lemma triple_loggedIn_action message c cmd :
  (∀ username password, cmd ≠ AuthPlain username password) →
  triple (loggedIn c) (action peer message (Sent (Client_tls c) cmd)) (λ _, loggedIn c).
Proof.
  intros Hcmd. eapply triple_consequence; [apply triple_action; [apply (stable_loggedIn c)|]|done|].
  - intros t encrypted cmd' [[Htls Hv] Ha] [= <- <-]. split; [done|]. split; [done|].
    intros u p Heq. by destruct (Hcmd u p).
  - by intros [] t [Hl _].
Qed.

Lemma attempt_keeps message c cmd t :
  (∀ username password, cmd ≠ AuthPlain username password) →
  protected t → loggedIn c t → protected (attempt (action peer message (Sent (Client_tls c) cmd)) t).1.
Proof.
  intros Hcmd Ht Hl.
  exact (proj1 (triple_loggedIn_action message c cmd Hcmd t Ht Hl)).
Qed.

End traces.

(** ** The protection of secrets and mails *)

Section runs.
Context `{GoRuntime, NetIP, !ConfigLibrary}.
Context (peer : list Wire → Wire → bool) (advertises : list Wire → string → bool) (clock : list Wire → Z).
Context (Address_String : MailAddress → string) (FormatRFC1123Z : Z → string) (rand : list Wire → option string).
Context (s : SMTP) (ctxDeadline : option Z).

(** The calls on the client. *)
Inductive MailCall :=
  | CallPing
  | CallReset (to code : string) (ttl : Z)
  | CallChanged (to : string).

Definition mailCall (call : MailCall) : Smtp unit :=
  match call with
  | CallPing => Ping peer advertises clock s ctxDeadline
  | CallReset to code ttl =>
    SendPasswordReset peer advertises clock s ctxDeadline Address_String FormatRFC1123Z rand to code ttl
  | CallChanged to =>
    SendPasswordChanged peer advertises clock s ctxDeadline Address_String FormatRFC1123Z rand to
  end.

Context (Htransport : SMTP_transport s = SMTPTransportStartTLS ∨ SMTP_transport s = SMTPTransportImplicitTLS).

Lemma triple_writeText c recipient subject body :
  triple peer s (loggedIn peer s c)
    (writeText peer clock s Address_String FormatRFC1123Z rand c recipient subject body)
    (λ _, loggedIn peer s c).
Proof.
  intros t Ht Hl. unfold writeText. destruct (rand t) as [value|]; [|split; [by apply attempt_keeps|done]].
  cbv zeta. set (text := message _ _ _ _ _ _ _ _).
  pose proof (triple_loggedIn_action peer s "write SMTP message" c (MessageText text) ltac:(done) t Ht Hl) as Hm.
  assert (Hl' : loggedIn peer s c (t ++ [Sent (Client_tls c) (MessageText text)])) by by apply stable_loggedIn.
  change (action peer "write SMTP message" (Sent (Client_tls c) (MessageText text)) t) with
    (t ++ [Sent (Client_tls c) (MessageText text)],
     if peer t (Sent (Client_tls c) (MessageText text)) then inl tt
     else inr "write SMTP message" : Checked unit) in *.
  destruct (peer t _); [done|]. split; [|done]. apply attempt_keeps; [done|apply Hm|exact Hl'].
Qed.

Lemma triple_validateLine message line P : triple peer s P (validateLine message line) (λ _, P).
Proof. unfold validateLine. destruct (ContainsAny _ _); [apply triple_fails|by apply triple_ret]. Qed.

Lemma triple_envelope c recipient :
  triple peer s (loggedIn peer s c) (envelope peer s c recipient) (loggedIn peer s).
Proof.
  unfold envelope. eapply triple_bind; [apply triple_validateLine|].
  intros []. eapply triple_bind; [by apply triple_submit|]. clear c. intros c.
  eapply triple_bind; [apply triple_validateLine|].
  intros []. eapply triple_bind; [by apply triple_submit|]. clear c. intros c. by apply triple_submit.
Qed.

Lemma triple_send to subject body :
  triple peer s (λ _, True)
    (send peer advertises clock s ctxDeadline Address_String FormatRFC1123Z rand to subject body) (λ _ _, True).
Proof.
  unfold send. destruct (netmail_ParseAddress _) as [recipient|]; [|apply triple_fails].
  destruct (negb _); [apply triple_fails|]. destruct (_ || _); [apply triple_fails|].
  eapply triple_bind; [by apply triple_connect|]. intros c. apply triple_closing; [by intros x t w|].
  eapply triple_bind; [apply triple_envelope|]. clear c. intros c.
  eapply triple_bind; [apply triple_writeText|].
  intros []. eapply triple_bind; [by apply triple_loggedIn_action|]. intros [].
  intros t Ht Hl. split; [|done]. unfold attempt. cbn [fst].
  apply (triple_bind peer s _ _ (loggedIn peer s c) (loggedIn peer s) (λ _ _, True)); [| |done|done].
  - by apply triple_submit.
  - intros c'. by apply triple_ret.
Qed.

Lemma mailCall_protected call : protected peer s (mailCall call []).1.
Proof.
  assert (Hnil : protected peer s []) by (intros [] ? ? ? ?; done).
  destruct call as [|to code ttl|to]; cbn [mailCall].
  - eapply (triple_bind peer s _ _ _ _ (λ _ _, True)); [by apply triple_connect| |done|exact I].
    intros c. apply triple_closing; [by intros x t w|].
    eapply triple_bind; [by apply triple_submit|]. clear c. intros c.
    eapply triple_bind; [by apply triple_submit|]. intros c'. by apply triple_ret.
  - unfold SendPasswordReset. destruct (_ || _); [done|]. by apply triple_send.
  - by apply triple_send.
Qed.
End runs.

(** ** What becomes of a mail *)

Definition is_text (w : Wire) : bool := match w with Sent _ (MessageText _) => true | _ => false end.
Abbreviation silent l := (Forall (λ w, is_text w = false) l).

Section texts.
Context (peer : list Wire → Wire → bool).

(** A computation that writes no mail. *)
Definition quiet {A} (m : Smtp A) : Prop := ∀ t, ∃ l, (m t).1 = t ++ l ∧ silent l.

Lemma quiet_ret {A} (x : A) : quiet (mret x).
Proof. intros t. exists []. by rewrite app_nil_r. Qed.

Lemma quiet_fails {A} message : quiet (A := A) (fails message).
Proof. intros t. exists []. by rewrite app_nil_r. Qed.

Lemma quiet_action message w : is_text w = false → quiet (action peer message w).
Proof. intros Hw t. exists [w]. repeat constructor; done. Qed.

Lemma quiet_bind {A B} (m : Smtp A) (f : A → Smtp B) : quiet m → (∀ x, quiet (f x)) → quiet (m ≫= f).
Proof.
  intros Hm Hf t. destruct (Hm t) as (l & Hl & Hs). unfold mbind, Smtp_bind.
  destruct (m t) as [t' [x|e]]; cbn in Hl; subst t'; [|by exists l].
  destruct (Hf x (t ++ l)) as (l' & -> & Hs'). exists (l ++ l').
  split; [by rewrite app_assoc|by apply Forall_app].
Qed.

Lemma quiet_closingOnFailure {A} (m : Smtp A) : quiet m → quiet (closingOnFailure m).
Proof.
  intros Hm t. destruct (Hm t) as (l & Hl & Hs). unfold closingOnFailure.
  destruct (m t) as [t' [x|e]]; cbn in *; subst t'; [by exists l|].
  exists (l ++ [ConnectionClosed]). split; [by rewrite app_assoc|].
  apply Forall_app. split; [done|by repeat constructor].
Qed.

Lemma quiet_at {A} (f : list Wire → Smtp A) : (∀ t, quiet (f t)) → quiet (λ t, f t t).
Proof. intros Hf t. apply Hf. Qed.

Lemma quiet_hello message c : quiet (hello peer message c).
Proof.
  unfold hello. destruct (Client_didHello c); [apply quiet_ret|].
  apply quiet_bind; [by apply quiet_action|]. intros []. apply quiet_ret.
Qed.

Lemma quiet_Extension advertises name c : quiet (Extension peer advertises name c).
Proof.
  intros t. destruct (quiet_hello "" c t) as (l & Hl & Hs). exists l. unfold Extension.
  by destruct (hello peer "" c t) as [t' [c'|e]].
Qed.

Lemma quiet_command message c cmd :
  is_text (Sent (Client_tls c) cmd) = false → quiet (command peer message c cmd).
Proof.
  intros Hc. apply quiet_bind; [apply quiet_hello|]. intros c'.
  apply quiet_bind; [by apply quiet_action|]. intros []. apply quiet_ret.
Qed.
End texts.

Create HintDb quiet discriminated.
#[export] Hint Resolve quiet_ret quiet_fails quiet_closingOnFailure quiet_hello quiet_Extension : quiet.
#[export] Hint Extern 1 (quiet (action _ _ _)) => apply quiet_action; reflexivity : quiet.
#[export] Hint Extern 1 (quiet (command _ _ _ _)) => apply quiet_command; reflexivity : quiet.

(** Takes a computation apart into its calls. *)
Ltac quieten :=
  repeat match goal with
  | |- quiet (mbind _ _) => apply quiet_bind; [|intros ?]
  | |- quiet (if ?b then _ else _) => destruct b
  | |- quiet (match ?x with _ => _ end) => destruct x
  | |- quiet (closingOnFailure _) => apply quiet_closingOnFailure
  | |- _ => progress (cbv beta iota zeta)
  end; eauto with quiet.

Section submission.
Context `{GoRuntime, NetIP, !ConfigLibrary}.
Context (peer : list Wire → Wire → bool) (advertises : list Wire → string → bool) (clock : list Wire → Z).
Context (Address_String : MailAddress → string) (FormatRFC1123Z : Z → string) (rand : list Wire → option string).
Context (s : SMTP) (ctxDeadline : option Z).

Lemma quiet_StartTLS c : quiet (StartTLS peer s c).
Proof. unfold StartTLS. quieten. Qed.
Lemma quiet_Auth c : quiet (Auth peer s c).
Proof. unfold Auth. quieten. Qed.
#[local] Hint Resolve quiet_StartTLS quiet_Auth : quiet.

Lemma quiet_connect : quiet (connect peer advertises clock s ctxDeadline).
Proof.
  unfold connect. quieten.
  apply (quiet_at (λ t, action peer "set SMTP deadline" (DeadlineSet (connectDeadline ctxDeadline (clock t))))).
  eauto with quiet.
Qed.

Lemma quiet_envelope c recipient : quiet (envelope peer s c recipient).
Proof. unfold envelope, validateLine. quieten. Qed.

(** The server has taken over a mail: it has accepted the end of the data that hold [text]. *)
Definition accepted (text : string) (t : list Wire) : Prop :=
  ∃ before encrypted after,
    t = before ++ Sent encrypted (MessageText text) :: Sent encrypted EndOfData :: after ∧
    peer before (Sent encrypted (MessageText text)) = true ∧
    peer (before ++ [Sent encrypted (MessageText text)]) (Sent encrypted EndOfData) = true.

Lemma silent_not_accepted t text : silent t → ¬ accepted text t.
Proof.
  intros Hs (u & b & v & -> & _). apply Forall_app in Hs as [_ Hs]. by apply Forall_cons in Hs as [? _].
Qed.

(** A trace with one mail splits there. *)
Lemma one_text u v u' v' w w' :
  silent u → silent v → is_text w = true → is_text w' = true →
  u ++ w :: v = u' ++ w' :: v' → u = u' ∧ w = w' ∧ v = v'.
Proof.
  intros Hu Hv Hw Hw'. revert u' Hu. induction u as [|x u IH]; intros [|x' u'] Hu; cbn.
  - by intros [= -> ->].
  - intros [= -> ->]. apply Forall_app in Hv as [_ Hv]. apply Forall_cons in Hv as [Hv _]. congruence.
  - intros [= -> _]. apply Forall_cons in Hu as [Hu _]. congruence.
  - intros [= -> Heq]. apply Forall_cons in Hu as [_ Hu].
    destruct (IH u' Hu Heq) as (-> & -> & ->). done.
Qed.

Abbreviation send := (send peer advertises clock s ctxDeadline Address_String FormatRFC1123Z rand).
Abbreviation writeText := (writeText peer clock s Address_String FormatRFC1123Z rand).
Abbreviation message := (message s Address_String FormatRFC1123Z).

(** [text] is the mail with this subject and body for the recipient that [to] names. *)
Definition mail_to (to subject body text : string) : Prop :=
  ∃ recipient messageID now, netmail_ParseAddress (TrimSpace to) = Some recipient ∧
    text = message recipient subject messageID body now.

(** How a run of [send] ends: without a mail, or with one that was written once and whose data
    were ended once. *)
Definition outcome (to subject body : string) (t : list Wire) (r : Checked unit) : Prop :=
  (silent t ∧ r ≠ inl tt) ∨
  ∃ before encrypted text after,
    t = before ++ Sent encrypted (MessageText text) :: Sent encrypted EndOfData :: after ∧
    silent before ∧ silent after ∧ mail_to to subject body text ∧
    (r = inl tt ↔ peer before (Sent encrypted (MessageText text)) = true ∧
       peer (before ++ [Sent encrypted (MessageText text)]) (Sent encrypted EndOfData) = true).

Lemma silent_snoc t w : silent t → is_text w = false → silent (t ++ [w]).
Proof. intros Ht Hw. apply Forall_app. by repeat constructor. Qed.

Lemma finish_outcome to subject body c recipient t :
  silent t → netmail_ParseAddress (TrimSpace to) = Some recipient →
  let '(t', r) := (_ ← writeText c recipient subject body;
                   _ ← action peer "finish SMTP message" (Sent (Client_tls c) EndOfData);
                   attempt (_ ← command peer "" c QuitCommand; mret tt)) t in
  outcome to subject body t' r.
Proof.
  intros Ht Hr. unfold mbind at 1, Smtp_bind at 1, SMTP.writeText.
  destruct (rand t) as [value|]; [|left; split; [by apply silent_snoc|done]].
  set (text := message _ _ _ _ _). set (w := Sent (Client_tls c) (MessageText text)).
  set (e := Sent (Client_tls c) EndOfData).
  assert (Hm : mail_to to subject body text) by (by exists recipient, (hex_EncodeToString value), (clock t)).
  unfold action at 1. destruct (peer t w) eqn:Hw.
  - unfold mbind, Smtp_bind, action at 1. cbv iota zeta. fold e. destruct (peer (t ++ [w]) e) eqn:He.
    + unfold attempt. assert (Hq : quiet (_ ← command peer "" c QuitCommand; mret tt : Smtp unit)) by quieten.
      destruct (Hq ((t ++ [w]) ++ [e])) as (v & Hv & Hs). unfold mbind, Smtp_bind in Hv. rewrite Hv. right.
      exists t, (Client_tls c), text, v. split; [by rewrite <-!app_assoc|]. by split_and!.
    + right. exists t, (Client_tls c), text, []. split; [by rewrite <-!app_assoc|].
      split_and!; try done. fold w e. split; [done|intros []; congruence].
  - right. exists t, (Client_tls c), text, []. unfold attempt, action. cbn [fst].
    split; [by rewrite <-!app_assoc|]. split_and!; try done. fold w e. split; [done|intros []; congruence].
Qed.

Lemma outcome_snoc to subject body t r w :
  is_text w = false → outcome to subject body t r → outcome to subject body (t ++ [w]) r.
Proof.
  intros Hw [[Ht Hr]|(u & b & text & v & -> & Hu & Hv & Hrest)].
  - left. split; [by apply silent_snoc|done].
  - right. exists u, b, text, (v ++ [w]). split; [by rewrite <-app_assoc|].
    split_and!; try apply Hrest; [done|by apply silent_snoc].
Qed.

Lemma send_outcome to subject body : let '(t, r) := send to subject body [] in outcome to subject body t r.
Proof.
  assert (Hnil : ∀ e, outcome to subject body [] (inr e)) by (intros e; left; by split).
  unfold SMTP.send. destruct (netmail_ParseAddress _) as [recipient|] eqn:Hp; [|apply Hnil].
  destruct (negb _); [apply Hnil|]. destruct (_ || _); [apply Hnil|].
  destruct (quiet_connect []) as (t & Ht & Hs). unfold mbind at 1, Smtp_bind at 1.
  destruct (connect _ _ _ _ _ _) as [t' [c|e]]; cbn in Ht; subst t'; [|by left].
  destruct (quiet_envelope c recipient t) as (l & Hl & Hs').
  unfold closing. unfold mbind at 1, Smtp_bind at 1.
  destruct (envelope _ _ _ _ _) as [t' [c'|e]]; cbn in Hl; subst t'.
  - pose proof (finish_outcome to subject body c' recipient (t ++ l)) as Hf.
    specialize (Hf (proj2 (Forall_app _ _ _) (conj Hs Hs')) Hp).
    lazymatch type of Hf with let '(_, _) := ?run in _ => destruct run as [t' r] end.
    by apply outcome_snoc.
  - cbn. apply outcome_snoc; [done|]. left. split; [by apply Forall_app|done].
Qed.

(** The calls that send a mail, with its subject and body. *)
Definition callMail (call : MailCall) : option (string * string * string) :=
  match call with
  | CallPing => None
  | CallReset to code ttl => Some (to, "Your Clixor password reset code", resetBody code (roundedMinutes ttl))
  | CallChanged to => Some (to, "Your Clixor password was changed", changedBody)
  end.

Lemma mailCall_outcome call to subject body :
  callMail call = Some (to, subject, body) →
  let '(t, r) := mailCall peer advertises clock Address_String FormatRFC1123Z rand s ctxDeadline call [] in
  outcome to subject body t r.
Proof.
  destruct call as [|to' code ttl|to']; [done| |]; intros [= <- <- <-]; cbn [mailCall].
  - unfold SendPasswordReset. destruct (_ || _); [by left|]. apply send_outcome.
  - apply send_outcome.
Qed.
End submission.

(** ** Properties *)

Section properties.
Context `{GoRuntime, NetIP, !ConfigLibrary}.

Lemma NewAuthenticatedSMTP_spec pool read append config s :
  NewAuthenticatedSMTP pool read append config = inl s →
  (SMTP_transport s = SMTPTransportStartTLS ∨ SMTP_transport s = SMTPTransportImplicitTLS) ∧
  validDNSHostname (SMTP_tlsServerName s) = true ∧
  SMTP_auth s = mkPlainAuth (TrimSpace (SMTPConfig_Username config)) (SMTPConfig_Password config)
                  (SMTP_tlsServerName s) ∧
  SMTP_hostname s = SMTP_tlsServerName s.
Proof.
  unfold NewAuthenticatedSMTP. intros ([address host] & _ & Hc)%bind_inl. cbv zeta in Hc.
  checks Hc. apply bind_inl in Hc as (u & _ & Hc). checks Hc.
  destruct (parseFrom _); [|done]. injection Hc as <-. cbn. unfold same in *.
  split_and!; [|by apply negb_false_iff|done|done].
  apply andb_false_iff in Hb0 as [Ht|Ht]; bool_prop; [by left|by right].
Qed.


(** C31. Sending a mail succeeds exactly if the server has accepted the end of its data: an error
    before that is an error of the call, and nothing that happens afterwards — the end of the
    session, a lost connection — turns an accepted mail into a failed one.  Whatever the server
    answers, at most one text is written in the course of the call, and it is the mail with the
    subject and body of the call for the recipient of the call. *)
Theorem submission_result s peer advertises clock Address_String FormatRFC1123Z rand ctxDeadline call
    to subject body :
  callMail call = Some (to, subject, body) →
  let '(t, r) := mailCall peer advertises clock Address_String FormatRFC1123Z rand s ctxDeadline call [] in
  (r = inl tt ↔ ∃ text, accepted peer text t) ∧
  ∀ before encrypted text after, t = before ++ Sent encrypted (MessageText text) :: after →
    silent before ∧ silent after ∧ mail_to Address_String FormatRFC1123Z s to subject body text.
Proof.
  intros Hc. pose proof (mailCall_outcome peer advertises clock Address_String FormatRFC1123Z rand s
    ctxDeadline call to subject body Hc) as Ho.
  destruct (mailCall _ _ _ _ _ _ _ _ _ _) as [t r]. destruct Ho as [[Ht Hr]|(u & b & text & v & -> & Hu & Hv & Hm & Hr)].
  - split.
    + split; [done|]. intros [text Ha]. by apply silent_not_accepted in Ha.
    + intros before b text after ->. apply Forall_app in Ht as [_ Ht].
      by apply Forall_cons in Ht as [Ht _].
  - assert (Hv' : silent (Sent b EndOfData :: v)) by (by constructor).
    split; [rewrite Hr; split|].
    + intros [Hw He]. exists text, u, b, v. done.
    + intros (text' & u' & b' & v' & Heq & Hw & He).
      apply one_text in Heq as (<- & [= <- <-] & _); done.
    + intros u' b' text' v' Heq. apply one_text in Heq as (<- & [= <- <-] & <-); done.
Qed.
End properties.

(** ** Witnesses *)

Section witnesses.
#[local] Existing Instance Reference.runtime.
#[local] Existing Instance ReferenceHttp.net.
#[local] Existing Instance ReferenceConfig.library.

Definition mailConfig : SMTPConfig :=
  mkSMTPConfig "smtp.example.com:587" "no-reply@example.com" "mailer" "secret" "" "" "starttls".
Definition mailClient : SMTP :=
  mkSMTP "smtp.example.com:587" "smtp.example.com" (mkMailAddress "" "no-reply@example.com") "no-reply@example.com"
    (mkPlainAuth "mailer" "secret" "smtp.example.com") "smtp.example.com" "starttls".

(** A server that accepts everything, and one that hangs up when the session ends. *)
Definition accepting (_ : list Wire) (_ : Wire) : bool := true.
Definition hangingUp (_ : list Wire) (w : Wire) : bool :=
  match w with Sent _ QuitCommand => false | _ => true end.

Definition notice peer : list Wire * Checked unit :=
  mailCall peer (λ _ _, true) (λ _, 0%Z) MailAddress_Address (λ _, "now") (λ _, Some "id") mailClient None
    (CallChanged "user@example.com") [].


(** The mail counts as sent although the server hangs up on the last command. *)
Lemma submission_result_witness :
  (notice hangingUp).2 = inl tt ∧ ∃ text, accepted hangingUp text (notice hangingUp).1.
Proof.
  assert (Hr : (notice hangingUp).2 = inl tt) by (vm_compute; reflexivity).
  split; [exact Hr|].
  pose proof (submission_result mailClient hangingUp (λ _ _, true) (λ _, 0%Z) MailAddress_Address (λ _, "now")
    (λ _, Some "id") None (CallChanged "user@example.com") "user@example.com" "Your Clixor password was changed"
    changedBody eq_refl) as Hs.
  unfold notice in *. destruct (mailCall _ _ _ _ _ _ _ _ _ _) as [t r]. by apply Hs.
Defined.
End witnesses.
