(* ===== verification/Startup.v ===== *)
(** * Starting the server

    [main] of [src/cmd/api/main.go]: the configuration file, the configuration, and the services
    and policies it makes of them; with the constructors it calls that have no other place:
    [NewQueueCipher] of [mail/queue.go], [NewTelnyxSMS] of [verification/telnyx_sms.go], [New] of
    [appleauth/appleauth.go] and [ConfigureAndroidLinks] of [httpapi/android_links.go].

    Connecting to another server, reading a key file and parsing the legal release are outside
    this repository or are input and output: [opens] says which of them succeed. *)

From Stdlib Require Import ZArith Lia Ascii.
From S2P Require Import Prelude.
From S2P Require Import Runtime.
From S2P Require Import GoText.
From S2P Require Import AuthTokens.
From S2P Require Import Media.
From S2P Require Import MediaQuotas.
From S2P Require Import Relay.
From S2P Require Import MailWorker.
From S2P Require Import Verification.
From S2P Require Import Redis.
From S2P Require Import OTP.
From S2P Require Import Http.
From S2P Require Import Middleware.
From S2P Require Import HttpReference.
From S2P Require Import Config.
From S2P Require Import EnvFile.
From S2P Require Import SMTP.

(** ** Constructors *)

(** What [main] opens that may fail to. *)
Inductive Dependency :=
  | DependencyPostgres | DependencyNATS | DependencyLimiter | DependencyPresence | DependencyMedia
  | DependencyOTP | DependencyAPNS | DependencySandboxAPNS | DependencyFCM | DependencyLegalRelease.

(** A Telnyx client without its HTTP client. *)
Record TelnyxSMS := mkTelnyxSMS {
  TelnyxSMS_apiKey : string; TelnyxSMS_fromNumber : string; TelnyxSMS_messagingProfileID : string;
  TelnyxSMS_webhookURL : string }.

Inductive Verifier :=
  | DevelopmentCode (code : string)
  | OneTimeCodes (o : OTP) (sender : TelnyxSMS)
  | VerificationOff.

(** The credentials of the APNs clients that send to iOS devices. *)
Inductive IOSPush :=
  | IOSPushOff
  | IOSPushTo (credentials : APNSConfig)
  | IOSPushWithFallback (credentials fallback : APNSConfig).

Record MailSetup := mkMailSetup {
  MailSetup_client : SMTP; MailSetup_queueKey : string; MailSetup_policy : DeliveryPolicy }.

Section startup.
Context `{GoRuntime, NetIP, !ConfigLibrary, !HMAC}.

(** The key of the cipher. *)
Definition NewQueueCipher (encodedKey : string) : option string :=
  key ← DecodeString StrictEncoding (TrimSpace encodedKey);
  if (strlen key =? 32)%Z then Some key else None.

Definition NewTelnyxSMS (apiKey fromNumber messagingProfileID webhookURL : string) : option TelnyxSMS :=
  let apiKey := TrimSpace apiKey in let fromNumber := TrimSpace fromNumber in
  if same apiKey "" || same fromNumber "" then None
  else Some (mkTelnyxSMS apiKey fromNumber (TrimSpace messagingProfileID) (TrimSpace webhookURL)).

(** The audience of the Apple verifier; without one it answers [ErrUnavailable]. *)
Definition NewAppleVerifier (audience : string) : option string :=
  if same (TrimSpace audience) "" then None else Some audience.

(** The pattern of a package name: two or more parts between dots, each a letter and then letters,
    digits and underscores. *)
Definition packagePart (part : string) : bool :=
  match part with
  | String c rest =>
    let n := N_of_ascii c in
    ((65 <=? n) && (n <=? 90) || (97 <=? n) && (n <=? 122))%N && every_byte keyByte rest
  | "" => false
  end.
Definition packagePattern (packageName : string) : bool :=
  let parts := Split "." packageName in (2 <=? length parts)%nat && forallb packagePart parts.

(** [strings.ToUpper] on bytes below 128; no other character has an upper case that the pattern
    for fingerprints lets through. *)
Definition upperByte (c : ascii) : ascii :=
  let n := N_of_ascii c in if ((97 <=? n) && (n <=? 122))%N then ascii_of_N (n - 32) else c.
Definition ToUpper (s : string) : string := of_bytes (map upperByte (bytes_of s)).

(** [^([0-9A-F]{2}:){31}[0-9A-F]{2}$] *)
Definition fingerprintPattern (fingerprint : string) : bool :=
  let parts := Split ":" fingerprint in
  (length parts =? 32)%nat &&
  forallb (λ part, (strlen part =? 2)%Z && every_byte (λ n, digit n || ((65 <=? n) && (n <=? 70))%N) part) parts.

(** The distinct fingerprints in their canonical form. *)
Fixpoint canonicalFingerprints (fingerprints canonical : list string) : Checked (list string) :=
  match fingerprints with
  | [] => mret canonical
  | fingerprint :: fingerprints =>
    let fingerprint := ToUpper (TrimSpace fingerprint) in
    if negb (fingerprintPattern fingerprint) then inr "Android signing fingerprint must be SHA-256 colon-separated hex"
    else canonicalFingerprints fingerprints
           (if bool_decide (fingerprint ∈ canonical) then canonical else canonical ++ [fingerprint])
  end.

(** The fingerprints of the document at [/.well-known/assetlinks.json]. *)
Definition ConfigureAndroidLinks (packageName : string) (fingerprints : list string) : Checked (list string) :=
  _ ← refuse (negb (same packageName "") && negb (packagePattern packageName)) "invalid Android package name";
  _ ← refuse ((20 <? length fingerprints)%nat
              || negb (bool_decide (fingerprints = [])) && same packageName "")
        "invalid Android signing configuration";
  canonicalFingerprints fingerprints [].

(** ** Policies *)

Definition otpPolicy (v : VerificationConfig) : OTPPolicy :=
  mkOTPPolicy (Verification_OTPCodeLength v) (Verification_OTPChallengeTTL v) (Verification_OTPResendCooldown v)
    (Verification_OTPLockoutTTL v) (Verification_OTPMaxAttempts v) (Verification_OTPPhoneSendHourly v)
    (Verification_OTPPhoneSendDaily v) (Verification_OTPGlobalSendMinute v)
    (Verification_OTPGlobalSendDaily v) (Verification_OTPAllowedPrefixes v).

Definition resetPolicy (m : MailConfig) : PasswordResetPolicy :=
  mkPasswordResetPolicy (same (MailConfig_Provider m) "smtp") (MailConfig_PasswordResetSecret m)
    (MailConfig_PasswordResetLength m) (MailConfig_PasswordResetTTL m) (MailConfig_PasswordResetMaxAttempts m).

Definition reservationLimits (m : MediaConfig) : MediaReservationLimits :=
  mkMediaReservationLimits (Media_PendingTTL m) (Media_PendingUserMaxCount m) (Media_PendingUserMaxBytes m)
    (Media_PendingConversationMaxCount m) (Media_PendingConversationMaxBytes m) (Media_StoredUserMaxCount m)
    (Media_StoredUserMaxBytes m) (Media_StoredConversationMaxCount m) (Media_StoredConversationMaxBytes m).

Definition mediaPolicy (m : MediaConfig) : MediaPolicy :=
  mkMediaPolicy (Media_ConversationMaxBytes m) (Media_ProfileMaxBytes m) (Media_CompletionTimeout m)
    (Media_VerificationConcurrency m) (reservationLimits m).

Definition pushPolicy (p : PushDeliveryConfig) : PushRetryPolicy :=
  mkPushRetryPolicy (PushConfig_BatchSize p) (PushConfig_WorkerConcurrency p) (PushConfig_MaxAttempts p)
    (PushConfig_BaseDelay p) (PushConfig_MaxDelay p) (PushConfig_DeliveredRetention p)
    (PushConfig_DeadLetterRetention p).

(** ** The server that is started *)

Record Deployment := mkDeployment {
  Deployment_durableStore : bool;
  Deployment_autoMigrate : bool;
  Deployment_mail : option MailSetup;
  Deployment_verifier : Verifier;
  Deployment_iosPush : IOSPush;
  Deployment_androidPush : option FCMConfig;
  Deployment_tokens : TokenManager;
  Deployment_appleAudience : option string;
  Deployment_passwordReset : PasswordResetPolicy;
  Deployment_mediaPolicy : MediaPolicy;
  Deployment_trustedProxies : list Prefix;
  Deployment_metricsToken : string;
  Deployment_androidLinks : list string;
  Deployment_relay : option PushRetryPolicy;
  Deployment_mediaCleanup : option (Z * Z);
  Deployment_choreCleanup : option (Z * Z);
  Deployment_writeTimeout : Z }.

Section host.
Context (opens : Dependency → bool) (SystemCertPool : bool) (ReadFile : string → option string).
Context (AppendCertsFromPEM : string → bool).

Definition opening (dependency : Dependency) (message : string) : Checked unit :=
  refuse (negb (opens dependency)) message.

Definition configureMail (m : MailConfig) : Checked (option MailSetup) :=
  if negb (same (MailConfig_Provider m) "smtp") then mret None else
  match NewQueueCipher (MailConfig_QueueEncryptionKey m) with
  | None => inr "configure encrypted mail queue"
  | Some key =>
    client ← NewAuthenticatedSMTP SystemCertPool ReadFile AppendCertsFromPEM
      (mkSMTPConfig (MailConfig_SMTPAddress m) (MailConfig_From m) (MailConfig_SMTPUsername m)
         (MailConfig_SMTPPassword m) (MailConfig_SMTPServerName m) (MailConfig_SMTPCAFile m)
         (MailConfig_SMTPTransport m));
    mret (Some (mkMailSetup client key (mailQueue m)))
  end.

(** [strings.TrimRight(s, "/")] *)
Fixpoint dropSlashes (l : list ascii) : list ascii :=
  match l with c :: rest => if bool_decide (c = "/"%char) then dropSlashes rest else l | [] => [] end.
Definition TrimRightSlashes (s : string) : string := of_bytes (rev (dropSlashes (rev (bytes_of s)))).

Definition configureVerifier (cfg : Config) : Checked Verifier :=
  let v := Config_Verification cfg in
  if negb (same (Verification_Provider v) "telnyx") then mret VerificationOff else
  match NewTelnyxSMS (Verification_TelnyxAPIKey v) (Verification_TelnyxFromNumber v)
          (Verification_TelnyxMessagingProfileID v)
          (TrimRightSlashes (Config_PublicBaseURL cfg) +:+ "/v1/webhooks/telnyx/messaging") with
  | None => inr "open SMS transport"
  | Some sender =>
    match NewOTP (if opens DependencyOTP then None else Some "connect OTP Redis") true
            (Verification_OTPSecret v) (otpPolicy v) (Verification_TelnyxPublicKey v) with
    | inr _ => inr "open verification service"
    | inl o => mret (OneTimeCodes o sender)
    end
  end.

Definition configureAPNS (cfg : Config) : Checked IOSPush :=
  let apns := Config_APNS cfg in
  if same (APNS_TeamID apns) "" || same (APNS_KeyID apns) "" || same (APNS_PrivateKeyFile apns) ""
  then mret IOSPushOff else
  _ ← opening DependencyAPNS "open APNs provider";
  if negb (same (APNS_Environment apns) "production") then mret (IOSPushTo apns) else
  let sandbox := Config_APNSSandbox cfg in
  let sandbox := if same (APNS_TeamID sandbox) "" then apns else sandbox in
  let sandbox := mkAPNSConfig (APNS_TeamID sandbox) (APNS_KeyID sandbox) (APNS_BundleID sandbox)
                   (APNS_PrivateKeyFile sandbox) "sandbox" in
  _ ← opening DependencySandboxAPNS "open sandbox APNs provider";
  mret (IOSPushWithFallback apns sandbox).

(** The dependencies of the two kinds of store: whether it is durable, the verifier, and the
    pushes to iOS devices. *)
Definition configureStore (cfg : Config) : Checked (bool * Verifier * IOSPush) :=
  if same (Config_Store cfg) "memory" then mret (false, DevelopmentCode "000000", IOSPushOff)
  else if same (Config_Store cfg) "postgres" then
    _ ← opening DependencyPostgres "open persistence";
    _ ← opening DependencyNATS "open event bus";
    _ ← opening DependencyLimiter "open rate limiter";
    _ ← opening DependencyPresence "open presence store";
    _ ← opening DependencyMedia "open media store";
    verifier ← configureVerifier cfg;
    iosPush ← configureAPNS cfg;
    mret (true, verifier, iosPush)
  else inr "unsupported CLUSTER_STORE".

(** [main] after the configuration has been loaded, until it serves. *)
Definition configure (cfg : Config) : Checked Deployment :=
  mailSetup ← configureMail (Config_Mail cfg);
  '(durableStore, verifier, iosPush) ← configureStore cfg;
  androidPush ← (if same (FCM_ProjectID (Config_FCM cfg)) "" then mret None
                 else _ ← opening DependencyFCM "configure FCM"; mret (Some (Config_FCM cfg)));
  androidLinks ← ConfigureAndroidLinks (Android_PackageName (Config_Android cfg))
                   (Android_SigningFingerprints (Config_Android cfg));
  _ ← opening DependencyLegalRelease "configure legal release";
  let chores := Config_ChoreRotation cfg in let media := Config_Media cfg in
  mret {|
    Deployment_durableStore := durableStore;
    Deployment_autoMigrate := durableStore && Config_AutoMigrate cfg;
    Deployment_mail := mailSetup;
    Deployment_verifier := verifier;
    Deployment_iosPush := iosPush;
    Deployment_androidPush := androidPush;
    Deployment_tokens := mkTokenManager (Config_JWTIssuer cfg) (Config_AccessSecret cfg) (Config_AccessTTL cfg)
                           (Config_RefreshTTL cfg);
    Deployment_appleAudience := NewAppleVerifier (Config_AppleClientID cfg);
    Deployment_passwordReset := resetPolicy (Config_Mail cfg);
    Deployment_mediaPolicy := mediaPolicy media;
    Deployment_trustedProxies := Config_TrustedProxyCIDRs cfg;
    Deployment_metricsToken := Config_MetricsToken cfg;
    Deployment_androidLinks := androidLinks;
    Deployment_relay := if durableStore then Some (pushPolicy (Config_PushDelivery cfg)) else None;
    Deployment_mediaCleanup :=
      if durableStore then Some (Media_CleanupInterval media, Media_CleanupBatchSize media) else None;
    Deployment_choreCleanup :=
      if durableStore then Some (Chore_CleanupInterval chores, Chore_CleanupBatchSize chores) else None;
    Deployment_writeTimeout := Config_HTTPWriteTimeout cfg
  |}.

(** [main] from the environment of the process on, until it serves. *)
Definition start (Lstat : string → option FileInfo) (Open : string → option FileBytes)
    (range : Environ → list (string * string)) (e : Environ) : Checked (Config * Deployment) :=
  let configPath := Getenv e "CLUSTER_CONFIG_FILE" in
  e ← (if same configPath "" then mret e
       else if negb (same configPath "/run/secrets/api.env") then inr "unsupported runtime configuration path"
       else match LoadAPIEnvironmentFile Lstat Open range configPath e with
            | (_, Some message) => inr message
            | (e, None) => mret e
            end);
  cfg ← Load (Getenv e);
  deployment ← configure cfg;
  mret (cfg, deployment).
End host.
End startup.
