(* ===== verification/StartupFacts.v ===== *)
(** * Facts about starting the server

    What an accepted configuration promises to the parts of the server it is for: the policies
    made of it meet the conditions their theorems have, and a production server runs with the
    durable store, encrypted connections, distinct secrets and real one-time codes. *)

From Stdlib Require Import ZArith Lia Ascii.
From S2P Require Import Prelude.
From S2P Require Import Runtime.
From S2P Require Import GoText.
From S2P Require Import AuthTokens.
From S2P Require Import Media.
From S2P Require Import MediaQuotas.
From S2P Require Import Relay.
From S2P Require Import MailWorker.
From S2P Require Import Verification.
From S2P Require Import Redis.
From S2P Require Import OTP.
From S2P Require Import OTPFacts.
From S2P Require Import Http.
From S2P Require Import Middleware.
From S2P Require Import HttpReference.
From S2P Require Import Config.
From S2P Require Import EnvFile.
From S2P Require Import SMTP.
From S2P Require Import Startup.

(** Takes every bind of a sequence apart. *)
Ltac steps H :=
  checks H;
  lazymatch type of H with
  | _ ≫= _ = inl _ =>
    let x := fresh "x" in let Hx := fresh "Hx" in
    apply bind_inl in H as (x & Hx & H); cbv beta in H; steps H
  | _ => idtac
  end.

Lemma same_true a b : same a b = true ↔ a = b.
Proof. apply bool_decide_eq_true. Qed.
Lemma same_false a b : same a b = false ↔ a ≠ b.
Proof. apply bool_decide_eq_false. Qed.
Lemma outside_false low x high : outside low x high = false ↔ (low ≤ x ≤ high)%Z.
Proof. unfold outside. rewrite orb_false_iff, !Z.ltb_ge. lia. Qed.

Ltac checked :=
  unfold outside, same in *; bool_prop.

Section facts.
Context `{GoRuntime, NetIP, !ConfigLibrary, !HMAC}.
Implicit Types (cfg : Config).

Lemma validatePushDelivery_spec cfg u :
  validatePushDelivery cfg = inl u →
  Config_PushDelivery cfg = noPushDelivery ∨ policy_valid (pushPolicy (Config_PushDelivery cfg)) = true.
Proof.
  unfold validatePushDelivery. intros Hv. destruct (bool_decide _) eqn:Hd; [left; by bool_prop|right].
  cbv zeta in Hv. checks Hv. unfold policy_valid, between, pushPolicy, Second, Minute, Hour, Millisecond in *. cbn.
  rewrite !andb_true_iff, !Z.leb_le. checked. lia.
Qed.

Lemma validateMailQueue_spec q u : validateMailQueue q = inl u → mail_policy_valid q = true.
Proof.
  unfold validateMailQueue. intros Hv. checks Hv. unfold mail_policy_valid, between, Minute, Hour, Millisecond in *.
  rewrite !andb_true_iff, !Z.leb_le. checked. lia.
Qed.

(** What the media settings promise: quotas that hold together, with room for every size a
    request may have, and time to complete an upload within a request. *)
Definition media_fits (p : MediaPolicy) (writeTimeout : Z) : Prop :=
  let l := MediaPolicy_ReservationLimits p in
  limits_ok l ∧
  (1 ≤ MediaPolicy_ConversationMaxBytes p ≤ MediaReservationLimits_MaxPendingBytesPerUser l)%Z ∧
  (MediaPolicy_ConversationMaxBytes p ≤ MediaReservationLimits_MaxPendingBytesConversation l)%Z ∧
  (1 ≤ MediaPolicy_ProfileMaxBytes p ≤ MediaReservationLimits_MaxPendingBytesPerUser l)%Z ∧
  (MediaPolicy_CompletionTimeout p + 10 * Second ≤ writeTimeout)%Z.

Lemma validateMedia_spec cfg u :
  validateMedia cfg = inl u →
  media_fits (mediaPolicy (Config_Media cfg)) (Config_HTTPWriteTimeout cfg) ∧
  (MediaPolicy_ConversationMaxBytes (mediaPolicy (Config_Media cfg)) ≠ 0 ∧
   MediaPolicy_CompletionTimeout (mediaPolicy (Config_Media cfg)) ≠ 0)%Z.
Proof.
  unfold validateMedia. intros Hv. cbv zeta in Hv. checks Hv.
  unfold outside in *. bool_prop. unfold media_fits, mediaPolicy, reservationLimits, Minute, Second in *. cbn.
  split; [|lia]. split_and!; try lia. split.
  - unfold MediaReservationLimits_Validate. cbn. destruct (_ || _) eqn:Hb; [|done].
    exfalso. apply not_false_iff_true in Hb. apply Hb. unfold Minute, Second.
    rewrite !orb_false_iff, !Z.ltb_ge. lia.
  - intros [] []; cbn; lia.
  - intros [] []; cbn; lia.
Qed.

(** The server keeps them: [New] replaces only the number of verifications. *)
Lemma serverMediaPolicy_fits p writeTimeout :
  media_fits p writeTimeout → MediaPolicy_ConversationMaxBytes p ≠ 0%Z → MediaPolicy_CompletionTimeout p ≠ 0%Z →
  media_fits (serverMediaPolicy p) writeTimeout ∧ (1 ≤ MediaPolicy_VerificationConcurrency (serverMediaPolicy p))%Z.
Proof.
  intros Hf Hc Ht. unfold serverMediaPolicy.
  rewrite (proj2 (Z.eqb_neq _ _) Hc), (proj2 (Z.eqb_neq _ _) Ht).
  destruct (_ <? _)%Z eqn:Hw; bool_prop; [|done]. split; [exact Hf|]. cbn. lia.
Qed.

Lemma validateVerification_spec cfg u :
  validateVerification cfg = inl u → Verification_Provider (Config_Verification cfg) = "telnyx" →
  let v := Config_Verification cfg in
  Policy_Validate (otpPolicy v) = None ∧ (32 ≤ strlen (Verification_OTPSecret v))%Z ∧
  Verification_OTPSecret v ≠ Config_AccessSecret cfg ∧ Verification_OTPSecret v ≠ Config_MetricsToken cfg ∧
  e164 (Verification_TelnyxFromNumber v) = true ∧
  (Config_Environment cfg = "production" → Verification_OTPAllowedPrefixes v ≠ []).
Proof.
  unfold validateVerification. intros Hv Hp. cbv zeta in Hv. checks Hv.
  rewrite Hp in Hv. change (negb (same "telnyx" "telnyx")) with false in Hv. cbv iota in Hv. checks Hv.
  unfold outside, same in *. bool_prop. cbv zeta. split_and!; try done.
  - unfold Policy_Validate, otpPolicy. cbn.
    repeat match goal with |- context [if ?b then _ else _] => destruct b eqn:?; bool_prop; [exfalso|] end; try done.
    all: repeat match goal with H : (_ || _) = true |- _ => apply orb_true_iff in H as [H|H] end; bool_prop; lia || congruence.
  - intros Henv Hnil. rewrite Hnil, bool_decide_true in Hv by done. done.
Qed.

Lemma validateMail_spec cfg u :
  validateMail cfg = inl u →
  let m := Config_Mail cfg in
  (noMailQueue (mailQueue m) = true ∨ mail_policy_valid (mailQueue m) = true) ∧
  (5 * Minute ≤ MailConfig_PasswordResetTTL m ≤ 30 * Minute)%Z ∧ MailConfig_PasswordResetLength m = 8%Z ∧
  (3 ≤ MailConfig_PasswordResetMaxAttempts m ≤ 10)%Z ∧
  (MailConfig_Provider m = "smtp" → validateMailSecrets cfg = inl tt).
Proof.
  unfold validateMail. intros Hv. cbv zeta in *. steps Hv. apply validateMailQueue_spec in Hx.
  unfold outside, same in *. bool_prop. split_and!; try done.
  - destruct (noMailQueue _); [by left|by right].
  - intros Hp. rewrite Hp in Hv. change (negb (bool_decide ("smtp" = "smtp"))) with false in Hv. cbv iota in Hv.
    apply bind_inl in Hv as ([] & _ & Hv). by destruct u.
Qed.

Lemma validateMailSecrets_spec cfg u :
  validateMailSecrets cfg = inl u →
  let m := Config_Mail cfg in let v := Config_Verification cfg in
  (32 ≤ strlen (MailConfig_PasswordResetSecret m))%Z ∧
  (MailConfig_PasswordResetSecret m ∉ [Config_AccessSecret cfg; Config_MetricsToken cfg; Verification_OTPSecret v;
                                       Verification_TelnyxAPIKey v; MailConfig_SMTPPassword m]) ∧
  ∃ key, NewQueueCipher (MailConfig_QueueEncryptionKey m) = Some key ∧ strlen key = 32%Z ∧
    key ∉ [Config_AccessSecret cfg; Config_MetricsToken cfg; Verification_OTPSecret v;
           Verification_TelnyxAPIKey v; MailConfig_PasswordResetSecret m; MailConfig_SMTPPassword m].
Proof.
  unfold validateMailSecrets. intros Hv. cbv zeta in *. checks Hv. unfold same in *. bool_prop.
  split; [done|]. split; [rewrite !not_elem_of_cons; split_and!; try done; apply not_elem_of_nil|].
  destruct (DecodeString _ _) as [key|] eqn:Hd; [|done]. checks Hv. exists key. bool_prop.
  split; [|split; [done|]].
  - unfold NewQueueCipher. rewrite Hd.
    change ((if (strlen key =? 32)%Z then Some key else None) = Some key). by rewrite Hb.
  - intros Hin. apply not_true_iff_false in Hv. apply Hv, existsb_exists.
    exists key. split; [by apply list_elem_of_In|]. apply orb_true_iff. right. by apply bool_decide_true.
Qed.

(** A URL that is parsed, with what is checked of it. *)
Definition url_ok (raw : string) (P : URL → Prop) : Prop := ∃ u, url_Parse raw = Some u ∧ P u.

Lemma validateProduction_spec cfg u :
  validateProduction cfg = inl u →
  (32 ≤ strlen (Config_MetricsToken cfg))%Z ∧ Config_MetricsToken cfg ≠ Config_AccessSecret cfg ∧
  Config_AutoMigrate cfg = false ∧
  url_ok (Config_PublicBaseURL cfg) (λ u, URL_Scheme u = "https" ∧ URL_Host u ≠ "" ∧ URL_User u = false) ∧
  url_ok (Config_DatabaseURL cfg) (λ u, URL_Query u "sslmode" ∈ ["require"; "verify-ca"; "verify-full"]) ∧
  url_ok (Config_RedisURL cfg) (λ u, URL_Scheme u = "rediss" ∧ URL_Host u ≠ "") ∧
  url_ok (Config_NATSURL cfg) (λ u, URL_Scheme u = "tls" ∧ URL_Host u ≠ "") ∧
  (Config_MediaProvider cfg = "s3" → S3_UseTLS (Config_S3 cfg) = true) ∧
  APNS_TeamID (Config_APNS cfg) ≠ "" ∧ APNS_KeyID (Config_APNS cfg) ≠ "" ∧
  APNS_PrivateKeyFile (Config_APNS cfg) ≠ "" ∧ APNS_Environment (Config_APNS cfg) = "production".
Proof.
  unfold validateProduction, url_ok. intros Hv. cbv zeta in Hv. checks Hv.
  destruct (url_Parse (Config_PublicBaseURL cfg)) as [public|]; [|done].
  apply bind_inl in Hv as (x & Hdb & Hv). checks Hv.
  destruct (url_Parse (Config_DatabaseURL cfg)) as [db|]; [|done]. checks Hdb.
  destruct (url_Parse (Config_RedisURL cfg)) as [redis|]; [|done].
  destruct (url_Parse (Config_NATSURL cfg)) as [nats|]; [|done].
  unfold same in *. bool_prop. split_and!; try done; eauto 6.
  intros Hs. match goal with Hb : bool_decide (Config_MediaProvider cfg = "s3") && _ = false |- _ =>
    apply andb_false_iff in Hb as [Hb|Hb]; by bool_prop end.
Qed.

(** The parts of an accepted configuration. *)
Record accepted_config cfg : Prop := {
  ac_push : validatePushDelivery cfg = inl tt;
  ac_verification : validateVerification cfg = inl tt;
  ac_mail : validateMail cfg = inl tt;
  ac_media : validateMedia cfg = inl tt;
  ac_secret : Config_Store cfg ≠ "memory" → (32 ≤ strlen (Config_AccessSecret cfg))%Z;
  ac_access : (Minute ≤ Config_AccessTTL cfg ≤ Hour)%Z;
  ac_refresh : (Hour ≤ Config_RefreshTTL cfg ≤ 365 * 24 * Hour)%Z;
  ac_chores : (5 * Minute ≤ Chore_CleanupInterval (Config_ChoreRotation cfg))%Z ∧
              (1 ≤ Chore_CleanupBatchSize (Config_ChoreRotation cfg))%Z;
  ac_production : Config_Environment cfg = "production" →
    Config_Store cfg = "postgres" ∧ Verification_Provider (Config_Verification cfg) = "telnyx" ∧
    TrimSpace (Config_AppleClientID cfg) ≠ "" ∧ validateProduction cfg = inl tt }.

Lemma Config_Validate_spec cfg u : Validate cfg = inl u → accepted_config cfg.
Proof.
  unfold Validate. intros Hv. cbv zeta in Hv. steps Hv.
  repeat match goal with x : unit |- _ => destruct x end. unfold outside, same in *. bool_prop.
  constructor; try done.
  - intros Hs. match goal with Hb : negb (bool_decide (Config_Store cfg = "memory")) && _ = false |- _ =>
      apply andb_false_iff in Hb as [Hb|Hb] end; by bool_prop.
  - intros Henv. rewrite Henv in *. change (bool_decide ("production" = "production")) with true in *.
    cbn [andb] in *. bool_prop. done.
Qed.

Lemma NewOTP_spec connected sender secret policy key o :
  NewOTP connected sender secret policy key = inl o →
  OTP_secret o = secret ∧ OTP_policy o = policy ∧ Policy_Validate policy = None.
Proof.
  unfold NewOTP. destruct (_ || _); [done|]. destruct (Policy_Validate policy); [done|].
  destruct connected; [done|]. destruct (decodeWebhookPublicKey key); [|done]. by intros [= <-].
Qed.

Section configured.
Context (opens : Dependency → bool) (SystemCertPool : bool) (ReadFile : string → option string).
Context (AppendCertsFromPEM : string → bool) (cfg : Config) (deployment : Deployment).
Context (Hconfigure : configure opens SystemCertPool ReadFile AppendCertsFromPEM cfg = inl deployment).

Lemma configure_spec :
  ∃ durable, configureStore opens cfg = inl (durable, Deployment_verifier deployment, Deployment_iosPush deployment) ∧
  configureMail SystemCertPool ReadFile AppendCertsFromPEM (Config_Mail cfg) = inl (Deployment_mail deployment) ∧
  Deployment_durableStore deployment = durable ∧
  Deployment_autoMigrate deployment = durable && Config_AutoMigrate cfg ∧
  Deployment_tokens deployment
    = mkTokenManager (Config_JWTIssuer cfg) (Config_AccessSecret cfg) (Config_AccessTTL cfg) (Config_RefreshTTL cfg) ∧
  Deployment_appleAudience deployment = NewAppleVerifier (Config_AppleClientID cfg) ∧
  Deployment_passwordReset deployment = resetPolicy (Config_Mail cfg) ∧
  Deployment_mediaPolicy deployment = mediaPolicy (Config_Media cfg) ∧
  Deployment_metricsToken deployment = Config_MetricsToken cfg ∧
  Deployment_relay deployment = (if durable then Some (pushPolicy (Config_PushDelivery cfg)) else None) ∧
  Deployment_writeTimeout deployment = Config_HTTPWriteTimeout cfg.
Proof.
  revert Hconfigure. unfold configure. intros (mail & Hm & Hc)%bind_inl.
  apply bind_inl in Hc as ([[durable verifier] ios] & Hs & Hc).
  apply bind_inl in Hc as (android & _ & Hc). apply bind_inl in Hc as (links & _ & Hc).
  unfold opening in Hc. checks Hc. injection Hc as <-. by exists durable.
Qed.

Lemma configureMail_spec setup :
  Deployment_mail deployment = Some setup →
  MailConfig_Provider (Config_Mail cfg) = "smtp" ∧ MailSetup_policy setup = mailQueue (Config_Mail cfg) ∧
  NewQueueCipher (MailConfig_QueueEncryptionKey (Config_Mail cfg)) = Some (MailSetup_queueKey setup).
Proof.
  intros Hsetup. destruct configure_spec as (durable & _ & Hm & _). rewrite Hsetup in Hm.
  unfold configureMail in Hm. destruct (same _ _) eqn:Hp; [|done]. cbn [negb] in Hm.
  destruct (NewQueueCipher _) as [key|]; [|done]. apply bind_inl in Hm as (client & _ & Hm).
  injection Hm as <-. unfold same in Hp. by bool_prop.
Qed.

Lemma configureVerifier_spec o sender :
  Deployment_verifier deployment = OneTimeCodes o sender →
  Verification_Provider (Config_Verification cfg) = "telnyx" ∧
  OTP_secret o = Verification_OTPSecret (Config_Verification cfg) ∧
  OTP_policy o = otpPolicy (Config_Verification cfg).
Proof.
  intros Hver. destruct configure_spec as (durable & Hs & _). rewrite Hver in Hs.
  unfold configureStore, opening in Hs. destruct (same _ "memory"); [done|].
  destruct (same _ "postgres"); [|done]. checks Hs. apply bind_inl in Hs as (verifier & Hc & Hs).
  apply bind_inl in Hs as (ios & _ & Hs). injection Hs as _ -> _.
  unfold configureVerifier in Hc. destruct (same _ "telnyx") eqn:Hp; [|done]. cbn [negb] in Hc.
  destruct (NewTelnyxSMS _ _ _ _); [|done]. destruct (NewOTP _ _ _ _ _) as [o'|] eqn:Ho; [|done].
  injection Hc as -> _. apply NewOTP_spec in Ho as (-> & -> & _). unfold same in Hp. by bool_prop.
Qed.
End configured.

Lemma configureStore_production opens cfg durable verifier iosPush :
  Config_Store cfg = "postgres" → Verification_Provider (Config_Verification cfg) = "telnyx" →
  APNS_TeamID (Config_APNS cfg) ≠ "" → APNS_KeyID (Config_APNS cfg) ≠ "" →
  APNS_PrivateKeyFile (Config_APNS cfg) ≠ "" → APNS_Environment (Config_APNS cfg) = "production" →
  configureStore opens cfg = inl (durable, verifier, iosPush) →
  durable = true ∧ (∃ o sender, verifier = OneTimeCodes o sender) ∧
  ∃ credentials fallback, iosPush = IOSPushWithFallback credentials fallback ∧
    APNS_Environment credentials = "production".
Proof.
  unfold configureStore, opening. intros -> Hprov Hteam Hkey Hfile Henv Hs.
  change (same "postgres" "memory") with false in Hs. change (same "postgres" "postgres") with true in Hs.
  cbv iota in Hs. checks Hs. apply bind_inl in Hs as (verifier' & Hv & Hs).
  apply bind_inl in Hs as (ios & Hi & Hs). injection Hs as <- -> ->. split; [done|]. split.
  - unfold configureVerifier in Hv. rewrite Hprov in Hv. change (negb (same "telnyx" "telnyx")) with false in Hv.
    cbv iota zeta in Hv. destruct (NewTelnyxSMS _ _ _ _) as [sender|]; [|done].
    destruct (NewOTP _ _ _ _ _) as [o|]; [|done]. injection Hv as <-. by exists o, sender.
  - unfold configureAPNS, opening, same in Hi. rewrite !bool_decide_false in Hi by done. cbn [orb] in Hi.
    checks Hi. rewrite bool_decide_true in Hi by done. cbn [negb] in Hi. checks Hi.
    injection Hi as <-. eauto.
Qed.
End facts.

(** ** Properties *)

Section properties.
Context `{GoRuntime, NetIP, !ConfigLibrary, !HMAC}.
Context (opens : Dependency → bool) (SystemCertPool : bool) (ReadFile : string → option string).
Context (AppendCertsFromPEM : string → bool).

Definition noPushPolicy : PushRetryPolicy := pushPolicy noPushDelivery.

(** C21. The checks of the configuration are those the rest of the server relies on.  Whatever
    configuration passes [Validate], the policies [main] makes of it are the ones the other parts
    assume: the relay and the mail worker get policies within their bounds, or the all-zero one
    the checks let through; the media policy of the server has consistent quotas, with room for
    the largest object of a conversation and of a profile, and leaves a request time to complete
    an upload; the one-time codes get a policy that passes their own check, with a secret of at
    least 32 bytes that is neither the one of the access tokens nor that of the metrics; reset
    codes are of 8 digits with 3 to 10 attempts and live for 5 to 30 minutes; and the key of the
    mail queue has 256 bits. *)
Theorem accepted_policies_sound (cfg : Config) deployment :
  Validate cfg = inl tt →
  configure opens SystemCertPool ReadFile AppendCertsFromPEM cfg = inl deployment →
  (∀ policy, Deployment_relay deployment = Some policy → policy = noPushPolicy ∨ policy_valid policy = true) ∧
  (∀ setup, Deployment_mail deployment = Some setup →
     (noMailQueue (MailSetup_policy setup) = true ∨ mail_policy_valid (MailSetup_policy setup) = true) ∧
     strlen (MailSetup_queueKey setup) = 32%Z ∧
     PasswordResetPolicy_Enabled (Deployment_passwordReset deployment) = true ∧
     (32 ≤ strlen (PasswordResetPolicy_HMACSecret (Deployment_passwordReset deployment)))%Z) ∧
  media_fits (serverMediaPolicy (Deployment_mediaPolicy deployment)) (Deployment_writeTimeout deployment) ∧
  (∀ o sender, Deployment_verifier deployment = OneTimeCodes o sender →
     Policy_Validate (OTP_policy o) = None ∧ (32 ≤ strlen (OTP_secret o))%Z ∧
     OTP_secret o ≠ TokenManager_secret (Deployment_tokens deployment) ∧
     OTP_secret o ≠ Deployment_metricsToken deployment) ∧
  (PasswordResetPolicy_CodeLength (Deployment_passwordReset deployment) = 8 ∧
   3 ≤ PasswordResetPolicy_MaxAttempts (Deployment_passwordReset deployment) ≤ 10 ∧
   5 * Minute ≤ PasswordResetPolicy_TTL (Deployment_passwordReset deployment) ≤ 30 * Minute)%Z ∧
  (Minute ≤ TokenManager_accessTTL (Deployment_tokens deployment) ≤ Hour)%Z.
Proof.
  intros Hv%Config_Validate_spec Hc. destruct Hv as [Hpush Hver Hmail Hmedia _ Haccess _ _ _].
  destruct (configure_spec _ _ _ _ _ _ Hc) as
    (durable & _ & _ & _ & _ & Htok & _ & Hreset & Hmp & Hmt & Hrelay & Hwt).
  apply validateMail_spec in Hmail as (Hq & Httl & Hlen & Hatt & Hsecrets).
  rewrite Htok, Hreset, Hmp, Hmt, Hrelay, Hwt.
  split; [|split; [|split; [|split; [|split; [done|exact Haccess]]]]].
  - intros policy Hp. destruct durable; [|done]. injection Hp as <-.
    destruct (validatePushDelivery_spec _ _ Hpush) as [->|Hok]; [by left|by right].
  - intros setup Hs. destruct (configureMail_spec _ _ _ _ _ _ Hc setup Hs) as (Hprov & -> & Hkey).
    destruct (validateMailSecrets_spec _ _ (Hsecrets Hprov)) as (H32 & _ & key & Hkey' & Hk & _).
    rewrite Hkey in Hkey'. injection Hkey' as ->. split_and!; try done. cbn. rewrite Hprov. done.
  - apply validateMedia_spec in Hmedia as (Hfits & Hn & Ht). by apply serverMediaPolicy_fits.
  - intros o sender Ho. destruct (configureVerifier_spec _ _ _ _ _ _ Hc o sender Ho) as (Hprov & -> & ->).
    by apply validateVerification_spec in Hver as (? & ? & ? & ? & _).
Qed.

(** The secrets of a configuration; the two of the mail only with a mail server. *)
Definition secrets (cfg : Config) (deployment : Deployment) : list string :=
  [Config_AccessSecret cfg; Config_MetricsToken cfg; Verification_OTPSecret (Config_Verification cfg)] ++
  match Deployment_mail deployment with
  | Some setup => [MailConfig_PasswordResetSecret (Config_Mail cfg); MailSetup_queueKey setup]
  | None => []
  end.

End properties.

(** ** Witnesses *)

(** The value of a check that passes. *)
Definition passes {A} (r : Checked A) : bool := match r with inl _ => true | inr _ => false end.
Definition passed {A} (r : Checked A) : passes r = true → A :=
  match r with inl x => λ _, x | inr _ => λ Hr, False_rect _ (Bool.diff_false_true Hr) end.

Lemma passed_spec {A} (r : Checked A) Hr : r = inl (passed r Hr).
Proof. by destruct r. Qed.

Lemma passed_with {A B} (f : A → B) (r : Checked A) b :
  match r with inl x => f x = b | inr _ => False end → ∃ x, r = inl x ∧ f x = b.
Proof. destruct r as [x|]; [|done]. by exists x. Qed.

Lemma start_spec `{GoRuntime, NetIP, !ConfigLibrary, !HMAC} opens pool read append Lstat Open range e cfg deployment :
  start opens pool read append Lstat Open range e = inl (cfg, deployment) →
  Validate cfg = inl tt ∧ configure opens pool read append cfg = inl deployment.
Proof.
  unfold start. intros (e' & _ & Hs)%bind_inl. apply bind_inl in Hs as (cfg' & Hl & Hs).
  apply bind_inl in Hs as (deployment' & Hc & Hs). injection Hs as -> ->. split; [|done].
  unfold Load in Hl. steps Hl. injection Hl as <-. by repeat match goal with x : unit |- _ => destruct x end.
Qed.

Section witnesses.
#[local] Existing Instance Reference.runtime.
#[local] Existing Instance ReferenceHttp.net.
#[local] Existing Instance ReferenceHttp.hmac.
#[local] Existing Instance ReferenceConfig.library.

Definition productionEnv : Environ := list_to_map
  [("CLUSTER_ENV", "production"); ("CLUSTER_PUBLIC_BASE_URL", "https://api.example.com");
   ("CLUSTER_DATABASE_URL", "postgres://db/clustr?sslmode=require"); ("CLUSTER_REDIS_URL", "rediss://cache:6379");
   ("CLUSTER_NATS_URL", "tls://bus:4222"); ("CLUSTER_AUTO_MIGRATE", "false");
   ("CLUSTER_JWT_ACCESS_SECRET", "access-secret-of-at-least-32-byte");
   ("CLUSTER_METRICS_TOKEN", "metrics-token-of-at-least-32-byte");
   ("CLUSTER_OTP_HMAC_SECRET", "otp-hmac-secret-of-at-least-32-byte");
   ("CLUSTER_OTP_ALLOWED_PREFIXES", "+1, +44"); ("CLUSTER_VERIFICATION_PROVIDER", "telnyx");
   ("CLUSTER_TELNYX_API_KEY", "key"); ("CLUSTER_TELNYX_FROM_NUMBER", "+14155550100");
   ("CLUSTER_TELNYX_MESSAGING_PROFILE_ID", "profile");
   ("CLUSTER_TELNYX_PUBLIC_KEY", "AAAAAAAAAAAAAAAAAAAAAAAAAAAAAAAAAAAAAAAAAAA=");
   ("CLUSTER_S3_USE_TLS", "true"); ("CLUSTER_S3_PUBLIC_ENDPOINT", "media.example.com");
   ("CLUSTER_S3_SECRET_KEY", "s3-secret"); ("CLUSTER_APNS_TEAM_ID", "team"); ("CLUSTER_APNS_KEY_ID", "key");
   ("CLUSTER_APNS_PRIVATE_KEY_FILE", "/run/secrets/apns.p8"); ("CLUSTER_MAIL_PROVIDER", "smtp");
   ("CLUSTER_SMTP_ADDRESS", "smtp.example.com:587"); ("CLUSTER_SMTP_USERNAME", "mailer");
   ("CLUSTER_SMTP_PASSWORD", "mail-password");
   ("CLUSTER_MAIL_FROM", "no-reply@example.com");
   ("CLUSTER_MAIL_QUEUE_ENCRYPTION_KEY", "QkJCQkJCQkJCQkJCQkJCQkJCQkJCQkJCQkJCQkJCQkI=");
   ("CLUSTER_PASSWORD_RESET_HMAC_SECRET", "reset-secret-of-at-least-32-bytes!")].

Definition startReference (e : Environ) : Checked (Config * Deployment) :=
  start (λ _, true) true (λ _, None) (λ _, true) (λ _, None) (λ _, None) map_to_list e.

Lemma production_passes : passes (startReference productionEnv) = true.
Proof. vm_compute. reflexivity. Qed.

Definition production : Config * Deployment := passed (startReference productionEnv) production_passes.

Lemma production_valid :
  Validate production.1 = inl tt ∧
  configure (λ _, true) true (λ _, None) (λ _, true) production.1 = inl production.2.
Proof.
  pose proof (passed_spec _ production_passes) as Hs. fold production in Hs.
  destruct production as [cfg deployment]. by apply start_spec in Hs.
Qed.

Lemma production_environment : Config_Environment production.1 = "production".
Proof. vm_compute. reflexivity. Qed.

(** The policies of a server that has started. *)
Lemma accepted_policies_sound_witness :
  media_fits (serverMediaPolicy (Deployment_mediaPolicy production.2)) (Deployment_writeTimeout production.2).
Proof.
  exact (proj1 (proj2 (proj2 (accepted_policies_sound _ _ _ _ _ _ (proj1 production_valid) (proj2 production_valid))))).
Defined.


(** ** A policy of zeros *)

Definition zeroPushEnv : Environ := list_to_map
  [("CLUSTER_PUSH_DELIVERY_BATCH_SIZE", "0"); ("CLUSTER_PUSH_MAX_ATTEMPTS", "0");
   ("CLUSTER_PUSH_WORKER_CONCURRENCY", "0"); ("CLUSTER_PUSH_RETRY_BASE_DELAY", "0s");
   ("CLUSTER_PUSH_RETRY_MAX_DELAY", "0s"); ("CLUSTER_PUSH_DELIVERED_RETENTION", "0s");
   ("CLUSTER_PUSH_DEAD_LETTER_RETENTION", "0s")] ∪ productionEnv.

(** The check of the push settings replaces seven zeros by the defaults, but only for itself: a
    production server starts with a relay whose batches, attempts and delays are all zero. *)
Theorem zero_push_policy_starts :
  ∃ cfg deployment, startReference zeroPushEnv = inl (cfg, deployment) ∧
    Config_Environment cfg = "production" ∧ Deployment_relay deployment = Some noPushPolicy ∧
    policy_valid noPushPolicy = false.
Proof.
  destruct (passed_with (λ d, (Config_Environment d.1, Deployment_relay d.2)) (startReference zeroPushEnv)
    ("production", Some noPushPolicy)) as ([cfg deployment] & Hs & Hd); [vm_compute; reflexivity|].
  exists cfg, deployment. split; [exact Hs|]. split; [exact (f_equal fst Hd)|].
  split; [exact (f_equal snd Hd)|]. vm_compute. reflexivity.
Qed.
End witnesses.
