(* ===== verification/ObjectStorage.v ===== *)
(** * Object storage

    [src/internal/media]: the clients of OCI Object Storage ([oci.go]) and of S3 ([s3.go]) that
    keep the bytes of uploaded media.

    Both are networks away.  [ObjectServer] is what the OCI client takes from the service: the
    seven calls of [ociObjectStorageClient], a view of a bucket as the object under each name, and
    [mayWrite], whether somebody outside holds a capability to write a name or has such a write
    under way.  Its laws are the documented effects; a call may fail without an answer whether or
    not it had its effect.  The operations run beside clients that upload and beside other
    replicas, so they are sequences of requests between which others act ([others]), and they
    record their requests.

    The S3 client is a function of what its three requests return. *)

From Stdlib Require Import ZArith Lia Ascii.
From stdpp Require Import relations.
From S2P Require Import Prelude.
From S2P Require Import Runtime.
From S2P Require Import GoText.
From S2P Require Import Domain.
From S2P Require Import MediaKey.
From S2P Require Import HttpMedia.
From S2P Require Import Config.

(** ** The service *)

(** An object: its entity tag, length, content type and the checksum the service has
    verified, in base64. *)
Record Object := mkObject {
  Object_ETag : string; Object_Length : Z; Object_Type : string; Object_Sha256 : string }.

(** What [HeadObject] answers; each header may be missing. *)
Record HeadObjectResponse := mkHeadObjectResponse {
  Head_ContentLength : option Z; Head_ContentType : option string;
  Head_OpcContentSha256 : option string; Head_ETag : option string }.

(** The headers that are there are those of the object. *)
Definition describes (r : HeadObjectResponse) (o : Object) : Prop :=
  (∀ n, Head_ContentLength r = Some n → n = Object_Length o) ∧
  (∀ t, Head_ContentType r = Some t → t = Object_Type o) ∧
  (∀ h, Head_OpcContentSha256 r = Some h → h = Object_Sha256 o) ∧
  (∀ e, Head_ETag r = Some e → e = Object_ETag o).

Inductive AccessType := ObjectRead | ObjectWrite | OtherAccess.
#[export] Instance AccessType_eq_dec : EqDecision AccessType.
Proof. solve_decision. Defined.

(** A pre-authenticated request as it is asked for, and as it is listed. *)
Record PARDetails := mkPARDetails {
  Details_Name : string; Details_AccessType : AccessType; Details_TimeExpires : Z;
  Details_ObjectName : string }.

Record PARSummary := mkPARSummary {
  Summary_Id : option string; Summary_Name : option string; Summary_ObjectName : option string;
  Summary_AccessType : AccessType; Summary_TimeExpires : option Z }.

Record PARResponse := mkPARResponse { PAR_Id : option string; PAR_AccessUri : option string }.

(** An error the service answers, with its status, or one without an answer. *)
Inductive OCIError := OCIServiceError (status : Z) | OCIRequestFailed.

(** Renaming moves an object; whether it keeps its tag is left open. *)
Definition moved (o o' : Object) : Prop :=
  Object_Length o' = Object_Length o ∧ Object_Type o' = Object_Type o ∧ Object_Sha256 o' = Object_Sha256 o.

Class ObjectServer := {
  Bucket : Type;
  objectAt : Bucket → string → option Object;
  mayWrite : Bucket → string → Prop;
  HeadBucket : Bucket → option OCIError;
  HeadObject : Bucket → string → HeadObjectResponse + OCIError;
  RenameObject : Bucket → string → string → string → string → Bucket * option OCIError;
  CreatePreauthenticatedRequest : Bucket → PARDetails → Bucket * (PARResponse + OCIError);
  ListPreauthenticatedRequests : Bucket → option string → option string →
    (list PARSummary * option string) + OCIError;
  DeletePreauthenticatedRequest : Bucket → string → Bucket * option OCIError;
  DeleteObject : Bucket → string → Bucket * option OCIError;

  HeadObject_law b name r :
    HeadObject b name = inl r → ∃ o, objectAt b name = Some o ∧ describes r o;
  (** with the destination's [If-None-Match: *] and the source's [If-Match] *)
  RenameObject_law b source new tag :
    let b' := (RenameObject b source new tag "*").1 in
    (∀ name, mayWrite b' name → mayWrite b name) ∧
    ((∀ name, objectAt b' name = objectAt b name) ∨
     (∃ o o', objectAt b source = Some o ∧ Object_ETag o = tag ∧ objectAt b new = None ∧ moved o o' ∧
        ∀ name, objectAt b' name =
          if decide (name = new) then Some o' else if decide (name = source) then None else objectAt b name));
  CreatePreauthenticatedRequest_law b d :
    let b' := (CreatePreauthenticatedRequest b d).1 in
    (∀ name, objectAt b' name = objectAt b name) ∧
    (∀ name, mayWrite b' name →
       mayWrite b name ∨ name = Details_ObjectName d ∧ Details_AccessType d = ObjectWrite);
  DeletePreauthenticatedRequest_law b id :
    let b' := (DeletePreauthenticatedRequest b id).1 in
    (∀ name, objectAt b' name = objectAt b name) ∧ (∀ name, mayWrite b' name → mayWrite b name);
  DeleteObject_law b name :
    let b' := (DeleteObject b name).1 in
    (∀ name', name' ≠ name → objectAt b' name' = objectAt b name') ∧
    (∀ name', mayWrite b' name' → mayWrite b name') }.

Definition ociStatus (err : OCIError) (status : Z) : bool :=
  match err with OCIServiceError s => (s =? status)%Z | OCIRequestFailed => false end.

(** A URL as the checks of the client look at it; the user only as whether there is one. *)
Record URLParts := mkURLParts {
  Parts_Scheme : string; Parts_Host : string; Parts_User : bool; Parts_Path : string;
  Parts_EscapedPath : string; Parts_RawQuery : string; Parts_Fragment : string }.

(** From net/url and mime; [ParseMediaType] answers the media type without its parameters. *)
Class MediaText := {
  url_Parts : string → option URLParts;
  ResolveReference : string → string → string;
  ParseMediaType : string → option string }.

(** ** The OCI client *)

Definition ociPARNamePrefix : string := "clixor-".
Definition ociMaxPARExpiry : Z := 24 * Hour.
Definition ociPARCleanupMaxPages : nat := 10.

Record OCIObjectStorage := mkOCIObjectStorage {
  OCI_endpoint : string; OCI_namespace : string; OCI_bucket : string }.

(** The requests an operation makes. *)
Inductive OCIRequest :=
  | HeadRequest (name : string)
  | RenameRequest (source new tag : string)
  | CreateRequest (details : PARDetails)
  | ListRequest (prefix page : option string)
  | RevokeRequest (id : string)
  | DeleteRequest (name : string).

Definition instructions (uploadURL : string) (headers : list (string * string)) (token : string)
    : UploadInstructions :=
  mkUploadInstructions "PUT" (Some uploadURL) headers token.

Section oci.
Context `{GoRuntime, MediaText, ObjectServer}.

Definition validateOCIObjectKey (objectKey : string) : option string :=
  if bool_decide (objectKey = "") || (1024 <? strlen objectKey)%Z || negb (ValidUTF8 objectKey)
     || HasPrefix objectKey "/"
  then Some "OCI media object key is invalid"
  else if existsb control_char (String.list_ascii_of_string objectKey)
  then Some "OCI media object key is invalid"
  else None.

(** [client] and [endpoint] as main.go gets them; the logger and the clean-up loop are left out. *)
Definition newOCIObjectStorage (client : bool) (endpoint namespace bucket : string)
    : Checked OCIObjectStorage :=
  _ ← refuse (negb client) "OCI Object Storage client is required";
  let namespace := TrimSpace namespace in
  let bucket := TrimSpace bucket in
  _ ← refuse (same namespace "" || same bucket "") "OCI Object Storage namespace and bucket are required";
  _ ← refuse (match url_Parts endpoint with
              | None => true
              | Some u => negb (same (Parts_Scheme u) "https") || same (Parts_Host u) "" || Parts_User u
                          || negb (same (Parts_RawQuery u) "") || negb (same (Parts_Fragment u) "")
                          || (negb (same (Parts_Path u) "") && negb (same (Parts_Path u) "/"))
              end) "OCI Object Storage endpoint must be an HTTPS origin";
  mret (mkOCIObjectStorage endpoint namespace bucket).

(** Code that makes requests: before each of them the others have acted on the bucket.  [others]
    and [time] are indexed by the number of requests made so far. *)
Section client.
Context (others : nat → Bucket → Bucket) (time : nat → Z) (NewString : nat → string).
Context (s : OCIObjectStorage).

Definition Cloud (A : Type) : Type := Bucket → list OCIRequest → Bucket * list OCIRequest * A.
#[export] Instance Cloud_ret : MRet Cloud := λ A x b l, (b, l, x).
#[export] Instance Cloud_bind : MBind Cloud := λ A B f m b l, let '(b, l, x) := m b l in f x b l.

Definition request {A} (r : OCIRequest) (f : Bucket → Bucket * A) : Cloud A := λ b l,
  let '(b, x) := f (others (length l) b) in (b, l ++ [r], x).
Definition inspect {A} (r : OCIRequest) (f : Bucket → A) : Cloud A := request r (λ b, (b, f b)).
Definition clock : Cloud Z := λ b l, (b, l, time (length l)).
Definition newString : Cloud string := λ b l, (b, l, NewString (length l)).

Definition revoke (id : string) : Cloud (option OCIError) :=
  request (RevokeRequest id) (λ b, DeletePreauthenticatedRequest b id).

(** An error that is not a 404. *)
Definition failed (err : option OCIError) : bool :=
  match err with Some e => negb (ociStatus e 404) | None => false end.

Definition createPAR (objectKey : string) (expiry : Z) (accessType : AccessType)
    : Cloud (media_res (string * string)) :=
  match validateOCIObjectKey objectKey with
  | Some message => mret (MediaErr (MediaFailure message))
  | None =>
    if (expiry <=? 0)%Z || (ociMaxPARExpiry <? expiry)%Z
    then mret (MediaErr (MediaFailure "OCI media URL expiry must be between 1ns and 24h0m0s")) else
    now ← clock;
    name ← newString;
    let details := mkPARDetails (ociPARNamePrefix +:+ name) accessType (now + expiry)%Z objectKey in
    answer ← request (CreateRequest details) (λ b, CreatePreauthenticatedRequest b details);
    mret match answer with
    | inr _ => MediaErr (MediaFailure "create OCI media pre-authenticated request")
    | inl response =>
      match PAR_AccessUri response with
      | None => MediaErr (MediaFailure "OCI media pre-authenticated request omitted its access URI")
      | Some uri =>
        let id := TrimSpace (default "" (PAR_Id response)) in
        if bool_decide (id = "")
        then MediaErr (MediaFailure "OCI media pre-authenticated request omitted its identifier") else
        if match url_Parts uri with
           | None => true
           | Some u => negb (same (Parts_Scheme u) "") || negb (same (Parts_Host u) "") || Parts_User u
                       || negb (same (Parts_RawQuery u) "") || negb (same (Parts_Fragment u) "")
                       || negb (HasPrefix (Parts_EscapedPath u) "/p/")
           end
        then MediaErr (MediaFailure "OCI media pre-authenticated request returned an invalid access URI")
        else MediaOk (ResolveReference (OCI_endpoint s) uri, id)
      end
    end
  end.

(** The 32 bytes of a hexadecimal SHA-256. *)
Definition decodeSHA256 (value : string) : option string :=
  digest ← hex_DecodeString value;
  if (strlen digest =? 32)%Z then Some digest else None.

Definition PrepareUpload (objectKey contentType : string) (byteSize : Z) (expectedSHA256 : string)
    (expiry : Z) : Cloud (media_res UploadInstructions) :=
  match decodeSHA256 expectedSHA256 with
  | None => mret (MediaErr (MediaFailure "invalid OCI media upload declaration"))
  | Some digest =>
    if bool_decide (TrimSpace contentType = "") || (byteSize <? 1)%Z
    then mret (MediaErr (MediaFailure "invalid OCI media upload declaration")) else
    if match ParseMediaType contentType with Some t => negb (EqualFold t contentType) | None => true end
    then mret (MediaErr (MediaFailure "invalid OCI media upload content type")) else
    created ← createPAR objectKey expiry ObjectWrite;
    mret match created with
    | MediaErr e => MediaErr e
    | MediaOk (uploadURL, revocationToken) =>
      MediaOk (instructions uploadURL
        [("Content-Type", contentType); ("Content-Length", pretty byteSize);
         ("opc-checksum-algorithm", "SHA256"); ("opc-content-sha256", EncodeToString StdEncoding digest)]
        revocationToken)
    end
  end.

Definition DownloadURL (objectKey : string) (expiry : Z) : Cloud (media_res string) :=
  created ← createPAR objectKey expiry ObjectRead;
  mret match created with MediaErr e => MediaErr e | MediaOk (downloadURL, _) => MediaOk downloadURL end.

(** What is compared with the declaration. *)
Definition checkHead (response : HeadObjectResponse) (expectedSize : Z) (expectedDigest expectedType : string)
    : bool :=
  match Head_ContentLength response with
  | None => false
  | Some n =>
    (n =? expectedSize)%Z &&
    match Head_ContentType response with
    | None => false
    | Some contentType =>
      match ParseMediaType contentType with
      | None => false
      | Some actualType =>
        EqualFold actualType expectedType &&
        match Head_OpcContentSha256 response with
        | None => false
        | Some h =>
          negb (bool_decide (TrimSpace h = "")) &&
          match DecodeString StdEncoding h with
          | None => false
          | Some actualDigest => (strlen actualDigest =? 32)%Z && bool_decide (actualDigest = expectedDigest)
          end
        end
      end
    end
  end.

Definition headVerified (objectKey : string) (expectedSize : Z) (expectedSHA256 expectedContentType : string)
    : Cloud (media_res HeadObjectResponse) :=
  match validateOCIObjectKey objectKey with
  | Some message => mret (MediaErr (MediaFailure message))
  | None =>
    if (expectedSize <? 1)%Z then mret (MediaErr (MediaFailure "expected OCI media size must be positive")) else
    match decodeSHA256 expectedSHA256 with
    | None => mret (MediaErr (MediaFailure "expected OCI media SHA-256 must be 64 hexadecimal characters"))
    | Some expectedDigest =>
      let expectedType := default "" (ParseMediaType expectedContentType) in
      if bool_decide (TrimSpace expectedType = "")
      then mret (MediaErr (MediaFailure "expected OCI media content type is invalid")) else
      answer ← inspect (HeadRequest objectKey) (λ b, HeadObject b objectKey);
      mret match answer with
      | inr e => MediaErr (if ociStatus e 404 then ErrUploadMissing else ErrUnavailable)
      | inl response =>
        if checkHead response expectedSize expectedDigest expectedType
        then MediaOk response else MediaErr ErrVerificationMismatch
      end
    end
  end.

Definition Verify (objectKey : string) (expectedSize : Z) (expectedSHA256 expectedContentType : string)
    : Cloud (media_res unit) :=
  verified ← headVerified objectKey expectedSize expectedSHA256 expectedContentType;
  mret match verified with MediaOk _ => MediaOk tt | MediaErr e => MediaErr e end.

(** The capabilities of a page that write the object: an error ends the walk. *)
Fixpoint revokeWritePARs (objectKey : string) (items : list PARSummary) : Cloud (option MediaError) :=
  match items with
  | [] => mret None
  | item :: items =>
    if bool_decide (Summary_ObjectName item = Some objectKey)
       && bool_decide (Summary_AccessType item = ObjectWrite)
    then
      match Summary_Id item with
      | Some id =>
        if bool_decide (TrimSpace id = "") then mret (Some ErrUnavailable) else
        err ← revoke id;
        if failed err then mret (Some ErrUnavailable) else revokeWritePARs objectKey items
      | None => mret (Some ErrUnavailable)
      end
    else revokeWritePARs objectKey items
  end.

Fixpoint revokeDiscovered (pages : nat) (objectKey : string) (page : option string)
    : Cloud (option MediaError) :=
  match pages with
  | O => mret (Some ErrUnavailable)
  | S pages =>
    answer ← inspect (ListRequest (Some objectKey) page)
               (λ b, ListPreauthenticatedRequests b (Some objectKey) page);
    match answer with
    | inr _ => mret (Some ErrUnavailable)
    | inl (items, next) =>
      err ← revokeWritePARs objectKey items;
      match err with
      | Some e => mret (Some e)
      | None => if bool_decide (default "" next = "") then mret None else revokeDiscovered pages objectKey next
      end
    end
  end.

Definition revokeDiscoveredObjectWritePARs (objectKey : string) : Cloud (option MediaError) :=
  revokeDiscovered ociPARCleanupMaxPages objectKey None.

Definition revokeObjectWritePARs (objectKey revocationToken : string) : Cloud (option MediaError) :=
  let revocationToken := TrimSpace revocationToken in
  err ← (if bool_decide (revocationToken = "") then mret None else revoke revocationToken);
  if failed err then mret (Some ErrUnavailable) else
  err ← revokeDiscoveredObjectWritePARs objectKey;
  mret (if bool_decide (revocationToken = "") then err else None).

Definition FinalizeUpload (objectKey revocationToken : string) (expectedSize : Z)
    (expectedSHA256 expectedContentType : string) : Cloud (media_res string) :=
  match Published objectKey with
  | Err e => mret (MediaErr (MediaFailure (match e with ErrOther message => message | _ => "" end)))
  | Ok publishedKey =>
    if bool_decide (publishedKey = objectKey)
    then mret (MediaErr (MediaFailure "OCI media upload is already published")) else
    err ← revokeObjectWritePARs objectKey revocationToken;
    match err with
    | Some e => mret (MediaErr e)
    | None =>
      published ← headVerified publishedKey expectedSize expectedSHA256 expectedContentType;
      match published with
      | MediaOk _ => mret (MediaOk publishedKey)
      | MediaErr ErrUploadMissing =>
        staged ← headVerified objectKey expectedSize expectedSHA256 expectedContentType;
        match staged with
        | MediaErr e => mret (MediaErr e)
        | MediaOk staged =>
          let tag := TrimSpace (default "" (Head_ETag staged)) in
          if bool_decide (tag = "") then mret (MediaErr ErrVerificationMismatch) else
          renameErr ← request (RenameRequest objectKey publishedKey tag)
                        (λ b, RenameObject b objectKey publishedKey tag "*");
          published ← headVerified publishedKey expectedSize expectedSHA256 expectedContentType;
          mret match published with
          | MediaOk _ => MediaOk publishedKey
          | MediaErr ErrUploadMissing => MediaErr ErrUnavailable
          | MediaErr e => MediaErr e
          end
        end
      | MediaErr e => mret (MediaErr e)
      end
    end
  end.

Definition Delete (objectKey : string) : Cloud (option MediaError) :=
  match validateOCIObjectKey objectKey with
  | Some message => mret (Some (MediaFailure message))
  | None =>
    err ← request (DeleteRequest objectKey) (λ b, DeleteObject b objectKey);
    mret (if failed err then Some (MediaFailure "delete OCI media object") else None)
  end.

(** The capabilities of a page that the clean-up may remove. *)
Definition expiredPAR (now : Z) (item : PARSummary) : option string :=
  match Summary_Id item, Summary_Name item, Summary_TimeExpires item with
  | Some id, Some name, Some expires =>
    if negb (HasPrefix name ociPARNamePrefix) || After expires now then None else Some id
  | _, _, _ => None
  end.

Fixpoint listExpired (pages : nat) (now : Z) (page : option string) : Cloud (list string + MediaError) :=
  match pages with
  | O => mret (inl [])
  | S pages =>
    answer ← inspect (ListRequest None page) (λ b, ListPreauthenticatedRequests b None page);
    match answer with
    | inr _ => mret (inr (MediaFailure "list OCI media pre-authenticated requests"))
    | inl (items, next) =>
      let parIDs := omap (expiredPAR now) items in
      if bool_decide (default "" next = "") then mret (inl parIDs) else
      rest ← listExpired pages now next;
      mret match rest with inl more => inl (parIDs ++ more) | inr e => inr e end
    end
  end.

(** The number of errors that are joined. *)
Fixpoint revokeAll (parIDs : list string) : Cloud nat :=
  match parIDs with
  | [] => mret 0
  | parID :: parIDs =>
    err ← revoke parID;
    cleanupErrors ← revokeAll parIDs;
    mret (if failed err then S cleanupErrors else cleanupErrors)
  end.

Definition cleanupExpiredPARs (now : Z) : Cloud (option MediaError) :=
  listed ← listExpired ociPARCleanupMaxPages now None;
  match listed with
  | inr e => mret (Some e)
  | inl parIDs =>
    cleanupErrors ← revokeAll parIDs;
    mret (if bool_decide (cleanupErrors = 0) then None
          else Some (MediaFailure "delete expired OCI media pre-authenticated request"))
  end.
End client.
End oci.

(** ** The S3 client *)

(** What [StatObject] answers; the errors are the codes of [minio.ToErrorResponse]. *)
Record S3ObjectInfo := mkS3ObjectInfo { S3Info_Size : Z; S3Info_ContentType : string }.

(** The bytes an opened object delivers, and whether reading fails after them, with a code. *)
Record S3Reader := mkS3Reader { S3Reader_bytes : string; S3Reader_fails : option string }.

Definition verificationStorageError (code : string) : MediaError :=
  if bool_decide (code ∈ ["NoSuchKey"; "NoSuchObject"; "NotFound"; "XMinioInvalidObjectName"])
  then ErrUploadMissing else ErrUnavailable.

(** [io.Copy(hash, io.LimitReader(object, limit))]: the bytes that go into the hash. *)
Definition copyLimited (object : S3Reader) (limit : Z) : string + string :=
  let bytes := bytes_of (S3Reader_bytes object) in
  let read := of_bytes (take (Z.to_nat limit) bytes) in
  match S3Reader_fails object with
  | Some code => if (Z.of_nat (length bytes) <? limit)%Z then inr code else inl read
  | None => inl read
  end.

Section s3.
Context `{GoRuntime, MediaText} (sha256 : string → string).
Context (StatObject : string → S3ObjectInfo + string) (GetObject : string → S3Reader + string).
Context (PresignHeader : string → Z → list (string * string) → option string).
Context (PresignedGetObject : string → Z → option string) (RemoveObject : string → bool).

Definition RequiredUploadHeaders (contentType : string) (byteSize : Z) (expectedSHA256 : string)
    : option (list (string * string)) :=
  match decodeSHA256 expectedSHA256 with
  | None => None
  | Some digest =>
    if bool_decide (TrimSpace contentType = "") || (byteSize <? 1)%Z then None
    else Some [("Content-Type", contentType); ("Content-Length", pretty byteSize);
               ("X-Amz-Checksum-Sha256", EncodeToString StdEncoding digest)]
  end.

Definition S3_PrepareUpload (objectKey contentType : string) (byteSize : Z) (expectedSHA256 : string)
    (expiry : Z) : media_res UploadInstructions :=
  match RequiredUploadHeaders contentType byteSize expectedSHA256 with
  | None => MediaErr (MediaFailure "invalid media upload declaration")
  | Some headers =>
    match PresignHeader objectKey expiry headers with
    | None => MediaErr (MediaFailure "presign")
    | Some uploadURL => MediaOk (instructions uploadURL headers "")
    end
  end.

Definition S3_DownloadURL (objectKey : string) (expiry : Z) : media_res string :=
  match PresignedGetObject objectKey expiry with
  | None => MediaErr (MediaFailure "presign") | Some url => MediaOk url end.

Definition S3_Verify (objectKey : string) (expectedSize : Z) (expectedSHA256 expectedContentType : string)
    : media_res unit :=
  match StatObject objectKey with
  | inr code => MediaErr (verificationStorageError code)
  | inl info =>
    if negb (S3Info_Size info =? expectedSize)%Z then MediaErr ErrVerificationMismatch else
    if match ParseMediaType (S3Info_ContentType info) with
       | Some t => negb (EqualFold t expectedContentType) | None => true end
    then MediaErr ErrVerificationMismatch else
    match GetObject objectKey with
    | inr code => MediaErr (verificationStorageError code)
    | inl object =>
      match copyLimited object (int64_wrap (expectedSize + 1)) with
      | inr code => MediaErr (verificationStorageError code)
      | inl read =>
        if negb (strlen read =? expectedSize)%Z then MediaErr ErrVerificationMismatch else
        if negb (bool_decide (hex_EncodeToString (sha256 read) = expectedSHA256))
        then MediaErr ErrVerificationMismatch else MediaOk tt
      end
    end
  end.

Definition S3_FinalizeUpload (objectKey : string) (expectedSize : Z)
    (expectedSHA256 expectedContentType : string) : media_res string :=
  match S3_Verify objectKey expectedSize expectedSHA256 expectedContentType with
  | MediaErr e => MediaErr e
  | MediaOk _ => MediaOk objectKey
  end.

Definition S3_Delete (objectKey : string) : bool := RemoveObject objectKey.
End s3.
