(* ===== verification/ObjectStorageFacts.v ===== *)
(** * Facts about the object storage

    What the names under [published/] are worth: the backend never lets anybody write them, so an
    object that [FinalizeUpload] has published and found to be what was declared stays as it is
    until it is deleted, whatever clients, other replicas and the clock do.  And what the clean-up
    of capabilities and the S3 client promise. *)

From Stdlib Require Import ZArith Lia Ascii.
From stdpp Require Import relations.
From S2P Require Import Prelude.
From S2P Require Import Runtime.
From S2P Require Import GoText.
From S2P Require Import Domain.
From S2P Require Import MediaKey.
From S2P Require Import HttpMedia.
From S2P Require Import Config.
From S2P Require Import ObjectStorage.

#[local] Existing Instances Cloud_ret Cloud_bind.

Definition published_name (name : string) : Prop := HasPrefix name PublishedPrefix = true.

Section facts.
Context `{GoRuntime, MediaText, ObjectServer}.
Implicit Types (b : Bucket) (l : list OCIRequest).

(** ** What happens to a bucket

    The steps of everybody who reaches the bucket, apart from deletions of the object [key]: an
    upload under a capability changes one object and gives nobody a capability; capabilities
    expire and uploads end; and the backend makes its requests — capabilities to write are for
    names that are not published ones, and published objects are not moved. *)
Inductive bucketStep (key : string) : Bucket → Bucket → Prop :=
  | StepUpload name b b' :
      mayWrite b name → (∀ n, n ≠ name → objectAt b' n = objectAt b n) →
      (∀ n, mayWrite b' n → mayWrite b n) → bucketStep key b b'
  | StepExpire b b' :
      (∀ n, objectAt b' n = objectAt b n) → (∀ n, mayWrite b' n → mayWrite b n) → bucketStep key b b'
  | StepGrant b d :
      (Details_AccessType d = ObjectWrite → ¬ published_name (Details_ObjectName d)) →
      bucketStep key b (CreatePreauthenticatedRequest b d).1
  | StepRename b source new tag :
      ¬ published_name source → bucketStep key b (RenameObject b source new tag "*").1
  | StepRevoke b id : bucketStep key b (DeletePreauthenticatedRequest b id).1
  | StepDelete b name : name ≠ key → bucketStep key b (DeleteObject b name).1.

(** Nobody can write [key], and [o] is there. *)
Definition holdsObject (key : string) (o : option Object) b : Prop :=
  ¬ mayWrite b key ∧ (is_Some o → objectAt b key = o).

Section steps.
Context (key : string) (Hkey : published_name key).

Lemma step_holds o b b' : bucketStep key b b' → holdsObject key o b → holdsObject key o b'.
Proof using Hkey.
  intros Hs [Hw Ho]. destruct Hs as [name b b' Hm Ho' Hw'|b b' Ho' Hw'|b d Hd|b source new tag Hp|b id|b name Hn].
  - split; [by intros ?%Hw'|]. intros Hsome. rewrite Ho'; [by apply Ho|]. by intros <-.
  - split; [by intros ?%Hw'|]. intros Hsome. rewrite Ho'. by apply Ho.
  - destruct (CreatePreauthenticatedRequest_law b d) as [Ho' Hw']. split.
    + intros [?|[Hn Ha]]%Hw'; [done|]. apply Hd in Ha. by rewrite <- Hn in Ha.
    + intros Hsome. rewrite Ho'. by apply Ho.
  - destruct (RenameObject_law b source new tag) as [Hw' Ho']. split; [by intros ?%Hw'|].
    intros Hsome. specialize (Ho Hsome). destruct Ho' as [Ho'|(x & y & Hx & _ & Hnew & _ & Ho')]; [by rewrite Ho'|].
    rewrite Ho'. destruct (decide (key = new)) as [->|_].
    { rewrite Ho in Hnew. rewrite Hnew in Hsome. by destruct Hsome. }
    by destruct (decide (key = source)) as [->|_].
  - destruct (DeletePreauthenticatedRequest_law b id) as [Ho' Hw']. split; [by intros ?%Hw'|].
    intros Hsome. rewrite Ho'. by apply Ho.
  - destruct (DeleteObject_law b name) as [Ho' Hw']. split; [by intros ?%Hw'|].
    intros Hsome. rewrite Ho' by done. by apply Ho.
Qed.

Lemma steps_hold o b b' : rtc (bucketStep key) b b' → holdsObject key o b → holdsObject key o b'.
Proof using Hkey. induction 1; eauto using step_holds. Qed.

(** Whatever is at [key] while nobody may write it stays there. *)
Lemma object_stays b b' o :
  rtc (bucketStep key) b b' → ¬ mayWrite b key → objectAt b key = Some o → objectAt b' key = Some o.
Proof using Hkey. intros Hs Hw Ho. by apply (steps_hold (Some o) b b' Hs). Qed.
End steps.

(** ** Operations are sequences of such steps *)
Section operations.
Context (others : nat → Bucket → Bucket) (time : nat → Z) (NewString : nat → string) (s : OCIObjectStorage).
Context (key : string).

Definition respects {A} (m : Cloud A) : Prop :=
  ∀ b l b' l' x, m b l = (b', l', x) → rtc (bucketStep key) b b'.

Lemma respects_ret {A} (x : A) : respects (mret x).
Proof. intros b l b' l' y [= <- _ _]. constructor. Qed.

Lemma respects_bind {A B} (m : Cloud A) (f : A → Cloud B) :
  respects m → (∀ x, respects (f x)) → respects (m ≫= f).
Proof.
  intros Hm Hf b l b' l' y. unfold mbind, Cloud_bind. destruct (m b l) as [[b1 l1] x] eqn:Hx.
  intros Hy. etrans; [by eapply Hm|]. by eapply Hf.
Qed.

Context (Hothers : ∀ n b, rtc (bucketStep key) b (others n b)).

Lemma respects_request {A} r (f : Bucket → Bucket * A) :
  (∀ b, rtc (bucketStep key) b (f b).1) → respects (request others r f).
Proof using Hothers.
  intros Hf b l b' l' x. unfold request. destruct (f (others (length l) b)) as [b1 y] eqn:Hy.
  intros [= <- _ _]. etrans; [apply Hothers|]. pose proof (Hf (others (length l) b)) as Hs. by rewrite Hy in Hs.
Qed.

Lemma respects_inspect {A} r (f : Bucket → A) : respects (inspect others r f).
Proof using Hothers. apply respects_request. intros b. constructor. Qed.

Lemma respects_clock : respects (clock time).
Proof. intros b l b' l' x [= <- _ _]. constructor. Qed.

Lemma respects_newString : respects (newString NewString).
Proof. intros b l b' l' x [= <- _ _]. constructor. Qed.

Lemma respects_revoke id : respects (revoke others id).
Proof using Hothers. apply respects_request. intros b. apply rtc_once, StepRevoke. Qed.
End operations.
End facts.

(** Takes an operation apart into its requests. *)
Ltac respectful :=
  repeat (intros; lazymatch goal with
    | |- respects _ (mret _) => apply respects_ret
    | |- respects _ (mbind _ _) => apply respects_bind
    | |- respects _ (inspect _ _ _) => apply respects_inspect; assumption
    | |- respects _ (revoke _ _) => apply respects_revoke; assumption
    | |- respects _ (clock _) => apply respects_clock
    | |- respects _ (newString _) => apply respects_newString
    | |- respects _ (match ?x with _ => _ end) => destruct x
    | |- respects _ _ => solve [auto]
    end).

Section operations.
Context `{GoRuntime, MediaText, ObjectServer}.
Context (others : nat → Bucket → Bucket) (time : nat → Z) (NewString : nat → string) (s : OCIObjectStorage).
Context (key : string) (Hothers : ∀ n b, rtc (bucketStep key) b (others n b)).
Implicit Types (b : Bucket) (l : list OCIRequest).

Lemma respects_createPAR objectKey expiry accessType :
  (accessType = ObjectWrite → ¬ published_name objectKey) →
  respects key (createPAR others time NewString s objectKey expiry accessType).
Proof using Hothers.
  intros Hw. unfold createPAR. respectful. apply respects_request; [done|]. intros b.
  apply rtc_once, StepGrant. exact Hw.
Qed.

Lemma respects_headVerified name size sha contentType :
  respects key (headVerified others name size sha contentType).
Proof using Hothers. unfold headVerified. respectful. Qed.

Lemma respects_revokeWritePARs objectKey items : respects key (revokeWritePARs others objectKey items).
Proof using Hothers. induction items; simpl; respectful. Qed.

Lemma respects_revokeDiscovered pages objectKey page :
  respects key (revokeDiscovered others pages objectKey page).
Proof using Hothers.
  revert page. induction pages as [|pages IH]; intros page; simpl; [apply respects_ret|].
  apply respects_bind; [by apply respects_inspect|]. intros [[items next]|]; [|apply respects_ret].
  apply respects_bind; [apply respects_revokeWritePARs|]. intros [e|]; respectful.
Qed.

Lemma respects_revokeObjectWritePARs objectKey token :
  respects key (revokeObjectWritePARs others objectKey token).
Proof using Hothers.
  unfold revokeObjectWritePARs, revokeDiscoveredObjectWritePARs.
  pose proof (respects_revokeDiscovered ociPARCleanupMaxPages objectKey None). respectful.
Qed.

Lemma Published_source objectKey publishedKey :
  Published objectKey = Ok publishedKey → publishedKey ≠ objectKey →
  published_name publishedKey ∧ ¬ published_name objectKey.
Proof.
  unfold Published, published_name. intros Hp Hne. destruct (MediaKey.Validate objectKey); [done|].
  destruct (HasPrefix objectKey PublishedPrefix) eqn:Hpre; [by injection Hp as <-|].
  destruct (_ <? _)%Z; [done|]. injection Hp as <-. split; [apply HasPrefix_app|done].
Qed.

Lemma respects_rename objectKey publishedKey tag :
  ¬ published_name objectKey →
  respects key (request others (RenameRequest objectKey publishedKey tag)
                  (λ b, RenameObject b objectKey publishedKey tag "*")).
Proof using Hothers. intros Hp. apply respects_request; [done|]. intros b. by apply rtc_once, StepRename. Qed.

Lemma respects_FinalizeUpload objectKey token size sha contentType :
  respects key (FinalizeUpload others objectKey token size sha contentType).
Proof using Hothers.
  unfold FinalizeUpload. destruct (Published objectKey) as [publishedKey|e] eqn:Hp; [|apply respects_ret].
  case_bool_decide as Hne; [apply respects_ret|].
  destruct (Published_source _ _ Hp Hne) as [_ Hsource].
  pose proof (λ name, respects_headVerified name size sha contentType).
  pose proof (respects_revokeObjectWritePARs objectKey token).
  pose proof (λ tag, respects_rename objectKey publishedKey tag Hsource). respectful.
Qed.

Lemma respects_revokeAll parIDs : respects key (revokeAll others parIDs).
Proof using Hothers. induction parIDs; simpl; respectful. Qed.

Lemma respects_listExpired pages now page : respects key (listExpired others pages now page).
Proof using Hothers.
  revert page. induction pages as [|pages IH]; intros page; simpl; [apply respects_ret|].
  apply respects_bind; [by apply respects_inspect|]. intros [[items next]|]; [|apply respects_ret]. respectful.
Qed.

Lemma respects_cleanup now : respects key (cleanupExpiredPARs others now).
Proof using Hothers.
  unfold cleanupExpiredPARs. apply respects_bind; [apply respects_listExpired|].
  intros [parIDs|]; [|apply respects_ret]. apply respects_bind; [apply respects_revokeAll|]. respectful.
Qed.
End operations.

(** ** What a verified object is *)
Section verified.
Context `{GoRuntime, MediaText, ObjectServer}.
Implicit Types (b : Bucket) (l : list OCIRequest).

(** The size, the hash and the media type of a declaration. *)
Definition as_declared (size : Z) (sha contentType : string) (o : Object) : Prop :=
  (0 < size)%Z ∧ Object_Length o = size ∧
  (∃ digest, decodeSHA256 sha = Some digest ∧ DecodeString StdEncoding (Object_Sha256 o) = Some digest) ∧
  (∃ expected actual, ParseMediaType contentType = Some expected ∧
     ParseMediaType (Object_Type o) = Some actual ∧ EqualFold actual expected = true).

Lemma checkHead_describes response size digest expectedType o :
  checkHead response size digest expectedType = true → describes response o →
  Object_Length o = size ∧ DecodeString StdEncoding (Object_Sha256 o) = Some digest ∧
  ∃ actual, ParseMediaType (Object_Type o) = Some actual ∧ EqualFold actual expectedType = true.
Proof.
  unfold checkHead. intros Hc (Hn & Ht & Hh & _).
  destruct (Head_ContentLength response) as [n|]; [|done]. rewrite <- (Hn _ eq_refl).
  apply andb_true_iff in Hc as [Hsize Hc].
  destruct (Head_ContentType response) as [t|]; [|done]. rewrite <- (Ht _ eq_refl).
  destruct (ParseMediaType t) as [actual|]; [|done]. apply andb_true_iff in Hc as [Hfold Hc].
  destruct (Head_OpcContentSha256 response) as [h|]; [|done]. rewrite <- (Hh _ eq_refl).
  apply andb_true_iff in Hc as [_ Hc]. destruct (DecodeString StdEncoding h) as [d|] eqn:Hd; [|done].
  apply andb_true_iff in Hc as [_ Hdig]. bool_prop. subst. split; [lia|]. split; [done|]. by exists actual.
Qed.

Context (others : nat → Bucket → Bucket).

Lemma headVerified_ok name size sha contentType b l b' l' response :
  headVerified others name size sha contentType b l = (b', l', MediaOk response) →
  ∃ o, objectAt b' name = Some o ∧ as_declared size sha contentType o.
Proof.
  unfold headVerified, inspect, request, mbind, Cloud_bind, mret, Cloud_ret.
  destruct (validateOCIObjectKey name); [done|]. destruct (size <? 1)%Z eqn:Hs; [done|].
  destruct (decodeSHA256 sha) as [digest|] eqn:Hd; [|done].
  destruct (bool_decide (TrimSpace _ = "")) eqn:Ht; [done|]. intros [= <- <- Hr].
  destruct (HeadObject (others (length l) b) name) as [r|e] eqn:Hh; [|done].
  destruct (HeadObject_law _ _ _ Hh) as (o & Ho & Hdesc).
  destruct (checkHead r size digest _) eqn:Hc; [|done].
  destruct (checkHead_describes _ _ _ _ _ Hc Hdesc) as (Hlen & Hsha & actual & Hact & Hfold).
  exists o. split; [done|]. bool_prop. split_and!; [lia|done|by exists digest|].
  destruct (ParseMediaType contentType) as [expected|]; [by exists expected, actual|].
  cbn in Ht. by rewrite TrimSpace_empty in Ht.
Qed.

Lemma FinalizeUpload_ok objectKey token size sha contentType b l b' l' key :
  FinalizeUpload others objectKey token size sha contentType b l = (b', l', MediaOk key) →
  Published objectKey = Ok key ∧ key ≠ objectKey ∧
  ∃ o, objectAt b' key = Some o ∧ as_declared size sha contentType o.
Proof.
  unfold FinalizeUpload. destruct (Published objectKey) as [publishedKey|e]; [|done].
  case_bool_decide as Hne; [done|]. unfold mbind, Cloud_bind, mret, Cloud_ret.
  destruct (revokeObjectWritePARs others objectKey token b l) as [[b1 l1] [e|]]; [done|].
  destruct (headVerified others publishedKey size sha contentType b1 l1) as [[b2 l2] [r|[]]] eqn:Hp; try done.
  { intros [= <- <- <-]. split; [done|]. split; [done|]. by eapply headVerified_ok. }
  destruct (headVerified others objectKey size sha contentType b2 l2) as [[b3 l3] [staged|e]]; [|done].
  destruct (bool_decide _); [done|].
  destruct (request others _ _ b3 l3) as [[b4 l4] renameErr].
  destruct (headVerified others publishedKey size sha contentType b4 l4) as [[b5 l5] [r|[]]] eqn:Hq; try done.
  intros [= <- <- <-]. split; [done|]. split; [done|]. by eapply headVerified_ok.
Qed.
End verified.

(** ** The backend as a whole *)
Section backend.
Context `{GoRuntime, MediaText, ObjectServer}.
Implicit Types (b : Bucket) (l : list OCIRequest).

(** A call of the service, with its arguments. *)
Inductive MediaOperation :=
  | DoPrepareUpload (objectKey contentType : string) (byteSize : Z) (sha : string) (expiry : Z)
  | DoDownloadURL (objectKey : string) (expiry : Z)
  | DoFinalizeUpload (objectKey token : string) (size : Z) (sha contentType : string)
  | DoVerify (objectKey : string) (size : Z) (sha contentType : string)
  | DoDelete (objectKey : string)
  | DoCleanup (now : Z).

Section run.
Context (others : nat → Bucket → Bucket) (time : nat → Z) (NewString : nat → string) (s : OCIObjectStorage).

Definition ignore {A} (m : Cloud A) : Cloud unit := _ ← m; mret tt.

Definition perform (op : MediaOperation) : Cloud unit :=
  match op with
  | DoPrepareUpload k t n h e => ignore (PrepareUpload others time NewString s k t n h e)
  | DoDownloadURL k e => ignore (DownloadURL others time NewString s k e)
  | DoFinalizeUpload k r n h t => ignore (FinalizeUpload others k r n h t)
  | DoVerify k n h t => ignore (Verify others k n h t)
  | DoDelete k => ignore (Delete others k)
  | DoCleanup now => ignore (cleanupExpiredPARs others now)
  end.

Fixpoint performAll (ops : list MediaOperation) : Cloud unit :=
  match ops with [] => mret tt | op :: ops => _ ← perform op; performAll ops end.
End run.

(** Operations the server makes while it keeps [key]: uploads go to staging names — [HttpMedia]
    begins them with [conversations/] and [users/] —, and others are deleted. *)
Definition keeps (key : string) (op : MediaOperation) : Prop :=
  match op with
  | DoPrepareUpload k _ _ _ _ => ¬ published_name k
  | DoDelete k => k ≠ key
  | _ => True
  end.

Lemma respects_perform others time NewString s key op :
  (∀ n b, rtc (bucketStep key) b (others n b)) → keeps key op →
  respects key (perform others time NewString s op).
Proof.
  intros Ho Hk. destruct op; simpl in *; unfold ignore.
  all: apply respects_bind; [|intros; apply respects_ret].
  - unfold PrepareUpload. pose proof (respects_createPAR others time NewString s key Ho objectKey expiry ObjectWrite (λ _, Hk)).
    respectful.
  - unfold DownloadURL. apply respects_bind; [by apply respects_createPAR|]. respectful.
  - by apply respects_FinalizeUpload.
  - unfold Verify. apply respects_bind; [by apply respects_headVerified|]. respectful.
  - unfold Delete. destruct (validateOCIObjectKey objectKey); [apply respects_ret|].
    apply respects_bind; [|respectful]. apply respects_request; [done|]. intros b. by apply rtc_once, StepDelete.
  - by apply respects_cleanup.
Qed.

Lemma respects_performAll others time NewString s key ops :
  (∀ n b, rtc (bucketStep key) b (others n b)) → Forall (keeps key) ops →
  respects key (performAll others time NewString s ops).
Proof.
  intros Ho. induction 1 as [|op ops Hk Hall IH]; simpl; [apply respects_ret|].
  apply respects_bind; [by apply respects_perform|done].
Qed.

(** C16. Publication is final.  The names under [published/] start closed to outsiders.  Whatever
    the backend then does — preparing uploads to staging names, completing uploads, clean-ups,
    deletions of other objects, in any order —, interleaved at every request with uploads under
    any live capability, expiries and the requests of other replicas: if completing an upload
    answers with a name, it is the published name of its staging key, an object of the declared
    size, hash and type is there, and after any further such operations that same object still
    is — replayed and late uploads, second completions and renames included. *)
Theorem publication_is_final others time NewString s ops key objectKey token size sha contentType
    b0 l0 b1 l1 u b2 l2 :
  (∀ n b, rtc (bucketStep key) b (others n b)) → ¬ mayWrite b0 key →
  Forall (keeps key) ops →
  performAll others time NewString s ops b0 l0 = (b1, l1, u) →
  FinalizeUpload others objectKey token size sha contentType b1 l1 = (b2, l2, MediaOk key) →
  Published objectKey = Ok key ∧ key ≠ objectKey ∧
  ∃ o, objectAt b2 key = Some o ∧ as_declared size sha contentType o ∧
    ∀ others' time' NewString' s' ops' b3 l3 u',
      (∀ n b, rtc (bucketStep key) b (others' n b)) → Forall (keeps key) ops' →
      performAll others' time' NewString' s' ops' b2 l2 = (b3, l3, u') →
      objectAt b3 key = Some o.
Proof.
  intros Ho Hw Hops Hrun Hfin. destruct (FinalizeUpload_ok _ _ _ _ _ _ _ _ _ _ _ Hfin) as (Hp & Hne & o & Hobj & Hdec).
  split; [done|]. split; [done|]. exists o. split; [done|]. split; [done|].
  intros others' time' NewString' s' ops' b3 l3 u' Ho' Hops' Hrun'.
  destruct (Published_source _ _ Hp Hne) as [Hkey _].
  assert (Hsealed : ¬ mayWrite b2 key).
  { apply (steps_hold key Hkey None b0 b2); [|split; [done|by intros [? ?]]].
    etrans; [exact (respects_performAll _ _ _ _ _ _ Ho Hops _ _ _ _ _ Hrun)|].
    exact (respects_FinalizeUpload _ _ Ho _ _ _ _ _ _ _ _ _ _ Hfin). }
  pose proof (respects_performAll _ _ _ _ _ _ Ho' Hops' _ _ _ _ _ Hrun') as Hs. by eapply object_stays.
Qed.
End backend.

(** ** The clean-up of capabilities *)
Section cleanup.
Context `{GoRuntime, MediaText, ObjectServer}.
Context (others : nat → Bucket → Bucket) (key : string) (Hothers : ∀ n b, rtc (bucketStep key) b (others n b)).
Implicit Types (b : Bucket) (l : list OCIRequest).

(** The capability [id] was listed in a state reached from [b] as one of the backend's that had
    expired. *)
Definition listed_expired b (now : Z) (id : string) : Prop :=
  ∃ b1 page items next item, rtc (bucketStep key) b b1 ∧
    ListPreauthenticatedRequests b1 None page = inl (items, next) ∧ item ∈ items ∧
    Summary_Id item = Some id ∧
    (∃ name, Summary_Name item = Some name ∧ HasPrefix name ociPARNamePrefix = true) ∧
    (∃ expires, Summary_TimeExpires item = Some expires ∧ (expires ≤ now)%Z).

Lemma listed_earlier b b' now id : rtc (bucketStep key) b b' → listed_expired b' now id → listed_expired b now id.
Proof using. intros Hs (b1 & ? & ? & ? & ? & Hb1 & ?). exists b1. do 4 eexists. split; [by etrans|done]. Qed.

Lemma expiredPAR_spec now item id :
  expiredPAR now item = Some id →
  Summary_Id item = Some id ∧
  (∃ name, Summary_Name item = Some name ∧ HasPrefix name ociPARNamePrefix = true) ∧
  (∃ expires, Summary_TimeExpires item = Some expires ∧ (expires ≤ now)%Z).
Proof using.
  unfold expiredPAR. destruct (Summary_Id item) as [i|], (Summary_Name item) as [name|],
    (Summary_TimeExpires item) as [expires|]; try done.
  destruct (negb _ || _) eqn:Hb; [done|]. intros [= ->]. apply orb_false_iff in Hb as [Hp Ha].
  apply negb_false_iff in Hp. apply After_false in Ha. eauto 10.
Qed.

Definition isListing (r : OCIRequest) : Prop := ∃ page, r = ListRequest None page.

Lemma listExpired_spec pages now page b l b' l' r :
  listExpired others pages now page b l = (b', l', r) →
  rtc (bucketStep key) b b' ∧
  ∃ listing, l' = l ++ listing ∧ length listing ≤ pages ∧ Forall isListing listing ∧
    ∀ ids, r = inl ids → Forall (listed_expired b now) ids.
Proof using Hothers.
  revert page b l b' l' r. induction pages as [|pages IH]; intros page b l b' l' r; simpl.
  { intros [= <- <- <-]. split; [constructor|]. exists []. rewrite app_nil_r.
    split_and!; [done|simpl; lia|constructor|]. intros ids [= <-]. constructor. }
  unfold inspect, request, mbind, Cloud_bind, mret, Cloud_ret.
  pose proof (Hothers (length l) b) as Hs. set (b1 := others (length l) b) in *.
  destruct (ListPreauthenticatedRequests b1 None page) as [[items next]|e] eqn:Hl.
  2: { intros [= <- <- <-]. split; [done|]. exists [ListRequest None page].
       split_and!; [done|simpl; lia|by repeat econstructor|done]. }
  assert (Hitems : Forall (listed_expired b now) (omap (expiredPAR now) items)).
  { apply Forall_forall. intros id (item & Hin & Hx%expiredPAR_spec)%list_elem_of_omap.
    exists b1, page, items, next, item. done. }
  case_bool_decide.
  { intros [= <- <- <-]. split; [done|]. exists [ListRequest None page].
    split_and!; [done|simpl; lia|by repeat econstructor|]. by intros ids [= <-]. }
  destruct (listExpired others pages now next b1 _) as [[b2 l2] rest] eqn:Hrest.
  intros [= <- <- <-]. destruct (IH _ _ _ _ _ _ Hrest) as (Hs2 & listing & -> & Hlen & Hall & Hids).
  split; [by etrans|]. exists (ListRequest None page :: listing). rewrite <- app_assoc.
  split_and!; [done|simpl; lia|constructor; [by eexists|done]|].
  intros ids. destruct rest as [more|e]; [|done]. intros [= <-]. apply Forall_app. split; [done|].
  eapply Forall_impl; [by apply Hids|]. intros id. by apply listed_earlier.
Qed.

Lemma revokeAll_requests parIDs b l b' l' n :
  revokeAll others parIDs b l = (b', l', n) → l' = l ++ map RevokeRequest parIDs.
Proof using.
  revert b l b' l' n. induction parIDs as [|parID parIDs IH]; intros b l b' l' n; simpl.
  { intros [= _ <- _]. by rewrite app_nil_r. }
  unfold revoke, request, mbind, Cloud_bind, mret, Cloud_ret. destruct (DeletePreauthenticatedRequest _ _) as [b1 err].
  destruct (revokeAll others parIDs b1 _) as [[b2 l2] errors] eqn:Hr. intros [= _ <- _].
  rewrite (IH _ _ _ _ _ Hr), <- app_assoc. done.
Qed.

(** The clean-up spares the living.  Whatever the service lists, a clean-up ends: it makes at
    most ten listing requests, and after them it revokes only capabilities that were listed, in
    a state in between, under a name the backend gives them and with an expiry that is not after
    the time of the clean-up. *)
Theorem cleanup_spares_living now b l b' l' r :
  cleanupExpiredPARs others now b l = (b', l', r) →
  ∃ listing ids, l' = l ++ listing ++ map RevokeRequest ids ∧
    length listing ≤ 10 ∧ Forall isListing listing ∧ Forall (listed_expired b now) ids.
Proof using Hothers.
  unfold cleanupExpiredPARs, mbind, Cloud_bind, mret, Cloud_ret.
  destruct (listExpired others _ now None b l) as [[b1 l1] listed] eqn:Hl.
  destruct (listExpired_spec _ _ _ _ _ _ _ _ Hl) as (_ & listing & -> & Hlen & Hall & Hids).
  destruct listed as [parIDs|e].
  - destruct (revokeAll others parIDs b1 _) as [[b2 l2] n] eqn:Hr. intros [= _ <- _].
    apply revokeAll_requests in Hr as ->. exists listing, parIDs. rewrite <- app_assoc. by auto.
  - intros [= _ <- _]. exists listing, []. rewrite app_nil_r. by auto.
Qed.
End cleanup.

(** ** The S3 client *)
Section s3.
Context `{GoRuntime, MediaText} (sha256 : string → string).
Context (StatObject : string → S3ObjectInfo + string) (GetObject : string → S3Reader + string).

Lemma strlen_of_bytes bytes : strlen (of_bytes bytes) = Z.of_nat (length bytes).
Proof using. unfold strlen. f_equal. induction bytes; simpl; congruence. Qed.

(** One byte more than expected is asked for, so what has the expected length is everything. *)
Lemma copyLimited_exact object size read :
  (- 2 ^ 63 ≤ size < 2 ^ 63)%Z → copyLimited object (int64_wrap (size + 1)) = inl read →
  strlen read = size → S3Reader_fails object = None ∧ read = S3Reader_bytes object.
Proof using.
  unfold copyLimited. intros Hrange Hc Hlen.
  set (bytes := bytes_of (S3Reader_bytes object)) in *. set (limit := int64_wrap (size + 1)) in *.
  assert (Hread : read = of_bytes (take (Z.to_nat limit) bytes)).
  { destruct (S3Reader_fails object); [destruct (_ <? _)%Z; [done|]|]; by injection Hc as <-. }
  assert (Hn : size = Z.of_nat (Z.to_nat limit `min` length bytes)).
  { rewrite <- Hlen, Hread, strlen_of_bytes, length_take. lia. }
  assert (Hlimit : limit = (size + 1)%Z).
  { destruct (decide (size + 1 < 2 ^ 63)%Z) as [?|?]; [apply int64_wrap_small; lia|].
    assert (size = 2 ^ 63 - 1)%Z as -> by lia. exfalso. change limit with (- 2 ^ 63)%Z in Hn. lia. }
  assert (Hall : length bytes ≤ Z.to_nat limit) by lia. split.
  - destruct (S3Reader_fails object); [|done]. destruct (Z.ltb_spec (Z.of_nat (length bytes)) limit); [done|lia].
  - rewrite Hread, take_ge by done. apply String.string_of_list_ascii_of_string.
Qed.

(** What S3 serves is what was declared.  Completing an upload answers with the name it was
    asked about, and only after the whole object was read from under that name without an error:
    of exactly the declared length, with the declared SHA-256, and of the declared media type. *)
Theorem s3_upload_verified objectKey size sha contentType key :
  (- 2 ^ 63 ≤ size < 2 ^ 63)%Z →
  S3_FinalizeUpload sha256 StatObject GetObject objectKey size sha contentType = MediaOk key →
  key = objectKey ∧
  (∃ info actual, StatObject key = inl info ∧ S3Info_Size info = size ∧
     ParseMediaType (S3Info_ContentType info) = Some actual ∧ EqualFold actual contentType = true) ∧
  ∃ object, GetObject key = inl object ∧ S3Reader_fails object = None ∧
    strlen (S3Reader_bytes object) = size ∧ hex_EncodeToString (sha256 (S3Reader_bytes object)) = sha.
Proof using.
  intros Hrange. unfold S3_FinalizeUpload, S3_Verify.
  destruct (StatObject objectKey) as [info|] eqn:Hstat; [|done].
  destruct (S3Info_Size info =? size)%Z eqn:Hsize; [|done].
  destruct (ParseMediaType (S3Info_ContentType info)) as [actual|] eqn:Ht; [|done].
  destruct (EqualFold actual contentType) eqn:Hfold; [|done].
  destruct (GetObject objectKey) as [object|] eqn:Hget; [|done]. cbn [negb].
  destruct (copyLimited object _) as [read|] eqn:Hc; [|done].
  destruct (strlen read =? size)%Z eqn:Hlen; [|done].
  destruct (bool_decide (hex_EncodeToString _ = sha)) eqn:Hsha; [|done]. intros [= <-]. bool_prop.
  destruct (copyLimited_exact _ _ _ Hrange Hc Hlen) as [Hf ->].
  split; [done|]. split; [by exists info, actual|]. by exists object.
Qed.
End s3.

(** ** A concrete bucket *)
Module ReferenceStorage.

Record Stored := mkStored { Stored_objects : gmap string Object; Stored_pars : gmap string PARDetails }.

Definition writes (b : Stored) (name : string) : Prop :=
  ∃ id d, Stored_pars b !! id = Some d ∧ Details_ObjectName d = name ∧ Details_AccessType d = ObjectWrite.

Definition head (b : Stored) (name : string) : HeadObjectResponse + OCIError :=
  match Stored_objects b !! name with
  | Some o => inl (mkHeadObjectResponse (Some (Object_Length o)) (Some (Object_Type o))
                     (Some (Object_Sha256 o)) (Some (Object_ETag o)))
  | None => inr (OCIServiceError 404)
  end.

Definition rename (b : Stored) (source new tag ifNoneMatch : string) : Stored * option OCIError :=
  match Stored_objects b !! source, Stored_objects b !! new with
  | Some o, None =>
    if bool_decide (Object_ETag o = tag)
    then (mkStored (<[new := o]> (delete source (Stored_objects b))) (Stored_pars b), None)
    else (b, Some (OCIServiceError 412))
  | None, _ => (b, Some (OCIServiceError 404))
  | _, Some _ => (b, Some (OCIServiceError 412))
  end.

Definition grant (b : Stored) (d : PARDetails) : Stored * (PARResponse + OCIError) :=
  (mkStored (Stored_objects b) (<[Details_Name d := d]> (Stored_pars b)),
   inl (mkPARResponse (Some (Details_Name d)) (Some ("/p/" +:+ Details_Name d)))).

Definition summary (p : string * PARDetails) : PARSummary :=
  mkPARSummary (Some p.1) (Some (Details_Name p.2)) (Some (Details_ObjectName p.2))
    (Details_AccessType p.2) (Some (Details_TimeExpires p.2)).

Definition server : ObjectServer.
Proof.
  refine {| Bucket := Stored; objectAt := λ b name, Stored_objects b !! name; mayWrite := writes;
    HeadBucket := λ _, None; HeadObject := head; RenameObject := rename;
    CreatePreauthenticatedRequest := grant;
    ListPreauthenticatedRequests := λ b _ _, inl (summary <$> map_to_list (Stored_pars b), None);
    DeletePreauthenticatedRequest := λ b id, (mkStored (Stored_objects b) (delete id (Stored_pars b)), None);
    DeleteObject := λ b name, (mkStored (delete name (Stored_objects b)) (Stored_pars b), None) |}.
  - intros b name r. unfold head. destruct (Stored_objects b !! name) as [o|]; [|done].
    intros [= <-]. exists o. split; [done|]. by repeat split; intros ? [= <-].
  - intros b source new tag. unfold rename. destruct (Stored_objects b !! source) as [o|] eqn:Hs; [|by eauto].
    destruct (Stored_objects b !! new) as [o'|] eqn:Hn; [by eauto|]. case_bool_decide as He; [|by eauto].
    split; [done|]. right. exists o, o. split_and!; [done..|]. intros name. simpl.
    repeat case_decide; subst; [apply lookup_insert_eq|by rewrite lookup_insert_ne, lookup_delete_eq|].
    by rewrite lookup_insert_ne, lookup_delete_ne.
  - intros b d. split; [done|]. intros name (id & d' & Hd & Hn & Ha). simpl in Hd.
    apply lookup_insert_Some in Hd as [[_ <-]|[_ Hd]]; [by right|]. left. by exists id, d'.
  - intros b id. split; [done|]. intros name (id' & d & Hd & ?). simpl in Hd. apply lookup_delete_Some in Hd as [_ Hd].
    by exists id', d.
  - intros b name. split; [|done]. intros name' Hne. simpl. by rewrite lookup_delete_ne.
Defined.

(** Media types without parameters, references below the endpoint. *)
Definition text : MediaText := {|
  url_Parts := λ uri, Some (mkURLParts "" "" false "" uri "" "");
  ResolveReference := λ endpoint uri, endpoint +:+ uri;
  ParseMediaType := λ contentType,
    Some (match cut ";"%char contentType with Some (first, _) => first | None => contentType end) |}.
End ReferenceStorage.

Section witnesses.
#[local] Existing Instances Reference.runtime ReferenceStorage.server ReferenceStorage.text.

Definition stagingKey : string := "conversations/c/m".
Definition digestHex : string := "00000000000000000000000000000000000000000000000000000000000000ff".
Definition digestOf (hex : string) : string := EncodeToString StdEncoding (default "" (hex_DecodeString hex)).
Definition upload (tag : string) : Object := mkObject tag 10 "image/png" (digestOf digestHex).
Definition capability : PARDetails := mkPARDetails "clixor-1" ObjectWrite 100 stagingKey.
Definition stagedBucket : Bucket :=
  ReferenceStorage.mkStored {[stagingKey := upload "a"]} {["clixor-1" := capability]}.

(** A client replays its upload between any two requests, as long as it has a capability. *)
Definition replay (b : Bucket) : Bucket :=
  match ReferenceStorage.Stored_pars b !! "clixor-1" with
  | Some d =>
    if bool_decide (Details_ObjectName d = stagingKey ∧ Details_AccessType d = ObjectWrite)
    then ReferenceStorage.mkStored (<[stagingKey := upload "b"]> (ReferenceStorage.Stored_objects b))
           (ReferenceStorage.Stored_pars b)
    else b
  | None => b
  end.

Lemma replay_steps key (b : Bucket) : rtc (bucketStep key) b (replay b).
Proof.
  unfold replay. destruct (ReferenceStorage.Stored_pars b !! "clixor-1") as [d|] eqn:Hd; [|constructor].
  case_bool_decide as Hp; [|constructor]. apply rtc_once, (StepUpload _ stagingKey).
  - by exists "clixor-1", d.
  - intros n Hn. simpl. by rewrite lookup_insert_ne.
  - done.
Qed.

Definition client : OCIObjectStorage := mkOCIObjectStorage "https://objectstorage" "n" "b".
Definition finalized : Bucket * list OCIRequest * media_res string :=
  FinalizeUpload (λ _, replay) stagingKey "" 10 digestHex "image/png" stagedBucket [].

Lemma publication_is_final_witness :
  ∃ o, objectAt finalized.1.1 "published/conversations/c/m" = Some o ∧
    as_declared 10 digestHex "image/png" o.
Proof.
  destruct (publication_is_final (λ _, replay) (λ _, 0%Z) (λ _, "") client [] "published/conversations/c/m"
    stagingKey "" 10 digestHex "image/png" stagedBucket [] stagedBucket [] tt finalized.1.1 finalized.1.2)
    as (_ & _ & o & Ho & Hd & _).
  - intros _ b. apply replay_steps.
  - intros (id & d & Hd & Hn & _). cbn [stagedBucket ReferenceStorage.Stored_pars] in Hd.
    apply lookup_singleton_Some in Hd as [_ <-]. vm_compute in Hn. discriminate.
  - constructor.
  - reflexivity.
  - vm_compute. reflexivity.
  - exists o. split; [exact Ho|exact Hd].
Defined.

Definition oldBucket : Bucket :=
  ReferenceStorage.mkStored ∅ {["clixor-1" := capability;
    "clixor-2" := mkPARDetails "clixor-2" ObjectRead 300 "k"; "x" := mkPARDetails "x" ObjectRead 50 "k"]}.

(** Of three capabilities the one that is the backend's and has expired goes. *)
Lemma cleanup_spares_living_witness :
  (cleanupExpiredPARs (λ _ b, b) 200 oldBucket []).1.2 = [ListRequest None None; RevokeRequest "clixor-1"] ∧
  ∃ listing ids, (cleanupExpiredPARs (λ _ b, b) 200 oldBucket []).1.2 = [] ++ listing ++ map RevokeRequest ids ∧
    length listing ≤ 10 ∧ Forall isListing listing ∧
    Forall (listed_expired "k" oldBucket 200) ids.
Proof.
  split; [vm_compute; reflexivity|].
  apply (cleanup_spares_living (λ _ b, b) "k" (λ _ b, rtc_refl _ b) 200 oldBucket []
    (cleanupExpiredPARs (λ _ b, b) 200 oldBucket []).1.1
    (cleanupExpiredPARs (λ _ b, b) 200 oldBucket []).1.2
    (cleanupExpiredPARs (λ _ b, b) 200 oldBucket []).2).
  vm_compute. reflexivity.
Defined.

Definition s3Stat (_ : string) : S3ObjectInfo + string := inl (mkS3ObjectInfo 3 "image/png; q=1").
Definition s3Get (_ : string) : S3Reader + string := inl (mkS3Reader "abc" None).

Lemma s3_upload_verified_witness :
  ∃ object, s3Get "k" = inl object ∧ S3Reader_fails object = None ∧ strlen (S3Reader_bytes object) = 3%Z ∧
    hex_EncodeToString (S3Reader_bytes object) = "616263".
Proof.
  apply (s3_upload_verified (λ s, s) s3Stat s3Get "k" 3 "616263" "image/png" "k"); [lia|vm_compute; reflexivity].
Defined.
End witnesses.
