(* ===== verification/AppleAuth.v ===== *)
(** * Sign in with Apple

    [src/internal/appleauth/appleauth.go]: the check of Apple's identity tokens, and the cache of
    Apple's signing keys.

    [AppleLibrary] is what it takes from golang-jwt, encoding/json and crypto/sha256.  The exchange
    with Apple is a parameter ([fetch]); other requests use the same cache, so between the accesses
    of a check they may have replaced it ([others]). *)

From Stdlib Require Import ZArith Lia Ascii.
From stdpp Require Import relations.
From S2P Require Import Prelude.
From S2P Require Import Runtime.
From S2P Require Import GoText.
From S2P Require Import AuthTokens.
From S2P Require Import HttpIdentity.

(** [rsa.PublicKey] *)
Record RSAKey := mkRSAKey { RSAKey_N : N; RSAKey_E : Z }.

(** An entry of the key document as it decodes. *)
Record JWK := mkJWK {
  JWK_KeyType : string; JWK_KeyID : string; JWK_Use : string; JWK_Alg : string; JWK_N : string; JWK_E : string }.

Record AppleClaims := mkAppleClaims { Apple_Subject : string; Apple_Email : string; Apple_Nonce : string }.

(** [jwt_Header] answers the [alg] and the [kid] of a well-formed token, an absent [kid] as the
    empty text; [jwt_Verify issuer audience leeway key token now] the claims of a token with a valid
    signature, issuer, audience and expiry; [json_JWKS] decodes a key document. *)
Class AppleLibrary := {
  jwt_Header : string → option (string * string);
  jwt_Verify : string → string → Z → RSAKey → string → Z → option AppleClaims;
  json_JWKS : string → option (list JWK) }.

(** What comes back from a request for the keys: the status and what can be read of the first MiB
    of the body. *)
Record KeyAnswer := mkKeyAnswer { KeyAnswer_StatusCode : Z; KeyAnswer_Body : option string }.

(** The fields under [mu]. *)
Record KeyCache := mkKeyCache { Cache_keys : gmap string RSAKey; Cache_fetched : Z }.

Definition newCache : KeyCache := mkKeyCache ∅ 0.

Definition appleIssuer : string := "https://appleid.apple.com".
Definition appleLeeway : Z := 30 * Second.
Definition keyLifetime : Z := 24 * Hour.

(** [big.Int.SetBytes] *)
Definition SetBytes (bytes : string) : N :=
  foldl (λ n c, n * 256 + N_of_ascii c)%N 0%N (bytes_of bytes).

Inductive KeyError := KeyUnavailable | KeyInvalid.

Section apple.
Context `{GoRuntime, AppleLibrary} (sha256 : string → string) (audience : string).
(** [fetch n], [time n], [others n]: the exchange with Apple, the clock and the others at the
    [n]-th access of a check. *)
Context (fetch : nat → option KeyAnswer) (time : nat → Z) (others : nat → KeyCache → KeyCache).
Implicit Types (c : KeyCache).

(** One entry of the document; [None] when it is passed over. *)
Definition usableKey (jwk : JWK) : option RSAKey :=
  if negb (bool_decide (JWK_KeyType jwk = "RSA")) || negb (bool_decide (JWK_Use jwk = "sig"))
     || negb (bool_decide (JWK_Alg jwk = "RS256")) || bool_decide (JWK_KeyID jwk = "")
  then None else
  match DecodeString RawURLEncoding (JWK_N jwk), DecodeString RawURLEncoding (JWK_E jwk) with
  | Some modulus, Some exponentBytes =>
    let exponent := Z.of_N (SetBytes exponentBytes) in
    if negb (int64_in exponent) || (exponent <=? 0)%Z then None
    else Some (mkRSAKey (SetBytes modulus) exponent)
  | _, _ => None
  end.

(** The map the loop fills: a later entry replaces an earlier one of the same name. *)
Definition documentKeys (jwks : list JWK) : gmap string RSAKey :=
  foldl (λ keys jwk, match usableKey jwk with Some key => <[JWK_KeyID jwk := key]> keys | None => keys end) ∅ jwks.

(** The keys of an answer; [None] is an error. *)
Definition answerKeys (answer : option KeyAnswer) : option (gmap string RSAKey) :=
  match answer with
  | None => None
  | Some answer =>
    if negb (KeyAnswer_StatusCode answer =? 200)%Z then None else
    match KeyAnswer_Body answer with
    | None => None
    | Some body =>
      match json_JWKS body with
      | None => None
      | Some jwks => let keys := documentKeys jwks in if bool_decide (size keys = 0) then None else Some keys
      end
    end
  end.

(** [refresh] at access [n]: whether it succeeded. *)
Definition refresh (n : nat) c : KeyCache * bool :=
  match answerKeys (fetch n) with
  | None => (c, false)
  | Some keys => (mkKeyCache keys (time n), true)
  end.

Definition fresh (now : Z) c : bool := (now - Cache_fetched c <? keyLifetime)%Z.

(** [key]: it reads the cache, fetches the keys if it has to, and reads the cache again. *)
Definition keyOf c (keyID : string) : KeyCache * (RSAKey + KeyError) :=
  let c := others 0 c in
  let key := Cache_keys c !! keyID in
  match key, fresh (time 0) c with
  | Some key, true => (c, inl key)
  | _, _ =>
    let '(c, ok) := refresh 1 (others 1 c) in
    if negb ok
    then match key with Some key => (c, inl key) | None => (c, inr KeyUnavailable) end
    else
      let c := others 2 c in
      match Cache_keys c !! keyID with Some key => (c, inl key) | None => (c, inr KeyInvalid) end
  end.

Definition Verify (identityToken rawNonce : string) c : KeyCache * AppleAnswer :=
  if bool_decide (identityToken = "") || bool_decide (rawNonce = "") then (c, AppleInvalid) else
  match jwt_Header identityToken with
  | None => (c, AppleInvalid)
  | Some (alg, keyID) =>
    if negb (bool_decide (alg = "RS256")) || bool_decide (keyID = "") then (c, AppleInvalid) else
    match keyOf c keyID with
    | (c, inr KeyUnavailable) => (c, AppleUnavailable)
    | (c, inr KeyInvalid) => (c, AppleInvalid)
    | (c, inl key) =>
      match jwt_Verify appleIssuer audience appleLeeway key identityToken (time 3) with
      | None => (c, AppleInvalid)
      | Some claims =>
        if bool_decide (Apple_Subject claims = "") then (c, AppleInvalid) else
        if negb (bool_decide (Apple_Nonce claims = hex_EncodeToString (sha256 rawNonce)))
        then (c, AppleInvalid)
        else (c, AppleVerified (mkAppleIdentity (Apple_Subject claims) (ToLower (TrimSpace (Apple_Email claims)))))
      end
    end
  end.
End apple.

(** ** Where the keys come from *)
Section facts.
Context `{GoRuntime, AppleLibrary}.
(** The answers Apple gives. *)
Context (published : KeyAnswer → Prop).
Implicit Types (c : KeyCache).

(** [key] is in a document of Apple's, answered with 200, under the name [keyID], for signatures
    with RS256. *)
Definition apple_key (keyID : string) (key : RSAKey) : Prop :=
  ∃ answer body jwks jwk, published answer ∧ KeyAnswer_StatusCode answer = 200%Z ∧
    KeyAnswer_Body answer = Some body ∧ json_JWKS body = Some jwks ∧ jwk ∈ jwks ∧
    JWK_KeyID jwk = keyID ∧ JWK_KeyType jwk = "RSA" ∧ JWK_Use jwk = "sig" ∧ JWK_Alg jwk = "RS256" ∧
    usableKey jwk = Some key.

(** Every key of the cache is one. *)
Definition cache_genuine c : Prop := ∀ keyID key, Cache_keys c !! keyID = Some key → apple_key keyID key.

Lemma usableKey_fields jwk key :
  usableKey jwk = Some key →
  JWK_KeyType jwk = "RSA" ∧ JWK_Use jwk = "sig" ∧ JWK_Alg jwk = "RS256" ∧ JWK_KeyID jwk ≠ "" ∧
  (0 < RSAKey_E key < 2 ^ 63)%Z.
Proof.
  unfold usableKey. destruct (_ || _) eqn:Hb; [done|]. bool_prop.
  destruct (DecodeString _ (JWK_N jwk)); [|done]. destruct (DecodeString _ (JWK_E jwk)); [|done].
  destruct (_ || _) eqn:He; [done|]. intros [= <-]. unfold int64_in in He. bool_prop. cbn. split_and!; try done; lia.
Qed.

Lemma documentKeys_spec jwks keyID key :
  documentKeys jwks !! keyID = Some key → ∃ jwk, jwk ∈ jwks ∧ JWK_KeyID jwk = keyID ∧ usableKey jwk = Some key.
Proof.
  unfold documentKeys. induction jwks as [|jwk jwks IH] using rev_ind; [done|].
  rewrite foldl_app. simpl. destruct (usableKey jwk) as [k|] eqn:Hk.
  - intros [[<- <-]|[_ (x & Hx & ?)%IH]]%lookup_insert_Some; [exists jwk|exists x]; set_solver.
  - intros (x & Hx & ?)%IH. exists x. set_solver.
Qed.

Lemma answerKeys_genuine answer keys keyID key :
  published answer → answerKeys (Some answer) = Some keys → keys !! keyID = Some key → apple_key keyID key.
Proof.
  intros Hp. unfold answerKeys. destruct (KeyAnswer_StatusCode answer =? 200)%Z eqn:Hs; [|done].
  destruct (KeyAnswer_Body answer) as [body|] eqn:Hb; [|done].
  destruct (json_JWKS body) as [jwks|] eqn:Hj; [|done]. cbn [negb]. case_bool_decide; [done|]. intros [= <-].
  intros (jwk & Hin & Hid & Hu)%documentKeys_spec. pose proof (usableKey_fields _ _ Hu) as (? & ? & ? & _).
  exists answer, body, jwks, jwk. split_and!; try done. lia.
Qed.

Section check.
Context (fetch : nat → option KeyAnswer) (time : nat → Z) (others : nat → KeyCache → KeyCache).
Context (Hfetch : ∀ n answer, fetch n = Some answer → published answer).
Context (Hothers : ∀ n c, cache_genuine c → cache_genuine (others n c)).

Lemma refresh_genuine n c c' ok : cache_genuine c → refresh fetch time n c = (c', ok) → cache_genuine c'.
Proof.
  intros Hc. unfold refresh. destruct (answerKeys (fetch n)) as [keys|] eqn:Hk; intros [= <- <-]; [|done].
  destruct (fetch n) as [answer|] eqn:Hf; [|done]. intros keyID key Hl. by eapply answerKeys_genuine; eauto.
Qed.

Lemma keyOf_genuine c keyID c' r :
  cache_genuine c → keyOf fetch time others c keyID = (c', r) →
  cache_genuine c' ∧ ∀ key, r = inl key → apple_key keyID key.
Proof.
  intros Hc. unfold keyOf. pose proof (Hothers 0 c Hc) as H0'. set (c0 := others 0 c) in *.
  assert (Hold : ∀ key, Cache_keys c0 !! keyID = Some key → apple_key keyID key) by (intros; by apply H0').
  destruct (refresh fetch time 1 (others 1 c0)) as [c1 ok] eqn:Hr.
  apply refresh_genuine in Hr; [|by apply Hothers]. pose proof (Hothers 2 c1 Hr) as H2.
  destruct (Cache_keys c0 !! keyID) as [old|]; [destruct (fresh (time 0) c0)|].
  { intros [= <- <-]. split; [done|]. intros key [= <-]. by apply Hold. }
  all: destruct ok; cbn [negb]; [destruct (Cache_keys (others 2 c1) !! keyID) as [new|] eqn:Hnew|].
  all: intros [= <- <-]; split; [done|]; intros key [= <-]; auto.
Qed.

(** C17. An identity is Apple's word for this sign-in.  Whatever other requests do to the cache of
    keys meanwhile, as long as all of them fill it from Apple's answers: a check accepts an
    identity only if the token is signed with RS256, under a key that a document of Apple's holds
    for signatures under the name the token gives, for Apple as its issuer and this server as
    its audience and not expired; the token names the subject, and its nonce is the hash of the
    one this sign-in started with.  And the cache holds Apple's keys only, before and after. *)
Theorem apple_identity_genuine sha256 audience identityToken rawNonce c c' answer :
  cache_genuine c →
  Verify sha256 audience fetch time others identityToken rawNonce c = (c', answer) →
  cache_genuine c' ∧
  ∀ identity, answer = AppleVerified identity →
    rawNonce ≠ "" ∧ AppleIdentity_Subject identity ≠ "" ∧
    ∃ keyID key claims, jwt_Header identityToken = Some ("RS256", keyID) ∧ apple_key keyID key ∧
      jwt_Verify appleIssuer audience appleLeeway key identityToken (time 3) = Some claims ∧
      Apple_Subject claims = AppleIdentity_Subject identity ∧
      Apple_Nonce claims = hex_EncodeToString (sha256 rawNonce).
Proof.
  intros Hc. unfold Verify. destruct (bool_decide (identityToken = "") || _) eqn:Hb; [by intros [= <- <-]|].
  destruct (jwt_Header identityToken) as [[alg keyID]|]; [|by intros [= <- <-]].
  destruct (negb (bool_decide (alg = "RS256")) || _) eqn:Ha; [by intros [= <- <-]|]. bool_prop. subst.
  destruct (keyOf fetch time others c keyID) as [c1 [key|[]]] eqn:Hk.
  all: destruct (keyOf_genuine _ _ _ _ Hc Hk) as [Hc1 Hgen].
  2,3: by intros [= <- <-].
  destruct (jwt_Verify _ _ _ _ _ _) as [claims|] eqn:Hv; [|by intros [= <- <-]].
  case_bool_decide; [by intros [= <- <-]|].
  destruct (bool_decide (Apple_Nonce claims = _)) eqn:Hn; cbn [negb]; [|by intros [= <- <-]].
  bool_prop. intros [= <- <-]. split; [done|]. intros identity [= <-]. split; [done|]. split; [done|].
  exists keyID, key, claims. split_and!; try done. by apply Hgen.
Qed.
End check.

(** Without an answer from Apple a key that is known goes on being used, and an unknown one is
    "unavailable", never "invalid": an outage refuses nobody for good. *)
Lemma outage_never_invalid time others c keyID c' r :
  keyOf (λ _, None) time others c keyID = (c', r) →
  match Cache_keys (others 0 c) !! keyID with
  | Some key => r = inl key
  | None => r = inr KeyUnavailable
  end.
Proof.
  unfold keyOf, refresh. simpl. destruct (Cache_keys (others 0 c) !! keyID); [destruct (fresh _ _)|];
    by intros [= <- <-].
Qed.
End facts.

(** ** A witness *)
Section witnesses.
#[local] Existing Instance Reference.runtime.

Definition appleDocument : string := "keys".
Definition appleJWK : JWK := mkJWK "RSA" "k1" "sig" "RS256" "Aw" "AQAB".

#[local] Instance appleLibrary : AppleLibrary := {|
  jwt_Header := λ token, if bool_decide (token = "t") then Some ("RS256", "k1") else None;
  jwt_Verify := λ issuer audience leeway key token now,
    if bool_decide (audience = "app" ∧ RSAKey_N key = 3%N ∧ RSAKey_E key = 65537%Z)
    then Some (mkAppleClaims "sub" " Ada@Example.com" "6e") else None;
  json_JWKS := λ body, if bool_decide (body = appleDocument) then Some [appleJWK] else None |}.

Definition appleServes (answer : KeyAnswer) : Prop := answer = mkKeyAnswer 200 (Some appleDocument).
Definition signIn : KeyCache * AppleAnswer :=
  Verify (λ s, s) "app" (λ _, Some (mkKeyAnswer 200 (Some appleDocument))) (λ _, 0%Z) (λ _ c, c) "t" "n" newCache.

Lemma apple_identity_genuine_witness :
  signIn.2 = AppleVerified (mkAppleIdentity "sub" "ada@example.com") ∧ cache_genuine appleServes signIn.1.
Proof.
  split; [vm_compute; reflexivity|].
  refine (proj1 (apple_identity_genuine appleServes (λ _, Some (mkKeyAnswer 200 (Some appleDocument)))
    (λ _, 0%Z) (λ _ c, c) _ _ (λ s, s) "app" "t" "n" newCache signIn.1 signIn.2 _ _)).
  - intros n answer Ha. symmetry. exact (f_equal (default answer) Ha).
  - intros n c Hc. exact Hc.
  - intros keyID key Hk. discriminate.
  - vm_compute. reflexivity.
Defined.
End witnesses.
