(* ===== verification/HttpAuthFacts.v ===== *)
(** * What signing in and out guarantees

    About [Middleware] and [HttpAuth]. *)

From Stdlib Require Import ZArith Lia Ascii.
From S2P Require Import Prelude.
From S2P Require Import Runtime.
From S2P Require Import GoText.
From S2P Require Import Domain.
From S2P Require Import Compliance.
From S2P Require Import StoreState.
From S2P Require Import AuthTokens.
From S2P Require Import Accounts.
From S2P Require Import Devices.
From S2P Require Import Media.
From S2P Require Import Anonymize.
From S2P Require Import Erasure.
From S2P Require Import Threads.
From S2P Require Import Http.
From S2P Require Import Middleware.
From S2P Require Import HttpAuth.
From S2P Require Import HttpReference.

(** ** Issuing a session *)
Section issue.
Context `{GoRuntime, TokenLibrary}.
Implicit Types (s : Store).

Lemma registerDevice_users keyAbsent s d clock s' d' :
  registerDevice keyAbsent s d clock = Ok (s', d') → Store_users s' = Store_users s.
Proof.
  unfold registerDevice, storeDevice. intros Hr.
  repeat case_match; simplify_eq/=; by destruct s.
Qed.

Lemma IssueSession_ok s p clock s' user d :
  IssueSession s p clock = (s', Ok (user, d)) →
  live_user s (SessionIssueParams_UserID p) = Some user ∧
  (SessionIssueParams_RequirePasswordHashMatch p = true →
   User_PasswordHash user = SessionIssueParams_ExpectedPasswordHash p) ∧
  Device_ID d = Device_ID (SessionIssueParams_Device p) ∧
  Store_users s' = Store_users s ∧
  Store_sessions s' !! Session_ID (SessionIssueParams_Session p) = Some (SessionIssueParams_Session p) ∧
  Session_RefreshTokenHash (SessionIssueParams_Session p) ≠ "".
Proof.
  unfold IssueSession. intros Hi. destruct (issueInvalid p) eqn:Hinv; [done|].
  destruct (live_user _ _) as [u|] eqn:Hu; [|done]. destruct (_ && _) eqn:Hpw; [done|].
  destruct (registerDevice _ _ _ _) as [[s1 d1]|] eqn:Hr; [|done]. injection Hi as <- -> ->.
  split; [done|]. split.
  { intros Hreq. rewrite Hreq in Hpw. cbn in Hpw. by bool_prop. }
  pose proof (registerDevice_spec _ _ _ _ _ _ Hr) as (_ & _ & _ & _ & Hown & _).
  injection Hown as Hid _ _. split; [exact Hid|].
  split; [exact (registerDevice_users _ _ _ _ _ _ Hr)|].
  split; [apply lookup_insert_eq|].
  unfold issueInvalid in Hinv. by bool_prop.
Qed.

(** The tokens open a session that is in the store: it belongs to the account and the device,
    and holds the hash of the secret in the refresh token. *)
Inductive signed_in (m : TokenManager) s (userID : UUID) (device : Device) (tokens : TokenPair) : Prop :=
  | mksigned_in sessionID secret (now : Z) (tokenID : UUID) :
    (40 ≤ strlen secret)%Z → refreshHash secret ≠ "" →
    pair_ m userID (Device_ID device) sessionID secret now tokenID = Ok tokens →
    Store_sessions s !! sessionID
      = Some (mkSession sessionID userID (Device_ID device) (refreshHash secret) ""
                (now + TokenManager_refreshTTL m) None now) →
    is_Some (live_user s userID) → signed_in m s userID device tokens.

(** crypto/rand fills the buffer or fails. *)
Definition random_full (env : Env) : Prop :=
  ∀ n size value, Env_random env n size = Some value → String.length value = size.

Context (env : Env) (Hrandom : random_full env) (m : TokenManager).

(** What [IssueWithDevice] does, and what it returns. *)
Definition issued_spec (userID : UUID) (expected : option string) (c : list Effect)
    (o : Outcome (res (User * Device * TokenPair))) : Prop :=
  ∃ r, o = Next r ∧
  match r with
  | Err _ => True
  | Ok (user, device, tokens) => ∃ s s', c = [Access s s'] ∧ live_user s userID = Some user ∧
      (∀ hash, expected = Some hash → User_PasswordHash user = hash) ∧
      signed_in m s' userID device tokens
  end.

Lemma replies_IssueWithDevice userID expected device :
  replies (IssueWithDevice env m userID expected device) (issued_spec userID expected).
Proof.
  unfold IssueWithDevice. apply replies_ask_bind. intros n0. apply replies_ask_bind. intros n1.
  destruct (randomToken _) as [secret|e] eqn:Hr; [|apply replies_ret; by exists (Err e)].
  assert (strlen secret = 64%Z) as Hlen.
  { unfold randomToken in Hr. destruct (Env_random env n1 48) as [v|] eqn:Hv; [|done].
    eapply random_token_length; [exact Hr|]. by eapply Hrandom. }
  apply replies_ask_bind. intros n2. apply replies_access_bind. intros n3 s s' r Hi.
  destruct r as [[user d]|e].
  2: { apply replies_ret. by exists (Err e). }
  apply IssueSession_ok in Hi as (Hu & Hpw & Hid & Husers & Hs & Hne).
  cbn in Hu, Hpw, Hid, Hs, Hne.
  apply replies_ask_bind. intros n4.
  destruct (pair_ _ _ _ _ _ _ _) as [tokens|e] eqn:Hp; apply replies_ret.
  - eexists. split; [done|]. cbn. exists s, s'. split; [done|]. split; [done|]. split.
    + intros hash ->. by apply Hpw.
    + rewrite <- Hid in Hs. eapply mksigned_in; [|exact Hne|exact Hp|exact Hs|]; [lia|].
      unfold live_user. rewrite Husers. by eexists.
  - by exists (Err e).
Qed.
End issue.

(** ** Signing in *)
Section login.
Context `{GoRuntime, TokenLibrary, WireFormat} (env : Env) (server : Server).

Lemma replies_newAuthDevice {B} userID deviceID name platform (k : Device → H B)
    (Q : list Effect → Outcome B → Prop) :
  (∀ device, replies (k device) Q) → replies (newAuthDevice env userID deviceID name platform ≫= k) Q.
Proof.
  intros Hk. unfold newAuthDevice. repeat handler_step.
  destruct (bool_decide (deviceID = uuid_Nil)); repeat handler_step; apply Hk.
Qed.

(** C10. Whatever the others do meanwhile: a login answers 200 only
    when the password verifies against the hash that the account of that e-mail has in the
    very state in which the session is stored, a state read again after the check. The tokens
    it hands out then open that session. *)
Theorem login_checks_password (body : Decoded credentialsRequest) :
  random_full env →
  replies (login env server body) (on_status 200 (λ c r,
    ∃ request found user device tokens s0 s s',
      body = Body request ∧ c = [Access s0 s0; Access s s'] ∧
      UserByEmail s0 (ToLower (TrimSpace (credentials_Email request))) = Ok found ∧
      live_user s (User_ID found) = Some user ∧
      VerifyPassword (User_PasswordHash user) (credentials_Password request) = true ∧
      Response_Content r = AuthBody user device tokens ∧
      signed_in (Server_tokens server) s' (User_ID found) device tokens)).
Proof.
  intros Hrandom. unfold login. do 4 (handler_step; try refused).
  destruct (UserByEmail s _) as [found|e] eqn:Hfound; [|handler_step; refused].
  handler_step; [refused|]. apply replies_newAuthDevice. intros device.
  eapply replies_bind; [by apply replies_IssueWithDevice| |].
  { intros c r (? & ? & _). done. }
  intros c r (? & [= <-] & Hr). destruct r as [[[user d] tokens]|e].
  - destruct Hr as (s1 & s2 & -> & Hu & Hhash & Hin). handler_step. apply on_status_done.
    specialize (Hhash _ eq_refl). rewrite <- Hhash in *.
    by exists x, found, user, d, tokens, s, s1, s2.
  - destruct e; handler_step; refused.
Qed.
End login.

(** ** The tokens of a session *)
Section tokens.
Context `{GoRuntime, TokenLibrary}.

(** The tokens of a sign-in work: while the access token lives it parses to
    claims that name the account, the device and the session; until the session expires the
    session check accepts exactly that identity; and the refresh token names the session and
    rotates it. *)
Theorem session_opens m s userID device tokens :
  signed_in m s userID device tokens →
  ∃ sessionID secret session, Store_sessions s !! sessionID = Some session ∧
    (∀ at_, token_lives m (Session_CreatedAt session) at_ →
       ∃ claims, ParseAccess m (TokenPair_AccessToken tokens) at_ = Ok claims ∧
         claimedIdentity claims = Some (mkIdentity userID (Device_ID device) sessionID)) ∧
    (∀ (clock : Clock) userID' deviceID', (clock 0%nat < Session_ExpiresAt session)%Z →
       SessionActive s sessionID userID' deviceID' clock = true ↔
       userID' = userID ∧ deviceID' = Device_ID device) ∧
    parseRefreshToken (TokenPair_RefreshToken tokens) = Ok (sessionID, secret) ∧
    (∀ (clock : Clock) newHash expiresAt, (clock 0%nat ≤ Session_ExpiresAt session)%Z →
       ∃ s' session', RotateSession s sessionID (refreshHash secret) newHash expiresAt clock = (s', Ok session') ∧
         Session_UserID session' = userID ∧ Session_DeviceID session' = Device_ID device).
Proof.
  intros [sessionID secret now tokenID Hlen Hne Hp Hs [user Hu]]. eexists sessionID, secret, _.
  split; [exact Hs|]. cbn [Session_CreatedAt Session_ExpiresAt]. split_and!.
  - intros at_ Hat. exists (accessClaims m userID (Device_ID device) sessionID tokenID now).
    split; [by apply (parse_issued _ _ _ _ _ _ _ _ _ _ Hp)|].
    unfold claimedIdentity, accessClaims. cbn. by rewrite !uuid_Parse_String.
  - intros clock userID' deviceID' Hc. unfold SessionActive. rewrite Hs. cbn.
    assert (After (now + TokenManager_refreshTTL m) (clock 0) = true) as -> by by apply After_spec.
    split.
    + destruct (live_user s userID'); [|done]. intros Ha. by bool_prop.
    + intros [-> ->]. rewrite Hu. by rewrite !bool_decide_true.
  - by eapply parse_refresh.
  - intros clock newHash expiresAt Hc. unfold RotateSession. rewrite Hs. cbn. rewrite Hu.
    rewrite (proj2 (Before_false _ _)) by done. cbn.
    unfold equalTokenHash. rewrite Z.eqb_refl, bool_decide_true by done. cbn.
    destruct (0 <? strlen (refreshHash secret))%Z eqn:Hz; [by eauto 10|].
    exfalso. apply Hne. unfold strlen in Hz. by destruct (refreshHash secret).
Qed.
End tokens.

(** ** Ending a session *)
Section logout.
Context `{GoRuntime} (env : Env).

(** A handler that fences before it works: it stops when the fence fails, and otherwise
    releases the fence on every exit. *)
Definition fenced_spec (userID : UUID) (sessionID : option UUID) (P : list Effect → Response → Prop)
    (c : list Effect) (o : Outcome unit) : Prop :=
  ∃ r, o = Done r ∧
  ((∃ e, c = [RevokedLocally userID sessionID; Fenced userID sessionID (Some e)] ∧ r = dependencyUnavailable) ∨
   (∃ work, c = [RevokedLocally userID sessionID; Fenced userID sessionID None] ++ work ++ [FenceReleased] ∧
      P work r)).

Lemma replies_fenced userID sessionID (m : Handler) P :
  replies m (λ c o, ∃ r, o = Done r ∧ P c r) →
  replies (err ← publishSessionRevocation env userID sessionID;
           match err with
           | Some _ => respond dependencyUnavailable
           | None => deferred releaseSessionFence m
           end) (fenced_spec userID sessionID P).
Proof.
  intros Hm. unfold publishSessionRevocation. repeat handler_step.
  destruct (Env_fence _ _ _ _) as [e|].
  - handler_step. eexists. split; [done|]. left. by eexists.
  - apply replies_deferred. eapply replies_weaken; [exact Hm|].
    intros c o (r & -> & HP). eexists. split; [done|]. right. by exists c.
Qed.

Lemma replies_orNotFound_bind {B} (result : res unit) (k : unit → H B) (Q : list Effect → Outcome B → Prop) :
  (∀ e, Q [] (Done (writeDomainError e))) →
  (result = Ok tt ∨ result = Err ErrNotFound → replies (k tt) Q) →
  replies (orNotFound result ≫= k) Q.
Proof.
  intros He Hk. destruct result as [[]|e]; [by apply Hk; left|].
  destruct e; try (by apply replies_respond_bind); by apply Hk; right.
Qed.

Lemma RevokeSession_dead s id userID clock s' r :
  RevokeSession s id userID clock = (s', r) → r = Ok tt ∨ r = Err ErrNotFound →
  (∀ userID deviceID clock, SessionActive s' id userID deviceID clock = false) ∧
  (∀ t t' exp clock, RotateSession s' id t t' exp clock = (s', Err ErrUnauthenticated)).
Proof.
  unfold RevokeSession. intros Hrev Hr. destruct (Store_sessions s !! id) as [se|] eqn:Hse.
  - destruct (negb _); simplify_eq; [by destruct Hr|]. apply revoked_session_dead.
    eexists. cbn. rewrite lookup_insert_eq. split; [done|]. by eexists.
  - simplify_eq. unfold SessionActive, RotateSession. by rewrite Hse.
Qed.

(** C11. Signing out fences the session on the bus before it touches the
    store, and releases the fence on every way out; when the fence fails it does not touch the
    store and answers 503. When it answers 204 the session is dead: inactive, and impossible to
    refresh; and the device has no push token. *)
Theorem logout_ends_session r :
  replies (logout env r)
    (fenced_spec (Identity_UserID (fst (identityFrom r))) (Some (Identity_SessionID (fst (identityFrom r))))
      (λ work resp, Response_Status resp = 204%Z →
        ∃ s s1 s' s2, work = [Access s s1; Access s' s2] ∧
          (∀ userID deviceID clock,
             SessionActive s1 (Identity_SessionID (fst (identityFrom r))) userID deviceID clock = false) ∧
          (∀ t t' exp clock, RotateSession s1 (Identity_SessionID (fst (identityFrom r))) t t' exp clock
             = (s1, Err ErrUnauthenticated)) ∧
          (∀ d, Store_devices s2 !! Identity_DeviceID (fst (identityFrom r)) = Some d →
             Device_PushToken d = ""))).
Proof.
  unfold logout. destruct (identityFrom r) as [id ok]. cbn [fst]. apply replies_fenced.
  assert (∀ P e, ∃ r0, Done (A:=unit) (writeDomainError e) = Done r0 ∧
    (Response_Status r0 = 204%Z → P : Prop)) as Hno.
  { intros. eexists. split; [done|]. intros Hr. by destruct e. }
  apply replies_access_bind. intros n s s1 revoked Hrev.
  apply replies_orNotFound_bind; [intros e; apply Hno|]. intros Hr.
  destruct (RevokeSession_dead _ _ _ _ _ _ Hrev Hr) as [Hdead Hdead'].
  apply replies_access_bind. intros n' s' s2 cleared Hclear.
  apply replies_orNotFound_bind; [intros e; apply Hno|]. intros Hc.
  apply replies_respond. eexists. split; [done|]. intros _. exists s, s1, s', s2.
  split; [done|]. split; [done|]. split; [done|].
  intros d. unfold ClearDevicePushToken in Hclear. destruct (Store_devices s' !! _) as [d'|] eqn:Hd.
  - destruct (negb _); simplify_eq; [by destruct Hc|]. cbn. rewrite lookup_insert_eq. by intros [= <-].
  - simplify_eq. by rewrite Hd.
Qed.
End logout.

(** ** Concrete runs *)
Section witnesses.
#[local] Existing Instance Reference.runtime.
#[local] Existing Instance ReferenceTokens.library.
#[local] Existing Instance ReferenceHttp.wire.
#[local] Existing Instance ReferenceHttp.net.

Definition sample_credentials : credentialsRequest :=
  mkcredentialsRequest None "ada@clixor.test" "correct horse" "Ada" (uuid_of_N 77) "Pixel" "android".

(** A registration, then a sign in with the same credentials. *)
Definition registered_store : Store :=
  fst (ReferenceHttp.run (register ReferenceHttp.env ReferenceHttp.server (Body sample_credentials)) New).

Lemma random_full_env : random_full ReferenceHttp.env.
Proof. intros n size value [= <-]. apply ReferenceHttp.length_random. Qed.

Lemma login_checks_password_witness :
  random_full ReferenceHttp.env ∧
  ReferenceHttp.status (snd (ReferenceHttp.run
    (login ReferenceHttp.env ReferenceHttp.server (Body sample_credentials)) registered_store)) = 200%Z ∧
  replies (login ReferenceHttp.env ReferenceHttp.server (Body sample_credentials)) (on_status 200 (λ c r,
    ∃ found user device tokens s,
      VerifyPassword (User_PasswordHash user) "correct horse" = true ∧
      Response_Content r = AuthBody user device tokens ∧
      signed_in (Server_tokens ReferenceHttp.server) s (User_ID found) device tokens)).
Proof.
  split; [exact random_full_env|]. split; [vm_compute; reflexivity|].
  eapply replies_weaken; [exact (login_checks_password _ _ _ random_full_env)|].
  intros c o (r & -> & Hr). exists r. split; [reflexivity|]. intros H200.
  destruct (Hr H200) as (request & found & user & device & tokens & s0 & s & s' & [= <-] & _ & _ & _ & Hv & Hb & Hin).
  exists found, user, device, tokens, s'. split; [exact Hv|]. split; [exact Hb|exact Hin].
Defined.

Definition sample_device : Device :=
  mkDevice (uuid_of_N 2) (uuid_of_N 1) "Pixel" "android" "" "" RawNil 0 0.
Definition sample_user : User :=
  mkUser (uuid_of_N 1) "ada@clixor.test" "" "Ada" "" RawNil "" 0 0.
Definition sample_session : Session :=
  mkSession (uuid_of_N 3) (uuid_of_N 1) (uuid_of_N 2) (refreshHash sample_secret) ""
    (100 * Hour + TokenManager_refreshTTL sample_manager) None (100 * Hour).
Definition signed_store : Store :=
  New <| Store_users := {[uuid_of_N 1 := sample_user]} |> <| Store_sessions := {[uuid_of_N 3 := sample_session]} |>.

Lemma session_opens_witness :
  match sample_pair with
  | Ok tokens =>
    ∃ sessionID secret, parseRefreshToken (TokenPair_RefreshToken tokens) = Ok (sessionID, secret) ∧
      SessionActive signed_store sessionID (uuid_of_N 1) (uuid_of_N 2) (λ _, 101 * Hour)%Z = true
  | Err _ => False
  end.
Proof.
  destruct sample_pair as [tokens|e] eqn:Hp; [|vm_compute in Hp; discriminate Hp].
  destruct (session_opens sample_manager signed_store (uuid_of_N 1) sample_device tokens)
    as (sessionID & secret & session & Hs & _ & Hactive & Hrefresh & _).
  { apply (mksigned_in sample_manager signed_store (uuid_of_N 1) sample_device tokens (uuid_of_N 3) sample_secret
      (100 * Hour) (uuid_of_N 4)).
    - vm_compute. intros [=].
    - vm_compute. intros [=].
    - exact Hp.
    - unfold signed_store. cbn. apply lookup_singleton_eq.
    - unfold live_user, signed_store. cbn. rewrite lookup_singleton_eq. eexists. reflexivity. }
  exists sessionID, secret. split; [exact Hrefresh|].
  apply Hactive; [|split; reflexivity].
  unfold signed_store in Hs. cbn in Hs. apply lookup_singleton_Some in Hs as [_ <-]. vm_compute. reflexivity.
Defined.
End witnesses.
