(* ===== verification/HttpConversationsFacts.v ===== *)
(** * What the conversation endpoints guarantee

    About [HttpConversations]: a refused request leaves the store alone, an accepted message
    comes from the device it names, a conversation is opened only with people who may be
    reached, and looking people up discloses nothing but what was asked for. *)

From Stdlib Require Import ZArith Lia Ascii.
From S2P Require Import Prelude.
From S2P Require Import Runtime.
From S2P Require Import GoText.
From S2P Require Import Domain.
From S2P Require Import Compliance.
From S2P Require Import StoreState.
From S2P Require Import AuthTokens.
From S2P Require Import Accounts.
From S2P Require Import Devices.
From S2P Require Import Projection.
From S2P Require Import Conversations.
From S2P Require Import Membership.
From S2P Require Import Messages.
From S2P Require Import Entities.
From S2P Require Import Threads.
From S2P Require Import Http.
From S2P Require Import Middleware.
From S2P Require Import HttpAuth.
From S2P Require Import HttpAuthFacts.
From S2P Require Import HttpConversations.
From S2P Require Import HttpReference.

(** ** What a refused operation leaves behind

    Local ids that were assigned stay assigned, and tables may lose rows of a conversation
    that does not exist; everything else is as before. *)
Definition same_rows {V} s (t t' : gmap UUID V) : Prop :=
  ∀ cid, is_Some (Store_conversations s !! cid) → t' !! cid = t !! cid.

Record kept (s s' : Store) : Prop := {
  kept_rest : s' = s <| Store_memberLocalIDs := Store_memberLocalIDs s' |>
    <| Store_members := Store_members s' |> <| Store_memberTombstones := Store_memberTombstones s' |>
    <| Store_invites := Store_invites s' |>;
  kept_members : same_rows s (Store_members s) (Store_members s');
  kept_tombstones : same_rows s (Store_memberTombstones s) (Store_memberTombstones s');
  kept_invites : same_rows s (Store_invites s) (Store_invites s') }.

Lemma kept_refl s : kept s s.
Proof. by destruct s. Qed.
#[local] Hint Resolve kept_refl : store.

Section refused.
Context `{GoRuntime}.
Implicit Types (s : Store) (clock : Clock).

Lemma kept_local_ids s f : kept s (s <| Store_memberLocalIDs ::= f |>).
Proof. by destruct s. Qed.

Lemma ensure_kept s cid metadata members s' r :
  ensureConversationMemberLocalIDsLocked s cid metadata members = (s', r) → kept s s'.
Proof.
  unfold ensureConversationMemberLocalIDsLocked. destruct (planConversationMemberLocalIDsLocked _ _ _ _);
    intros [= <- <-]; [apply kept_local_ids|apply kept_refl].
Qed.

(** Computes with the fields of a store that is a constructor. *)
Ltac store_cbv :=
  cbv beta iota delta [set_field
    set_Store_conversations set_Store_members set_Store_memberLocalIDs
    set_Store_memberTombstones set_Store_invites Store_compliance Store_users Store_emailToUser
    Store_phoneToUser Store_usernameToUser Store_externalUsers Store_ageAssurances
    Store_passwordResets Store_accountDeletionIntents Store_mailDeliveries Store_devices
    Store_preKeys Store_sessions Store_conversations Store_members Store_memberLocalIDs
    Store_memberTombstones Store_invites Store_inviteLinks Store_inviteLinkKeys Store_messages
    Store_clientMessages Store_receipts Store_entities Store_choreRotations Store_media
    Store_mediaUploadCapabilities Store_outbox Store_nextOutboxID
    Store_activeRealtimeDeliveries Store_pushDeliveries Store_pushDeliveryByEventDevice
    Store_nextPushDeliveryID Store_activePushDeliveries].

Lemma rollback_kept s conversation members :
  Store_conversations s !! Conversation_ID conversation = None →
  kept s (rollbackConversation (openConversation s conversation members) (Conversation_ID conversation)).
Proof.
  intros Hn. set (cid := Conversation_ID conversation) in *.
  assert (∀ {V} (t : gmap UUID V) x, same_rows s t (delete cid (<[cid := x]> t))) as Hrows.
  { intros V t x cid' [c Hc]. rewrite lookup_delete_ne, lookup_insert_ne; [done|..]; by intros <-; rewrite Hn in Hc. }
  assert (∀ x, delete cid (<[cid := x]> (Store_conversations s)) = Store_conversations s) as Heq
    by (intros x; by rewrite delete_insert_id).
  split; [|apply Hrows..].
  unfold rollbackConversation, openConversation. fold cid. destruct s. store_cbv.
  cbn in Heq. by rewrite (Heq conversation).
Qed.

(** An operation that fails leaves the store alone. *)
Ltac refused_op E := op_cases E; try apply kept_refl.

Lemma CreateConversation_refused s p newID clock s' e :
  CreateConversation s p newID clock = (s', Err e) → kept s s'.
Proof.
  unfold CreateConversation. intros Hc. cbv zeta in Hc.
  destruct (if bool_decide _ then List.find _ _ else None) as [[? ?]|]; [done|].
  destruct (existsb _ _); [by simplify_eq; apply kept_refl|].
  set (cid := if bool_decide _ then newID else _) in *.
  destruct (Store_conversations s !! cid) eqn:Hn.
  { destruct (bool_decide (Conversation_CreatedBy _ = _)); simplify_eq; apply kept_refl. }
  unfold ensureConversationMemberLocalIDsLocked in Hc.
  destruct (planConversationMemberLocalIDsLocked _ _ _ _); simplify_eq.
  by apply (rollback_kept s (mkConversation cid _ _ _ _ _ _ _ _)).
Qed.

Lemma UpdateConversation_refused s cid actorID p clock s' e :
  UpdateConversation s cid actorID p clock = (s', Err e) → kept s s'.
Proof.
  unfold UpdateConversation. intros Hu. destruct (Store_conversations s !! cid); [|by simplify_eq; apply kept_refl].
  destruct (negb _); [by simplify_eq; apply kept_refl|]. cbv zeta in Hu. destruct (bool_decide _); [|done].
  destruct (ensureConversationMemberLocalIDsLocked _ _ _ _) as [s1 [l|e']] eqn:He; [done|].
  injection Hu as <- <-. by eapply ensure_kept.
Qed.

Lemma DeleteConversation_refused s cid actorID clock s' e :
  DeleteConversation s cid actorID clock = (s', Err e) → kept s s'.
Proof. unfold DeleteConversation. intros E. refused_op E. Qed.

Lemma AddConversationMember_refused s cid actorID userID role clock s' e :
  AddConversationMember s cid actorID userID role clock = (s', Err e) → kept s s'.
Proof. unfold AddConversationMember. intros E. refused_op E. Qed.

Lemma RemoveConversationMember_refused s cid actorID userID clock s' e :
  RemoveConversationMember s cid actorID userID clock = (s', Err e) → kept s s'.
Proof. unfold RemoveConversationMember. intros E. refused_op E. Qed.

Lemma TransferConversationOwnership_refused s cid actorID targetID clock s' e :
  TransferConversationOwnership s cid actorID targetID clock = (s', Err e) → kept s s'.
Proof. unfold TransferConversationOwnership. intros E. refused_op E. Qed.

Lemma CreateMessage_refused s p newID clock s' e :
  CreateMessage s p newID clock = (s', Err e) → kept s s'.
Proof. unfold CreateMessage. intros E. refused_op E. Qed.

Lemma UpsertReceipt_refused s r clock s' e : UpsertReceipt s r clock = (s', Err e) → kept s s'.
Proof. unfold UpsertReceipt. intros E. refused_op E. Qed.

Lemma PutEntity_refused s x v clock s' e : PutEntity s x v clock = (s', Err e) → kept s s'.
Proof.
  unfold PutEntity. intros E. destruct (negb _); [by simplify_eq; apply kept_refl|].
  destruct (Store_conversations s !! _); [|by simplify_eq; apply kept_refl]. cbv zeta in E.
  destruct (ensureConversationMemberLocalIDsLocked _ _ _ _) as [s1 r] eqn:He. apply ensure_kept in He.
  by op_cases E.
Qed.

Lemma DeleteEntity_refused s cid actorID kind id v clock s' e :
  DeleteEntity s cid actorID kind id v clock = (s', Err e) → kept s s'.
Proof. unfold DeleteEntity. intros E. refused_op E. Qed.

Lemma RotateChore_refused s p clock s' e : RotateChore s p clock = (s', Err e) → kept s s'.
Proof.
  unfold RotateChore, commitRotation. intros E. cbv zeta in E.
  destruct (bool_decide _); [by simplify_eq; apply kept_refl|].
  destruct (negb _); [by simplify_eq; apply kept_refl|].
  destruct (Store_choreRotations s !! _); [by refused_op E|].
  destruct (RotateChoreParams_Validate p); [by simplify_eq; apply kept_refl|].
  destruct (Store_entities s !! _); [|by simplify_eq; apply kept_refl].
  destruct (bool_decide _); [by simplify_eq; apply kept_refl|].
  destruct (negb _); [by simplify_eq; apply kept_refl|].
  destruct (Store_conversations s !! _); [|by simplify_eq; apply kept_refl].
  destruct (ensureConversationMemberLocalIDsLocked _ _ _ _) as [s1 r] eqn:He. apply ensure_kept in He.
  by op_cases E.
Qed.

Lemma CreateConversationInvite_refused s p newID clock s' e :
  CreateConversationInvite s p newID clock = (s', Err e) → kept s s'.
Proof. unfold CreateConversationInvite. intros E. refused_op E. Qed.

Lemma AcceptConversationInvite_refused s t userID clock s' e :
  AcceptConversationInvite s t userID clock = (s', Err e) → kept s s'.
Proof.
  unfold AcceptConversationInvite. intros E. cbv zeta in E.
  destruct (live_user s userID); [|by simplify_eq; apply kept_refl].
  destruct (Store_inviteLinks s !! t); [|by simplify_eq; apply kept_refl].
  destruct (Store_conversations s !! _); [|by simplify_eq; apply kept_refl].
  destruct (membersOf s _ !! userID).
  - destruct (ensureConversationMemberLocalIDsLocked _ _ _ _) as [s1 r] eqn:He. apply ensure_kept in He.
    by op_cases E.
  - refused_op E.
Qed.

Lemma RevokeConversationInvite_refused s cid actorID inviteID clock s' e :
  RevokeConversationInvite s cid actorID inviteID clock = (s', Err e) → kept s s'.
Proof. unfold RevokeConversationInvite. intros E. refused_op E. Qed.
End refused.

(** ** Refused requests *)

(** Nothing happened that anyone could see. *)
Definition quiet (e : Effect) : Prop :=
  match e with
  | Access s s' => kept s s'
  | Published _ _ => False
  | _ => True
  end.

Definition quiet_refusal (c : list Effect) (o : Outcome unit) : Prop :=
  ∃ r, o = Done r ∧ ((400 ≤ Response_Status r)%Z → Forall quiet c).

Lemma quiet_refusal_accepted c r : (Response_Status r < 400)%Z → quiet_refusal c (Done r).
Proof. intros Hr. exists r. split; [done|]. lia. Qed.

Lemma quiet_refusal_quiet c r : Forall quiet c → quiet_refusal c (Done r).
Proof. intros Hc. by exists r. Qed.

(** ** Messages *)

(** What [parseE2EEEnvelope] accepts. *)
Record envelope_ok `{GoRuntime} (e : e2eeMessageEnvelope) : Prop := {
  envelope_protocol : (e2ee_Protocol e = "clixor-e2ee-v1") ∧ (e2ee_Version e = 1%Z);
  envelope_recipients : (1 ≤ Z.of_nat (length (e2ee_Recipients e)) ≤ 4096)%Z;
  envelope_once : NoDup (e2eeRecipient_DeviceID <$> e2ee_Recipients e);
  envelope_wrapped : ∀ recipient, recipient ∈ e2ee_Recipients e →
    e2eeRecipient_DeviceID recipient ≠ uuid_Nil ∧ e2eeRecipient_KeyID recipient ≠ 0%Z ∧
    is_Some (decodeEncodedBytes (e2eeRecipient_WrappedKey recipient) 60);
  envelope_keys : is_Some (decodeEncodedBytes (e2ee_SenderIdentityKey e) 32) ∧
    is_Some (decodeEncodedBytes (e2ee_SenderEphemeralKey e) 32) ∧
    is_Some (decodeEncodedBytes (e2ee_Signature e) 64) }.

Section messages.
Context `{GoRuntime}.

Lemma validRecipients_spec seen recipients :
  validRecipients seen recipients = true →
  NoDup (e2eeRecipient_DeviceID <$> recipients) ∧
  ∀ recipient, recipient ∈ recipients →
    (e2eeRecipient_DeviceID recipient ∉ seen) ∧
    (e2eeRecipient_DeviceID recipient ≠ uuid_Nil) ∧ (e2eeRecipient_KeyID recipient ≠ 0%Z) ∧
    is_Some (decodeEncodedBytes (e2eeRecipient_WrappedKey recipient) 60).
Proof.
  revert seen. induction recipients as [|x recipients IH]; intros seen Hv; simpl in *.
  { split; [constructor|]. by intros ? ?%not_elem_of_nil. }
  apply andb_true_iff in Hv as [[Hx Hseen]%andb_true_iff Hv].
  unfold hasEncodedSize in Hx. bool_prop. destruct (IH _ Hv) as [Hnd Hall]. split.
  - constructor; [|done]. intros (y & Hy & Hin)%list_elem_of_fmap. destruct (Hall y Hin) as [Hout _].
    set_solver.
  - intros y [-> |Hy]%elem_of_cons; [done|]. destruct (Hall y Hy) as (Hout & ?). split; [set_solver|done].
Qed.

Lemma parseE2EEEnvelope_ok value e : parseE2EEEnvelope value = Some e → envelope_ok e.
Proof.
  unfold parseE2EEEnvelope. destruct (decodeEnvelope value) as [e'|]; [|done].
  destruct (_ || _) eqn:Hbad; [done|]. destruct (validRecipients _ _) eqn:Hv; [|done]. intros [= <-].
  destruct (validRecipients_spec _ _ Hv) as [Hnd Hall]. unfold hasEncodedSize in Hbad. bool_prop. split.
  all: try done. all: try (by intros x Hx; destruct (Hall x Hx) as [_ ?]). all: try lia.
Qed.

(** The envelope is well formed, and in this state the device of the identity has registered
    the identity key it names; the device itself can open it. *)
Definition device_envelope s (id : Identity) (value : RawMessage) : Prop :=
  ∃ e device key, parseE2EEEnvelope value = Some e ∧ envelope_ok e ∧
    Device_ s (Identity_UserID id) (Identity_DeviceID id) = Ok device ∧
    decodeEncodedBytes (Device_IdentityKey device) 32 = Some key ∧
    decodeEncodedBytes (e2ee_SenderIdentityKey e) 32 = Some key ∧
    Identity_DeviceID id ∈ e2eeRecipient_DeviceID <$> e2ee_Recipients e.

Lemma device_envelope_intro s (id : Identity) value e device key :
  parseE2EEEnvelope value = Some e →
  Device_ s (Identity_UserID id) (Identity_DeviceID id) = Ok device →
  decodeEncodedBytes (Device_IdentityKey device) 32 = Some key →
  bool_decide (decodeEncodedBytes (e2ee_SenderIdentityKey e) 32 = Some key) = true →
  hasRecipient e (Identity_DeviceID id) = true → device_envelope s id value.
Proof.
  intros He Hd Hk Hkey%bool_decide_eq_true Hr. exists e, device, key.
  split_and!; [done|by apply parseE2EEEnvelope_ok in He|done..|].
  apply existsb_exists in Hr as (recipient & Hin & Hr). apply bool_decide_eq_true in Hr as <-.
  apply list_elem_of_fmap_2, list_elem_of_In, Hin.
Qed.

Lemma transition_exact value :
  validProduction05bTransitionEnvelope value = true →
  value = Raw (JObj [("protocol", JStr "clustr-transition-v1")]).
Proof.
  unfold validProduction05bTransitionEnvelope. intros Hv. repeat case_match; try done. by bool_prop; subst.
Qed.

Context `{TokenLibrary, WireFormat, TimeText, JSONText} (env : Env).

Lemma CreateMessage_member s p newID clock s' r :
  CreateMessage s p newID clock = (s', Ok r) →
  is_member s (CreateMessageParams_ConversationID p) (CreateMessageParams_SenderID p) = true.
Proof.
  unfold CreateMessage. cbv zeta. intros Hc. apply is_member_spec. unfold membersOf, inner.
  destruct (Store_members s !! _) as [members|]; [|done]. simpl.
  by destruct (members !! CreateMessageParams_SenderID p).
Qed.

Lemma CreateMessage_new s p newID clock s' m ids :
  CreateMessage s p newID clock = (s', Ok (m, ids)) →
  Store_clientMessages s !! clientMessageKey (CreateMessageParams_ConversationID p)
    (CreateMessageParams_SenderID p) (CreateMessageParams_ClientMessageID p) = None →
  ∃ id seq now, m = newMessage p id seq now.
Proof.
  unfold CreateMessage. cbv zeta. intros Hc Hk.
  destruct (Store_members s !! _) as [members|]; [|done]. destruct (members !! _); [|done].
  rewrite Hk in Hc. apply pair_equal_spec in Hc as [_ Hc]. apply (inj Ok) in Hc. simplify_eq. by eexists _, _, _.
Qed.

(** The message was stored for this request, or was there under the same client id. *)
Definition stored_for s s' (id : Identity) (conversationID : UUID) (request : createMessageRequest)
    (message : Message) : Prop :=
  is_member s conversationID (Identity_UserID id) = true ∧
  Store_clientMessages s' !! clientMessageKey conversationID (Identity_UserID id)
    (createMessage_ClientMessageID request) = Some message ∧
  (s' = s ∨
   Message_ConversationID message = conversationID ∧ Message_SenderID message = Identity_UserID id ∧
   Message_SenderDeviceID message = Identity_DeviceID id ∧
   Message_ContentType message = createMessage_ContentType request ∧
   Message_Ciphertext message = createMessage_Ciphertext request ∧
   Message_Envelope message = createMessage_Envelope request).

Lemma CreateMessage_stored_for s s' (id : Identity) conversationID request message ids messageID newID clock :
  CreateMessage s (mkCreateMessageParams messageID (createMessage_ClientMessageID request) conversationID
    (Identity_UserID id) (Identity_DeviceID id) (createMessage_ContentType request)
    (createMessage_Ciphertext request) (createMessage_Envelope request) (createMessage_ReplyToID request))
    newID clock = (s', Ok (message, ids)) →
  stored_for s s' id conversationID request message.
Proof.
  intros Hc. pose proof (CreateMessage_member _ _ _ _ _ _ Hc) as Hm.
  split; [exact Hm|]. destruct (CreateMessage_ok _ _ _ _ _ _ _ Hc) as [[Hk _]|[-> Hk]].
  2: { split; [exact Hk|]. by left. }
  split; [exact Hk|]. destruct (Store_clientMessages s !! clientMessageKey conversationID (Identity_UserID id)
    (createMessage_ClientMessageID request)) eqn:Hold.
  - left. revert Hc. unfold CreateMessage. cbn. destruct (Store_members s !! _) as [members|]; [|done].
    destruct (members !! _); [|done]. rewrite Hold. by intros [= -> _].
  - right. by destruct (CreateMessage_new _ _ _ _ _ _ _ Hc Hold) as (? & ? & ? & ->).
Qed.

(** C14. A message is accepted with 201 only from a member of the
    conversation, and only with an envelope that is well formed, carries the identity key the
    signed-in device has registered and can be opened by that device, or with exactly the
    transition document of older clients. The message then names the signed-in account and
    device as its sender and carries what the request carried, or nothing was stored because
    the account had already sent a message with this client id. *)
Theorem messages_from_their_device r body :
  replies (createMessage env r body) (on_status 201 (λ c resp,
    ∃ id conversationID request message before s s',
      identityFrom r = (id, true) ∧ body = Body request ∧ c = before ++ [Access s s'] ∧
      Response_Content resp = MessageBody message ∧
      (before = [] ∧ createMessage_Envelope request = Raw (JObj [("protocol", JStr "clustr-transition-v1")]) ∨
       ∃ s0, before = [Access s0 s0] ∧ device_envelope s0 id (createMessage_Envelope request)) ∧
      stored_for s s' id conversationID request message)).
Proof.
  unfold createMessage, requestConversation, pathID, checkEnvelope. handler_run; try refused.
  all: apply on_status_done; simplify_eq;
    match goal with Hc : CreateMessage _ _ _ _ = _ |- _ => apply CreateMessage_stored_for in Hc end.
  all: match goal with
    | |- context [[Access ?s0 ?s0; Access ?s ?s']] => eexists _, _, _, _, [Access s0 s0], s, s'
    | |- context [[Access ?s ?s']] => eexists _, _, _, _, [], s, s'
    end; (do 4 (split; [reflexivity|])); (split; [|eassumption]).
  all: first
    [ left; split; [reflexivity|];
      match goal with Hv : negb (_ || _) = true |- _ =>
        apply transition_exact; rewrite bool_decide_false in Hv by (by intros [? ?]);
        apply not_false_is_true; intros Hf; rewrite Hf, !orb_true_r in Hv; discriminate Hv end
    | right; eexists; split; [reflexivity|]; by eapply device_envelope_intro ].
Qed.
End messages.

(** ** Opening a conversation *)
Section opening.
Context `{GoRuntime, TokenLibrary, WireFormat, TimeText, JSONText} (env : Env).

(** During the request neither of the two had blocked the other, and the other was registered. *)
Definition reachable_during (c : list Effect) (userID memberID : UUID) : Prop :=
  ∃ s s' user, Access s s ∈ c ∧ Access s' s' ∈ c ∧
    Blocked (Store_compliance s) userID memberID = false ∧ UserByID s' memberID = Ok user.

Lemma reachable_during_incl c c' userID memberID :
  reachable_during c userID memberID → c ⊆ c' → reachable_during c' userID memberID.
Proof. intros (s & s' & user & Hs & Hs' & ?) Hc. exists s, s', user. split; [|split]; auto. Qed.

Lemma replies_checkMembers userID ids :
  replies (checkMembers env userID ids) (λ c o,
    match o with
    | Done r => (400 ≤ Response_Status r)%Z
    | Next _ => ∀ memberID, memberID ∈ ids → memberID ≠ userID → reachable_during c userID memberID
    end).
Proof.
  induction ids as [|id ids IH]; cbn [checkMembers].
  { handler_step. by intros ? ?%not_elem_of_nil. }
  destruct (bool_decide _) eqn:Hself; bool_prop.
  - eapply replies_weaken; [exact IH|]. intros c [r|[]]; [done|]. intros Hall memberID. set_solver.
  - unfold communicationAllowed. handler_run; [done|apply domain_error_status|].
    eapply replies_weaken; [exact IH|]. intros c [r|[]]; [done|]. intros Hall memberID Hin Hne.
    apply elem_of_cons in Hin as [->|Hin].
    + eexists s, s0, _. split; [by left|]. split; [by right; left|].
      match goal with Hb : negb _ = true |- _ => apply negb_true_iff in Hb end. by split.
    + eapply reachable_during_incl; [by apply Hall|]. by do 2 apply list_subseteq_cons.
Qed.

Lemma uniqueIDs_spec seen values id :
  id ∈ uniqueIDs_loop seen values ↔ id ∈ values ∧ id ≠ uuid_Nil ∧ id ∉ seen.
Proof.
  revert seen. induction values as [|v values IH]; intros seen; simpl; [set_solver|].
  destruct (bool_decide (v = uuid_Nil)) eqn:Hv; bool_prop; [rewrite IH; set_solver|].
  destruct (bool_decide (v ∈ seen)) eqn:Hs; bool_prop; [rewrite IH; set_solver|].
  rewrite elem_of_cons, IH. destruct (decide (id = v)); set_solver.
Qed.

Lemma uniqueIDs_once seen values : NoDup (uniqueIDs_loop seen values).
Proof.
  revert seen. induction values as [|v values IH]; intros seen; simpl; [constructor|].
  repeat case_match; try done. constructor; [|done]. rewrite uniqueIDs_spec. set_solver.
Qed.

(** Everyone a request for a conversation names: by id, or by the phone number of an account. *)
Definition named_members s (request : createConversationRequest) (phones : list string) : list UUID :=
  uniqueIDs (createConversation_MemberIDs request ++ (User_ID <$> UsersByPhones s phones)).

(** A conversation is opened with 201 only when the
    creator and each other person it names, by id or by phone number, had not blocked each
    other and that person was registered. A direct conversation has exactly one other member
    and no invitation. Everyone named becomes a member of the request to the store, and each
    number without an account is invited. *)
Theorem conversations_reach_only_allowed r body :
  replies (createConversation env r body) (on_status 201 (λ c resp,
    ∃ request phones before s0 s s' conversation newID clock invited,
      let userID := Identity_UserID (fst (identityFrom r)) in
      let members := named_members s0 request phones in
      body = Body request ∧ normalizePhones (createConversation_MemberPhones request) = Some phones ∧
      Access s0 s0 ∈ before ∧ c = before ++ [Access s s'] ∧ Response_Content resp = ConversationBody conversation ∧
      (∀ memberID, memberID ∈ members → memberID ≠ userID → reachable_during before userID memberID) ∧
      (createConversation_Kind request = "direct" → ∃ other, members = [other] ∧ other ≠ userID ∧ invited = []) ∧
      (∀ phone, phone ∈ invited ↔ phone ∈ phones ∧ phone ∉ User_Phone <$> UsersByPhones s0 phones) ∧
      CreateConversation s (mkCreateConversationParams (createConversation_ID request)
        (createConversation_Kind request) (TrimSpace (createConversation_Title request))
        (createConversation_Metadata request) userID members invited) newID clock = (s', Ok conversation))).
Proof.
  unfold createConversation. handler_run; try refused.
  eapply replies_bind; [apply replies_checkMembers| |].
  { intros c resp Hr. apply on_status_other. simpl in Hr. lia. }
  intros c u Hall. handler_run; [refused|]. apply on_status_done.
  eexists x, l, (Access s s :: c), s, s0, s', _, _, _, _. cbv zeta.
  split; [done|]. split; [done|]. split; [by left|]. split; [done|]. split; [done|].
  split; [|split; [|split]]; simpl; [| | |subst; eassumption].
  - intros memberID Hin Hne. eapply reachable_during_incl; [by apply (Hall memberID)|]. by apply list_subseteq_cons.
  - intros Hd. rewrite Hd in *. simpl in *. bool_prop. fold (named_members s x l) in *.
    destruct (named_members s x l) as [|other [|]]; try done. exists other.
    split; [done|]. split; [by intros ->|]. by apply length_zero_iff_nil.
  - intros phone. by rewrite elem_of_bool_filter, negb_true_iff, bool_decide_eq_false.
Qed.
End opening.

(** ** Finding people *)
Section lookups.
Context `{GoRuntime}.

(** What an entry shows: the public fields of an account that was found and, of an account
    found by its number, that number. *)
Definition discloses (byPhone byUsername : list User) (p : PublicUser) : Prop :=
  ∃ u, u ∈ byPhone ++ byUsername ∧
    p <| PublicUser_MatchedPhone := "" |> = PublicUserFromUser u false ∧
    (PublicUser_MatchedPhone p = "" ∨
     ∃ v, v ∈ byPhone ∧ User_ID v = PublicUser_ID p ∧ PublicUser_MatchedPhone p = User_Phone v).

(** The entries of [appendUser] so far, with the map of their positions. *)
Record appended (byPhone byUsername : list User) (acc : list PublicUser * gmap UUID nat) : Prop := {
  appended_shows : Forall (discloses byPhone byUsername) acc.1;
  appended_index : ∀ id i, acc.2 !! id = Some i ↔ (PublicUser_ID <$> acc.1) !! i = Some id }.

Lemma appendUser_step byPhone byUsername includePhone acc u :
  appended byPhone byUsername acc → u ∈ byPhone ++ byUsername → (includePhone = true → u ∈ byPhone) →
  appended byPhone byUsername (appendUser includePhone acc u) ∧
  ∀ id, id ∈ PublicUser_ID <$> (appendUser includePhone acc u).1 ↔
    id = User_ID u ∨ id ∈ PublicUser_ID <$> acc.1.
Proof.
  destruct acc as [l seen]. intros [Hshow Hidx] Hin Hphone. cbn in Hshow, Hidx. unfold appendUser.
  destruct (seen !! User_ID u) as [i|] eqn:Hseen.
  - assert (User_ID u ∈ PublicUser_ID <$> l) as Hold by (eapply list_elem_of_lookup_2, Hidx, Hseen).
    destruct includePhone; [|split; [by split|naive_solver]].
    assert (∀ f : PublicUser → PublicUser, (∀ p, PublicUser_ID (f p) = PublicUser_ID p) →
      PublicUser_ID <$> alter f i l = PublicUser_ID <$> l) as Hids.
    { intros f Hf. apply list_eq. intros j. rewrite !list_lookup_fmap. destruct (decide (j = i)) as [->|Hj].
      - rewrite list_lookup_alter_eq. destruct (l !! i); simpl; [|done]. by rewrite Hf.
      - by rewrite list_lookup_alter_ne. }
    split; [split|]; cbn.
    + apply Forall_alter; [done|]. intros p Hp (v & Hv & Heq & _). exists v. split; [done|]. split; [by destruct p|].
      right. exists u. split; [by apply Hphone|]. split; [|by destruct p].
      apply Hidx in Hseen. rewrite list_lookup_fmap, Hp in Hseen. simpl in Hseen. destruct p. cbn in *. congruence.
    + by rewrite Hids.
    + rewrite Hids by done. naive_solver.
  - assert (User_ID u ∉ PublicUser_ID <$> l) as Hnew.
    { intros [j Hj]%list_elem_of_lookup_1. apply Hidx in Hj. congruence. }
    split; [split|]; cbn.
    + apply Forall_app. split; [done|]. constructor; [|constructor]. exists u. split; [done|]. split; [done|].
      destruct includePhone; [right; exists u; auto|by left].
    + intros id i. rewrite fmap_app, lookup_app_Some, length_fmap, <- Hidx. simpl.
      destruct (decide (id = User_ID u)) as [->|Hne].
      * rewrite lookup_insert_eq, Hseen. split; [intros [= <-]; right; by rewrite Nat.sub_diag|].
        intros [?|[? Hi]]; [done|]. apply list_lookup_singleton_Some in Hi as [? _]. f_equal. lia.
      * rewrite lookup_insert_ne by done. split; [auto|]. intros [?|[? Hi]]; [done|].
        by apply list_lookup_singleton_Some in Hi as [_ ?].
    + intros id. rewrite fmap_app, elem_of_app. simpl. set_solver.
Qed.

Lemma appendUser_fold byPhone byUsername includePhone users acc :
  appended byPhone byUsername acc → users ⊆ byPhone ++ byUsername → (includePhone = true → users ⊆ byPhone) →
  appended byPhone byUsername (foldl (appendUser includePhone) acc users) ∧
  ∀ id, id ∈ PublicUser_ID <$> (foldl (appendUser includePhone) acc users).1 ↔
    id ∈ User_ID <$> users ∨ id ∈ PublicUser_ID <$> acc.1.
Proof.
  revert acc. induction users as [|u users IH]; intros acc Hacc Hin Hphone; cbn [foldl]; [set_solver|].
  destruct (appendUser_step byPhone byUsername includePhone acc u) as [Hacc' Hids]; [done|set_solver|set_solver|].
  destruct (IH _ Hacc') as [Hacc'' Hids']; [set_solver|set_solver|]. split; [done|].
  intros id. rewrite Hids', Hids. set_solver.
Qed.

Lemma appended_once byPhone byUsername acc : appended byPhone byUsername acc → NoDup (PublicUser_ID <$> acc.1).
Proof.
  intros [_ Hidx]. apply NoDup_alt. intros i j id Hi%Hidx Hj%Hidx. congruence.
Qed.

Lemma users_by_index_sound s attr index seen keys u :
  account_inv s → index_of (Store_users s) attr index → u ∈ users_by_index s index seen keys →
  "" ∉ keys → attr u ∈ keys ∧ Store_users s !! User_ID u = Some u.
Proof.
  intros Hs Hi. revert seen. induction keys as [|key keys IH]; intros seen Hu Hne; simpl in *; [by apply not_elem_of_nil in Hu|].
  destruct (index !! key) as [id|] eqn:Hk; [|destruct (IH _ Hu); set_solver].
  destruct (bool_decide (id ∈ seen)); [destruct (IH _ Hu); set_solver|].
  apply elem_of_cons in Hu as [->|Hu]; [|destruct (IH _ Hu); set_solver].
  apply Hi in Hk as (v & Hv & Ha); [|set_solver]. unfold user_or_zero. rewrite Hv. simpl.
  rewrite (ai_ids s Hs id v Hv). split; [rewrite Ha; by left|done].
Qed.

Lemma normalizePhones_numbers seen values phones :
  normalizePhones_loop seen values = Some phones →
  ∀ phone, phone ∈ phones → e164 phone = true ∧ phone ∈ TrimSpace <$> values.
Proof.
  revert seen phones. induction values as [|v values IH]; intros seen phones Hp phone Hin; simpl in *.
  { injection Hp as <-. by apply not_elem_of_nil in Hin. }
  destruct (e164 (TrimSpace v)) eqn:Hv; [|done]. simpl in Hp. destruct (bool_decide _).
  - destruct (IH _ _ Hp _ Hin). split; [done|by right].
  - destruct (normalizePhones_loop _ values) as [rest|] eqn:Hr; [|done]. simpl in Hp. injection Hp as <-.
    apply elem_of_cons in Hin as [->|Hin]; [split; [done|by left]|].
    destruct (IH _ _ Hr _ Hin). split; [done|by right].
Qed.

(** Each account found once, showing what it may, and of the numbers only those asked for. *)
Definition exact_disclosure (c : list Effect) (request : lookupUsersRequest) (byPhone byUsername : list User)
    (users : list PublicUser) : Prop :=
  NoDup (PublicUser_ID <$> users) ∧ Forall (discloses byPhone byUsername) users ∧
  (∀ id, id ∈ PublicUser_ID <$> users ↔ id ∈ User_ID <$> byPhone ++ byUsername) ∧
  ((∀ s, Access s s ∈ c → account_inv s) → ∀ p, p ∈ users → PublicUser_MatchedPhone p ≠ "" →
     PublicUser_MatchedPhone p ∈ TrimSpace <$> lookupUsers_Phones request).

Definition by_phone (c : list Effect) (request : lookupUsersRequest) (byPhone : list User) : Prop :=
  byPhone = [] ∨ ∃ s phones, Access s s ∈ c ∧ byPhone = UsersByPhones s phones ∧
    normalizePhones (lookupUsers_Phones request) = Some phones.

Definition by_username (c : list Effect) (request : lookupUsersRequest) (byUsername : list User) : Prop :=
  byUsername = [] ∨ ∃ s, Access s s ∈ c ∧ byUsername = UsersByUsernames s (lookupUsers_Usernames request).

Lemma found_exactly c request byPhone byUsername :
  by_phone c request byPhone →
  exact_disclosure c request byPhone byUsername
    (foldl (appendUser false) (foldl (appendUser true) ([], ∅) byPhone) byUsername).1.
Proof.
  intros Hphone.
  destruct (appendUser_fold byPhone byUsername true byPhone ([], ∅)) as [Ha Hids].
  { split; [constructor|]. intros id i. simpl. by rewrite lookup_empty, lookup_nil. }
  { set_solver. } { done. }
  destruct (appendUser_fold byPhone byUsername false byUsername _ Ha) as [Ha' Hids']; [set_solver|done|].
  split; [by eapply appended_once|]. split; [apply Ha'|]. split.
  { intros id. rewrite Hids', Hids. simpl. set_solver. }
  intros Hinv p Hp Hne. pose proof (proj1 (Forall_forall _ _) (appended_shows _ _ _ Ha') p Hp) as Hd.
  destruct Hd as (_ & _ & _ & [?|(v & Hv & _ & ->)]); [done|].
  destruct Hphone as [->|(s & phones & Hs & -> & Hn)]; [by apply not_elem_of_nil in Hv|].
  pose proof (normalizePhones_numbers _ _ _ Hn) as Hnumbers.
  destruct (users_by_index_sound s User_Phone (Store_phoneToUser s) ∅ phones v) as [Hin _];
    [by apply Hinv|by apply ai_phone, Hinv|done| |by apply Hnumbers].
  intros Hempty. by apply Hnumbers in Hempty as [? _].
Qed.

Context `{WireFormat, TimeText, JSONText} (env : Env).

(** A lookup shows an account at most once, and all the
    accounts the numbers and the names lead to and no others; of each only its public profile.
    A phone number is shown only with an account found by number, and as long as the accounts
    are consistent only a number the request itself carried. *)
Theorem lookups_disclose_only_asked body :
  replies (lookupUsers env body) (on_status 200 (λ c resp,
    ∃ request users byPhone byUsername, body = Body request ∧ Response_Content resp = UsersBody users ∧
      by_phone c request byPhone ∧ by_username c request byUsername ∧
      exact_disclosure c request byPhone byUsername users)).
Proof.
  unfold lookupUsers. handler_run; try refused.
  all: apply on_status_done; match goal with
    |- context [UsersBody (foldl _ (foldl _ _ ?byPhone) ?byUsername).1] => eexists _, _, byPhone, byUsername end.
  all: (split; [done|]); (split; [done|]); match goal with
    |- by_phone ?c ?request ?byPhone ∧ _ => assert (by_phone c request byPhone) as Hp end;
    [|split; [exact Hp|split; [|by apply found_exactly]]].
  all: first [by left | right; eexists; first [split; [|reflexivity] | eexists; split; [|by split]]].
  all: first [by left | by right; left].
Qed.
End lookups.

(** ** Invitation links *)
Section invites.
Context `{GoRuntime, TokenLibrary, WireFormat, TimeText, JSONText}.

(** The tokens of links are the canonical encodings of 32 bytes. *)
Lemma conversationInviteTokenHash_spec token hash :
  conversationInviteTokenHash token = Some hash ↔
  ∃ secret, String.length secret = conversationInviteTokenBytes ∧
    token = conversationInviteTokenPrefix +:+ EncodeToString RawURLEncoding secret ∧ hash = sha256 token.
Proof.
  unfold conversationInviteTokenHash. split.
  - destruct (HasPrefix _ _) eqn:Hp; [|done]. apply HasPrefix_spec in Hp as [encoded ->].
    rewrite TrimPrefix_app. cbn [negb]. destruct (DecodeString _ _) as [secret|]; [|done].
    destruct (_ || _) eqn:Hbad; [done|]. intros [= <-]. bool_prop. exists secret.
    split; [done|]. split; [|done]. by f_equal.
  - intros (secret & Hlen & -> & ->). rewrite HasPrefix_app, TrimPrefix_app, DecodeString_EncodeToString.
    by rewrite !bool_decide_true.
Qed.

Context (env : Env) (Hrandom : random_full env).

(** The link of this token was created in one access. *)
Definition link_created s s' (conversationID actorID : UUID) (token : string) (invite : ConversationInvite) : Prop :=
  conversationInviteTokenHash token = Some (sha256 token) ∧
  privileged (member s conversationID actorID) = true ∧
  Store_inviteLinks s !! sha256 token = None ∧
  s' = s <| Store_inviteLinks ::= <[sha256 token := invite]> |>
         <| Store_inviteLinkKeys ::= <[ConversationInvite_ID invite := sha256 token]> |> ∧
  ConversationInvite_ConversationID invite = conversationID ∧ ConversationInvite_CreatedBy invite = actorID ∧
  ConversationInvite_Uses invite = 0%Z ∧ (1 ≤ ConversationInvite_MaxUses invite ≤ 1000)%Z.

Lemma CreateConversationInvite_link s s' conversationID actorID token expiresAt maxUses newID clock invite :
  conversationInviteTokenHash token = Some (sha256 token) →
  CreateConversationInvite s (mkCreateConversationInviteParams uuid_Nil conversationID actorID
    (sha256 token) expiresAt maxUses) newID clock = (s', Ok invite) →
  link_created s s' conversationID actorID token invite.
Proof.
  unfold CreateConversationInvite. intros Ht Hc. cbn in Hc.
  destruct (_ || _) eqn:Hbad in Hc; [done|]. destruct (Store_conversations s !! _); [|done].
  destruct (privileged _) eqn:Hp; [|done]. destruct (bool_decide _); [|done]. cbn in Hc.
  destruct (bool_decide _) eqn:Hl in Hc; [done|]. destruct (bool_decide _) in Hc; [done|].
  injection Hc as <- <-. bool_prop. split_and!; try done.
  by apply eq_None_not_Some.
Qed.

Lemma replies_createInvite fuel conversationID actorID expiresIn maxUses err :
  replies (createInvite_attempts env fuel conversationID actorID expiresIn maxUses err) (λ c o,
    match o with
    | Done r => (400 ≤ Response_Status r)%Z
    | Next (token, invite) => ∃ before s s', c = before ++ [Access s s'] ∧
        link_created s s' conversationID actorID token invite
    end).
Proof.
  revert err. induction fuel as [|fuel IH]; intros err; cbn [createInvite_attempts].
  { handler_step. apply domain_error_status. }
  apply replies_ask_bind. intros n. unfold generateConversationInviteToken.
  destruct (Env_random env n _) as [secret|] eqn:Hsecret; cbn [mbind option_bind]; [|by handler_step].
  apply Hrandom in Hsecret.
  set (token := conversationInviteTokenPrefix +:+ EncodeToString RawURLEncoding secret).
  assert (conversationInviteTokenHash token = Some (sha256 token)) as Ht
    by (apply conversationInviteTokenHash_spec; eauto).
  rewrite Ht. handler_run; try apply domain_error_status.
  - exists [], s, s'. split; [done|]. by eapply CreateConversationInvite_link.
  - eapply replies_weaken; [apply IH|]. intros c [r|[token' invite]]; [done|].
    intros (before & t & t' & -> & Hl). by exists (Access s s' :: before), t, t'.
Qed.

(** A link is handed out with 201 only by a member who may invite. Its
    token is fresh, the store keeps nothing of it but its hash, and presenting the token leads
    the preview and the acceptance back to exactly the invitation that was created. *)
Theorem invite_links_open r body :
  replies (createConversationInvite env r body) (on_status 201 (λ c resp,
    ∃ id conversationID token invite before s s', identityFrom r = (id, true) ∧
      c = before ++ [Access s s'] ∧ Response_Content resp = InviteBody token invite ∧
      link_created s s' conversationID (Identity_UserID id) token invite ∧
      conversationInviteTokenFromBody (Body token) = mret (sha256 token) ∧
      Store_inviteLinks s' !! sha256 token = Some invite)).
Proof.
  unfold createConversationInvite, requestConversation, pathID. handler_run; try refused.
  all: eapply replies_bind; [apply replies_createInvite| |].
  all: try (intros c resp Hr; apply on_status_other; simpl in Hr; lia).
  all: intros c [token invite] (before & s & s' & -> & Hl); handler_step; apply on_status_done; simplify_eq.
  all: rewrite app_nil_r; eexists _, _, _, _, _, _, _; do 3 (split; [done|]); split; [exact Hl|].
  all: destruct Hl as (Ht & _ & _ & -> & _); split; [|by cbn; rewrite lookup_insert_eq].
  all: transitivity (match conversationInviteTokenHash token with
    Some hash => mret hash | None => respond (writeDomainError ErrNotFound) end : H string); [done|by rewrite Ht].
Qed.
End invites.

(** ** Concrete runs *)
Section witnesses.
#[local] Existing Instance Reference.runtime.
#[local] Existing Instance ReferenceTokens.library.
#[local] Existing Instance ReferenceHttp.wire.
#[local] Existing Instance ReferenceHttp.time_text.
#[local] Existing Instance ReferenceHttp.json_text.

Definition sample_group : Store :=
  New <| Store_conversations := {[uuid_of_N 5 :=
           mkConversation (uuid_of_N 5) "group" "Team" "" RawNil (uuid_of_N 1) 0 0 0]} |>
      <| Store_members := {[uuid_of_N 5 := {[uuid_of_N 1 :=
           mkConversationMember (uuid_of_N 5) (uuid_of_N 1) "owner" 0 None "" "" "" "" ""]}]} |>.
Definition sample_invite_request : Request :=
  ReferenceHttp.request [] [] [("conversationID", uuid_String (uuid_of_N 5))]
    (Some (mkIdentity (uuid_of_N 1) (uuid_of_N 2) (uuid_of_N 3))).

Lemma invite_links_open_witness :
  random_full ReferenceHttp.env ∧
  ReferenceHttp.status (snd (ReferenceHttp.run
    (createConversationInvite ReferenceHttp.env sample_invite_request BadJSON) sample_group)) = 201%Z ∧
  replies (createConversationInvite ReferenceHttp.env sample_invite_request BadJSON) (on_status 201 (λ c resp,
    ∃ token invite s, Response_Content resp = InviteBody token invite ∧
      Store_inviteLinks s !! sha256 token = Some invite)).
Proof.
  split; [exact random_full_env|]. split; [vm_compute; reflexivity|].
  eapply replies_weaken; [exact (invite_links_open ReferenceHttp.env random_full_env sample_invite_request BadJSON)|].
  intros c o (r & -> & Hr). exists r. split; [reflexivity|]. intros H201.
  destruct (Hr H201) as (id & cid & token & invite & before & s & s' & _ & _ & Hb & _ & _ & Hs).
  exists token, invite, s'. split; [exact Hb|exact Hs].
Defined.
End witnesses.
