(* ===== verification/HttpMediaFacts.v ===== *)
(** * What completing an upload guarantees

    About [HttpMedia]: the handler turns an object ready only after the media service has
    verified and published exactly the object that was claimed. *)

From Stdlib Require Import ZArith Lia Ascii.
From S2P Require Import Prelude.
From S2P Require Import Runtime.
From S2P Require Import GoText.
From S2P Require Import Domain.
From S2P Require Import MediaKey.
From S2P Require Import StoreState.
From S2P Require Import AuthTokens.
From S2P Require Import Media.
From S2P Require Import MediaLifecycle.
From S2P Require Import Threads.
From S2P Require Import Http.
From S2P Require Import Middleware.
From S2P Require Import HttpAuth.
From S2P Require Import HttpConversations.
From S2P Require Import HttpMedia.

Section media.
Context `{GoRuntime}.
Implicit Types (s : Store) (m v : MediaObject).

(** The object is ready after the access and was not before. *)
Definition newly_ready s s' id m : Prop :=
  Store_media s' !! id = Some m ∧ MediaObject_Status m = "ready" ∧
  ∀ v, Store_media s !! id = Some v → MediaObject_Status v ≠ "ready".

Definition none_ready s s' : Prop := ∀ id m, ¬ newly_ready s s' id m.

Lemma none_ready_same s s' : Store_media s' = Store_media s → none_ready s s'.
Proof. intros Hm id m (Hrow & Hr & Hn). rewrite Hm in Hrow. by apply (Hn m). Qed.

Lemma none_ready_write s s' id w :
  Store_media s' = <[id := w]> (Store_media s) → MediaObject_Status w ≠ "ready" → none_ready s s'.
Proof.
  intros Hm Hw id' m (Hrow & Hr & Hn). rewrite Hm in Hrow.
  destruct (decide (id' = id)) as [->|Hne]; [rewrite lookup_insert_eq in Hrow; congruence|].
  rewrite lookup_insert_ne in Hrow by done. by apply (Hn m).
Qed.

Lemma claim_none_ready s id actorID duration token clock s' r :
  ClaimMediaVerification s id actorID duration token clock = (s', r) → none_ready s s'.
Proof.
  unfold ClaimMediaVerification. intros Hc. op_cases Hc; try by apply none_ready_same.
  eapply none_ready_write; [reflexivity|]. cbn. bool_prop. congruence.
Qed.

Lemma release_none_ready s id actorID token clock s' r :
  ReleaseMediaVerification s id actorID token clock = (s', r) → none_ready s s'.
Proof.
  unfold ReleaseMediaVerification. intros Hc. op_cases Hc; try by apply none_ready_same.
  eapply none_ready_write; [reflexivity|]. cbn. bool_prop. congruence.
Qed.

Lemma reject_none_ready s id actorID token clock s' r :
  rejectPendingMedia s id actorID token clock = (s', r) → none_ready s s'.
Proof.
  unfold rejectPendingMedia. intros Hc. op_cases Hc; try by apply none_ready_same.
  eapply (none_ready_write _ _ id (deletedMedia _ _)); [|done]. by rewrite appendMediaDeletesAt_media.
Qed.

Lemma ready_ok s id actorID token key clock s' m :
  MarkMediaReady s id actorID token key clock = (s', Ok m) → MediaObject_Status m = "ready".
Proof. unfold MarkMediaReady. intros Hc. by op_cases Hc. Qed.

(** Publishing makes ready the one object, under the published key. *)
Lemma ready_newly s id0 actorID token key clock s' r id m :
  MarkMediaReady s id0 actorID token key clock = (s', r) → newly_ready s s' id m →
  id = id0 ∧ MediaObject_ObjectKey m = key.
Proof.
  assert (∀ s1 s2 v', Store_media s1 = <[id0 := v']> (Store_media s) → MediaObject_ObjectKey v' = key →
    (Store_media s2 = Store_media s1 ∨
     ∃ oldID old t, Store_media s2 = <[oldID := deletedMedia old t]> (Store_media s1)) →
    newly_ready s s2 id m → id = id0 ∧ MediaObject_ObjectKey m = key) as Hrows.
  { intros s1 s2 v' Hm Hkey Hs2 (Hrow & Hr & Hn).
    assert (Store_media s1 !! id = Some m) as Hrow1.
    { destruct Hs2 as [Hs2|(oldID & old & t & Hs2)]; rewrite Hs2 in Hrow; [done|].
      destruct (decide (id = oldID)) as [->|Hne]; [rewrite lookup_insert_eq in Hrow; by simplify_eq|].
      by rewrite lookup_insert_ne in Hrow. }
    rewrite Hm in Hrow1. destruct (decide (id = id0)) as [->|Hne].
    - rewrite lookup_insert_eq in Hrow1. by simplify_eq.
    - rewrite lookup_insert_ne in Hrow1 by done. by destruct (Hn m). }
  unfold MarkMediaReady. intros Hc Hnew. assert (∀ P : Prop, Store_media s' = Store_media s → P) as Hsame.
  { intros P Hm. by destruct (none_ready_same _ _ Hm id m). }
  destruct (Validate key); [by simplify_eq; apply Hsame|].
  destruct (ownedMedia s id0 actorID) as [v|]; [|by simplify_eq; apply Hsame].
  destruct (bool_decide _); [by simplify_eq; apply Hsame|]. destruct (_ || _); [by simplify_eq; apply Hsame|].
  destruct (mediaExpired _ _); [by simplify_eq; apply Hsame|]. cbv zeta in Hc.
  apply pair_equal_spec in Hc as [Hc _].
  match type of Hc with context [<[id0 := ?w]>] => set (v' := w) in Hc end.
  match type of Hc with (if _ then replaceProfilePicture ?x _ _ _ else _) = _ => set (s1 := x) in Hc end.
  assert (Store_media s1 = <[id0 := v']> (Store_media s)) as Hm.
  { unfold s1. destruct (negb _); [by rewrite appendExactMediaDeletesAt_media|done]. }
  eapply (Hrows s1 s' v'); [exact Hm|done| |exact Hnew].
  destruct (bool_decide _) in Hc; [|by left; rewrite Hc]. subst s'.
  destruct (replaceProfilePicture_rows s1 actorID v' (later 5 clock)) as [_ [?|(oldID & old & t & _ & _ & _ & ? & _)]];
    [by left|by right; eauto].
Qed.

(** ** The record of a request that completes an upload *)
Context `{TokenLibrary, WireFormat, TimeText} (env : Env) (server : Server) (service : MediaService).

(** Before this point the handler claimed the object [id], and the service verified what was
    claimed, its size, hash and type included, and published it under the key [m] now has. *)
Definition verified_before (before : list Effect) id m : Prop :=
  ∃ s s' v actorID duration token clock n capability,
    Access s s' ∈ before ∧ ClaimMediaVerification s id actorID duration token clock = (s', Ok v) ∧
    MediaObject_Status v = "pending" ∧ MediaObject_VerificationLeaseToken v = Some token ∧
    MediaCalled "FinalizeUpload" (MediaObject_ObjectKey v) (Some (MediaObject_ObjectKey m)) ∈ before ∧
    FinalizeUpload service n (MediaObject_ObjectKey v) capability (MediaObject_ByteSize v)
      (MediaObject_CiphertextSHA256 v) (MediaObject_ContentType v) = MediaOk (MediaObject_ObjectKey m).

(** Every access that turned an object ready came after its verification. *)
Fixpoint justified (before c : list Effect) : Prop :=
  match c with
  | [] => True
  | e :: c =>
    match e with
    | Access s s' => ∀ id m, newly_ready s s' id m → verified_before before id m
    | _ => True
    end ∧ justified (before ++ [e]) c
  end.

Lemma justified_quiet before c :
  Forall (λ e, match e with Access s s' => none_ready s s' | _ => True end) c → justified before c.
Proof.
  revert before. induction c as [|e c IH]; intros before; [done|]. intros [He Hc]%Forall_cons. split; [|by apply IH].
  destruct e; try done. intros id m Hn. by destruct (He id m).
Qed.

Ltac quiet_list :=
  repeat first
    [ apply Forall_nil; exact I
    | apply Forall_cons; split;
      [first [exact I | by apply none_ready_same | by eapply claim_none_ready | by eapply release_none_ready
             | by eapply reject_none_ready | by simplify_eq; apply none_ready_same]|] ].

Lemma claim_leased s id actorID duration token clock s' v :
  ClaimMediaVerification s id actorID duration token clock = (s', Ok v) →
  MediaObject_Status v ≠ "ready" → MediaObject_Status v = "pending" ∧ MediaObject_VerificationLeaseToken v = Some token.
Proof. unfold ClaimMediaVerification. intros Hc Hr. op_cases Hc; [done|]. cbn in *. by bool_prop. Qed.

Lemma latest_ready s mediaID userID m :
  match Media_ s mediaID userID with
  | Ok latest => if bool_decide (MediaObject_Status latest = "ready") then Some latest else None
  | Err _ => None
  end = Some m → MediaObject_Status m = "ready".
Proof. destruct (Media_ s mediaID userID) as [latest|]; [|done]. case_bool_decide; [|done]. by intros [= <-]. Qed.

Lemma justified_app before c c' : justified before c → justified (before ++ c) c' → justified before (c ++ c').
Proof.
  revert before. induction c as [|e c IH]; intros before; simpl; [by rewrite app_nil_r|].
  intros [He Hc] Hc'. split; [done|]. apply IH; [done|]. by rewrite <- app_assoc.
Qed.

(** The access that publishes, after the claim and the verification. *)
Lemma justified_ready s s0 s1 s1' v id actorID duration token clock n capability key s2 s2' r token' clock' :
  ClaimMediaVerification s1 id actorID duration token clock = (s1', Ok v) → MediaObject_Status v ≠ "ready" →
  FinalizeUpload service n (MediaObject_ObjectKey v) capability (MediaObject_ByteSize v)
    (MediaObject_CiphertextSHA256 v) (MediaObject_ContentType v) = MediaOk key →
  MarkMediaReady s2 id actorID token' key clock' = (s2', r) →
  justified [] [Access s s; Access s0 s0; Access s1 s1';
    MediaCalled "FinalizeUpload" (MediaObject_ObjectKey v) (Some key); Access s2 s2'].
Proof.
  intros Hclaim Hnr Hf Hm. destruct (claim_leased _ _ _ _ _ _ _ _ Hclaim Hnr) as [Hp Hlease].
  apply (justified_app _ [_; _; _; _]).
  { apply justified_quiet. by quiet_list. }
  split; [|done]. intros id' m Hnew. destruct (ready_newly _ _ _ _ _ _ _ _ _ _ Hm Hnew) as [-> <-].
  eexists s1, s1', v, actorID, duration, token, clock, n, capability. split_and!; try done; set_solver.
Qed.

(** C15. Completing an upload: an object becomes ready only in an
    access after the handler claimed that object and the media service verified it against the
    size, the hash and the type it was declared with, and it becomes ready under the key the
    service published it under. An answer of 200 carries a ready object. *)
Theorem uploads_verified_before_ready r :
  replies (completeMediaUpload env server service r) (λ c o, ∃ resp, o = Done resp ∧ justified [] c ∧
    (Response_Status resp = 200%Z → ∃ m, Response_Content resp = MediaBody m ∧ MediaObject_Status m = "ready")).
Proof.
  unfold completeMediaUpload, claimLease, verificationFailed, publishVerified, latestReady, call_media,
    rejectReservation, RejectPendingMedia, RejectMediaVerification, pathID. handler_run.
  all: eexists; split; [reflexivity|]; split;
    [|first [by intros Hs; rewrite ?bool_decide_eq_true in * | by intros Hs; destruct e
            | intros _; eexists; split; [reflexivity|]; first [by bool_prop|by eapply ready_ok|by eapply latest_ready]]].
  all: first [apply justified_quiet; by quiet_list | apply (justified_app _ [_; _; _; _; _]);
    [eapply justified_ready; try eassumption; by simplify_eq; bool_prop | apply justified_quiet; by quiet_list]].
Qed.
End media.
