(* ===== verification/HttpIdentityFacts.v ===== *)
(** * What resets and the age check guarantee

    About [HttpResets] and [HttpIdentity]. *)

From Stdlib Require Import ZArith Lia Ascii.
From S2P Require Import Prelude.
From S2P Require Import Runtime.
From S2P Require Import GoText.
From S2P Require Import GoTime.
From S2P Require Import Domain.
From S2P Require Import StoreState.
From S2P Require Import AuthTokens.
From S2P Require Import Accounts.
From S2P Require Import Resets.
From S2P Require Import MailQueue.
From S2P Require Import Threads.
From S2P Require Import Http.
From S2P Require Import Middleware.
From S2P Require Import HttpAuth.
From S2P Require Import HttpIdentity.
From S2P Require Import HttpResets.
From S2P Require Import HttpReference.
From S2P Require Import HttpAuthFacts.

(** ** What the start endpoint reveals *)
Section silence.
Context `{GoRuntime, TokenLibrary, WireFormat, HMAC, !MailLibrary} (server : Server).

(** The same surroundings, but for what other requests do to the store. *)
Definition same_surroundings (env env' : Env) : Prop :=
  Env_newID env = Env_newID env' ∧ Env_randInt env = Env_randInt env' ∧ Env_allow env = Env_allow env'.

(** However it turns out, the challenge does not show. *)
Lemma recordChallenge_goes_on env challengeID email code :
  replies (recordChallenge env server challengeID email code) (λ _ o, o = Next tt).
Proof. unfold recordChallenge. by handler_run. Qed.

(** C19. The answer to the request for a reset code does not depend on the
    accounts: with the same surroundings it is the same whatever is in the store and whatever
    other requests do to it, so it does not tell whether an e-mail has an account. *)
Theorem reset_start_silent env env' body s s' l l' :
  same_surroundings env env' → Local_step l = Local_step l' →
  (startPasswordReset env server body s l).2 = (startPasswordReset env' server body s' l').2.
Proof.
  intros (Hid & Hint & Hallow) Hstep. unfold startPasswordReset, require, decodeJSON, allow, ask.
  destruct (resetEnabled _); [|done]. destruct body as [| |email]; [done..|].
  unfold mbind, mret, H_bind, H_ret, respond, record. cbn.
  destruct (validEmail _); [|done]. cbn. rewrite Hid, Hallow, Hint, Hstep.
  destruct (Env_allow env' _ _ _ _) as [[|]|]; [|done..]. cbn.
  destruct (Env_randInt env' _ _) as [drawn|]; [|done]. cbn.
  destruct (recordChallenge env _ _ _ _ _ _) as [[s1 l1] o1] eqn:Hr1.
  destruct (recordChallenge env' _ _ _ _ _ _) as [[s2 l2] o2] eqn:Hr2.
  apply recordChallenge_goes_on in Hr1 as (? & _ & ->). by apply recordChallenge_goes_on in Hr2 as (? & _ & ->).
Qed.
End silence.

(** ** Confirming a reset *)
Section confirm.
Context `{GoRuntime, TokenLibrary, WireFormat, HMAC, !MailLibrary} (env : Env) (server : Server).

(** A reset is confirmed with 204 only when, in the access that
    changes the password, the challenge was open, unexpired and within its attempts, and the
    stored code is the keyed hash of the submitted one for this challenge. The account then has
    a hash that verifies the submitted password, the reset has been applied to it as a whole,
    and the fence of its sessions has been released. *)
Theorem reset_confirm_needs_code body :
  replies (confirmPasswordReset env server body) (on_status 204 (λ c resp,
    ∃ request challengeID hash ch user delivery s s' now,
      let policy := Server_passwordReset server in
      body = Body request ∧ uuid_Parse (TrimSpace (resetConfirm_ChallengeID request)) = Some challengeID ∧
      c = [Access s s'; FenceReleased] ∧
      Store_passwordResets s !! challengeID = Some ch ∧ PasswordResetChallenge_ConsumedAt ch = None ∧
      PasswordResetChallenge_CodeHash ch = passwordResetCodeHash (PasswordResetPolicy_HMACSecret policy)
        challengeID (TrimSpace (resetConfirm_Code request)) ∧
      (now < PasswordResetChallenge_ExpiresAt ch)%Z ∧
      (PasswordResetChallenge_Attempts ch < PasswordResetPolicy_MaxAttempts policy)%Z ∧
      Store_users s !! PasswordResetChallenge_UserID ch = Some user ∧
      VerifyPassword hash (resetConfirm_NewPassword request) = true ∧
      s' = applyReset s challengeID user hash now delivery)).
Proof.
  unfold confirmPasswordReset, releaseSessionFence. handler_run; try refused.
  apply on_status_done. match goal with Hh : HashPassword _ ?r = Ok _ |- _ =>
    destruct r as [salt|]; [|by unfold HashPassword in Hh; destruct (_ || _)];
    apply (hash_verifies _ _ _ "") in Hh as (_ & _ & Hv) end.
  cbn [ConsumePasswordResetChallengeWithMailAndFence] in *. subst.
  match goal with Hc : consumePasswordResetChallenge _ _ _ _ _ _ _ _ = _ |- _ =>
    apply consume_ok in Hc as (ch & user & delivery & Hlk & Hopen & Hcode & Hexp & Hatt & Hu & _ & _ & Hs' & _) end.
  eexists _, _, _, ch, user, delivery, _, _, _. cbv zeta. by split_and!.
Qed.
End confirm.

(** ** The age check *)
Section age.
Context `{GoRuntime}.

Lemma apple_range lower upper :
  validAppleAgeRange lower upper = true →
  (lower = Some 18 ∧ upper = None)%Z ∨ (lower = None ∧ upper = Some 18)%Z.
Proof.
  unfold validAppleAgeRange, minimumAccountAge. intros Hr. repeat case_match; try done.
  all: by apply orb_true_iff in Hr as [Hr|Hr]; apply bool_decide_eq_true in Hr; [right|left].
Qed.

(** An accepted age check. From Apple it says adult for the range from 18 up
    and underage for the range up to 18, and no other range is accepted. From a date of birth it
    says adult exactly when the eighteenth birthday is today or past in the calendar; only on a
    29th of February whose year 18 years before has none, those born on the first of March 18
    years before count as adults, too. Dates in the future or more than 125 years back are not
    accepted. Being an adult holds for 365 days, being underage has no end. *)
Theorem age_gate_exact userID request now a y' m' d' :
  evaluateAgeAssurance userID request now = Ok a → civil now = (y', m', d') →
  let adult := AgeAssurance_Status a = "adult" in
  AgeAssurance_UserID a = userID ∧ AgeAssurance_CheckedAt a = now ∧
  (adult ∧ AgeAssurance_ExpiresAt a = Some (now + 365 * 24 * Hour)%Z ∨
   AgeAssurance_Status a = "underage" ∧ AgeAssurance_ExpiresAt a = None) ∧
  ((AgeAssurance_Source a = "apple_declared_age_range" ∧
    (adult ∧ ageAssurance_LowerBound request = Some 18%Z ∧ ageAssurance_UpperBound request = None ∨
     ¬ adult ∧ ageAssurance_LowerBound request = None ∧ ageAssurance_UpperBound request = Some 18%Z)) ∨
   (AgeAssurance_Source a = "self_attested_date_of_birth" ∧
    ∃ y m d, valid_date y m d ∧ ParseDate (ageAssurance_DateOfBirth request) = Some (date y m d) ∧
      (AddDate now (-125) ≤ date y m d ≤ now)%Z ∧
      (adult ↔ date_le (y, m, d) (y' - 18, m', d')%Z ∨
        (m' = 2 ∧ d' = 29 ∧ is_leap (y' - 18) = false ∧ y = y' - 18 ∧ m = 3 ∧ d = 1)%Z))).
Proof.
  unfold evaluateAgeAssurance. intros He Hc. destruct (bool_decide (userID = uuid_Nil)); [done|]. cbv zeta in He.
  assert (∀ b, ageStatus b = "adult" ↔ b = true) as Hst by (by intros []).
  destruct (bool_decide (TrimSpace _ = "apple_declared_age_range")) eqn:Ha.
  - destruct (_ || _) eqn:Hbad; [done|]. injection He as <-. cbn. bool_prop.
    match goal with Hr : validAppleAgeRange _ _ = true |- _ => apply apple_range in Hr as [[-> ->]|[-> ->]] end; cbn.
    + split_and!; try done; [by left|]. left. split; [done|]. by left.
    + split_and!; try done; [by right|]. left. split; [done|]. by right.
  - destruct (bool_decide (TrimSpace _ = "self_attested_date_of_birth")) eqn:Hs; [|done]. destruct (_ || _) in He; [done|].
    destruct (ParseDate _) as [birth|] eqn:Hp; [|done]. destruct (_ || _) eqn:Hrange in He; [done|].
    injection He as <-. bool_prop.
    cbn [AgeAssurance_UserID AgeAssurance_CheckedAt AgeAssurance_Status AgeAssurance_ExpiresAt AgeAssurance_Source].
    destruct (ParseDate_valid _ _ Hp) as (y & m & d & Hv & ->).
    pose proof (AddDate_order y m d now (-18) y' m' d' Hv Hc) as Horder.
    replace (y' + -18)%Z with (y' - 18)%Z in Horder by lia.
    unfold minimumAccountAge. change (- (18))%Z with (-18)%Z.
    assert (∀ b, (b = true ↔ (date y m d ≤ AddDate now (-18))%Z) →
      (ageStatus b = "adult" ∧ (if b then Some (now + ageAssuranceLifetime)%Z else None) = Some (now + 365 * 24 * Hour)%Z ∨
       ageStatus b = "underage" ∧ (if b then Some (now + ageAssuranceLifetime)%Z else None) = None) ∧
      (ageStatus b = "adult" ↔ (date y m d ≤ AddDate now (-18))%Z)) as Hb.
    { intros b Hb. split; [destruct b; [by left|by right]|]. by rewrite Hst. }
    destruct (Hb (negb (After (date y m d) (AddDate now (-18))))) as [Hend Hiff].
    { by rewrite negb_true_iff, After_false. }
    split; [done|]. split; [done|]. split; [exact Hend|]. right. split; [exact Hs|]. exists y, m, d.
    split; [exact Hv|]. split; [reflexivity|]. split; [by split|]. exact (iff_trans Hiff Horder).
Qed.
End age.

(** ** Concrete runs *)
Section witnesses.
#[local] Existing Instance Reference.runtime.
#[local] Existing Instance ReferenceMail.library.
#[local] Existing Instance ReferenceTokens.library.
#[local] Existing Instance ReferenceHttp.wire.
#[local] Existing Instance ReferenceHttp.hmac.

(** The same request before and after someone registers with that e-mail. *)
Lemma reset_start_silent_witness :
  same_surroundings ReferenceHttp.env ReferenceHttp.env ∧
  ReferenceHttp.status (startPasswordReset ReferenceHttp.env ReferenceHttp.server (Body "ada@clixor.test")
    New (mkLocal 0 [])).2 = 202%Z ∧
  (startPasswordReset ReferenceHttp.env ReferenceHttp.server (Body "ada@clixor.test") New (mkLocal 0 [])).2
  = (startPasswordReset ReferenceHttp.env ReferenceHttp.server (Body "ada@clixor.test") signed_store (mkLocal 0 [])).2.
Proof.
  split; [repeat split|]. split; [vm_compute; reflexivity|].
  apply reset_start_silent; [repeat split|reflexivity].
Defined.

(** On the 29th of February 2028: born on the first of March 2010, and one day later. *)
Definition leap_day : Z := date 2028 2 29.
Definition born (dateOfBirth : string) : ageAssuranceRequest :=
  mkageAssuranceRequest "self_attested_date_of_birth" None None "self_declared" dateOfBirth.

Lemma age_gate_exact_witness :
  match evaluateAgeAssurance (uuid_of_N 1) (born "2010-03-01") leap_day,
        evaluateAgeAssurance (uuid_of_N 1) (born "2010-03-02") leap_day with
  | Ok a, Ok b => AgeAssurance_Status a = "adult" ∧ AgeAssurance_Status b = "underage" ∧
      AgeAssurance_ExpiresAt a = Some (leap_day + 365 * 24 * Hour)%Z
  | _, _ => False
  end.
Proof.
  destruct (evaluateAgeAssurance (uuid_of_N 1) (born "2010-03-01") leap_day) as [a|e] eqn:Ha;
    [|vm_compute in Ha; discriminate Ha].
  destruct (evaluateAgeAssurance (uuid_of_N 1) (born "2010-03-02") leap_day) as [b|e] eqn:Hb;
    [|vm_compute in Hb; discriminate Hb].
  destruct (age_gate_exact (uuid_of_N 1) (born "2010-03-01") leap_day a 2028 2 29 Ha eq_refl)
    as (_ & _ & Hend & _).
  vm_compute in Ha. injection Ha as <-. vm_compute in Hb. injection Hb as <-.
  split; [reflexivity|]. split; [reflexivity|].
  destruct Hend as [[_ Hend]|[Hend _]]; [exact Hend|discriminate Hend].
Defined.
End witnesses.
