(* ===== verification/Router.v ===== *)
(** * The routes of the server

    [Router], [requestTimeoutByRoute] and the health endpoints of
    [src/internal/httpapi/server.go]: every endpoint under [/v1] with its path, the middleware
    in front of it, and its handler.

    An [Endpoint] carries the decoded body of the request, so that [serve] is what the server
    does with a request of that route.  Left out: the static pages, the link files, the metrics
    page, the webhook of the SMS provider, and the WebSocket of [/v1/realtime] (see
    [SessionCache] and [Realtime]). *)

From Stdlib Require Import ZArith Lia Ascii.
From S2P Require Import Prelude.
From S2P Require Import Runtime.
From S2P Require Import GoText.
From S2P Require Import GoTime.
From S2P Require Import Domain.
From S2P Require Import Compliance.
From S2P Require Import StoreState.
From S2P Require Import AuthTokens.
From S2P Require Import Accounts.
From S2P Require Import Devices.
From S2P Require Import Anonymize.
From S2P Require Import Conversations.
From S2P Require Import MailQueue.
From S2P Require Import Verification.
From S2P Require Import Http.
From S2P Require Import Middleware.
From S2P Require Import HttpAuth.
From S2P Require Import HttpConversations.
From S2P Require Import HttpMedia.
From S2P Require Import HttpIdentity.
From S2P Require Import HttpResets.
From S2P Require Import HttpCompliance.

Inductive Endpoint :=
  | GetLegalPolicy
  | SubmitSupportCase (body : Decoded supportCaseRequest)
  | SupportCaseStatus
  | ExecuteAccountDeletion (body : Decoded string)
  | Register (body : Decoded credentialsRequest)
  | Login (body : Decoded credentialsRequest)
  | StartPasswordReset (body : Decoded string)
  | ConfirmPasswordReset (body : Decoded passwordResetConfirmRequest)
  | RefreshTokens (body : Decoded string)
  | StartPhone (body : Decoded phoneAuthRequest)
  | VerifyPhone (body : Decoded phoneAuthRequest)
  | VerifyApple (body : Decoded appleRequest)
  | Logout
  | Me
  | ListBlocks
  | SetBlock
  | GetLegalAcceptance
  | AcceptLegalPolicy (body : Decoded acceptLegalPolicyRequest)
  | DeleteAccount
  | PutAccountDeletion (body : Decoded string)
  | GetAge
  | PutAge (body : Decoded ageAssuranceRequest)
  | UpdateProfile (body : Decoded (gmap string JSON))
  | CreateProfileUpload (body : Decoded mediaUploadRequest)
  | StartPhoneLink (body : Decoded phoneAuthRequest)
  | VerifyPhoneLink (body : Decoded phoneAuthRequest)
  | LookupUsers (body : Decoded lookupUsersRequest)
  | SearchUsers
  | ListDevices
  | UpsertDevice (body : Decoded deviceRequest)
  | PutPreKeys (body : Decoded (list OneTimePreKey))
  | ClaimPreKey
  | GetPresence
  | ListConversations
  | CreateConversation (body : Decoded createConversationRequest)
  | GetConversation
  | UpdateConversation (body : Decoded UpdateConversationParams)
  | DeleteConversation
  | ListMembers
  | AddMember (body : Decoded addMemberRequest)
  | RemoveSelf
  | RemoveMember
  | TransferOwner (body : Decoded UUID)
  | CreateInvite (body : Decoded createInviteRequest)
  | RevokeInvite
  | ListMessages
  | CreateMessage (body : Decoded createMessageRequest)
  | ListReceipts
  | PutReceipt (body : Decoded putReceiptRequest)
  | CreateUpload (body : Decoded mediaUploadRequest)
  | ListEntities
  | PutEntity (body : Decoded RawMessage)
  | DeleteEntity
  | RotateChore (body : Decoded rotateChoreRequest)
  | PreviewInvite (body : Decoded string)
  | AcceptInvite (body : Decoded string)
  | CompleteUpload
  | Download
  | DeleteMedia.

(** Method and path. *)
Definition route (e : Endpoint) : string * string :=
  match e with
  | GetLegalPolicy => ("GET", "/v1/legal/policy")
  | SubmitSupportCase _ => ("PUT", "/v1/support/cases/{caseID}")
  | SupportCaseStatus => ("GET", "/v1/support/cases/{caseID}")
  | ExecuteAccountDeletion _ => ("POST", "/v1/account-deletions/{requestID}/execute")
  | Register _ => ("POST", "/v1/auth/register")
  | Login _ => ("POST", "/v1/auth/login")
  | StartPasswordReset _ => ("POST", "/v1/auth/password/reset/start")
  | ConfirmPasswordReset _ => ("POST", "/v1/auth/password/reset/confirm")
  | RefreshTokens _ => ("POST", "/v1/auth/refresh")
  | StartPhone _ => ("POST", "/v1/auth/phone/start")
  | VerifyPhone _ => ("POST", "/v1/auth/phone/verify")
  | VerifyApple _ => ("POST", "/v1/auth/apple")
  | Logout => ("POST", "/v1/auth/logout")
  | Me => ("GET", "/v1/me")
  | ListBlocks => ("GET", "/v1/me/blocks")
  | SetBlock => ("PUT or DELETE", "/v1/me/blocks/{userID}")
  | GetLegalAcceptance => ("GET", "/v1/me/legal-acceptance")
  | AcceptLegalPolicy _ => ("PUT", "/v1/me/legal-acceptance")
  | DeleteAccount => ("DELETE", "/v1/me")
  | PutAccountDeletion _ => ("PUT", "/v1/me/deletion-intents/{requestID}")
  | GetAge => ("GET", "/v1/me/age-assurance")
  | PutAge _ => ("PUT", "/v1/me/age-assurance")
  | UpdateProfile _ => ("PATCH", "/v1/me")
  | CreateProfileUpload _ => ("POST", "/v1/me/avatar")
  | StartPhoneLink _ => ("POST", "/v1/me/phone/start")
  | VerifyPhoneLink _ => ("POST", "/v1/me/phone/verify")
  | LookupUsers _ => ("POST", "/v1/users/lookup")
  | SearchUsers => ("GET", "/v1/users/search")
  | ListDevices => ("GET", "/v1/devices")
  | UpsertDevice _ => ("PUT", "/v1/devices/{deviceID}")
  | PutPreKeys _ => ("PUT", "/v1/devices/{deviceID}/prekeys")
  | ClaimPreKey => ("POST", "/v1/users/{userID}/prekeys:claim")
  | GetPresence => ("GET", "/v1/users/{userID}/presence")
  | ListConversations => ("GET", "/v1/conversations")
  | CreateConversation _ => ("POST", "/v1/conversations")
  | GetConversation => ("GET", "/v1/conversations/{conversationID}")
  | UpdateConversation _ => ("PATCH", "/v1/conversations/{conversationID}")
  | DeleteConversation => ("DELETE", "/v1/conversations/{conversationID}")
  | ListMembers => ("GET", "/v1/conversations/{conversationID}/members")
  | AddMember _ => ("POST", "/v1/conversations/{conversationID}/members")
  | RemoveSelf => ("DELETE", "/v1/conversations/{conversationID}/members/me")
  | RemoveMember => ("DELETE", "/v1/conversations/{conversationID}/members/{userID}")
  | TransferOwner _ => ("PUT", "/v1/conversations/{conversationID}/owner")
  | CreateInvite _ => ("POST", "/v1/conversations/{conversationID}/invites")
  | RevokeInvite => ("DELETE", "/v1/conversations/{conversationID}/invites/{inviteID}")
  | ListMessages => ("GET", "/v1/conversations/{conversationID}/messages")
  | CreateMessage _ => ("POST", "/v1/conversations/{conversationID}/messages")
  | ListReceipts => ("GET", "/v1/conversations/{conversationID}/receipts")
  | PutReceipt _ => ("PUT", "/v1/conversations/{conversationID}/receipt")
  | CreateUpload _ => ("POST", "/v1/conversations/{conversationID}/media")
  | ListEntities => ("GET", "/v1/conversations/{conversationID}/entities/{kind}")
  | PutEntity _ => ("PUT", "/v1/conversations/{conversationID}/entities/{kind}/{entityID}")
  | DeleteEntity => ("DELETE", "/v1/conversations/{conversationID}/entities/{kind}/{entityID}")
  | RotateChore _ => ("POST", "/v1/conversations/{conversationID}/chores/{choreID}/rotate")
  | PreviewInvite _ => ("POST", "/v1/invites/preview")
  | AcceptInvite _ => ("POST", "/v1/invites/accept")
  | CompleteUpload => ("POST", "/v1/media/{mediaID}/complete")
  | Download => ("GET", "/v1/media/{mediaID}/download")
  | DeleteMedia => ("DELETE", "/v1/media/{mediaID}")
  end.

(** ** Middleware *)

Record Limit := mkLimit { Limit_namespace : string; Limit_limit : Z; Limit_window : Z }.

(** What stands before a handler below the limit of the whole API: a limit by address that
    refuses when the limiter is down, or authentication and the limits by identity or user. *)
Inductive Gate :=
  | Open (limit : option Limit)
  | Signed (byIdentity : option Limit)
  | SignedByUser (byUser : Limit).

Definition gate (e : Endpoint) : Gate :=
  match e with
  | GetLegalPolicy => Open None
  | SubmitSupportCase _ => Open (Some (mkLimit "support-submit" 10 Hour))
  | SupportCaseStatus => Open (Some (mkLimit "support-status" 60 Hour))
  | ExecuteAccountDeletion _ => Open (Some (mkLimit "account-deletion-execute" 10 Hour))
  | Register _ => Open (Some (mkLimit "auth-register" 10 (5 * Minute)))
  | Login _ => Open (Some (mkLimit "auth-login" 20 (5 * Minute)))
  | StartPasswordReset _ => Open (Some (mkLimit "password-reset-start" 5 Hour))
  | ConfirmPasswordReset _ => Open (Some (mkLimit "password-reset-confirm" 15 (15 * Minute)))
  | RefreshTokens _ => Open (Some (mkLimit "auth-refresh" 60 (5 * Minute)))
  | StartPhone _ => Open (Some (mkLimit "auth-phone-start" 10 (5 * Minute)))
  | VerifyPhone _ => Open (Some (mkLimit "auth-phone-verify" 20 (5 * Minute)))
  | VerifyApple _ => Open (Some (mkLimit "auth-apple" 20 (5 * Minute)))
  | SetBlock => Signed (Some (mkLimit "user-block" 60 Hour))
  | AcceptLegalPolicy _ => Signed (Some (mkLimit "legal-acceptance" 20 Hour))
  | PutAccountDeletion _ => Signed (Some (mkLimit "account-deletion-intent" 10 (24 * Hour)))
  | GetAge => Signed (Some (mkLimit "age-assurance-read" 240 (24 * Hour)))
  | PutAge _ => Signed (Some (mkLimit "age-assurance-write" 10 (24 * Hour)))
  | CreateProfileUpload _ => Signed (Some (mkLimit "profile-avatar" 20 Hour))
  | CreateInvite _ | RevokeInvite => Signed (Some (mkLimit "conversation-invite-write" 120 Hour))
  | CreateUpload _ => SignedByUser (mkLimit "conversation-media-upload" 60 Hour)
  | PreviewInvite _ => Signed (Some (mkLimit "conversation-invite-preview" 120 Minute))
  | AcceptInvite _ => Signed (Some (mkLimit "conversation-invite-accept" 30 Minute))
  | CompleteUpload => SignedByUser (mkLimit "media-complete" 120 Hour)
  | _ => Signed None
  end.

Definition signed (e : Endpoint) : bool := match gate e with Open _ => false | _ => true end.

Section router.
Context `{GoRuntime, TokenLibrary, WireFormat, !AccountText, TimeText, JSONText, HMAC, !MailLibrary, NetIP}.
Context (env : Env) (server : Server) (trusted : list Prefix) (service : MediaService)
  (verifier : VerificationService) (Verify : nat → string → string → AppleAnswer).
Implicit Types (r : Request) (e : Endpoint).

Definition handler e r : Handler :=
  match e with
  | GetLegalPolicy => getLegalPolicy server
  | SubmitSupportCase body => submitSupportCase env server r body
  | SupportCaseStatus => supportCaseStatus env server r
  | ExecuteAccountDeletion body => executeAccountDeletionIntent env r body
  | Register body => register env server body
  | Login body => login env server body
  | StartPasswordReset body => startPasswordReset env server body
  | ConfirmPasswordReset body => confirmPasswordReset env server body
  | RefreshTokens body => refresh env server body
  | StartPhone body => startPhoneVerification verifier body
  | VerifyPhone body => verifyPhone env server verifier body
  | VerifyApple body => verifyAppleIdentity env server Verify body
  | Logout => logout env r
  | Me => me env r
  | ListBlocks => listBlocks env r
  | SetBlock => setBlock env r
  | GetLegalAcceptance => getLegalAcceptance env server r
  | AcceptLegalPolicy body => acceptLegalPolicy env server r body
  | DeleteAccount => deleteAccount env r
  | PutAccountDeletion body => putAccountDeletionIntent env r body
  | GetAge => getAgeAssurance env r
  | PutAge body => putAgeAssurance env r body
  | UpdateProfile body => updateProfile env r body
  | CreateProfileUpload body => createProfileMediaUpload env server service r body
  | StartPhoneLink body => startPhoneLink verifier body
  | VerifyPhoneLink body => verifyPhoneLink env verifier r body
  | LookupUsers body => lookupUsers env body
  | SearchUsers => searchUsers env r
  | ListDevices => listDevices env r
  | UpsertDevice body => upsertDevice env r body
  | PutPreKeys body => putPreKeys env r body
  | ClaimPreKey => claimPreKey env r
  | GetPresence => getPresence env r
  | ListConversations => listConversations env r
  | CreateConversation body => createConversation env r body
  | GetConversation => getConversation env r
  | UpdateConversation body => updateConversation env r body
  | DeleteConversation => deleteConversation env r
  | ListMembers => listMembers env r
  | AddMember body => addMember env r body
  | RemoveSelf => removeSelfMember env r
  | RemoveMember => removeMember env r
  | TransferOwner body => transferOwner env r body
  | CreateInvite body => createConversationInvite env r body
  | RevokeInvite => revokeConversationInvite env r
  | ListMessages => listMessages env r
  | CreateMessage body => createMessage env r body
  | ListReceipts => listReceipts env r
  | PutReceipt body => putReceipt env r body
  | CreateUpload body => createMediaUpload env server service r body
  | ListEntities => listEntities env r
  | PutEntity body => putEntity env r body
  | DeleteEntity => deleteEntity env r
  | RotateChore body => rotateChore env r body
  | PreviewInvite body => getConversationInvite env r body
  | AcceptInvite body => acceptConversationInvite env r body
  | CompleteUpload => completeMediaUpload env server service r
  | Download => mediaDownload env service r
  | DeleteMedia => deleteMedia env r
  end.

Definition limitIdentity (limit : Limit) : Middleware :=
  rateLimitIdentity env (Limit_namespace limit) (Limit_limit limit) (Limit_window limit).

Definition gated (g : Gate) : Middleware :=
  λ next,
  match g with
  | Open None => next
  | Open (Some limit) =>
    rateLimit env trusted (Limit_namespace limit) (Limit_limit limit) (Limit_window limit) true next
  | Signed None => authenticate env server (rateLimitIdentity env "user" 1200 Minute next)
  | Signed (Some limit) =>
    authenticate env server (rateLimitIdentity env "user" 1200 Minute (limitIdentity limit next))
  | SignedByUser limit =>
    authenticate env server (rateLimitIdentity env "user" 1200 Minute
      (rateLimitUser env (Limit_namespace limit) (Limit_limit limit) (Limit_window limit) next))
  end.

Definition serve e r : Handler :=
  rateLimit env trusted "api" 600 Minute false (gated (gate e) (handler e)) r.
End router.

(** ** Deadlines and health *)
Section deadlines.
Context `{GoRuntime}.

Definition trimSlashes (path : string) : string :=
  let fix drop (l : list ascii) := match l with
    | c :: l' => if bool_decide (c = "/"%char) then drop l' else l | [] => [] end in
  of_bytes (reverse (drop (reverse (drop (bytes_of path))))).

Definition isMediaCompletionRequest (method path : string) : bool :=
  bool_decide (method = "POST")
  && match Split "/"%char (trimSlashes path) with
     | [v1; media; id; complete] =>
       bool_decide (v1 = "v1") && bool_decide (media = "media") && bool_decide (complete = "complete")
       && bool_decide (is_Some (uuid_Parse id))
     | _ => false
     end.

(** The deadline of a request; the WebSocket has none. *)
Definition requestTimeoutByRoute (defaultTimeout mediaCompletionTimeout : Z) (method path : string) : option Z :=
  if bool_decide (path = "/v1/realtime") then None
  else Some (if isMediaCompletionRequest method path then mediaCompletionTimeout else defaultTimeout).

(** The checks are the pings of the store, the bus, the limiter, presence and the verifier. *)
Definition ready (buildRevision : string) (checks : list (option Error)) : Response :=
  if forallb (λ c, bool_decide (c = None)) checks
  then writeJSON 200 (Fields [("status", "ready"); ("revision", buildRevision)])
  else writeError 503 "not_ready" "A required dependency is unavailable.".

Definition live : Response := writeJSON 200 (Fields [("status", "ok")]).
End deadlines.
