(* ===== verification/RouterFacts.v ===== *)
(** * What holds of every endpoint *)

From Stdlib Require Import ZArith Lia Ascii.
From S2P Require Import Prelude.
From S2P Require Import Runtime.
From S2P Require Import GoText.
From S2P Require Import Domain.
From S2P Require Import Compliance.
From S2P Require Import StoreState.
From S2P Require Import AuthTokens.
From S2P Require Import Accounts.
From S2P Require Import Devices.
From S2P Require Import Anonymize.
From S2P Require Import Conversations.
From S2P Require Import Messages.
From S2P Require Import Entities.
From S2P Require Import MailQueue.
From S2P Require Import Verification.
From S2P Require Import Threads.
From S2P Require Import Http.
From S2P Require Import Middleware.
From S2P Require Import HttpAuth.
From S2P Require Import HttpConversations.
From S2P Require Import HttpConversationsFacts.
From S2P Require Import HttpMedia.
From S2P Require Import HttpIdentity.
From S2P Require Import HttpResets.
From S2P Require Import HttpCompliance.
From S2P Require Import HttpReference.
From S2P Require Import HttpAuthFacts.
From S2P Require Import Router.

(** The endpoints of conversations, messages, invitations, entities and blocks. *)
Definition conversation_endpoint (e : Endpoint) : bool :=
  match e with
  | ListBlocks | SetBlock | LookupUsers _ | SearchUsers | GetPresence | ListConversations
  | CreateConversation _ | GetConversation | UpdateConversation _ | DeleteConversation | ListMembers
  | AddMember _ | RemoveSelf | RemoveMember | TransferOwner _ | CreateInvite _ | RevokeInvite
  | ListMessages | CreateMessage _ | ListReceipts | PutReceipt _ | ListEntities | PutEntity _
  | DeleteEntity | RotateChore _ | PreviewInvite _ | AcceptInvite _ => true
  | _ => false
  end.

Lemma SetBlock_refused s a b block s' e :
  (let '(m, result) := Compliance.SetBlock (Store_compliance s) a b block in
   (s <| Store_compliance := m |>, result)) = (s', Err e) → kept s s'.
Proof.
  unfold Compliance.SetBlock. destruct (_ || _); [|by destruct block].
  intros [= <- _]. replace (s <| Store_compliance := Store_compliance s |>) with s by (by destruct s).
  apply kept_refl.
Qed.

Create HintDb refused.
#[local] Hint Resolve SetBlock_refused kept_refl CreateConversation_refused UpdateConversation_refused DeleteConversation_refused
  AddConversationMember_refused RemoveConversationMember_refused TransferConversationOwnership_refused
  CreateMessage_refused UpsertReceipt_refused PutEntity_refused DeleteEntity_refused RotateChore_refused
  CreateConversationInvite_refused AcceptConversationInvite_refused RevokeConversationInvite_refused : refused.

Section refusals.
Context `{GoRuntime, TokenLibrary, WireFormat, !AccountText, TimeText, JSONText, HMAC, !MailLibrary}.
Context (env : Env) (server : Server) (service : MediaService)
  (verifier : VerificationService) (Verify : nat → string → string → AppleAnswer).


(** Each access of the record is one that failed, or only looked. *)
Ltac quiet_list :=
  repeat first
    [ assumption
    | apply Forall_nil; exact I
    | apply Forall_cons; split; [first [exact I | apply kept_refl | by simpl; subst; eauto with refused
                                       | by simplify_eq; apply kept_refl]|]
    | apply Forall_app; split ].

(** An exit: the request was accepted, or its record is quiet. *)
Ltac quiet_exit :=
  first [ by apply quiet_refusal_accepted | apply quiet_refusal_quiet; by quiet_list ].

(** The checks before a conversation is opened only look at the store. *)
Lemma checkMembers_quiet {B} userID ids (k : unit → H B) (Q : list Effect → Outcome B → Prop) :
  (∀ c r, Forall quiet c → (400 ≤ Response_Status r)%Z → Q c (Done r)) →
  (∀ c, Forall quiet c → replies (k tt) (λ c' o, Q (c ++ c') o)) →
  replies (checkMembers env userID ids ≫= k) Q.
Proof.
  revert Q. induction ids as [|id ids IH]; intros Q He Hk; cbn [checkMembers].
  { handler_step. by apply (Hk []). }
  destruct (bool_decide _); [by apply IH|]. unfold communicationAllowed. handler_run.
  - apply He; [by quiet_list|done].
  - apply He; [by quiet_list|]. apply domain_error_status.
  - apply IH.
    + intros c r Hc Hr. apply He; [by quiet_list|done].
    + intros c Hc. apply (Hk (Access _ _ :: Access _ _ :: c)). by quiet_list.
Qed.

Lemma createInvite_quiet {B} fuel cid actorID expiresIn maxUses err
    (k : string * ConversationInvite → H B) (Q : list Effect → Outcome B → Prop) :
  (∀ c r, Forall quiet c → (400 ≤ Response_Status r)%Z → Q c (Done r)) →
  (∀ c x, replies (k x) (λ c' o, Q (c ++ c') o)) →
  replies (createInvite_attempts env fuel cid actorID expiresIn maxUses err ≫= k) Q.
Proof.
  revert err Q. induction fuel as [|fuel IH]; intros err Q He Hk; cbn [createInvite_attempts].
  { handler_step. apply He; [done|]. apply domain_error_status. }
  handler_run; try (apply He; [by quiet_list|by first [done|apply domain_error_status]]).
  - apply (Hk [_] (_, _)).
  - apply IH.
    + intros c r Hc Hr. apply He; [by quiet_list|done].
    + intros c x'. apply (Hk (_ :: c)).
Qed.

Lemma createConversation_quiet r body : replies (createConversation env r body) quiet_refusal.
Proof.
  unfold createConversation. handler_run; try quiet_exit. apply checkMembers_quiet.
  - intros c resp Hc _. quiet_exit.
  - intros c Hc. handler_run; quiet_exit.
Qed.

Lemma createConversationInvite_quiet r body : replies (createConversationInvite env r body) quiet_refusal.
Proof.
  unfold createConversationInvite, requestConversation, pathID. handler_run; try quiet_exit.
  all: apply createInvite_quiet; [intros c resp Hc _; quiet_exit|intros c [token invite]; handler_run; quiet_exit].
Qed.

Ltac open_handler :=
  unfold listBlocks, setBlock, lookupUsers, searchUsers, getPresence, listConversations,
    getConversation, updateConversation, deleteConversation, listMembers, addMember, removeSelfMember,
    removeMember, removeConversationMember, transferOwner, revokeConversationInvite, listMessages,
    createMessage, checkEnvelope, listReceipts, putReceipt, listEntities, putEntity, deleteEntity,
    rotateChore, getConversationInvite, acceptConversationInvite, conversationInviteTokenFromBody,
    requestConversation, pathID, requiredExpectedVersion, recipientsOf, publishMembershipEvent,
    publishEvent, communicationAllowed.


(** ** Every endpoint answers *)

Definition answered {A} (c : list Effect) (o : Outcome A) : Prop :=
  match o with Done r => (200 ≤ Response_Status r < 600)%Z | Next _ => False end.

(** A part of a handler: it answers, or goes on. *)
Definition part {A} (c : list Effect) (o : Outcome A) : Prop :=
  match o with Done r => (200 ≤ Response_Status r < 600)%Z | Next _ => True end.

Lemma domain_error_range e : (200 ≤ Response_Status (writeDomainError e) < 600)%Z.
Proof. by destruct e. Qed.

Ltac answer := by first [apply domain_error_range | done].

Lemma part_bind {A B} (m : H A) (f : A → H B) :
  replies m part → (∀ x, replies (f x) answered) → replies (m ≫= f) answered.
Proof. intros Hm Hf. eapply replies_bind; [exact Hm|done|]. intros c x _. apply Hf. Qed.

Lemma checkMembers_part userID ids : replies (checkMembers env userID ids) part.
Proof.
  induction ids as [|id ids IH]; cbn [checkMembers]; [by handler_step|].
  destruct (bool_decide _); [exact IH|]. unfold communicationAllowed. handler_run; first [answer|exact IH].
Qed.

Lemma createInvite_part fuel cid actorID expiresIn maxUses err :
  replies (createInvite_attempts env fuel cid actorID expiresIn maxUses err) part.
Proof.
  revert err. induction fuel as [|fuel IH]; intros err; cbn [createInvite_attempts].
  { handler_step. answer. }
  handler_run; first [answer|apply IH].
Qed.

Lemma sendError_range err : (200 ≤ Response_Status (sendError err) < 600)%Z.
Proof. destruct err; try done; simpl; by case_match. Qed.

Lemma checkError_range err : (200 ≤ Response_Status (checkError err) < 600)%Z.
Proof. destruct err; try done; simpl; repeat (case_match; try done). Qed.

Lemma writeRotateChoreError_range e : (200 ≤ Response_Status (writeRotateChoreError e) < 600)%Z.
Proof. by destruct e. Qed.

Ltac answer ::= by first [apply domain_error_range | apply sendError_range | apply checkError_range
                         | apply writeRotateChoreError_range | done].

Ltac open_all := open_handler;
  unfold getLegalPolicy, submitSupportCase, supportCaseStatus, executeAccountDeletionIntent, register, login,
    startPasswordReset, recordChallenge, confirmPasswordReset, refresh, Refresh, startPhoneLink,
    startPhoneVerification, verifyPhone, userForPhone, verifyAppleIdentity, userForApple,
    byEmailIfAbsent, registrationAcceptance, createUser, logout, me, getLegalAcceptance, acceptLegalPolicy,
    repository, deleteAccount, putAccountDeletionIntent, getAgeAssurance, putAgeAssurance, updateProfile,
    validLegacyProfileMediaReference, createProfileMediaUpload,
    verifyPhoneLink, verify_call, listDevices, upsertDevice, putPreKeys, claimPreKey, createMediaUpload,
    completeMediaUpload, claimLease, verificationFailed, publishVerified, latestReady, mediaDownload,
    deleteMedia, writeMediaUpload, rejectReservation, call_media, IssueWithDevice, newAuthDevice, orNotFound,
    allow, publishSessionRevocation, releaseSessionFence, createConversation, createConversationInvite,
    pathID, requestConversation.

(** A record may be as long as it likes. *)
Lemma answered_deferred e (m : Handler) : replies m answered → replies (deferred (record e) m) answered.
Proof. intros Hm. apply replies_deferred. exact Hm. Qed.

Lemma handler_answers (e : Endpoint) r :
  replies (handler env server service verifier Verify e r) answered.
Proof.
  destruct e; cbn [handler]; do 2 open_all.
  all: handler_run; try answer.
  all: match goal with |- replies ?m _ => change (replies m answered) end.
  all: first [apply answered_deferred | eapply part_bind; [first [apply checkMembers_part|apply createInvite_part]|intros ?]].
  all: handler_run; answer.
Qed.
End refusals.

(** ** The gates *)
Section gates.
Context `{GoRuntime, TokenLibrary, WireFormat, !AccountText, TimeText, JSONText, HMAC, !MailLibrary, NetIP}.
Context (env : Env) (server : Server) (trusted : list Prefix) (service : MediaService)
  (verifier : VerificationService) (Verify : nat → string → string → AppleAnswer).

Abbreviation serve := (serve env server trusted service verifier Verify).
Abbreviation handler := (handler env server service verifier Verify).

(** [m] can leave this record and this outcome. *)
Definition performs {A} (m : H A) (c : list Effect) (o : Outcome A) : Prop :=
  ∃ s l s' l', m s l = (s', l', o) ∧ Local_calls l' = Local_calls l ++ c.

Lemma replies_performs {A} (m : H A) (P : list Effect → Outcome A → Prop) :
  replies m P → replies m (λ c o, P c o ∧ performs m c o).
Proof.
  intros Hm s l s' l' o Ho. destruct (Hm _ _ _ _ _ Ho) as (c & Hc & HP). exists c.
  split_and!; [done..|]. by exists s, l, s', l'.
Qed.

(** Accesses that changed nothing, and questions to the limiter. *)
Definition only_looks (c : list Effect) : Prop :=
  Forall (λ e, match e with Access s s' => s = s' | Limited _ _ _ _ => True | _ => False end) c.

(** A refusal of a gate. *)
Definition turned_away (c : list Effect) (resp : Response) : Prop :=
  only_looks c ∧ Response_Status resp ∈ [401; 429; 503]%Z.

(** The limits by identity and by user, behind authentication. *)
Lemma replies_byKey (middleware : Middleware) next r id (Q : list Effect → Outcome unit → Prop) :
  (∃ namespace limit window, middleware = rateLimitIdentity env namespace limit window
     ∨ middleware = rateLimitUser env namespace limit window) →
  (∀ resp key limit window answer, Response_Status resp ∈ [401; 429; 503]%Z →
     Q [Limited key limit window answer] (Done resp)) →
  (∀ key limit window answer, replies (next (withIdentity r id))
     (λ c o, Q (Limited key limit window answer :: c) o)) →
  replies (middleware next (withIdentity r id)) Q.
Proof.
  intros (namespace & limit & window & [-> | ->]) Hno Hnext;
    unfold rateLimitIdentity, rateLimitUser, allow, admitted; simpl; handler_run; try apply Hnext.
  all: first [done | apply Hno; cbn; set_solver].
Qed.

(** Behind a gate for signed-in users. *)
Lemma replies_signed g next r (Q : list Effect → Outcome unit → Prop) :
  match g with Open _ => False | _ => True end →
  (∀ c resp, turned_away c resp → Q c (Done resp)) →
  (∀ id s c, authorised env server r id s → only_asked c →
     replies (next (withIdentity r id)) (λ c' o, Q (Access s s :: c ++ c') o)) →
  replies (gated env server trusted g next r) Q.
Proof.
  intros Hg Hno Hyes.
  assert (Hempty : ∀ c, Forall (λ e, ∃ s, e = Access s s) c → Q c (Done (writeDomainError ErrUnauthenticated))).
  { intros c Hc. apply Hno. split; [|cbn; set_solver].
    eapply Forall_impl; [exact Hc|]. by intros e [s ->]. }
  destruct g as [l|[l|]|l]; [done|..]; simpl; (apply replies_authenticate; [exact Hempty|]); intros id s Hid.
  all: apply replies_byKey; [by eauto|by intros; apply Hno; split; [by repeat constructor|]|intros ????].
  all: try (apply replies_byKey; [by eauto|by intros; apply Hno; split; [by repeat constructor|]|intros ????]).
  - by apply (Hyes _ _ [Limited _ _ _ _; Limited _ _ _ _]); [|repeat constructor].
  - by apply (Hyes _ _ [Limited _ _ _ _]); [|repeat constructor].
  - by apply (Hyes _ _ [Limited _ _ _ _; Limited _ _ _ _]); [|repeat constructor].
Qed.

(** An open gate; [Q] does not depend on the record. *)
Lemma replies_open (l : option Limit) (next : Request → Handler) r :
  replies (next r) answered → replies (gated env server trusted (Open l) next r) answered.
Proof.
  intros Hnext. destruct l as [l|]; simpl; [|exact Hnext].
  apply replies_rateLimit; [done..|intros ? _; exact Hnext].
Qed.

(** C5. Every request to every endpoint is answered, with a status between
    200 and 599, whatever the other requests, the limiter, the media service and the verifiers
    do meanwhile: past the gates there is no way through a handler without a response. *)
Theorem requests_answered (e : Endpoint) r : replies (serve e r) answered.
Proof.
  unfold Router.serve. apply replies_rateLimit; [done..|]. intros e0 _.
  pose proof (handler_answers env server service verifier Verify e) as Hh.
  destruct (gate e) as [l|l|l]; [by apply replies_open|..].
  all: apply replies_signed; [done| |intros id s c _ _; apply Hh].
  all: intros c resp [_ Hr]; cbn; set_solver by lia.
Qed.

(** C6. An endpoint for signed-in users, called by anyone: either
    the request is turned away with 401, 429 or 503, and the server has only asked the limiter
    and looked at the store; or at some moment the token of the request named an account, a
    device and a session that was live in the store, and everything after that is what the
    handler does with exactly this identity. *)
Theorem endpoints_authenticated (e : Endpoint) r :
  signed e = true →
  replies (serve e r) (λ c o, ∃ resp, o = Done resp ∧
    (turned_away c resp ∨
     ∃ id s before between after, c = before ++ Access s s :: between ++ after ∧
       only_asked before ∧ only_asked between ∧ authorised env server r id s ∧
       performs (handler e (withIdentity r id)) after (Done resp))).
Proof.
  intros He. unfold Router.serve.
  assert (Haway : ∀ c resp, only_asked c → Response_Status resp ∈ [401; 429; 503]%Z → turned_away c resp).
  { intros c resp Hc Hr. split; [|done]. eapply Forall_impl; [exact Hc|]. by intros []. }
  apply replies_rateLimit.
  1,2: intros c Hc; eexists; split; [reflexivity|]; left; apply Haway; [done|cbn; set_solver].
  intros asked Hasked. apply replies_signed; [by unfold signed in He; destruct (gate e)|..].
  { intros c resp [Hc Hr]. exists resp. split; [done|]. left. split; [|done].
    constructor; [|done]. apply Forall_inv in Hasked. by destruct asked. }
  intros id s between Hid Hbetween.
  eapply replies_weaken; [apply replies_performs, handler_answers|].
  intros after o [Ho Hperf]. destruct o as [resp|]; [|done]. exists resp. split; [done|]. right.
  by exists id, s, [asked], between, after.
Qed.
End gates.

(** ** Concrete runs *)
Section witnesses.
#[local] Existing Instance Reference.runtime.
#[local] Existing Instance ReferenceText.text.
#[local] Existing Instance ReferenceMail.library.
#[local] Existing Instance ReferenceTokens.library.
#[local] Existing Instance ReferenceHttp.wire.
#[local] Existing Instance ReferenceHttp.time_text.
#[local] Existing Instance ReferenceHttp.json_text.
#[local] Existing Instance ReferenceHttp.hmac.
#[local] Existing Instance ReferenceHttp.net.

Definition sample_serve : Endpoint → Request → Handler :=
  Router.serve ReferenceHttp.env ReferenceHttp.server [] UnavailableMedia Unavailable (λ _ _ _, AppleUnavailable).
Definition sample_handler : Endpoint → Request → Handler :=
  Router.handler ReferenceHttp.env ReferenceHttp.server UnavailableMedia Unavailable (λ _ _ _, AppleUnavailable).

(** The header a registration entitles to. *)
Definition sample_authorization : string :=
  match snd (ReferenceHttp.run (register ReferenceHttp.env ReferenceHttp.server (Body sample_credentials)) New) with
  | Done (mkResponse _ _ (AuthBody _ _ tokens)) => bearer +:+ TokenPair_AccessToken tokens
  | _ => ""
  end.
Definition sample_me : Request :=
  ReferenceHttp.request [("Authorization", sample_authorization)] [] [] None.

Lemma endpoints_authenticated_witness :
  ReferenceHttp.status (snd (ReferenceHttp.run (sample_serve Me sample_me) registered_store)) = 200%Z ∧
  ReferenceHttp.status (snd (ReferenceHttp.run (sample_serve Me sample_me) New)) = 401%Z ∧
  replies (sample_serve Me sample_me) (λ c o, ∃ resp, o = Done resp ∧
    (turned_away c resp ∨ ∃ id after, performs (sample_handler Me (withIdentity sample_me id)) after (Done resp))).
Proof.
  split; [vm_compute; reflexivity|]. split; [vm_compute; reflexivity|].
  eapply replies_weaken; [exact (endpoints_authenticated ReferenceHttp.env ReferenceHttp.server [] UnavailableMedia
    Unavailable (λ _ _ _, AppleUnavailable) Me sample_me eq_refl)|].
  intros c o (resp & -> & Hr). exists resp. split; [reflexivity|].
  destruct Hr as [Hr|(id & s & before & between & after & _ & _ & _ & _ & Hp)]; [by left|].
  right. exists id, after. exact Hp.
Defined.

Definition sample_delete : Request :=
  ReferenceHttp.request [] [] [("conversationID", uuid_String (uuid_of_N 5))]
    (Some (mkIdentity (uuid_of_N 1) (uuid_of_N 2) (uuid_of_N 3))).

End witnesses.
